(* ===== verification/_CoqProject ===== *)
-Q . S2P
Prelude.v
Protocol.v
Wire.v
Qerr.v
Frames.v
AckFrame.v
Frame.v
ReceivedPackets.v
StreamFrameSorter.v
Handshake.v
PublicHeader.v
PacketUnpacker.v
FlowControl.v
Floats.v
RTTStats.v
SendAlgorithm.v
SentPackets.v
Congestion.v
LinkedList.v
ListRefinement.v
HistoryRefinement.v
SorterRefinement.v
PacketNumberGenerator.v
StreamsMap.v
Stream.v
StreamFramer.v
PacketPacker.v
Session.v
SessionSafety.v
SessionSend.v
SessionRun.v
SessionSamples.v
CertDict.v
Crypto.v
GoStrings.v
Certs.v
CertManager.v
ServerConfig.v
CryptoSetupServer.v
CryptoSetupClient.v
Server.v
Client.v
EndpointSamples.v
CryptoHello.v
CryptoHandshake.v
SecureSession.v
CryptoSamples.v
Httplex.v
Http.v
H2Messages.v
H2Server.v
H2Client.v
RoundTrip.v
H2Exchange.v
H2Samples.v
Proxy.v
Utilities.v
Examples.v
