(* ===== verification/Prelude.v ===== *)
(** * A verification of plus-quic-go: transport, handshake, endpoints and HTTP

    plus-quic-go is an implementation of gQUIC in Go (package [quic] and its
    subpackages under src/), extended by the PLUS feedback frame.  A session
    receives packets, unpacks their frames and hands them to the streams, the ack
    handler and flow control; it packs frames into packets and retransmits what is
    lost.  Its crypto setup runs the handshake on stream 1 and opens and seals the packets.
    A server hands the datagrams to the sessions of its connections; a client has one
    session, which it replaces when a version is negotiated.  On top of the sessions,
    h2quic/ sends HTTP requests and responses, whose headers go over stream 3 and whose
    bodies are streams of their own.  This library models the components, the session that
    connects them, the two endpoints and the HTTP client and server, as functions on
    explicit states, and proves what each promises to the others.

    ** Conventions

    - A Go integer is a [Z]; where the code may wrap around, [u8] ... [u64] and
      [i64] say so.  Bytes are a [list Z] with [bytes_ok].
    - A fallible function returns [res A]: [Ok], [Err] with a Go error, or [Panic]
      (an index out of range, a nil dereference, an explicit panic; in Session.v also
      an operation on a channel that blocks for ever).  An operation on a mutable
      object takes its state and returns the new one together with the result, so that
      the changes made before an error stay visible.
    - Clock readings are arguments, as nanoseconds; 0 is the zero [time.Time].
    - A map is a [gmap], a set a [gset].  A linked list is the list of its values;
      LinkedList.v has the pointers, and ListRefinement.v relates the two.
    - Interfaces between components are classes with a class of laws:
      [ConnectionParametersManager] (Handshake.v) for flow control, [quicAEAD]
      (PacketUnpacker.v) for decryption, [SendAlgorithm] (SendAlgorithm.v) for
      congestion control, [FlowControlManager] (FlowControl.v) for streams, framer and
      packer, [CryptoSetup] (PacketPacker.v) for the session, [CertChain] and [CertManager]
      (CertManager.v) for the crypto setups, [PacketHandler] (Server.v) for the endpoints,
      [Hpack], [Framer] and [MetaHeaders] (Http.v) for HTTP.
      Client theorems are proved against the laws, and the implementation discharges them.
    - The states of a component that are reachable from its constructor by its
      operations are an inductive relation ([..._reach], [session_run]); invariants are
      proved by rule induction over it.
    - Concurrency: what a goroutine does between two lock operations or two channel
      operations is one step; steps of different goroutines interleave in any order.  The
      framer and the packer take the steps of the application that fall between their critical
      sections as an argument, [appSteps]; the session takes from its environment what its
      crypto setup has sent on [aeadChanged] so far and whether it is ready to receive.

    ** Files

    - Prelude.v: machine integers, [res] with its monad notation, [safe], generic
      lemmas on lists and maps, hint databases, tactics.
    - Protocol.v: protocol/ and utils/minmax.go: constants, packet number lengths
      and inference, version choice.
    - Wire.v: utils/utils.go and utils/float16.go: little-endian integers, the 16-bit
      float.
    - Qerr.v: qerr/: error codes and conversion.
    - Frames.v, AckFrame.v, Frame.v: frames/: one record per frame type with [Write],
      [MinLength] and [Parse], and the sum of them.
    - ReceivedPackets.v: ackhandler/received_packet_*.go: the history of received
      packets, duplicates, the ACK policy.
    - StreamFrameSorter.v: stream_frame_sorter.go: reassembly of a stream.
    - Handshake.v: handshake/handshake_message.go, tags.go and
      connection_parameters_manager.go.
    - PublicHeader.v: public_header.go, public_reset.go and
      [composeVersionNegotiation] of server.go.
    - PacketUnpacker.v: packet_unpacker.go.
    - FlowControl.v: flowcontrol/.
    - Floats.v: rounding of single and double precision, saturating time
      differences.
    - RTTStats.v, SendAlgorithm.v, Congestion.v: congestion/.
    - SentPackets.v: ackhandler/sent_packet_handler.go, packet.go and
      stop_waiting_manager.go.
    - LinkedList.v, ListRefinement.v, HistoryRefinement.v, SorterRefinement.v: the generated
      linked lists of utils/ and ackhandler/ on a heap, their refinement to lists, and the
      received packet history and the stream frame sorter on top of them.
    - PacketNumberGenerator.v: packet_number_generator.go.
    - StreamsMap.v: streams_map.go: the table of streams and its round-robin order.
    - Stream.v, StreamFramer.v: stream.go and stream_framer.go: reading and writing, and
      the STREAM frames of a packet.
    - PacketPacker.v: packet_packer.go, from the queues to a packet and to the peer.
    - Session.v: session.go: the run loop with its timer and channels, the handlers of all
      frames, sending, closing, and the interleavings with network and application.
    - SessionSafety.v, SessionSend.v, SessionRun.v: what the components rely on of each
      other as one invariant of the session, its preservation by receiving and by
      sending, and the theorems on all runs.  SessionSamples.v: concrete runs.
    - Crypto.v: crypto/nonce.go, null_aead.go, aesgcm_aead.go, key_derivation.go,
      curve_25519.go and source_address_token.go.
    - CertDict.v, Certs.v: crypto/cert_dict.go, cert_compression.go, cert_sets.go and
      cert_cache.go: compressed certificate chains and their cache.
    - CertManager.v: crypto/cert_chain.go, config_for_client_1.8.go, server_proof.go and
      cert_manager.go: certificates and proofs of the server, and their verification.
    - ServerConfig.v: handshake/server_config.go, server_config_client.go and
      ephermal_cache.go.
    - CryptoSetupServer.v, CryptoSetupClient.v: handshake/crypto_setup_server.go and
      crypto_setup_client.go, in the state and error monad [SR].
    - CryptoHello.v, CryptoHandshake.v: the hellos of the two sides, and a run of both
      setups against each other.
    - SecureSession.v: the session of Session.v with the crypto setup in place of the
      interface that the theorems of SessionRun.v are proved against.
    - Server.v, Client.v: server.go, client.go, buffer_pool.go and [Config] of interface.go:
      the table of sessions, the dispatch of datagrams, version negotiation, closing.
    - CryptoSamples.v, EndpointSamples.v: concrete handshakes, servers and clients.
    - GoStrings.v, Httplex.v: what h2quic uses of the standard library on strings, and the
      vendored package lex/httplex.
    - Http.v: the interfaces to net/http, net/url, hpack and the HTTP/2 framer.
    - H2Messages.v: h2quic/request_writer.go, response_writer.go, request.go, response.go:
      the header fields of requests and responses, both ways.
    - H2Server.v: h2quic/server.go and request_body.go.  H2Client.v, RoundTrip.v:
      h2quic/client.go and roundtrip.go, the calls and the reading goroutine as steps.
    - H2Exchange.v, H2Samples.v: client and server together, and concrete exchanges.
    - Proxy.v: integrationtests/proxy/.  Utilities.v: logging, host names, atomic flags,
      connection IDs and conn.go.  Examples.v: the loops of the programs in example/.

    ** What the theorems show

    - Formats: frames, public headers, public resets, version negotiation packets and
      handshake messages survive writing and parsing, with the lengths that
      [MinLength] or [GetLength] announce; an ACK frame that has to be cut
      acknowledges nothing that was not received.  Parsers do not panic on any
      bytes, and accept only values on which the rest of the code may rely.
    - Receiving: ACK frames acknowledge exactly what was received, every duplicate is
      refused, and ACKs become available; streams are reassembled for every order,
      overlap and duplication of frames, and what [Read] returns is the stream; flow
      control accepts exactly what fits into the windows, keeps the connection's counters
      equal to the sums over the streams, and never stalls the peer.
    - Sending: what the application writes is what the frames carry, in order, and within
      the windows if nothing is written to an idle stream while the framer looks at it; a packet carries what was queued, and the peer that opens it gets
      exactly its frames; no sent packet is forgotten, the bytes in flight are those of
      the outstanding packets, and the effect of ACKs and of the alarm is characterised; the congestion window stays within its bounds; the RTT
      statistics are those of the samples.
    - The session: in every run, with any peer and any interleaving, no iteration of the
      run loop panics, blocks or fails to end, except that a client blocks on a diversification
      nonce that its crypto setup does not receive; the channels of the handshake have room for
      what is sent on them, and a closed session ends; the timer is set to the earliest deadline;
      the session closes once, and closing does what its error asks for.
    - The handshake: a client and a server with the crypto setup, the server config, the
      certificates and the key derivation as they are end, after three hellos, with a
      verified server, with keys that fit each other and with each other's parameters;
      the keys of a client come from a server config and a certificate that it has verified,
      while no proof is empty; neither side panics on what the
      other one sends or is downgraded to a lower encryption level; certificate chains
      survive compression when no read of the decompressor is short, the cache of compressed
      chains is transparent unless its hash collides or two requests divide the same bytes
      differently, and source
      address tokens are bound to their address and time.
    - The endpoints: the server's table has exactly the sessions that run and the closed
      ones whose deletion is pending; every packet reaches its session or gets the reply
      that the code means; version negotiation ends with a common version and a session
      on both sides.
    - HTTP: the requests of a client reach the handlers of the server in order, each on its
      stream and with its headers; a handler gives exactly one response, whatever it does;
      in every interleaving, a call gets a response that was written for its stream; a
      request goes to the client of its host.
    - Linked lists: the history and the sorter on pointers return what they return on lists.
    - Deviations: theorems of kind "error" state where the code does not do what it
      means to, each on a concrete or a general input.

    ** Bounds and fuel

    [unpackFrames] recurses on the unread bytes, which every frame shortens; its fuel
    is the length of the packet, and running out of it would be a panic, which the
    theorems exclude.  [estimateLoop] of Congestion.v has the number of acknowledged
    packets as fuel, which each iteration decreases.  [openRemoteStreams] has one more
    than the number of stream IDs up to the requested one; [popBlockedFrames] the length
    of the queue; a [Read] ends within [3 * want + 2] steps.  [readEntries] and [readPubs] have
    the length of their input, [readCerts] the bytes and chunks of decompressed data.  [sendPacket] takes a number
    of rounds and a list of environments, one per reading of the clock; [enough] of them
    are [MaxTrackedSentPackets] rounds and one environment for each round and each queued
    packet, and then [sendPacket] comes to its end.
    The loop of [handleHeaderStream] has the length of the header stream, which every frame
    shortens, and the loops of the sorter on its linked list one more than the number of
    gaps.  Other recursions are structural.
    Hypotheses on sizes (packet numbers below 2^46 or 2^48, RTTs below minutes, fewer than
    2^62 bytes read, gaps that an ACK frame can express) are stated where they are used,
    and every theorem with hypotheses has a witness that applies it at a concrete input.

    ** What is not modelled

    The sockets and the resolution of addresses ([ListenAddr], [DialAddr]) and the
    PLUS library, which are outside the program: their results are arguments of the
    definitions that use them.  The cryptographic algorithms, zlib, X.509, the common
    certificate sets and the LRU cache are of other packages or of the standard library:
    they are classes whose laws state their documented behaviour, with concrete instances in
    the witnesses.  crypto/chacha20poly1305_aead.go and config_for_client_pre1.8.go are
    excluded from the build.  Of HTTP, hpack, the framer, net/url, idna and gzip are classes
    or arguments in the same way; trailers, which the code does not send, and time are left
    out.  Of the examples, flags, files, HTML, the demonstration handlers of example/main.go
    and the straight-line programs puic-get and wwwsrv are left out, as they only call other
    packages.  The texts of log messages, the names of error codes (generated), test data
    and the helpers of the tests are not modelled.  The linked lists of utils/ and of
    ackhandler/ are copies of one template, which is modelled once for all element types.
    Mutexes are not modelled where a method holds its lock throughout. *)

From stdpp Require Export base numbers list gmap strings fin_maps sorting.
From Stdlib Require Export ZArith Lia.

#[export] Set Default Goal Selector "!".
#[export] Set Warnings "-clear-no-such-hyp".
#[global] Open Scope Z_scope.

(** ** Machine integers

    A Go integer of width [w] is a [Z]; the conversions and the wrap-around of
    its operations are written out with the functions below. *)

Definition u8 (z : Z) : Z := z mod 2 ^ 8.
Definition u16 (z : Z) : Z := z mod 2 ^ 16.
Definition u32 (z : Z) : Z := z mod 2 ^ 32.
Definition u64 (z : Z) : Z := z mod 2 ^ 64.
Definition i64 (z : Z) : Z := (z + 2 ^ 63) mod 2 ^ 64 - 2 ^ 63.

Definition is_u8 (z : Z) : Prop := 0 <= z < 2 ^ 8.
Definition is_u16 (z : Z) : Prop := 0 <= z < 2 ^ 16.
Definition is_u32 (z : Z) : Prop := 0 <= z < 2 ^ 32.
Definition is_u64 (z : Z) : Prop := 0 <= z < 2 ^ 64.

(** A byte slice is a list of bytes. *)
Definition bytes_ok (l : list Z) : Prop := Forall is_u8 l.

(** Go's [len] *)
Definition len {A} (l : list A) : Z := Z.of_nat (length l).

Create HintDb quic.
Create Rewrite HintDb quic_len.

Ltac unfold_width := unfold u8, u16, u32, u64, i64, is_u8, is_u16, is_u32, is_u64 in *.

Lemma u8_range z : is_u8 (u8 z).
Proof. apply Z.mod_pos_bound. lia. Qed.
Lemma u16_range z : is_u16 (u16 z).
Proof. apply Z.mod_pos_bound. lia. Qed.
Lemma u32_range z : is_u32 (u32 z).
Proof. apply Z.mod_pos_bound. lia. Qed.
Lemma u64_range z : is_u64 (u64 z).
Proof. apply Z.mod_pos_bound. lia. Qed.

Lemma u8_small z : is_u8 z -> u8 z = z.
Proof. apply Z.mod_small. Qed.
Lemma u16_small z : is_u16 z -> u16 z = z.
Proof. apply Z.mod_small. Qed.
Lemma u32_small z : is_u32 z -> u32 z = z.
Proof. apply Z.mod_small. Qed.
Lemma u64_small z : is_u64 z -> u64 z = z.
Proof. apply Z.mod_small. Qed.
Lemma i64_small z : - 2 ^ 63 <= z < 2 ^ 63 -> i64 z = z.
Proof. intros. unfold i64. rewrite Z.mod_small; lia. Qed.

Lemma u64_add_l a b : u64 (u64 a + b) = u64 (a + b).
Proof. apply Zplus_mod_idemp_l. Qed.
Lemma u64_sub_l a b : u64 (u64 a - b) = u64 (a - b).
Proof. apply Zminus_mod_idemp_l. Qed.
Lemma u64_sub_r a b : u64 (a - u64 b) = u64 (a - b).
Proof. apply Zminus_mod_idemp_r. Qed.

(** A mask bounds the result. *)
Lemma land_bounds a m : 0 <= a -> 0 <= m -> 0 <= Z.land a m <= m.
Proof.
  intros Ha Hm. split; [by apply Z.land_nonneg; left|].
  assert (Z.ldiff (Z.land a m) m = 0) as E.
  { apply Z.bits_inj'. intros n Hn. rewrite Z.ldiff_spec, Z.land_spec, Z.bits_0.
    by destruct (Z.testbit a n), (Z.testbit m n). }
  pose proof (Z.sub_nocarry_ldiff m (Z.land a m) E) as Hs.
  assert (0 <= Z.ldiff m (Z.land a m)) by (apply Z.ldiff_nonneg; by left). lia.
Qed.

#[export] Hint Resolve u8_range u16_range u32_range u64_range : quic.

(** Rewrites [u64 e] to [e] when [lia] shows that nothing wraps. *)
Ltac nowrap_at w lem :=
  match goal with
  | |- context [w ?e] => rewrite (lem e) by (unfold_width; lia)
  | H : context [w ?e] |- _ => rewrite (lem e) in H by (unfold_width; lia)
  end.
Ltac nowrap :=
  repeat first
    [ nowrap_at u64 u64_small | nowrap_at u32 u32_small
    | nowrap_at u16 u16_small | nowrap_at u8 u8_small ].

(** ** Errors and results

    Go's [error] values: the sentinel errors of [io], [errors.New], a formatted
    error, a bare [qerr.ErrorCode], and a [*qerr.QuicError] with its code and
    its message, which can be the text of another error. *)

Inductive goerror : Type :=
| EOF
| ErrUnexpectedEOF
| ErrNew (msg : string)
| Errorf (fmt : string) (args : list Z)
| ErrorCodeErr (code : Z)
| QuicError (code : Z) (msg : errmsg)
with errmsg : Type :=
| Msg (s : string)
| Msgf (fmt : string) (args : list Z)
| MsgOf (e : goerror).

#[local] Fixpoint goerror_eq_dec (x y : goerror) {struct x} : {x = y} + {x <> y}
with errmsg_eq_dec (x y : errmsg) {struct x} : {x = y} + {x <> y}.
Proof.
  - decide equality; first [apply string_eq_dec | apply (decide (_ = _)) ].
  - decide equality; first [apply string_eq_dec | apply (decide (_ = _)) ].
Defined.

(** Comparing an error with a sentinel *)
#[export] Instance goerror_eq_decision : EqDecision goerror := goerror_eq_dec.

(** The outcome of a Go function that returns a value and an error; [Panic] is
    a run-time panic (an index out of range, an explicit [panic]). *)
Inductive res (A : Type) : Type :=
| Ok (a : A)
| Err (e : goerror)
| Panic.
Arguments Ok {A} _.
Arguments Err {A} _.
Arguments Panic {A}.

Definition rbind {A B} (m : res A) (k : A -> res B) : res B :=
  match m with
  | Ok a => k a
  | Err e => Err e
  | Panic => Panic
  end.

Definition rmap {A B} (f : A -> B) (m : res A) : res B := rbind m (fun a => Ok (f a)).

Declare Scope res_scope.
Delimit Scope res_scope with res.
Notation "'let!' x ':=' m 'in' k" := (rbind m (fun x => k))
  (at level 10, x pattern, m at level 100, k at level 200,
   format "'[v' 'let!'  x  ':='  m  'in' '/' k ']'") : res_scope.
#[global] Open Scope res_scope.

Definition is_ok {A} (m : res A) : bool := match m with Ok _ => true | _ => false end.

Lemma rbind_ok {A B} (m : res A) (k : A -> res B) b :
  rbind m k = Ok b <-> exists a, m = Ok a /\ k a = Ok b.
Proof.
  destruct m as [a|e|]; simpl; (split; [intros Hk|intros (a' & Ha & Hk)]);
    solve [eauto | congruence].
Qed.

(** Splits a successful computation into its steps. *)
Ltac inv_ok :=
  repeat match goal with
  | H : rbind _ _ = Ok _ |- _ => apply rbind_ok in H as (? & ? & H)
  | H : Ok _ = Ok _ |- _ => injection H as H; try subst
  | H : Err _ = Ok _ |- _ => discriminate H
  | H : Panic = Ok _ |- _ => discriminate H
  | H : (_, _) = (_, _) |- _ => injection H as H; try subst
  end.

(** [safe m P]: the computation does not panic, and a value it returns
    satisfies [P]. *)
Definition safe {A} (m : res A) (P : A -> Prop) : Prop :=
  match m with
  | Ok a => P a
  | Err _ => True
  | Panic => False
  end.

Lemma safe_bind {A B} (m : res A) (k : A -> res B) (Q : A -> Prop) (P : B -> Prop) :
  safe m Q -> (forall a, Q a -> safe (k a) P) -> safe (rbind m k) P.
Proof. destruct m; simpl; auto. Qed.

Lemma safe_impl {A} (m : res A) (P Q : A -> Prop) :
  safe m P -> (forall a, P a -> Q a) -> safe m Q.
Proof. destruct m; simpl; auto. Qed.

Create HintDb safe.

(** One step of a parser: the first call is safe by a lemma of the hint
    database [safe], and its postcondition becomes a hypothesis. *)
Ltac safe_step :=
  lazymatch goal with
  | |- safe (rbind _ _) _ =>
      eapply safe_bind;
      [ solve [eauto with safe lia]
      | let a := fresh "a" in intros a; cbv beta;
        repeat (let x := fresh "x" in destruct a as [a x] || idtac); cbv beta iota;
        intros ]
  end.

(** Case analysis on the boolean tests of the code, in the goal or in a
    hypothesis, leaving the corresponding propositions. *)
Ltac to_prop :=
  repeat match goal with
  | H : (_ && _) = true |- _ => apply andb_true_iff in H as [? ?]
  | H : (_ || _) = false |- _ => apply orb_false_iff in H as [? ?]
  | H : negb _ = true |- _ => apply negb_true_iff in H
  | H : negb _ = false |- _ => apply negb_false_iff in H
  | H : (_ <? _) = true |- _ => apply Z.ltb_lt in H
  | H : (_ <? _) = false |- _ => apply Z.ltb_ge in H
  | H : (_ <=? _) = true |- _ => apply Z.leb_le in H
  | H : (_ <=? _) = false |- _ => apply Z.leb_gt in H
  | H : (_ =? _) = true |- _ => apply Z.eqb_eq in H
  | H : (_ =? _) = false |- _ => apply Z.eqb_neq in H
  | H : (_ >? _) = _ |- _ => rewrite Z.gtb_ltb in H
  | H : (_ >=? _) = _ |- _ => rewrite Z.geb_leb in H
  end.

Ltac case_if :=
  match goal with
  | |- context [if ?b then _ else _] => destruct b eqn:?
  | H : context [if ?b then _ else _] |- _ => destruct b eqn:?
  end; to_prop.

(** Evaluates the powers and shifts of constants. *)
Ltac calc :=
  repeat match goal with
  | |- context [2 ^ ?k] =>
      let w := eval vm_compute in (2 ^ k) in
      lazymatch w with Zpos _ => change (2 ^ k) with w end
  | |- context [Z.shiftl ?a ?k] =>
      let w := eval vm_compute in (Z.shiftl a k) in
      lazymatch w with Zpos _ => change (Z.shiftl a k) with w end
  | H : context [2 ^ ?k] |- _ =>
      let w := eval vm_compute in (2 ^ k) in
      lazymatch w with Zpos _ => change (2 ^ k) with w in H end
  | H : context [Z.shiftl ?a ?k] |- _ =>
      let w := eval vm_compute in (Z.shiftl a k) in
      lazymatch w with Zpos _ => change (Z.shiftl a k) with w in H end
  end.

(** Evaluates [Z.to_nat] of a constant. *)
Ltac calc_nat :=
  repeat match goal with
  | |- context [Z.to_nat ?z] =>
      let n := eval vm_compute in (Z.to_nat z) in change (Z.to_nat z) with n
  end.

(** ** Lists *)

Lemma len_nonneg {A} (l : list A) : 0 <= len l.
Proof. unfold len. lia. Qed.
Lemma len_app {A} (l k : list A) : len (l ++ k) = len l + len k.
Proof. unfold len. rewrite length_app. lia. Qed.
Lemma len_cons {A} (x : A) l : len (x :: l) = 1 + len l.
Proof. unfold len. simpl. lia. Qed.
Lemma len_nil {A} : len (@nil A) = 0.
Proof. done. Qed.
#[export] Hint Resolve len_nonneg : quic.
#[export] Hint Rewrite @len_app @len_cons @len_nil : quic_len.

Lemma len_zero {A} (l : list A) : len l = 0 -> l = [].
Proof. destruct l; [done|]. rewrite len_cons. pose proof (len_nonneg l). lia. Qed.

Lemma take_len_app {A} (l k : list A) : take (Z.to_nat (len l)) (l ++ k) = l.
Proof. unfold len. rewrite Nat2Z.id. by rewrite take_app_length. Qed.
Lemma drop_len_app {A} (l k : list A) : drop (Z.to_nat (len l)) (l ++ k) = k.
Proof. unfold len. rewrite Nat2Z.id. by rewrite drop_app_length. Qed.

Lemma len_take {A} (n : Z) (l : list A) :
  0 <= n <= len l -> len (take (Z.to_nat n) l) = n.
Proof. unfold len. rewrite length_take. lia. Qed.
Lemma len_drop {A} (n : Z) (l : list A) :
  0 <= n <= len l -> len (drop (Z.to_nat n) l) = len l - n.
Proof. unfold len. rewrite length_drop. lia. Qed.

Lemma bytes_ok_app l k : bytes_ok (l ++ k) <-> bytes_ok l /\ bytes_ok k.
Proof. apply Forall_app. Qed.

Lemma last_cons {A} (x d : A) l : List.last (x :: l) d = List.last l x.
Proof.
  revert x d; induction l as [|y l IH]; intros x d; [done|].
  change (List.last (x :: y :: l) d) with (List.last (y :: l) d). by rewrite !IH.
Qed.

Lemma last_elem {A} (d : A) l : List.last l d ∈ d :: l.
Proof.
  revert d; induction l as [|x l IH]; intros d; [simpl; by left|].
  rewrite last_cons. right. apply IH.
Qed.

Lemma elem_of_rev {A} (x : A) l : x ∈ rev l <-> x ∈ l.
Proof. by rewrite !list_elem_of_In, <- in_rev. Qed.

Lemma Exists_rev_iff {A} (P : A -> Prop) l : Exists P (rev l) <-> Exists P l.
Proof.
  rewrite !Exists_exists. setoid_rewrite list_elem_of_In. by setoid_rewrite <- in_rev.
Qed.

Lemma filter_none {A} (P : A -> Prop) `{!forall x, Decision (P x)} (l : list A) :
  (forall x, x ∈ l -> ~ P x) -> filter P l = [].
Proof.
  induction l as [|x l IH]; intros Hl; [done|].
  rewrite filter_cons_False by (apply Hl; left). apply IH. intros y Hy. apply Hl. by right.
Qed.

Lemma filter_all {A} (P : A -> Prop) `{!forall x, Decision (P x)} (l : list A) :
  (forall x, x ∈ l -> P x) -> filter P l = l.
Proof.
  induction l as [|x l IH]; intros Hl; [done|].
  rewrite filter_cons_True by (apply Hl; left). f_equal. apply IH. intros y Hy. apply Hl. by right.
Qed.

Lemma filter_ext_in {A} (P Q : A -> Prop) `{!forall x, Decision (P x), !forall x, Decision (Q x)}
    (l : list A) :
  (forall x, x ∈ l -> P x <-> Q x) -> filter P l = filter Q l.
Proof.
  induction l as [|x l IH]; intros Hl; [done|].
  rewrite !filter_cons. rewrite IH by (intros y Hy; apply Hl; by right).
  specialize (Hl x ltac:(left)). destruct (decide (P x)), (decide (Q x)); tauto.
Qed.

Lemma StronglySorted_filter {A} (R : relation A) (P : A -> Prop) `{!forall x, Decision (P x)}
    (l : list A) :
  StronglySorted R l -> StronglySorted R (filter P l).
Proof.
  induction 1 as [|x l Hl IH Hx]; [constructor|]. rewrite filter_cons.
  case_decide; [|done]. constructor; [done|]. rewrite Forall_forall in *.
  intros y Hy. apply Hx. by apply list_elem_of_filter in Hy as [_ ?].
Qed.

Lemma filter_Forall {A} (P Q : A -> Prop) `{!forall x, Decision (P x)} (l : list A) :
  Forall Q l -> Forall Q (filter P l).
Proof.
  rewrite !Forall_forall. intros Hl x Hx. apply Hl. by apply list_elem_of_filter in Hx as [_ ?].
Qed.

Lemma Permutation_filter_split {A} (P : A -> Prop) `{!forall x, Decision (P x)} (l : list A) :
  l ≡ₚ filter P l ++ filter (fun x => ~ P x) l.
Proof.
  induction l as [|x l IH]; [done|]. destruct (decide (P x)).
  - rewrite (filter_cons_True P), (filter_cons_False (fun x => ~ P x)) by tauto.
    cbn. by rewrite <- IH.
  - rewrite (filter_cons_False P), (filter_cons_True (fun x => ~ P x)) by tauto.
    rewrite <- Permutation_middle. by rewrite <- IH.
Qed.
