(* ===== verification/Protocol.v ===== *)
(** * Package protocol, and the min/max helpers of package utils

    Packet numbers and their truncation on the wire, version negotiation, and
    the protocol constants. *)

From S2P Require Import Prelude.

(** ** utils/minmax.go *)

Definition InfDuration : Z := 2 ^ 63 - 1.
Definition Max (a b : Z) : Z := if a <? b then b else a.
Definition MaxUint32 (a b : Z) : Z := if a <? b then b else a.
Definition Min (a b : Z) : Z := if a <? b then a else b.
Definition MinUint32 (a b : Z) : Z := if a <? b then a else b.
Definition MinInt64 (a b : Z) : Z := if a <? b then a else b.
Definition MaxInt64 (a b : Z) : Z := if a >? b then a else b.
Definition MinByteCount (a b : Z) : Z := if a <? b then a else b.
Definition MaxDuration (a b : Z) : Z := if a >? b then a else b.
Definition MinDuration (a b : Z) : Z := if a >? b then b else a.
Definition AbsDuration (d : Z) : Z := if d >=? 0 then d else i64 (- d).
Definition MaxPacketNumber (a b : Z) : Z := if a >? b then a else b.
Definition MinPacketNumber (a b : Z) : Z := if a <? b then a else b.

(** The helpers are [Z.min] and [Z.max]. *)
Ltac minmax :=
  unfold Max, MaxUint32, Min, MinUint32, MinInt64, MaxInt64, MinByteCount,
    MaxDuration, MinDuration, MaxPacketNumber, MinPacketNumber in *;
  repeat (case_if); try lia.

Lemma MinByteCount_min a b : MinByteCount a b = Z.min a b.
Proof. minmax. Qed.
Lemma MaxPacketNumber_max a b : MaxPacketNumber a b = Z.max a b.
Proof. minmax. Qed.
Lemma MinPacketNumber_min a b : MinPacketNumber a b = Z.min a b.
Proof. minmax. Qed.
Lemma MaxDuration_max a b : MaxDuration a b = Z.max a b.
Proof. minmax. Qed.
Lemma MinDuration_min a b : MinDuration a b = Z.min a b.
Proof. minmax. Qed.
Lemma MinUint32_min a b : MinUint32 a b = Z.min a b.
Proof. minmax. Qed.
Lemma MaxUint32_max a b : MaxUint32 a b = Z.max a b.
Proof. minmax. Qed.
Lemma Min_min a b : Min a b = Z.min a b.
Proof. minmax. Qed.

(** ** protocol/protocol.go and protocol/server_parameters.go *)

Definition PacketNumberLenInvalid : Z := 0.
Definition PacketNumberLen1 : Z := 1.
Definition PacketNumberLen2 : Z := 2.
Definition PacketNumberLen4 : Z := 4.
Definition PacketNumberLen6 : Z := 6.

Definition MaxByteCount : Z := 2 ^ 64 - 1.
Definition DefaultTCPMSS : Z := 1460.
Definition InitialStreamFlowControlWindow : Z := Z.shiftl 1 14.
Definition InitialConnectionFlowControlWindow : Z := Z.shiftl 1 14.

Definition MaxPacketSize : Z := 1350.
Definition MaxFrameAndPublicHeaderSize : Z := MaxPacketSize - 12.
Definition NonForwardSecurePacketSizeReduction : Z := 50.
Definition DefaultMaxCongestionWindow : Z := 1000.
Definition InitialCongestionWindow : Z := 32.
Definition MaxUndecryptablePackets : Z := 10.
Definition Millisecond : Z := 1000000.
Definition Microsecond : Z := 1000.
Definition Second : Z := 1000000000.
Definition Minute : Z := 60 * Second.
Definition PublicResetTimeout : Z := 500 * Millisecond.
Definition AckSendDelay : Z := 25 * Millisecond.
Definition ReceiveStreamFlowControlWindow : Z := Z.shiftl 1 10 * 32.
Definition ReceiveConnectionFlowControlWindow : Z := Z.shiftl 1 10 * 48.
Definition MaxReceiveStreamFlowControlWindowServer : Z := 1 * Z.shiftl 1 20.
Definition MaxReceiveConnectionFlowControlWindowServer : Z := 3 * Z.shiftl 1 20 / 2.
Definition MaxReceiveStreamFlowControlWindowClient : Z := 6 * Z.shiftl 1 20.
Definition MaxReceiveConnectionFlowControlWindowClient : Z := 15 * Z.shiftl 1 20.
Definition MaxStreamsPerConnection : Z := 100.
Definition MaxIncomingDynamicStreamsPerConnection : Z := 100.
Definition MaxStreamsMinimumIncrement : Z := 10.
Definition MaxNewStreamIDDelta : Z := 4 * MaxStreamsPerConnection.
Definition MaxSessionUnprocessedPackets : Z := DefaultMaxCongestionWindow.
Definition SkipPacketAveragePeriodLength : Z := 500.
Definition MaxTrackedSkippedPackets : Z := 10.
Definition MaxTrackedSentPackets : Z := 2 * DefaultMaxCongestionWindow.
Definition MaxTrackedReceivedPackets : Z := 2 * DefaultMaxCongestionWindow.
Definition MaxTrackedReceivedAckRanges : Z := DefaultMaxCongestionWindow.
Definition MaxPacketsReceivedBeforeAckSend : Z := 20.
Definition RetransmittablePacketsBeforeAck : Z := 2.
Definition MaxStreamFrameSorterGaps : Z := 1000.
Definition CryptoMaxParams : Z := 128.
Definition CryptoParameterMaxLength : Z := 4000.
Definition InitialIdleTimeout : Z := 5 * Second.
Definition DefaultIdleTimeout : Z := 30 * Second.
Definition MaxIdleTimeoutServer : Z := 1 * Minute.
Definition MaxIdleTimeoutClient : Z := 2 * Minute.
Definition MaxTimeForCryptoHandshake : Z := 10 * Second.

(** protocol/encryption_level.go: the levels are ordered by [iota]. *)
Definition EncryptionUnspecified : Z := 0.
Definition EncryptionUnencrypted : Z := 1.
Definition EncryptionSecure : Z := 2.
Definition EncryptionForwardSecure : Z := 3.

(** protocol/perspective.go *)
Inductive Perspective : Set := PerspectiveServer | PerspectiveClient.
#[export] Instance Perspective_eq_dec : EqDecision Perspective.
Proof. solve_decision. Defined.
Definition is_server (p : Perspective) : bool :=
  match p with PerspectiveServer => true | PerspectiveClient => false end.
Definition is_client (p : Perspective) : bool := negb (is_server p).

(** ** protocol/packet_number.go *)

Definition delta (a b : Z) : Z := if a <? b then u64 (b - a) else u64 (a - b).

Definition closestTo (target a b : Z) : Z :=
  if delta target a <? delta target b then a else b.

Definition InferPacketNumber (packetNumberLength lastPacketNumber wirePacketNumber : Z) : Z :=
  let epochDelta := u64 (Z.shiftl 1 (u8 (u8 packetNumberLength * 8))) in
  let epoch := Z.land lastPacketNumber (Z.lxor (2 ^ 64 - 1) (u64 (epochDelta - 1))) in
  let prevEpochBegin := u64 (epoch - epochDelta) in
  let nextEpochBegin := u64 (epoch + epochDelta) in
  closestTo
    (u64 (lastPacketNumber + 1))
    (u64 (epoch + wirePacketNumber))
    (closestTo (u64 (lastPacketNumber + 1))
       (u64 (prevEpochBegin + wirePacketNumber))
       (u64 (nextEpochBegin + wirePacketNumber))).

Definition GetPacketNumberLengthForPublicHeader (packetNumber leastUnacked : Z) : Z :=
  let diff := u64 (packetNumber - leastUnacked) in
  if diff <? Z.shiftl 2 (PacketNumberLen2 * 8 - 2) then PacketNumberLen2
  else if diff <? Z.shiftl 2 (PacketNumberLen4 * 8 - 2) then PacketNumberLen4
  else PacketNumberLen6.

Definition GetPacketNumberLength (packetNumber : Z) : Z :=
  if packetNumber <? Z.shiftl 1 (PacketNumberLen1 * 8) then PacketNumberLen1
  else if packetNumber <? Z.shiftl 1 (PacketNumberLen2 * 8) then PacketNumberLen2
  else if packetNumber <? Z.shiftl 1 (PacketNumberLen4 * 8) then PacketNumberLen4
  else PacketNumberLen6.

(** ** protocol/version.go *)

Definition Version35 : Z := 35.
Definition Version36 : Z := 36.
Definition Version37 : Z := 37.
Definition VersionWhatever : Z := 0.
Definition VersionUnsupported : Z := -1.
Definition SupportedVersions : list Z := [Version37; Version36; Version35].

Definition VersionNumberToTag (vn : Z) : Z :=
  let v := u32 vn in
  u32 (81 + Z.shiftl (v / 100 mod 10 + 48) 8 + Z.shiftl (v / 10 mod 10 + 48) 16
       + Z.shiftl (v mod 10 + 48) 24).

Definition VersionTagToNumber (v : Z) : Z :=
  u32 (u32 (Z.land (Z.shiftr v 8) 255 - 48) * 100
       + u32 (Z.land (Z.shiftr v 16) 255 - 48) * 10
       + u32 (Z.land (Z.shiftr v 24) 255 - 48)).

Fixpoint IsSupportedVersion (supported : list Z) (v : Z) : bool :=
  match supported with
  | [] => false
  | t :: supported' => if t =? v then true else IsSupportedVersion supported' v
  end.

Fixpoint offers (theirs : list Z) (ourVer : Z) : bool :=
  match theirs with
  | [] => false
  | theirVer :: theirs' => if ourVer =? theirVer then true else offers theirs' ourVer
  end.

Fixpoint ChooseSupportedVersion (ours theirs : list Z) : Z :=
  match ours with
  | [] => VersionUnsupported
  | ourVer :: ours' =>
      if offers theirs ourVer then ourVer else ChooseSupportedVersion ours' theirs
  end.

(** ** Truncated packet numbers *)

(** The mask [^(epochDelta-1)] clears the low [k] bits. *)
Lemma epoch_mask k a :
  0 <= k < 64 -> is_u64 a ->
  Z.land a (Z.lxor (2 ^ 64 - 1) (2 ^ k - 1)) = a - a mod 2 ^ k.
Proof.
  intros Hk Ha.
  assert (Z.land a (Z.lxor (2 ^ 64 - 1) (2 ^ k - 1)) = Z.ldiff a (Z.ones k)) as ->.
  { change (2 ^ 64 - 1) with (Z.ones 64).
    replace (2 ^ k - 1) with (Z.ones k) by (rewrite Z.ones_equiv; lia).
    apply Z.bits_inj'. intros n Hn.
    rewrite Z.land_spec, Z.lxor_spec, Z.ldiff_spec, !Z.testbit_ones by lia.
    destruct (Z.ltb_spec n 64) as [|Hge].
    - by destruct (0 <=? n) eqn:?; to_prop; [|lia].
    - rewrite (Z.bits_above_log2 a n); [done|unfold is_u64 in Ha; lia|].
      unfold is_u64 in Ha. destruct (decide (a = 0)) as [->|]; [simpl; lia|].
      apply Z.log2_lt_pow2; [lia|].
      apply Z.lt_le_trans with (2 ^ 64); [lia|apply Z.pow_le_mono_r; lia]. }
  rewrite Z.ldiff_ones_r, Z.shiftl_mul_pow2, Z.shiftr_div_pow2 by lia.
  pose proof (Z.div_mod a (2 ^ k) ltac:(apply Z.pow_nonzero; lia)). lia.
Qed.

(** [closestTo] picks [a] when [a] is strictly closer to the target. *)
Lemma closestTo_spec t a b :
  is_u64 t -> is_u64 a -> is_u64 b ->
  closestTo t a b = if Z.abs (t - a) <? Z.abs (t - b) then a else b.
Proof.
  intros Ht Ha Hb. unfold closestTo, delta.
  assert (forall x, is_u64 x ->
    (if t <? x then u64 (x - t) else u64 (t - x)) = Z.abs (t - x)) as E.
  { intros x Hx. case_if; rewrite u64_small; unfold_width; lia. }
  by rewrite !E.
Qed.

(** The candidates that [InferPacketNumber] compares are the three numbers
    congruent to the wire value nearest to the epoch of the last packet; the
    one before epoch 0 wraps to the top of the 64-bit range and never wins. *)
Lemma infer_core k last wire pn :
  0 < k <= 48 -> 0 <= last < 2 ^ 62 -> 0 <= pn < 2 ^ 62 ->
  wire = pn mod 2 ^ k ->
  2 * Z.abs (pn - (last + 1)) < 2 ^ k ->
  let epoch := last - last mod 2 ^ k in
  closestTo (last + 1) (epoch + wire)
    (closestTo (last + 1) (u64 (u64 (epoch - 2 ^ k) + wire)) (epoch + 2 ^ k + wire)) = pn.
Proof.
  intros Hk Hlast Hpn Hwire Hclose epoch. subst epoch.
  set (D := 2 ^ k) in *.
  assert (0 < D <= 2 ^ 48) as HD.
  { unfold D. split; [apply Z.pow_pos_nonneg; lia|apply Z.pow_le_mono_r; lia]. }
  pose proof (Z.mod_pos_bound last D ltac:(lia)) as Hml.
  pose proof (Z.div_mod last D ltac:(lia)) as Hdl.
  pose proof (Z.mod_pos_bound pn D ltac:(lia)) as Hmp.
  pose proof (Z.div_mod pn D ltac:(lia)) as Hdp.
  set (ql := last / D) in *. set (qp := pn / D) in *.
  assert (0 <= ql) by (apply Z.div_pos; lia).
  assert (0 <= qp) by (apply Z.div_pos; lia).
  assert (qp = ql - 1 \/ qp = ql \/ qp = ql + 1) as Hq by nia.
  rewrite <- Hwire in Hmp, Hdp. clear Hwire.
  set (E := D * ql) in *.
  replace (last - last mod D) with E by lia.
  assert (pn = E - D + wire \/ pn = E + wire \/ pn = E + D + wire) as Hpn'
    by (destruct Hq as [Hq|[Hq|Hq]]; rewrite Hq in Hdp; unfold E; lia).
  assert (E = 0 \/ D <= E) as HE.
  { destruct (Z.eq_dec ql 0) as [Hz|]; [left; unfold E; lia|right].
    replace D with (D * 1) at 1 by lia. apply Z.mul_le_mono_nonneg_l; lia. }
  assert (0 <= E <= last) as HEl by lia.
  clear Hq Hdp. clearbody E D. clear ql qp H H0 Hk k.
  assert (u64 (u64 (E - D) + wire)
          = if decide (E = 0) then 2 ^ 64 - D + wire else E - D + wire) as ->.
  { case_decide as Hz; unfold u64.
    - rewrite Hz. replace (0 - D) with (2 ^ 64 - D + (-1) * 2 ^ 64) by lia.
      rewrite Z.mod_add, (Z.mod_small (2 ^ 64 - D)) by lia. apply Z.mod_small. lia.
    - rewrite (Z.mod_small (E - D)) by lia. apply Z.mod_small. lia. }
  case_decide as Hz; rewrite (closestTo_spec _ _ (E + D + wire)) by (unfold_width; lia);
    rewrite closestTo_spec by (unfold_width; repeat case_if; lia);
    repeat case_if; lia.
Qed.

(** A packet number survives truncation to [len] bytes when the receiver's
    largest packet number is less than half a wire epoch away. *)
Lemma InferPacketNumber_window l last pn :
  In l [1; 2; 4; 6] ->
  0 <= last < 2 ^ 62 -> 0 <= pn < 2 ^ 62 ->
  2 * Z.abs (pn - (last + 1)) < 2 ^ (8 * l) ->
  InferPacketNumber l last (pn mod 2 ^ (8 * l)) = pn.
Proof.
  intros Hl Hlast Hpn Hclose. unfold InferPacketNumber.
  assert (0 < 8 * l <= 48 /\ u8 (u8 l * 8) = 8 * l) as [Hk ->].
  { destruct Hl as [<-|[<-|[<-|[<-|[]]]]]; by split. }
  rewrite Z.shiftl_1_l.
  assert (0 < 2 ^ (8 * l) <= 2 ^ 48) as HD.
  { split; [apply Z.pow_pos_nonneg; lia|apply Z.pow_le_mono_r; lia]. }
  rewrite (u64_small (2 ^ (8 * l))), (u64_small (2 ^ (8 * l) - 1)),
    (u64_small (last + 1)) by (unfold_width; lia).
  rewrite epoch_mask by (unfold_width; lia).
  pose proof (Z.mod_pos_bound last (2 ^ (8 * l)) ltac:(lia)).
  pose proof (Z.mod_pos_bound pn (2 ^ (8 * l)) ltac:(lia)).
  pose proof (Z.mod_le last (2 ^ (8 * l)) ltac:(lia) ltac:(lia)).
  rewrite (u64_small (last - last mod 2 ^ (8 * l) + 2 ^ (8 * l))) by (unfold_width; lia).
  rewrite (u64_small (last - last mod 2 ^ (8 * l) + pn mod _)) by (unfold_width; lia).
  rewrite (u64_small (_ + 2 ^ (8 * l) + _)) by (unfold_width; lia).
  by apply infer_core.
Qed.

Lemma packet_number_inferred pn leastUnacked last :
  0 <= leastUnacked <= pn -> pn < 2 ^ 62 -> pn - leastUnacked < 2 ^ 47 ->
  leastUnacked <= last + 1 < pn + 2 ^ 15 ->
  0 <= last < 2 ^ 62 ->
  let l := GetPacketNumberLengthForPublicHeader pn leastUnacked in
  InferPacketNumber l last (pn mod 2 ^ (8 * l)) = pn.
Proof.
  intros H1 H2 H3 H4 H5 l. subst l. unfold GetPacketNumberLengthForPublicHeader.
  rewrite u64_small by (unfold_width; lia).
  change (Z.shiftl 2 (PacketNumberLen2 * 8 - 2)) with (2 ^ 15).
  change (Z.shiftl 2 (PacketNumberLen4 * 8 - 2)) with (2 ^ 31).
  unfold PacketNumberLen2, PacketNumberLen4, PacketNumberLen6.
  repeat case_if; apply InferPacketNumber_window; simpl; auto; lia.
Qed.

(** A packet number that the sender writes with the length chosen by
    [GetPacketNumberLengthForPublicHeader] is recovered by the receiver's
    [InferPacketNumber], for every least-unacked value the sender may hold and
    every largest packet number the receiver may have seen: at least up to the
    packets the sender knows to be delivered, and at most 2^15 ahead. *)
Theorem packet_number_truncation_roundtrip pn leastUnacked last :
  0 <= leastUnacked <= pn -> pn < 2 ^ 62 -> pn - leastUnacked < 2 ^ 47 ->
  leastUnacked <= last + 1 < pn + 2 ^ 15 ->
  0 <= last < 2 ^ 62 ->
  let l := GetPacketNumberLengthForPublicHeader pn leastUnacked in
  InferPacketNumber l last (pn mod 2 ^ (8 * l)) = pn.
Proof. apply packet_number_inferred. Qed.

Lemma packet_number_truncation_witness :
  InferPacketNumber 2 66000 (65999 mod 2 ^ 16) = 65999.
Proof. apply (packet_number_truncation_roundtrip 65999 65000 66000); lia. Defined.

(** [GetPacketNumberLength] is the smallest wire length that holds the number. *)
Lemma GetPacketNumberLength_fits pn :
  0 <= pn < 2 ^ 48 ->
  In (GetPacketNumberLength pn) [1; 2; 4; 6] /\ pn < 2 ^ (8 * GetPacketNumberLength pn).
Proof.
  intros Hpn. unfold GetPacketNumberLength, PacketNumberLen1, PacketNumberLen2,
    PacketNumberLen4, PacketNumberLen6.
  repeat case_if; (split; [simpl; auto|]); calc; lia.
Qed.

(** ** Versions *)

Lemma land_255 a : Z.land a 255 = a mod 256.
Proof. change 255 with (Z.ones 8). by rewrite Z.land_ones. Qed.

(** The version tag of a three-digit version is four ASCII characters that
    decode to it. *)
Lemma version_tag_roundtrip v :
  0 <= v < 1000 ->
  is_u32 (VersionNumberToTag v) /\ VersionTagToNumber (VersionNumberToTag v) = v.
Proof.
  intros Hv. split; [apply u32_range|].
  unfold VersionTagToNumber, VersionNumberToTag.
  rewrite (u32_small v) by (unfold_width; lia).
  pose proof (Z.mod_pos_bound v 10 ltac:(lia)).
  pose proof (Z.mod_pos_bound (v / 10) 10 ltac:(lia)).
  pose proof (Z.mod_pos_bound (v / 100) 10 ltac:(lia)).
  assert (v = v / 100 mod 10 * 100 + v / 10 mod 10 * 10 + v mod 10) as Hdec.
  { pose proof (Z.div_mod v 10 ltac:(lia)). pose proof (Z.div_mod (v / 10) 10 ltac:(lia)).
    rewrite Z.div_div in * by lia. change (10 * 10) with 100 in *.
    rewrite (Z.mod_small (v / 100)); [lia|]. split; [apply Z.div_pos; lia|].
    apply Z.div_lt_upper_bound; lia. }
  rewrite !Z.shiftl_mul_pow2 by lia.
  set (a := v / 100 mod 10) in *. set (b := v / 10 mod 10) in *. set (c := v mod 10) in *.
  rewrite (u32_small (81 + _ + _ + _)) by (unfold_width; lia).
  rewrite !land_255, !Z.shiftr_div_pow2 by lia.
  replace ((81 + (a + 48) * 2 ^ 8 + (b + 48) * 2 ^ 16 + (c + 48) * 2 ^ 24) / 2 ^ 8 mod 256)
    with (a + 48) by (Z.to_euclidean_division_equations; lia).
  replace ((81 + (a + 48) * 2 ^ 8 + (b + 48) * 2 ^ 16 + (c + 48) * 2 ^ 24) / 2 ^ 16 mod 256)
    with (b + 48) by (Z.to_euclidean_division_equations; lia).
  replace ((81 + (a + 48) * 2 ^ 8 + (b + 48) * 2 ^ 16 + (c + 48) * 2 ^ 24) / 2 ^ 24 mod 256)
    with (c + 48) by (Z.to_euclidean_division_equations; lia).
  nowrap. lia.
Qed.

Lemma offers_In theirs v : offers theirs v = true <-> In v theirs.
Proof.
  induction theirs as [|t theirs IH]; simpl; [done|].
  case_if; [by split; [left|]|]. rewrite IH. split; [by right|intros [|]; [lia|done]].
Qed.

(** [ChooseSupportedVersion] returns our most preferred version among those
    the peer offers: it is offered by both sides and no version that we prefer
    to it is offered by the peer.  It returns [VersionUnsupported] when there is
    no common version. *)
Theorem choose_supported_version_best ours theirs :
  (exists before v after,
     ours = before ++ v :: after /\ In v theirs /\
     Forall (fun w => ~ In w theirs) before /\
     ChooseSupportedVersion ours theirs = v) \/
  (Forall (fun w => ~ In w theirs) ours /\
   ChooseSupportedVersion ours theirs = VersionUnsupported).
Proof.
  induction ours as [|v ours IH]; simpl; [by right|].
  destruct (offers theirs v) eqn:Ho.
  - left. exists [], v, ours. rewrite offers_In in Ho. auto.
  - assert (~ In v theirs) by (rewrite <- offers_In; congruence).
    destruct IH as [(before & w & after & -> & Hw & Hb & Hc)|[Hall Hc]].
    + left. exists (v :: before), w, after. by split; [|split; [|split; [constructor|]]].
    + right. auto.
Qed.
