(* ===== verification/Wire.v ===== *)
(** * Package utils: little-endian integers and the 16-bit float

    A [bytes.Reader] is the list of bytes still to be read; a read returns its
    value and the rest, or an error.  A [bytes.Buffer] is the list of bytes
    written so far, and a write appends to it. *)

From S2P Require Import Prelude Protocol.

(** ** Readers of the standard library *)

(** [io.ByteReader.ReadByte] *)
Definition ReadByte (b : list Z) : res (Z * list Z) :=
  match b with
  | [] => Err EOF
  | bt :: b' => Ok (bt, b')
  end.

(** [bytes.Reader.Read] into a slice of [n] bytes: the number of bytes read, the
    slice (zero-filled beyond that), the rest, and the error, which is set only
    when the reader is at its end (an empty slice included). *)
Definition Read (b : list Z) (n : Z) : Z * list Z * list Z * option goerror :=
  match b with
  | [] => (0, replicate (Z.to_nat n) 0, [], Some EOF)
  | _ =>
      let k := Z.min n (len b) in
      (k, take (Z.to_nat k) b ++ replicate (Z.to_nat (n - k)) 0, drop (Z.to_nat k) b, None)
  end.

(** [io.ReadFull] into a slice of [n] bytes *)
Definition ReadFull (b : list Z) (n : Z) : res (list Z * list Z) :=
  if n <=? len b then Ok (take (Z.to_nat n) b, drop (Z.to_nat n) b)
  else match b with [] => Err EOF | _ => Err ErrUnexpectedEOF end.

(** ** utils/utils.go *)

(** The loop of [ReadUintN]; [todo] is the number of iterations left. *)
Fixpoint ReadUintN_loop (b : list Z) (todo : nat) (i res : Z) : Prelude.res (Z * list Z) :=
  match todo with
  | O => Ok (res, b)
  | S todo =>
      let! (bt, b) := ReadByte b in
      ReadUintN_loop b todo (i + 1) (Z.lxor res (u64 (Z.shiftl bt (u8 (i * 8)))))
  end.

Definition ReadUintN (b : list Z) (length : Z) : res (Z * list Z) :=
  ReadUintN_loop b (Z.to_nat (u8 length)) 0 0.

Definition ReadUint64 (b : list Z) : res (Z * list Z) :=
  let! (b1, b) := ReadByte b in
  let! (b2, b) := ReadByte b in
  let! (b3, b) := ReadByte b in
  let! (b4, b) := ReadByte b in
  let! (b5, b) := ReadByte b in
  let! (b6, b) := ReadByte b in
  let! (b7, b) := ReadByte b in
  let! (b8, b) := ReadByte b in
  Ok (u64 (b1 + Z.shiftl b2 8 + Z.shiftl b3 16 + Z.shiftl b4 24 + Z.shiftl b5 32
           + Z.shiftl b6 40 + Z.shiftl b7 48 + Z.shiftl b8 56), b).

Definition ReadUint32 (b : list Z) : res (Z * list Z) :=
  let! (b1, b) := ReadByte b in
  let! (b2, b) := ReadByte b in
  let! (b3, b) := ReadByte b in
  let! (b4, b) := ReadByte b in
  Ok (u32 (b1 + Z.shiftl b2 8 + Z.shiftl b3 16 + Z.shiftl b4 24), b).

Definition ReadUint16 (b : list Z) : res (Z * list Z) :=
  let! (b1, b) := ReadByte b in
  let! (b2, b) := ReadByte b in
  Ok (u16 (b1 + Z.shiftl b2 8), b).

Definition WriteByte (b : list Z) (c : Z) : list Z := b ++ [c].

Definition WriteUint64 (b : list Z) (i : Z) : list Z :=
  b ++ [u8 i; u8 (Z.shiftr i 8); u8 (Z.shiftr i 16); u8 (Z.shiftr i 24);
        u8 (Z.shiftr i 32); u8 (Z.shiftr i 40); u8 (Z.shiftr i 48); u8 (Z.shiftr i 56)].

Definition WriteUint56 (b : list Z) (i : Z) : list Z :=
  b ++ [u8 i; u8 (Z.shiftr i 8); u8 (Z.shiftr i 16); u8 (Z.shiftr i 24);
        u8 (Z.shiftr i 32); u8 (Z.shiftr i 40); u8 (Z.shiftr i 48)].

Definition WriteUint48 (b : list Z) (i : Z) : list Z :=
  b ++ [u8 i; u8 (Z.shiftr i 8); u8 (Z.shiftr i 16); u8 (Z.shiftr i 24);
        u8 (Z.shiftr i 32); u8 (Z.shiftr i 40)].

Definition WriteUint40 (b : list Z) (i : Z) : list Z :=
  b ++ [u8 i; u8 (Z.shiftr i 8); u8 (Z.shiftr i 16); u8 (Z.shiftr i 24); u8 (Z.shiftr i 32)].

Definition WriteUint32 (b : list Z) (i : Z) : list Z :=
  b ++ [u8 i; u8 (Z.shiftr i 8); u8 (Z.shiftr i 16); u8 (Z.shiftr i 24)].

Definition WriteUint24 (b : list Z) (i : Z) : list Z :=
  b ++ [u8 i; u8 (Z.shiftr i 8); u8 (Z.shiftr i 16)].

Definition WriteUint16 (b : list Z) (i : Z) : list Z :=
  b ++ [u8 i; u8 (Z.shiftr i 8)].

(** ** utils/float16.go *)

Definition uFloat16MaxExponent : Z := 30.
Definition uFloat16MantissaBits : Z := 11.
Definition uFloat16MantissaEffectiveBits : Z := uFloat16MantissaBits + 1.
Definition uFloat16MaxValue : Z :=
  Z.shiftl (Z.shiftl 1 uFloat16MantissaEffectiveBits - 1) uFloat16MaxExponent.

Definition ReadUfloat16 (b : list Z) : res (Z * list Z) :=
  let! (val, b) := ReadUint16 b in
  if val <? Z.shiftl 1 uFloat16MantissaEffectiveBits then Ok (val, b)
  else
    let exponent := u16 (Z.shiftr val uFloat16MantissaBits - 1) in
    let res := u64 (val - u64 (Z.shiftl exponent uFloat16MantissaBits)) in
    Ok (u64 (Z.shiftl res exponent), b).

(** The normalisation loop, for the offsets 16, 8, 4, 2 and 1. *)
Fixpoint WriteUfloat16_loop (offsets : list Z) (exponent value : Z) : Z * Z :=
  match offsets with
  | [] => (exponent, value)
  | offset :: offsets =>
      if value >=? Z.shiftl 1 (uFloat16MantissaBits + offset)
      then WriteUfloat16_loop offsets (u16 (exponent + offset)) (Z.shiftr value offset)
      else WriteUfloat16_loop offsets exponent value
  end.

Definition WriteUfloat16 (b : list Z) (value : Z) : list Z :=
  let result :=
    if value <? Z.shiftl 1 uFloat16MantissaEffectiveBits then u16 value
    else if value >=? uFloat16MaxValue then 2 ^ 16 - 1
    else
      let '(exponent, value) := WriteUfloat16_loop [16; 8; 4; 2; 1] 0 value in
      u16 (u16 value + u16 (Z.shiftl exponent uFloat16MantissaBits)) in
  WriteUint16 b result.

(** ** Little-endian bytes *)

Fixpoint le_bytes (n : nat) (i : Z) : list Z :=
  match n with
  | O => []
  | S n => u8 i :: le_bytes n (Z.shiftr i 8)
  end.

Fixpoint le_value (l : list Z) : Z :=
  match l with
  | [] => 0
  | b :: l => b + 256 * le_value l
  end.

Lemma length_le_bytes n i : length (le_bytes n i) = n.
Proof. revert i; induction n; simpl; auto. Qed.

Lemma len_le_bytes n i : len (le_bytes n i) = Z.of_nat n.
Proof. unfold len. by rewrite length_le_bytes. Qed.
#[export] Hint Rewrite len_le_bytes : quic_len.

Lemma le_bytes_ok n i : bytes_ok (le_bytes n i).
Proof. revert i; induction n as [|n IH]; intros i; constructor; [apply u8_range|apply IH]. Qed.
#[export] Hint Resolve le_bytes_ok : quic.

Lemma le_value_bytes n i : le_value (le_bytes n i) = i mod 2 ^ (8 * Z.of_nat n).
Proof.
  revert i; induction n as [|n IH]; intros i; [by rewrite Z.mod_1_r|].
  cbn [le_bytes le_value]. rewrite IH. unfold u8.
  replace (8 * Z.of_nat (S n)) with (8 + 8 * Z.of_nat n) by lia.
  rewrite Z.pow_add_r, Z.shiftr_div_pow2 by lia. change (2 ^ 8) with 256.
  rewrite Z.rem_mul_r by (try apply Z.pow_nonzero; lia). lia.
Qed.

Lemma le_value_range l : bytes_ok l -> 0 <= le_value l < 2 ^ (8 * len l).
Proof.
  induction 1 as [|b l Hb Hl IH]; [done|]. cbn [le_value]. rewrite len_cons.
  replace (8 * (1 + len l)) with (8 + 8 * len l) by lia.
  pose proof (len_nonneg l).
  rewrite Z.pow_add_r by lia. unfold is_u8 in Hb. lia.
Qed.

Lemma le_bytes_value l : bytes_ok l -> le_bytes (length l) (le_value l) = l.
Proof.
  induction 1 as [|b l Hb Hl IH]; [done|]. cbn [length le_bytes le_value].
  unfold is_u8 in Hb. unfold u8. rewrite Z.shiftr_div_pow2 by lia. f_equal.
  - rewrite Z.mul_comm, Z.mod_add by lia. apply Z.mod_small. lia.
  - rewrite Z.mul_comm, Z.div_add, Z.div_small by lia. by rewrite Z.add_0_l.
Qed.

(** The low [8n] bits are all that [le_bytes n] looks at. *)
Lemma le_bytes_mod n i k : 8 * Z.of_nat n <= k -> le_bytes n (i mod 2 ^ k) = le_bytes n i.
Proof.
  revert i k; induction n as [|n IH]; intros i k Hk; [done|].
  cbn [le_bytes]. rewrite !Z.shiftr_div_pow2 by lia.
  assert (2 ^ k = 2 ^ 8 * 2 ^ (k - 8)) as Hpow by (rewrite <- Z.pow_add_r by lia; f_equal; lia).
  assert (0 < 2 ^ (k - 8)) by (apply Z.pow_pos_nonneg; lia). f_equal.
  - unfold u8. rewrite Hpow. rewrite Z.rem_mul_r by lia.
    rewrite Z.add_mod, Z.mul_comm, Z.mod_mul, Z.add_0_r, !Z.mod_mod by lia. done.
  - rewrite <- (IH (i / 2 ^ 8) (k - 8)) by lia. f_equal.
    rewrite Hpow, Z.rem_mul_r, Z.mul_comm, Z.div_add by lia.
    rewrite (Z.div_small (i mod 2 ^ 8)) by (apply Z.mod_pos_bound; lia). lia.
Qed.

Lemma write_le b i :
  WriteUint16 b i = b ++ le_bytes 2 i /\ WriteUint24 b i = b ++ le_bytes 3 i /\
  WriteUint32 b i = b ++ le_bytes 4 i /\ WriteUint40 b i = b ++ le_bytes 5 i /\
  WriteUint48 b i = b ++ le_bytes 6 i /\ WriteUint56 b i = b ++ le_bytes 7 i /\
  WriteUint64 b i = b ++ le_bytes 8 i.
Proof.
  unfold WriteUint16, WriteUint24, WriteUint32, WriteUint40, WriteUint48, WriteUint56,
    WriteUint64.
  cbn [le_bytes]. rewrite !Z.shiftr_shiftr by lia. repeat split; reflexivity.
Qed.

Lemma WriteUint16_le b i : WriteUint16 b i = b ++ le_bytes 2 i.
Proof. apply write_le. Qed.
Lemma WriteUint24_le b i : WriteUint24 b i = b ++ le_bytes 3 i.
Proof. apply write_le. Qed.
Lemma WriteUint32_le b i : WriteUint32 b i = b ++ le_bytes 4 i.
Proof. apply write_le. Qed.
Lemma WriteUint40_le b i : WriteUint40 b i = b ++ le_bytes 5 i.
Proof. apply write_le. Qed.
Lemma WriteUint48_le b i : WriteUint48 b i = b ++ le_bytes 6 i.
Proof. apply write_le. Qed.
Lemma WriteUint56_le b i : WriteUint56 b i = b ++ le_bytes 7 i.
Proof. apply write_le. Qed.
Lemma WriteUint64_le b i : WriteUint64 b i = b ++ le_bytes 8 i.
Proof. apply write_le. Qed.
Lemma WriteByte_le b i : is_u8 i -> WriteByte b i = b ++ le_bytes 1 i.
Proof. intros. unfold WriteByte. simpl. by rewrite u8_small. Qed.
Lemma le_bytes_u8 n i : (n <= 1)%nat -> le_bytes n (u8 i) = le_bytes n i.
Proof. intros. apply le_bytes_mod. lia. Qed.
Lemma le_bytes_u16 n i : (n <= 2)%nat -> le_bytes n (u16 i) = le_bytes n i.
Proof. intros. apply le_bytes_mod. lia. Qed.
Lemma le_bytes_u32 n i : (n <= 4)%nat -> le_bytes n (u32 i) = le_bytes n i.
Proof. intros. apply le_bytes_mod. lia. Qed.
Lemma le_bytes_u64 n i : (n <= 8)%nat -> le_bytes n (u64 i) = le_bytes n i.
Proof. intros. apply le_bytes_mod. lia. Qed.
Lemma WriteByte_u8 b i : WriteByte b (u8 i) = b ++ le_bytes 1 i.
Proof. done. Qed.
Create Rewrite HintDb quic_write.
#[export] Hint Rewrite WriteByte_u8 WriteUint16_le WriteUint24_le WriteUint32_le WriteUint40_le
  WriteUint48_le WriteUint56_le WriteUint64_le : quic_write.
#[export] Hint Rewrite le_bytes_u8 le_bytes_u16 le_bytes_u32 le_bytes_u64 using lia : quic_write.

(** ** Reading back *)

Lemma lxor_shiftl a b k :
  0 <= k -> 0 <= a < 2 ^ k -> 0 <= b -> Z.lxor a (Z.shiftl b k) = a + b * 2 ^ k.
Proof.
  intros Hk Ha Hb. rewrite <- Z.shiftl_mul_pow2 by lia. symmetry.
  apply Z.add_nocarry_lxor. apply Z.bits_inj'. intros n Hn.
  rewrite Z.land_spec, Z.bits_0. destruct (Z.ltb_spec n k).
  - rewrite (Z.shiftl_spec_low b k n) by lia. by rewrite andb_false_r.
  - destruct (decide (a = 0)) as [->|]; [by rewrite Z.bits_0|].
    rewrite Z.bits_above_log2; [done|lia|].
    apply Z.log2_lt_pow2; [lia|].
    apply Z.lt_le_trans with (2 ^ k); [lia|apply Z.pow_le_mono_r; lia].
Qed.

Lemma ReadUintN_loop_spec l r i acc :
  bytes_ok l -> 0 <= i -> i + len l <= 8 -> 0 <= acc < 2 ^ (8 * i) ->
  ReadUintN_loop (l ++ r) (length l) i acc = Ok (acc + 2 ^ (8 * i) * le_value l, r).
Proof.
  intros Hl. revert i acc. induction Hl as [|b l Hb Hl IH]; intros i acc Hi Hlen Hacc.
  { simpl. do 2 f_equal. lia. }
  rewrite len_cons in Hlen. pose proof (len_nonneg l). unfold is_u8 in Hb.
  cbn [length app ReadUintN_loop ReadByte rbind le_value].
  assert (0 < 2 ^ (8 * i)) by (apply Z.pow_pos_nonneg; lia).
  assert (2 ^ (8 * (i + 1)) = 2 ^ (8 * i) * 256) as Hpow.
  { replace (8 * (i + 1)) with (8 * i + 8) by lia. by rewrite Z.pow_add_r by lia. }
  assert (2 ^ (8 * (i + 1)) <= 2 ^ 64) by (apply Z.pow_le_mono_r; lia).
  rewrite (u8_small (i * 8)) by (unfold_width; lia).
  rewrite (u64_small (Z.shiftl b (i * 8))).
  2: { unfold_width. rewrite Z.shiftl_mul_pow2 by lia.
       replace (i * 8) with (8 * i) by lia. nia. }
  replace (i * 8) with (8 * i) by lia. rewrite lxor_shiftl by lia.
  rewrite IH by nia. do 2 f_equal. rewrite Hpow. lia.
Qed.

Lemma ReadUintN_bytes l r :
  bytes_ok l -> len l <= 8 -> ReadUintN (l ++ r) (len l) = Ok (le_value l, r).
Proof.
  intros Hl Hlen. pose proof (len_nonneg l). unfold ReadUintN.
  rewrite u8_small by (unfold_width; lia). unfold len at 1. rewrite Nat2Z.id.
  rewrite ReadUintN_loop_spec by (try done; lia). do 2 f_equal. lia.
Qed.

(** Reading [n] little-endian bytes returns the low [8n] bits. *)
Lemma ReadUintN_le n i r :
  (n <= 8)%nat -> ReadUintN (le_bytes n i ++ r) (Z.of_nat n) = Ok (i mod 2 ^ (8 * Z.of_nat n), r).
Proof.
  intros Hn. rewrite <- (len_le_bytes n i) at 1.
  rewrite ReadUintN_bytes, le_value_bytes; [done|auto with quic|rewrite len_le_bytes; lia].
Qed.

(** A reader with fewer bytes than asked for ends with [io.EOF]. *)
Lemma ReadUintN_short b n : 0 <= n < 256 -> len b < n -> ReadUintN b n = Err EOF.
Proof.
  intros Hn Hlen. unfold ReadUintN. rewrite u8_small by done.
  assert (length b < Z.to_nat n)%nat as Hl by (unfold len in Hlen; lia).
  generalize 0 at 1. generalize 0. revert Hl. generalize (Z.to_nat n). clear.
  induction b as [|x b IH]; intros [|n] Hl acc i; simpl in *; try lia; auto with lia.
Qed.

Lemma ReadUintN_inv b n v r :
  bytes_ok b -> 0 <= n <= 8 -> ReadUintN b n = Ok (v, r) ->
  exists l, b = l ++ r /\ len l = n /\ v = le_value l.
Proof.
  intros Hb Hn Hr. destruct (Z.le_gt_cases n (len b)) as [Hle|Hgt].
  2: { rewrite ReadUintN_short in Hr by lia. done. }
  exists (take (Z.to_nat n) b). rewrite len_take by lia.
  pose proof (ReadUintN_bytes (take (Z.to_nat n) b) (drop (Z.to_nat n) b)) as E.
  rewrite len_take, take_drop in E by lia.
  rewrite E in Hr by (try apply Forall_take; done || lia).
  injection Hr as <- <-. by rewrite take_drop.
Qed.

Ltac crunch_read :=
  repeat match goal with
  | H : length (_ :: _) = _ |- _ => cbn [length] in H
  | H : length ?l = S _ |- _ => destruct l; [discriminate H|injection H as H]
  | H : length ?l = O |- _ => destruct l; [|discriminate H]
  end;
  repeat match goal with H : bytes_ok (_ :: _) |- _ => inversion_clear H end;
  repeat match goal with H : Forall is_u8 (_ :: _) |- _ => inversion_clear H end;
  cbn [app ReadByte rbind le_value]; rewrite ?Z.shiftl_mul_pow2 by lia.

Lemma ReadUint16_bytes l r :
  bytes_ok l -> length l = 2%nat -> ReadUint16 (l ++ r) = Ok (le_value l, r).
Proof. intros. unfold ReadUint16. crunch_read. nowrap. do 2 f_equal. lia. Qed.

Lemma ReadUint32_bytes l r :
  bytes_ok l -> length l = 4%nat -> ReadUint32 (l ++ r) = Ok (le_value l, r).
Proof. intros. unfold ReadUint32. crunch_read. nowrap. do 2 f_equal. lia. Qed.

Lemma ReadUint64_bytes l r :
  bytes_ok l -> length l = 8%nat -> ReadUint64 (l ++ r) = Ok (le_value l, r).
Proof. intros. unfold ReadUint64. crunch_read. nowrap. do 2 f_equal. lia. Qed.

Lemma ReadUint16_le i r : ReadUint16 (le_bytes 2 i ++ r) = Ok (u16 i, r).
Proof.
  rewrite ReadUint16_bytes by (auto using le_bytes_ok, length_le_bytes).
  by rewrite le_value_bytes.
Qed.
Lemma ReadUint32_le i r : ReadUint32 (le_bytes 4 i ++ r) = Ok (u32 i, r).
Proof.
  rewrite ReadUint32_bytes by (auto using le_bytes_ok, length_le_bytes).
  by rewrite le_value_bytes.
Qed.
Lemma ReadUint64_le i r : ReadUint64 (le_bytes 8 i ++ r) = Ok (u64 i, r).
Proof.
  rewrite ReadUint64_bytes by (auto using le_bytes_ok, length_le_bytes).
  by rewrite le_value_bytes.
Qed.

Lemma ReadFull_app l r : ReadFull (l ++ r) (len l) = Ok (l, r).
Proof.
  unfold ReadFull. rewrite len_app. pose proof (len_nonneg r).
  rewrite (proj2 (Z.leb_le _ _)) by lia. by rewrite take_len_app, drop_len_app.
Qed.

(** ** Readers do not panic

    Each reader returns an error or a value of its width, and consumes exactly
    its width. *)

Definition reads (n : Z) (w : Z) (b : list Z) (vr : Z * list Z) : Prop :=
  0 <= vr.1 < 2 ^ w /\ bytes_ok vr.2 /\ len vr.2 + n = len b.

Lemma safe_ReadByte b : bytes_ok b -> safe (ReadByte b) (reads 1 8 b).
Proof.
  intros Hb. destruct Hb as [|x b Hx Hb]; simpl; [done|].
  unfold reads; simpl. rewrite len_cons. split_and!; (done || lia || apply Hx).
Qed.

Lemma safe_ReadUintN b n : bytes_ok b -> 0 <= n <= 8 -> safe (ReadUintN b n) (reads n (8 * n) b).
Proof.
  intros Hb Hn. destruct (Z.le_gt_cases n (len b)) as [Hle|Hgt].
  2: { by rewrite ReadUintN_short by lia. }
  pose proof (ReadUintN_bytes (take (Z.to_nat n) b) (drop (Z.to_nat n) b)) as E.
  rewrite len_take, take_drop in E by lia.
  rewrite E by (try apply Forall_take; done || lia). unfold reads; simpl.
  pose proof (le_value_range (take (Z.to_nat n) b)) as Hr. rewrite len_take in Hr by lia.
  rewrite len_drop by lia.
  split_and!; [apply Hr; by apply Forall_take..|by apply Forall_drop|lia].
Qed.

Lemma safe_fixed (f : list Z -> res (Z * list Z)) k b :
  (forall l r, bytes_ok l -> length l = k -> f (l ++ r) = Ok (le_value l, r)) ->
  (forall l, (length l < k)%nat -> f l = Err EOF) ->
  bytes_ok b -> safe (f b) (reads (Z.of_nat k) (8 * Z.of_nat k) b).
Proof.
  intros Hok Herr Hb. destruct (decide (length b < k)%nat) as [Hlt|Hge].
  { by rewrite Herr. }
  rewrite <- (take_drop k b) at 1.
  rewrite Hok by (try apply Forall_take; try rewrite length_take; done || lia).
  pose proof (le_value_range (take k b) ltac:(by apply Forall_take)) as Hr.
  unfold len in Hr. rewrite length_take_le in Hr by lia.
  unfold reads; simpl. unfold len. rewrite length_drop.
  split_and!; [lia..|by apply Forall_drop|lia].
Qed.

Ltac short_read :=
  intros l Hl; repeat (destruct l as [|? l]; [reflexivity|]); simpl in Hl; lia.

Lemma safe_ReadUint16 b : bytes_ok b -> safe (ReadUint16 b) (reads 2 16 b).
Proof. apply (safe_fixed ReadUint16 2); [apply ReadUint16_bytes|short_read]. Qed.
Lemma safe_ReadUint32 b : bytes_ok b -> safe (ReadUint32 b) (reads 4 32 b).
Proof. apply (safe_fixed ReadUint32 4); [apply ReadUint32_bytes|short_read]. Qed.
Lemma safe_ReadUint64 b : bytes_ok b -> safe (ReadUint64 b) (reads 8 64 b).
Proof. apply (safe_fixed ReadUint64 8); [apply ReadUint64_bytes|short_read]. Qed.

Lemma safe_ReadFull b n :
  bytes_ok b -> 0 <= n ->
  safe (ReadFull b n) (fun vr => len vr.1 = n /\ bytes_ok vr.1 /\ bytes_ok vr.2 /\ len vr.2 + n = len b).
Proof.
  intros Hb Hn. unfold ReadFull. case_if; [|by destruct b]. simpl.
  rewrite len_take, len_drop by lia.
  split_and!; [done|by apply Forall_take|by apply Forall_drop|lia].
Qed.

#[export] Hint Resolve safe_ReadByte safe_ReadUintN safe_ReadUint16 safe_ReadUint32
  safe_ReadUint64 safe_ReadFull : safe.

(** ** The 16-bit float *)

(** One step of the normalisation: the value stays the original shifted by the
    exponent, with its highest bit at position 11 or above, and the offset
    halves the room above it. *)
Definition float16_normal (v : Z) (em : Z * Z) : Prop :=
  0 <= em.1 /\ em.2 = v / 2 ^ em.1 /\ 2 ^ 11 <= em.2 < 2 ^ 12.

Lemma float16_step v off offs :
  0 < off <= 16 ->
  (forall e x, 0 <= e <= 32 - off -> x = v / 2 ^ e -> 2 ^ 11 <= x < 2 ^ (11 + off) ->
     float16_normal v (WriteUfloat16_loop offs e x)) ->
  forall e x, 0 <= e <= 32 - 2 * off -> x = v / 2 ^ e -> 2 ^ 11 <= x < 2 ^ (11 + 2 * off) ->
    float16_normal v (WriteUfloat16_loop (off :: offs) e x).
Proof.
  intros Hoff HP e x He Hx Hr. cbn [WriteUfloat16_loop].
  unfold uFloat16MantissaBits. rewrite Z.shiftl_1_l.
  assert (0 < 2 ^ off) by (apply Z.pow_pos_nonneg; lia).
  replace (11 + 2 * off) with (11 + off + off) in Hr by lia.
  rewrite !Z.pow_add_r in * by lia.
  case_if; apply HP; rewrite ?Z.pow_add_r by lia; [| | |lia|done|lia].
  - rewrite u16_small by (unfold_width; lia). lia.
  - rewrite u16_small by (unfold_width; lia).
    by rewrite Hx, Z.shiftr_div_pow2, Z.div_div, <- Z.pow_add_r by lia.
  - rewrite Z.shiftr_div_pow2 by lia.
    split; [apply Z.div_le_lower_bound; lia|apply Z.div_lt_upper_bound; lia].
Qed.

Lemma WriteUfloat16_loop_spec v :
  2 ^ 11 <= v < 2 ^ 43 -> float16_normal v (WriteUfloat16_loop [16; 8; 4; 2; 1] 0 v).
Proof.
  intros Hv. apply (float16_step v 16); [lia| |lia|by rewrite Z.div_1_r|done].
  apply (float16_step v 8); [lia|]. apply (float16_step v 4); [lia|].
  apply (float16_step v 2); [lia|]. apply (float16_step v 1); [lia|].
  intros e x He Hx Hr. repeat split; simpl; [lia|done|lia..].
Qed.

Lemma uFloat16MaxValue_eq : uFloat16MaxValue = 4095 * 2 ^ 30.
Proof. done. Qed.

(** Decoding a normalised mantissa and exponent *)
Lemma ReadUfloat16_normal e m r :
  1 <= e <= 30 -> 2 ^ 11 <= m < 2 ^ 12 ->
  ReadUfloat16 (le_bytes 2 (m + e * 2 ^ 11) ++ r) = Ok (m * 2 ^ e, r).
Proof.
  intros He Hm. unfold ReadUfloat16. rewrite ReadUint16_le. cbn [rbind].
  rewrite u16_small by (unfold_width; lia).
  change (Z.shiftl 1 uFloat16MantissaEffectiveBits) with (2 ^ 12).
  unfold uFloat16MantissaBits.
  rewrite (proj2 (Z.ltb_ge _ _)) by lia. rewrite Z.shiftr_div_pow2 by lia.
  replace ((m + e * 2 ^ 11) / 2 ^ 11 - 1) with e
    by (rewrite Z.div_add by lia; Z.to_euclidean_division_equations; lia).
  rewrite (u16_small e) by (unfold_width; lia). rewrite !Z.shiftl_mul_pow2 by lia.
  rewrite (u64_small (e * 2 ^ 11)), (u64_small (_ - _)) by (unfold_width; lia).
  replace (m + e * 2 ^ 11 - e * 2 ^ 11) with m by lia.
  assert (0 < 2 ^ e <= 2 ^ 30) by (split; [apply Z.pow_pos_nonneg; lia|apply Z.pow_le_mono_r; lia]).
  rewrite u64_small by (unfold_width; nia). done.
Qed.

(** What [WriteUfloat16] writes for a value in the normalised range *)
Lemma WriteUfloat16_normal b v :
  2 ^ 12 <= v < uFloat16MaxValue ->
  exists e m, 1 <= e <= 30 /\ 2 ^ 11 <= m < 2 ^ 12 /\ m = v / 2 ^ e /\
    WriteUfloat16 b v = b ++ le_bytes 2 (m + e * 2 ^ 11).
Proof.
  rewrite uFloat16MaxValue_eq. intros Hv.
  pose proof (WriteUfloat16_loop_spec v ltac:(lia)) as Hloop.
  unfold WriteUfloat16. change (Z.shiftl 1 uFloat16MantissaEffectiveBits) with (2 ^ 12).
  rewrite (proj2 (Z.ltb_ge _ _)) by lia. rewrite uFloat16MaxValue_eq.
  rewrite Z.geb_leb, (proj2 (Z.leb_gt _ _)) by lia.
  destruct (WriteUfloat16_loop _ 0 v) as [e m].
  destruct Hloop as (He & Hm & Hr). cbn [fst snd] in *.
  assert (0 < 2 ^ e) by (apply Z.pow_pos_nonneg; lia).
  assert (1 <= e <= 30).
  { split.
    - destruct (Z.eq_dec e 0) as [->|]; [rewrite Z.div_1_r in Hm; lia|lia].
    - destruct (Z.le_gt_cases e 30) as [|Hgt]; [done|].
      assert (2 ^ 31 <= 2 ^ e) by (apply Z.pow_le_mono_r; lia).
      pose proof (Z.mul_div_le v (2 ^ e) ltac:(lia)). nia. }
  exists e, m. repeat split; try lia; [].
  rewrite WriteUint16_le. unfold uFloat16MantissaBits. rewrite Z.shiftl_mul_pow2 by lia.
  nowrap. done.
Qed.

(** The value that is read back after [v] has been written: the highest 12 bits
    of [v] *)
Definition float16_round (v : Z) : Z :=
  if v <? 2 ^ 12 then v
  else if v >=? uFloat16MaxValue then uFloat16MaxValue
  else let e := Z.log2 v - 11 in v / 2 ^ e * 2 ^ e.

Lemma WriteUfloat16_app b v : WriteUfloat16 b v = b ++ WriteUfloat16 [] v.
Proof. done. Qed.

Lemma len_WriteUfloat16 v : len (WriteUfloat16 [] v) = 2.
Proof. done. Qed.
#[export] Hint Rewrite len_WriteUfloat16 : quic_len.

Lemma ReadUfloat16_Write v r :
  0 <= v < 2 ^ 64 -> ReadUfloat16 (WriteUfloat16 [] v ++ r) = Ok (float16_round v, r).
Proof.
  intros Hv. unfold float16_round. case_if; [|case_if].
  - unfold WriteUfloat16. change (Z.shiftl 1 uFloat16MantissaEffectiveBits) with (2 ^ 12).
    rewrite (proj2 (Z.ltb_lt _ _)) by lia. rewrite WriteUint16_le, app_nil_l.
    unfold ReadUfloat16. rewrite ReadUint16_le. cbn [rbind]. nowrap.
    change (Z.shiftl 1 uFloat16MantissaEffectiveBits) with (2 ^ 12).
    by rewrite (proj2 (Z.ltb_lt _ _)) by lia.
  - unfold WriteUfloat16. change (Z.shiftl 1 uFloat16MantissaEffectiveBits) with (2 ^ 12).
    rewrite (proj2 (Z.ltb_ge _ _)), Z.geb_leb, (proj2 (Z.leb_le _ _)) by lia.
    rewrite WriteUint16_le. by apply (ReadUfloat16_normal 30 4095).
  - destruct (WriteUfloat16_normal [] v) as (e & m & He & Hm & Hdiv & ->); [lia|].
    rewrite app_nil_l, ReadUfloat16_normal by done. cbv zeta.
    assert (0 < 2 ^ e) by (apply Z.pow_pos_nonneg; lia).
    pose proof (Z.div_mod v (2 ^ e) ltac:(lia)).
    pose proof (Z.mod_pos_bound v (2 ^ e) ltac:(lia)).
    assert (Z.log2 v = 11 + e) as ->.
    { apply Z.log2_unique; [lia|]. unfold Z.succ. rewrite !Z.pow_add_r by lia. nia. }
    by replace (11 + e - 11) with e by lia; subst m.
Qed.

(** Rounding loses less than one part in 2^11. *)
Lemma float16_round_bounds v :
  0 <= v ->
  0 <= float16_round v <= v /\ float16_round v <= uFloat16MaxValue /\
  (2 ^ 12 <= v < uFloat16MaxValue -> 2 ^ 11 * (v - float16_round v) < v).
Proof.
  intros Hv. pose proof uFloat16MaxValue_eq. unfold float16_round.
  case_if; [|case_if]; [lia..|].
  pose proof (Z.log2_spec v ltac:(lia)) as [Hlo Hhi].
  assert (12 <= Z.log2 v) by (apply Z.log2_le_pow2; lia). cbv zeta.
  replace (Z.log2 v) with (11 + (Z.log2 v - 11)) in Hlo by lia. remember (Z.log2 v - 11) as e.
  rewrite Z.pow_add_r in Hlo by lia.
  assert (0 < 2 ^ e) by (apply Z.pow_pos_nonneg; lia).
  pose proof (Z.div_mod v (2 ^ e) ltac:(lia)).
  pose proof (Z.mod_pos_bound v (2 ^ e) ltac:(lia)).
  assert (0 <= v / 2 ^ e) by (apply Z.div_pos; lia).
  split_and!; try nia.
Qed.

Lemma safe_ReadUfloat16 b : bytes_ok b -> safe (ReadUfloat16 b) (reads 2 64 b).
Proof.
  intros Hb. unfold ReadUfloat16. eapply safe_bind; [by apply safe_ReadUint16|].
  intros [v r] (Hv & Hr & Hl). cbn [fst snd] in *. case_if; (split; [|done]); simpl; [lia|].
  apply Z.mod_pos_bound. lia.
Qed.
#[export] Hint Resolve safe_ReadUfloat16 : safe.

(** The 16-bit float keeps a value to within its 12-bit mantissa: what is
    read back is never larger than what was written, is exact below 2^12, loses
    less than one part in 2^11 in the normalised range, and is the largest
    representable value for everything above it. *)
Theorem ufloat16_write_read v r :
  0 <= v < 2 ^ 64 ->
  exists v', ReadUfloat16 (WriteUfloat16 [] v ++ r) = Ok (v', r) /\ v' <= v /\
    (v < 2 ^ 12 -> v' = v) /\
    (2 ^ 12 <= v < uFloat16MaxValue -> 2 ^ 11 * (v - v') < v) /\
    (uFloat16MaxValue <= v -> v' = uFloat16MaxValue).
Proof.
  intros Hv. exists (float16_round v). rewrite ReadUfloat16_Write by done.
  destruct (float16_round_bounds v) as (? & ? & ?); [lia|].
  split_and!; [done|lia| |done|]; intros; unfold float16_round.
  - by rewrite (proj2 (Z.ltb_lt _ _)) by lia.
  - rewrite (proj2 (Z.ltb_ge _ _)), Z.geb_leb, (proj2 (Z.leb_le _ _))
      by (rewrite uFloat16MaxValue_eq in *; lia). done.
Qed.

Lemma ufloat16_write_read_witness :
  exists v', ReadUfloat16 (WriteUfloat16 [] 100001 ++ [7]) = Ok (v', [7]) /\ v' <= 100001.
Proof.
  destruct (ufloat16_write_read 100001 [7]) as (v' & H & Hle & _); [lia|].
  exists v'. split; [exact H|exact Hle].
Defined.
