(* ===== verification/Qerr.v ===== *)
(** * Package qerr: error codes and their conversion *)

From S2P Require Import Prelude.

(** ** qerr/error_codes.go: the codes that the modelled code uses *)

Definition InternalError : Z := 1.
Definition StreamDataAfterTermination : Z := 2.
Definition InvalidPacketHeader : Z := 3.
Definition InvalidFrameData : Z := 4.
Definition MissingPayload : Z := 48.
Definition InvalidStreamData : Z := 46.
Definition UnencryptedStreamData : Z := 61.
Definition AttemptToSendUnencryptedStreamData : Z := 88.
Definition InvalidRstStreamData : Z := 6.
Definition InvalidConnectionCloseData : Z := 7.
Definition InvalidGoawayData : Z := 8.
Definition InvalidWindowUpdateData : Z := 57.
Definition InvalidBlockedData : Z := 58.
Definition InvalidStopWaitingData : Z := 60.
Definition InvalidAckData : Z := 9.
Definition InvalidVersionNegotiationPacket : Z := 10.
Definition DecryptionFailure : Z := 12.
Definition PeerGoingAway : Z := 16.
Definition InvalidStreamID : Z := 17.
Definition TooManyOpenStreams : Z := 18.
Definition NetworkIdleTimeout : Z := 25.
Definition EmptyStreamFrameNoFin : Z := 50.
Definition FlowControlReceivedTooMuchData : Z := 59.
Definition TooManyOutstandingReceivedPackets : Z := 69.
Definition CryptoTooManyEntries : Z := 30.
Definition CryptoInvalidValueLength : Z := 31.
Definition InvalidCryptoMessageParameter : Z := 34.
Definition InvalidVersion : Z := 20.
Definition HandshakeFailed : Z := 28.
Definition InvalidCryptoMessageType : Z := 33.
Definition CryptoMessageParameterNotFound : Z := 35.
Definition CryptoNoSupport : Z := 40.
Definition CryptoTooManyRejects : Z := 41.
Definition ProofInvalid : Z := 42.
Definition CryptoEncryptionLevelIncorrect : Z := 44.
Definition CryptoServerConfigExpired : Z := 45.
Definition VersionNegotiationMismatch : Z := 55.
Definition InvalidHeadersStreamData : Z := 56.
Definition HeadersStreamDataDecompressFailure : Z := 97.

(** ** qerr/quic_error.go *)

Definition ToQuicError (err : goerror) : goerror :=
  match err with
  | QuicError _ _ => err
  | ErrorCodeErr code => QuicError code (Msg "")
  | _ => QuicError InternalError (MsgOf err)
  end.
