(* ===== verification/Frames.v ===== *)
(** * Package frames: the frames other than ACK

    Each frame type is a record with the fields of the Go struct.  [Write] takes
    the buffer and returns it with the result: a frame that fails part-way
    leaves the bytes it had written.  [Parse] takes the unread bytes and returns
    the frame with what is left. *)

From S2P Require Import Prelude Protocol Qerr Wire.

(** ** frames/stream_frame.go *)

Record StreamFrame : Type := mkStreamFrame {
  sf_StreamID : Z;
  sf_FinBit : bool;
  sf_DataLenPresent : bool;
  sf_Offset : Z;
  sf_Data : list Z;
}.

Definition errInvalidStreamIDLen : goerror := ErrNew "StreamFrame: Invalid StreamID length".
Definition errInvalidOffsetLen : goerror := ErrNew "StreamFrame: Invalid offset length".

Definition StreamFrame_DataLen (f : StreamFrame) : Z := len (sf_Data f).

(** The data part of [ParseStreamFrame]: nothing is read when [dataLen] is 0. *)
Definition readStreamData (r : list Z) (dataLen : Z) : res (list Z * list Z) :=
  if dataLen =? 0 then Ok ([], r)
  else
    let '(n, data, r, err) := Read r dataLen in
    if negb (n =? dataLen)
    then Err (ErrNew "BUG: StreamFrame could not read dataLen bytes")
    else match err with Some e => Err e | None => Ok (data, r) end.

Definition ParseStreamFrame (r : list Z) : res (StreamFrame * list Z) :=
  let! (typeByte, r) := ReadByte r in
  let finBit := Z.land typeByte 0x40 >? 0 in
  let dataLenPresent := Z.land typeByte 0x20 >? 0 in
  let offsetLen := Z.shiftr (Z.land typeByte 0x1C) 2 in
  let offsetLen := if negb (offsetLen =? 0) then u8 (offsetLen + 1) else offsetLen in
  let streamIDLen := u8 (Z.land typeByte 0x03 + 1) in
  let! (sid, r) := ReadUintN r streamIDLen in
  let! (offset, r) := ReadUintN r offsetLen in
  let! (dataLen, r) := if dataLenPresent then ReadUint16 r else Ok (0, r) in
  if dataLen >? u16 MaxPacketSize
  then Err (QuicError InvalidStreamData (Msg "data len too large"))
  else
    let dataLen := if negb dataLenPresent then u16 (len r) else dataLen in
    let! (data, r) := readStreamData r dataLen in
    let frame := mkStreamFrame (u32 sid) finBit dataLenPresent offset data in
    if u64 (offset + StreamFrame_DataLen frame) <? offset
    then Err (QuicError InvalidStreamData (Msg "data overflows maximum offset"))
    else if negb finBit && (StreamFrame_DataLen frame =? 0)
    then Err (ErrorCodeErr EmptyStreamFrameNoFin)
    else Ok (frame, r).

Definition calculateStreamIDLength (f : StreamFrame) : Z :=
  if sf_StreamID f <? Z.shiftl 1 8 then 1
  else if sf_StreamID f <? Z.shiftl 1 16 then 2
  else if sf_StreamID f <? Z.shiftl 1 24 then 3
  else 4.

Definition getOffsetLength (f : StreamFrame) : Z :=
  if sf_Offset f =? 0 then 0
  else if sf_Offset f <? Z.shiftl 1 16 then 2
  else if sf_Offset f <? Z.shiftl 1 24 then 3
  else if sf_Offset f <? Z.shiftl 1 32 then 4
  else if sf_Offset f <? Z.shiftl 1 40 then 5
  else if sf_Offset f <? Z.shiftl 1 48 then 6
  else if sf_Offset f <? Z.shiftl 1 56 then 7
  else 8.

(** The type byte that [StreamFrame.Write] builds *)
Definition streamTypeByte (f : StreamFrame) : Z :=
  let typeByte := 0x80 in
  let typeByte := if sf_FinBit f then Z.lxor typeByte 0x40 else typeByte in
  let typeByte := if sf_DataLenPresent f then Z.lxor typeByte 0x20 else typeByte in
  let offsetLength := getOffsetLength f in
  let typeByte :=
    if offsetLength >? 0
    then Z.lxor typeByte (u8 (Z.shiftl (u8 (u8 offsetLength - 1)) 2)) else typeByte in
  Z.lxor typeByte (u8 (calculateStreamIDLength f - 1)).

Definition StreamFrame_Write (f : StreamFrame) (b : list Z) : list Z * res unit :=
  if (len (sf_Data f) =? 0) && negb (sf_FinBit f)
  then (b, Err (ErrNew "StreamFrame: attempting to write empty frame without FIN"))
  else
    let offsetLength := getOffsetLength f in
    let streamIDLen := calculateStreamIDLength f in
    let b := WriteByte b (streamTypeByte f) in
    let '(b, ok) :=
      match streamIDLen with
      | 1 => (WriteByte b (u8 (sf_StreamID f)), true)
      | 2 => (WriteUint16 b (u16 (sf_StreamID f)), true)
      | 3 => (WriteUint24 b (u32 (sf_StreamID f)), true)
      | 4 => (WriteUint32 b (u32 (sf_StreamID f)), true)
      | _ => (b, false)
      end in
    if negb ok then (b, Err errInvalidStreamIDLen)
    else
      let '(b, ok) :=
        match offsetLength with
        | 0 => (b, true)
        | 2 => (WriteUint16 b (u16 (sf_Offset f)), true)
        | 3 => (WriteUint24 b (u32 (sf_Offset f)), true)
        | 4 => (WriteUint32 b (u32 (sf_Offset f)), true)
        | 5 => (WriteUint40 b (sf_Offset f), true)
        | 6 => (WriteUint48 b (sf_Offset f), true)
        | 7 => (WriteUint56 b (sf_Offset f), true)
        | 8 => (WriteUint64 b (sf_Offset f), true)
        | _ => (b, false)
        end in
      if negb ok then (b, Err errInvalidOffsetLen)
      else
        let b :=
          if sf_DataLenPresent f then WriteUint16 b (u16 (len (sf_Data f))) else b in
        (b ++ sf_Data f, Ok tt).

Definition StreamFrame_MinLength (f : StreamFrame) : Z :=
  let length := 1 + calculateStreamIDLength f + getOffsetLength f in
  if sf_DataLenPresent f then length + 2 else length.

(** ** frames/stop_waiting_frame.go *)

Record StopWaitingFrame : Type := mkStopWaitingFrame {
  swf_LeastUnacked : Z;
  swf_PacketNumberLen : Z;
  swf_PacketNumber : Z;
}.

Definition errLeastUnackedHigherThanPacketNumber : goerror :=
  ErrNew "StopWaitingFrame: LeastUnacked can't be greater than the packet number".
Definition errPacketNumberNotSet : goerror := ErrNew "StopWaitingFrame: PacketNumber not set".
Definition errPacketNumberLenNotSet : goerror :=
  ErrNew "StopWaitingFrame: PacketNumberLen not set".

Definition StopWaitingFrame_Write (f : StopWaitingFrame) (b : list Z) : list Z * res unit :=
  let b := WriteByte b 0x06 in
  if swf_PacketNumber f =? 0 then (b, Err errPacketNumberNotSet)
  else if swf_LeastUnacked f >? swf_PacketNumber f
  then (b, Err errLeastUnackedHigherThanPacketNumber)
  else
    let leastUnackedDelta := u64 (swf_PacketNumber f - swf_LeastUnacked f) in
    match swf_PacketNumberLen f with
    | 1 => (WriteByte b (u8 leastUnackedDelta), Ok tt)
    | 2 => (WriteUint16 b (u16 leastUnackedDelta), Ok tt)
    | 4 => (WriteUint32 b (u32 leastUnackedDelta), Ok tt)
    | 6 => (WriteUint48 b leastUnackedDelta, Ok tt)
    | _ => (b, Err errPacketNumberLenNotSet)
    end.

Definition StopWaitingFrame_MinLength (f : StopWaitingFrame) : res Z :=
  if swf_PacketNumberLen f =? PacketNumberLenInvalid then Err errPacketNumberLenNotSet
  else Ok (1 + swf_PacketNumberLen f).

Definition ParseStopWaitingFrame (r : list Z) (packetNumber packetNumberLen : Z)
    : res (StopWaitingFrame * list Z) :=
  let! (_, r) := ReadByte r in
  let! (leastUnackedDelta, r) := ReadUintN r packetNumberLen in
  if leastUnackedDelta >? packetNumber
  then Err (QuicError InvalidStopWaitingData (Msg "invalid LeastUnackedDelta"))
  else Ok (mkStopWaitingFrame (u64 (packetNumber - leastUnackedDelta)) 0 0, r).

(** ** frames/plus_feedback_frame.go *)

Record PLUSFeedbackFrame : Type := mkPLUSFeedbackFrame { pf_Data : list Z }.

Definition errInvalidLenByte : goerror := ErrNew "PLUSFeedbackFrame: Invalid len byte!".
Definition errUnexpectedEndOfData : goerror :=
  ErrNew "PLUSFeedbackFrame: Unexpected end of data!".
Definition errInvalidFrameType : goerror := ErrNew "PLUSFeedbackFrame: Invalid fame type!".
Definition plusFeedbackFrameType : Z := 0x08.

Definition PLUSFeedbackFrame_MinLength (f : PLUSFeedbackFrame) : Z := 2 + len (pf_Data f).

(** The error of the second [ReadByte] is not looked at: at the end of the data
    the length byte is 0. *)
Definition ParsePLUSFeedbackFrame (r : list Z) : res (PLUSFeedbackFrame * list Z) :=
  let! (typeByte, r) := ReadByte r in
  if negb (typeByte =? plusFeedbackFrameType) then Err errInvalidFrameType
  else
    let '(lenByte, r) := match ReadByte r with Ok lr => lr | _ => (0, r) end in
    let '(n, data, r, _) := Read r lenByte in
    if negb (n =? lenByte) then Err errUnexpectedEndOfData
    else Ok (mkPLUSFeedbackFrame data, r).

Definition PLUSFeedbackFrame_Write (f : PLUSFeedbackFrame) (b : list Z) : list Z * res unit :=
  let b := WriteByte b plusFeedbackFrameType in
  if len (pf_Data f) >? 255 then (b, Err errInvalidLenByte)
  else (WriteByte b (u8 (len (pf_Data f))) ++ pf_Data f, Ok tt).

(** ** frames/goaway_frame.go *)

Record GoawayFrame : Type := mkGoawayFrame {
  gf_ErrorCode : Z;
  gf_LastGoodStream : Z;
  gf_ReasonPhrase : list Z;
}.

Definition ParseGoawayFrame (r : list Z) : res (GoawayFrame * list Z) :=
  let! (_, r) := ReadByte r in
  let! (errorCode, r) := ReadUint32 r in
  let! (lastGoodStream, r) := ReadUint32 r in
  let! (reasonPhraseLen, r) := ReadUint16 r in
  if reasonPhraseLen >? u16 MaxPacketSize
  then Err (QuicError InvalidGoawayData (Msg "reason phrase too long"))
  else
    let! (reasonPhrase, r) := ReadFull r reasonPhraseLen in
    Ok (mkGoawayFrame errorCode lastGoodStream reasonPhrase, r).

Definition GoawayFrame_Write (f : GoawayFrame) (b : list Z) : list Z * res unit :=
  let b := WriteByte b 0x03 in
  let b := WriteUint32 b (u32 (gf_ErrorCode f)) in
  let b := WriteUint32 b (u32 (gf_LastGoodStream f)) in
  let b := WriteUint16 b (u16 (len (gf_ReasonPhrase f))) in
  (b ++ gf_ReasonPhrase f, Ok tt).

Definition GoawayFrame_MinLength (f : GoawayFrame) : Z :=
  1 + 4 + 4 + 2 + len (gf_ReasonPhrase f).

(** ** frames/connection_close_frame.go *)

Record ConnectionCloseFrame : Type := mkConnectionCloseFrame {
  ccf_ErrorCode : Z;
  ccf_ReasonPhrase : list Z;
}.

Definition ParseConnectionCloseFrame (r : list Z) : res (ConnectionCloseFrame * list Z) :=
  let! (_, r) := ReadByte r in
  let! (errorCode, r) := ReadUint32 r in
  let! (reasonPhraseLen, r) := ReadUint16 r in
  if reasonPhraseLen >? u16 MaxPacketSize
  then Err (QuicError InvalidConnectionCloseData (Msg "reason phrase too long"))
  else
    let! (reasonPhrase, r) := ReadFull r reasonPhraseLen in
    Ok (mkConnectionCloseFrame errorCode reasonPhrase, r).

Definition ConnectionCloseFrame_MinLength (f : ConnectionCloseFrame) : Z :=
  1 + 4 + 2 + len (ccf_ReasonPhrase f).

Definition ConnectionCloseFrame_Write (f : ConnectionCloseFrame) (b : list Z)
    : list Z * res unit :=
  let b := WriteByte b 0x02 in
  let b := WriteUint32 b (u32 (ccf_ErrorCode f)) in
  if len (ccf_ReasonPhrase f) >? 2 ^ 16 - 1
  then (b, Err (ErrNew "ConnectionFrame: ReasonPhrase too long"))
  else
    let reasonPhraseLen := u16 (len (ccf_ReasonPhrase f)) in
    (WriteUint16 b reasonPhraseLen ++ ccf_ReasonPhrase f, Ok tt).

(** ** frames/rst_stream_frame.go *)

Record RstStreamFrame : Type := mkRstStreamFrame {
  rsf_StreamID : Z;
  rsf_ErrorCode : Z;
  rsf_ByteOffset : Z;
}.

Definition RstStreamFrame_Write (f : RstStreamFrame) (b : list Z) : list Z * res unit :=
  let b := WriteByte b 0x01 in
  let b := WriteUint32 b (u32 (rsf_StreamID f)) in
  let b := WriteUint64 b (u64 (rsf_ByteOffset f)) in
  (WriteUint32 b (rsf_ErrorCode f), Ok tt).

Definition RstStreamFrame_MinLength (f : RstStreamFrame) : Z := 1 + 4 + 8 + 4.

Definition ParseRstStreamFrame (r : list Z) : res (RstStreamFrame * list Z) :=
  let! (_, r) := ReadByte r in
  let! (sid, r) := ReadUint32 r in
  let! (byteOffset, r) := ReadUint64 r in
  let! (errorCode, r) := ReadUint32 r in
  Ok (mkRstStreamFrame sid errorCode byteOffset, r).

(** ** frames/window_update_frame.go *)

Record WindowUpdateFrame : Type := mkWindowUpdateFrame {
  wuf_StreamID : Z;
  wuf_ByteOffset : Z;
}.

Definition WindowUpdateFrame_Write (f : WindowUpdateFrame) (b : list Z) : list Z * res unit :=
  let b := WriteByte b 0x04 in
  let b := WriteUint32 b (u32 (wuf_StreamID f)) in
  (WriteUint64 b (u64 (wuf_ByteOffset f)), Ok tt).

Definition WindowUpdateFrame_MinLength (f : WindowUpdateFrame) : Z := 1 + 4 + 8.

Definition ParseWindowUpdateFrame (r : list Z) : res (WindowUpdateFrame * list Z) :=
  let! (_, r) := ReadByte r in
  let! (sid, r) := ReadUint32 r in
  let! (byteOffset, r) := ReadUint64 r in
  Ok (mkWindowUpdateFrame sid byteOffset, r).

(** ** frames/blocked_frame.go *)

Record BlockedFrame : Type := mkBlockedFrame { bf_StreamID : Z }.

Definition BlockedFrame_Write (f : BlockedFrame) (b : list Z) : list Z * res unit :=
  let b := WriteByte b 0x05 in
  (WriteUint32 b (u32 (bf_StreamID f)), Ok tt).

Definition BlockedFrame_MinLength (f : BlockedFrame) : Z := 1 + 4.

Definition ParseBlockedFrame (r : list Z) : res (BlockedFrame * list Z) :=
  let! (_, r) := ReadByte r in
  let! (sid, r) := ReadUint32 r in
  Ok (mkBlockedFrame sid, r).

(** ** frames/ping_frame.go *)

Record PingFrame : Type := mkPingFrame {}.

Definition ParsePingFrame (r : list Z) : res (PingFrame * list Z) :=
  let! (_, r) := ReadByte r in
  Ok (mkPingFrame, r).

Definition PingFrame_Write (f : PingFrame) (b : list Z) : list Z * res unit :=
  (WriteByte b 0x07, Ok tt).

Definition PingFrame_MinLength (f : PingFrame) : Z := 1.

(** ** STREAM frames on the wire *)

Lemma calculateStreamIDLength_fits f :
  is_u32 (sf_StreamID f) ->
  let l := calculateStreamIDLength f in
  (l = 1 \/ l = 2 \/ l = 3 \/ l = 4) /\ sf_StreamID f < 2 ^ (8 * l).
Proof.
  intros Hid l. subst l. unfold calculateStreamIDLength.
  repeat case_if; calc; unfold_width; lia.
Qed.

Lemma getOffsetLength_fits f :
  is_u64 (sf_Offset f) ->
  let l := getOffsetLength f in
  (l = 0 \/ l = 2 \/ l = 3 \/ l = 4 \/ l = 5 \/ l = 6 \/ l = 7 \/ l = 8) /\
  sf_Offset f < 2 ^ (8 * l).
Proof.
  intros Hoff l. subst l. unfold getOffsetLength.
  repeat case_if; calc; unfold_width; lia.
Qed.

(** The decoder recovers the flags and lengths from the type byte. *)
Lemma streamTypeByte_decode f :
  is_u32 (sf_StreamID f) -> is_u64 (sf_Offset f) ->
  let t := streamTypeByte f in
  (Z.land t 0x40 >? 0) = sf_FinBit f /\
  (Z.land t 0x20 >? 0) = sf_DataLenPresent f /\
  (let o := Z.shiftr (Z.land t 0x1C) 2 in
   (if negb (o =? 0) then u8 (o + 1) else o) = getOffsetLength f) /\
  u8 (Z.land t 0x03 + 1) = calculateStreamIDLength f /\ is_u8 t /\ Z.land t 0x80 = 0x80.
Proof.
  intros Hid Hoff.
  destruct (calculateStreamIDLength_fits f Hid) as [Hs _].
  destruct (getOffsetLength_fits f Hoff) as [Ho _].
  unfold streamTypeByte, is_u8.
  destruct (sf_FinBit f), (sf_DataLenPresent f);
    (destruct Hs as [->|[->|[->| ->]]]);
    (destruct Ho as [->|[->|[->|[->|[->|[->|[->| ->]]]]]]]); vm_compute; intuition congruence.
Qed.

(** What [Write] appends *)
Definition stream_frame_bytes (f : StreamFrame) : list Z :=
  streamTypeByte f ::
  le_bytes (Z.to_nat (calculateStreamIDLength f)) (sf_StreamID f) ++
  le_bytes (Z.to_nat (getOffsetLength f)) (sf_Offset f) ++
  (if sf_DataLenPresent f then le_bytes 2 (len (sf_Data f)) else []) ++
  sf_Data f.

Definition StreamFrame_wf (f : StreamFrame) : Prop :=
  is_u32 (sf_StreamID f) /\ is_u64 (sf_Offset f) /\ bytes_ok (sf_Data f) /\
  (sf_Data f <> [] \/ sf_FinBit f = true) /\ sf_Offset f + len (sf_Data f) < 2 ^ 64.

Lemma nonempty_or_fin f :
  (sf_Data f <> [] \/ sf_FinBit f = true) ->
  (len (sf_Data f) =? 0) && negb (sf_FinBit f) = false.
Proof.
  intros [Hd|Hf]; [|by rewrite Hf, andb_false_r].
  destruct (Z.eqb_spec (len (sf_Data f)) 0); [|done]. by apply len_zero in e.
Qed.

Lemma StreamFrame_Write_spec f b :
  StreamFrame_wf f -> StreamFrame_Write f b = (b ++ stream_frame_bytes f, Ok tt).
Proof.
  intros (Hid & Hoff & _ & Hne & _). unfold StreamFrame_Write, stream_frame_bytes.
  rewrite nonempty_or_fin by done.
  destruct (calculateStreamIDLength_fits f Hid) as [Hs _].
  destruct (getOffsetLength_fits f Hoff) as [Ho _].
  set (t := streamTypeByte f). clearbody t.
  destruct Hs as [-> | [-> | [-> | ->]]];
    destruct Ho as [-> | [-> | [-> | [-> | [-> | [-> | [-> | ->]]]]]]];
    cbn [negb]; calc_nat; destruct (sf_DataLenPresent f);
    autorewrite with quic_write; unfold WriteByte; by rewrite <- !app_assoc.
Qed.

Lemma readStreamData_app data r :
  readStreamData (data ++ r) (len data) = Ok (data, r).
Proof.
  unfold readStreamData. case_if.
  { by rewrite (len_zero data). }
  destruct data as [|d data]; [done|]. unfold Read. cbn [app].
  change (d :: data ++ r) with ((d :: data) ++ r). rewrite len_app.
  rewrite Z.min_l by (pose proof (len_nonneg r); lia).
  rewrite Z.eqb_refl. cbn [negb]. by rewrite take_len_app, drop_len_app, Z.sub_diag, app_nil_r.
Qed.

(** The checks at the end of [ParseStreamFrame] accept a well-formed frame. *)
Lemma parse_stream_checks f (r : list Z) e1 e2 :
  StreamFrame_wf f ->
  (let frame := mkStreamFrame (u32 (sf_StreamID f)) (sf_FinBit f) (sf_DataLenPresent f)
                  (sf_Offset f) (sf_Data f) in
   if u64 (sf_Offset f + StreamFrame_DataLen frame) <? sf_Offset f then Err e1
   else if negb (sf_FinBit f) && (StreamFrame_DataLen frame =? 0) then Err e2
   else Ok (frame, r)) = Ok (f, r).
Proof.
  intros (Hid & Hoff & _ & Hne & Hov). unfold StreamFrame_DataLen. cbn [sf_Data].
  pose proof (len_nonneg (sf_Data f)). unfold_width.
  fold (u64 (sf_Offset f + len (sf_Data f))).
  rewrite u64_small, (proj2 (Z.ltb_ge _ _)) by (unfold_width; lia).
  rewrite andb_comm, nonempty_or_fin by done. rewrite Z.mod_small by done. by destruct f.
Qed.

Lemma ParseStreamFrame_bytes f rest :
  StreamFrame_wf f ->
  (if sf_DataLenPresent f then len (sf_Data f) <= MaxPacketSize
   else len (sf_Data f) < 2 ^ 16 /\ rest = []) ->
  ParseStreamFrame (stream_frame_bytes f ++ rest) = Ok (f, rest).
Proof.
  intros Hwf Hlen.
  assert (H := Hwf). destruct H as (Hid & Hoff & _).
  destruct (calculateStreamIDLength_fits f Hid) as [Hs Hsl].
  destruct (getOffsetLength_fits f Hoff) as [Ho Hol].
  destruct (streamTypeByte_decode f Hid Hoff) as (E1 & E2 & E3 & E4 & _). cbn zeta in *.
  unfold ParseStreamFrame, stream_frame_bytes.
  cbn [app ReadByte rbind]. rewrite E1, E2, E3, E4, <- !app_assoc.
  rewrite <- (Z2Nat.id (calculateStreamIDLength f)) at 2 by lia.
  rewrite ReadUintN_le by lia. cbn [rbind].
  rewrite <- (Z2Nat.id (getOffsetLength f)) at 2 by lia.
  rewrite ReadUintN_le by lia. cbn [rbind].
  rewrite !Z2Nat.id by lia. rewrite !Z.mod_small by (unfold_width; lia).
  pose proof (len_nonneg (sf_Data f)). unfold MaxPacketSize in *.
  pose proof (parse_stream_checks f rest (QuicError InvalidStreamData
    (Msg "data overflows maximum offset")) (ErrorCodeErr EmptyStreamFrameNoFin) Hwf) as Hck.
  cbn zeta in Hck. destruct (sf_DataLenPresent f) eqn:Ed.
  - rewrite ReadUint16_le. cbn [rbind negb].
    rewrite (u16_small (len _)), (u16_small 1350) by (unfold_width; lia).
    rewrite Z.gtb_ltb, (proj2 (Z.ltb_ge _ _)) by lia.
    rewrite readStreamData_app. exact Hck.
  - destruct Hlen as [Hlen ->]. cbn [rbind negb app].
    rewrite (u16_small 1350), Z.gtb_ltb, (proj2 (Z.ltb_ge 1350 0)) by (unfold_width; lia).
    rewrite app_nil_r, (u16_small (len _)) by (unfold_width; lia).
    rewrite <- (app_nil_r (sf_Data f)) at 1.
    rewrite readStreamData_app. exact Hck.
Qed.

(** A STREAM frame that is written and parsed again is the same frame, and the
    parser leaves exactly the bytes that follow it.  A frame with its data
    length present carries at most [MaxPacketSize] bytes; one without it extends
    to the end of the packet. *)
Theorem stream_frame_roundtrip f rest :
  StreamFrame_wf f ->
  (if sf_DataLenPresent f then len (sf_Data f) <= MaxPacketSize
   else len (sf_Data f) < 2 ^ 16 /\ rest = []) ->
  exists w, StreamFrame_Write f [] = (w, Ok tt) /\ ParseStreamFrame (w ++ rest) = Ok (f, rest).
Proof.
  intros Hwf Hlen. exists (stream_frame_bytes f).
  by rewrite StreamFrame_Write_spec, ParseStreamFrame_bytes.
Qed.

Lemma stream_frame_roundtrip_witness :
  exists w, StreamFrame_Write (mkStreamFrame 5 true true 70000 [1; 2; 3]) [] = (w, Ok tt) /\
    ParseStreamFrame (w ++ [9; 9]) = Ok (mkStreamFrame 5 true true 70000 [1; 2; 3], [9; 9]).
Proof.
  apply (stream_frame_roundtrip (mkStreamFrame 5 true true 70000 [1; 2; 3]) [9; 9]);
    [|vm_compute; discriminate].
  repeat split; try (vm_compute; congruence); [|by right].
  repeat constructor; vm_compute; congruence.
Defined.

(** ** Control frames on the wire

    Each lemma states that parsing what was written, followed by any bytes,
    returns the frame and those bytes; [w] is what [Write] appends. *)

Ltac wire_roundtrip :=
  autorewrite with quic_write; unfold WriteByte; rewrite ?app_nil_l, <- ?app_assoc;
  cbn [app ReadByte rbind];
  repeat first
    [ rewrite ReadUint16_le; cbn [rbind] | rewrite ReadUint32_le; cbn [rbind]
    | rewrite ReadUint64_le; cbn [rbind] ].

Lemma rst_stream_roundtrip f rest :
  is_u32 (rsf_StreamID f) -> is_u32 (rsf_ErrorCode f) -> is_u64 (rsf_ByteOffset f) ->
  exists w, RstStreamFrame_Write f [] = (w, Ok tt) /\ len w = RstStreamFrame_MinLength f /\
    ParseRstStreamFrame (w ++ rest) = Ok (f, rest).
Proof.
  intros H1 H2 H3. eexists; split; [reflexivity|]. split; [done|].
  unfold ParseRstStreamFrame. wire_roundtrip. nowrap. by destruct f.
Qed.

Lemma window_update_roundtrip f rest :
  is_u32 (wuf_StreamID f) -> is_u64 (wuf_ByteOffset f) ->
  exists w, WindowUpdateFrame_Write f [] = (w, Ok tt) /\ len w = WindowUpdateFrame_MinLength f /\
    ParseWindowUpdateFrame (w ++ rest) = Ok (f, rest).
Proof.
  intros H1 H2. eexists; split; [reflexivity|]. split; [done|].
  unfold ParseWindowUpdateFrame. wire_roundtrip. nowrap. by destruct f.
Qed.

Lemma blocked_roundtrip f rest :
  is_u32 (bf_StreamID f) ->
  exists w, BlockedFrame_Write f [] = (w, Ok tt) /\ len w = BlockedFrame_MinLength f /\
    ParseBlockedFrame (w ++ rest) = Ok (f, rest).
Proof.
  intros H1. eexists; split; [reflexivity|]. split; [done|].
  unfold ParseBlockedFrame. wire_roundtrip. nowrap. by destruct f.
Qed.

Lemma ping_roundtrip f rest :
  exists w, PingFrame_Write f [] = (w, Ok tt) /\ len w = PingFrame_MinLength f /\
    ParsePingFrame (w ++ rest) = Ok (f, rest).
Proof. eexists; split; [reflexivity|]. split; [done|]. by destruct f. Qed.

Lemma goaway_roundtrip f rest :
  is_u32 (gf_ErrorCode f) -> is_u32 (gf_LastGoodStream f) ->
  len (gf_ReasonPhrase f) <= MaxPacketSize ->
  exists w, GoawayFrame_Write f [] = (w, Ok tt) /\ len w = GoawayFrame_MinLength f /\
    ParseGoawayFrame (w ++ rest) = Ok (f, rest).
Proof.
  intros H1 H2 H3. pose proof (len_nonneg (gf_ReasonPhrase f)). unfold MaxPacketSize in H3.
  eexists; split; [reflexivity|]. split.
  { unfold WriteByte. autorewrite with quic_write quic_len.
    unfold GoawayFrame_MinLength. lia. }
  unfold ParseGoawayFrame. wire_roundtrip. unfold MaxPacketSize. nowrap.
  rewrite Z.gtb_ltb, (proj2 (Z.ltb_ge _ _)) by lia. rewrite ReadFull_app. by destruct f.
Qed.

Lemma connection_close_roundtrip f rest :
  is_u32 (ccf_ErrorCode f) -> len (ccf_ReasonPhrase f) <= MaxPacketSize ->
  exists w, ConnectionCloseFrame_Write f [] = (w, Ok tt) /\
    len w = ConnectionCloseFrame_MinLength f /\
    ParseConnectionCloseFrame (w ++ rest) = Ok (f, rest).
Proof.
  intros H1 H2. pose proof (len_nonneg (ccf_ReasonPhrase f)). unfold MaxPacketSize in H2.
  unfold ConnectionCloseFrame_Write. rewrite Z.gtb_ltb, (proj2 (Z.ltb_ge _ _)) by lia.
  eexists; split; [reflexivity|]. split.
  { unfold WriteByte. autorewrite with quic_write quic_len.
    unfold ConnectionCloseFrame_MinLength. lia. }
  unfold ParseConnectionCloseFrame. wire_roundtrip. unfold MaxPacketSize. nowrap.
  rewrite Z.gtb_ltb, (proj2 (Z.ltb_ge _ _)) by lia. rewrite ReadFull_app. by destruct f.
Qed.

(** The packet number and its length travel in the public header, so the parser
    leaves those two fields at zero. *)
Lemma stop_waiting_roundtrip f rest :
  In (swf_PacketNumberLen f) [1; 2; 4; 6] ->
  0 <= swf_LeastUnacked f <= swf_PacketNumber f -> 0 < swf_PacketNumber f < 2 ^ 64 ->
  swf_PacketNumber f - swf_LeastUnacked f < 2 ^ (8 * swf_PacketNumberLen f) ->
  exists w, StopWaitingFrame_Write f [] = (w, Ok tt) /\
    StopWaitingFrame_MinLength f = Ok (len w) /\
    ParseStopWaitingFrame (w ++ rest) (swf_PacketNumber f) (swf_PacketNumberLen f)
      = Ok (mkStopWaitingFrame (swf_LeastUnacked f) 0 0, rest).
Proof.
  intros Hl H1 H2 H3. unfold StopWaitingFrame_Write, StopWaitingFrame_MinLength.
  rewrite (proj2 (Z.eqb_neq _ _)), Z.gtb_ltb, (proj2 (Z.ltb_ge _ _)) by lia.
  rewrite (u64_small (_ - _)) by (unfold_width; lia).
  assert (exists n, swf_PacketNumberLen f = Z.of_nat n /\ (n <= 8)%nat /\
    (match swf_PacketNumberLen f with
     | 1 => (WriteByte (WriteByte [] 6) (u8 (swf_PacketNumber f - swf_LeastUnacked f)), Ok ())
     | 2 => (WriteUint16 (WriteByte [] 6) (u16 (swf_PacketNumber f - swf_LeastUnacked f)), Ok ())
     | 4 => (WriteUint32 (WriteByte [] 6) (u32 (swf_PacketNumber f - swf_LeastUnacked f)), Ok ())
     | 6 => (WriteUint48 (WriteByte [] 6) (swf_PacketNumber f - swf_LeastUnacked f), Ok ())
     | _ => (WriteByte [] 6, Err errPacketNumberLenNotSet)
     end) = ([6] ++ le_bytes n (swf_PacketNumber f - swf_LeastUnacked f), Ok ()))
    as (n & Hn & Hn8 & ->).
  { destruct Hl as [<-|[<-|[<-|[<-|[]]]]]; [exists 1%nat|exists 2%nat|exists 4%nat|exists 6%nat];
      (split; [done|split; [lia|]]); autorewrite with quic_write; done. }
  eexists; split; [reflexivity|]. rewrite Hn in *. split.
  { rewrite (proj2 (Z.eqb_neq _ _)) by (unfold PacketNumberLenInvalid; simpl in Hl; lia).
    by autorewrite with quic_len. }
  unfold ParseStopWaitingFrame. cbn [app ReadByte rbind].
  rewrite ReadUintN_le by done. cbn [rbind]. rewrite Z.mod_small by lia.
  rewrite Z.gtb_ltb, (proj2 (Z.ltb_ge _ _)) by lia.
  do 3 f_equal. rewrite u64_small by (unfold_width; lia). lia.
Qed.

Lemma plus_feedback_roundtrip f rest :
  len (pf_Data f) <= 255 ->
  exists w, PLUSFeedbackFrame_Write f [] = (w, Ok tt) /\ len w = PLUSFeedbackFrame_MinLength f /\
    ParsePLUSFeedbackFrame (w ++ rest) = Ok (f, rest).
Proof.
  intros Hlen. pose proof (len_nonneg (pf_Data f)). pose proof (len_nonneg rest).
  unfold PLUSFeedbackFrame_Write. rewrite Z.gtb_ltb, (proj2 (Z.ltb_ge _ _)) by lia.
  eexists; split; [reflexivity|]. unfold WriteByte. rewrite u8_small by (unfold_width; lia).
  split; [autorewrite with quic_len; unfold PLUSFeedbackFrame_MinLength; lia|].
  unfold ParsePLUSFeedbackFrame. cbn [app ReadByte rbind]. cbn [negb Z.eqb plusFeedbackFrameType].
  replace (Read (pf_Data f ++ rest) (len (pf_Data f)))
    with (len (pf_Data f), pf_Data f, rest, match pf_Data f ++ rest with [] => Some EOF | _ => None end).
  { rewrite Z.eqb_refl. by destruct f. }
  unfold Read. destruct (pf_Data f ++ rest) eqn:E.
  { apply app_eq_nil in E as [-> ->]. done. }
  rewrite <- E, len_app, Z.min_l by lia.
  by rewrite take_len_app, drop_len_app, Z.sub_diag, app_nil_r.
Qed.

(** A PLUS feedback frame cut off after its type byte is accepted: the parser
    drops the error of reading the length byte and returns a frame with no
    data, while a frame cut off anywhere later is rejected. *)
Theorem plus_feedback_truncated_length_accepted data k w :
  len data <= 255 -> PLUSFeedbackFrame_Write (mkPLUSFeedbackFrame data) [] = (w, Ok tt) ->
  0 < k < len w ->
  ParsePLUSFeedbackFrame (take (Z.to_nat k) w) =
    if k =? 1 then Ok (mkPLUSFeedbackFrame [], []) else Err errUnexpectedEndOfData.
Proof.
  unfold PLUSFeedbackFrame_Write. cbn [pf_Data]. intros Hd. pose proof (len_nonneg data).
  rewrite Z.gtb_ltb, (proj2 (Z.ltb_ge _ _)) by lia. intros [= <-] Hk.
  unfold WriteByte in *. rewrite u8_small in * by (unfold_width; lia).
  cbn [app] in *. autorewrite with quic_len in Hk.
  destruct (Z.eqb_spec k 1) as [->|Hk1]; [done|].
  replace (Z.to_nat k) with (S (S (Z.to_nat (k - 2)))) by lia. cbn [take].
  unfold ParsePLUSFeedbackFrame. cbn [ReadByte rbind negb Z.eqb plusFeedbackFrameType].
  unfold Read. pose proof (len_take (k - 2) data ltac:(lia)) as Ht.
  destruct (take (Z.to_nat (k - 2)) data) as [|x l]; cbn [plusFeedbackFrameType Pos.eqb].
  - rewrite (proj2 (Z.eqb_neq _ _)) by (rewrite len_nil in Ht; lia). done.
  - rewrite Ht, Z.min_r by lia. rewrite (proj2 (Z.eqb_neq _ _)) by lia. done.
Qed.

Lemma plus_feedback_truncated_witness :
  ParsePLUSFeedbackFrame [8] = Ok (mkPLUSFeedbackFrame [], []).
Proof.
  exact (plus_feedback_truncated_length_accepted [1; 2] 1 [8; 2; 1; 2]
           ltac:(vm_compute; congruence) ltac:(reflexivity) ltac:(vm_compute; split; reflexivity)).
Defined.

(** ** Frames from the network

    No parser panics, and each one that succeeds has consumed its type byte. *)

(** What every frame parser guarantees, with [Q] about the frame itself. *)
Definition parses {A} (r : list Z) (Q : A -> Prop) (fr : A * list Z) : Prop :=
  Q fr.1 /\ bytes_ok fr.2 /\ len fr.2 < len r.

Ltac parse_step :=
  eapply safe_bind; [solve [eauto with safe lia]|];
  let v := fresh "v" in let r := fresh "r" in
  let Hv := fresh "Hv" in let Hr := fresh "Hr" in let Hl := fresh "Hl" in
  intros [v r] (Hv & Hr & Hl); cbn [fst snd] in *.

Ltac parse_tac :=
  repeat parse_step; unfold parses; simpl; nowrap; split_and!; (done || lia).

Lemma safe_ParseRstStreamFrame r :
  bytes_ok r ->
  safe (ParseRstStreamFrame r) (parses r (fun f =>
    is_u32 (rsf_StreamID f) /\ is_u32 (rsf_ErrorCode f) /\ is_u64 (rsf_ByteOffset f))).
Proof. intros. unfold ParseRstStreamFrame. parse_tac. Qed.

Lemma safe_ParseWindowUpdateFrame r :
  bytes_ok r ->
  safe (ParseWindowUpdateFrame r) (parses r (fun f =>
    is_u32 (wuf_StreamID f) /\ is_u64 (wuf_ByteOffset f))).
Proof. intros. unfold ParseWindowUpdateFrame. parse_tac. Qed.

Lemma safe_ParseBlockedFrame r :
  bytes_ok r -> safe (ParseBlockedFrame r) (parses r (fun f => is_u32 (bf_StreamID f))).
Proof. intros. unfold ParseBlockedFrame. parse_tac. Qed.

Lemma safe_ParsePingFrame r :
  bytes_ok r -> safe (ParsePingFrame r) (parses r (fun _ => True)).
Proof. intros. unfold ParsePingFrame. parse_tac. Qed.

Lemma safe_reason r n :
  bytes_ok r -> 0 <= n ->
  safe (ReadFull r n) (fun vr => len vr.1 = n /\ bytes_ok vr.2 /\ len vr.2 + n = len r).
Proof.
  intros Hr Hn. eapply safe_impl; [by apply safe_ReadFull|]. naive_solver.
Qed.

Lemma safe_ParseGoawayFrame r :
  bytes_ok r ->
  safe (ParseGoawayFrame r) (parses r (fun f =>
    is_u32 (gf_ErrorCode f) /\ is_u32 (gf_LastGoodStream f) /\
    len (gf_ReasonPhrase f) <= MaxPacketSize)).
Proof.
  intros. unfold ParseGoawayFrame. do 4 parse_step. case_if; [done|].
  change (u16 MaxPacketSize) with MaxPacketSize in *.
  eapply safe_bind; [apply safe_reason; [done|lia]|]. intros [reason r'] (? & ? & ?). simpl in *.
  unfold parses; simpl. unfold_width. split_and!; (done || lia).
Qed.

Lemma safe_ParseConnectionCloseFrame r :
  bytes_ok r ->
  safe (ParseConnectionCloseFrame r) (parses r (fun f =>
    is_u32 (ccf_ErrorCode f) /\ len (ccf_ReasonPhrase f) <= MaxPacketSize)).
Proof.
  intros. unfold ParseConnectionCloseFrame. do 3 parse_step. case_if; [done|].
  change (u16 MaxPacketSize) with MaxPacketSize in *.
  eapply safe_bind; [apply safe_reason; [done|lia]|]. intros [reason r'] (? & ? & ?). simpl in *.
  unfold parses; simpl. unfold_width. split_and!; (done || lia).
Qed.

Lemma safe_ParseStopWaitingFrame r pn pnl :
  bytes_ok r -> 0 <= pn < 2 ^ 64 -> 0 <= pnl <= 8 ->
  safe (ParseStopWaitingFrame r pn pnl) (parses r (fun f => 0 <= swf_LeastUnacked f <= pn)).
Proof.
  intros Hr Hpn Hpnl. unfold ParseStopWaitingFrame. do 2 parse_step. case_if; [done|].
  unfold parses; simpl. rewrite u64_small by (unfold_width; lia). split_and!; (done || lia).
Qed.

Lemma Read_spec r n :
  bytes_ok r -> 0 <= n ->
  let '(k, data, r', err) := Read r n in
  (k = n -> len data = n /\ bytes_ok data /\ len r' + n = len r) /\ bytes_ok r' /\ len r' <= len r.
Proof.
  intros Hr Hn. pose proof (len_nonneg r). unfold Read. destruct r as [|x r].
  { split_and!; [|done|done]. intros <-. done. }
  set (l := x :: r) in *. rewrite len_drop by lia.
  split_and!; [|by apply Forall_drop|lia].
  intros Hk. rewrite Hk, Z.sub_diag. simpl. rewrite app_nil_r, len_take by lia.
  split_and!; [done|by apply Forall_take|lia].
Qed.

Lemma safe_readStreamData r n :
  bytes_ok r -> 0 <= n ->
  safe (readStreamData r n) (fun dr =>
    len dr.1 = n /\ bytes_ok dr.1 /\ bytes_ok dr.2 /\ len dr.2 <= len r).
Proof.
  intros Hr Hn. unfold readStreamData. case_if.
  { subst. simpl. split_and!; (done || constructor || lia). }
  pose proof (Read_spec r n Hr Hn) as Hs. destruct (Read r n) as [[[k data] r'] err].
  destruct Hs as (Hk & Hr' & Hl). case_if; [done|]. destruct err; [done|].
  destruct (Hk ltac:(done)) as (? & ? & ?). simpl. split_and!; (done || lia).
Qed.

Lemma safe_ParseStreamFrame r :
  bytes_ok r -> safe (ParseStreamFrame r) (parses r StreamFrame_wf).
Proof.
  intros Hr. unfold ParseStreamFrame. parse_step. rename v into tb.
  pose proof (land_bounds tb 0x03 ltac:(lia) ltac:(lia)).
  pose proof (land_bounds tb 0x1C ltac:(lia) ltac:(lia)) as Hb. cbv zeta.
  set (ol := if negb _ then _ else _).
  assert (0 <= ol <= 8) as Hol.
  { unfold ol. rewrite Z.shiftr_div_pow2 by lia. change (2 ^ 2) with 4.
    assert (0 <= Z.land tb 28 / 4 <= 7) by (Z.to_euclidean_division_equations; lia).
    case_if; [rewrite u8_small by (unfold_width; lia); lia|lia]. }
  assert (2 ^ (8 * ol) <= 2 ^ 64) by (apply Z.pow_le_mono_r; lia).
  rewrite (u8_small (Z.land tb 3 + 1)) by (unfold_width; lia).
  parse_step. parse_step. rename v0 into off.
  eapply (safe_bind _ _ (fun dr => 0 <= dr.1 < 2 ^ 16 /\ bytes_ok dr.2 /\ len dr.2 <= len r2)).
  { case_if; [|simpl; split_and!; (done || lia)].
    eapply safe_impl; [by apply safe_ReadUint16|]. intros [? ?] (? & ? & ?). simpl in *.
    split_and!; (done || lia). }
  intros [dl r3] (Hdl & Hr3 & Hl3). cbn [fst snd] in *. case_if; [done|].
  set (n := if negb _ then u16 (len r3) else dl).
  assert (0 <= n < 2 ^ 16) by (unfold n; case_if; [apply u16_range|lia]).
  eapply safe_bind; [apply safe_readStreamData; [done|lia]|].
  intros [data r4] (Hd & Hdok & Hr4 & Hl4). cbn [fst snd] in *.
  unfold StreamFrame_DataLen. cbn [sf_Data]. repeat case_if; try done.
  unfold parses, StreamFrame_wf; simpl. pose proof (len_nonneg data).
  split_and!; try (done || lia || apply u32_range).
  - unfold_width. lia.
  - destruct (Z.land tb 64 >? 0); [by right|left]. intros ->. done.
  - destruct (Z.lt_ge_cases (off + len data) (2 ^ 64)); [done|].
    replace (off + len data) with (off + len data - 2 ^ 64 + 1 * 2 ^ 64) in Heqb0 by lia.
    unfold u64 in Heqb0. rewrite Z_mod_plus_full, Z.mod_small in Heqb0 by lia. lia.
Qed.

Lemma safe_ParsePLUSFeedbackFrame r :
  bytes_ok r -> safe (ParsePLUSFeedbackFrame r) (parses r (fun f => len (pf_Data f) <= 255)).
Proof.
  intros Hr. unfold ParsePLUSFeedbackFrame. parse_step. case_if; [done|].
  assert (exists lenByte r1, (match ReadByte r0 with Ok lr => lr | _ => (0, r0) end) = (lenByte, r1) /\
    0 <= lenByte <= 255 /\ bytes_ok r1 /\ len r1 <= len r0) as (lenByte & r1 & -> & Hlb & Hr1 & Hl1).
  { destruct Hr0 as [|x r0 Hx Hr0]; [exists 0, []; split_and!; (done || lia || constructor)|].
    exists x, r0. unfold_width. rewrite len_cons. split_and!; (done || lia). }
  pose proof (Read_spec r1 lenByte Hr1 ltac:(lia)) as Hs.
  destruct (Read r1 lenByte) as [[[k data] r'] err]. destruct Hs as (Hk & Hr' & Hl').
  case_if; [done|]. destruct (Hk ltac:(done)) as (? & ? & ?).
  unfold parses; simpl. split_and!; (done || lia).
Qed.
