(* ===== verification/AckFrame.v ===== *)
(** * Package frames: the ACK frame

    Parsing, writing and validation of ACK frames, with the split of long gaps
    into blocks of at most 255 packets and the limit of 255 blocks.  The theorems
    show what a receiver recovers from a written frame, that the announced
    length is the written one, and which frames cannot be written. *)

From S2P Require Import Prelude Protocol Qerr Wire.

(** ** frames/ack_range.go and the data of frames/ack_frame.go *)

Record AckRange : Type := mkAckRange {
  FirstPacketNumber : Z;
  LastPacketNumber : Z;
}.

Record AckFrame : Type := mkAckFrame {
  LargestAcked : Z;
  LowestAcked : Z;
  AckRanges : list AckRange;
  PacketReceivedTime : Z;
  DelayTime : Z;
}.

Definition ErrInvalidAckRanges : goerror :=
  ErrNew "AckFrame: ACK frame contains invalid ACK ranges".
Definition ErrInvalidFirstAckRange : goerror :=
  ErrNew "AckFrame: ACK frame has invalid first ACK range".
Definition errInconsistentAckLargestAcked : goerror :=
  ErrNew "internal inconsistency: LargestAcked does not match ACK ranges".
Definition errInconsistentAckLowestAcked : goerror :=
  ErrNew "internal inconsistency: LowestAcked does not match ACK ranges".
Definition errInconsistentAckBlocks : goerror :=
  ErrNew "BUG: Inconsistent number of ACK ranges written".

Definition HasMissingRanges (f : AckFrame) : bool := len (AckRanges f) >? 0.

(** ** validateAckRanges *)

(** The last loop: every range lies strictly below its predecessor, with at
    least one packet between them. *)
Fixpoint ackRangesDescend (lastAckRange : AckRange) (rs : list AckRange) : bool :=
  match rs with
  | [] => true
  | r :: rs =>
      if FirstPacketNumber lastAckRange <=? FirstPacketNumber r then false
      else if FirstPacketNumber lastAckRange <=? u64 (LastPacketNumber r + 1) then false
      else ackRangesDescend r rs
  end.

Definition validateAckRanges (f : AckFrame) : bool :=
  match AckRanges f with
  | [] => true
  | [_] => false
  | r :: rs =>
      if negb (LastPacketNumber r =? LargestAcked f) then false
      else if existsb (fun r => FirstPacketNumber r >? LastPacketNumber r) (AckRanges f)
      then false
      else ackRangesDescend r rs
  end.

(** ** ParseAckFrame *)

(** The loop over the ACK blocks.  The slice of ranges is kept in reverse, so
    that its last element is the head of the list. *)
Fixpoint ParseAckBlocks (todo : nat) (r : list Z) (deltaLen : Z) (ranges : list AckRange)
    (inLongBlock lastRangeComplete : bool) : res (list AckRange * bool * list Z) :=
  match todo with
  | O => Ok (ranges, lastRangeComplete, r)
  | S todo =>
      let! (gap, r) := ReadByte r in
      let! (ackBlockLength, r) := ReadUintN r deltaLen in
      match ranges with
      | [] => Panic
      | last :: earlier =>
          let '(ranges, lastRangeComplete) :=
            if inLongBlock then
              (mkAckRange (u64 (FirstPacketNumber last - u64 (gap + ackBlockLength)))
                 (u64 (LastPacketNumber last - gap)) :: earlier, lastRangeComplete)
            else
              let l := u64 (FirstPacketNumber last - gap - 1) in
              (mkAckRange (u64 (l - ackBlockLength + 1)) l :: ranges, false) in
          let lastRangeComplete := if ackBlockLength >? 0 then true else lastRangeComplete in
          ParseAckBlocks todo r deltaLen ranges (ackBlockLength =? 0) lastRangeComplete
      end
  end.

(** Skips the timestamps. *)
Fixpoint skipTimestamps (todo : nat) (r : list Z) : res (list Z) :=
  match todo with
  | O => Ok r
  | S todo =>
      let! (_, r) := ReadByte r in
      let! (_, r) := ReadUint16 r in
      skipTimestamps todo r
  end.

Definition parseTimestamps (r : list Z) : res (list Z) :=
  let! (numTimestamp, r) := ReadByte r in
  if numTimestamp >? 0 then
    let! (_, r) := ReadByte r in
    let! (_, r) := ReadUint32 r in
    skipTimestamps (Z.to_nat (numTimestamp - 1)) r
  else Ok r.

Definition ParseAckFrame (r : list Z) : res (AckFrame * list Z) :=
  let! (typeByte, r) := ReadByte r in
  let hasMissingRanges := Z.land typeByte 0x20 =? 0x20 in
  let largestAckedLen := u8 (2 * Z.shiftr (Z.land typeByte 0x0C) 2) in
  let largestAckedLen := if largestAckedLen =? 0 then 1 else largestAckedLen in
  let deltaLen := u8 (2 * Z.land typeByte 0x03) in
  let deltaLen := if deltaLen =? 0 then 1 else deltaLen in
  let! (largestAcked, r) := ReadUintN r largestAckedLen in
  let! (delay, r) := ReadUfloat16 r in
  let delayTime := i64 (delay * Microsecond) in
  let! (numAckBlocks, r) := if hasMissingRanges then ReadByte r else Ok (0, r) in
  if hasMissingRanges && (numAckBlocks =? 0) then Err ErrInvalidAckRanges
  else
    let! (ackBlockLength, r) := ReadUintN r deltaLen in
    if (largestAcked >? 0) && (ackBlockLength <? 1) then Err ErrInvalidFirstAckRange
    else if ackBlockLength >? largestAcked then Err ErrInvalidAckRanges
    else
      let! (ranges, lowestAcked, r) :=
        if hasMissingRanges then
          let first := mkAckRange (u64 (u64 (largestAcked - ackBlockLength) + 1)) largestAcked in
          let! (ranges, lastRangeComplete, r) :=
            ParseAckBlocks (Z.to_nat numAckBlocks) r deltaLen [first] false false in
          let ranges := if negb lastRangeComplete then tail ranges else ranges in
          match ranges with
          | [] => Panic
          | last :: _ => Ok (rev ranges, FirstPacketNumber last, r)
          end
        else if largestAcked =? 0 then Ok ([], 0, r)
        else Ok ([], u64 (u64 (largestAcked + 1) - ackBlockLength), r) in
      let frame := mkAckFrame largestAcked lowestAcked ranges 0 delayTime in
      if negb (validateAckRanges frame) then Err ErrInvalidAckRanges
      else
        let! r := parseTimestamps r in
        Ok (frame, r).

(** ** Lengths *)

(** The number of blocks that a gap takes: one per 255 packets *)
Definition gapBlocks (gap : Z) : Z :=
  let num := 1 + gap / 0xFF in if gap mod 0xFF =? 0 then num - 1 else num.

Definition ackGap (lastAckRange r : AckRange) : Z :=
  u64 (FirstPacketNumber lastAckRange - LastPacketNumber r - 1).

Fixpoint numWritable_loop (lastAckRange : AckRange) (rs : list AckRange) (numRanges : Z) : Z :=
  match rs with
  | [] => numRanges
  | r :: rs =>
      let rangeLength := gapBlocks (ackGap lastAckRange r) in
      if u64 (numRanges + rangeLength) <? 0xFF
      then numWritable_loop r rs (u64 (numRanges + rangeLength))
      else numRanges
  end.

Definition numWritableNackRanges (f : AckFrame) : Z :=
  match AckRanges f with
  | [] => 0
  | r :: rs => u64 (numWritable_loop r rs 0 + 1)
  end.

Definition ackRangeLength (r : AckRange) : Z :=
  u64 (LastPacketNumber r - FirstPacketNumber r + 1).

Definition getMissingSequenceNumberDeltaLen (f : AckFrame) : Z :=
  let maxRangeLength :=
    if HasMissingRanges f then
      fold_left (fun m r => if ackRangeLength r >? m then ackRangeLength r else m)
        (AckRanges f) 0
    else u64 (LargestAcked f - LowestAcked f + 1) in
  if maxRangeLength <=? 0xFF then PacketNumberLen1
  else if maxRangeLength <=? 0xFFFF then PacketNumberLen2
  else if maxRangeLength <=? 0xFFFFFFFF then PacketNumberLen4
  else PacketNumberLen6.

Definition AckFrame_MinLength (f : AckFrame) : Z :=
  let length := 1 + 2 + 1 + GetPacketNumberLength (LargestAcked f) in
  let deltaLen := getMissingSequenceNumberDeltaLen f in
  if HasMissingRanges f then length + (1 + deltaLen) * numWritableNackRanges f
  else length + deltaLen.

(** ** Write *)

(** The [switch] on a packet number length that writes one field *)
Definition writeWithLen (b : list Z) (l v : Z) : list Z :=
  match l with
  | 1 => WriteByte b (u8 v)
  | 2 => WriteUint16 b (u16 v)
  | 4 => WriteUint32 b (u32 v)
  | 6 => WriteUint48 b v
  | _ => b
  end.

(** The blocks of a long gap, from block [i] on *)
Fixpoint writeLongGap (todo : nat) (i num gap length deltaLen : Z) (b : list Z) : list Z :=
  match todo with
  | O => b
  | S todo =>
      let '(lengthWritten, gapWritten) :=
        if i =? num - 1 then (length, u8 (1 + u64 (gap - 1) mod 255)) else (0, 0xFF) in
      writeLongGap todo (i + 1) num gap length deltaLen
        (writeWithLen (WriteByte b gapWritten) deltaLen lengthWritten)
  end.

Fixpoint writeAckRanges (lastAckRange : AckRange) (rs : list AckRange) (deltaLen numRanges : Z)
    (b : list Z) (numRangesWritten : Z) : list Z * Z :=
  match rs with
  | [] => (b, numRangesWritten)
  | r :: rs =>
      let length := ackRangeLength r in
      let gap := ackGap lastAckRange r in
      let num := gap / 0xFF + 1 in
      let num := if gap mod 0xFF =? 0 then num - 1 else num in
      let '(b, numRangesWritten) :=
        if num =? 1
        then (writeWithLen (WriteByte b (u8 gap)) deltaLen length, numRangesWritten + 1)
        else (writeLongGap (Z.to_nat num) 0 num gap length deltaLen b, numRangesWritten + num) in
      if numRangesWritten >=? numRanges then (b, numRangesWritten)
      else writeAckRanges r rs deltaLen numRanges b numRangesWritten
  end.

(** The type byte *)
Definition ackTypeByte (f : AckFrame) : Z :=
  let largestAckedLen := GetPacketNumberLength (LargestAcked f) in
  let typeByte := 0x40 in
  let typeByte :=
    if negb (largestAckedLen =? PacketNumberLen1)
    then Z.lxor typeByte (u8 (Z.shiftl (u8 (largestAckedLen / 2)) 2)) else typeByte in
  let deltaLen := getMissingSequenceNumberDeltaLen f in
  let typeByte :=
    if negb (deltaLen =? PacketNumberLen1)
    then Z.lxor typeByte (u8 (deltaLen / 2)) else typeByte in
  if HasMissingRanges f then Z.lor typeByte 0x20 else typeByte.

(** [Write] sets the frame's [DelayTime] to [time.Since(PacketReceivedTime)],
    which is [delay] here. *)
Definition AckFrame_Write (f : AckFrame) (delay : Z) (b : list Z)
    : AckFrame * list Z * res unit :=
  let largestAckedLen := GetPacketNumberLength (LargestAcked f) in
  let deltaLen := getMissingSequenceNumberDeltaLen f in
  let b := WriteByte b (ackTypeByte f) in
  let b := writeWithLen b largestAckedLen (LargestAcked f) in
  let f := mkAckFrame (LargestAcked f) (LowestAcked f) (AckRanges f) (PacketReceivedTime f) delay in
  let b := WriteUfloat16 b (u64 (Z.quot delay Microsecond)) in
  match AckRanges f with
  | [] =>
      let b := writeWithLen b deltaLen (u64 (LargestAcked f - LowestAcked f + 1)) in
      (f, WriteByte b 0, Ok tt)
  | first :: rs =>
      let numRanges := numWritableNackRanges f in
      if numRanges >? 0xFF then (f, b, Panic)
      else
        let b := WriteByte b (u8 (numRanges - 1)) in
        if negb (LargestAcked f =? LastPacketNumber first)
        then (f, b, Err errInconsistentAckLargestAcked)
        else if negb (LowestAcked f =? FirstPacketNumber (List.last rs first))
        then (f, b, Err errInconsistentAckLowestAcked)
        else
          let b := writeWithLen b deltaLen (u64 (LargestAcked f - FirstPacketNumber first + 1)) in
          let '(b, numRangesWritten) := writeAckRanges first rs deltaLen numRanges b 1 in
          if negb (numRanges =? numRangesWritten) then (f, b, Err errInconsistentAckBlocks)
          else (f, WriteByte b 0, Ok tt)
  end.

(** ** AcksPacket *)

Definition AcksPacket (f : AckFrame) (p : Z) : bool :=
  if (p <? LowestAcked f) || (p >? LargestAcked f) then false
  else if HasMissingRanges f then
    existsb (fun r => (p >=? FirstPacketNumber r) && (p <=? LastPacketNumber r)) (AckRanges f)
  else (p >=? LowestAcked f) && (p <=? LargestAcked f).

(** ** Valid ranges *)

Definition range_ok (r : AckRange) : Prop :=
  0 <= FirstPacketNumber r /\ FirstPacketNumber r <= LastPacketNumber r < 2 ^ 48.

Fixpoint descends (prev : AckRange) (rs : list AckRange) : Prop :=
  match rs with
  | [] => True
  | r :: rs => range_ok r /\ LastPacketNumber r + 1 < FirstPacketNumber prev /\ descends r rs
  end.

Definition AckFrame_wf (f : AckFrame) : Prop :=
  0 < LowestAcked f /\ LowestAcked f <= LargestAcked f < 2 ^ 48 /\
  match AckRanges f with
  | [] => True
  | first :: rs =>
      range_ok first /\ descends first rs /\ rs <> [] /\
      LastPacketNumber first = LargestAcked f /\
      FirstPacketNumber (List.last rs first) = LowestAcked f
  end.

Lemma descends_range_ok prev rs : descends prev rs -> Forall range_ok rs.
Proof. revert prev; induction rs as [|r rs IH]; intros prev; [done|].
  intros (Hr & _ & Hrs). constructor; eauto.
Qed.

Lemma descends_last prev rs :
  range_ok prev -> descends prev rs -> FirstPacketNumber (List.last rs prev) <= FirstPacketNumber prev.
Proof.
  revert prev; induction rs as [|r rs IH]; intros prev Hp; [simpl; lia|].
  intros (Hr & Hg & Hrs). specialize (IH r Hr Hrs). rewrite last_cons. unfold range_ok in *. lia.
Qed.

Lemma descends_first_ge prev rs :
  range_ok prev -> descends prev rs ->
  Forall (fun r => range_ok r /\ FirstPacketNumber (List.last rs prev) <= FirstPacketNumber r)
    (prev :: rs).
Proof.
  revert prev; induction rs as [|r rs IH]; intros prev Hp Hd.
  - constructor; [split; [done|simpl; lia]|done].
  - pose proof (descends_last prev (r :: rs) Hp Hd). destruct Hd as (Hr & _ & Hd).
    rewrite last_cons in *. constructor; auto.
Qed.

Lemma ackGap_ok prev r :
  range_ok prev -> range_ok r -> LastPacketNumber r + 1 < FirstPacketNumber prev ->
  ackGap prev r = FirstPacketNumber prev - LastPacketNumber r - 1.
Proof. unfold range_ok, ackGap. intros. apply u64_small. unfold_width. lia. Qed.

Lemma ackRangeLength_ok r :
  range_ok r -> ackRangeLength r = LastPacketNumber r - FirstPacketNumber r + 1.
Proof. unfold range_ok, ackRangeLength. intros. apply u64_small. unfold_width. lia. Qed.

Lemma descends_valid prev rs : range_ok prev -> descends prev rs -> ackRangesDescend prev rs = true.
Proof.
  revert prev; induction rs as [|r rs IH]; intros prev Hp; simpl; [done|].
  intros (Hr & Hg & Hrs). pose proof Hr as Hr'. unfold range_ok in Hr', Hp.
  rewrite u64_small by (unfold_width; lia). rewrite !(proj2 (Z.leb_gt _ _)) by lia. auto.
Qed.

(** ** The bytes of the blocks *)

(** The gap that the last block of a range carries; the others carry 255. *)
Definition lastGap (gap : Z) : Z := 1 + (gap - 1) mod 255.

Lemma gapBlocks_spec gap :
  0 < gap -> 1 <= gapBlocks gap /\ 1 <= lastGap gap <= 255 /\
  gap = 255 * (gapBlocks gap - 1) + lastGap gap.
Proof.
  intros. unfold gapBlocks, lastGap. case_if; Z.to_euclidean_division_equations; lia.
Qed.

Definition emptyBlock (n : nat) : list Z := 255 :: le_bytes n 0.

Definition rangeBytes (n : nat) (gap length : Z) : list Z :=
  concat (replicate (Z.to_nat (gapBlocks gap - 1)) (emptyBlock n))
    ++ lastGap gap :: le_bytes n length.

Definition oneOf1246 (l : Z) : Prop := l = 1 \/ l = 2 \/ l = 4 \/ l = 6.

Lemma writeWithLen_le b l v : oneOf1246 l -> writeWithLen b l v = b ++ le_bytes (Z.to_nat l) v.
Proof.
  intros [-> | [-> | [-> | ->]]]; unfold writeWithLen; by autorewrite with quic_write.
Qed.

Lemma oneOf1246_nat l : oneOf1246 l -> (Z.to_nat l <= 6)%nat /\ Z.of_nat (Z.to_nat l) = l.
Proof. unfold oneOf1246. lia. Qed.

Lemma writeLongGap_S todo i num gap length dl b :
  writeLongGap (S todo) i num gap length dl b =
    let '(lengthWritten, gapWritten) :=
      if i =? num - 1 then (length, u8 (1 + u64 (gap - 1) mod 255)) else (0, 0xFF) in
    writeLongGap todo (i + 1) num gap length dl
      (writeWithLen (WriteByte b gapWritten) dl lengthWritten).
Proof. done. Qed.

Lemma writeLongGap_spec n i b l num gap length :
  oneOf1246 l -> 0 < gap -> i + Z.of_nat (S n) = num ->
  writeLongGap (S n) i num gap length l b =
    b ++ concat (replicate n (emptyBlock (Z.to_nat l)))
      ++ u8 (1 + u64 (gap - 1) mod 255) :: le_bytes (Z.to_nat l) length.
Proof.
  intros Hl Hg. revert i b; induction n as [|n IH]; intros i b Hi;
    rewrite writeLongGap_S; cbn [replicate concat].
  - rewrite (proj2 (Z.eqb_eq _ _)) by lia.
    rewrite writeWithLen_le by done. unfold WriteByte. by rewrite <- app_assoc.
  - rewrite (proj2 (Z.eqb_neq _ _)) by lia. rewrite writeWithLen_le by done.
    unfold WriteByte, emptyBlock in *. rewrite IH by lia. simpl. by rewrite <- !app_assoc.
Qed.

(** The body of the loop of [Write] appends the blocks of one range. *)
Lemma writeAckRanges_step prev r rs dl numRanges b written :
  oneOf1246 dl -> range_ok prev -> range_ok r -> LastPacketNumber r + 1 < FirstPacketNumber prev ->
  writeAckRanges prev (r :: rs) dl numRanges b written =
    let gap := ackGap prev r in
    let b := b ++ rangeBytes (Z.to_nat dl) gap (ackRangeLength r) in
    let written := written + gapBlocks gap in
    if written >=? numRanges then (b, written) else writeAckRanges r rs dl numRanges b written.
Proof.
  intros Hdl Hp Hr Hgap. cbn [writeAckRanges].
  rewrite ackGap_ok by done. remember (FirstPacketNumber prev - LastPacketNumber r - 1) as gap.
  assert (0 < gap < 2 ^ 48) as Hg by (unfold range_ok in *; lia). cbv zeta.
  assert ((if gap mod 0xFF =? 0 then gap / 0xFF + 1 - 1 else gap / 0xFF + 1) = gapBlocks gap)
    as -> by (unfold gapBlocks; case_if; lia).
  destruct (gapBlocks_spec gap) as (Hk & Hl & Hgeq); [lia|].
  unfold rangeBytes. destruct (Z.eqb_spec (gapBlocks gap) 1) as [E|E].
  - rewrite E in *. rewrite writeWithLen_le by done. rewrite u8_small by (unfold_width; lia).
    unfold WriteByte. rewrite <- app_assoc. simpl. by replace (lastGap gap) with gap by lia.
  - assert (Z.to_nat (gapBlocks gap) = S (Z.to_nat (gapBlocks gap - 1))) as -> by lia.
    rewrite writeLongGap_spec by (done || lia).
    rewrite (u64_small (gap - 1)) by (unfold_width; lia). fold (lastGap gap).
    by rewrite (u8_small (lastGap gap)) by (unfold_width; lia).
Qed.

(** ** What fits into the frame *)

(** The ranges that [numWritableNackRanges] counts, after [n] blocks *)
Fixpoint writable (prev : AckRange) (rs : list AckRange) (n : Z) : list AckRange :=
  match rs with
  | [] => []
  | r :: rs =>
      let k := gapBlocks (ackGap prev r) in
      if n + k <? 0xFF then r :: writable r rs (n + k) else []
  end.

Definition writtenRanges (f : AckFrame) : list AckRange :=
  match AckRanges f with
  | [] => []
  | first :: rs => first :: writable first rs 0
  end.

Fixpoint rangesBytes (n : nat) (prev : AckRange) (rs : list AckRange) : list Z :=
  match rs with
  | [] => []
  | r :: rs => rangeBytes n (ackGap prev r) (ackRangeLength r) ++ rangesBytes n r rs
  end.

Fixpoint blocks (prev : AckRange) (rs : list AckRange) : Z :=
  match rs with
  | [] => 0
  | r :: rs => gapBlocks (ackGap prev r) + blocks r rs
  end.

Lemma gapBlocks_pos prev r :
  range_ok prev -> range_ok r -> LastPacketNumber r + 1 < FirstPacketNumber prev ->
  1 <= gapBlocks (ackGap prev r) < 2 ^ 48.
Proof.
  intros Hp Hr Hgap. rewrite ackGap_ok by done.
  destruct (gapBlocks_spec (FirstPacketNumber prev - LastPacketNumber r - 1)); unfold range_ok in *; lia.
Qed.

Lemma numWritable_loop_blocks prev rs n :
  range_ok prev -> descends prev rs -> 0 <= n < 0xFF ->
  numWritable_loop prev rs n = n + blocks prev (writable prev rs n) /\
  n <= numWritable_loop prev rs n < 0xFF.
Proof.
  revert prev n; induction rs as [|r rs IH]; intros prev n Hp; simpl; [lia|].
  intros (Hr & Hg & Hrs) Hn. pose proof (gapBlocks_pos prev r Hp Hr Hg).
  rewrite u64_small by (unfold_width; lia). case_if; simpl; [|lia].
  destruct (IH r (n + gapBlocks (ackGap prev r))) as [-> Hb]; [done|done|lia|]. lia.
Qed.

Lemma blocks_pos prev rs : range_ok prev -> descends prev rs -> rs <> [] -> 1 <= blocks prev rs.
Proof.
  revert prev; induction rs as [|r rs IH]; intros prev Hp; simpl; [done|].
  intros (Hr & Hg & Hrs) _. pose proof (gapBlocks_pos prev r Hp Hr Hg).
  destruct rs as [|r' rs]; [simpl; lia|]. specialize (IH r Hr Hrs ltac:(done)). lia.
Qed.

Lemma writable_prefix prev rs n : exists cut, rs = writable prev rs n ++ cut.
Proof.
  revert prev n; induction rs as [|r rs IH]; intros prev n; simpl; [by exists []|].
  case_if; [|by eexists]. destruct (IH r (n + gapBlocks (ackGap prev r))) as [cut E].
  exists cut. simpl. by f_equal.
Qed.

Lemma descends_app prev rs cut : descends prev (rs ++ cut) -> descends prev rs.
Proof. revert prev; induction rs as [|r rs IH]; intros prev; [done|]. intros (? & ? & ?). simpl. auto. Qed.

Lemma descends_writable prev rs n : descends prev rs -> descends prev (writable prev rs n).
Proof. destruct (writable_prefix prev rs n) as [cut E]. rewrite E at 1. apply descends_app. Qed.

(** The loop of [Write] writes exactly the ranges that were counted, provided
    that it gets to write one. *)
Lemma writeAckRanges_spec prev rs dl b n :
  oneOf1246 dl -> range_ok prev -> descends prev rs -> 0 <= n < 0xFF ->
  (writable prev rs n = [] -> rs = []) ->
  writeAckRanges prev rs dl (numWritable_loop prev rs n + 1) b (n + 1) =
    (b ++ rangesBytes (Z.to_nat dl) prev (writable prev rs n), numWritable_loop prev rs n + 1).
Proof.
  intros Hdl. revert prev b n; induction rs as [|r rs IH]; intros prev b n Hp Hd Hn Hw.
  { simpl. by rewrite app_nil_r. }
  pose proof (numWritable_loop_blocks prev (r :: rs) n Hp Hd Hn) as [_ HN].
  destruct Hd as (Hr & Hg & Hrs). pose proof (gapBlocks_pos prev r Hp Hr Hg).
  rewrite writeAckRanges_step by done. cbn [numWritable_loop writable] in *.
  rewrite u64_small in * by (unfold_width; lia). cbv zeta.
  remember (gapBlocks (ackGap prev r)) as k.
  destruct (n + k <? 255) eqn:Hk; to_prop; [|by specialize (Hw eq_refl)].
  pose proof (numWritable_loop_blocks r rs (n + k) Hr Hrs ltac:(lia)) as [Hblocks HN'].
  cbn [rangesBytes]. replace (n + 1 + k) with (n + k + 1) by lia.
  destruct (Z.geb_spec (n + k + 1) (numWritable_loop r rs (n + k) + 1)) as [Hge|Hlt].
  - destruct (writable r rs (n + k)) eqn:E.
    + cbn [rangesBytes]. rewrite app_nil_r. f_equal. lia.
    + assert (descends r (writable r rs (n + k))) as Hd' by (by apply descends_writable).
      rewrite E in Hd'. pose proof (blocks_pos _ _ Hr Hd' ltac:(done)). lia.
  - rewrite IH; [by rewrite app_assoc|done|done|lia|].
    intros E. rewrite E in Hblocks. simpl in Hblocks. lia.
Qed.

Lemma writeAckRanges_all first rs dl b :
  oneOf1246 dl -> range_ok first -> descends first rs -> writable first rs 0 <> [] ->
  let num := blocks first (writable first rs 0) + 1 in
  writeAckRanges first rs dl num b 1 =
    (b ++ rangesBytes (Z.to_nat dl) first (writable first rs 0), num).
Proof.
  intros Hdl Hf Hd Hne. cbv zeta.
  destruct (numWritable_loop_blocks first rs 0 Hf Hd ltac:(lia)) as [E _].
  rewrite Z.add_0_l in E. rewrite <- E.
  by apply (writeAckRanges_spec first rs dl b 0).
Qed.

(** ** Parsing the blocks *)

Lemma ParseAckBlocks_S todo gap l r n ranges inLong complete :
  (n <= 8)%nat ->
  ParseAckBlocks (S todo) (gap :: le_bytes n l ++ r) (Z.of_nat n) ranges inLong complete =
    match ranges with
    | [] => Panic
    | last :: earlier =>
        let length := l mod 2 ^ (8 * Z.of_nat n) in
        let '(ranges, complete) :=
          if inLong then
            (mkAckRange (u64 (FirstPacketNumber last - u64 (gap + length)))
               (u64 (LastPacketNumber last - gap)) :: earlier, complete)
          else
            let la := u64 (FirstPacketNumber last - gap - 1) in
            (mkAckRange (u64 (la - length + 1)) la :: ranges, false) in
        ParseAckBlocks todo r (Z.of_nat n) ranges (length =? 0)
          (if length >? 0 then true else complete)
    end.
Proof. intros. cbn [ParseAckBlocks ReadByte rbind]. by rewrite ReadUintN_le by lia. Qed.

(** Blocks that continue a long gap move the open range down. *)
Lemma parse_long_gap j m n g l F L earlier r :
  (n <= 8)%nat -> 1 <= g <= 255 -> 0 < l < 2 ^ (8 * Z.of_nat n) ->
  0 <= F - 255 * Z.of_nat j - g - l -> F <= L + 1 < 2 ^ 63 -> l < 2 ^ 63 ->
  ParseAckBlocks (j + S m)
    (concat (replicate j (emptyBlock n)) ++ (g :: le_bytes n l) ++ r)
    (Z.of_nat n) (mkAckRange F L :: earlier) true false =
  ParseAckBlocks m r (Z.of_nat n)
    (mkAckRange (F - 255 * Z.of_nat j - g - l) (L - 255 * Z.of_nat j - g) :: earlier) false true.
Proof.
  intros Hn Hg Hl. revert F L; induction j as [|j IH]; intros F L HF HL Hl'.
  - cbn [replicate concat plus app]. rewrite ParseAckBlocks_S by done.
    rewrite Z.mod_small by lia. cbv zeta. cbn [FirstPacketNumber LastPacketNumber].
    rewrite Z.gtb_ltb, (proj2 (Z.ltb_lt _ _)), (proj2 (Z.eqb_neq _ _)) by lia. nowrap.
    do 2 f_equal. f_equal; lia.
  - cbn [replicate concat plus]. unfold emptyBlock at 1. rewrite <- !app_assoc, <- app_comm_cons.
    rewrite ParseAckBlocks_S by done. rewrite Z.mod_0_l by lia. cbv zeta.
    cbn [FirstPacketNumber LastPacketNumber]. rewrite Z.eqb_refl. change (0 >? 0) with false.
    nowrap. rewrite IH by lia. do 2 f_equal. f_equal; lia.
Qed.

(** The blocks of one range append this range. *)
Lemma parse_range prev x m n earlier r complete :
  (n <= 6)%nat -> range_ok prev -> range_ok x -> LastPacketNumber x + 1 < FirstPacketNumber prev ->
  ackRangeLength x < 2 ^ (8 * Z.of_nat n) ->
  ParseAckBlocks (Z.to_nat (gapBlocks (ackGap prev x)) + m)
    (rangeBytes n (ackGap prev x) (ackRangeLength x) ++ r) (Z.of_nat n)
    (prev :: earlier) false complete =
  ParseAckBlocks m r (Z.of_nat n) (x :: prev :: earlier) false true.
Proof.
  intros Hn Hp Hx Hgap. rewrite ackGap_ok, ackRangeLength_ok by done.
  destruct x as [F L]. unfold range_ok in *. cbn [FirstPacketNumber LastPacketNumber] in *.
  remember (FirstPacketNumber prev - L - 1) as gap. remember (L - F + 1) as l. intros Hl.
  destruct (gapBlocks_spec gap) as (Hk & Hlast & Hgeq); [lia|]. unfold rangeBytes.
  destruct (Z.to_nat (gapBlocks gap - 1)) as [|j] eqn:Ej.
  - replace (Z.to_nat (gapBlocks gap)) with 1%nat by lia.
    cbn [replicate concat plus app]. rewrite ParseAckBlocks_S by lia.
    rewrite Z.mod_small by lia. cbv zeta.
    rewrite Z.gtb_ltb, (proj2 (Z.ltb_lt _ _)), (proj2 (Z.eqb_neq _ _)) by lia. nowrap.
    do 2 f_equal. f_equal; lia.
  - replace (Z.to_nat (gapBlocks gap) + m)%nat with (S (j + S m)) by lia.
    cbn [replicate concat]. unfold emptyBlock at 1. rewrite <- !app_assoc, <- app_comm_cons.
    rewrite ParseAckBlocks_S by lia. rewrite Z.mod_0_l by lia. cbv zeta.
    rewrite Z.eqb_refl. change (0 >? 0) with false. nowrap.
    rewrite parse_long_gap by lia. do 2 f_equal. f_equal; lia.
Qed.

Lemma parse_ranges rs prev m n earlier r complete :
  (n <= 6)%nat -> range_ok prev -> descends prev rs ->
  Forall (fun x => ackRangeLength x < 2 ^ (8 * Z.of_nat n)) rs ->
  ParseAckBlocks (Z.to_nat (blocks prev rs) + m) (rangesBytes n prev rs ++ r) (Z.of_nat n)
    (prev :: earlier) false complete =
  ParseAckBlocks m r (Z.of_nat n) (rev rs ++ prev :: earlier) false
    (match rs with [] => complete | _ => true end).
Proof.
  intros Hn. revert prev earlier complete.
  induction rs as [|x rs IH]; intros prev earlier complete Hp Hd Hl; [done|].
  destruct Hd as (Hx & Hgap & Hd). apply Forall_cons in Hl as [Hlx Hl].
  pose proof (gapBlocks_pos prev x Hp Hx Hgap).
  cbn [blocks rangesBytes]. rewrite <- app_assoc.
  assert (0 <= blocks x rs) by (destruct rs; [done|]; pose proof (blocks_pos x (a :: rs) Hx Hd ltac:(done)); lia).
  rewrite Z2Nat.inj_add, <- Nat.add_assoc by lia. rewrite parse_range by done.
  rewrite IH by done. cbn [rev]. rewrite <- app_assoc. by destruct rs.
Qed.

(** ** The length fields *)

Lemma GetPacketNumberLength_oneOf p : oneOf1246 (GetPacketNumberLength p).
Proof. unfold GetPacketNumberLength, oneOf1246. repeat case_if; auto. Qed.

Lemma deltaLen_oneOf f : oneOf1246 (getMissingSequenceNumberDeltaLen f).
Proof.
  unfold getMissingSequenceNumberDeltaLen, oneOf1246. cbv zeta.
  repeat match goal with |- context [?a <=? ?b] => destruct (a <=? b) end; auto.
Qed.

Definition maxLength_step (m : Z) (r : AckRange) : Z :=
  if ackRangeLength r >? m then ackRangeLength r else m.

Lemma maxLength_ge rs m :
  m <= fold_left maxLength_step rs m /\
  Forall (fun r => ackRangeLength r <= fold_left maxLength_step rs m) rs.
Proof.
  revert m; induction rs as [|r rs IH]; intros m; simpl; [split; [lia|done]|].
  destruct (IH (maxLength_step m r)) as [Hm Hrs].
  assert (m <= maxLength_step m r /\ ackRangeLength r <= maxLength_step m r)
    by (unfold maxLength_step; case_if; lia).
  split; [lia|]. constructor; [lia|done].
Qed.

Lemma maxLength_lt rs m k :
  m < k -> Forall (fun r => ackRangeLength r < k) rs -> fold_left maxLength_step rs m < k.
Proof.
  intros Hm Hrs. revert m Hm; induction Hrs; intros m Hm; simpl; [done|].
  apply IHHrs. unfold maxLength_step. by case_if.
Qed.

Lemma range_length_lt r : range_ok r -> 0 < FirstPacketNumber r -> ackRangeLength r < 2 ^ 48.
Proof. intros Hr Hf. rewrite ackRangeLength_ok by done. unfold range_ok in Hr. lia. Qed.

(** Every length that [Write] emits fits into the chosen field. *)
Lemma deltaLen_fits f :
  AckFrame_wf f ->
  Forall (fun r => ackRangeLength r < 2 ^ (8 * getMissingSequenceNumberDeltaLen f)) (AckRanges f) /\
  (AckRanges f = [] -> LargestAcked f - LowestAcked f + 1 < 2 ^ (8 * getMissingSequenceNumberDeltaLen f)).
Proof.
  intros (Hlow & Hlarge & Hranges). unfold getMissingSequenceNumberDeltaLen, HasMissingRanges.
  fold maxLength_step. destruct (AckRanges f) as [|first rs] eqn:E.
  - split; [done|]. intros _. simpl. nowrap. repeat case_if; calc; lia.
  - rewrite len_cons. pose proof (len_nonneg rs). rewrite Z.gtb_ltb, (proj2 (Z.ltb_lt _ _)) by lia.
    split; [|done]. destruct Hranges as (Hfirst & Hd & _ & _ & Hlowest).
    pose proof (maxLength_ge (first :: rs) 0) as [_ Hge].
    assert (Forall (fun r => ackRangeLength r < 2 ^ 48) (first :: rs)) as Hlt.
    { eapply Forall_impl; [by apply descends_first_ge|]. intros x [Hx Hxge].
      apply range_length_lt; [done|lia]. }
    pose proof (maxLength_lt (first :: rs) 0 (2 ^ 48) ltac:(lia) Hlt).
    eapply Forall_impl; [exact Hge|]. intros x Hx. cbv beta in *. repeat case_if; calc; lia.
Qed.

Lemma ackTypeByte_decode f :
  let tb := ackTypeByte f in
  (Z.land tb 0x20 =? 0x20) = HasMissingRanges f /\
  (let l := u8 (2 * Z.shiftr (Z.land tb 0x0C) 2) in if l =? 0 then 1 else l)
    = GetPacketNumberLength (LargestAcked f) /\
  (let l := u8 (2 * Z.land tb 0x03) in if l =? 0 then 1 else l)
    = getMissingSequenceNumberDeltaLen f.
Proof.
  unfold ackTypeByte. cbv zeta.
  destruct (GetPacketNumberLength_oneOf (LargestAcked f)) as [-> | [-> | [-> | ->]]];
  destruct (deltaLen_oneOf f) as [-> | [-> | [-> | ->]]];
  destruct (HasMissingRanges f); split_and!; reflexivity.
Qed.

(** ** The written frame *)

(** The delay field: whole microseconds *)
Definition delayField (delay : Z) : Z := u64 (Z.quot delay Microsecond).

Definition ackFrameBytes (f : AckFrame) (delay : Z) : list Z :=
  let dl := Z.to_nat (getMissingSequenceNumberDeltaLen f) in
  ackTypeByte f
    :: le_bytes (Z.to_nat (GetPacketNumberLength (LargestAcked f))) (LargestAcked f)
    ++ WriteUfloat16 [] (delayField delay)
    ++ match AckRanges f with
       | [] => le_bytes dl (LargestAcked f - LowestAcked f + 1)
       | first :: rs =>
           blocks first (writable first rs 0)
             :: le_bytes dl (ackRangeLength first)
             ++ rangesBytes dl first (writable first rs 0)
       end
    ++ [0].

(** The first gap takes at most 254 blocks. *)
Definition firstGapFits (f : AckFrame) : Prop :=
  match AckRanges f with
  | r0 :: r1 :: _ => FirstPacketNumber r0 - LastPacketNumber r1 - 1 <= 254 * 255
  | _ => True
  end.

#[export] Instance firstGapFits_dec f : Decision (firstGapFits f).
Proof. unfold firstGapFits. repeat case_match; apply _. Defined.

Definition withDelay (f : AckFrame) (delay : Z) : AckFrame :=
  mkAckFrame (LargestAcked f) (LowestAcked f) (AckRanges f) (PacketReceivedTime f) delay.

Lemma gapBlocks_le gap n : 0 < gap -> gapBlocks gap <= n <-> gap <= 255 * n.
Proof. intros Hg. destruct (gapBlocks_spec gap Hg) as (? & ? & ?). lia. Qed.

Lemma firstGapFits_writable f first rs :
  AckFrame_wf f -> AckRanges f = first :: rs ->
  firstGapFits f <-> writable first rs 0 <> [].
Proof.
  intros (_ & _ & Hwf) E. unfold firstGapFits. rewrite E in *.
  destruct Hwf as (Hf & Hd & Hne & _). destruct rs as [|r1 rs]; [done|].
  destruct Hd as (Hr & Hgap & _). cbn [writable]. rewrite ackGap_ok by done.
  pose proof (gapBlocks_le (FirstPacketNumber first - LastPacketNumber r1 - 1) 254).
  case_if; (split; intros); [done|lia|lia|done].
Qed.

Lemma numWritable_blocks f first rs :
  AckFrame_wf f -> AckRanges f = first :: rs ->
  numWritableNackRanges f = blocks first (writable first rs 0) + 1 /\
  numWritable_loop first rs 0 = blocks first (writable first rs 0) /\
  0 <= blocks first (writable first rs 0) < 255.
Proof.
  intros (_ & _ & Hwf) E. unfold numWritableNackRanges. rewrite E in *.
  destruct Hwf as (Hf & Hd & _).
  destruct (numWritable_loop_blocks first rs 0 Hf Hd ltac:(lia)) as [H ?].
  rewrite H in *. rewrite u64_small by (unfold_width; lia). lia.
Qed.

Lemma AckFrame_Write_bytes f delay b :
  AckFrame_wf f -> firstGapFits f ->
  AckFrame_Write f delay b = (withDelay f delay, b ++ ackFrameBytes f delay, Ok tt).
Proof.
  intros Hwf Hfits. unfold AckFrame_Write, ackFrameBytes. cbv zeta.
  pose proof (deltaLen_oneOf f) as Hdl.
  pose proof (GetPacketNumberLength_oneOf (LargestAcked f)) as Hll.
  cbn [AckRanges LargestAcked LowestAcked].
  rewrite !(writeWithLen_le _ _ _ Hdl), (writeWithLen_le _ _ _ Hll), WriteUfloat16_app.
  fold (delayField delay). fold (withDelay f delay).
  change (numWritableNackRanges (withDelay f delay)) with (numWritableNackRanges f).
  destruct (AckRanges f) as [|first rs] eqn:E.
  { rewrite le_bytes_u64 by (apply oneOf1246_nat in Hdl; lia).
    unfold WriteByte. by rewrite <- !app_assoc. }
  pose proof (firstGapFits_writable f first rs Hwf E) as Hne.
  destruct (numWritable_blocks f first rs Hwf E) as (Hnum & Hloop & Hb). rewrite Hnum.
  pose proof Hwf as (Hlow & Hlarge & Hr). rewrite E in Hr.
  destruct Hr as (Hfirst & Hd & Hrs & Hlast & Hlowest).
  rewrite Z.gtb_ltb, (proj2 (Z.ltb_ge _ _)) by lia.
  rewrite Hlast, Hlowest, !Z.eqb_refl. cbn [negb].
  rewrite writeAckRanges_all by (done || by apply Hne).
  rewrite Z.eqb_refl. cbn [negb]. unfold WriteByte.
  replace (blocks first (writable first rs 0) + 1 - 1)
    with (blocks first (writable first rs 0)) by lia. rewrite u8_small by (unfold_width; lia).
  rewrite <- Hlast. fold (ackRangeLength first). rewrite (writeWithLen_le _ _ _ Hdl).
  rewrite <- !app_assoc. cbn [app]. by rewrite <- !app_assoc.
Qed.

(** ** Reading the written frame *)

(** What a receiver gets: the ranges that fit, the highest first. *)
Definition receivedFrame (f : AckFrame) (delay : Z) : AckFrame :=
  mkAckFrame (LargestAcked f)
    (match writtenRanges f with
     | [] => LowestAcked f
     | first :: rs => FirstPacketNumber (List.last rs first)
     end)
    (writtenRanges f) 0 (float16_round (delay / 1000) * 1000).

Lemma received_valid f first rs :
  AckFrame_wf f -> AckRanges f = first :: rs -> writable first rs 0 <> [] ->
  forall low t d, validateAckRanges
    (mkAckFrame (LargestAcked f) low (first :: writable first rs 0) t d) = true.
Proof.
  intros (_ & _ & Hwf) E Hne low t d. rewrite E in Hwf. destruct Hwf as (Hf & Hd & _ & Hlast & _).
  assert (descends first (writable first rs 0)) as Hd' by by apply descends_writable.
  unfold validateAckRanges. cbn [AckRanges LargestAcked].
  destruct (writable first rs 0) as [|r1 ws] eqn:Ew; [done|].
  rewrite Hlast, Z.eqb_refl. cbn [negb].
  assert (existsb (fun r => FirstPacketNumber r >? LastPacketNumber r) (first :: r1 :: ws) = false)
    as ->.
  { apply not_true_is_false. intros (x & Hin & Hx)%existsb_exists. to_prop.
    assert (Forall range_ok (first :: r1 :: ws)) as Hall
      by (constructor; [done|by eapply descends_range_ok]).
    rewrite Forall_forall in Hall. specialize (Hall x). rewrite list_elem_of_In in Hall.
    specialize (Hall Hin). unfold range_ok in Hall. lia. }
  by apply descends_valid.
Qed.

Lemma parseTimestamps_none r : parseTimestamps (0 :: r) = Ok r.
Proof. done. Qed.

Lemma delay_decode delay :
  0 <= delay < 2 ^ 63 -> 0 <= delayField delay < 2 ^ 64 /\
  i64 (float16_round (delayField delay) * Microsecond) = float16_round (delay / 1000) * 1000.
Proof.
  intros Hd. unfold delayField, Microsecond. rewrite Z.quot_div_nonneg by lia.
  assert (0 <= delay / 1000 < 2 ^ 63) by (Z.to_euclidean_division_equations; lia).
  rewrite u64_small by (unfold_width; lia).
  destruct (float16_round_bounds (delay / 1000)) as (? & Hmax & _); [lia|].
  rewrite uFloat16MaxValue_eq in Hmax. rewrite i64_small; lia.
Qed.

Lemma GetPacketNumberLength_mod p :
  0 <= p < 2 ^ 48 -> p mod 2 ^ (8 * GetPacketNumberLength p) = p.
Proof. intros. apply Z.mod_small. unfold GetPacketNumberLength. repeat case_if; calc; lia. Qed.

Lemma ReadUintN_len l v r :
  oneOf1246 l -> ReadUintN (le_bytes (Z.to_nat l) v ++ r) l = Ok (v mod 2 ^ (8 * l), r).
Proof.
  intros Hl. apply oneOf1246_nat in Hl as [Hn E]. rewrite <- E at 2.
  rewrite ReadUintN_le by lia. by rewrite E.
Qed.

Lemma ParseAckFrame_header f delay tail' :
  0 <= LargestAcked f < 2 ^ 48 -> 0 <= delay < 2 ^ 63 ->
  ParseAckFrame (ackTypeByte f
    :: le_bytes (Z.to_nat (GetPacketNumberLength (LargestAcked f))) (LargestAcked f)
    ++ WriteUfloat16 [] (delayField delay) ++ tail') =
  let largestAcked := LargestAcked f in
  let deltaLen := getMissingSequenceNumberDeltaLen f in
  let! (numAckBlocks, r) := if HasMissingRanges f then ReadByte tail' else Ok (0, tail') in
  if HasMissingRanges f && (numAckBlocks =? 0) then Err ErrInvalidAckRanges
  else
    let! (ackBlockLength, r) := ReadUintN r deltaLen in
    if (largestAcked >? 0) && (ackBlockLength <? 1) then Err ErrInvalidFirstAckRange
    else if ackBlockLength >? largestAcked then Err ErrInvalidAckRanges
    else
      let! (ranges, lowestAcked, r) :=
        if HasMissingRanges f then
          let first := mkAckRange (u64 (u64 (largestAcked - ackBlockLength) + 1)) largestAcked in
          let! (ranges, lastRangeComplete, r) :=
            ParseAckBlocks (Z.to_nat numAckBlocks) r deltaLen [first] false false in
          let ranges := if negb lastRangeComplete then tail ranges else ranges in
          match ranges with
          | [] => Panic
          | last :: _ => Ok (rev ranges, FirstPacketNumber last, r)
          end
        else if largestAcked =? 0 then Ok ([], 0, r)
        else Ok ([], u64 (u64 (largestAcked + 1) - ackBlockLength), r) in
      let frame := mkAckFrame largestAcked lowestAcked ranges 0
                     (float16_round (delay / 1000) * 1000) in
      if negb (validateAckRanges frame) then Err ErrInvalidAckRanges
      else let! r := parseTimestamps r in Ok (frame, r).
Proof.
  intros Hl Hd. unfold ParseAckFrame at 1. cbn [ReadByte rbind].
  destruct (ackTypeByte_decode f) as (-> & E1 & E2). cbv zeta in E1, E2.
  cbv zeta. rewrite E1, E2.
  rewrite ReadUintN_len by apply GetPacketNumberLength_oneOf. cbn [rbind].
  rewrite GetPacketNumberLength_mod by done.
  destruct (delay_decode delay Hd) as [Hf E]. rewrite ReadUfloat16_Write by done.
  cbn [rbind]. by rewrite E.
Qed.

(** The part of the parser that follows the first block length *)
Lemma parse_written_ranges dl first ws r :
  oneOf1246 dl -> range_ok first -> descends first ws -> ws <> [] ->
  Forall (fun x => ackRangeLength x < 2 ^ (8 * dl)) ws ->
  (let! (ranges, lastRangeComplete, r) :=
     ParseAckBlocks (Z.to_nat (blocks first ws)) (rangesBytes (Z.to_nat dl) first ws ++ r) dl
       [first] false false in
   match (if negb lastRangeComplete then tail ranges else ranges) with
   | [] => Panic
   | last :: _ =>
       Ok (rev (if negb lastRangeComplete then tail ranges else ranges), FirstPacketNumber last, r)
   end) = Ok (first :: ws, FirstPacketNumber (List.last ws first), r).
Proof.
  intros Hdl Hf Hd Hne Hfit. apply oneOf1246_nat in Hdl as [Hn E].
  pose proof (parse_ranges ws first 0 (Z.to_nat dl) [] r false) as Hp.
  rewrite E, Nat.add_0_r in Hp. rewrite Hp by done. clear Hp.
  destruct ws as [|x ws _] using rev_ind; [done|].
  rewrite rev_app_distr, List.last_last.
  assert (match ws ++ [x] with [] => false | _ => true end = true) as -> by by destruct ws.
  cbn [ParseAckBlocks rbind negb rev app]. rewrite rev_app_distr, rev_involutive. done.
Qed.

Lemma first_block_checks (A : Type) l largest (k : res A) :
  1 <= l <= largest ->
  (if (largest >? 0) && (l <? 1) then Err ErrInvalidFirstAckRange
   else if l >? largest then Err ErrInvalidAckRanges else k) = k.
Proof.
  intros. rewrite (proj2 (Z.ltb_ge l 1)), andb_false_r by lia.
  by rewrite Z.gtb_ltb, (proj2 (Z.ltb_ge _ _)) by lia.
Qed.

Lemma ParseAckFrame_bytes f delay rest :
  AckFrame_wf f -> firstGapFits f -> 0 <= delay < 2 ^ 63 ->
  ParseAckFrame (ackFrameBytes f delay ++ rest) = Ok (receivedFrame f delay, rest).
Proof.
  intros Hwf Hfits Hd. pose proof (deltaLen_fits f Hwf) as [Hfit1 Hfit2].
  pose proof (deltaLen_oneOf f) as Hdl. pose proof Hwf as (Hlow & Hlarge & Hr).
  unfold ackFrameBytes, receivedFrame, writtenRanges. cbv zeta.
  rewrite <- app_comm_cons, <- !app_assoc, ParseAckFrame_header by lia.
  cbv zeta. unfold HasMissingRanges. destruct (AckRanges f) as [|first rs] eqn:E.
  - change (len [] >? 0) with false. cbn [rbind andb].
    rewrite ReadUintN_len by done. cbn [rbind]. specialize (Hfit2 eq_refl).
    rewrite Z.mod_small, first_block_checks, (proj2 (Z.eqb_neq _ _)) by lia.
    simpl. nowrap. do 2 f_equal. f_equal. lia.
  - destruct (numWritable_blocks f first rs Hwf E) as (_ & _ & Hb).
    destruct Hr as (Hfirst & Hdesc & Hrs & Hlast & Hlowest).
    apply (firstGapFits_writable f first rs Hwf E) in Hfits.
    pose proof (descends_last first rs Hfirst Hdesc).
    pose proof (received_valid f first rs Hwf E Hfits) as Hvalid.
    pose proof (descends_writable first rs 0 Hdesc) as Hd'.
    pose proof (blocks_pos first _ Hfirst Hd' Hfits) as Hpos.
    apply Forall_cons in Hfit1 as [Hlf Hfit1].
    destruct (writable_prefix first rs 0) as [cut Ecut].
    rewrite Ecut, Forall_app in Hfit1. destruct Hfit1 as [Hfit1 _].
    remember (writable first rs 0) as ws.
    rewrite len_cons. pose proof (len_nonneg rs). rewrite Z.gtb_ltb, (proj2 (Z.ltb_lt _ _)) by lia.
    cbn [app ReadByte rbind andb]. rewrite (proj2 (Z.eqb_neq _ _)) by lia.
    rewrite <- app_assoc, ReadUintN_len by done. cbn [rbind].
    rewrite ackRangeLength_ok in * by done. pose proof Hfirst as Hfirst'. unfold range_ok in Hfirst'.
    rewrite Z.mod_small, first_block_checks by lia.
    assert (mkAckRange (u64 (u64 (LargestAcked f - (LastPacketNumber first - FirstPacketNumber first + 1)) + 1))
      (LargestAcked f) = first) as -> by (destruct first; simpl in *; nowrap; f_equal; lia).
    rewrite parse_written_ranges by done. cbn [rbind]. by rewrite Hvalid.
Qed.

Lemma len_rangeBytes n gap l :
  0 < gap -> len (rangeBytes n gap l) = (1 + Z.of_nat n) * gapBlocks gap.
Proof.
  intros Hg. destruct (gapBlocks_spec gap Hg) as (Hk & _ & _). unfold rangeBytes.
  autorewrite with quic_len.
  assert (forall j, len (concat (replicate j (emptyBlock n))) = (1 + Z.of_nat n) * Z.of_nat j) as ->.
  { induction j as [|j IH]; cbn [replicate concat]; [rewrite (@len_nil Z); lia|].
    rewrite len_app, IH. unfold emptyBlock. autorewrite with quic_len. lia. }
  rewrite Z2Nat.id by lia. lia.
Qed.

Lemma len_rangesBytes n prev rs :
  range_ok prev -> descends prev rs ->
  len (rangesBytes n prev rs) = (1 + Z.of_nat n) * blocks prev rs.
Proof.
  revert prev; induction rs as [|r rs IH]; intros prev Hp; [simpl; rewrite (@len_nil Z); lia|].
  intros (Hr & Hg & Hd). cbn [rangesBytes blocks]. rewrite len_app, IH by done.
  rewrite len_rangeBytes; [lia|]. rewrite ackGap_ok by done. unfold range_ok in *. lia.
Qed.

Lemma len_ackFrameBytes f delay :
  AckFrame_wf f -> len (ackFrameBytes f delay) = AckFrame_MinLength f.
Proof.
  intros Hwf. unfold ackFrameBytes, AckFrame_MinLength, HasMissingRanges. cbv zeta.
  pose proof (oneOf1246_nat _ (deltaLen_oneOf f)) as [_ E1].
  pose proof (oneOf1246_nat _ (GetPacketNumberLength_oneOf (LargestAcked f))) as [_ E2].
  autorewrite with quic_len. rewrite E2.
  destruct (AckRanges f) as [|first rs] eqn:E.
  - change (len [] >? 0) with false. cbv iota. autorewrite with quic_len. lia.
  - destruct (numWritable_blocks f first rs Hwf E) as [-> _].
    destruct Hwf as (_ & _ & Hr). rewrite E in Hr. destruct Hr as (Hf & Hd & _).
    autorewrite with quic_len. rewrite len_rangesBytes by (done || by apply descends_writable).
    pose proof (len_nonneg rs). rewrite Z.gtb_ltb, (proj2 (Z.ltb_lt _ _)) by lia. lia.
Qed.

(** C14: writing a well-formed ACK frame whose first gap is at most 254 blocks
    long succeeds, takes exactly [MinLength] bytes, and a receiver that parses
    these bytes gets the frame back, cut to the highest ranges that fit into 255
    blocks, with the delay cut to microseconds and rounded by the 16-bit float. *)
Theorem ack_frame_roundtrip f delay rest :
  AckFrame_wf f -> firstGapFits f -> 0 <= delay < 2 ^ 63 ->
  exists w,
    AckFrame_Write f delay [] = (withDelay f delay, w, Ok tt) /\
    len w = AckFrame_MinLength f /\
    ParseAckFrame (w ++ rest) = Ok (receivedFrame f delay, rest).
Proof.
  intros Hwf Hfits Hd. exists (ackFrameBytes f delay).
  rewrite AckFrame_Write_bytes, len_ackFrameBytes, ParseAckFrame_bytes by done. done.
Qed.

Definition sampleAck : AckFrame :=
  mkAckFrame 2000 3 [mkAckRange 1900 2000; mkAckRange 1000 1000; mkAckRange 3 700] 0 0.

Lemma sampleAck_wf : AckFrame_wf sampleAck /\ firstGapFits sampleAck.
Proof. unfold AckFrame_wf, firstGapFits, range_ok; simpl; unfold range_ok; simpl. split_and!; (done || lia). Qed.

Lemma ack_frame_roundtrip_witness :
  exists w, AckFrame_Write sampleAck 5000000 [] = (withDelay sampleAck 5000000, w, Ok tt) /\
    ParseAckFrame (w ++ [9]) =
      Ok (mkAckFrame 2000 3 (AckRanges sampleAck) 0 5000000, [9]).
Proof.
  destruct (ack_frame_roundtrip sampleAck 5000000 [9]) as (w & Hw & _ & Hp);
    [apply sampleAck_wf|apply sampleAck_wf|lia|].
  exists w. split; [exact Hw|]. rewrite Hp. vm_compute. reflexivity.
Defined.

(** ** The packets a frame acknowledges *)

Definition inRange (p : Z) (r : AckRange) : Prop :=
  FirstPacketNumber r <= p <= LastPacketNumber r.

Lemma AcksPacket_ranges f p :
  AckRanges f <> [] ->
  AcksPacket f p = true <->
    (LowestAcked f <= p <= LargestAcked f) /\ Exists (inRange p) (AckRanges f).
Proof.
  intros Hne. unfold AcksPacket, HasMissingRanges.
  assert ((len (AckRanges f) >? 0) = true) as ->.
  { destruct (AckRanges f) as [|r rs]; [done|]. rewrite len_cons, Z.gtb_ltb.
    pose proof (len_nonneg rs). apply Z.ltb_lt. lia. }
  case_if; [split; [done|]; intros [? _]; apply orb_true_iff in Heqb as [?|?]; to_prop; lia|].
  rewrite existsb_exists, Exists_exists. setoid_rewrite list_elem_of_In.
  split; [intros (r & Hin & Hr)|intros (_ & r & Hin & Hr)]; to_prop.
  - split; [lia|]. exists r. unfold inRange. auto with lia.
  - exists r. unfold inRange in Hr. split; [done|].
    by rewrite !Z.geb_leb, !(proj2 (Z.leb_le _ _)) by lia.
Qed.

Lemma AcksPacket_plain f p :
  AckRanges f = [] -> AcksPacket f p = true <-> LowestAcked f <= p <= LargestAcked f.
Proof.
  intros E. unfold AcksPacket, HasMissingRanges. rewrite E. change (len [] >? 0) with false.
  rewrite Z.geb_leb, Z.gtb_ltb.
  destruct (Z.ltb_spec p (LowestAcked f)), (Z.ltb_spec (LargestAcked f) p); simpl;
    rewrite ?andb_true_iff, ?Z.leb_le; split; intros; (done || lia).
Qed.

Lemma descends_bounds prev rs p :
  range_ok prev -> descends prev rs -> Exists (inRange p) (prev :: rs) ->
  FirstPacketNumber (List.last rs prev) <= p <= LastPacketNumber prev.
Proof.
  revert prev; induction rs as [|r rs IH]; intros prev Hp Hd He.
  - apply Exists_cons in He as [He|He]; [done|by apply Exists_nil in He].
  - pose proof (descends_last prev (r :: rs) Hp Hd) as Hle. destruct Hd as (Hr & Hg & Hd).
    rewrite last_cons in *. apply Exists_cons in He as [He|He].
    + unfold inRange in He. lia.
    + specialize (IH r Hr Hd He). unfold range_ok in *. lia.
Qed.

Lemma descends_app_below prev rs cut p :
  descends prev (rs ++ cut) -> range_ok prev -> Exists (inRange p) cut ->
  p < FirstPacketNumber (List.last rs prev).
Proof.
  revert prev; induction rs as [|r rs IH]; intros prev Hd Hp He.
  - simpl in *. destruct cut as [|c cut]; [by apply Exists_nil in He|].
    destruct Hd as (Hc & Hg & Hd). pose proof (descends_bounds c cut p Hc Hd He). lia.
  - destruct Hd as (Hr & Hg & Hd). rewrite last_cons. by apply IH.
Qed.

(** Cutting a frame to the blocks that fit never acknowledges a packet that
    was not received: down to the lowest packet of the cut frame, the receiver
    sees exactly the acknowledgements of the sender, and none below it. *)
Theorem ack_frame_cut_sound f delay p :
  AckFrame_wf f ->
  let g := receivedFrame f delay in
  AcksPacket g p = true <-> AcksPacket f p = true /\ LowestAcked g <= p.
Proof.
  intros (Hlow & Hlarge & Hr). cbv zeta.
  destruct (AckRanges f) as [|first rs] eqn:E.
  { unfold receivedFrame, writtenRanges. rewrite E, !AcksPacket_plain by done.
    cbn [LowestAcked LargestAcked]. lia. }
  destruct Hr as (Hf & Hd & Hne & Hlast & Hlowest).
  destruct (writable_prefix first rs 0) as [cut Ecut].
  rewrite !AcksPacket_ranges; [|by rewrite E|unfold receivedFrame, writtenRanges; by rewrite E].
  rewrite E. unfold receivedFrame, writtenRanges. rewrite E. cbn [AckRanges LowestAcked LargestAcked].
  remember (writable first rs 0) as ws. rewrite Ecut in Hd.
  pose proof (descends_app _ _ _ Hd) as Hws.
  rewrite Ecut, app_comm_cons, Exists_app.
  split; [intros [Hp He]|intros [[Hp [He|He]] Hge]].
  - pose proof (descends_bounds first (ws ++ cut) p Hf Hd) as Hb.
    rewrite app_comm_cons, Exists_app, <- Ecut, Hlowest, Hlast in Hb.
    split; [split|]; [apply Hb; by left|by left|lia].
  - split; [lia|done].
  - pose proof (descends_app_below first ws cut p Hd Hf He). lia.
Qed.

Lemma ack_frame_cut_sound_witness :
  AcksPacket (receivedFrame sampleAck 0) 1000 = true <->
    AcksPacket sampleAck 1000 = true /\ LowestAcked (receivedFrame sampleAck 0) <= 1000.
Proof. apply (ack_frame_cut_sound sampleAck 0 1000). apply sampleAck_wf. Defined.

(** A well-formed ACK frame whose first gap takes more than 254 blocks
    cannot be written: [numWritableNackRanges] counts no block for it, [Write]
    nevertheless emits all of its blocks and then reports a bug. *)
Theorem ack_frame_long_first_gap f delay b :
  AckFrame_wf f -> ~ firstGapFits f ->
  exists b', AckFrame_Write f delay b = (withDelay f delay, b', Err errInconsistentAckBlocks).
Proof.
  intros Hwf Hfits. destruct (AckRanges f) as [|first [|r rs]] eqn:E;
    [by unfold firstGapFits in Hfits; rewrite E in Hfits..|].
  pose proof (firstGapFits_writable f _ _ Hwf E) as Hne.
  destruct (numWritable_blocks f _ _ Hwf E) as (Hnum & _ & Hb).
  destruct (writable first (r :: rs) 0) eqn:Ew; [clear Hne|by destruct Hfits; apply Hne].
  pose proof Hwf as (Hlow & Hlarge & Hr). rewrite E in Hr.
  destruct Hr as (Hfirst & (Hr & Hg & Hd) & Hrs & Hlast & Hlowest).
  unfold AckFrame_Write. cbv zeta. cbn [AckRanges LargestAcked LowestAcked].
  fold (withDelay f delay). change (numWritableNackRanges (withDelay f delay)) with (numWritableNackRanges f).
  rewrite E, Hnum. cbn [blocks]. change (0 + 1 >? 255) with false. cbv iota.
  rewrite Hlast, Hlowest, !Z.eqb_refl. cbn [negb].
  rewrite writeAckRanges_step by (done || apply deltaLen_oneOf). cbv zeta.
  pose proof (gapBlocks_pos first r Hfirst Hr Hg).
  rewrite Z.geb_leb, (proj2 (Z.leb_le _ _)), (proj2 (Z.eqb_neq _ _)) by lia. by eexists.
Qed.

Lemma ack_frame_long_first_gap_witness :
  let f := mkAckFrame 100000 1 [mkAckRange 100000 100000; mkAckRange 1 1] 0 0 in
  exists b', AckFrame_Write f 0 [] = (withDelay f 0, b', Err errInconsistentAckBlocks).
Proof.
  apply (ack_frame_long_first_gap
    (mkAckFrame 100000 1 [mkAckRange 100000 100000; mkAckRange 1 1] 0 0) 0 []).
  - unfold AckFrame_wf; simpl; unfold range_ok; simpl. split_and!; (done || lia).
  - unfold firstGapFits; simpl. lia.
Defined.

(** ** Parsing arbitrary bytes *)

(** A range as the parser computes it, of length [l], modulo 2^64 *)
Definition blockRange (r : AckRange) (l : Z) : Prop :=
  is_u64 (LastPacketNumber r) /\ 0 <= l < 2 ^ 48 /\
  FirstPacketNumber r = u64 (LastPacketNumber r + 1 - l).

Definition completeRange (r : AckRange) : Prop := exists l, 0 < l /\ blockRange r l.

(** The ranges [news] read so far after the first one, in reverse: all of them
    are complete, except the last one inside a long gap. *)
Definition blocksInv (news : list AckRange) (inLong complete : bool) : Prop :=
  if inLong then
    complete = false /\
    exists x news0, news = x :: news0 /\ blockRange x 0 /\ Forall completeRange news0
  else Forall completeRange news /\ (news <> [] -> complete = true).

(** One block keeps the invariant. *)
Lemma blocksInv_step news first inLong complete gap l :
  blocksInv news inLong complete -> 0 <= gap < 2 ^ 8 -> 0 <= l < 2 ^ 48 ->
  exists last earlier, news ++ [first] = last :: earlier /\
  let '(ranges, complete) :=
    if inLong then
      (mkAckRange (u64 (FirstPacketNumber last - u64 (gap + l)))
         (u64 (LastPacketNumber last - gap)) :: earlier, complete)
    else
      let la := u64 (FirstPacketNumber last - gap - 1) in
      (mkAckRange (u64 (la - l + 1)) la :: last :: earlier, false) in
  exists news', ranges = news' ++ [first] /\ news' <> [] /\
    blocksInv news' (l =? 0) (if l >? 0 then true else complete).
Proof.
  intros Hinv Hgap Hl. unfold blocksInv in Hinv. destruct inLong.
  - destruct Hinv as (-> & x & news0 & -> & (Hx & _ & HF) & Hc).
    exists x, (news0 ++ [first]). split; [done|].
    eexists (_ :: news0). split; [done|]. split; [done|].
    assert (blockRange (mkAckRange (u64 (FirstPacketNumber x - u64 (gap + l)))
      (u64 (LastPacketNumber x - gap))) l) as Hb.
    { split; [apply u64_range|]. split; [done|]. cbn [FirstPacketNumber LastPacketNumber].
      rewrite HF, u64_sub_l, u64_sub_r. replace (u64 (LastPacketNumber x - gap) + 1 - l)
        with (u64 (LastPacketNumber x - gap) - (l - 1)) by lia.
      rewrite u64_sub_l. f_equal. lia. }
    unfold blocksInv. destruct (Z.eqb_spec l 0) as [->|]; [simpl; eauto 10|].
    rewrite Z.gtb_ltb, (proj2 (Z.ltb_lt _ _)) by lia. split; [|done].
    constructor; [|done]. exists l. split; [lia|done].
  - destruct Hinv as [Hc _].
    destruct (news ++ [first]) as [|last earlier] eqn:E; [by destruct news|].
    exists last, earlier. split; [done|]. rewrite <- E. cbv zeta.
    eexists (_ :: news). split; [done|]. split; [done|].
    assert (blockRange (mkAckRange (u64 (u64 (FirstPacketNumber last - gap - 1) - l + 1))
      (u64 (FirstPacketNumber last - gap - 1))) l) as Hb.
    { split; [apply u64_range|]. split; [done|]. cbn [FirstPacketNumber LastPacketNumber].
      f_equal. lia. }
    unfold blocksInv. destruct (Z.eqb_spec l 0) as [->|]; [simpl; eauto 10|].
    rewrite Z.gtb_ltb, (proj2 (Z.ltb_lt _ _)) by lia. split; [|done].
    constructor; [|done]. exists l. split; [lia|done].
Qed.

Lemma safe_ParseAckBlocks todo r dl news first inLong complete :
  bytes_ok r -> 0 <= dl <= 6 -> blocksInv news inLong complete ->
  safe (ParseAckBlocks todo r dl (news ++ [first]) inLong complete)
    (fun '(ranges, c, r') => bytes_ok r' /\ len r' <= len r /\
       exists news' il, ranges = news' ++ [first] /\ blocksInv news' il c /\
         ((todo <> 0)%nat \/ news <> [] -> news' <> [])).
Proof.
  intros Hr Hdl. revert r news inLong complete Hr.
  induction todo as [|todo IH]; intros r news inLong complete Hr Hinv.
  { simpl. split_and!; [done|lia|]. exists news, inLong. split_and!; [done|done|].
    intros [?|?]; done. }
  cbn [ParseAckBlocks]. eapply safe_bind; [by apply safe_ReadByte|].
  intros [gap r1] (Hgap & Hr1 & Hl1). cbn [fst snd] in *.
  eapply safe_bind; [apply safe_ReadUintN; [done|lia]|].
  intros [l r2] (Hl & Hr2 & Hl2). cbn [fst snd] in *.
  assert (2 ^ (8 * dl) <= 2 ^ 48) by (apply Z.pow_le_mono_r; lia).
  destruct (blocksInv_step news first inLong complete gap l Hinv ltac:(lia) ltac:(lia))
    as (last & earlier & -> & Hstep).
  destruct (if inLong then _ else _) as [ranges c].
  destruct Hstep as (news' & -> & Hne & Hinv').
  eapply safe_impl; [apply IH; eauto|].
  intros [[ranges' c'] r'] (Hr' & Hlen & news'' & il & -> & Hi & Hn).
  split_and!; [done|lia|]. exists news'', il. split_and!; auto.
Qed.

(** What [validateAckRanges] guarantees of complete ranges *)
Lemma validate_descends prev rs :
  range_ok prev -> Forall completeRange rs ->
  Forall (fun r => FirstPacketNumber r <= LastPacketNumber r) rs ->
  ackRangesDescend prev rs = true -> descends prev rs.
Proof.
  intros Hp Hc Hle. revert prev Hp.
  induction Hc as [|r rs (l & Hl & Hu & Hl' & HF) Hc IH]; intros prev Hp Hv; [done|].
  apply Forall_cons in Hle as [Hr Hle]. cbn [ackRangesDescend] in Hv.
  repeat case_if; try done. unfold range_ok in Hp.
  assert (FirstPacketNumber r = LastPacketNumber r + 1 - l) as HF'.
  { revert HF. unfold_width. intros HF. Z.to_euclidean_division_equations; lia. }
  rewrite u64_small in Heqb0 by (unfold_width; lia).
  assert (range_ok r) by (pose proof (u64_range (LastPacketNumber r + 1 - l));
    unfold range_ok; unfold_width; lia).
  simpl. split_and!; [done|lia|]. by apply IH.
Qed.

Definition AckFrame_accepted (f : AckFrame) : Prop :=
  0 <= LowestAcked f <= LargestAcked f /\ LargestAcked f < 2 ^ 48 /\
  match AckRanges f with
  | [] => True
  | first :: rs =>
      range_ok first /\ descends first rs /\ rs <> [] /\
      LastPacketNumber first = LargestAcked f /\
      FirstPacketNumber (List.last rs first) = LowestAcked f
  end.

Lemma lenField_bounds a : 0 <= a <= 3 -> 1 <= (if u8 (2 * a) =? 0 then 1 else u8 (2 * a)) <= 6.
Proof. intros. nowrap. case_if; lia. Qed.

Lemma existsb_false_Forall rs :
  existsb (fun r => FirstPacketNumber r >? LastPacketNumber r) rs = false ->
  Forall (fun r => FirstPacketNumber r <= LastPacketNumber r) rs.
Proof.
  induction rs as [|r rs IH]; simpl; [constructor|]. intros H. to_prop. constructor; auto.
Qed.

(** The ranges that the parser ends up with, once validated *)
Lemma validate_accepted largest l ws d :
  0 <= l <= largest -> largest < 2 ^ 48 -> Forall completeRange ws ->
  let first := mkAckRange (u64 (u64 (largest - l) + 1)) largest in
  let f := mkAckFrame largest (FirstPacketNumber (List.last (rev ws) first))
             (rev (ws ++ [first])) 0 d in
  validateAckRanges f = true -> AckFrame_accepted f.
Proof.
  intros Hl Hlarge Hws first f. subst f. rewrite rev_app_distr. cbn [rev app].
  unfold validateAckRanges, AckFrame_accepted. cbn [AckRanges LargestAcked LowestAcked].
  assert (Forall completeRange (rev ws)) as Hws' by by apply Forall_rev.
  destruct (rev ws) as [|r1 rs]; [done|]. rewrite Z.eqb_refl. cbn [negb].
  destruct (existsb _ _) eqn:Hex; [done|]. intros Hv.
  apply existsb_false_Forall in Hex. apply Forall_cons in Hex as [Hf Hrs].
  assert (range_ok first) as Hfirst.
  { subst first. unfold range_ok. simpl in *. pose proof (u64_range (u64 (largest - l) + 1)).
    unfold_width. lia. }
  assert (descends first (r1 :: rs)) as Hd by by apply validate_descends.
  pose proof (descends_last first (r1 :: rs) Hfirst Hd).
  pose proof (descends_first_ge first (r1 :: rs) Hfirst Hd) as Hge.
  assert (0 <= FirstPacketNumber (List.last (r1 :: rs) first)).
  { rewrite Forall_forall in Hge. by destruct (Hge _ (last_elem first (r1 :: rs))) as [[? _] _]. }
  unfold range_ok in Hfirst. subst first. simpl (LastPacketNumber _) in *. split_and!; (done || lia).
Qed.

Lemma safe_skipTimestamps todo r :
  bytes_ok r -> safe (skipTimestamps todo r) (fun r' => bytes_ok r' /\ len r' <= len r).
Proof.
  revert r; induction todo as [|todo IH]; intros r Hr; [simpl; split; [done|lia]|].
  cbn [skipTimestamps]. eapply safe_bind; [by apply safe_ReadByte|].
  intros [v r1] (_ & Hr1 & Hl1). cbn [fst snd] in *.
  eapply safe_bind; [by apply safe_ReadUint16|].
  intros [v2 r2] (_ & Hr2 & Hl2). cbn [fst snd] in *.
  eapply safe_impl; [by apply IH|]. intros r' [? ?]. split; [done|lia].
Qed.

Lemma safe_parseTimestamps r :
  bytes_ok r -> safe (parseTimestamps r) (fun r' => bytes_ok r' /\ len r' < len r).
Proof.
  intros Hr. unfold parseTimestamps. eapply safe_bind; [by apply safe_ReadByte|].
  intros [v r1] (_ & Hr1 & Hl1). cbn [fst snd] in *. case_if; [|simpl; split; [done|lia]].
  eapply safe_bind; [by apply safe_ReadByte|].
  intros [v2 r2] (_ & Hr2 & Hl2). cbn [fst snd] in *.
  eapply safe_bind; [by apply safe_ReadUint32|].
  intros [v3 r3] (_ & Hr3 & Hl3). cbn [fst snd] in *.
  eapply safe_impl; [by apply safe_skipTimestamps|]. intros r' [? ?]. split; [done|lia].
Qed.

Lemma safe_parse_ranges todo r dl largest l :
  bytes_ok r -> 0 <= dl <= 6 -> 0 <= l <= largest -> todo <> O ->
  let first := mkAckRange (u64 (u64 (largest - l) + 1)) largest in
  safe (let! (ranges, lastRangeComplete, r) := ParseAckBlocks todo r dl [first] false false in
        match (if negb lastRangeComplete then tail ranges else ranges) with
        | [] => Panic
        | last :: _ =>
            Ok (rev (if negb lastRangeComplete then tail ranges else ranges),
                FirstPacketNumber last, r)
        end)
    (fun '(ranges, lowest, r') => bytes_ok r' /\ len r' <= len r /\
       exists ws, Forall completeRange ws /\ ranges = rev (ws ++ [first]) /\
         lowest = FirstPacketNumber (List.last (rev ws) first)).
Proof.
  intros Hr Hdl Hl Htodo first.
  eapply safe_bind; [by apply (safe_ParseAckBlocks todo r dl [] first false false)|].
  intros [[ranges c] r'] (Hr' & Hlen & news & il & -> & Hinv & Hne).
  specialize (Hne (or_introl Htodo)). destruct news as [|x news]; [done|].
  unfold blocksInv in Hinv. destruct il.
  - destruct Hinv as (-> & x' & news0 & [= <- <-] & _ & Hc). cbn [negb app tail].
    destruct news as [|y news]; simpl.
    + split_and!; [done|lia|]. by exists [].
    + split_and!; [done|lia|]. exists (y :: news). split_and!; [done|done|].
      cbn [rev]. by rewrite List.last_last.
  - destruct Hinv as [Hc ->]; [|done]. simpl. split_and!; [done|lia|].
    exists (x :: news). split_and!; [done|done|]. cbn [rev]. by rewrite List.last_last.
Qed.

Lemma ParseAckFrame_accepted r :
  bytes_ok r ->
  safe (ParseAckFrame r) (fun '(f, r') => AckFrame_accepted f /\ bytes_ok r' /\ len r' < len r).
Proof.
  intros Hr. unfold ParseAckFrame. eapply safe_bind; [by apply safe_ReadByte|].
  intros [tb r1] (Htb & Hr1 & Hl1). cbn [fst snd] in *.
  pose proof (land_bounds tb 0x0C ltac:(lia) ltac:(lia)).
  pose proof (lenField_bounds (Z.shiftr (Z.land tb 0x0C) 2)
    ltac:(rewrite Z.shiftr_div_pow2 by lia; Z.to_euclidean_division_equations; lia)) as HL.
  pose proof (lenField_bounds (Z.land tb 0x03) ltac:(apply land_bounds; lia)) as HD.
  cbv zeta in *. set (ll := if u8 (2 * Z.shiftr _ _) =? 0 then _ else _) in *.
  set (dl := if u8 (2 * Z.land _ _) =? 0 then _ else _) in *.
  assert (2 ^ (8 * ll) <= 2 ^ 48) by (apply Z.pow_le_mono_r; lia).
  eapply safe_bind; [apply safe_ReadUintN; [done|lia]|].
  intros [la r2] (Hla & Hr2 & Hl2). cbn [fst snd] in *.
  eapply safe_bind; [by apply safe_ReadUfloat16|].
  intros [d r3] (_ & Hr3 & Hl3). cbn [fst snd] in *.
  eapply (safe_bind _ _ (fun vr => 0 <= vr.1 /\ bytes_ok vr.2 /\ len vr.2 <= len r3)).
  { destruct (Z.land tb 0x20 =? 0x20); [|simpl; split_and!; (done || lia)].
    eapply safe_impl; [by apply safe_ReadByte|]. intros [? ?] (? & ? & ?). simpl in *.
    split_and!; (done || lia). }
  intros [nb r4] (Hnb & Hr4 & Hl4). cbn [fst snd] in *.
  destruct ((Z.land tb 0x20 =? 0x20) && (nb =? 0)) eqn:Hz; [done|].
  eapply safe_bind; [apply safe_ReadUintN; [done|lia]|].
  intros [l r5] (Hl & Hr5 & Hl5). cbn [fst snd] in *.
  destruct ((la >? 0) && (l <? 1)) eqn:Hfirst; [done|]. case_if; [done|].
  assert (0 < la -> 1 <= l).
  { intros. rewrite andb_false_iff, Z.gtb_ltb in Hfirst. destruct Hfirst; to_prop; lia. }
  eapply (safe_bind _ _ (fun '(ranges, lowest, r') => bytes_ok r' /\ len r' <= len r5 /\
     forall d, validateAckRanges (mkAckFrame la lowest ranges 0 d) = true ->
       AckFrame_accepted (mkAckFrame la lowest ranges 0 d))).
  - destruct (Z.land tb 0x20 =? 0x20).
    + simpl in Hz. to_prop.
      eapply safe_impl; [apply safe_parse_ranges; (done || lia)|].
      intros [[ranges lowest] r'] (Hr' & Hlen & ws & Hws & -> & ->).
      split_and!; [done|lia|]. intros d' Hv. apply (validate_accepted la l); (done || lia).
    + case_if; simpl; (split_and!; [done|lia|]); intros ? _; unfold AckFrame_accepted; simpl;
        nowrap; split_and!; (done || lia).
  - intros [[ranges lowest] r6] (Hr6 & Hl6 & Hacc).
    destruct (negb (validateAckRanges _)) eqn:Hv; [done|]. apply negb_false_iff in Hv.
    eapply safe_bind; [by apply safe_parseTimestamps|]. intros r7 [Hr7 Hl7]. simpl.
    split_and!; [by apply Hacc|done|lia].
Qed.

(** On any bytes from the network, [ParseAckFrame] does not panic, and an ACK
    frame that it accepts has packet numbers below 2^48 in at least two
    non-empty ranges, in strictly decreasing order and not adjacent, or in one
    range; [AcksPacket] then holds for exactly the packets of these ranges, so
    its early return is only an optimisation. *)
Theorem parse_ack_frame_safe r :
  bytes_ok r ->
  safe (ParseAckFrame r) (fun '(f, _) =>
    AckFrame_accepted f /\
    forall p, AcksPacket f p = true <->
      match AckRanges f with
      | [] => LowestAcked f <= p <= LargestAcked f
      | rs => Exists (inRange p) rs
      end).
Proof.
  intros Hr. eapply safe_impl; [by apply ParseAckFrame_accepted|].
  intros [f r'] (Hacc & _). split; [done|]. intros p.
  destruct Hacc as (Hlow & Hlarge & Hrs). destruct (AckRanges f) as [|first rs] eqn:E.
  - by apply AcksPacket_plain.
  - rewrite AcksPacket_ranges, E by by rewrite E.
    destruct Hrs as (Hf & Hd & _ & Hlast & Hlowest).
    split; [tauto|]. intros He. split; [|done].
    pose proof (descends_bounds first rs p Hf Hd He). lia.
Qed.

Lemma parse_ack_frame_safe_witness :
  exists f r, ParseAckFrame [0x60; 0x0a; 0; 0; 1; 2; 3; 4; 0; 7] = Ok (f, r) /\ AckFrame_accepted f.
Proof.
  pose proof (parse_ack_frame_safe [0x60; 0x0a; 0; 0; 1; 2; 3; 4; 0; 7]) as H.
  destruct (ParseAckFrame _) as [[f r]|e|] eqn:E.
  - exists f, r. split; [reflexivity|].
    apply H. repeat constructor; (discriminate || lia).
  - vm_compute in E. discriminate E.
  - vm_compute in E. discriminate E.
Defined.
