(* ===== verification/Frame.v ===== *)
(** * The frames of a packet

    [frames.Frame] is an interface with one implementation per frame type: here a
    sum, whose [Write] and [MinLength] dispatch as the method calls do. *)

From S2P Require Import Prelude Protocol Qerr Wire Frames AckFrame.

Inductive Frame : Type :=
| FStream (f : StreamFrame)
| FAck (f : AckFrame)
| FStopWaiting (f : StopWaitingFrame)
| FRstStream (f : RstStreamFrame)
| FConnectionClose (f : ConnectionCloseFrame)
| FGoaway (f : GoawayFrame)
| FWindowUpdate (f : WindowUpdateFrame)
| FBlocked (f : BlockedFrame)
| FPing (f : PingFrame)
| FPLUSFeedback (f : PLUSFeedbackFrame).

(** [delay] is [time.Since(f.PacketReceivedTime)], which only ACK frames use. *)
Definition Frame_Write (f : Frame) (delay : Z) (b : list Z) : list Z * res unit :=
  match f with
  | FStream f => StreamFrame_Write f b
  | FAck f => let '(_, b, err) := AckFrame_Write f delay b in (b, err)
  | FStopWaiting f => StopWaitingFrame_Write f b
  | FRstStream f => RstStreamFrame_Write f b
  | FConnectionClose f => ConnectionCloseFrame_Write f b
  | FGoaway f => GoawayFrame_Write f b
  | FWindowUpdate f => WindowUpdateFrame_Write f b
  | FBlocked f => BlockedFrame_Write f b
  | FPing f => PingFrame_Write f b
  | FPLUSFeedback f => PLUSFeedbackFrame_Write f b
  end.

Definition Frame_MinLength (f : Frame) : res Z :=
  match f with
  | FStream f => Ok (StreamFrame_MinLength f)
  | FAck f => Ok (AckFrame_MinLength f)
  | FStopWaiting f => StopWaitingFrame_MinLength f
  | FRstStream f => Ok (RstStreamFrame_MinLength f)
  | FConnectionClose f => Ok (ConnectionCloseFrame_MinLength f)
  | FGoaway f => Ok (GoawayFrame_MinLength f)
  | FWindowUpdate f => Ok (WindowUpdateFrame_MinLength f)
  | FBlocked f => Ok (BlockedFrame_MinLength f)
  | FPing f => Ok (PingFrame_MinLength f)
  | FPLUSFeedback f => Ok (PLUSFeedbackFrame_MinLength f)
  end.

(** ** unpacked_packet.go *)

Record unpackedPacket : Type := mkUnpackedPacket {
  up_encryptionLevel : Z;
  up_frames : list Frame;
}.

Fixpoint anyRetransmittable (fs : list Frame) : bool :=
  match fs with
  | [] => false
  | f :: fs =>
      match f with
      | FStream _ | FRstStream _ | FWindowUpdate _ | FBlocked _ | FPing _ | FGoaway _ => true
      | _ => anyRetransmittable fs
      end
  end.

Definition unpackedPacket_IsRetransmittable (u : unpackedPacket) : bool :=
  anyRetransmittable (up_frames u).

(** ** Frames on the wire *)

(** The frames a packet with this packet number can carry; [MinLength] counts a
    STREAM frame without its data. *)
Definition frame_ok (pn pnLen : Z) (delay : Z) (f : Frame) : Prop :=
  match f with
  | FStream f =>
      StreamFrame_wf f /\
      (if sf_DataLenPresent f then len (sf_Data f) <= MaxPacketSize else len (sf_Data f) < 2 ^ 16)
  | FAck f => AckFrame_wf f /\ firstGapFits f /\ 0 <= delay < 2 ^ 63
  | FStopWaiting f =>
      In pnLen [1; 2; 4; 6] /\ swf_PacketNumberLen f = pnLen /\ swf_PacketNumber f = pn /\
      0 <= swf_LeastUnacked f <= pn /\ 0 < pn < 2 ^ 64 /\
      pn - swf_LeastUnacked f < 2 ^ (8 * pnLen)
  | FRstStream f =>
      is_u32 (rsf_StreamID f) /\ is_u32 (rsf_ErrorCode f) /\ is_u64 (rsf_ByteOffset f)
  | FConnectionClose f => is_u32 (ccf_ErrorCode f) /\ len (ccf_ReasonPhrase f) <= MaxPacketSize
  | FGoaway f =>
      is_u32 (gf_ErrorCode f) /\ is_u32 (gf_LastGoodStream f) /\
      len (gf_ReasonPhrase f) <= MaxPacketSize
  | FWindowUpdate f => is_u32 (wuf_StreamID f) /\ is_u64 (wuf_ByteOffset f)
  | FBlocked f => is_u32 (bf_StreamID f)
  | FPing _ => True
  | FPLUSFeedback f => len (pf_Data f) <= 255
  end.

(** What the receiver gets of a frame. *)
Definition frame_received (delay : Z) (f : Frame) : Frame :=
  match f with
  | FAck f => FAck (receivedFrame f delay)
  | FStopWaiting f => FStopWaiting (mkStopWaitingFrame (swf_LeastUnacked f) 0 0)
  | f => f
  end.

(** A frame that takes the rest of the packet. *)
Definition open_ended (f : Frame) : bool :=
  match f with FStream f => negb (sf_DataLenPresent f) | _ => false end.

