(* ===== verification/ReceivedPackets.v ===== *)
(** * Package ackhandler: the received packets

    [receivedPacketHistory] keeps the received packet numbers as a list of
    disjoint intervals and as a set; [receivedPacketHandler] filters
    duplicates, decides when an ACK is due and builds it.  The linked list of
    intervals is the list of its values, front first (LinkedList.v relates the
    two); a map used as a set is a [gset]. *)

From S2P Require Import Prelude Protocol Qerr AckFrame Frames.

(** ** utils/packet_interval.go *)

Record PacketInterval : Type := mkPacketInterval {
  iv_Start : Z;
  iv_End : Z;
}.

(** ** ackhandler/received_packet_history.go *)

Record receivedPacketHistory : Type := mkReceivedPacketHistory {
  ranges : list PacketInterval;
  receivedPacketNumbers : gset Z;
  lowestInReceivedPacketNumbers : Z;
}.

Definition errTooManyOutstandingReceivedAckRanges : goerror :=
  QuicError TooManyOutstandingReceivedPackets (Msg "Too many outstanding received ACK ranges").
Definition errTooManyOutstandingReceivedPackets : goerror :=
  QuicError TooManyOutstandingReceivedPackets (Msg "Too many outstanding received packets").

Definition newReceivedPacketHistory : receivedPacketHistory :=
  mkReceivedPacketHistory [] ∅ 0.

(** The loop of [ReceivedPacket] from the back of the list to its front: [el ::
    before] are the elements from the current one down to the front, [after]
    the ones that the loop has passed. *)
Fixpoint insertPacket (p : Z) (front after : list PacketInterval) : list PacketInterval :=
  match front with
  | [] => mkPacketInterval p p :: after
  | el :: before =>
      if (p >=? iv_Start el) && (p <=? iv_End el) then rev_append front after
      else
        let '(rangeExtended, el') :=
          if iv_End el =? u64 (p - 1) then (true, mkPacketInterval (iv_Start el) p)
          else if iv_Start el =? u64 (p + 1) then (true, mkPacketInterval p (iv_End el))
          else (false, el) in
        if rangeExtended then
          match before with
          | prev :: before' =>
              if u64 (iv_End prev + 1) =? iv_Start el'
              then rev_append before' (mkPacketInterval (iv_Start prev) (iv_End el') :: after)
              else rev_append before (el' :: after)
          | [] => el' :: after
          end
        else if p >? iv_End el then rev_append front (mkPacketInterval p p :: after)
        else insertPacket p before (el :: after)
  end.

Definition History_ReceivedPacket (h : receivedPacketHistory) (p : Z)
    : receivedPacketHistory * res unit :=
  if len (ranges h) >=? MaxTrackedReceivedAckRanges
  then (h, Err errTooManyOutstandingReceivedAckRanges)
  else if Z.of_nat (size (receivedPacketNumbers h)) >=? MaxTrackedReceivedPackets
  then (h, Err errTooManyOutstandingReceivedPackets)
  else
    (mkReceivedPacketHistory (insertPacket p (rev (ranges h)) [])
       ({[p]} ∪ receivedPacketNumbers h) (lowestInReceivedPacketNumbers h), Ok tt).

(** [for i := start; i < start+n; i++ { delete(m, i) }] *)
Fixpoint deleteNumbers (m : gset Z) (start : Z) (n : nat) : gset Z :=
  match n with
  | O => m
  | S n => deleteNumbers (m ∖ {[start]}) (start + 1) n
  end.

Fixpoint DeleteBelow_loop (leastUnacked : Z) (rs : list PacketInterval) (m : gset Z)
    : list PacketInterval * gset Z :=
  match rs with
  | [] => ([], m)
  | el :: rest =>
      if (leastUnacked >? iv_Start el) && (leastUnacked <=? iv_End el) then
        let m := deleteNumbers m (iv_Start el) (Z.to_nat (leastUnacked - iv_Start el)) in
        let '(rest, m) := DeleteBelow_loop leastUnacked rest m in
        (mkPacketInterval leastUnacked (iv_End el) :: rest, m)
      else if iv_End el <? leastUnacked then
        let m := deleteNumbers m (iv_Start el) (Z.to_nat (iv_End el + 1 - iv_Start el)) in
        DeleteBelow_loop leastUnacked rest m
      else (rs, m)
  end.

Definition DeleteBelow (h : receivedPacketHistory) (leastUnacked : Z) : receivedPacketHistory :=
  let lowest := MaxPacketNumber (lowestInReceivedPacketNumbers h) leastUnacked in
  let '(rs, m) := DeleteBelow_loop leastUnacked (ranges h) (receivedPacketNumbers h) in
  mkReceivedPacketHistory rs m lowest.

Definition IsDuplicate (h : receivedPacketHistory) (p : Z) : bool :=
  if p <? lowestInReceivedPacketNumbers h then true
  else bool_decide (p ∈ receivedPacketNumbers h).

(** [nil] and the empty slice are both []. *)
Definition GetAckRanges (h : receivedPacketHistory) : list AckRange :=
  map (fun i => mkAckRange (iv_Start i) (iv_End i)) (rev (ranges h)).

Definition GetHighestAckRange (h : receivedPacketHistory) : AckRange :=
  match rev (ranges h) with
  | r :: _ => mkAckRange (iv_Start r) (iv_End r)
  | [] => mkAckRange 0 0
  end.

(** ** ackhandler/received_packet_handler.go *)

(** A [time.Time] is a number of nanoseconds, the zero value is 0. *)
Record receivedPacketHandler : Type := mkReceivedPacketHandler {
  largestObserved : Z;
  ignorePacketsBelow : Z;
  largestObservedReceivedTime : Z;
  packetHistory : receivedPacketHistory;
  ackSendDelay : Z;
  packetsReceivedSinceLastAck : Z;
  retransmittablePacketsReceivedSinceLastAck : Z;
  ackQueued : bool;
  ackAlarm : Z;
  lastAck : option AckFrame;
}.

Definition ErrDuplicatePacket : goerror := ErrNew "ReceivedPacketHandler: Duplicate Packet".
Definition ErrPacketSmallerThanLastStopWaiting : goerror :=
  ErrNew "ReceivedPacketHandler: Packet number smaller than highest StopWaiting".
Definition errInvalidPacketNumber : goerror :=
  ErrNew "ReceivedPacketHandler: Invalid packet number".

Definition NewReceivedPacketHandler : receivedPacketHandler :=
  mkReceivedPacketHandler 0 0 0 newReceivedPacketHistory AckSendDelay 0 0 false 0 None.

(** Returns the handler and the alarm passed to [ackAlarmResetCallback], if it
    is called. *)
Definition maybeQueueAck (h : receivedPacketHandler) (now packetNumber : Z)
    (shouldInstigateAck : bool) : receivedPacketHandler * option Z :=
  let packets := packetsReceivedSinceLastAck h + 1 in
  let retransmittable :=
    if shouldInstigateAck then retransmittablePacketsReceivedSinceLastAck h + 1
    else retransmittablePacketsReceivedSinceLastAck h in
  let queued := ackQueued h in
  let queued := match lastAck h with None => true | Some _ => queued end in
  let queued := if packets >=? MaxPacketsReceivedBeforeAckSend then true else queued in
  let queued :=
    match lastAck h with
    | Some ack => if packetNumber <? LargestAcked ack then true else queued
    | None => queued
    end in
  let queued :=
    match lastAck h with
    | Some ack =>
        if FirstPacketNumber (GetHighestAckRange (packetHistory h)) >? LargestAcked ack
        then true else queued
    | None => queued
    end in
  let '(queued, alarm, ackAlarmSet) :=
    if negb queued && shouldInstigateAck then
      if retransmittable >=? RetransmittablePacketsBeforeAck then (true, ackAlarm h, false)
      else if ackAlarm h =? 0 then (queued, now + ackSendDelay h, true)
      else (queued, ackAlarm h, false)
    else (queued, ackAlarm h, false) in
  let '(alarm, ackAlarmSet) := if queued then (0, false) else (alarm, ackAlarmSet) in
  (mkReceivedPacketHandler (largestObserved h) (ignorePacketsBelow h)
     (largestObservedReceivedTime h) (packetHistory h) (ackSendDelay h)
     packets retransmittable queued alarm (lastAck h),
   if ackAlarmSet then Some alarm else None).

Definition Handler_ReceivedPacket (h : receivedPacketHandler) (now packetNumber : Z)
    (shouldInstigateAck : bool) : receivedPacketHandler * option Z * res unit :=
  if packetNumber =? 0 then (h, None, Err errInvalidPacketNumber)
  else if packetNumber <=? ignorePacketsBelow h
  then (h, None, Err ErrPacketSmallerThanLastStopWaiting)
  else if IsDuplicate (packetHistory h) packetNumber then (h, None, Err ErrDuplicatePacket)
  else
    let '(history, err) := History_ReceivedPacket (packetHistory h) packetNumber in
    let '(largest, time) :=
      if (packetNumber >? largestObserved h) then (packetNumber, now)
      else (largestObserved h, largestObservedReceivedTime h) in
    match err with
    | Ok _ =>
        let h :=
          mkReceivedPacketHandler largest (ignorePacketsBelow h) time history (ackSendDelay h)
            (packetsReceivedSinceLastAck h) (retransmittablePacketsReceivedSinceLastAck h)
            (ackQueued h) (ackAlarm h) (lastAck h) in
        let '(h, alarm) := maybeQueueAck h now packetNumber shouldInstigateAck in
        (h, alarm, Ok tt)
    | e =>
        (mkReceivedPacketHandler (largestObserved h) (ignorePacketsBelow h)
           (largestObservedReceivedTime h) history (ackSendDelay h)
           (packetsReceivedSinceLastAck h) (retransmittablePacketsReceivedSinceLastAck h)
           (ackQueued h) (ackAlarm h) (lastAck h), None, e)
    end.

Definition Handler_ReceivedStopWaiting (h : receivedPacketHandler) (f : StopWaitingFrame)
    : receivedPacketHandler :=
  if ignorePacketsBelow h >=? swf_LeastUnacked f then h
  else
    mkReceivedPacketHandler (largestObserved h) (u64 (swf_LeastUnacked f - 1))
      (largestObservedReceivedTime h) (DeleteBelow (packetHistory h) (swf_LeastUnacked f))
      (ackSendDelay h) (packetsReceivedSinceLastAck h)
      (retransmittablePacketsReceivedSinceLastAck h) (ackQueued h) (ackAlarm h) (lastAck h).

Definition GetAckFrame (h : receivedPacketHandler) (now : Z)
    : res (receivedPacketHandler * option AckFrame) :=
  if negb (ackQueued h) && ((ackAlarm h =? 0) || (ackAlarm h >? now)) then Ok (h, None)
  else
    match GetAckRanges (packetHistory h) with
    | [] => Panic
    | (first :: rest) as ackRanges =>
        let ack :=
          mkAckFrame (largestObserved h) (FirstPacketNumber (List.last rest first))
            (if len ackRanges >? 1 then ackRanges else []) (largestObservedReceivedTime h) 0 in
        Ok (mkReceivedPacketHandler (largestObserved h) (ignorePacketsBelow h)
              (largestObservedReceivedTime h) (packetHistory h) (ackSendDelay h)
              0 0 false 0 (Some ack), Some ack)
    end.

(** ** Intervals *)

(** Non-empty intervals above [lo], in increasing order, with at least one
    number between two of them *)
Fixpoint ivs_ok (lo : Z) (l : list PacketInterval) : Prop :=
  match l with
  | [] => True
  | i :: l => lo < iv_Start i /\ iv_Start i <= iv_End i /\ ivs_ok (iv_End i + 1) l
  end.

Definition iv_mem (p : Z) (i : PacketInterval) : Prop := iv_Start i <= p <= iv_End i.
Definition covers (l : list PacketInterval) (p : Z) : Prop := Exists (iv_mem p) l.

(** The lower bound for what follows the intervals [rev front] *)
Definition top (front : list PacketInterval) : Z :=
  match front with [] => 0 | i :: _ => iv_End i + 1 end.

Lemma ivs_ok_snoc lo front l :
  ivs_ok lo (rev front ++ l) <->
  ivs_ok lo (rev front) /\ ivs_ok (match front with [] => lo | i :: _ => iv_End i + 1 end) l.
Proof.
  revert l; induction front as [|i front IH]; intros l; simpl; [tauto|].
  rewrite <- !app_assoc, !IH. simpl. tauto.
Qed.

Lemma ivs_ok_weaken lo lo' l : lo' <= lo -> ivs_ok lo l -> ivs_ok lo' l.
Proof. destruct l; simpl; [done|]. intros. intuition lia. Qed.

Lemma ivs_ok_Forall lo l : ivs_ok lo l -> Forall (fun i => lo < iv_Start i <= iv_End i) l.
Proof.
  revert lo; induction l as [|i l IH]; intros lo; [done|]. intros (? & ? & Hl).
  constructor; [lia|]. eapply Forall_impl; [by apply IH|]. simpl. lia.
Qed.

Lemma ivs_ok_lower lo l p : ivs_ok lo l -> covers l p -> lo < p.
Proof.
  intros Hl%ivs_ok_Forall. unfold covers. rewrite Exists_exists. intros (i & Hi & Hm).
  rewrite Forall_forall in Hl. specialize (Hl i Hi). unfold iv_mem in Hm. lia.
Qed.

Ltac covers_tac :=
  unfold covers; rewrite ?rev_append_rev, ?Exists_app; simpl;
  rewrite ?Exists_app, ?Exists_cons, ?Exists_nil; unfold iv_mem; simpl.

Lemma top_nonneg front : ivs_ok 0 (rev front) -> 0 <= top front.
Proof.
  destruct front as [|x front]; simpl; [lia|]. intros Hx%ivs_ok_Forall.
  apply Forall_app in Hx as [_ Hx]. apply Forall_cons in Hx as [Hx _]. lia.
Qed.

Lemma ivs_ok_join front l :
  ivs_ok 0 (rev front ++ l) <-> ivs_ok 0 (rev front) /\ ivs_ok (top front) l.
Proof. apply ivs_ok_snoc. Qed.

(** The range that [p] extends, possibly merged with its predecessor *)
Lemma merge_spec before el' after :
  ivs_ok 0 (rev before) -> top before <= iv_Start el' <= iv_End el' ->
  ivs_ok (iv_End el' + 1) after -> 0 < iv_Start el' ->
  (forall i, i ∈ before -> iv_End i < 2 ^ 63) ->
  let r := match before with
    | prev :: before' =>
        if u64 (iv_End prev + 1) =? iv_Start el'
        then rev_append before' (mkPacketInterval (iv_Start prev) (iv_End el') :: after)
        else rev_append before (el' :: after)
    | [] => el' :: after
    end in
  ivs_ok 0 r /\ forall q, covers r q <-> covers (rev before ++ el' :: after) q.
Proof.
  intros Hb Hel Ha Hpos Hbound. destruct before as [|prev before]; cbv zeta.
  { simpl. split; [|by intros q; covers_tac]. split_and!; (done || lia). }
  pose proof (top_nonneg _ Hb). assert (iv_End prev < 2 ^ 63) by (apply Hbound; left).
  rewrite u64_small by (unfold_width; simpl in *; lia). cbn [rev] in Hb.
  pose proof Hb as Hb'. apply ivs_ok_join in Hb' as [Hb1 (Hp1 & Hp2 & _)]. simpl in Hel.
  case_if; rewrite rev_append_rev; cbn [rev].
  - split; [apply ivs_ok_join; simpl; split_and!; (done || lia)|].
    intros q. covers_tac. intuition lia.
  - split; [|done]. rewrite <- app_assoc. apply ivs_ok_join. simpl. split_and!; (done || lia).
Qed.

(** [ReceivedPacket] adds exactly the new packet number, and keeps the
    intervals ordered, disjoint and not adjacent. *)
Lemma insertPacket_spec p front after :
  ivs_ok 0 (rev front ++ after) -> 0 < p < 2 ^ 63 ->
  (forall i, i ∈ front -> iv_End i < 2 ^ 63) ->
  (match after with [] => True | a :: _ => p + 1 < iv_Start a end) ->
  ivs_ok 0 (insertPacket p front after) /\
  forall q, covers (insertPacket p front after) q <-> q = p \/ covers (rev front ++ after) q.
Proof.
  intros Hok Hp. revert after Hok; induction front as [|el before IH]; intros after Hok Hb Ha.
  { simpl. split; [|intros q; covers_tac; intuition lia].
    split_and!; [lia..|]. destruct after; [done|]. simpl in *. intuition lia. }
  assert (forall i, i ∈ before -> iv_End i < 2 ^ 63) as Hb' by (intros; apply Hb; by right).
  assert (rev (el :: before) ++ after = rev before ++ el :: after) as E
    by (cbn [rev]; by rewrite <- app_assoc). rewrite E in *. clear E.
  pose proof Hok as Hok0. apply ivs_ok_join in Hok as [Hbefore (Hlo & Hse & Hafter)].
  pose proof (top_nonneg _ Hbefore) as Htop.
  assert (iv_End el < 2 ^ 63) by (apply Hb; left).
  cbn [insertPacket]. rewrite (u64_small (p - 1)), (u64_small (p + 1)) by (unfold_width; lia).
  destruct ((p >=? iv_Start el) && (p <=? iv_End el)) eqn:Hin; to_prop.
  { rewrite rev_append_rev. cbn [rev]. rewrite <- app_assoc. cbn [app].
    split; [done|]. intros q. covers_tac. intuition lia. }
  rewrite andb_false_iff, Z.geb_leb, !Z.leb_gt in Hin.
  case_if; [|case_if]; cbv beta iota zeta.
  - destruct (merge_spec before (mkPacketInterval (iv_Start el) p) after) as [H1 H2];
      simpl; [done|lia|destruct after; simpl in *; intuition lia|lia|done|].
    split; [exact H1|]. intros q. etransitivity; [apply H2|]. covers_tac. intuition lia.
  - destruct (merge_spec before (mkPacketInterval p (iv_End el)) after) as [H1 H2];
      simpl; [done|lia|done|lia|done|].
    split; [exact H1|]. intros q. etransitivity; [apply H2|]. covers_tac. intuition lia.
  - case_if.
    + rewrite rev_append_rev. cbn [rev]. rewrite <- app_assoc. split.
      * apply ivs_ok_join. simpl. split_and!; try (done || lia).
        destruct after; simpl in *; intuition lia.
      * intros q. covers_tac. intuition lia.
    + apply IH; [done|done|]. lia.
Qed.

Lemma deleteNumbers_spec m s n q :
  q ∈ deleteNumbers m s n <-> q ∈ m /\ ~ (s <= q < s + Z.of_nat n).
Proof.
  revert m s; induction n as [|n IH]; intros m s; simpl; [intuition lia|].
  rewrite IH, elem_of_difference, elem_of_singleton. intuition lia.
Qed.

Lemma DeleteBelow_loop_spec lu lo rs m :
  ivs_ok lo rs ->
  let '(rs', m') := DeleteBelow_loop lu rs m in
  ivs_ok lo rs' /\ (forall q, covers rs' q <-> covers rs q /\ lu <= q) /\
  (forall q, q ∈ m' <-> q ∈ m /\ ~ (covers rs q /\ q < lu)).
Proof.
  revert lo m; induction rs as [|el rest IH]; intros lo m Hok.
  { simpl. split; [done|]. split; intros q; covers_tac; intuition. }
  assert (forall q, covers (el :: rest) q <-> iv_Start el <= q <= iv_End el \/ covers rest q)
    as Hcov by (intros q; by covers_tac).
  pose proof Hok as (Hlo & Hse & Hrest). 
  assert (forall q, covers rest q -> iv_End el + 1 < q) as Habove
    by (intros q; by apply ivs_ok_lower).
  cbn [DeleteBelow_loop]. destruct ((lu >? iv_Start el) && (lu <=? iv_End el)) eqn:Hin; to_prop.
  - specialize (IH (iv_End el + 1) (deleteNumbers m (iv_Start el) (Z.to_nat (lu - iv_Start el))) Hrest).
    destruct (DeleteBelow_loop lu rest _) as [rest' m'].
    destruct IH as (H1 & H2 & H3). split; [simpl; split_and!; (done || lia)|].
    split; intros q; rewrite Hcov.
    + unfold covers. rewrite Exists_cons. fold (covers rest' q). rewrite H2. unfold iv_mem. simpl.
      intuition lia.
    + rewrite H3, deleteNumbers_spec. intuition lia.
  - case_if.
    + specialize (IH (iv_End el + 1)
        (deleteNumbers m (iv_Start el) (Z.to_nat (iv_End el + 1 - iv_Start el))) Hrest).
      destruct (DeleteBelow_loop lu rest _) as [rest' m'].
      destruct IH as (H1 & H2 & H3). split; [eapply ivs_ok_weaken; [|done]; lia|].
      split; intros q; rewrite Hcov; [rewrite H2; intuition lia|].
      rewrite H3, deleteNumbers_spec. intuition lia.
    + assert (lu <= iv_Start el) by (rewrite andb_false_iff, Z.gtb_ltb, Z.ltb_ge, Z.leb_gt in Hin; lia).
      split; [done|]. split; intros q; rewrite Hcov.
      * split; [|tauto]. intros Hq. split; [done|]. destruct Hq as [?|Hq]; [lia|].
        specialize (Habove _ Hq). lia.
      * split; [|tauto]. intros Hq. split; [done|]. intros [[?|Hc] ?]; [lia|].
        specialize (Habove _ Hc). lia.
Qed.

(** ** The history is a set of packet numbers *)

Record history_ok (h : receivedPacketHistory) : Prop := mkHistoryOk {
  hist_ivs : ivs_ok 0 (ranges h);
  hist_set : forall p, p ∈ receivedPacketNumbers h <-> covers (ranges h) p;
  hist_bound : forall p, covers (ranges h) p -> p < 2 ^ 48;
}.

Lemma newReceivedPacketHistory_ok : history_ok newReceivedPacketHistory.
Proof.
  constructor; simpl; [done| |]; intros p; unfold covers; rewrite Exists_nil; [|done].
  set_solver.
Qed.

Lemma history_End_bound h i : history_ok h -> i ∈ ranges h -> iv_End i < 2 ^ 48.
Proof.
  intros [Hivs _ Hb] Hi. apply Hb. apply Exists_exists. exists i. split; [done|].
  apply ivs_ok_Forall in Hivs. rewrite Forall_forall in Hivs. specialize (Hivs i Hi).
  unfold iv_mem. cbv beta in *. lia.
Qed.

Lemma History_ReceivedPacket_ok h p :
  history_ok h -> 0 < p < 2 ^ 48 ->
  let '(h', r) := History_ReceivedPacket h p in
  history_ok h' /\ lowestInReceivedPacketNumbers h' = lowestInReceivedPacketNumbers h /\
  match r with
  | Ok _ => receivedPacketNumbers h' = {[p]} ∪ receivedPacketNumbers h
  | _ => h' = h
  end.
Proof.
  intros Hh Hp. unfold History_ReceivedPacket. case_if; [done|]. case_if; [done|].
  split; [|done]. destruct (insertPacket_spec p (rev (ranges h)) []) as [H1 H2].
  - rewrite rev_involutive, app_nil_r. apply Hh.
  - lia.
  - intros i Hi. assert (iv_End i < 2 ^ 48); [|lia]. eapply history_End_bound; [done|].
    rewrite <- rev_involutive. by apply list_elem_of_In, in_rev; rewrite rev_involutive; apply list_elem_of_In.
  - done.
  - rewrite rev_involutive, app_nil_r in H2. constructor; simpl; [done| |].
    + intros q. rewrite H2, elem_of_union, elem_of_singleton, (hist_set h Hh). done.
    + intros q. rewrite H2. intros [->|Hq]; [lia|by apply Hh].
Qed.

Lemma DeleteBelow_ok h lu :
  history_ok h ->
  let h' := DeleteBelow h lu in
  history_ok h' /\
  lowestInReceivedPacketNumbers h' = Z.max (lowestInReceivedPacketNumbers h) lu /\
  forall p, p ∈ receivedPacketNumbers h' <-> p ∈ receivedPacketNumbers h /\ lu <= p.
Proof.
  intros Hh. unfold DeleteBelow.
  pose proof (DeleteBelow_loop_spec lu 0 (ranges h) (receivedPacketNumbers h) (hist_ivs h Hh)) as H.
  destruct (DeleteBelow_loop _ _ _) as [rs m]. destruct H as (H1 & H2 & H3).
  assert (forall p, p ∈ m <-> p ∈ receivedPacketNumbers h /\ lu <= p) as Hm.
  { intros p. rewrite H3, (hist_set h Hh). intuition lia. }
  cbv zeta. split; [|split]; [|by rewrite MaxPacketNumber_max|done].
  constructor; simpl; [done| |].
  - intros p. rewrite Hm, H2, (hist_set h Hh). done.
  - intros p. rewrite H2. intros [Hp _]. by apply Hh.
Qed.

(** ** From intervals to ACK ranges *)

Definition ackRangeOf (i : PacketInterval) : AckRange := mkAckRange (iv_Start i) (iv_End i).

Lemma ivs_descends r front :
  ivs_ok 0 (rev (r :: front)) -> (forall i, i ∈ r :: front -> iv_End i < 2 ^ 48) ->
  range_ok (ackRangeOf r) /\ descends (ackRangeOf r) (map ackRangeOf front).
Proof.
  revert r; induction front as [|x front IH]; intros r Hok Hb.
  - simpl in Hok. assert (iv_End r < 2 ^ 48) by (apply Hb; left).
    split; [|done]. unfold range_ok; simpl. lia.
  - assert (iv_End r < 2 ^ 48) by (apply Hb; left).
    change (rev (r :: x :: front)) with (rev (x :: front) ++ [r]) in Hok.
    apply ivs_ok_join in Hok as [Hx (Hr & Hse & _)].
    destruct (IH x Hx) as [H1 H2]; [intros i Hi; apply Hb; by right|].
    simpl in Hr. pose proof (top_nonneg _ Hx) as Ht. simpl in Ht.
    split; [unfold range_ok; simpl; lia|]. simpl. split_and!; (done || lia).
Qed.

Lemma covers_ranges front p :
  covers (rev front) p <-> Exists (inRange p) (map ackRangeOf front).
Proof.
  induction front as [|i front IH]; cbn [rev map]; [unfold covers; by rewrite !Exists_nil|].
  unfold covers in *. rewrite Exists_app, !Exists_cons, Exists_nil, IH.
  unfold iv_mem, inRange; simpl. tauto.
Qed.

(** The highest interval ends at the largest number. *)
Lemma covers_max r front p :
  ivs_ok 0 (rev (r :: front)) -> covers (rev (r :: front)) p -> p <= iv_End r.
Proof.
  intros Hok. assert (forall i, i ∈ r :: front -> iv_Start i <= iv_End i /\ iv_End i <= iv_End r) as H.
  { revert r Hok; induction front as [|x front IH]; intros r Hok i Hi.
    - apply list_elem_of_singleton in Hi as ->. simpl in Hok. lia.
    - change (rev (r :: x :: front)) with (rev (x :: front) ++ [r]) in Hok.
      apply ivs_ok_join in Hok as [Hx (Hr & Hse & _)]. simpl in Hr.
      apply elem_of_cons in Hi as [-> | Hi]; [lia|]. specialize (IH x Hx i Hi). lia. }
  unfold covers. rewrite Exists_exists. intros (i & Hi & Hm).
  apply list_elem_of_In, in_rev, list_elem_of_In in Hi. specialize (H i Hi). unfold iv_mem in Hm. lia.
Qed.

(** A frame built from a list of ranges, which leaves out a single range *)
Lemma ack_frame_of_ranges first rest t :
  range_ok first -> descends first rest -> 0 < FirstPacketNumber (List.last rest first) ->
  let ack := mkAckFrame (LastPacketNumber first) (FirstPacketNumber (List.last rest first))
    (if len (first :: rest) >? 1 then first :: rest else []) t 0 in
  AckFrame_wf ack /\ forall p, AcksPacket ack p = true <-> Exists (inRange p) (first :: rest).
Proof.
  intros Hf Hd Hpos ack. pose proof (descends_last _ _ Hf Hd). unfold range_ok in *.
  subst ack. destruct rest as [|r1 rest].
  - change (len [first] >? 1) with false. cbv iota. simpl in *.
    split; [unfold AckFrame_wf; simpl; split_and!; (done || lia)|].
    intros p. rewrite AcksPacket_plain by done. simpl. rewrite Exists_cons, Exists_nil.
    unfold inRange. intuition.
  - assert ((len (first :: r1 :: rest) >? 1) = true) as ->.
    { rewrite !len_cons, Z.gtb_ltb. apply Z.ltb_lt. pose proof (len_nonneg rest). lia. }
    split; [unfold AckFrame_wf; cbn [AckRanges LargestAcked LowestAcked]; split_and!; (done || lia)|].
    intros p. rewrite AcksPacket_ranges by done. cbn [AckRanges LargestAcked LowestAcked].
    split; [tauto|]. intros He. split; [|done]. by apply descends_bounds.
Qed.

(** The ACK frame for a history with [largest] as its largest number *)
Lemma history_ack_frame h largest first rest t :
  history_ok h -> largest ∈ receivedPacketNumbers h ->
  (forall p, p ∈ receivedPacketNumbers h -> p <= largest) ->
  GetAckRanges h = first :: rest ->
  let ack := mkAckFrame largest (FirstPacketNumber (List.last rest first))
    (if len (first :: rest) >? 1 then first :: rest else []) t 0 in
  AckFrame_wf ack /\ forall p, AcksPacket ack p = true <-> p ∈ receivedPacketNumbers h.
Proof.
  intros Hh Hl Hmax E. pose proof (hist_ivs h Hh) as Hok. unfold GetAckRanges in E.
  fold ackRangeOf in E. destruct (rev (ranges h)) as [|r front] eqn:Er; [done|].
  injection E as <- <-. assert (ranges h = rev (r :: front)) as Eh by (by rewrite <- Er, rev_involutive).
  rewrite Eh in Hok. destruct (ivs_descends r front Hok) as [Hr Hd].
  { intros i Hi. apply (history_End_bound h); [done|]. rewrite Eh.
    by apply list_elem_of_In, in_rev; rewrite rev_involutive; apply list_elem_of_In. }
  assert (iv_End r = largest) as Elargest.
  { apply Z.le_antisymm.
    - apply Hmax, (hist_set h Hh). rewrite Eh, covers_ranges. simpl. apply Exists_cons.
      left. unfold inRange, range_ok in *. simpl in *. lia.
    - apply (covers_max r front); [done|]. rewrite <- Eh. by apply Hh. }
  assert (forall p, p ∈ receivedPacketNumbers h <-> Exists (inRange p) (map ackRangeOf (r :: front)))
    as Hset by (intros p; rewrite (hist_set h Hh), Eh; apply covers_ranges).
  pose proof (descends_last _ _ Hr Hd) as Hlow.
  assert (0 < FirstPacketNumber (List.last (map ackRangeOf front) (ackRangeOf r))) as Hpos.
  { apply (ivs_ok_lower 0 (rev (r :: front))); [done|]. apply covers_ranges. apply Exists_exists.
    exists (List.last (map ackRangeOf front) (ackRangeOf r)). split; [apply last_elem|].
    pose proof (descends_first_ge _ _ Hr Hd) as Hall. rewrite Forall_forall in Hall.
    destruct (Hall _ (last_elem _ _)) as [[? ?] _]. unfold inRange. lia. }
  rewrite <- Elargest. change (iv_End r) with (LastPacketNumber (ackRangeOf r)).
  destruct (ack_frame_of_ranges (ackRangeOf r) (map ackRangeOf front) t Hr Hd Hpos) as [H1 H2].
  split; [exact H1|]. intros p. rewrite Hset. apply H2.
Qed.

(** ** The handler as a state machine

    [Handler_reach h R]: the handler [h] is reached by the operations of the
    session, and [R] are the packet numbers it has accepted.  Times are not the
    zero time.  A STOP_WAITING frame comes in a received packet, whose number it
    does not exceed (frames/stop_waiting_frame.go, session.go). *)
Inductive Handler_reach : receivedPacketHandler -> gset Z -> Prop :=
| reach_new : Handler_reach NewReceivedPacketHandler ∅
| reach_packet h R now p instigate h' alarm :
    Handler_reach h R -> 0 < now -> 0 <= p < 2 ^ 48 ->
    Handler_ReceivedPacket h now p instigate = (h', alarm, Ok tt) ->
    Handler_reach h' ({[p]} ∪ R)
| reach_rejected h R now p instigate h' alarm e :
    Handler_reach h R -> 0 < now -> 0 <= p < 2 ^ 48 ->
    Handler_ReceivedPacket h now p instigate = (h', alarm, Err e) ->
    Handler_reach h' R
| reach_stop_waiting h R f p :
    Handler_reach h R -> 0 <= swf_LeastUnacked f <= p ->
    p ∈ receivedPacketNumbers (packetHistory h) ->
    Handler_reach (Handler_ReceivedStopWaiting h f) R
| reach_ack h R now h' ack :
    Handler_reach h R -> GetAckFrame h now = Ok (h', ack) -> Handler_reach h' R.

Record handler_inv (h : receivedPacketHandler) (R : gset Z) : Prop := mkHandlerInv {
  inv_history : history_ok (packetHistory h);
  inv_received : forall p, p ∈ receivedPacketNumbers (packetHistory h) <->
                   p ∈ R /\ ignorePacketsBelow h < p;
  inv_lowest : lowestInReceivedPacketNumbers (packetHistory h) <= ignorePacketsBelow h + 1;
  inv_ignore : 0 <= ignorePacketsBelow h < 2 ^ 48;
  inv_R : forall p, p ∈ R -> 0 < p <= largestObserved h;
  inv_largest : R <> ∅ -> largestObserved h ∈ receivedPacketNumbers (packetHistory h);
  inv_empty : R = ∅ -> largestObserved h = 0 /\ ackQueued h = false /\ ackAlarm h = 0;
  inv_delay : ackSendDelay h = AckSendDelay;
  inv_pending : 0 <= retransmittablePacketsReceivedSinceLastAck h /\
    (0 < retransmittablePacketsReceivedSinceLastAck h -> ackQueued h = true \/ ackAlarm h <> 0);
  inv_many : MaxPacketsReceivedBeforeAckSend <= packetsReceivedSinceLastAck h ->
    ackQueued h = true;
}.

(** What [maybeQueueAck] leaves alone, and what it guarantees *)
Lemma maybeQueueAck_spec h now p instigate :
  0 < now -> ackSendDelay h = AckSendDelay ->
  0 <= retransmittablePacketsReceivedSinceLastAck h ->
  (0 < retransmittablePacketsReceivedSinceLastAck h -> ackQueued h = true \/ ackAlarm h <> 0) ->
  (MaxPacketsReceivedBeforeAckSend <= packetsReceivedSinceLastAck h -> ackQueued h = true) ->
  let '(h', alarm) := maybeQueueAck h now p instigate in
  largestObserved h' = largestObserved h /\ ignorePacketsBelow h' = ignorePacketsBelow h /\
  packetHistory h' = packetHistory h /\ ackSendDelay h' = AckSendDelay /\
  0 <= retransmittablePacketsReceivedSinceLastAck h' /\
  (0 < retransmittablePacketsReceivedSinceLastAck h' -> ackQueued h' = true \/ ackAlarm h' <> 0) /\
  (MaxPacketsReceivedBeforeAckSend <= packetsReceivedSinceLastAck h' -> ackQueued h' = true).
Proof.
  intros Hnow Hdelay Hnn Hpend Hmany. unfold maybeQueueAck. rewrite Hdelay.
  set (q := match lastAck h with Some ack => if _ >? _ then true else _ | None => _ end).
  assert (MaxPacketsReceivedBeforeAckSend <= packetsReceivedSinceLastAck h + 1 -> q = true) as Hq1.
  { intros Hm. subst q. rewrite Z.geb_leb, (proj2 (Z.leb_le _ _)) by lia.
    destruct (lastAck h); [|done]. by repeat case_if. }
  assert (ackQueued h = true -> q = true) as Hq2.
  { intros Hm. subst q. rewrite Hm. destruct (lastAck h); by repeat case_if. }
  assert (0 < AckSendDelay) by done.
  destruct q.
  - cbn. split_and!; auto. destruct instigate; lia.
  - cbn [negb andb]. destruct instigate; cbn [negb andb].
    + case_if; [cbn; split_and!; auto with lia|]. case_if; cbn; split_and!; auto with lia.
    + cbn. split_and!; auto. intros Hr. destruct (Hpend Hr); auto.
Qed.

Lemma handler_inv_new : handler_inv NewReceivedPacketHandler ∅.
Proof.
  constructor; simpl; try done; try (intros; set_solver).
  - apply newReceivedPacketHistory_ok.
Qed.

(** Which packets are accepted, in terms of the history *)
Lemma IsDuplicate_spec h R p :
  handler_inv h R -> ignorePacketsBelow h < p ->
  IsDuplicate (packetHistory h) p = true <-> p ∈ R.
Proof.
  intros Hinv Hp. unfold IsDuplicate. pose proof (inv_lowest h R Hinv).
  rewrite (proj2 (Z.ltb_ge _ _)) by lia.
  rewrite bool_decide_eq_true, (inv_received h R Hinv). tauto.
Qed.

Lemma handler_inv_packet h R now p instigate h' alarm :
  handler_inv h R -> 0 < now -> 0 <= p < 2 ^ 48 ->
  Handler_ReceivedPacket h now p instigate = (h', alarm, Ok tt) ->
  handler_inv h' ({[p]} ∪ R).
Proof.
  intros Hinv Hnow Hp. unfold Handler_ReceivedPacket. case_if; [done|]. case_if; [done|].
  destruct (IsDuplicate (packetHistory h) p) eqn:Hdup; [done|].
  pose proof (History_ReceivedPacket_ok (packetHistory h) p (inv_history h R Hinv) ltac:(lia)) as Hrp.
  destruct (History_ReceivedPacket _ p) as [hist r]. destruct Hrp as (Hok & Hlow & Hr).
  destruct r as [[]| |]; [|by case_if..].
  destruct (if p >? largestObserved h then _ else _) as [largest time] eqn:El.
  assert (largest = Z.max p (largestObserved h)) as -> by (case_if; inv_ok; lia). clear El.
  match goal with |- context [maybeQueueAck ?h0 _ _ _] => set (h1 := h0) end.
  pose proof (maybeQueueAck_spec h1 now p instigate Hnow (inv_delay h R Hinv)
    (proj1 (inv_pending h R Hinv)) (proj2 (inv_pending h R Hinv)) (inv_many h R Hinv)) as Hq.
  destruct (maybeQueueAck h1 now p instigate) as [h2 a2].
  destruct Hq as (E1 & E2 & E3 & E4 & E5 & E6 & E7). intros [= <- <-]. subst h1. simpl in *.
  constructor; rewrite ?E1, ?E2, ?E3; auto.
  - intros q. rewrite Hr, !elem_of_union, elem_of_singleton, (inv_received h R Hinv).
    intuition (subst; auto with lia).
  - rewrite Hlow. apply (inv_lowest h R Hinv).
  - apply (inv_ignore h R Hinv).
  - intros q. rewrite elem_of_union, elem_of_singleton. intros [-> | Hq]; [lia|].
    pose proof (inv_R h R Hinv q Hq). lia.
  - intros _. rewrite Hr. destruct (Z.max_spec p (largestObserved h)) as [[? ->]|[? ->]]; [|set_solver].
    assert (R <> ∅) as HR by (intros HR; pose proof (inv_empty h R Hinv HR); lia).
    pose proof (inv_largest h R Hinv HR). set_solver.
  - intros HR. exfalso. set_solver.
Qed.

Lemma handler_inv_stop h R f p :
  handler_inv h R -> 0 <= swf_LeastUnacked f <= p ->
  p ∈ receivedPacketNumbers (packetHistory h) ->
  handler_inv (Handler_ReceivedStopWaiting h f) R.
Proof.
  intros Hinv Hlu Hp. unfold Handler_ReceivedStopWaiting. case_if; [done|].
  pose proof (inv_ignore h R Hinv). pose proof (inv_lowest h R Hinv).
  apply (inv_received h R Hinv) in Hp as [HpR Hpi]. pose proof (inv_R h R Hinv p HpR).
  assert (R <> ∅) as HR by set_solver.
  pose proof (inv_largest h R Hinv HR) as Hl.
  pose proof (proj1 (hist_set _ (inv_history h R Hinv) _) Hl) as Hlb.
  apply (hist_bound _ (inv_history h R Hinv)) in Hlb.
  rewrite u64_small by (unfold_width; lia).
  destruct (DeleteBelow_ok (packetHistory h) (swf_LeastUnacked f) (inv_history h R Hinv))
    as (Hok & Hlow & Hset). destruct (DeleteBelow _ _) as [rs m low].
  constructor; simpl in *; try apply Hinv; auto with lia.
  - intros q. rewrite Hset, (inv_received h R Hinv). intuition lia.
  - intros _. rewrite Hset. split; [done|lia].
Qed.

Lemma handler_inv_ack h R now h' ack :
  handler_inv h R -> GetAckFrame h now = Ok (h', ack) -> handler_inv h' R.
Proof.
  intros Hinv. unfold GetAckFrame. case_if; [by intros [= <- <-]|].
  destruct (GetAckRanges _); [done|]. intros [= <- <-].
  constructor; simpl; try apply Hinv; try done.
  - intros HR. destruct (inv_empty h R Hinv HR) as (? & ? & ?). done.
Qed.

Lemma Handler_ReceivedPacket_rejected h R now p instigate h' alarm e :
  handler_inv h R -> 0 <= p < 2 ^ 48 -> Handler_ReceivedPacket h now p instigate = (h', alarm, Err e) ->
  h' = h /\ alarm = None.
Proof.
  intros IH Hp. unfold Handler_ReceivedPacket.
  case_if; [by intros [= <- <- _]|]. case_if; [by intros [= <- <- _]|].
  destruct (IsDuplicate _ _); [by intros [= <- <- _]|].
  pose proof (History_ReceivedPacket_ok (packetHistory h) p (inv_history h R IH) ltac:(lia)) as Hrp.
  destruct (History_ReceivedPacket _ p) as [hist r]. destruct Hrp as (_ & _ & Hr).
  destruct (if p >? largestObserved h then _ else _) as [largest time].
  destruct r as [[]| |].
  - destruct (maybeQueueAck _ _ _ _). done.
  - subst hist. intros [= <- <- _]. by destruct h.
  - done.
Qed.

Lemma maybeQueueAck_history h now p instigate :
  packetHistory (maybeQueueAck h now p instigate).1 = packetHistory h.
Proof.
  unfold maybeQueueAck. destruct (if negb _ && _ then _ else _) as [[q a] b]. by destruct (if q then _ else _).
Qed.

(** An accepted packet is recorded; the other results *)
Lemma Handler_ReceivedPacket_result h R now p instigate :
  handler_inv h R -> 0 <= p < 2 ^ 48 ->
  let '(h', _, r) := Handler_ReceivedPacket h now p instigate in
  match r with
  | Ok _ => p ∈ receivedPacketNumbers (packetHistory h')
  | Err e => e ∈ [errInvalidPacketNumber; ErrPacketSmallerThanLastStopWaiting; ErrDuplicatePacket;
                  errTooManyOutstandingReceivedPackets; errTooManyOutstandingReceivedAckRanges]
  | Panic => False
  end.
Proof.
  intros Hinv Hp. unfold Handler_ReceivedPacket.
  case_if; [set_solver|]. case_if; [set_solver|]. destruct (IsDuplicate _ _); [set_solver|].
  pose proof (inv_ignore _ _ Hinv).
  pose proof (History_ReceivedPacket_ok (packetHistory h) p (inv_history h R Hinv) ltac:(lia)) as Hrp.
  destruct (History_ReceivedPacket _ p) as [hist r] eqn:E. destruct Hrp as (_ & _ & Hr).
  destruct (if p >? largestObserved h then _ else _) as [largest time].
  destruct r as [[]|err|]; [|revert E; unfold History_ReceivedPacket; repeat case_if; intros [= _ <-]; set_solver
    |revert E; unfold History_ReceivedPacket; by repeat case_if].
  match goal with |- context [maybeQueueAck ?h0 now p instigate] =>
    pose proof (maybeQueueAck_history h0 now p instigate) as Eh end.
  destruct (maybeQueueAck _ _ _ _) as [h' alarm]. simpl in Eh. rewrite Eh, Hr. set_solver.
Qed.

Lemma handler_reach_inv h R : Handler_reach h R -> handler_inv h R.
Proof.
  induction 1 as [|h R now p i h' a _ IH Hnow Hp E|h R now p i h' a e _ IH Hnow Hp E
    |h R f p _ IH Hf Hp|h R now h' ack _ IH E].
  - apply handler_inv_new.
  - by eapply handler_inv_packet.
  - by destruct (Handler_ReceivedPacket_rejected _ _ _ _ _ _ _ _ IH Hp E) as [-> _].
  - by eapply handler_inv_stop.
  - by eapply handler_inv_ack.
Qed.

Lemma GetAckFrame_ranges h R :
  handler_inv h R -> R <> ∅ -> exists first rest, GetAckRanges (packetHistory h) = first :: rest.
Proof.
  intros Hinv HR. pose proof (inv_largest h R Hinv HR) as Hl.
  apply (hist_set _ (inv_history h R Hinv)) in Hl. unfold GetAckRanges.
  destruct (ranges (packetHistory h)) as [|r rs]; [by apply Exists_nil in Hl|].
  destruct (rev (r :: rs)) as [|x l] eqn:E; [|by eexists _, _].
  apply (f_equal length) in E. rewrite length_rev in E. done.
Qed.

Lemma GetAckFrame_wf h R now h' ack :
  handler_inv h R -> GetAckFrame h now = Ok (h', Some ack) ->
  AckFrame_wf ack /\
  forall p, AcksPacket ack p = true <-> p ∈ R /\ ignorePacketsBelow h < p.
Proof.
  intros Hreach. unfold GetAckFrame. case_if; [done|].
  destruct (GetAckRanges (packetHistory h)) as [|first rest] eqn:E; [done|]. intros [= <- <-].
  assert (R <> ∅) as HR.
  { intros HR. destruct (inv_empty h R Hreach HR) as (_ & Hq & Ha).
    rewrite Hq, Ha in Heqb. done. }
  destruct (history_ack_frame (packetHistory h) (largestObserved h) first rest
    (largestObservedReceivedTime h)) as [H1 H2]; [apply Hreach|by apply (inv_largest h R Hreach)| |done|].
  - intros p Hp. apply (inv_received h R Hreach) in Hp as [Hp _]. apply (inv_R h R Hreach p Hp).
  - split; [exact H1|]. intros p. rewrite (H2 p). apply (inv_received h R Hreach).
Qed.

Lemma GetAckFrame_total h R now :
  handler_inv h R -> exists h' ack, GetAckFrame h now = Ok (h', ack) /\ handler_inv h' R.
Proof.
  intros Hinv. assert (exists h' ack, GetAckFrame h now = Ok (h', ack)) as (h' & ack & E).
  { unfold GetAckFrame. destruct (negb (ackQueued h) && _) eqn:Hn; [by eexists _, _|].
    assert (R <> ∅) as HR.
    { intros HR. destruct (inv_empty h R Hinv HR) as (_ & Hq & Ha). rewrite Hq, Ha in Hn. done. }
    destruct (GetAckFrame_ranges h R Hinv HR) as (first & rest & ->). by eexists _, _. }
  exists h', ack. split; [done|]. by eapply handler_inv_ack.
Qed.

(** C13: an ACK frame is well-formed, and acknowledges exactly the packets that
    have been accepted and lie above the last STOP_WAITING: no packet is
    acknowledged that was not received, and none is forgotten. *)
Theorem received_ack_exact h R now h' ack :
  Handler_reach h R -> GetAckFrame h now = Ok (h', Some ack) ->
  AckFrame_wf ack /\
  forall p, AcksPacket ack p = true <-> p ∈ R /\ ignorePacketsBelow h < p.
Proof. intros Hreach%handler_reach_inv. by apply GetAckFrame_wf. Qed.

(** A packet number is accepted if and only if it has not been accepted
    before, lies above the last STOP_WAITING, and the limits on tracked ranges
    and packets are not reached; a duplicate never gets through, even after the
    history has forgotten it. *)
Theorem received_packet_accepted h R now p instigate :
  Handler_reach h R -> 0 < now -> 0 <= p < 2 ^ 48 ->
  is_ok (Handler_ReceivedPacket h now p instigate).2 = true <->
  (p ∉ R) /\ p <> 0 /\ ignorePacketsBelow h < p /\
  len (ranges (packetHistory h)) < MaxTrackedReceivedAckRanges /\
  Z.of_nat (size (receivedPacketNumbers (packetHistory h))) < MaxTrackedReceivedPackets.
Proof.
  intros Hreach%handler_reach_inv Hnow Hp. unfold Handler_ReceivedPacket.
  pose proof (inv_ignore h R Hreach).
  case_if; [simpl; intuition lia|]. case_if; [simpl; intuition lia|].
  pose proof (IsDuplicate_spec h R p Hreach ltac:(lia)) as Hdup.
  destruct (IsDuplicate (packetHistory h) p).
  { split; [done|]. intros [Hn _]. destruct Hn. by apply Hdup. }
  assert (p ∉ R) by (intros Hin; apply Hdup in Hin; done).
  unfold History_ReceivedPacket.
  case_if; [by destruct (if p >? _ then _ else _); simpl; intuition lia|].
  case_if; [by destruct (if p >? _ then _ else _); simpl; intuition lia|].
  destruct (if p >? _ then _ else _). destruct (maybeQueueAck _ _ _ _). simpl. intuition lia.
Qed.

(** [GetAckFrame] never panics in a session, and when a retransmittable
    packet has arrived since the last ACK, or twenty packets of any kind, an ACK
    is available as soon as the alarm (if it is armed) has expired. *)
Theorem received_ack_available h R now :
  Handler_reach h R ->
  exists h' ack, GetAckFrame h now = Ok (h', ack) /\
    ((0 < retransmittablePacketsReceivedSinceLastAck h /\ ackAlarm h <= now) \/
     MaxPacketsReceivedBeforeAckSend <= packetsReceivedSinceLastAck h ->
     ack <> None).
Proof.
  intros Hreach%handler_reach_inv. unfold GetAckFrame.
  pose proof (proj2 (inv_pending h R Hreach)) as Hpend. pose proof (inv_many h R Hreach) as Hmany.
  destruct (negb (ackQueued h) && ((ackAlarm h =? 0) || (ackAlarm h >? now))) eqn:Hn.
  - exists h, None. split; [done|]. to_prop.
    apply orb_true_iff in H0 as [Ha|Ha]; to_prop; rewrite H in *;
      intros [[Hr Hle]|Hm]; try (destruct (Hpend Hr); done || lia); by specialize (Hmany Hm).
  - assert (R <> ∅) as HR.
    { intros HR. destruct (inv_empty h R Hreach HR) as (_ & Hq & Ha). rewrite Hq, Ha in Hn. done. }
    destruct (GetAckFrame_ranges h R Hreach HR) as (first & rest & ->).
    eexists _, _. split; [reflexivity|]. done.
Qed.

(** A handler that has received packets 5 and 3, both retransmittable *)
Definition sampleHandler0 : receivedPacketHandler :=
  (Handler_ReceivedPacket NewReceivedPacketHandler 1000 5 true).1.1.
Definition sampleHandler : receivedPacketHandler :=
  (Handler_ReceivedPacket sampleHandler0 2000 3 true).1.1.

Lemma sampleHandler_reach : Handler_reach sampleHandler ({[3]} ∪ ({[5]} ∪ ∅)).
Proof.
  apply (reach_packet sampleHandler0 _ 2000 3 true _ None); [|lia|lia|vm_compute; reflexivity].
  apply (reach_packet NewReceivedPacketHandler _ 1000 5 true _ None);
    [apply reach_new|lia|lia|vm_compute; reflexivity].
Qed.

Lemma received_ack_exact_witness :
  exists h' ack, GetAckFrame sampleHandler 3000 = Ok (h', Some ack) /\
    AckFrame_wf ack /\
    forall p, AcksPacket ack p = true <-> p ∈ ({[3]} ∪ ({[5]} ∪ ∅) : gset Z) /\ 0 < p.
Proof.
  destruct (GetAckFrame sampleHandler 3000) as [[h' [ack|]]|e|] eqn:E;
    [|vm_compute in E; discriminate E..].
  exists h', ack. split; [reflexivity|].
  apply (received_ack_exact sampleHandler _ 3000 h' ack sampleHandler_reach E).
Defined.

Lemma received_packet_accepted_witness :
  is_ok (Handler_ReceivedPacket sampleHandler 3000 4 true).2 = true /\
  (is_ok (Handler_ReceivedPacket sampleHandler 3000 4 true).2 = true <->
   (4 ∉ ({[3]} ∪ ({[5]} ∪ ∅) : gset Z)) /\ 4 <> 0 /\ 0 < 4 /\
   len (ranges (packetHistory sampleHandler)) < MaxTrackedReceivedAckRanges /\
   Z.of_nat (size (receivedPacketNumbers (packetHistory sampleHandler))) < MaxTrackedReceivedPackets).
Proof.
  split; [vm_compute; reflexivity|].
  apply (received_packet_accepted sampleHandler _ 3000 4 true sampleHandler_reach); lia.
Defined.

Lemma received_ack_available_witness :
  exists h' ack, GetAckFrame sampleHandler 3000 = Ok (h', ack) /\ ack <> None.
Proof.
  destruct (received_ack_available sampleHandler _ 3000 sampleHandler_reach) as (h' & ack & H & Ha).
  exists h', ack. split; [exact H|]. apply Ha. left. split; vm_compute; (reflexivity || discriminate).
Defined.
