(* ===== verification/StreamFrameSorter.v ===== *)
(** * stream_frame_sorter.go: reassembly of a stream

    The sorter keeps the gaps in the received data as a list of intervals, and
    the received frames in a map from their offset.  The linked list of gaps is
    the list of its values (LinkedList.v relates the two). *)

From S2P Require Import Prelude Protocol Frames.

(** ** utils/streamframe_interval.go *)

Record ByteInterval : Type := mkByteInterval {
  bi_Start : Z;
  bi_End : Z;
}.

(** ** The sorter *)

Record streamFrameSorter : Type := mkStreamFrameSorter {
  queuedFrames : gmap Z StreamFrame;
  readPosition : Z;
  gaps : list ByteInterval;
}.

Definition errTooManyGapsInReceivedStreamData : goerror :=
  ErrNew "Too many gaps in received StreamFrame data".
Definition errDuplicateStreamData : goerror := ErrNew "Duplicate Stream Data".
Definition errEmptyStreamData : goerror := ErrNew "Stream Data empty".
Definition errNoGapFound : goerror := ErrNew "StreamFrameSorter BUG: no gap found".
Definition errNoEndGapFound : goerror := ErrNew "StreamFrameSorter BUG: no end gap found".

Definition newStreamFrameSorter : streamFrameSorter :=
  mkStreamFrameSorter ∅ 0 [mkByteInterval 0 MaxByteCount].

(** The slice expressions [d[n:]] and [d[:n]] *)
Definition sliceFrom (d : list Z) (n : Z) : res (list Z) :=
  if (0 <=? n) && (n <=? len d) then Ok (drop (Z.to_nat n) d) else Panic.
Definition sliceTo (d : list Z) (n : Z) : res (list Z) :=
  if (0 <=? n) && (n <=? len d) then Ok (take (Z.to_nat n) d) else Panic.

(** The loop that skips the gaps before the frame: the gap found, with the gaps
    before it (in reverse) and after it *)
Inductive gapSearch : Type :=
| gapFound (passed : list ByteInterval) (gap : ByteInterval) (rest : list ByteInterval)
| gapDuplicate
| gapNone.

Fixpoint findGap (start end_ : Z) (passed gs : list ByteInterval) : gapSearch :=
  match gs with
  | [] => gapNone
  | gap :: rest =>
      if end_ <=? bi_Start gap then gapDuplicate
      else if (end_ >? bi_Start gap) && (start <=? bi_End gap) then gapFound passed gap rest
      else findGap start end_ (gap :: passed) rest
  end.

(** The loop that looks for the end gap.  [isGap]: [endGap] is still the
    element [gap]; [egRemoved]: the element [endGap] has been removed from the
    list; [egBug]: the loop ran out of gaps. *)
Record endGapSearch : Type := mkEndGapSearch {
  egQueue : gmap Z StreamFrame;
  egGap : ByteInterval;
  egIsGap : bool;
  egRemoved : bool;
  egRest : list ByteInterval;
  egBug : bool;
}.

Fixpoint findEndGap (end_ : Z) (isGap : bool) (endGap : ByteInterval) (rest : list ByteInterval)
    (q : gmap Z StreamFrame) : endGapSearch :=
  if end_ >=? bi_End endGap then
    match rest with
    | [] => mkEndGapSearch q endGap isGap false rest true
    | nextEndGap :: rest' =>
        if end_ <=? bi_Start nextEndGap
        then mkEndGapSearch q endGap isGap (negb isGap) rest false
        else findEndGap end_ false nextEndGap rest' (delete (bi_End endGap) q)
    end
  else mkEndGapSearch q endGap isGap false rest false.

(** The elements [gap] and [endGap] after the update of the gaps; both are the
    same element when [isGap] holds, and [endGap] is not in the list when it has
    been removed. *)
Definition updateGaps (start end_ : Z) (gap endGap : ByteInterval) (isGap removed : bool)
    : list ByteInterval :=
  if isGap then
    if start =? bi_Start gap then
      if end_ >=? bi_End gap then []
      else if end_ <? bi_End gap then [mkByteInterval end_ (bi_End gap)] else [gap]
    else if end_ =? bi_End gap then [mkByteInterval (bi_Start gap) start]
    else [mkByteInterval (bi_Start gap) start; mkByteInterval end_ (bi_End gap)]
  else
    let '(gapPart, endGap) :=
      if start =? bi_Start gap then
        (if end_ >=? bi_End gap then [] else [gap],
         if end_ <? bi_End endGap then mkByteInterval end_ (bi_End endGap) else endGap)
      else if end_ =? bi_End endGap then ([mkByteInterval (bi_Start gap) start], endGap)
      else ([mkByteInterval (bi_Start gap) start], mkByteInterval end_ (bi_End endGap)) in
    gapPart ++ (if removed then [] else [endGap]).

Definition setFrame (f : StreamFrame) (offset : Z) (data : list Z) : StreamFrame :=
  mkStreamFrame (sf_StreamID f) (sf_FinBit f) (sf_DataLenPresent f) offset data.

(** The part of [Push] from the search for the gap on *)
Definition pushData (s : streamFrameSorter) (frame : StreamFrame) : streamFrameSorter * res unit :=
  let start := sf_Offset frame in
  let end_ := u64 (sf_Offset frame + StreamFrame_DataLen frame) in
  match findGap start end_ [] (gaps s) with
  | gapDuplicate => (s, Err errDuplicateStreamData)
  | gapNone => (s, Err errNoGapFound)
  | gapFound passed gap rest =>
      let add := bi_Start gap - start in
      let '(start, front) :=
        if start <? bi_Start gap
        then (u64 (start + add), let! d := sliceFrom (sf_Data frame) add in
                                 Ok (setFrame frame (u64 (sf_Offset frame + add)) d))
        else (start, Ok frame) in
      match front with
      | Ok frame =>
          let eg := findEndGap end_ true gap rest (queuedFrames s) in
          let before := rev passed ++ [gap] in
          if egBug eg then
            (mkStreamFrameSorter (egQueue eg) (readPosition s)
               (before ++ (if egIsGap eg then [] else [egGap eg]) ++ egRest eg),
             Err errNoEndGapFound)
          else
            let endGap := egGap eg in
            let cutLen := end_ - bi_End endGap in
            let '(end_, back) :=
              if end_ >? bi_End endGap
              then (end_ - cutLen,
                    let! d := sliceTo (sf_Data frame) (u64 (StreamFrame_DataLen frame - cutLen)) in
                    Ok (setFrame frame (sf_Offset frame) d))
              else (end_, Ok frame) in
            match back with
            | Ok frame =>
                let gs := rev passed
                  ++ updateGaps start end_ gap endGap (egIsGap eg) (egRemoved eg) ++ egRest eg in
                if len gs >? MaxStreamFrameSorterGaps then
                  (mkStreamFrameSorter (egQueue eg) (readPosition s) gs,
                   Err errTooManyGapsInReceivedStreamData)
                else
                  (mkStreamFrameSorter (<[sf_Offset frame := frame]> (egQueue eg))
                     (readPosition s) gs, Ok tt)
            | Err e => (s, Err e)
            | Panic => (s, Panic)
            end
      | Err e => (s, Err e)
      | Panic => (s, Panic)
      end
  end.

Definition Push (s : streamFrameSorter) (frame : StreamFrame) : streamFrameSorter * res unit :=
  if StreamFrame_DataLen frame =? 0 then
    if sf_FinBit frame then
      (mkStreamFrameSorter (<[sf_Offset frame := frame]> (queuedFrames s)) (readPosition s) (gaps s),
       Ok tt)
    else (s, Err errEmptyStreamData)
  else
    match queuedFrames s !! sf_Offset frame with
    | Some oldFrame =>
        if StreamFrame_DataLen frame <=? StreamFrame_DataLen oldFrame
        then (s, Err errDuplicateStreamData)
        else
          match sliceFrom (sf_Data frame) (StreamFrame_DataLen oldFrame) with
          | Ok d =>
              pushData s (setFrame frame (u64 (sf_Offset frame + StreamFrame_DataLen oldFrame)) d)
          | Err e => (s, Err e)
          | Panic => (s, Panic)
          end
    | None => pushData s frame
    end.

Definition Head (s : streamFrameSorter) : option StreamFrame :=
  queuedFrames s !! readPosition s.

Definition Pop (s : streamFrameSorter) : streamFrameSorter * option StreamFrame :=
  match Head s with
  | Some frame =>
      (mkStreamFrameSorter (delete (sf_Offset frame) (queuedFrames s))
         (u64 (readPosition s + StreamFrame_DataLen frame)) (gaps s), Some frame)
  | None => (s, None)
  end.

(** ** Gaps *)

(** Non-empty gaps from [lo] on, in increasing order, with received data between
    two of them; the last one extends to the maximum offset. *)
Fixpoint gaps_ok (lo : Z) (l : list ByteInterval) : Prop :=
  match l with
  | [] => False
  | g :: l =>
      lo <= bi_Start g < bi_End g /\
      match l with
      | [] => bi_End g = MaxByteCount
      | _ => gaps_ok (bi_End g + 1) l
      end
  end.

Definition bi_mem (x : Z) (g : ByteInterval) : Prop := bi_Start g <= x < bi_End g.
Definition missing (l : list ByteInterval) (x : Z) : Prop := Exists (bi_mem x) l.

(** The gaps of [passed], kept in reverse, lie between [lo] and [hi passed lo]. *)
Definition hi (passed : list ByteInterval) (lo : Z) : Z :=
  match passed with [] => lo | g :: _ => bi_End g + 1 end.

Fixpoint passed_ok (lo : Z) (passed : list ByteInterval) : Prop :=
  match passed with
  | [] => True
  | g :: passed => hi passed lo <= bi_Start g < bi_End g /\ passed_ok lo passed
  end.

Lemma gaps_ok_zip lo passed l :
  l <> [] ->
  gaps_ok lo (rev passed ++ l) <-> passed_ok lo passed /\ gaps_ok (hi passed lo) l.
Proof.
  revert l; induction passed as [|g passed IH]; intros l Hl; cbn [rev app passed_ok hi]; [tauto|].
  rewrite <- app_assoc. rewrite IH by done. cbn [app gaps_ok].
  destruct l; [done|]. tauto.
Qed.

Lemma gaps_ok_weaken lo lo' l : lo' <= lo -> gaps_ok lo l -> gaps_ok lo' l.
Proof. destruct l; simpl; [done|]. intuition lia. Qed.

Lemma gaps_ok_lower lo l x : gaps_ok lo l -> missing l x -> lo <= x < MaxByteCount.
Proof.
  revert lo x; induction l as [|g l IH]; intros lo x; [done|].
  intros [Hg Hl]. unfold missing. rewrite Exists_cons. unfold bi_mem at 1.
  assert (missing l x -> bi_End g + 1 <= x < MaxByteCount /\ l <> []) as Hrec.
  { intros Hm. destruct l as [|g' l]; [by apply Exists_nil in Hm|]. split; [|done]. by apply IH. }
  assert (bi_End g <= MaxByteCount).
  { destruct l as [|g' l]; [lia|]. destruct Hl as [Hg' Hl].
    assert (missing (g' :: l) (bi_Start g')) as Hm by (left; unfold bi_mem; lia).
    specialize (IH _ _ (conj Hg' Hl) Hm). lia. }
  intros [Hx|Hx]; [lia|]. specialize (Hrec Hx). lia.
Qed.

Lemma hi_lower lo passed : passed_ok lo passed -> lo <= hi passed lo.
Proof.
  induction passed as [|g passed IH]; simpl; [lia|]. intros [Hg Hp]. specialize (IH Hp). lia.
Qed.

Lemma passed_ok_upper lo passed x :
  passed_ok lo passed -> missing passed x -> lo <= x < hi passed lo - 1.
Proof.
  induction passed as [|g passed IH]; [by intros _ ?%Exists_nil|].
  intros [Hg Hp]. unfold missing. rewrite Exists_cons. unfold bi_mem at 1. cbn [hi].
  pose proof (hi_lower _ _ Hp).
  intros [Hx|Hx]; [lia|]. specialize (IH Hp Hx). lia.
Qed.

Lemma missing_zip passed l x : missing (rev passed ++ l) x <-> missing passed x \/ missing l x.
Proof. unfold missing. by rewrite Exists_app, Exists_rev_iff. Qed.

(** ** The searches *)

Lemma findGap_spec start end_ lo passed gs :
  passed_ok lo passed -> gaps_ok (hi passed lo) gs ->
  start < end_ -> end_ < MaxByteCount -> (forall g, g ∈ passed -> bi_End g < start) ->
  match findGap start end_ passed gs with
  | gapFound passed' gap rest =>
      rev passed ++ gs = rev passed' ++ gap :: rest /\ passed_ok lo passed' /\
      gaps_ok (hi passed' lo) (gap :: rest) /\
      (forall g, g ∈ passed' -> bi_End g < start) /\
      bi_Start gap < end_ /\ start <= bi_End gap
  | gapDuplicate => forall x, start <= x < end_ -> ~ missing (rev passed ++ gs) x
  | gapNone => False
  end.
Proof.
  revert passed; induction gs as [|g gs IH]; intros passed Hp Hg Hse Hend Hpass; [done|].
  cbn [findGap]. case_if.
  { intros x Hx. rewrite missing_zip. intros [Hm|Hm].
    - apply Exists_exists in Hm as (g' & Hin & Hm). specialize (Hpass g' Hin).
      unfold bi_mem in Hm. lia.
    - assert (gaps_ok (bi_Start g) (g :: gs)) as Hg' by (destruct Hg as [? ?]; split; [lia|done]).
      pose proof (gaps_ok_lower _ _ _ Hg' Hm). lia. }
  destruct ((end_ >? bi_Start g) && (start <=? bi_End g)) eqn:Hb; to_prop; [done|].
  assert (bi_End g < start) as Hlt.
  { rewrite andb_false_iff, Z.gtb_ltb, Z.ltb_ge, Z.leb_gt in Hb. lia. }
  destruct Hg as [Hgb Hgs]. destruct gs as [|g2 gs]; [lia|].
  specialize (IH (g :: passed)). cbn [rev] in IH. rewrite <- app_assoc in IH. cbn [app] in IH.
  apply IH; [split; [lia|done]|done|done|done|].
  intros g' [-> | Hin]%elem_of_cons; [done|by apply Hpass].
Qed.

(** What the search for the end gap finds: the gaps [mid] before it are dropped,
    the frame ends inside it or at most at the next gap, and only entries of the
    queue inside the frame are deleted. *)
Record endGapFound (end_ : Z) (isGap : bool) (gap : ByteInterval) (rest : list ByteInterval)
    (q : gmap Z StreamFrame) (eg : endGapSearch) (mid : list ByteInterval) : Prop := {
  eg_bug : egBug eg = false;
  eg_list : gap :: rest = mid ++ egGap eg :: egRest eg;
  eg_isGap : egIsGap eg = match mid with [] => isGap | _ => false end;
  eg_start : bi_Start (egGap eg) < end_;
  eg_ne : bi_Start (egGap eg) < bi_End (egGap eg);
  eg_mid : match mid with [] => True | _ => bi_End gap < bi_Start (egGap eg) end;
  eg_end : (end_ < bi_End (egGap eg) /\ egRemoved eg = false) \/
           (bi_End (egGap eg) <= end_ /\ egRemoved eg = negb (egIsGap eg) /\
            exists next rest', egRest eg = next :: rest' /\ end_ <= bi_Start next);
  eg_sub : forall k f, egQueue eg !! k = Some f -> q !! k = Some f;
  eg_same : forall k, k < bi_End gap \/ bi_Start (egGap eg) <= k -> egQueue eg !! k = q !! k;
}.

Lemma findEndGap_spec end_ lo isGap gap rest q :
  gaps_ok lo (gap :: rest) -> bi_Start gap < end_ -> end_ < MaxByteCount ->
  exists mid, endGapFound end_ isGap gap rest q (findEndGap end_ isGap gap rest q) mid.
Proof.
  revert lo isGap gap q; induction rest as [|next rest IH]; intros lo isGap gap q [Hg Hrest] Hs He;
    cbn [findEndGap].
  { case_if; [lia|]. exists []. split; simpl; auto with lia. }
  case_if; [|exists []; split; simpl; auto with lia].
  case_if.
  { exists []. split; simpl; auto with lia. right. eauto 10. }
  destruct (IH _ false next (delete (bi_End gap) q) Hrest ltac:(lia) He) as [mid [H1 H2 H3 H4 Hne Hm H5 H6 H7]].
  pose proof Hrest as [Hn _].
  assert (bi_End gap < bi_Start next /\ bi_Start next <= bi_Start
    (egGap (findEndGap end_ false next rest (delete (bi_End gap) q)))) as Hb.
  { split; [lia|]. destruct mid as [|m mid]; [injection H2 as <-; lia|lia]. }
  exists (gap :: mid). split; auto.
  - simpl. by f_equal.
  - rewrite H3. by destruct mid.
  - lia.
  - intros k f Hk%H6. by apply lookup_delete_Some in Hk as [_ ?].
  - intros k Hk. rewrite H7 by lia. apply lookup_delete_ne. lia.
Qed.

(** The update of the gaps leaves what is before the frame in [gap] and what is
    after it in [endGap]. *)
Definition cutGap (a b : Z) : list ByteInterval :=
  if a <? b then [mkByteInterval a b] else [].

Lemma updateGaps_spec start end_ isGap gap rest q eg mid :
  endGapFound end_ true gap rest q eg mid -> isGap = egIsGap eg ->
  bi_Start gap <= start < bi_End gap -> start < end_ ->
  updateGaps start (Z.min end_ (bi_End (egGap eg))) gap (egGap eg) isGap (egRemoved eg) =
  cutGap (bi_Start gap) start ++ cutGap (Z.min end_ (bi_End (egGap eg))) (bi_End (egGap eg)).
Proof.
  intros [H1 H2 H3 H4 Hne Hm H5 _ _] -> Hs He. unfold updateGaps, cutGap.
  destruct mid as [|m mid].
  - injection H2 as E _. rewrite H3, <- E.
    destruct H5 as [[H5 Hr]|(H5 & Hr & _)]; rewrite <- E in H5.
    + repeat case_if; try lia; done.
    + rewrite Z.min_r by lia. repeat case_if; try lia; done.
  - injection H2 as <- _. rewrite H3 in *.
    destruct H5 as [[H5 Hr]|(H5 & Hr & _)]; rewrite Hr; cbn [negb].
    + rewrite Z.min_l by lia. repeat case_if; try lia; done.
    + rewrite Z.min_r by lia. repeat case_if; try lia; done.
Qed.

(** ** Chains of queued frames *)

(** The queue holds consecutive frames with the data from [a] to [b]. *)
Inductive chain (q : gmap Z StreamFrame) : Z -> Z -> Prop :=
| chain_nil a : chain q a a
| chain_cons a b f :
    q !! a = Some f -> 0 < StreamFrame_DataLen f -> chain q (a + StreamFrame_DataLen f) b ->
    chain q a b.

(** From [a] on, the data outside the gaps [l] is queued. *)
Fixpoint chains (q : gmap Z StreamFrame) (a : Z) (l : list ByteInterval) : Prop :=
  match l with
  | [] => True
  | g :: l => chain q a (bi_Start g) /\ chains q (bi_End g) l
  end.

Lemma chain_le q a b : chain q a b -> a <= b.
Proof. induction 1; lia. Qed.

Lemma chain_trans q a b c : chain q a b -> chain q b c -> chain q a c.
Proof. induction 1; [done|]. intros Hc. econstructor; eauto. Qed.

Lemma chain_eq q q' a b : (forall k, a <= k < b -> q' !! k = q !! k) -> chain q a b -> chain q' a b.
Proof.
  intros Heq Hc; revert Heq; induction Hc as [|a b f Hf Hlen Hc IH]; intros Heq; [constructor|].
  pose proof (chain_le _ _ _ Hc). econstructor; [rewrite Heq by lia; exact Hf|done|].
  apply IH. intros k Hk. apply Heq. lia.
Qed.

Lemma chains_above q q' lo a l :
  gaps_ok lo l -> a <= lo -> (forall k, a <= k -> q' !! k = q !! k) -> chains q a l -> chains q' a l.
Proof.
  revert lo a; induction l as [|g l IH]; intros lo a; [done|].
  intros [Hg Hl] Ha Heq [Hc Hcs]. split; [eapply chain_eq; [|done]; intros; apply Heq; lia|].
  destruct l as [|g2 l]; [done|].
  eapply (IH _ (bi_End g) Hl); [lia| |done]. intros k Hk. apply Heq. lia.
Qed.

Lemma chains_below q q' B a l :
  (forall g, g ∈ l -> bi_Start g <= B) -> (forall k, k < B -> q' !! k = q !! k) ->
  chains q a l -> chains q' a l.
Proof.
  intros HB Heq. revert a; induction l as [|g l IH]; intros a; [done|]. intros [Hc Hcs].
  assert (bi_Start g <= B) by (apply HB; left). split.
  - eapply chain_eq; [|done]. intros k Hk. apply Heq. lia.
  - apply IH; [|done]. intros g' Hg'. apply HB. by right.
Qed.

(** Where the data after the gaps [rev passed] begins *)
Definition after (passed : list ByteInterval) (a : Z) : Z :=
  match passed with [] => a | g :: _ => bi_End g end.

Lemma chains_zip q a passed l :
  chains q a (rev passed ++ l) <-> chains q a (rev passed) /\ chains q (after passed a) l.
Proof.
  revert l; induction passed as [|g passed IH]; intros l; cbn [rev app after]; [simpl; tauto|].
  rewrite <- app_assoc, !IH. simpl. tauto.
Qed.

Lemma chains_suffix q a mid g l : chains q a (mid ++ g :: l) -> chains q (bi_End g) l.
Proof. revert a; induction mid as [|m mid IH]; intros a [_ H]; [done|]. eapply IH, H. Qed.

Lemma chains_join q a b l : chain q a b -> chains q b l -> chains q a l.
Proof. destruct l; [done|]. intros Hab [Hc Hcs]. split; [|done]. by eapply chain_trans. Qed.

Lemma gaps_ok_suffix lo mid l : l <> [] -> gaps_ok lo (mid ++ l) -> gaps_ok lo l.
Proof.
  intros Hl. revert lo; induction mid as [|m mid IH]; intros lo; [done|].
  cbn [app]. intros [Hm Hrest]. eapply (gaps_ok_weaken (bi_End m + 1)); [lia|].
  apply IH. destruct (mid ++ l) eqn:E; [|done]. by destruct mid, l.
Qed.

Lemma gaps_ok_ne lo l g : gaps_ok lo l -> g ∈ l -> bi_Start g < bi_End g.
Proof.
  revert lo; induction l as [|g0 l IH]; intros lo; [done|]. intros [Hg Hl] Hin.
  apply elem_of_cons in Hin as [-> | Hin]; [lia|].
  destruct l as [|g1 l]; [by apply elem_of_nil in Hin|]. by eapply IH.
Qed.

(** Data that has been received does not end where a gap ends. *)
Lemma received_not_gap_end lo l k n g :
  (forall x, k <= x < k + n -> ~ missing l x) -> 0 < n -> gaps_ok lo l -> g ∈ l ->
  k + n <> bi_End g.
Proof.
  intros Hrecv Hn Hl Hg E. apply (Hrecv (bi_End g - 1)); [lia|]. apply Exists_exists.
  exists g. split; [done|]. pose proof (gaps_ok_ne _ _ _ Hl Hg). unfold bi_mem. lia.
Qed.

Lemma gaps_ok_prefix lo mid g l x :
  gaps_ok lo (mid ++ g :: l) -> missing mid x -> lo <= x < bi_Start g.
Proof.
  revert lo; induction mid as [|m mid IH]; intros lo; [by intros _ ?%Exists_nil|].
  cbn [app]. intros [Hm Hrest]. destruct (mid ++ g :: l) as [|g0 l0] eqn:E; [by destruct mid|].
  assert (gaps_ok (bi_End m + 1) (g :: l)) as Hg.
  { rewrite <- E in Hrest. by apply gaps_ok_suffix in Hrest. }
  destruct Hg as [Hg _]. unfold missing. rewrite Exists_cons. unfold bi_mem at 1.
  intros [Hx|Hx]; [lia|]. specialize (IH _ Hrest Hx). lia.
Qed.

(** ** The frame is placed into the gaps *)

Section place.
Context (passed : list ByteInterval) (gap : ByteInterval) (rest mid : list ByteInterval).
Context (q : gmap Z StreamFrame) (eg : endGapSearch) (lo start end_ : Z).
Hypothesis Hpassed : passed_ok lo passed.
Hypothesis Hgaps : gaps_ok (hi passed lo) (gap :: rest).
Hypothesis Hfound : endGapFound end_ true gap rest q eg mid.
Hypothesis Hstart : bi_Start gap <= start < bi_End gap.
Hypothesis Hse : start < end_.

Let stop := Z.min end_ (bi_End (egGap eg)).
Let newGaps := rev passed
  ++ (cutGap (bi_Start gap) start ++ cutGap stop (bi_End (egGap eg))) ++ egRest eg.
Let tailGaps := cutGap stop (bi_End (egGap eg)) ++ egRest eg.

Lemma place_eg : gaps_ok (hi passed lo) (egGap eg :: egRest eg) /\
  bi_Start gap <= bi_Start (egGap eg) /\ bi_End gap <= bi_End (egGap eg) /\ start < stop.
Proof.
  destruct Hfound as [_ El _ Hs Hne Hm _ _ _]. rewrite El in Hgaps.
  split; [by eapply gaps_ok_suffix|].
  subst stop. destruct mid as [|m mid']; injection El as E _; simpl in Hm; [rewrite <- E|]; lia.
Qed.

Lemma place_tail : gaps_ok stop tailGaps /\ tailGaps <> [].
Proof.
  destruct place_eg as ([Heg Hrest] & _). destruct Hfound as [_ _ _ Hs Hne _ Hend _ _].
  subst tailGaps stop. unfold cutGap.
  destruct Hend as [[Hlt _]|(Hge & _ & next & rest' & E & Hn)].
  - rewrite Z.min_l, (proj2 (Z.ltb_lt _ _)) by lia. split; [|done].
    cbn [app]. split; [simpl; lia|]. simpl. by destruct (egRest eg).
  - rewrite Z.min_r, (proj2 (Z.ltb_ge _ _)) by lia. cbn [app]. rewrite E in *. split; [|done].
    eapply gaps_ok_weaken; [|exact Hrest]. lia.
Qed.

Lemma place_gaps_ok : gaps_ok lo newGaps.
Proof.
  destruct place_tail as [Ht Hne]. destruct place_eg as (_ & _ & _ & Hlt).
  subst newGaps. rewrite <- app_assoc. fold tailGaps. destruct Hgaps as [Hg _].
  unfold cutGap at 1. case_if.
  - apply gaps_ok_zip; [done|]. split; [done|]. cbn [app].
    split; [simpl; lia|]. destruct tailGaps; [done|]. eapply gaps_ok_weaken; [|exact Ht]. simpl. lia.
  - apply gaps_ok_zip; [done|]. split; [done|]. eapply gaps_ok_weaken; [|exact Ht]. lia.
Qed.

Lemma place_missing x :
  missing newGaps x <-> missing (rev passed ++ gap :: rest) x /\ ~ (start <= x < stop).
Proof.
  assert (forall a b, missing (cutGap a b) x <-> a <= x < b) as Hcut.
  { intros a b. unfold cutGap, missing. case_if; rewrite ?Exists_cons, Exists_nil.
    - unfold bi_mem. simpl. tauto.
    - split; [done|lia]. }
  destruct place_eg as (Heg & Hs1 & Hs2 & Hlt). destruct Heg as [Heg Hrest].
  subst newGaps. rewrite !missing_zip. unfold missing at 2. rewrite !Exists_app.
  fold (missing (cutGap (bi_Start gap) start) x) (missing (cutGap stop (bi_End (egGap eg))) x)
    (missing (egRest eg) x). rewrite !Hcut.
  assert (missing passed x -> x < bi_Start gap) as Hp.
  { intros Hx. pose proof (passed_ok_upper _ _ _ Hpassed Hx). destruct Hgaps. lia. }
  assert (missing (egRest eg) x -> bi_End (egGap eg) < x) as Hr.
  { intros Hx. destruct (egRest eg) as [|g l] eqn:E; [by apply Exists_nil in Hx|].
    pose proof (gaps_ok_lower _ _ _ Hrest Hx). lia. }
  assert (missing (gap :: rest) x <-> missing mid x \/
    bi_Start (egGap eg) <= x < bi_End (egGap eg) \/ missing (egRest eg) x) as ->.
  { rewrite (eg_list _ _ _ _ _ _ _ Hfound). unfold missing. rewrite Exists_app, Exists_cons. done. }
  destruct Hfound as [_ El _ Hs Hne Hm _ _ _]. subst stop. destruct mid as [|m mid'].
  - injection El as E _. rewrite <- E in *. unfold missing at 4. rewrite Exists_nil. intuition lia.
  - injection El as -> Erest.
    assert (missing mid' x -> bi_End m < x < bi_Start (egGap eg)) as Hmid.
    { intros Hx. destruct Hgaps as [_ Hg]. rewrite Erest in Hg.
      destruct (mid' ++ egGap eg :: egRest eg) eqn:E; [by destruct mid'|].
      rewrite <- E in Hg. pose proof (gaps_ok_prefix _ _ _ _ _ Hg Hx). lia. }
    unfold missing at 4. rewrite Exists_cons. fold (missing mid' x). unfold bi_mem.
    intuition lia.
Qed.

(** What was cut off from the frame is not missing. *)
Lemma place_outside start0 x :
  (forall g, g ∈ passed -> bi_End g < start0) -> start0 <= x < end_ ->
  missing (rev passed ++ gap :: rest) x -> Z.max start0 (bi_Start gap) <= x < stop.
Proof.
  intros Hpass Hx. rewrite missing_zip. intros [Hm|Hm].
  { apply Exists_exists in Hm as (g & Hin & Hm). specialize (Hpass g Hin). unfold bi_mem in Hm. lia. }
  assert (gaps_ok (bi_Start gap) (gap :: rest)) as Hg by (destruct Hgaps as [? ?]; split; [lia|done]).
  split; [pose proof (gaps_ok_lower _ _ _ Hg Hm); lia|]. destruct place_eg as ([_ Hrest] & _).
  destruct Hfound as [_ El _ _ Hne _ Hend _ _]. subst stop. rewrite El in Hm, Hg.
  destruct Hend as [[? _]|(Hge & _ & next & rest' & E & Hn)]; [lia|].
  unfold missing in Hm. rewrite Exists_app, Exists_cons in Hm. destruct Hm as [Hm|[Hm|Hm]].
  - pose proof (gaps_ok_prefix _ _ _ _ _ Hg Hm). lia.
  - unfold bi_mem in Hm. lia.
  - rewrite E in *.
    assert (gaps_ok (bi_Start next) (next :: rest')) as Hn' by (destruct Hrest as [? ?]; split; [lia|done]).
    pose proof (gaps_ok_lower _ _ _ Hn' Hm). lia.
Qed.

Context (f : StreamFrame).
Hypothesis Hlen : StreamFrame_DataLen f = stop - start.
Let newQueue := <[start := f]> (egQueue eg).

Lemma place_chains : chains q lo (rev passed ++ gap :: rest) -> chains newQueue lo newGaps.
Proof.
  intros Hc. destruct place_tail as [Ht Hne]. destruct place_eg as (Heg & Hs1 & Hs2 & Hlt).
  apply chains_zip in Hc as [Hc1 Hc2]. pose proof Hc2 as [Hcgap _].
  rewrite (eg_list _ _ _ _ _ _ _ Hfound) in Hc2. apply chains_suffix in Hc2.
  assert (forall k, k < bi_Start gap -> newQueue !! k = q !! k) as Hbelow.
  { intros k Hk. subst newQueue. rewrite lookup_insert_ne by lia.
    apply (eg_same _ _ _ _ _ _ _ Hfound). lia. }
  assert (forall k, bi_End (egGap eg) <= k -> newQueue !! k = q !! k) as Habove.
  { intros k Hk. subst newQueue. rewrite lookup_insert_ne by lia.
    apply (eg_same _ _ _ _ _ _ _ Hfound). pose proof (eg_ne _ _ _ _ _ _ _ Hfound). lia. }
  assert (chains newQueue (bi_End (egGap eg)) (egRest eg)) as Hrest.
  { destruct Heg as [_ Hr]. destruct (egRest eg) eqn:E; [done|].
    eapply (chains_above q); [exact Hr|lia|exact Habove|done]. }
  assert (chains newQueue stop tailGaps) as Htail.
  { subst tailGaps. unfold cutGap. case_if.
    - split; [constructor|done].
    - replace stop with (bi_End (egGap eg)) by (subst stop; lia). done. }
  assert (chains newQueue start tailGaps) as Hnew.
  { eapply chains_join; [|exact Htail]. eapply chain_cons.
    - apply lookup_insert_eq.
    - lia.
    - rewrite Hlen. replace (start + (stop - start)) with stop by lia. constructor. }
  subst newGaps. rewrite <- app_assoc. fold tailGaps. apply chains_zip. split.
  - eapply (chains_below q); [|exact Hbelow|done]. intros g Hg. destruct Hgaps as [Hgg _].
    apply list_elem_of_In, in_rev, list_elem_of_In in Hg.
    assert (missing passed (bi_Start g)) as Hm.
    { apply Exists_exists. exists g. split; [done|]. unfold bi_mem.
      clear - Hpassed Hg. induction passed as [|p ps IH]; [by apply not_elem_of_nil in Hg|].
      destruct Hpassed as [Hp Hps]. apply elem_of_cons in Hg as [-> | Hg]; [lia|by apply IH]. }
    pose proof (passed_ok_upper _ _ _ Hpassed Hm). lia.
  - assert (chain newQueue (after passed lo) (bi_Start gap)) as Hcg.
    { eapply chain_eq; [|exact Hcgap]. intros k Hk. apply Hbelow. lia. }
    unfold cutGap at 1. case_if.
    + split; [exact Hcg|exact Hnew].
    + eapply chains_join; [exact Hcg|]. by replace (bi_Start gap) with start by lia.
Qed.
End place.

(** ** The sorter reassembles the stream *)

Section sorter.
(** The bytes that the peer writes into the stream, and how many *)
Context (content : Z -> Z) (finalSize : Z).

Definition data_at (k : Z) (d : list Z) : Prop :=
  forall i b, d !! i = Some b -> b = content (k + Z.of_nat i).

(** A frame of this stream: its data is taken from the stream, and a FIN without
    data comes at the end. *)
Record frame_ok (f : StreamFrame) : Prop := mkFrameOk {
  fo_offset : 0 <= sf_Offset f;
  fo_data : data_at (sf_Offset f) (sf_Data f);
  fo_end : sf_Offset f + StreamFrame_DataLen f <= finalSize;
  fo_fin : StreamFrame_DataLen f = 0 -> sf_Offset f = finalSize;
}.

Record sorter_ok (s : streamFrameSorter) : Prop := mkSorterOk {
  so_pos : 0 <= readPosition s;
  so_gaps : gaps_ok (readPosition s) (gaps s);
  so_queue : forall k f, queuedFrames s !! k = Some f ->
    sf_Offset f = k /\ frame_ok f /\
    forall x, k <= x < k + StreamFrame_DataLen f -> ~ missing (gaps s) x;
  so_fin : forall k f, queuedFrames s !! k = Some f -> StreamFrame_DataLen f = 0 -> sf_FinBit f = true;
  so_chains : chains (queuedFrames s) (readPosition s) (gaps s);
}.

Lemma data_at_drop k d n :
  0 <= n -> data_at k d -> data_at (k + n) (drop (Z.to_nat n) d).
Proof.
  intros Hn Hd i b. rewrite lookup_drop. intros Hb%Hd. rewrite Hb. f_equal. lia.
Qed.

Lemma data_at_take k d n : data_at k d -> data_at k (take n d).
Proof.
  intros Hd i b Hb. apply Hd. destruct (decide (i < n)%nat) as [Hlt|Hge].
  - by rewrite lookup_take_lt in Hb.
  - rewrite lookup_take_ge in Hb by lia. done.
Qed.

Hypothesis HfinalSize : finalSize < MaxByteCount.

(** What happens to the queue when [f] is pushed: a head with data stays; a new entry ends
    where [f] ends, unless the end of [f] had arrived before, and then it is marked with the
    FIN of [f] all the same. *)
Record push_queue (s s' : streamFrameSorter) (f : StreamFrame) : Prop := mkPushQueue {
  pq_some : is_Some (Head s) -> is_Some (Head s');
  pq_head : forall h, Head s = Some h -> 0 < StreamFrame_DataLen h -> Head s' = Some h;
  pq_new : forall k f', queuedFrames s' !! k = Some f' ->
    queuedFrames s !! k = Some f' \/
    (sf_FinBit f' = sf_FinBit f /\
     (k + StreamFrame_DataLen f' = sf_Offset f + StreamFrame_DataLen f \/
      (0 < StreamFrame_DataLen f /\ ~ missing (gaps s) (sf_Offset f + StreamFrame_DataLen f - 1))));
}.

(** What a [Push] returns; the bytes of the frame are no longer missing. *)
Definition push_post (s : streamFrameSorter) (f : StreamFrame)
    (r : streamFrameSorter * res unit) : Prop :=
  let covered x := sf_Offset f <= x < sf_Offset f + StreamFrame_DataLen f in
  match r.2 with
  | Ok _ =>
      sorter_ok r.1 /\ readPosition r.1 = readPosition s /\
      (forall x, missing (gaps r.1) x <-> missing (gaps s) x /\ ~ covered x) /\
      push_queue s r.1 f
  | Err e =>
      (e = errDuplicateStreamData /\ r.1 = s /\ forall x, covered x -> ~ missing (gaps s) x) \/
      e = errTooManyGapsInReceivedStreamData
  | Panic => False
  end.

Lemma frame_cut_front f n :
  frame_ok f -> 0 <= n < StreamFrame_DataLen f ->
  exists f', sliceFrom (sf_Data f) n = Ok (sf_Data f') /\
    setFrame f (u64 (sf_Offset f + n)) (sf_Data f') = f' /\ frame_ok f' /\
    sf_Offset f' = sf_Offset f + n /\ StreamFrame_DataLen f' = StreamFrame_DataLen f - n /\
    sf_FinBit f' = sf_FinBit f.
Proof.
  intros [Ho Hd He Hf] Hn. unfold StreamFrame_DataLen in *.
  exists (setFrame f (sf_Offset f + n) (drop (Z.to_nat n) (sf_Data f))). simpl.
  unfold sliceFrom. rewrite !(proj2 (Z.leb_le _ _)) by lia.
  rewrite u64_small by (unfold MaxByteCount in *; unfold_width; lia). split_and!; try done.
  - constructor; unfold StreamFrame_DataLen; simpl; rewrite ?len_drop by lia; try lia.
    apply data_at_drop; [lia|done].
  - by rewrite len_drop by lia.
Qed.

Lemma frame_cut_back f n :
  frame_ok f -> 0 < n <= StreamFrame_DataLen f ->
  exists f', sliceTo (sf_Data f) n = Ok (sf_Data f') /\
    setFrame f (sf_Offset f) (sf_Data f') = f' /\ frame_ok f' /\
    sf_Offset f' = sf_Offset f /\ StreamFrame_DataLen f' = n /\ sf_FinBit f' = sf_FinBit f.
Proof.
  intros [Ho Hd He Hf] Hn. unfold StreamFrame_DataLen in *.
  exists (setFrame f (sf_Offset f) (take (Z.to_nat n) (sf_Data f))). simpl.
  unfold sliceTo. rewrite !(proj2 (Z.leb_le _ _)) by lia. split_and!; try done.
  - constructor; unfold StreamFrame_DataLen; simpl; rewrite ?len_take by lia; try lia.
    by apply data_at_take.
  - by rewrite len_take by lia.
Qed.

(** The frame in its place keeps the invariant. *)
Lemma place_ok s passed gap rest mid eg start end_ f :
  sorter_ok s -> gaps s = rev passed ++ gap :: rest ->
  passed_ok (readPosition s) passed -> gaps_ok (hi passed (readPosition s)) (gap :: rest) ->
  endGapFound end_ true gap rest (queuedFrames s) eg mid ->
  bi_Start gap <= start < bi_End gap -> start < end_ -> frame_ok f -> sf_Offset f = start ->
  let stop := Z.min end_ (bi_End (egGap eg)) in
  StreamFrame_DataLen f = stop - start ->
  let gs := rev passed ++ (cutGap (bi_Start gap) start ++ cutGap stop (bi_End (egGap eg))) ++ egRest eg in
  sorter_ok (mkStreamFrameSorter (<[start := f]> (egQueue eg)) (readPosition s) gs) /\
  forall x, missing gs x <-> missing (gaps s) x /\ ~ (start <= x < stop).
Proof.
  intros Hs E Hp Hg Hfound Hstart Hse Hf Ho stop Hlen gs.
  assert (forall x, missing gs x <-> missing (gaps s) x /\ ~ (start <= x < stop)) as Hmiss.
  { intros x. rewrite E. by eapply place_missing. }
  split; [|exact Hmiss]. constructor; cbn [queuedFrames readPosition gaps].
  - apply Hs.
  - by eapply place_gaps_ok.
  - intros k f0. destruct (decide (k = start)) as [-> | Hk].
    + rewrite lookup_insert_eq. intros [= <-]. split_and!; [done|done|].
      intros x Hx. rewrite Hmiss. lia.
    + rewrite lookup_insert_ne by done. intros Hk'%(eg_sub _ _ _ _ _ _ _ Hfound).
      destruct (so_queue s Hs _ _ Hk') as (H1 & H2 & H3). split_and!; [done|done|].
      intros x Hx. rewrite Hmiss. intros [Hm _]. by apply (H3 x Hx).
  - intros k f0. destruct (decide (k = start)) as [-> | Hk].
    + rewrite lookup_insert_eq. intros [= <-] E0. subst stop.
      destruct (place_eg passed gap rest mid (queuedFrames s) eg (readPosition s) start end_ Hg Hfound Hstart Hse)
        as (_ & _ & _ & ?). lia.
    + rewrite lookup_insert_ne by done. intros Hk'%(eg_sub _ _ _ _ _ _ _ Hfound). by eapply so_fin.
  - eapply place_chains; try done. rewrite <- E. apply Hs.
Qed.

(** The two cuts of [pushData] *)
Lemma pushData_front f gap :
  frame_ok f -> 0 < StreamFrame_DataLen f ->
  bi_Start gap < sf_Offset f + StreamFrame_DataLen f ->
  let start := sf_Offset f in
  let add := bi_Start gap - start in
  exists f', (if start <? bi_Start gap
    then (u64 (start + add), let! d := sliceFrom (sf_Data f) add in
                             Ok (setFrame f (u64 (sf_Offset f + add)) d))
    else (start, Ok f)) = (sf_Offset f', Ok f') /\ frame_ok f' /\
    sf_Offset f' = Z.max start (bi_Start gap) /\
    sf_Offset f' + StreamFrame_DataLen f' = start + StreamFrame_DataLen f /\
    sf_FinBit f' = sf_FinBit f.
Proof.
  intros Hf Hlen Hend. cbv zeta. case_if.
  - destruct (frame_cut_front f (bi_Start gap - sf_Offset f) Hf) as (f' & E1 & E2 & Hf' & Ho & Hl & Hfb); [lia|].
    exists f'. rewrite E1. cbn [rbind]. rewrite E2. pose proof (fo_offset f' Hf'). pose proof (fo_end f' Hf').
    rewrite u64_small by (unfold MaxByteCount in *; pose proof (len_nonneg (sf_Data f'));
      unfold StreamFrame_DataLen in *; unfold_width; lia).
    split_and!; [by rewrite Ho|done|lia|lia|done].
  - exists f. split_and!; (done || lia).
Qed.

Lemma pushData_back f end_ stop :
  frame_ok f -> end_ = sf_Offset f + StreamFrame_DataLen f -> sf_Offset f < stop ->
  exists f', (if end_ >? stop
    then (end_ - (end_ - stop),
          let! d := sliceTo (sf_Data f) (u64 (StreamFrame_DataLen f - (end_ - stop))) in
          Ok (setFrame f (sf_Offset f) d))
    else (end_, Ok f)) = (Z.min end_ stop, Ok f') /\ frame_ok f' /\
    sf_Offset f' = sf_Offset f /\ StreamFrame_DataLen f' = Z.min end_ stop - sf_Offset f /\
    sf_FinBit f' = sf_FinBit f.
Proof.
  intros Hf -> Hstop. pose proof (fo_offset f Hf). pose proof (fo_end f Hf). case_if.
  - rewrite u64_small by (unfold MaxByteCount in *; unfold_width; lia).
    destruct (frame_cut_back f (StreamFrame_DataLen f - (sf_Offset f + StreamFrame_DataLen f - stop)) Hf)
      as (f' & E1 & E2 & Hf' & Ho & Hl & Hfb); [lia|].
    exists f'. rewrite E1. cbn [rbind]. rewrite E2. split_and!; [f_equal; lia|done|done|lia|done].
  - exists f. split_and!; [f_equal; lia|done|done|lia|done].
Qed.

Lemma place_queue s passed gap rest mid eg start end_ f f2 gs :
  sorter_ok s -> gaps s = rev passed ++ gap :: rest ->
  gaps_ok (hi passed (readPosition s)) (gap :: rest) -> passed_ok (readPosition s) passed ->
  endGapFound end_ true gap rest (queuedFrames s) eg mid ->
  bi_Start gap <= start < bi_End gap -> end_ = sf_Offset f + StreamFrame_DataLen f ->
  0 < StreamFrame_DataLen f -> sf_FinBit f2 = sf_FinBit f ->
  (missing (gaps s) (end_ - 1) -> start + StreamFrame_DataLen f2 = end_) ->
  push_queue s (mkStreamFrameSorter (<[start := f2]> (egQueue eg)) (readPosition s) gs) f.
Proof.
  intros Hs E Hg Hp Hfound Hstart -> Hlen0 Hfb Hend.
  assert (missing (gaps s) start) as Hmiss.
  { rewrite E. apply missing_zip. right. left. unfold bi_mem. lia. }
  pose proof Hg as [Hgap _]. pose proof (hi_lower _ _ Hp).
  constructor; cbn [queuedFrames].
  - unfold Head. cbn [queuedFrames readPosition]. intros Hh.
    destruct (decide (start = readPosition s)) as [-> | Hne]; [by rewrite lookup_insert_eq; eexists|].
    rewrite lookup_insert_ne by done. rewrite (eg_same _ _ _ _ _ _ _ Hfound); [done|lia].
  - unfold Head. cbn [queuedFrames readPosition]. intros h Hh Hlen.
    destruct (so_queue s Hs _ _ Hh) as (_ & _ & Hr).
    rewrite lookup_insert_ne by (intros ->; apply (Hr (readPosition s)); [lia|done]).
    rewrite (eg_same _ _ _ _ _ _ _ Hfound); [done|lia].
  - intros k f'. destruct (decide (k = start)) as [-> | Hk].
    + rewrite lookup_insert_eq. intros [= <-]. right. split; [done|].
      destruct (decide (start + StreamFrame_DataLen f2 = sf_Offset f + StreamFrame_DataLen f)); [by left|].
      right. split; [done|]. intros Hm. by apply Hend in Hm.
    + rewrite lookup_insert_ne by done. intros Hk'%(eg_sub _ _ _ _ _ _ _ Hfound). by left.
Qed.

Lemma pushData_ok s f :
  sorter_ok s -> frame_ok f -> 0 < StreamFrame_DataLen f ->
  (forall g, g ∈ gaps s -> sf_Offset f <> bi_End g) ->
  push_post s f (pushData s f).
Proof.
  intros Hs Hf Hlen Hnot. unfold pushData. pose proof (fo_offset f Hf).
  pose proof (fo_end f Hf). rewrite u64_small by (unfold MaxByteCount in *; unfold_width; lia).
  set (start := sf_Offset f) in *. set (end_ := start + StreamFrame_DataLen f) in *.
  pose proof (findGap_spec start end_ (readPosition s) [] (gaps s)) as Hfind.
  destruct (findGap start end_ [] (gaps s)) as [passed gap rest| |].
  - destruct Hfind as (E & Hp & Hg & Hpass & Hgs & Hge);
      [done|apply Hs|lia|lia|intros g []%elem_of_nil|].
    assert (start < bi_End gap) as Hlt.
    { assert (gap ∈ gaps s) as Hin by (simpl in E; rewrite E; set_solver).
      specialize (Hnot gap Hin). lia. }
    destruct (pushData_front f gap Hf Hlen Hgs) as (f1 & E1 & Hf1 & Ho1 & Hl1 & Hfb1).
    cbv zeta in E1. fold start in E1, Ho1, Hl1. rewrite E1. fold end_ in Hl1.
    destruct (findEndGap_spec end_ _ true gap rest (queuedFrames s) Hg Hgs ltac:(lia)) as [mid Hfound].
    set (eg := findEndGap _ _ _ _ _) in *. rewrite (eg_bug _ _ _ _ _ _ _ Hfound).
    pose proof Hg as [Hgap _].
    destruct (place_eg passed gap rest mid (queuedFrames s) eg (readPosition s)
      (sf_Offset f1) end_ Hg Hfound) as (_ & _ & _ & Hstop); [lia|lia|].
    destruct (pushData_back f1 end_ (bi_End (egGap eg)) Hf1) as (f2 & E2 & Hf2 & Ho2 & Hl2 & Hfb2); [lia|lia|].
    rewrite E2.
    rewrite (updateGaps_spec _ _ _ _ _ _ _ _ Hfound eq_refl) by lia.
    rewrite app_nil_l in E.
    destruct (place_ok s passed gap rest mid eg (sf_Offset f1) end_ f2) as [Hok Hmiss];
      [done|done|done|done|done|lia|lia|done|lia|lia|].
    set (gs := rev passed ++ _) in *. case_if; unfold push_post; cbn [fst snd]; [by right|].
    cbn [gaps readPosition]. rewrite Ho2. fold start. fold end_.
    assert (forall x, start <= x < end_ -> missing (gaps s) x ->
      Z.max start (bi_Start gap) <= x < Z.min end_ (bi_End (egGap eg))) as Hout.
    { intros x. rewrite E. by eapply place_outside; try done; lia. }
    split_and!; [exact Hok|done| |].
    { intros x. rewrite Hmiss. split; intros [Hm Hn]; (split; [done|]); [|lia].
      intros Hx. specialize (Hout x Hx Hm). lia. }
    eapply place_queue; try done; [lia|congruence|]. intros Hm. specialize (Hout (end_ - 1) ltac:(lia) Hm). lia.
  - left. split_and!; [done|done|]. apply Hfind; [done|apply Hs|lia|lia|intros g []%elem_of_nil].
  - destruct Hfind; [done|apply Hs|lia|lia|intros g []%elem_of_nil].
Qed.

(** A queue entry without data is no part of a chain. *)
Lemma chain_change q q' k0 a b :
  (forall f, q !! k0 = Some f -> StreamFrame_DataLen f <= 0) ->
  (forall k, k <> k0 -> q' !! k = q !! k) -> chain q a b -> chain q' a b.
Proof.
  intros Hk0 Hsame. induction 1 as [|a b f Hf Hlen Hc IH]; [constructor|].
  econstructor; [|exact Hlen|exact IH]. rewrite Hsame; [done|].
  intros ->. specialize (Hk0 f Hf). lia.
Qed.

Lemma chains_change q q' k0 a l :
  (forall f, q !! k0 = Some f -> StreamFrame_DataLen f <= 0) ->
  (forall k, k <> k0 -> q' !! k = q !! k) -> chains q a l -> chains q' a l.
Proof.
  intros Hk0 Hsame. revert a; induction l as [|g l IH]; intros a; [done|].
  intros [Hc Hcs]. split; [by eapply chain_change|by apply IH].
Qed.

Lemma queue_final s f :
  sorter_ok s -> queuedFrames s !! finalSize = Some f -> StreamFrame_DataLen f <= 0.
Proof.
  intros Hs Hf. destruct (so_queue s Hs _ _ Hf) as (E & Hok & _). pose proof (fo_end f Hok). lia.
Qed.

(** Behind each gap there is a queued frame. *)
Lemma chains_after q lo a l g :
  gaps_ok lo l -> chains q a l -> g ∈ l -> bi_End g < MaxByteCount -> is_Some (q !! bi_End g).
Proof.
  revert lo a; induction l as [|g0 l IH]; intros lo a; [by intros _ _ []%elem_of_nil|].
  intros [Hg0 Hl] [_ Hcs] Hin Hlt. apply elem_of_cons in Hin as [-> | Hin].
  - destruct l as [|g1 l]; [lia|]. destruct Hl as [Hg1 _], Hcs as [Hc _].
    inversion Hc as [|? ? f Hf]; subst; [lia|]. by eexists.
  - destruct l as [|g1 l]; [by apply elem_of_nil in Hin|]. by eapply IH.
Qed.

Lemma Push_ok s f :
  sorter_ok s -> frame_ok f -> (StreamFrame_DataLen f = 0 -> sf_FinBit f = true) ->
  push_post s f (Push s f).
Proof.
  intros Hs Hf Hfin. unfold Push. pose proof (len_nonneg (sf_Data f)) as Hnn.
  fold (StreamFrame_DataLen f) in Hnn. case_if.
  { rewrite (Hfin Heqb). unfold push_post; cbn [fst snd gaps readPosition].
    split_and!; [|done|intros x; intuition lia|].
    2: { constructor; cbn [queuedFrames].
      - unfold Head. cbn [queuedFrames readPosition]. intros Hh. apply lookup_insert_is_Some'. by right.
      - unfold Head. cbn [queuedFrames readPosition]. intros h Hh Hlen.
        rewrite lookup_insert_ne; [done|]. intros E. rewrite <- E, (fo_fin f Hf Heqb) in Hh.
        pose proof (queue_final s h Hs Hh). lia.
      - intros k f'. destruct (decide (k = sf_Offset f)) as [-> | Hk].
        + rewrite lookup_insert_eq. intros [= <-]. right. auto.
        + rewrite lookup_insert_ne by done. by left. }
    pose proof (fo_fin f Hf Heqb) as ->.
    constructor; cbn [queuedFrames gaps readPosition]; try apply Hs.
    - intros k f0. destruct (decide (k = finalSize)) as [-> | Hk].
      + rewrite lookup_insert_eq. intros [= <-]. split_and!; [by apply fo_fin|done|lia].
      + rewrite lookup_insert_ne by done. apply Hs.
    - intros k f0. destruct (decide (k = finalSize)) as [-> | Hk].
      + rewrite lookup_insert_eq. intros [= <-] _. by apply Hfin.
      + rewrite lookup_insert_ne by done. apply Hs.
    - eapply (chains_change (queuedFrames s) _ finalSize); [intros; by eapply queue_final| |apply Hs].
      intros k Hk. by rewrite lookup_insert_ne. }
  destruct (queuedFrames s !! sf_Offset f) as [old|] eqn:Eold.
  - destruct (so_queue s Hs _ _ Eold) as (Eo & Hold & Hrecv).
    pose proof (fo_end f Hf). pose proof (len_nonneg (sf_Data old)) as Hold0.
    fold (StreamFrame_DataLen old) in Hold0. case_if.
    { left. split_and!; [done|done|]. intros x Hx. apply Hrecv. lia. }
    destruct (frame_cut_front f (StreamFrame_DataLen old) Hf) as (f' & E1 & E2 & Hf' & Ho' & Hl' & Hfb'); [lia|].
    assert (StreamFrame_DataLen old <> 0) by (intros E0; pose proof (fo_fin old Hold E0); lia).
    assert (forall g, g ∈ gaps s -> sf_Offset f' <> bi_End g) as Hnot.
    { intros g Hg. rewrite Ho'. eapply received_not_gap_end; [exact Hrecv|lia|apply Hs|done]. }
    rewrite E1, E2. pose proof (pushData_ok s f' Hs Hf' ltac:(lia) Hnot) as Hpush.
    unfold push_post in *. rewrite Ho', Hl' in Hpush.
    destruct (pushData s f') as [s' [[]|e|]]; cbn [fst snd] in *; [| |done].
    + destruct Hpush as (H1 & H2 & H3 & [H4 H4' H5]). split_and!; [done|done| |].
      * intros x. rewrite H3. split; intros [Hm Hn]; (split; [done|]); [|lia].
        intros Hx. apply (Hrecv x); [lia|done].
      * constructor; [done|done|]. intros k f0 Hk%H5. rewrite Ho', Hl', Hfb' in Hk.
        replace (sf_Offset f + StreamFrame_DataLen old + (StreamFrame_DataLen f - StreamFrame_DataLen old))
          with (sf_Offset f + StreamFrame_DataLen f) in Hk by lia. intuition lia.
    + destruct Hpush as [(-> & -> & H3)|]; [|by right].
      left. split_and!; [done|done|]. intros x Hx.
      destruct (Z.lt_ge_cases x (sf_Offset f + StreamFrame_DataLen old)); [apply Hrecv; lia|].
      apply H3. lia.
  - apply pushData_ok; [done|done|lia|]. intros g Hg E. pose proof (fo_end f Hf).
    destruct (chains_after _ _ _ _ g (so_gaps s Hs) (so_chains s Hs) Hg) as [f0 Hf0]; [lia|].
    rewrite <- E in Hf0. congruence.
Qed.

Lemma Pop_ok s s' f :
  sorter_ok s -> Pop s = (s', Some f) ->
  sorter_ok s' /\ gaps s' = gaps s /\ sf_Offset f = readPosition s /\ frame_ok f /\
  readPosition s' = readPosition s + StreamFrame_DataLen f.
Proof.
  intros Hs. unfold Pop, Head. destruct (_ !! _) as [f0|] eqn:E; [|done]. intros [= <- <-].
  destruct (so_queue s Hs _ _ E) as (Eo & Hf & Hrecv). pose proof (so_pos s Hs).
  pose proof (fo_end f0 Hf). pose proof (len_nonneg (sf_Data f0)) as Hnn.
  fold (StreamFrame_DataLen f0) in Hnn. cbn [gaps readPosition].
  rewrite u64_small by (unfold MaxByteCount in *; unfold_width; lia). rewrite Eo.
  split; [|done]. pose proof (so_gaps s Hs) as Hg. pose proof (so_chains s Hs) as Hc.
  assert (chains (delete (readPosition s) (queuedFrames s))
    (readPosition s + StreamFrame_DataLen f0) (gaps s) /\
    gaps_ok (readPosition s + StreamFrame_DataLen f0) (gaps s)) as [Hc' Hg'].
  { destruct (Z.eq_dec (StreamFrame_DataLen f0) 0) as [E0|E0].
    { rewrite E0, Z.add_0_r. split; [|done].
      eapply (chains_change (queuedFrames s) _ (readPosition s)); [|by intros; rewrite lookup_delete_ne|done].
      intros f1 Hf1. rewrite E in Hf1. injection Hf1 as <-. lia. }
    destruct (gaps s) as [|g l]; [done|]. destruct Hc as [Hc Hcs], Hg as [Hg Hl].
    inversion Hc as [a E1 E2|a b f1 Hf1 Hlen1 Hc1]; subst.
    - destruct (Hrecv (readPosition s)); [lia|]. left. unfold bi_mem. lia.
    - rewrite E in Hf1. injection Hf1 as <-. pose proof (chain_le _ _ _ Hc1).
      split; [|split; [lia|done]]. split.
      + eapply chain_eq; [|exact Hc1]. intros k Hk. apply lookup_delete_ne. lia.
      + destruct l as [|g2 l]; [done|]. eapply chains_above; [exact Hl|lia| |exact Hcs].
        intros k Hk. apply lookup_delete_ne. lia. }
  constructor; cbn [queuedFrames readPosition gaps]; [lia|done| | |done];
    intros k f1 [_ Hk]%lookup_delete_Some; by eapply Hs.
Qed.

(** [sorter_reach s out P]: frames of the stream have been pushed, in any order,
    with overlaps and duplicates, with the bytes [P] in them, and [out] has been
    popped. *)
Inductive sorter_reach : streamFrameSorter -> list Z -> (Z -> Prop) -> Prop :=
| sreach_new : sorter_reach newStreamFrameSorter [] (fun _ => False)
| sreach_push s out P f s' r :
    sorter_reach s out P -> frame_ok f -> (StreamFrame_DataLen f = 0 -> sf_FinBit f = true) ->
    Push s f = (s', r) -> r = Ok tt \/ r = Err errDuplicateStreamData ->
    sorter_reach s' out
      (fun x => P x \/ sf_Offset f <= x < sf_Offset f + StreamFrame_DataLen f)
| sreach_pop s out P s' f :
    sorter_reach s out P -> Pop s = (s', Some f) -> sorter_reach s' (out ++ sf_Data f) P.

Lemma newStreamFrameSorter_ok : sorter_ok newStreamFrameSorter.
Proof.
  constructor; cbn [queuedFrames readPosition gaps newStreamFrameSorter]; [lia|done| | |].
  - intros k f. by rewrite lookup_empty.
  - intros k f. by rewrite lookup_empty.
  - split; [constructor|done].
Qed.

Lemma data_at_app k d1 d2 : data_at k d1 -> data_at (k + len d1) d2 -> data_at k (d1 ++ d2).
Proof.
  intros H1 H2 i b. rewrite lookup_app. destruct (d1 !! i) eqn:E; [intros [= <-]; by apply H1|].
  apply lookup_ge_None in E. intros Hb%H2. rewrite Hb. f_equal. unfold len. lia.
Qed.

Lemma sorter_reach_inv s out P :
  sorter_reach s out P ->
  sorter_ok s /\ data_at 0 out /\ len out = readPosition s /\
  forall x, missing (gaps s) x <-> 0 <= x < MaxByteCount /\ ~ P x.
Proof.
  induction 1 as [|s out P f s' r _ (Hs & Hd & Hl & Hm) Hf Hfin Hpush Hr
    |s out P s' f _ (Hs & Hd & Hl & Hm) Hpop].
  - split_and!; [apply newStreamFrameSorter_ok|by intros i b; rewrite lookup_nil|done|].
    intros x. unfold missing. cbn. rewrite Exists_cons, Exists_nil. unfold bi_mem. simpl. intuition.
  - pose proof (Push_ok s f Hs Hf Hfin) as Hpost. rewrite Hpush in Hpost.
    unfold push_post in Hpost. cbn [fst snd] in Hpost. destruct Hr as [-> | ->].
    + destruct Hpost as (Hs' & Hrp & Hm' & _). split_and!; [done|done|lia|].
      intros x. rewrite Hm', Hm. intuition.
    + destruct Hpost as [(_ & -> & Hcov)|[=]]. split_and!; [done|done|done|].
      intros x. pose proof (Hcov x) as Hc. rewrite Hm in *. intuition.
  - destruct (Pop_ok s s' f Hs Hpop) as (Hs' & Hg & Ho & Hf & Hrp).
    split_and!; [done| | |by rewrite Hg].
    + apply data_at_app; [done|]. rewrite Hl, Z.add_0_l, <- Ho. apply Hf.
    + rewrite len_app, Hl, Hrp. done.
Qed.

(** C4: whatever the order, overlap and duplication of the frames of a stream,
    the data popped from the sorter is a prefix of the stream; and when the head
    of the queue offers no more data, every byte up to the first one that has
    not arrived yet has been delivered. *)
Theorem sorter_reassembles s out P :
  sorter_reach s out P ->
  (forall i b, out !! i = Some b -> b = content (Z.of_nat i)) /\
  ((forall f, Head s = Some f -> StreamFrame_DataLen f = 0) ->
   forall n, n <= MaxByteCount -> (forall x, 0 <= x < n -> P x) -> n <= len out).
Proof.
  intros (Hs & Hd & Hl & Hm)%sorter_reach_inv. split; [exact Hd|].
  intros Hhead n Hn HP. rewrite Hl. unfold Head in Hhead.
  pose proof (so_gaps s Hs) as Hg. pose proof (so_chains s Hs) as Hc.
  destruct (gaps s) as [|g l] eqn:E; [done|]. destruct Hg as [Hg Hgl], Hc as [Hc _].
  assert (missing (g :: l) (bi_Start g)) as Hmiss by (left; unfold bi_mem; lia).
  pose proof (Hm (bi_Start g)) as [Hm1 _]. specialize (Hm1 Hmiss) as [Hx HnP].
  inversion Hc as [a Ea|a b f Hf Hlen]; subst.
  - destruct (Z.le_gt_cases n (bi_Start g)) as [|Hgt]; [lia|]. destruct HnP. apply HP. lia.
  - specialize (Hhead f Hf). lia.
Qed.

(** Pushing a frame of the stream never panics and never reaches the two
    internal errors of the sorter: it succeeds, and then its bytes are the ones
    that are no longer missing, or it is refused as a duplicate without any
    effect, and then none of its bytes was missing, or there are too many gaps. *)
Theorem sorter_push_result s out P f :
  sorter_reach s out P -> frame_ok f -> (StreamFrame_DataLen f = 0 -> sf_FinBit f = true) ->
  push_post s f (Push s f).
Proof. intros (Hs & _)%sorter_reach_inv Hf Hfin. by apply Push_ok. Qed.
End sorter.

(** ** Any peer

    A peer that sends contradictory frames loses data, but the gaps stay in order, so that
    [Push] neither panics nor returns one of its BUG errors. *)

(** Any frame is a frame of some stream. *)
Definition contentOf (f : StreamFrame) (x : Z) : Z := nth (Z.to_nat (x - sf_Offset f)) (sf_Data f) 0.

Lemma frame_ok_any f :
  0 <= sf_Offset f -> 0 < StreamFrame_DataLen f ->
  frame_ok (contentOf f) (sf_Offset f + StreamFrame_DataLen f) f.
Proof.
  intros Ho Hl. constructor; [done| |lia|lia]. intros i b Hb. unfold contentOf.
  replace (Z.to_nat _) with i by lia. symmetry. apply nth_lookup_Some with (d := 0) in Hb. done.
Qed.

(** A frame that starts where a gap ends *)
Lemma place_after_gap passed gap rest mid q eg end_ :
  passed_ok 0 passed -> gaps_ok (hi passed 0) (gap :: rest) -> endGapFound end_ true gap rest q eg mid ->
  bi_End gap < end_ ->
  let start := bi_End gap in let stop := Z.min end_ (bi_End (egGap eg)) in
  (mid = [] -> stop = start) /\
  gaps_ok 0 (rev passed ++ updateGaps start stop gap (egGap eg) (egIsGap eg) (egRemoved eg) ++ egRest eg).
Proof.
  intros Hp Hg Hf Hend. cbv zeta. pose proof Hg as [Hgap _].
  destruct (place_eg passed gap rest mid q eg 0 (bi_Start gap) end_ Hg Hf) as (_ & _ & _ & Hlt); [lia|lia|].
  destruct (place_tail passed gap rest mid q eg 0 (bi_Start gap) end_ Hg Hf) as [Ht Hne]; [lia|lia|].
  assert (gap = mkByteInterval (bi_Start gap) (bi_End gap)) as Egap by (by destruct gap).
  pose proof Hf as [_ El Ei Hs Hne' Hm He _ _]. destruct mid as [|m mid].
  - injection El as Eg Er. rewrite <- Eg, Z.min_r by lia. split; [done|].
    unfold updateGaps. rewrite Ei, (proj2 (Z.eqb_neq _ _)), Z.eqb_refl by lia.
    rewrite <- Egap, <- Er. by apply gaps_ok_zip.
  - split; [done|]. injection El as <- Er. unfold updateGaps. rewrite Ei, (proj2 (Z.eqb_neq _ _)) by lia.
    destruct He as [[Hlt' Hr]|(Hge & Hr & _)]; rewrite Hr.
    + rewrite Z.min_l, (proj2 (Z.eqb_neq _ _)) by lia.
      rewrite Z.min_l in Ht by lia. unfold cutGap in Ht. rewrite (proj2 (Z.ltb_lt _ _)) in Ht by lia.
      apply gaps_ok_zip; [done|]. split; [done|]. rewrite <- Egap. cbn [app]. cbn [app] in Ht. split; [lia|].
      eapply gaps_ok_weaken; [|exact Ht]. lia.
    + rewrite Z.min_r, Z.eqb_refl by lia. rewrite Z.min_r in Ht, Hne by lia. unfold cutGap in Ht, Hne.
      rewrite Z.ltb_irrefl in Ht, Hne. rewrite Ei. cbn [app negb] in *. apply gaps_ok_zip; [done|]. split; [done|].
      rewrite <- Egap. split; [lia|]. destruct (egRest eg); [done|]. eapply gaps_ok_weaken; [|exact Ht]. lia.
Qed.

Definition push_safe (r : streamFrameSorter * res unit) : Prop :=
  gaps_ok 0 (gaps r.1) /\
  (r.2 = Ok tt \/ r.2 = Err errDuplicateStreamData \/ r.2 = Err errTooManyGapsInReceivedStreamData).

Lemma pushData_safe s f :
  gaps_ok 0 (gaps s) -> 0 <= sf_Offset f -> 0 < StreamFrame_DataLen f ->
  sf_Offset f + StreamFrame_DataLen f < MaxByteCount -> push_safe (pushData s f).
Proof.
  intros Hs Ho Hlen Hmax. unfold pushData. pose proof (frame_ok_any f Ho Hlen) as Hf.
  rewrite u64_small by (unfold MaxByteCount in *; unfold_width; lia).
  set (start := sf_Offset f) in *. set (end_ := start + StreamFrame_DataLen f) in *.
  pose proof (findGap_spec start end_ 0 [] (gaps s)) as Hfind.
  destruct (findGap start end_ [] (gaps s)) as [passed gap rest| |];
    [|by split; auto|by destruct Hfind; [|done|lia|lia|intros g []%elem_of_nil]].
  destruct Hfind as (E & Hp & Hg & _ & Hgs & Hge); [done|done|lia|lia|intros g []%elem_of_nil|].
  pose proof Hg as [Hgap _].
  destruct (pushData_front _ _ Hmax f gap Hf Hlen Hgs) as (f1 & E1 & Hf1 & Ho1 & Hl1 & _).
  cbv zeta in E1. fold start in E1, Ho1, Hl1. rewrite E1. fold end_ in Hl1.
  destruct (findEndGap_spec end_ _ true gap rest (queuedFrames s) Hg Hgs ltac:(lia)) as [mid Hfound].
  set (eg := findEndGap _ _ _ _ _) in *. rewrite (eg_bug _ _ _ _ _ _ _ Hfound).
  pose proof (eg_ne _ _ _ _ _ _ _ Hfound) as Hne. pose proof (eg_start _ _ _ _ _ _ _ Hfound) as Hes.
  set (stop := Z.min end_ (bi_End (egGap eg))).
  assert (gaps_ok 0 (rev passed ++ updateGaps (sf_Offset f1) stop gap (egGap eg) (egIsGap eg) (egRemoved eg)
    ++ egRest eg) /\ sf_Offset f1 <= stop) as [Hgaps Hstop].
  { destruct (decide (start = bi_End gap)) as [Heq|Hneq].
    - destruct (place_after_gap passed gap rest mid (queuedFrames s) eg end_ Hp Hg Hfound ltac:(lia)) as [Hm Hok].
      replace (sf_Offset f1) with (bi_End gap) by lia. split; [done|].
      destruct mid as [|m mid]; [rewrite <- Hm by done; subst stop; lia|].
      pose proof (eg_mid _ _ _ _ _ _ _ Hfound) as Hmid. simpl in Hmid. lia.
    - destruct (place_eg passed gap rest mid (queuedFrames s) eg 0 (sf_Offset f1) end_ Hg Hfound)
        as (_ & _ & _ & Hlt); [lia|lia|].
      subst stop. rewrite (updateGaps_spec _ _ _ _ _ _ _ _ Hfound eq_refl) by lia.
      split; [|lia]. by eapply place_gaps_ok; try done; lia. }
  assert (exists f2, (if end_ >? bi_End (egGap eg)
    then (end_ - (end_ - bi_End (egGap eg)),
          let! d := sliceTo (sf_Data f1) (u64 (StreamFrame_DataLen f1 - (end_ - bi_End (egGap eg)))) in
          Ok (setFrame f1 (sf_Offset f1) d))
    else (end_, Ok f1)) = (stop, Ok f2)) as [f2 ->].
  { destruct (decide (sf_Offset f1 < bi_End (egGap eg))) as [Hlt|Hnlt].
    - destruct (pushData_back _ _ Hmax f1 end_ (bi_End (egGap eg)) Hf1 ltac:(lia) Hlt) as (f2 & E2 & _). by exists f2.
    - case_if; [|lia]. replace (StreamFrame_DataLen f1 - (end_ - bi_End (egGap eg))) with 0 by lia.
      unfold sliceTo. change (u64 0) with 0. rewrite (proj2 (Z.leb_le 0 (len _))) by apply len_nonneg.
      eexists. cbn [Z.leb Z.compare andb rbind]. f_equal. lia. }
  case_if; (split; [exact Hgaps|]); simpl; auto.
Qed.

Lemma Push_safe s f :
  gaps_ok 0 (gaps s) -> 0 <= sf_Offset f -> sf_Offset f + StreamFrame_DataLen f < MaxByteCount ->
  (sf_Data f <> [] \/ sf_FinBit f = true) -> push_safe (Push s f).
Proof.
  intros Hs Ho Hmax Hne. unfold Push. pose proof (len_nonneg (sf_Data f)) as Hnn.
  fold (StreamFrame_DataLen f) in Hnn. case_if.
  { destruct Hne as [Hne| ->]; [|split; simpl; auto]. destruct Hne. by apply len_zero. }
  destruct (queuedFrames s !! sf_Offset f) as [old|]; [|apply pushData_safe; (done || lia)].
  pose proof (len_nonneg (sf_Data old)) as Hold. fold (StreamFrame_DataLen old) in Hold.
  case_if; [split; simpl; auto|]. unfold sliceFrom.
  fold (StreamFrame_DataLen f). rewrite !(proj2 (Z.leb_le _ _)) by lia. cbn [andb].
  rewrite u64_small by (unfold MaxByteCount in *; unfold_width; lia).
  apply pushData_safe; [done|simpl; lia|..]; unfold StreamFrame_DataLen in *; simpl; rewrite len_drop by lia; lia.
Qed.

(** A frame whose end is cut off, because the data there has been received
    already, keeps its FIN: when the last two bytes of a stream of three bytes
    arrive first and the whole stream afterwards, the first frame that is popped
    carries one byte and says that the stream ends there. *)
Theorem sorter_cut_keeps_fin sid a b c :
  let f1 := mkStreamFrame sid true true 1 [b; c] in
  let f2 := mkStreamFrame sid true true 0 [a; b; c] in
  let s := (Push (Push newStreamFrameSorter f1).1 f2).1 in
  (Pop s).2 = Some (mkStreamFrame sid true true 0 [a]) /\
  Head (Pop s).1 = Some f1.
Proof. split; vm_compute; reflexivity. Qed.

(** A stream of three bytes that arrives in two overlapping frames *)
Definition sampleContent (x : Z) : Z := x + 10.
Definition sampleLast : StreamFrame := mkStreamFrame 5 false true 1 [11; 12].
Definition sampleFirst : StreamFrame := mkStreamFrame 5 false true 0 [10; 11].
Definition sampleSorter0 : streamFrameSorter := (Push newStreamFrameSorter sampleLast).1.
Definition sampleSorter : streamFrameSorter := (Push sampleSorter0 sampleFirst).1.

Lemma sample_frame_ok : frame_ok sampleContent 3 sampleLast /\ frame_ok sampleContent 3 sampleFirst.
Proof.
  split; (constructor; [done| |done|discriminate]);
    intros [|[|i]] b; vm_compute; congruence.
Qed.

Lemma sampleSorter_reach : exists P, sorter_reach sampleContent 3 sampleSorter [] P /\
  (forall x, 0 <= x < 3 -> P x).
Proof.
  exists (fun x => (False \/ 1 <= x < 1 + 2) \/ 0 <= x < 0 + 2). split.
  - apply (sreach_push sampleContent 3 sampleSorter0 [] (fun x => False \/ 1 <= x < 1 + 2) sampleFirst _ (Ok tt));
      [|apply sample_frame_ok|done|vm_compute; reflexivity|by left].
    apply (sreach_push sampleContent 3 newStreamFrameSorter [] _ sampleLast _ (Ok tt));
      [apply sreach_new|apply sample_frame_ok|done|vm_compute; reflexivity|by left].
  - cbn. intros x Hx. lia.
Qed.

Lemma sorter_reassembles_witness :
  exists P, (forall x, 0 <= x < 3 -> P x) /\
  (forall f, Head (Pop (Pop sampleSorter).1).1 = Some f -> StreamFrame_DataLen f = 0) /\
  (forall i b, [10; 11; 12] !! i = Some b -> b = sampleContent (Z.of_nat i)) /\
  (3 <= len [10; 11; 12]).
Proof.
  destruct sampleSorter_reach as (P & Hreach & HP). exists P.
  assert (sorter_reach sampleContent 3 (Pop (Pop sampleSorter).1).1 [10; 11; 12] P) as H.
  { apply (sreach_pop sampleContent 3 (Pop sampleSorter).1 [10] P _
      (mkStreamFrame 5 false true 1 [11; 12])); [|vm_compute; reflexivity].
    apply (sreach_pop sampleContent 3 sampleSorter [] P _ (mkStreamFrame 5 false true 0 [10]));
      [exact Hreach|vm_compute; reflexivity]. }
  assert (forall f, Head (Pop (Pop sampleSorter).1).1 = Some f -> StreamFrame_DataLen f = 0) as Hh
    by (vm_compute; discriminate).
  destruct (sorter_reassembles sampleContent 3 ltac:(done) _ _ _ H) as [H1 H2].
  split; [exact HP|]. split; [exact Hh|]. split; [exact H1|].
  apply (H2 Hh 3); [discriminate|exact HP].
Defined.

Lemma sorter_push_result_witness :
  push_post sampleContent 3 sampleSorter0 sampleFirst (Push sampleSorter0 sampleFirst).
Proof.
  apply (sorter_push_result sampleContent 3 ltac:(done) sampleSorter0 [] (fun x => False \/ 1 <= x < 1 + 2));
    [|apply sample_frame_ok|discriminate].
  apply (sreach_push sampleContent 3 newStreamFrameSorter [] _ sampleLast _ (Ok tt));
    [apply sreach_new|apply sample_frame_ok|done|vm_compute; reflexivity|by left].
Defined.
