(* ===== verification/Handshake.v ===== *)
(** * Package handshake: messages and connection parameters

    The key-value messages of the crypto handshake, and the negotiation of the
    connection parameters.  [ConnectionParametersManager] is the interface that
    flow control and the streams rely on; [connectionParametersManager]
    implements it. *)

From S2P Require Import Prelude Protocol Qerr Wire.

(** ** handshake/tags.go *)

Definition tag4 (a b c d : Z) : Z := a + Z.shiftl b 8 + Z.shiftl c 16 + Z.shiftl d 24.
Definition TagMSPC : Z := tag4 77 83 80 67.
Definition TagMIDS : Z := tag4 77 73 68 83.
Definition TagTCID : Z := tag4 84 67 73 68.
Definition TagICSL : Z := tag4 73 67 83 76.
Definition TagCFCW : Z := tag4 67 70 67 87.
Definition TagSFCW : Z := tag4 83 70 67 87.
Definition TagPRST : Z := tag4 80 82 83 84.
Definition TagRSEQ : Z := tag4 82 83 69 81.
Definition TagRNON : Z := tag4 82 78 79 78.
Definition TagCHLO : Z := tag4 67 72 76 79.
Definition TagREJ : Z := tag4 82 69 74 0.
Definition TagSCFG : Z := tag4 83 67 70 71.
Definition TagPAD : Z := tag4 80 65 68 0.
Definition TagSNI : Z := tag4 83 78 73 0.
Definition TagVER : Z := tag4 86 69 82 0.
Definition TagCCS : Z := tag4 67 67 83 0.
Definition TagCCRT : Z := tag4 67 67 82 84.
Definition TagUAID : Z := tag4 85 65 73 68.
Definition TagSVID : Z := tag4 83 86 73 68.
Definition TagPDMD : Z := tag4 80 68 77 68.
Definition TagSRBF : Z := tag4 83 82 66 70.
Definition TagNONP : Z := tag4 78 79 78 80.
Definition TagSCLS : Z := tag4 83 67 76 83.
Definition TagCSCT : Z := tag4 67 83 67 84.
Definition TagCOPT : Z := tag4 67 79 80 84.
Definition TagFHL2 : Z := tag4 70 72 76 50.
Definition TagSTK : Z := tag4 83 84 75 0.
Definition TagSNO : Z := tag4 83 78 79 0.
Definition TagPROF : Z := tag4 80 82 79 70.
Definition TagNONC : Z := tag4 78 79 78 67.
Definition TagXLCT : Z := tag4 88 76 67 84.
Definition TagSCID : Z := tag4 83 67 73 68.
Definition TagKEXS : Z := tag4 75 69 88 83.
Definition TagAEAD : Z := tag4 65 69 65 68.
Definition TagPUBS : Z := tag4 80 85 66 83.
Definition TagOBIT : Z := tag4 79 66 73 84.
Definition TagEXPY : Z := tag4 69 88 80 89.
Definition TagCERT : Z := 0xff545243.
Definition TagSHLO : Z := tag4 83 72 76 79.

(** ** handshake/handshake_message.go *)

Record HandshakeMessage : Type := mkHandshakeMessage {
  hm_Tag : Z;
  hm_Data : gmap Z (list Z);
}.

(** The loop over the index: 8 bytes per pair, the tag and the end of its value *)
Fixpoint parsePairs (n : nat) (index : list Z) (dataStart : Z) (r : list Z)
    (m : gmap Z (list Z)) : res (gmap Z (list Z) * list Z) :=
  match n with
  | O => Ok (m, r)
  | S n =>
      let tag := le_value (take 4 index) in
      let dataEnd := le_value (take 4 (drop 4 index)) in
      let dataLen := u32 (dataEnd - dataStart) in
      if dataLen >? CryptoParameterMaxLength
      then Err (QuicError CryptoInvalidValueLength (Msg "value too long"))
      else
        let! (data, r) := ReadFull r dataLen in
        parsePairs n (drop 8 index) dataEnd r (<[tag := data]> m)
  end.

Definition ParseHandshakeMessage (r : list Z) : res (HandshakeMessage * list Z) :=
  let! (slice4, r) := ReadFull r 4 in
  let messageTag := le_value slice4 in
  let! (slice4, r) := ReadFull r 4 in
  let nPairs := le_value slice4 in
  if nPairs >? CryptoMaxParams then Err (ErrorCodeErr CryptoTooManyEntries)
  else
    let! (index, r) := ReadFull r (nPairs * 8) in
    let! (resultMap, r) := parsePairs (Z.to_nat nPairs) index 0 r ∅ in
    Ok (mkHandshakeMessage messageTag resultMap, r).

Definition getTagsSorted (h : HandshakeMessage) : list Z :=
  merge_sort Z.le (map fst (map_to_list (hm_Data h))).

(** The loop of [Write]: the bytes of the index and of the values *)
Fixpoint writePairs (data : gmap Z (list Z)) (tags : list Z) (offset : Z) : list Z * list Z :=
  match tags with
  | [] => ([], [])
  | t :: tags =>
      let v := default [] (data !! t) in
      let offset := u32 (offset + u32 (len v)) in
      let '(index, values) := writePairs data tags offset in
      (le_bytes 4 t ++ le_bytes 4 offset ++ index, v ++ values)
  end.

Definition HandshakeMessage_Write (h : HandshakeMessage) (b : list Z) : list Z :=
  let b := WriteUint32 b (u32 (hm_Tag h)) in
  let b := WriteUint16 b (u16 (Z.of_nat (size (hm_Data h)))) in
  let b := WriteUint16 b 0 in
  let '(index, values) := writePairs (hm_Data h) (getTagsSorted h) 0 in
  b ++ index ++ values.

(** ** Round trip *)

Record HandshakeMessage_wf (h : HandshakeMessage) : Prop := {
  hm_wf_tag : is_u32 (hm_Tag h);
  hm_wf_size : Z.of_nat (size (hm_Data h)) <= CryptoMaxParams;
  hm_wf_data : forall t v, hm_Data h !! t = Some v ->
    is_u32 t /\ bytes_ok v /\ len v <= CryptoParameterMaxLength;
}.

Lemma getTagsSorted_perm h : getTagsSorted h ≡ₚ map fst (map_to_list (hm_Data h)).
Proof. apply merge_sort_Permutation. Qed.

Lemma getTagsSorted_in h t : t ∈ getTagsSorted h <-> is_Some (hm_Data h !! t).
Proof.
  rewrite getTagsSorted_perm, list_elem_of_fmap. split.
  - intros ([t' v] & -> & Hin). apply elem_of_map_to_list in Hin. by eexists.
  - intros [v Hv]. exists (t, v). split; [done|]. by apply elem_of_map_to_list.
Qed.

Lemma getTagsSorted_NoDup h : NoDup (getTagsSorted h).
Proof. rewrite getTagsSorted_perm. apply NoDup_fst_map_to_list. Qed.

Lemma getTagsSorted_length h : length (getTagsSorted h) = size (hm_Data h).
Proof. rewrite getTagsSorted_perm, length_map. apply length_map_to_list. Qed.

Lemma ReadFull_le n i r : ReadFull (le_bytes n i ++ r) (Z.of_nat n) = Ok (le_bytes n i, r).
Proof. rewrite <- (len_le_bytes n i). apply ReadFull_app. Qed.

(** Reading the pairs written from [data] inserts them one after the other. *)
Lemma parsePairs_write data tags off r m :
  (forall t, t ∈ tags -> is_u32 t /\ exists v, data !! t = Some v /\ len v <= CryptoParameterMaxLength) ->
  0 <= off -> off + len tags * CryptoParameterMaxLength < 2 ^ 32 ->
  let '(index, values) := writePairs data tags off in
  len index = 8 * len tags /\
  parsePairs (length tags) index off (values ++ r) m =
    Ok (foldl (fun m t => <[t := default [] (data !! t)]> m) m tags, r).
Proof.
  intros Htags. revert off m; induction tags as [|t tags IH]; intros off m Hoff Hbound; [done|].
  cbn [writePairs]. destruct (Htags t ltac:(left)) as (Ht & v & Hv & Hlen).
  rewrite Hv. change (default [] (Some v)) with v. rewrite len_cons in Hbound.
  pose proof (len_nonneg v). pose proof (len_nonneg tags). unfold CryptoParameterMaxLength in *.
  rewrite (u32_small (len v)), (u32_small (off + len v)) by (unfold_width; lia).
  specialize (IH ltac:(intros; apply Htags; by right) (off + len v) (<[t := v]> m) ltac:(lia) ltac:(lia)).
  destruct (writePairs data tags (off + len v)) as [index values]. destruct IH as [IH1 IH2].
  split; [autorewrite with quic_len; lia|]. cbn [length parsePairs].
  rewrite (take_app_length' (le_bytes 4 t)), (drop_app_length' (le_bytes 4 t))
    by by rewrite length_le_bytes.
  rewrite (take_app_length' (le_bytes 4 (off + len v))) by by rewrite length_le_bytes.
  rewrite !le_value_bytes. calc. unfold is_u32 in Ht. rewrite (Z.mod_small t), (Z.mod_small (off + len v)) by lia.
  replace (off + len v - off) with (len v) by lia. rewrite u32_small by (unfold_width; lia).
  unfold CryptoParameterMaxLength. rewrite Z.gtb_ltb, (proj2 (Z.ltb_ge _ _)) by lia.
  rewrite <- app_assoc, ReadFull_app. cbn [rbind].
  rewrite app_assoc, (drop_app_length' (le_bytes 4 t ++ le_bytes 4 (off + len v)))
    by by rewrite length_app, !length_le_bytes.
  rewrite IH2. cbn [foldl]. by rewrite Hv.
Qed.

Lemma foldl_insert_lookup (data : gmap Z (list Z)) tags (m : gmap Z (list Z)) k :
  (forall t, t ∈ tags -> is_Some (data !! t)) ->
  foldl (fun m t => <[t := default [] (data !! t)]> m) m tags !! k =
    if decide (k ∈ tags) then data !! k else m !! k.
Proof.
  revert m; induction tags as [|t tags IH]; intros m Hin; cbn [foldl].
  { rewrite decide_False; [done|]. by intros ?%elem_of_nil. }
  rewrite IH by (intros; apply Hin; by right).
  destruct (Hin t ltac:(left)) as [v Hv].
  destruct (decide (k ∈ tags)) as [Hk|Hk].
  - by rewrite decide_True by by right.
  - destruct (decide (k = t)) as [-> | Hne].
    + rewrite decide_True by left. by rewrite lookup_insert_eq, Hv.
    + rewrite decide_False by (intros [?|?]%elem_of_cons; done). by rewrite lookup_insert_ne.
Qed.

Lemma message_roundtrip h rest :
  HandshakeMessage_wf h ->
  ParseHandshakeMessage (HandshakeMessage_Write h [] ++ rest) = Ok (h, rest).
Proof.
  intros [Htag Hsize Hdata]. unfold HandshakeMessage_Write.
  pose proof (parsePairs_write (hm_Data h) (getTagsSorted h) 0 rest ∅) as Hpairs.
  assert (len (getTagsSorted h) = Z.of_nat (size (hm_Data h))) as Hlen
    by (unfold len; by rewrite getTagsSorted_length).
  destruct (writePairs (hm_Data h) (getTagsSorted h) 0) as [index values].
  destruct Hpairs as [Hindex Hparse]; [|lia|unfold CryptoMaxParams, CryptoParameterMaxLength in *; lia|].
  { intros t [v Hv]%getTagsSorted_in. destruct (Hdata t v Hv) as (H1 & H2 & H3). eauto. }
  autorewrite with quic_write. rewrite app_nil_l, <- !app_assoc.
  unfold ParseHandshakeMessage. rewrite (ReadFull_le 4). cbn [rbind].
  rewrite le_value_bytes. calc. unfold is_u32 in Htag. rewrite Z.mod_small by lia.
  set (n := Z.of_nat (size (hm_Data h))) in *. unfold CryptoMaxParams in Hsize.
  assert (le_bytes 2 n ++ le_bytes 2 0 = le_bytes 4 n) as E.
  { cbn [le_bytes]. rewrite !Z.shiftr_div_pow2 by lia. rewrite !(Z.div_small n) by lia. done. }
  rewrite (app_assoc (le_bytes 2 n)), E, (ReadFull_le 4). cbn [rbind].
  rewrite le_value_bytes. calc. rewrite Z.mod_small by lia.
  unfold CryptoMaxParams. rewrite Z.gtb_ltb, (proj2 (Z.ltb_ge _ _)) by lia.
  replace (n * 8) with (len index) by lia. rewrite ReadFull_app. cbn [rbind].
  replace (Z.to_nat n) with (length (getTagsSorted h)) by (rewrite getTagsSorted_length; lia).
  rewrite Hparse. cbn [rbind]. do 2 f_equal. destruct h as [tag data]. cbn [hm_Tag hm_Data] in *. f_equal.
  apply map_eq. intros k. rewrite foldl_insert_lookup by (intros t; apply getTagsSorted_in).
  case_decide as Hk; [done|]. rewrite lookup_empty. symmetry. apply eq_None_not_Some.
  intros Hs. by apply Hk, getTagsSorted_in.
Qed.

(** A handshake message with at most 128 parameters of at most 4000 bytes
    each is recovered from the bytes that [Write] produces. *)
Theorem handshake_message_roundtrip h rest :
  HandshakeMessage_wf h ->
  ParseHandshakeMessage (HandshakeMessage_Write h [] ++ rest) = Ok (h, rest).
Proof. apply message_roundtrip. Qed.

Definition sampleMessage : HandshakeMessage :=
  mkHandshakeMessage TagPRST {[TagRNON := [1; 2; 3]; TagRSEQ := []]}.

Lemma handshake_message_roundtrip_witness :
  ParseHandshakeMessage (HandshakeMessage_Write sampleMessage [] ++ [9]) = Ok (sampleMessage, [9]).
Proof.
  apply (handshake_message_roundtrip sampleMessage [9]). constructor.
  - split; [discriminate|reflexivity].
  - vm_compute. discriminate.
  - intros t v. unfold sampleMessage. cbn [hm_Data].
    rewrite lookup_insert_Some. intros [[<- <-]|[_ Hs]].
    + split_and!; [split; [discriminate|reflexivity]| |discriminate].
      repeat constructor; (discriminate || lia).
    + apply lookup_singleton_Some in Hs as [<- <-].
      split_and!; [split; [discriminate|reflexivity]|constructor|discriminate].
Defined.

(** ** The interface of the connection parameters

    What the rest of the connection uses of the negotiated parameters, with the
    bounds that it relies on *)
Class ConnectionParametersManager (A : Type) : Type := {
  GetSendStreamFlowControlWindow : A -> Z;
  GetSendConnectionFlowControlWindow : A -> Z;
  GetReceiveStreamFlowControlWindow : A -> Z;
  GetMaxReceiveStreamFlowControlWindow : A -> Z;
  GetReceiveConnectionFlowControlWindow : A -> Z;
  GetMaxReceiveConnectionFlowControlWindow : A -> Z;
  GetMaxOutgoingStreams : A -> Z;
  GetMaxIncomingStreams : A -> Z;
  GetIdleConnectionStateLifetime : A -> Z;
  TruncateConnectionID : A -> bool;
}.

Class ConnectionParametersLaws (A : Type) `{ConnectionParametersManager A} (ok : A -> Prop) : Prop := {
  send_window_u32 h : ok h ->
    is_u32 (GetSendStreamFlowControlWindow h) /\ is_u32 (GetSendConnectionFlowControlWindow h);
  receive_window_bounds h : ok h ->
    0 < GetReceiveStreamFlowControlWindow h <= GetMaxReceiveStreamFlowControlWindow h /\
    0 < GetReceiveConnectionFlowControlWindow h <= GetMaxReceiveConnectionFlowControlWindow h /\
    GetMaxReceiveStreamFlowControlWindow h < 2 ^ 32 /\
    GetMaxReceiveConnectionFlowControlWindow h < 2 ^ 32;
  max_streams_u32 h : ok h ->
    is_u32 (GetMaxOutgoingStreams h) /\ is_u32 (GetMaxIncomingStreams h);
}.

(** ** handshake/connection_parameters_manager.go *)

Record connectionParametersManager : Type := mkConnectionParametersManager {
  cpm_version : Z;
  cpm_perspective : Perspective;
  flowControlNegotiated : bool;
  truncateConnectionID : bool;
  maxStreamsPerConnection : Z;
  maxIncomingDynamicStreamsPerConnection : Z;
  idleConnectionStateLifetime : Z;
  sendStreamFlowControlWindow : Z;
  sendConnectionFlowControlWindow : Z;
  receiveStreamFlowControlWindow : Z;
  receiveConnectionFlowControlWindow : Z;
}.

Definition ErrMalformedTag : goerror :=
  QuicError InvalidCryptoMessageParameter (Msg "malformed Tag value").
Definition ErrFlowControlRenegotiationNotSupported : goerror :=
  QuicError InvalidCryptoMessageParameter
    (Msg "renegotiation of flow control parameters not supported").

(** handshake/crypto_setup_server.go *)
Definition ErrHOLExperiment : goerror :=
  QuicError InvalidCryptoMessageParameter (Msg "HOL experiment. Unsupported").

Definition NewConnectionParamatersManager (pers : Perspective) (v : Z)
    : connectionParametersManager :=
  mkConnectionParametersManager v pers false false
    MaxStreamsPerConnection MaxStreamsPerConnection
    (if is_server pers then DefaultIdleTimeout else MaxIdleTimeoutClient)
    InitialStreamFlowControlWindow InitialConnectionFlowControlWindow
    ReceiveStreamFlowControlWindow ReceiveConnectionFlowControlWindow.

Definition negotiateMaxStreamsPerConnection (clientValue : Z) : Z :=
  MinUint32 clientValue MaxStreamsPerConnection.
Definition negotiateMaxIncomingDynamicStreamsPerConnection (clientValue : Z) : Z :=
  MinUint32 clientValue MaxIncomingDynamicStreamsPerConnection.
Definition negotiateIdleConnectionStateLifetime (h : connectionParametersManager)
    (clientValue : Z) : Z :=
  if is_server (cpm_perspective h) then MinDuration clientValue MaxIdleTimeoutServer
  else MinDuration clientValue MaxIdleTimeoutClient.

(** Field updates *)
Definition set_truncate (h : connectionParametersManager) (x : bool) : connectionParametersManager :=
  mkConnectionParametersManager (cpm_version h) (cpm_perspective h) (flowControlNegotiated h) x
    (maxStreamsPerConnection h) (maxIncomingDynamicStreamsPerConnection h)
    (idleConnectionStateLifetime h) (sendStreamFlowControlWindow h)
    (sendConnectionFlowControlWindow h) (receiveStreamFlowControlWindow h)
    (receiveConnectionFlowControlWindow h).
Definition set_maxStreams (h : connectionParametersManager) (x : Z) : connectionParametersManager :=
  mkConnectionParametersManager (cpm_version h) (cpm_perspective h) (flowControlNegotiated h)
    (truncateConnectionID h) x (maxIncomingDynamicStreamsPerConnection h)
    (idleConnectionStateLifetime h) (sendStreamFlowControlWindow h)
    (sendConnectionFlowControlWindow h) (receiveStreamFlowControlWindow h)
    (receiveConnectionFlowControlWindow h).
Definition set_maxIncoming (h : connectionParametersManager) (x : Z) : connectionParametersManager :=
  mkConnectionParametersManager (cpm_version h) (cpm_perspective h) (flowControlNegotiated h)
    (truncateConnectionID h) (maxStreamsPerConnection h) x
    (idleConnectionStateLifetime h) (sendStreamFlowControlWindow h)
    (sendConnectionFlowControlWindow h) (receiveStreamFlowControlWindow h)
    (receiveConnectionFlowControlWindow h).
Definition set_idle (h : connectionParametersManager) (x : Z) : connectionParametersManager :=
  mkConnectionParametersManager (cpm_version h) (cpm_perspective h) (flowControlNegotiated h)
    (truncateConnectionID h) (maxStreamsPerConnection h)
    (maxIncomingDynamicStreamsPerConnection h) x (sendStreamFlowControlWindow h)
    (sendConnectionFlowControlWindow h) (receiveStreamFlowControlWindow h)
    (receiveConnectionFlowControlWindow h).
Definition set_sendStream (h : connectionParametersManager) (x : Z) : connectionParametersManager :=
  mkConnectionParametersManager (cpm_version h) (cpm_perspective h) (flowControlNegotiated h)
    (truncateConnectionID h) (maxStreamsPerConnection h)
    (maxIncomingDynamicStreamsPerConnection h) (idleConnectionStateLifetime h) x
    (sendConnectionFlowControlWindow h) (receiveStreamFlowControlWindow h)
    (receiveConnectionFlowControlWindow h).
Definition set_sendConnection (h : connectionParametersManager) (x : Z)
    : connectionParametersManager :=
  mkConnectionParametersManager (cpm_version h) (cpm_perspective h) (flowControlNegotiated h)
    (truncateConnectionID h) (maxStreamsPerConnection h)
    (maxIncomingDynamicStreamsPerConnection h) (idleConnectionStateLifetime h)
    (sendStreamFlowControlWindow h) x (receiveStreamFlowControlWindow h)
    (receiveConnectionFlowControlWindow h).
Definition set_negotiated (h : connectionParametersManager) : connectionParametersManager :=
  mkConnectionParametersManager (cpm_version h) (cpm_perspective h) true
    (truncateConnectionID h) (maxStreamsPerConnection h)
    (maxIncomingDynamicStreamsPerConnection h) (idleConnectionStateLifetime h)
    (sendStreamFlowControlWindow h) (sendConnectionFlowControlWindow h)
    (receiveStreamFlowControlWindow h) (receiveConnectionFlowControlWindow h).

(** A step of [SetFromMap]: it runs when the steps before it have not returned. *)
Definition andThen {S} (r : S * res unit) (k : S -> S * res unit) : S * res unit :=
  match r with
  | (h, Ok _) => k h
  | (h, Err e) => (h, Err e)
  | (h, Panic) => (h, Panic)
  end.

(** [if value, ok := params[tag]; ok && guard { v := ReadUint32(value) ... }] *)
Definition ifParam (params : gmap Z (list Z)) (tag : Z) (guard : bool)
    (h : connectionParametersManager)
    (set : Z -> connectionParametersManager * res unit) : connectionParametersManager * res unit :=
  match params !! tag with
  | Some value =>
      if guard then
        match ReadUint32 value with
        | Ok (v, _) => set v
        | _ => (h, Err ErrMalformedTag)
        end
      else (h, Ok tt)
  | None => (h, Ok tt)
  end.

Definition SetFromMap (h : connectionParametersManager) (params : gmap Z (list Z))
    : connectionParametersManager * res unit :=
  andThen (ifParam params TagTCID (is_server (cpm_perspective h)) h
             (fun v => (set_truncate h (v =? 0), Ok tt))) (fun h =>
  andThen (ifParam params TagMSPC true h
             (fun v => (set_maxStreams h (negotiateMaxStreamsPerConnection v), Ok tt))) (fun h =>
  andThen (ifParam params TagMIDS true h
             (fun v => (set_maxIncoming h (negotiateMaxIncomingDynamicStreamsPerConnection v), Ok tt))) (fun h =>
  andThen (ifParam params TagICSL true h
             (fun v => (set_idle h (negotiateIdleConnectionStateLifetime h (i64 (v * Second))), Ok tt))) (fun h =>
  andThen (if bool_decide (is_Some (params !! TagSFCW)) && flowControlNegotiated h
           then (h, Err ErrFlowControlRenegotiationNotSupported)
           else ifParam params TagSFCW true h (fun v => (set_sendStream h v, Ok tt))) (fun h =>
  andThen (if bool_decide (is_Some (params !! TagCFCW)) && flowControlNegotiated h
           then (h, Err ErrFlowControlRenegotiationNotSupported)
           else ifParam params TagCFCW true h (fun v => (set_sendConnection h v, Ok tt))) (fun h =>
  if bool_decide (is_Some (params !! TagCFCW)) || bool_decide (is_Some (params !! TagSFCW))
  then (set_negotiated h, Ok tt) else (h, Ok tt))))))).

(** [float64(maxStreams)*1.1], rounded down; 110 for 100 streams *)
Definition maxStreamsWithMultiplier (maxStreams : Z) : Z := u32 (maxStreams * 11 / 10).

#[export] Instance connectionParametersManager_getters
    : ConnectionParametersManager connectionParametersManager := {
  GetSendStreamFlowControlWindow := sendStreamFlowControlWindow;
  GetSendConnectionFlowControlWindow := sendConnectionFlowControlWindow;
  GetReceiveStreamFlowControlWindow := receiveStreamFlowControlWindow;
  GetMaxReceiveStreamFlowControlWindow h :=
    if is_server (cpm_perspective h) then MaxReceiveStreamFlowControlWindowServer
    else MaxReceiveStreamFlowControlWindowClient;
  GetReceiveConnectionFlowControlWindow := receiveConnectionFlowControlWindow;
  GetMaxReceiveConnectionFlowControlWindow h :=
    if is_server (cpm_perspective h) then MaxReceiveConnectionFlowControlWindowServer
    else MaxReceiveConnectionFlowControlWindowClient;
  GetMaxOutgoingStreams := maxIncomingDynamicStreamsPerConnection;
  GetMaxIncomingStreams _ :=
    MaxUint32 (u32 MaxIncomingDynamicStreamsPerConnection + MaxStreamsMinimumIncrement)
      (maxStreamsWithMultiplier MaxIncomingDynamicStreamsPerConnection);
  GetIdleConnectionStateLifetime := idleConnectionStateLifetime;
  TruncateConnectionID h :=
    if is_client (cpm_perspective h) then false else truncateConnectionID h;
}.

Definition GetHelloMap (h : connectionParametersManager) : gmap Z (list Z) :=
  let sfcw := WriteUint32 [] (u32 (GetReceiveStreamFlowControlWindow h)) in
  let cfcw := WriteUint32 [] (u32 (GetReceiveConnectionFlowControlWindow h)) in
  let mspc := WriteUint32 [] (maxStreamsPerConnection h) in
  let mids := WriteUint32 [] MaxIncomingDynamicStreamsPerConnection in
  let icsl := WriteUint32 [] (u32 (Z.quot (GetIdleConnectionStateLifetime h) Second)) in
  <[TagICSL := icsl]> (<[TagMSPC := mspc]> (<[TagMIDS := mids]>
    (<[TagCFCW := cfcw]> (<[TagSFCW := sfcw]> ∅)))).

(** ** Bounds of the negotiated parameters *)

Record params_ok (h : connectionParametersManager) : Prop := {
  po_streams : 0 <= maxStreamsPerConnection h <= MaxStreamsPerConnection;
  po_incoming : 0 <= maxIncomingDynamicStreamsPerConnection h <= MaxIncomingDynamicStreamsPerConnection;
  po_idle : 0 <= idleConnectionStateLifetime h <=
    (if is_server (cpm_perspective h) then MaxIdleTimeoutServer else MaxIdleTimeoutClient);
  po_sendStream : is_u32 (sendStreamFlowControlWindow h);
  po_sendConnection : is_u32 (sendConnectionFlowControlWindow h);
  po_recvStream : receiveStreamFlowControlWindow h = ReceiveStreamFlowControlWindow;
  po_recvConnection : receiveConnectionFlowControlWindow h = ReceiveConnectionFlowControlWindow;
}.

Lemma NewConnectionParamatersManager_ok pers v : params_ok (NewConnectionParamatersManager pers v).
Proof. destruct pers; constructor; vm_compute; split; (reflexivity || discriminate). Qed.

#[export] Instance connectionParametersManager_laws
    : ConnectionParametersLaws connectionParametersManager params_ok.
Proof.
  constructor; intros h Hok; destruct Hok; simpl.
  - done.
  - rewrite po_recvStream0, po_recvConnection0.
    destruct (cpm_perspective h); vm_compute; split_and!; (reflexivity || discriminate).
  - split; [|vm_compute; split; (reflexivity || discriminate)].
    unfold is_u32, MaxIncomingDynamicStreamsPerConnection in *. lia.
Qed.

Lemma andThen_ind {S} (P : S -> Prop) (r : S * res unit) k :
  P r.1 -> (forall h, P h -> P (k h).1) -> P (andThen r k).1.
Proof. destruct r as [h [| |]]; simpl; auto. Qed.

Lemma ifParam_ind (P : connectionParametersManager -> Prop) params tag guard h set :
  (forall t v, params !! t = Some v -> bytes_ok v) ->
  P h -> (forall v, is_u32 v -> P (set v).1) -> P (ifParam params tag guard h set).1.
Proof.
  intros Hbytes Hh Hset. unfold ifParam. destruct (params !! tag) as [value|] eqn:E; [|done].
  destruct guard; [|done]. pose proof (safe_ReadUint32 value (Hbytes _ _ E)) as Hr.
  destruct (ReadUint32 value) as [[v r]|e|]; [|done..]. apply Hset. apply Hr.
Qed.

(** Every update of [SetFromMap] keeps the bounds. *)
Definition ok_as (p : Perspective) (h : connectionParametersManager) : Prop :=
  params_ok h /\ cpm_perspective h = p.

Lemma setters_ok p h v :
  ok_as p h -> is_u32 v ->
  ok_as p (set_truncate h (v =? 0)) /\
  ok_as p (set_maxStreams h (negotiateMaxStreamsPerConnection v)) /\
  ok_as p (set_maxIncoming h (negotiateMaxIncomingDynamicStreamsPerConnection v)) /\
  ok_as p (set_idle h (negotiateIdleConnectionStateLifetime h (i64 (v * Second)))) /\
  ok_as p (set_sendStream h v) /\ ok_as p (set_sendConnection h v) /\ ok_as p (set_negotiated h).
Proof.
  intros [[] E] Hv. unfold is_u32 in *.
  split_and!; (split; [constructor|exact E]); simpl; try done.
  - unfold negotiateMaxStreamsPerConnection. rewrite MinUint32_min.
    unfold MaxStreamsPerConnection in *. lia.
  - unfold negotiateMaxIncomingDynamicStreamsPerConnection. rewrite MinUint32_min.
    unfold MaxIncomingDynamicStreamsPerConnection in *. lia.
  - unfold negotiateIdleConnectionStateLifetime. rewrite !MinDuration_min, i64_small
      by (unfold Second; lia).
    unfold MaxIdleTimeoutServer, MaxIdleTimeoutClient, Minute, Second in *.
    destruct (is_server _); lia.
Qed.

Lemma andThen_no_panic {S} (r : S * res unit) k :
  r.2 <> Panic -> (forall h, (k h).2 <> Panic) -> (andThen r k).2 <> Panic.
Proof. destruct r as [h [| |]]; simpl; auto. Qed.

Lemma ifParam_no_panic params tag guard h set :
  (forall v, (set v).2 <> Panic) -> (ifParam params tag guard h set).2 <> Panic.
Proof.
  intros Hs. unfold ifParam. destruct (params !! tag) as [value|]; [|done].
  destruct guard; [|done]. destruct (ReadUint32 value) as [[v r]|e|]; [apply Hs|done..].
Qed.

(** An error of a parameter is returned, whatever it is. *)
Lemma SetFromMap_no_panic h params : (SetFromMap h params).2 <> Panic.
Proof.
  unfold SetFromMap.
  do 4 (apply andThen_no_panic; [by apply ifParam_no_panic|]; clear h; intros h).
  do 2 (apply andThen_no_panic; [destruct (_ && _); [done|]; by apply ifParam_no_panic|]; clear h; intros h).
  by destruct (_ || _).
Qed.

(** Whatever the peer sends, the negotiated parameters stay within their
    bounds: at most the own maximum number of streams and idle timeout, 32-bit
    send windows, and unchanged receive windows, also when [SetFromMap] stops
    half-way with an error. *)
Theorem set_from_map_bounds h params :
  params_ok h -> (forall t v, params !! t = Some v -> bytes_ok v) ->
  params_ok (SetFromMap h params).1 /\
  cpm_perspective (SetFromMap h params).1 = cpm_perspective h.
Proof.
  intros Hok Hbytes. assert (ok_as (cpm_perspective h) h) as Hh by by split.
  fold (ok_as (cpm_perspective h) (SetFromMap h params).1). revert Hh.
  generalize (cpm_perspective h) at 1 2. intros p Hh. clear Hok. unfold SetFromMap.
  do 4 (apply andThen_ind; [apply ifParam_ind; [done|done|]; intros; by apply setters_ok|];
        clear h Hh; intros h Hh).
  do 2 (apply andThen_ind; [destruct (_ && _); [done|];
          apply ifParam_ind; [done|done|]; intros; by apply setters_ok|];
        clear h Hh; intros h Hh).
  destruct (_ || _); [by apply (setters_ok p h 0)|done].
Qed.

Lemma set_from_map_bounds_witness :
  params_ok (SetFromMap (NewConnectionParamatersManager PerspectiveServer Version36)
    {[TagMSPC := [0; 0; 0; 1]]}).1 /\
  cpm_perspective (SetFromMap (NewConnectionParamatersManager PerspectiveServer Version36)
    {[TagMSPC := [0; 0; 0; 1]]}).1 = PerspectiveServer.
Proof.
  apply (set_from_map_bounds (NewConnectionParamatersManager PerspectiveServer Version36)).
  - apply NewConnectionParamatersManager_ok.
  - intros t v Hv. apply lookup_singleton_Some in Hv as [_ <-].
    repeat constructor; (discriminate || lia).
Defined.

Lemma ifParam_le (params : gmap Z (list Z)) tag h set v :
  params !! tag = Some (le_bytes 4 v) -> ifParam params tag true h set = set (u32 v).
Proof.
  intros E. unfold ifParam. rewrite E. rewrite <- (app_nil_r (le_bytes 4 v)). by rewrite ReadUint32_le.
Qed.

(** The tags of the hello are different. *)
Lemma GetHelloMap_lookup b :
  let m := GetHelloMap b in
  m !! TagTCID = None /\ m !! TagMSPC = Some (le_bytes 4 (maxStreamsPerConnection b)) /\
  m !! TagMIDS = Some (le_bytes 4 MaxIncomingDynamicStreamsPerConnection) /\
  m !! TagICSL = Some (le_bytes 4 (Z.quot (idleConnectionStateLifetime b) Second)) /\
  m !! TagSFCW = Some (le_bytes 4 (receiveStreamFlowControlWindow b)) /\
  m !! TagCFCW = Some (le_bytes 4 (receiveConnectionFlowControlWindow b)).
Proof.
  unfold GetHelloMap. cbv zeta. autorewrite with quic_write. rewrite !app_nil_l.
  split_and!; repeat (rewrite lookup_insert_eq || rewrite lookup_insert_ne by discriminate);
    reflexivity.
Qed.

(** After one side has processed the other side's hello, its send windows
    are the receive windows of the peer, its limit on outgoing streams is what
    the peer accepts, and its idle timeout is not longer than the peer's; a
    second hello is refused. *)
Theorem hello_exchange a b :
  params_ok a -> params_ok b -> flowControlNegotiated a = false ->
  exists a', SetFromMap a (GetHelloMap b) = (a', Ok tt) /\
    GetSendStreamFlowControlWindow a' = GetReceiveStreamFlowControlWindow b /\
    GetSendConnectionFlowControlWindow a' = GetReceiveConnectionFlowControlWindow b /\
    GetMaxOutgoingStreams a' = MaxIncomingDynamicStreamsPerConnection /\
    GetIdleConnectionStateLifetime a' <= GetIdleConnectionStateLifetime b /\
    (SetFromMap a' (GetHelloMap b)).2 = Err ErrFlowControlRenegotiationNotSupported.
Proof.
  intros Ha Hb Hneg. destruct (GetHelloMap_lookup b) as (H1 & H2 & H3 & H4 & H5 & H6).
  set (m := GetHelloMap b) in *.
  assert (forall h, SetFromMap h m =
    let h := set_idle (set_maxIncoming (set_maxStreams h
      (negotiateMaxStreamsPerConnection (u32 (maxStreamsPerConnection b))))
      (negotiateMaxIncomingDynamicStreamsPerConnection (u32 MaxIncomingDynamicStreamsPerConnection)))
      (negotiateIdleConnectionStateLifetime h
        (i64 (u32 (Z.quot (idleConnectionStateLifetime b) Second) * Second))) in
    if flowControlNegotiated h then (h, Err ErrFlowControlRenegotiationNotSupported)
    else (set_negotiated (set_sendConnection (set_sendStream h
            (u32 (receiveStreamFlowControlWindow b)))
            (u32 (receiveConnectionFlowControlWindow b))), Ok tt)) as Hset.
  { intros h. unfold SetFromMap. unfold ifParam at 1. rewrite H1. cbn [andThen].
    rewrite (ifParam_le _ _ _ _ _ H2). cbn [andThen].
    rewrite (ifParam_le _ _ _ _ _ H3). cbn [andThen].
    rewrite (ifParam_le _ _ _ _ _ H4). cbn [andThen].
    rewrite H5, H6, !bool_decide_true by eauto. cbn [andb orb flowControlNegotiated set_idle
      set_maxIncoming set_maxStreams]. destruct (flowControlNegotiated h) eqn:En; cbn [andThen]; [done|].
    rewrite (ifParam_le _ _ _ _ _ H5). cbn [andThen]. cbn [flowControlNegotiated set_sendStream].
    cbn [flowControlNegotiated set_idle set_maxIncoming set_maxStreams]. rewrite En.
    rewrite (ifParam_le _ _ _ _ _ H6). done. }
  rewrite Hset. cbv zeta. cbn [flowControlNegotiated set_idle set_maxIncoming set_maxStreams].
  rewrite Hneg. eexists. split; [reflexivity|]. destruct Ha, Hb. cbn -[SetFromMap].
  rewrite po_recvStream1, po_recvConnection1. split_and!; [done|done|done| |].
  - assert (0 <= Z.quot (idleConnectionStateLifetime b) Second /\
      Z.quot (idleConnectionStateLifetime b) Second * Second <= idleConnectionStateLifetime b) as [Hq1 Hq2].
    { unfold Second. rewrite Z.quot_div_nonneg by lia. Z.to_euclidean_division_equations; lia. }
    unfold MaxIdleTimeoutServer, MaxIdleTimeoutClient, Minute in *.
    unfold negotiateIdleConnectionStateLifetime. unfold Second in *.
    rewrite !MinDuration_min, u32_small, i64_small
      by (unfold_width; destruct (is_server (cpm_perspective b)); lia).
    destruct (is_server _); lia.
  - by rewrite Hset.
Qed.

Lemma hello_exchange_witness :
  exists a', SetFromMap (NewConnectionParamatersManager PerspectiveClient Version36)
      (GetHelloMap (NewConnectionParamatersManager PerspectiveServer Version36)) = (a', Ok tt) /\
    GetSendStreamFlowControlWindow a' = ReceiveStreamFlowControlWindow.
Proof.
  destruct (hello_exchange (NewConnectionParamatersManager PerspectiveClient Version36)
    (NewConnectionParamatersManager PerspectiveServer Version36)) as (a' & H & Hs & _);
    [apply NewConnectionParamatersManager_ok|apply NewConnectionParamatersManager_ok|reflexivity|].
  exists a'. split; [exact H|]. exact Hs.
Defined.
