(* ===== verification/PublicHeader.v ===== *)
(** * public_header.go and public_reset.go

    The unencrypted header of a packet, and the public reset packet. *)

From S2P Require Import Prelude Protocol Qerr Wire Handshake.

(** ** public_header.go *)

Record PublicHeader : Type := mkPublicHeader {
  ph_Raw : list Z;
  ph_ConnectionID : Z;
  ph_VersionFlag : bool;
  ph_ResetFlag : bool;
  ph_TruncateConnectionID : bool;
  ph_PacketNumberLen : Z;
  ph_PacketNumber : Z;
  ph_VersionNumber : Z;
  ph_SupportedVersions : list Z;
  ph_DiversificationNonce : list Z;
}.

Definition errPacketNumberLenNotSet : goerror := ErrNew "PublicHeader: PacketNumberLen not set".
Definition errResetAndVersionFlagSet : goerror :=
  ErrNew "PublicHeader: Reset Flag and Version Flag should not be set at the same time".
Definition errReceivedTruncatedConnectionID : goerror :=
  QuicError InvalidPacketHeader
    (Msg "receiving packets with truncated ConnectionID is not supported").
Definition errInvalidConnectionID : goerror :=
  QuicError InvalidPacketHeader (Msg "connection ID cannot be 0").
Definition errGetLengthNotForVersionNegotiation : goerror :=
  ErrNew "PublicHeader: GetLength cannot be called for VersionNegotiation packets".
Definition errInvalidNonceLength : goerror := ErrNew "invalid diversification nonce length".

(** [hasPacketNumber] on the two flags *)
Definition hasPacketNumber (versionFlag resetFlag : bool) (packetSentBy : Perspective) : bool :=
  if resetFlag then false
  else if versionFlag && is_server packetSentBy then false
  else true.

Definition validPacketNumberLen (l : Z) : bool :=
  (l =? PacketNumberLen1) || (l =? PacketNumberLen2) || (l =? PacketNumberLen4)
  || (l =? PacketNumberLen6).

Definition publicFlagByte (h : PublicHeader) (pers : Perspective) : Z :=
  let b := 0x00 in
  let b := if ph_VersionFlag h then Z.lor b 0x01 else b in
  let b := if ph_ResetFlag h then Z.lor b 0x02 else b in
  let b := if negb (ph_TruncateConnectionID h) then Z.lor b 0x08 else b in
  let b := if len (ph_DiversificationNonce h) >? 0 then Z.lor b 0x04 else b in
  if hasPacketNumber (ph_VersionFlag h) (ph_ResetFlag h) pers then
    match ph_PacketNumberLen h with
    | 1 => Z.lor b 0x00
    | 2 => Z.lor b 0x10
    | 4 => Z.lor b 0x20
    | 6 => Z.lor b 0x30
    | _ => b
    end
  else b.

Definition PublicHeader_Write (h : PublicHeader) (pers : Perspective) (b : list Z)
    : list Z * res unit :=
  if ph_VersionFlag h && ph_ResetFlag h then (b, Err errResetAndVersionFlagSet)
  else if (len (ph_DiversificationNonce h) >? 0) && negb (len (ph_DiversificationNonce h) =? 32)
  then (b, Err errInvalidNonceLength)
  else
    let b := WriteByte b (publicFlagByte h pers) in
    let b := if negb (ph_TruncateConnectionID h) then WriteUint64 b (ph_ConnectionID h) else b in
    let b :=
      if ph_VersionFlag h && is_client pers
      then WriteUint32 b (VersionNumberToTag (ph_VersionNumber h)) else b in
    let b :=
      if len (ph_DiversificationNonce h) >? 0 then b ++ ph_DiversificationNonce h else b in
    if negb (hasPacketNumber (ph_VersionFlag h) (ph_ResetFlag h) pers) then (b, Ok tt)
    else if negb (validPacketNumberLen (ph_PacketNumberLen h))
    then (b, Err errPacketNumberLenNotSet)
    else
      match ph_PacketNumberLen h with
      | 1 => (WriteByte b (u8 (ph_PacketNumber h)), Ok tt)
      | 2 => (WriteUint16 b (u16 (ph_PacketNumber h)), Ok tt)
      | 4 => (WriteUint32 b (u32 (ph_PacketNumber h)), Ok tt)
      | 6 => (WriteUint48 b (ph_PacketNumber h), Ok tt)
      | _ => (b, Err errPacketNumberLenNotSet)
      end.

(** The loop over the versions of a version negotiation packet: until the reader
    returns an error.  [fuel] bounds the number of versions; each takes four
    bytes of [b]. *)
Fixpoint readVersions (fuel : nat) (b : list Z) (acc : list Z) : list Z * list Z :=
  match fuel with
  | O => (acc, b)
  | S fuel =>
      match ReadUint32 b with
      | Ok (versionTag, b) => readVersions fuel b (acc ++ [VersionTagToNumber versionTag])
      | _ => (acc, [])
      end
  end.

Definition ParsePublicHeader (b : list Z) (packetSentBy : Perspective)
    : res (PublicHeader * list Z) :=
  let! (flags, b) := ReadByte b in
  let versionFlag := Z.land flags 0x01 >? 0 in
  let resetFlag := Z.land flags 0x02 >? 0 in
  let truncate := Z.land flags 0x08 =? 0 in
  if truncate && is_client packetSentBy then Err errReceivedTruncatedConnectionID
  else
    let hasPN := hasPacketNumber versionFlag resetFlag packetSentBy in
    let packetNumberLen :=
      if hasPN then
        match Z.land flags 0x30 with
        | 0x30 => PacketNumberLen6
        | 0x20 => PacketNumberLen4
        | 0x10 => PacketNumberLen2
        | 0x00 => PacketNumberLen1
        | _ => 0
        end
      else 0 in
    let! (connID, b) := if negb truncate then ReadUint64 b else Ok (0, b) in
    if negb truncate && (connID =? 0) then Err errInvalidConnectionID
    else
      let! (nonce, b) :=
        if is_server packetSentBy && (Z.land flags 0x04 >? 0)
           && (negb versionFlag && negb resetFlag)
        then
          let '(_, nonce, b, err) := Read b 32 in
          match err with Some e => Err e | None => Ok (nonce, b) end
        else Ok ([], b) in
      let! (version, versions, b) :=
        if negb resetFlag && versionFlag then
          if is_client packetSentBy then
            let! (versionTag, b) := ReadUint32 b in
            Ok (VersionTagToNumber versionTag, [], b)
          else if negb (len b mod 4 =? 0) then Err (ErrorCodeErr InvalidVersionNegotiationPacket)
          else
            let '(versions, b) := readVersions (length b) b [] in
            Ok (0, versions, b)
        else Ok (0, [], b) in
      let! (packetNumber, b) :=
        if hasPN then ReadUintN b packetNumberLen else Ok (0, b) in
      Ok (mkPublicHeader [] connID versionFlag resetFlag truncate packetNumberLen packetNumber
            version versions nonce, b).

Definition GetLength (h : PublicHeader) (pers : Perspective) : res Z :=
  if ph_VersionFlag h && ph_ResetFlag h then Err errResetAndVersionFlagSet
  else if ph_VersionFlag h && is_server pers then Err errGetLengthNotForVersionNegotiation
  else
    let length := 1 in
    let hasPN := hasPacketNumber (ph_VersionFlag h) (ph_ResetFlag h) pers in
    if hasPN && negb (validPacketNumberLen (ph_PacketNumberLen h))
    then Err errPacketNumberLenNotSet
    else
      let length := if hasPN then length + ph_PacketNumberLen h else length in
      let length := if negb (ph_TruncateConnectionID h) then length + 8 else length in
      let length := if ph_VersionFlag h then length + 4 else length in
      Ok (length + len (ph_DiversificationNonce h)).

(** ** public_reset.go *)

Record publicReset : Type := mkPublicReset {
  rejectedPacketNumber : Z;
  pr_nonce : Z;
}.

Definition writePublicReset (connectionID rejected nonceProof : Z) : list Z :=
  let b := WriteByte [] 0x0a in
  let b := WriteUint64 b connectionID in
  let b := WriteUint32 b TagPRST in
  let b := WriteUint32 b 2 in
  let b := WriteUint32 b TagRNON in
  let b := WriteUint32 b 8 in
  let b := WriteUint32 b TagRSEQ in
  let b := WriteUint32 b 16 in
  let b := WriteUint64 b nonceProof in
  WriteUint64 b rejected.

Definition parsePublicReset (r : list Z) : res publicReset :=
  let! (msg, _) := ParseHandshakeMessage r in
  if negb (hm_Tag msg =? TagPRST) then Err (ErrNew "wrong public reset tag")
  else
    match hm_Data msg !! TagRSEQ with
    | None => Err (ErrNew "RSEQ missing")
    | Some rseq =>
        if negb (len rseq =? 8) then Err (ErrNew "invalid RSEQ tag")
        else
          match hm_Data msg !! TagRNON with
          | None => Err (ErrNew "RNON missing")
          | Some rnon =>
              if negb (len rnon =? 8) then Err (ErrNew "invalid RNON tag")
              else Ok (mkPublicReset (le_value rseq) (le_value rnon))
          end
    end.

(** ** server.go: the version negotiation packet *)

Definition composeVersionNegotiation (connectionID : Z) (versions : list Z) : list Z :=
  let responsePublicHeader :=
    mkPublicHeader [] connectionID true false false 0 1 0 [] [] in
  let '(fullReply, _) := PublicHeader_Write responsePublicHeader PerspectiveServer [] in
  fold_left (fun b v => WriteUint32 b (VersionNumberToTag v)) versions fullReply.

(** ** Round trips *)

(** The headers of regular packets and of public resets. *)
Record header_ok (pers : Perspective) (h : PublicHeader) : Prop := {
  hok_flags : ph_VersionFlag h && ph_ResetFlag h = false;
  hok_version : ph_VersionFlag h = true -> pers = PerspectiveClient /\ 0 <= ph_VersionNumber h < 1000;
  hok_truncate : ph_TruncateConnectionID h = true -> pers = PerspectiveServer;
  hok_connID : ph_TruncateConnectionID h = false -> 0 < ph_ConnectionID h < 2 ^ 64;
  hok_nonce :
    ph_DiversificationNonce h = [] \/
    len (ph_DiversificationNonce h) = 32 /\ pers = PerspectiveServer /\ ph_ResetFlag h = false;
  hok_pnLen : ph_ResetFlag h = false -> In (ph_PacketNumberLen h) [1; 2; 4; 6];
}.

(** What the receiver sees of a header: the packet number is truncated, the
    fields that are not on the wire have their zero values. *)
Definition header_received (pers : Perspective) (h : PublicHeader) : PublicHeader :=
  let hasPN := hasPacketNumber (ph_VersionFlag h) (ph_ResetFlag h) pers in
  mkPublicHeader [] (if ph_TruncateConnectionID h then 0 else ph_ConnectionID h)
    (ph_VersionFlag h) (ph_ResetFlag h) (ph_TruncateConnectionID h)
    (if hasPN then ph_PacketNumberLen h else 0)
    (if hasPN then ph_PacketNumber h mod 2 ^ (8 * ph_PacketNumberLen h) else 0)
    (if ph_VersionFlag h then ph_VersionNumber h else 0) [] (ph_DiversificationNonce h).

Definition header_bytes (pers : Perspective) (h : PublicHeader) : list Z :=
  publicFlagByte h pers ::
  (if ph_TruncateConnectionID h then [] else le_bytes 8 (ph_ConnectionID h)) ++
  (if ph_VersionFlag h then le_bytes 4 (VersionNumberToTag (ph_VersionNumber h)) else []) ++
  ph_DiversificationNonce h ++
  (if hasPacketNumber (ph_VersionFlag h) (ph_ResetFlag h) pers
   then le_bytes (Z.to_nat (ph_PacketNumberLen h)) (ph_PacketNumber h) else []).

Lemma Read_app l r : l <> [] -> Read (l ++ r) (len l) = (len l, l, r, None).
Proof.
  intros Hl. unfold Read. destruct (l ++ r) as [|x y] eqn:E; [by destruct l|]. rewrite <- E. clear E.
  rewrite len_app, Z.min_l by (pose proof (len_nonneg r); lia).
  rewrite Z.sub_diag. change (Z.to_nat 0) with 0%nat. simpl. rewrite app_nil_r.
  unfold len. rewrite Nat2Z.id. by rewrite take_app_length, drop_app_length.
Qed.

(** The nonce of a well-formed header is absent or has 32 bytes. *)
Lemma hok_nonce_len pers h :
  header_ok pers h ->
  (ph_DiversificationNonce h = [] /\ (len (ph_DiversificationNonce h) >? 0) = false) \/
  (len (ph_DiversificationNonce h) = 32 /\ pers = PerspectiveServer /\
   ph_ResetFlag h = false /\ ph_VersionFlag h = false).
Proof.
  intros [Hf Hv _ _ [E|(El & -> & Hr)] _]; [left; by rewrite E|right].
  destruct (ph_VersionFlag h); [by destruct (Hv eq_refl)|done].
Qed.

Ltac public_header_cases h :=
  let Hn := fresh "Hn" in
  match goal with Hok : header_ok ?pers h |- _ =>
    pose proof (hok_nonce_len _ _ Hok) as Hn;
    destruct Hok as [Hf Hv Ht Hc _ Hl];
    destruct h as [raw cid [] [] [] pnl pn ver vers nonce], pers;
    cbn [ph_Raw ph_ConnectionID ph_VersionFlag ph_ResetFlag ph_TruncateConnectionID
         ph_PacketNumberLen ph_PacketNumber ph_VersionNumber ph_SupportedVersions
         ph_DiversificationNonce andb] in *;
    try discriminate; try (by destruct (Hv eq_refl)); try (by specialize (Ht eq_refl))
  end.

(** Evaluates the tests on constants. *)
Ltac calc_tests :=
  repeat match goal with
  | |- context [?a >? ?b] =>
      let t := eval vm_compute in (a >? b) in
      lazymatch t with true => idtac | false => idtac end; change (a >? b) with t
  | |- context [?a =? ?b] =>
      let t := eval vm_compute in (a =? b) in
      lazymatch t with true => idtac | false => idtac end; change (a =? b) with t
  | |- context [validPacketNumberLen ?a] =>
      let t := eval vm_compute in (validPacketNumberLen a) in
      lazymatch t with true => idtac | false => idtac end; change (validPacketNumberLen a) with t
  end.

(** Evaluates the bit operations on constants. *)
Ltac calc_flags :=
  repeat match goal with
  | |- context [Z.lor ?a ?b] =>
      let t := eval vm_compute in (Z.lor a b) in change (Z.lor a b) with t
  | |- context [Z.land ?a ?b] =>
      let t := eval vm_compute in (Z.land a b) in change (Z.land a b) with t
  end.

Lemma PublicHeader_Write_bytes pers h b :
  header_ok pers h -> PublicHeader_Write h pers b = (b ++ header_bytes pers h, Ok tt).
Proof.
  intros Hok. unfold PublicHeader_Write, header_bytes.
  public_header_cases h;
    (destruct Hn as [[-> _]|(E & ? & ? & ?)]; [|try discriminate; rewrite E]);
    cbn [hasPacketNumber andb negb is_client is_server];
    try (destruct (Hl eq_refl) as [<-|[<-|[<-|[<-|[]]]]]);
    calc_tests; cbn [andb negb]; calc_nat;
    rewrite ?WriteUint64_le, ?WriteUint32_le, ?WriteUint16_le, ?WriteUint48_le, ?WriteByte_u8,
      ?le_bytes_u16, ?le_bytes_u32 by lia; unfold WriteByte;
    by rewrite <- ?app_assoc, ?app_nil_r.
Qed.

Lemma ParsePublicHeader_bytes pers h r :
  header_ok pers h ->
  ParsePublicHeader (header_bytes pers h ++ r) pers = Ok (header_received pers h, r).
Proof.
  intros Hok. unfold ParsePublicHeader, header_received, header_bytes, publicFlagByte.
  public_header_cases h;
    (destruct Hn as [[-> _]|(E & ? & ? & ?)]; [|try discriminate; rewrite E]);
    cbn [hasPacketNumber andb negb is_client is_server];
    try (destruct (Hl eq_refl) as [<-|[<-|[<-|[<-|[]]]]]);
    calc_tests; calc_flags;
    cbn [app ReadByte rbind hasPacketNumber andb negb is_client is_server]; cbv zeta;
    calc_flags; calc_tests; cbn [hasPacketNumber andb negb is_client is_server]; cbv iota beta.
  all: try specialize (Hc eq_refl); try destruct (Hv eq_refl) as [_ Hver]; clear Hv Ht Hf Hl.
  all: rewrite <- ?app_assoc, ?ReadUint64_le; cbn [rbind]; rewrite ?u64_small by (unfold_width; lia).
  all: try (rewrite (proj2 (Z.eqb_neq cid 0)) by lia).
  all: try (rewrite <- E, Read_app by (intros ->; discriminate)); cbn [rbind].
  all: rewrite ?ReadUint32_le; cbn [rbind].
  all: rewrite ?(ReadUintN_le 1), ?(ReadUintN_le 2), ?(ReadUintN_le 4), ?(ReadUintN_le 6) by lia.
  all: cbn [rbind]; try done.
  all: destruct (version_tag_roundtrip ver Hver) as [Htag Hrt].
  all: rewrite u32_small by done; by rewrite Hrt.
Qed.

Lemma readVersions_tags versions fuel acc :
  Forall (fun v => 0 <= v < 1000) versions -> (length versions < fuel)%nat ->
  readVersions fuel (concat (map (fun v => le_bytes 4 (VersionNumberToTag v)) versions)) acc =
  (acc ++ versions, []).
Proof.
  intros Hv. revert fuel acc. induction Hv as [|v versions Hv _ IH]; intros [|fuel] acc Hf;
    simpl in Hf; [lia|by rewrite app_nil_r|lia|].
  cbn [map concat readVersions]. destruct (version_tag_roundtrip v Hv) as [Htag Hrt].
  rewrite ReadUint32_le, u32_small, Hrt by done. rewrite IH by lia. by rewrite <- app_assoc.
Qed.

Lemma write_versions versions b :
  fold_left (fun b v => WriteUint32 b (VersionNumberToTag v)) versions b =
  b ++ concat (map (fun v => le_bytes 4 (VersionNumberToTag v)) versions).
Proof.
  revert b. induction versions as [|v versions IH]; intros b; simpl; [by rewrite app_nil_r|].
  rewrite IH, WriteUint32_le. by rewrite <- app_assoc.
Qed.

Lemma GetLength_bytes pers h :
  header_ok pers h ->
  GetLength h pers = Ok (len (header_bytes pers h)) /\ 1 <= len (header_bytes pers h) <= 51.
Proof.
  intros Hok. unfold GetLength, header_bytes. public_header_cases h;
    (destruct Hn as [[-> _]|(E & ? & ? & ?)]; [|try discriminate]);
    cbn [hasPacketNumber andb negb is_client is_server];
    try (destruct (Hl eq_refl) as [<-|[<-|[<-|[<-|[]]]]]);
    calc_tests; rewrite ?len_cons, ?len_app, ?len_le_bytes, ?E;
    change (@len Z []) with 0; (split; [f_equal|]; lia).
Qed.

Lemma len_version_tags versions :
  len (concat (map (fun v => le_bytes 4 (VersionNumberToTag v)) versions)) = 4 * len versions.
Proof.
  induction versions as [|v versions IH]; [done|]. cbn [map concat].
  rewrite len_app, IH, len_le_bytes, len_cons. lia.
Qed.

(** C36: a regular header (or the header of a public reset) survives the wire:
    what [Write] appends has exactly the length [GetLength] announces, and
    [ParsePublicHeader] gives back every field, with the packet number reduced to
    the bytes it was sent in, and leaves the payload untouched. *)
Theorem public_header_roundtrip pers h b payload :
  header_ok pers h ->
  exists bs, PublicHeader_Write h pers b = (b ++ bs, Ok tt) /\
    GetLength h pers = Ok (len bs) /\
    ParsePublicHeader (bs ++ payload) pers = Ok (header_received pers h, payload).
Proof.
  intros Hok. exists (header_bytes pers h).
  split; [by apply PublicHeader_Write_bytes|].
  split; [by apply GetLength_bytes|by apply ParsePublicHeader_bytes].
Qed.

Definition sampleHeader : PublicHeader :=
  mkPublicHeader [] 0x1337 true false false 2 0x123456 37 [] [].

Lemma public_header_roundtrip_witness :
  exists bs, PublicHeader_Write sampleHeader PerspectiveClient [] = ([] ++ bs, Ok tt) /\
    GetLength sampleHeader PerspectiveClient = Ok (len bs) /\
    ParsePublicHeader (bs ++ [9]) PerspectiveClient =
      Ok (header_received PerspectiveClient sampleHeader, [9]).
Proof.
  apply (public_header_roundtrip PerspectiveClient sampleHeader [] [9]).
  constructor; cbn; intros; (lia || split_and! || auto); (done || lia).
Defined.

(** The version negotiation packet the server composes carries the version
    flag, the connection ID and exactly the server's versions in its order of
    preference, and no packet number. *)
Theorem version_negotiation_roundtrip connectionID versions :
  0 < connectionID < 2 ^ 64 -> Forall (fun v => 0 <= v < 1000) versions ->
  ParsePublicHeader (composeVersionNegotiation connectionID versions) PerspectiveServer =
  Ok (mkPublicHeader [] connectionID true false false 0 0 0 versions [], []).
Proof.
  intros Hc Hv. unfold composeVersionNegotiation.
  change (PublicHeader_Write _ _ _) with (WriteUint64 [9] connectionID, @Ok unit tt).
  cbv iota beta. rewrite write_versions, WriteUint64_le. unfold ParsePublicHeader.
  cbn [app ReadByte rbind]. cbv zeta.
  calc_flags. calc_tests. cbn [hasPacketNumber andb negb is_client is_server]. cbv iota beta.
  rewrite ReadUint64_le. cbn [rbind]. rewrite u64_small by (unfold_width; lia).
  rewrite (proj2 (Z.eqb_neq connectionID 0)) by lia.
  pose proof (len_version_tags versions) as Hlen.
  rewrite (Z.mul_comm 4) in Hlen. rewrite Hlen, Z_mod_mult. cbn [Z.eqb negb].
  destruct versions as [|v versions]; [done|]. rewrite readVersions_tags; [done|done|].
  unfold len in Hlen. simpl in *. lia.
Qed.

Lemma version_negotiation_roundtrip_witness :
  ParsePublicHeader (composeVersionNegotiation 0x1337 SupportedVersions) PerspectiveServer =
  Ok (mkPublicHeader [] 0x1337 true false false 0 0 0 SupportedVersions [], []).
Proof.
  apply (version_negotiation_roundtrip 0x1337 SupportedVersions); [lia|].
  repeat constructor; vm_compute; discriminate.
Defined.

(** A public reset survives the wire: the header of the packet announces a
    reset for the connection, and [parsePublicReset] on what follows gives back the
    rejected packet number and the nonce proof. *)
Theorem public_reset_roundtrip connectionID rejected nonceProof :
  0 < connectionID < 2 ^ 64 -> is_u64 rejected -> is_u64 nonceProof ->
  exists r,
    ParsePublicHeader (writePublicReset connectionID rejected nonceProof) PerspectiveServer =
      Ok (mkPublicHeader [] connectionID false true false 0 0 0 [] [], r) /\
    parsePublicReset r = Ok (mkPublicReset rejected nonceProof).
Proof.
  intros Hc Hr Hn. unfold writePublicReset.
  rewrite !WriteUint64_le, !WriteUint32_le. unfold WriteByte. rewrite <- !app_assoc. cbn [app].
  eexists. split.
  - unfold ParsePublicHeader. cbn [app ReadByte rbind]. cbv zeta.
    calc_flags. calc_tests. cbn [hasPacketNumber andb negb is_client is_server]. cbv iota beta.
    rewrite ReadUint64_le. cbn [rbind]. rewrite u64_small by (unfold_width; lia).
    by rewrite (proj2 (Z.eqb_neq connectionID 0)) by lia.
  - pose proof (le_value_bytes 8 rejected) as Er. pose proof (le_value_bytes 8 nonceProof) as En.
    change (2 ^ (8 * Z.of_nat 8)) with (2 ^ 64) in *. rewrite Z.mod_small in Er, En by done.
    rewrite <- Er at 2. rewrite <- En at 2. clear Er En.
    pose proof (length_le_bytes 8 rejected) as Lr. pose proof (length_le_bytes 8 nonceProof) as Ln.
    destruct (le_bytes 8 rejected) as [|? [|? [|? [|? [|? [|? [|? [|? [|]]]]]]]]]; try discriminate.
    destruct (le_bytes 8 nonceProof) as [|? [|? [|? [|? [|? [|? [|? [|? [|]]]]]]]]]; try discriminate.
    reflexivity.
Qed.

Lemma public_reset_roundtrip_witness :
  exists r,
    ParsePublicHeader (writePublicReset 0x1337 0xdecafbad 0xdeadbeef) PerspectiveServer =
      Ok (mkPublicHeader [] 0x1337 false true false 0 0 0 [] [], r) /\
    parsePublicReset r = Ok (mkPublicReset 0xdecafbad 0xdeadbeef).
Proof. apply (public_reset_roundtrip 0x1337 0xdecafbad 0xdeadbeef); unfold_width; lia. Defined.

(** ** Headers from the network *)

(** What an accepted header guarantees. *)
Record header_accepted (pers : Perspective) (b : list Z) (h : PublicHeader) (r : list Z) : Prop := {
  acc_suffix : exists pre, b = pre ++ r;
  acc_truncate : ph_TruncateConnectionID h = true -> pers = PerspectiveServer;
  acc_connID : ph_TruncateConnectionID h = false -> 0 < ph_ConnectionID h < 2 ^ 64;
  acc_nonce :
    ph_DiversificationNonce h = [] \/
    len (ph_DiversificationNonce h) = 32 /\ pers = PerspectiveServer /\
    ph_VersionFlag h = false /\ ph_ResetFlag h = false /\
    exists pre post, b = pre ++ ph_DiversificationNonce h ++ post;
  acc_packetNumber :
    hasPacketNumber (ph_VersionFlag h) (ph_ResetFlag h) pers = true ->
    In (ph_PacketNumberLen h) [1; 2; 4; 6] /\
    0 <= ph_PacketNumber h < 2 ^ (8 * ph_PacketNumberLen h);
  acc_negotiation :
    pers = PerspectiveServer -> ph_VersionFlag h = true -> ph_ResetFlag h = false -> r = [];
}.

Lemma ReadUint64_suffix b v r : ReadUint64 b = Ok (v, r) -> exists pre, b = pre ++ r.
Proof.
  do 8 (destruct b as [|? b]; [discriminate|]).
  intros Hr. unfold ReadUint64 in Hr. cbn [ReadByte rbind] in Hr. injection Hr as _ <-.
  by eexists [_; _; _; _; _; _; _; _].
Qed.

Lemma ReadUint32_suffix b v r : ReadUint32 b = Ok (v, r) -> exists pre, b = pre ++ r.
Proof.
  do 4 (destruct b as [|? b]; [discriminate|]).
  intros Hr. unfold ReadUint32 in Hr. cbn [ReadByte rbind] in Hr. injection Hr as _ <-.
  by eexists [_; _; _; _].
Qed.

Lemma readVersions_all fuel b acc versions r :
  (length b < 4 * fuel)%nat -> readVersions fuel b acc = (versions, r) -> r = [].
Proof.
  revert b acc; induction fuel as [|fuel IH]; intros b acc Hf; [lia|]. cbn [readVersions].
  do 4 (destruct b as [|? b]; [by intros [= _ <-]|]). unfold ReadUint32. cbn [ReadByte rbind].
  apply IH. simpl in Hf. lia.
Qed.

Lemma safe_and {A} (m : res A) (P Q : A -> Prop) :
  safe m P -> (forall a, m = Ok a -> Q a) -> safe m (fun a => P a /\ Q a).
Proof. destruct m; simpl; auto. Qed.

(** A read into a slice fills it, unless it comes to the end of the packet. *)
Lemma Read_nonce b :
  bytes_ok b ->
  safe (let '(_, nonce, r, err) := Read b 32 in
        match err with Some e => Err e | None => Ok (nonce, r) end)
    (fun nr => len nr.1 = 32 /\ bytes_ok nr.2 /\ (exists pre, b = pre ++ nr.2) /\
       (nr.2 = [] \/ b = nr.1 ++ nr.2)).
Proof.
  intros Hb. unfold Read. destruct b as [|x b]; [done|]. set (l := x :: b) in *.
  set (k := Z.min 32 (len l)). assert (0 <= k <= len l /\ k <= 32) as Hk
    by (pose proof (len_nonneg l); lia).
  simpl. split_and!.
  - rewrite len_app, len_take by lia. unfold len. rewrite length_replicate. lia.
  - by apply Forall_drop.
  - exists (take (Z.to_nat k) l). by rewrite take_drop.
  - destruct (Z.le_gt_cases 32 (len l)).
    + right. replace (32 - k) with 0 by lia. simpl. by rewrite app_nil_r, take_drop.
    + left. apply drop_ge. unfold len in *. lia.
Qed.

(** The length bits of the flag byte. *)
Lemma packet_number_len_flag flags :
  is_u8 flags ->
  In (match Z.land flags 0x30 with
      | 0x30 => PacketNumberLen6 | 0x20 => PacketNumberLen4
      | 0x10 => PacketNumberLen2 | 0x00 => PacketNumberLen1 | _ => 0
      end) [1; 2; 4; 6].
Proof.
  intros Hf. assert (In (Z.land flags 48) [0; 16; 32; 48]) as Hin.
  { assert (forallb (fun f => existsb (Z.eqb (Z.land f 48)) [0; 16; 32; 48]) (seqZ 0 256) = true)
      as Hall by (vm_compute; reflexivity).
    rewrite forallb_forall in Hall. specialize (Hall flags).
    rewrite existsb_exists in Hall. destruct Hall as (x & Hx & ->%Z.eqb_eq); [|done].
    apply list_elem_of_In, elem_of_seqZ. unfold_width. lia. }
  destruct Hin as [<-|[<-|[<-|[<-|[]]]]]; simpl; auto.
Qed.

Lemma safe_connID (truncate : bool) b :
  bytes_ok b ->
  safe (if negb truncate then ReadUint64 b else Ok (0, b))
    (fun cr => 0 <= cr.1 < 2 ^ 64 /\ bytes_ok cr.2 /\ exists pre, b = pre ++ cr.2).
Proof.
  intros Hb. destruct truncate; simpl; [split_and!; [lia..|done|by exists []]|].
  eapply safe_impl; [apply (safe_and _ (reads 8 64 b) (fun vr => exists pre, b = pre ++ vr.2)); [by apply safe_ReadUint64|]|].
  - intros [v r] Hr. exact (ReadUint64_suffix _ _ _ Hr).
  - intros [v r] [(Hv & Hr & _) Hp]. auto.
Qed.

Lemma safe_versions (V R : bool) pers b :
  bytes_ok b ->
  safe (if negb R && V then
          if is_client pers then
            let! (versionTag, b) := ReadUint32 b in Ok (VersionTagToNumber versionTag, [], b)
          else if negb (len b mod 4 =? 0) then Err (ErrorCodeErr InvalidVersionNegotiationPacket)
          else let '(versions, b) := readVersions (length b) b [] in Ok (0, versions, b)
        else Ok (0, [], b))
    (fun vr : Z * list Z * list Z => bytes_ok vr.2 /\ (exists pre, b = pre ++ vr.2) /\
       (V = false -> vr.2 = b) /\
       (pers = PerspectiveServer -> V = true -> R = false -> vr.2 = [])).
Proof.
  intros Hb. destruct V, R; simpl; try (split_and!; solve [done | by exists []]).
  destruct pers; simpl.
  - case_if; [done|]. destruct (readVersions _ _ _) as [vs r] eqn:E.
    assert (r = []) as ->.
    { destruct b as [|x b]; [by injection E as _ <-|].
      eapply readVersions_all; [|exact E]. simpl. lia. }
    simpl. split_and!; [constructor|exists b; by rewrite app_nil_r|done|done].
  - eapply safe_bind; [apply (safe_and _ (reads 4 32 b) (fun vr => exists pre, b = pre ++ vr.2)); [by apply safe_ReadUint32|]|].
    + intros [v r] Hr. exact (ReadUint32_suffix _ _ _ Hr).
    + intros [v r] [(Hv & Hr & _) Hp]. by simpl.
Qed.

(** [ParsePublicHeader] never panics on bytes from the network, and what it
    accepts is sound: a client's header carries a connection ID, and a
    connection ID is not zero; a diversification nonce comes from a server, never
    with the version or reset flag, and all its 32 bytes were in the packet (a
    packet that ends inside the nonce is rejected, although the read of the nonce
    does not report it); the packet number fits the length it was sent in; and a
    version negotiation packet is read to its end. *)
Theorem parse_public_header_safe pers b :
  bytes_ok b -> safe (ParsePublicHeader b pers) (fun hr => header_accepted pers b hr.1 hr.2).
Proof.
  intros Hb. unfold ParsePublicHeader.
  destruct Hb as [|flags b Hflags Hb]; [done|]. cbn [ReadByte rbind].
  set (V := Z.land flags 1 >? 0). set (R := Z.land flags 2 >? 0). set (T := Z.land flags 8 =? 0).
  destruct (T && is_client pers) eqn:ET; [done|]. cbv zeta.
  set (pnl := if hasPacketNumber V R pers then _ else 0).
  eapply safe_bind; [by apply safe_connID|]. intros [connID b1] (Hc & Hb1 & pre1 & E1). simpl in *.
  destruct (negb T && (connID =? 0)) eqn:EC; [done|].
  set (withNonce := _ && _ && _).
  assert (withNonce = true -> pers = PerspectiveServer /\ V = false /\ R = false) as HN
    by (unfold withNonce; destruct pers, (Z.land flags 4 >? 0), V, R; done).
  eapply (safe_bind _ _ (fun nr => bytes_ok nr.2 /\ (exists pre, b1 = pre ++ nr.2) /\
    (nr.1 = [] \/ withNonce = true /\ len nr.1 = 32 /\ (nr.2 = [] \/ b1 = nr.1 ++ nr.2)))).
  { destruct withNonce; [|simpl; split_and!; solve [done | by exists [] | by left]].
    eapply safe_impl; [by apply Read_nonce|]. naive_solver. }
  intros [nonce b2] (Hb2 & (pre2 & E2) & Hnonce). simpl in *.
  eapply safe_bind; [by apply safe_versions|].
  intros [[version versions] b3] (Hb3 & (pre3 & E3) & HV & Hneg). simpl in *.
  assert (hasPacketNumber V R pers = true -> In pnl [1; 2; 4; 6]) as Hpnl.
  { unfold pnl. intros ->. by apply packet_number_len_flag. }
  eapply (safe_bind _ _ (fun pr => (exists pre, b3 = pre ++ pr.2) /\
    (hasPacketNumber V R pers = true -> 0 <= pr.1 < 2 ^ (8 * pnl) /\ b3 <> []) /\
    (b3 = [] -> pr.2 = []))).
  { destruct (hasPacketNumber V R pers) eqn:EH; [|simpl; split_and!; solve [done | by exists []]].
    specialize (Hpnl eq_refl). assert (1 <= pnl <= 6) as Hp by (simpl in Hpnl; lia).
    destruct (ReadUintN b3 pnl) as [[pn r]|e|] eqn:E; [|done|].
    - destruct (ReadUintN_inv b3 pnl pn r) as (l & -> & El & ->); [done|lia|done|].
      apply Forall_app in Hb3 as [Hl _]. pose proof (le_value_range l Hl). rewrite El in *.
      simpl. split_and!; [by exists l|intros _; split; [done|]|].
      + intros Hnil. apply app_nil in Hnil as [-> ->]. unfold len in El. simpl in El. lia.
      + intros Hnil. by apply app_nil in Hnil as [-> ->].
    - pose proof (safe_ReadUintN b3 pnl Hb3 ltac:(lia)) as Hs. by rewrite E in Hs. }
  intros [pn r] ((pre4 & E4) & Hpn & Hr). simpl in *.
  constructor; simpl.
  - exists (flags :: pre1 ++ pre2 ++ pre3 ++ pre4). subst. simpl. by rewrite <- !app_assoc.
  - intros HT. rewrite HT in ET. by destruct pers.
  - intros HT. rewrite HT in EC. simpl in EC. to_prop. lia.
  - destruct Hnonce as [->|(Hw & Hlen & Hin)]; [by left|right].
    destruct (HN Hw) as (-> & EV & ER). split_and!; [done..|].
    rewrite EV, ER in *. destruct (Hpn eq_refl) as [_ Hne]. specialize (HV eq_refl). subst b3.
    destruct Hin as [->|E]; [done|]. exists (flags :: pre1), b2. by rewrite E1, E.
  - intros E. split; [auto|]. by apply Hpn.
  - intros -> E' E''. apply Hr. by apply Hneg.
Qed.

Definition nonceHeaderBytes : list Z := [0x0c; 1; 0; 0; 0; 0; 0; 0; 0] ++ seqZ 0 32 ++ [7].

Lemma parse_public_header_safe_witness :
  bytes_ok nonceHeaderBytes /\
  safe (ParsePublicHeader nonceHeaderBytes PerspectiveServer)
    (fun hr => header_accepted PerspectiveServer nonceHeaderBytes hr.1 hr.2).
Proof.
  assert (bytes_ok nonceHeaderBytes) as Hb by (repeat constructor; discriminate).
  split; [exact Hb|]. apply (parse_public_header_safe PerspectiveServer nonceHeaderBytes Hb).
Defined.
