(* ===== verification/PacketUnpacker.v ===== *)
(** * packet_unpacker.go: from the bytes of a packet to its frames *)

From S2P Require Import Prelude Protocol Qerr Wire Frames AckFrame Frame PublicHeader.

(** ** The interface the unpacker needs of the crypto layer *)

(** [Open src packetNumber associatedData]: the plaintext and the encryption level.
    The implementation is the crypto setup of the session. *)
Class quicAEAD : Type := {
  Open : list Z -> Z -> list Z -> res (list Z * Z);
}.

(** What the unpacker relies on: opening a packet does not panic, and yields
    bytes. *)
Class quicAEADLaws (aead : quicAEAD) : Prop := {
  Open_safe src packetNumber associatedData :
    bytes_ok src -> safe (Open src packetNumber associatedData) (fun pl => bytes_ok pl.1);
}.

(** ** The frame loop *)

(** [wrapErr code m]: the parser's error becomes a [QuicError] with this code. *)
Definition wrapErr {A} (code : Z) (m : res A) : res A :=
  match m with
  | Err e => Err (QuicError code (MsgOf e))
  | m => m
  end.

Definition inject {A} (c : A -> Frame) (m : res (A * list Z)) : res (Frame * list Z) :=
  let! (f, r) := m in Ok (c f, r).

(** One frame that is not padding; [r] starts with its type byte. *)
Definition unpackFrame (hdr : PublicHeader) (encryptionLevel : Z) (typeByte : Z) (r : list Z)
    : res (Frame * list Z) :=
  if Z.land typeByte 0x80 =? 0x80 then
    let! (frame, r) := wrapErr InvalidStreamData (ParseStreamFrame r) in
    let streamID := sf_StreamID frame in
    if negb (streamID =? 1) && (encryptionLevel <=? EncryptionUnencrypted)
    then Err (QuicError UnencryptedStreamData
                (Msgf "received unencrypted stream data on stream %d" [streamID]))
    else Ok (FStream frame, r)
  else if Z.land typeByte 0xc0 =? 0x40 then
    inject FAck (wrapErr InvalidAckData (ParseAckFrame r))
  else if Z.land typeByte 0xe0 =? 0x20 then
    Err (ErrNew "unimplemented: CONGESTION_FEEDBACK")
  else
    match typeByte with
    | 0x01 => inject FRstStream (wrapErr InvalidRstStreamData (ParseRstStreamFrame r))
    | 0x02 => inject FConnectionClose
                (wrapErr InvalidConnectionCloseData (ParseConnectionCloseFrame r))
    | 0x03 => inject FGoaway (wrapErr InvalidGoawayData (ParseGoawayFrame r))
    | 0x04 => inject FWindowUpdate (wrapErr InvalidWindowUpdateData (ParseWindowUpdateFrame r))
    | 0x05 => inject FBlocked (wrapErr InvalidBlockedData (ParseBlockedFrame r))
    | 0x06 => inject FStopWaiting
                (wrapErr InvalidStopWaitingData
                   (ParseStopWaitingFrame r (ph_PacketNumber hdr) (ph_PacketNumberLen hdr)))
    | 0x07 => inject FPing (ParsePingFrame r)
    | 0x08 => inject FPLUSFeedback (ParsePLUSFeedbackFrame r)
    | _ => Err (QuicError InvalidFrameData (Msgf "unknown type byte 0x%x" [typeByte]))
    end.

(** The loop over the payload.  Every iteration consumes a byte, so [fuel] as
    large as the payload is enough; running out of it counts as a panic. *)
Fixpoint unpackFrames (fuel : nat) (hdr : PublicHeader) (encryptionLevel : Z) (r : list Z)
    (fs : list Frame) : res (list Frame) :=
  match r with
  | [] => Ok fs
  | typeByte :: r' =>
      match fuel with
      | O => Panic
      | S fuel =>
          if typeByte =? 0x0 then unpackFrames fuel hdr encryptionLevel r' fs
          else
            let! (frame, r) := unpackFrame hdr encryptionLevel typeByte r in
            unpackFrames fuel hdr encryptionLevel r (fs ++ [frame])
      end
  end.

Definition Unpack `{quicAEAD} (publicHeaderBinary : list Z) (hdr : PublicHeader) (data : list Z)
    : res unpackedPacket :=
  let! (decrypted, encryptionLevel) :=
    wrapErr DecryptionFailure (Open data (ph_PacketNumber hdr) publicHeaderBinary) in
  if len decrypted =? 0 then Err (ErrorCodeErr MissingPayload)
  else
    let! fs := unpackFrames (length decrypted) hdr encryptionLevel decrypted [] in
    Ok (mkUnpackedPacket encryptionLevel fs).

(** ** Packets from the network *)

(** What the session can rely on for each frame of an unpacked packet. *)
Definition frame_accepted (hdr : PublicHeader) (encryptionLevel : Z) (f : Frame) : Prop :=
  match f with
  | FStream f =>
      StreamFrame_wf f /\ (sf_StreamID f = 1 \/ EncryptionUnencrypted < encryptionLevel)
  | FAck f => AckFrame_accepted f
  | FStopWaiting f => 0 <= swf_LeastUnacked f <= ph_PacketNumber hdr
  | FRstStream f =>
      is_u32 (rsf_StreamID f) /\ is_u32 (rsf_ErrorCode f) /\ is_u64 (rsf_ByteOffset f)
  | FConnectionClose f => is_u32 (ccf_ErrorCode f) /\ len (ccf_ReasonPhrase f) <= MaxPacketSize
  | FGoaway f =>
      is_u32 (gf_ErrorCode f) /\ is_u32 (gf_LastGoodStream f) /\
      len (gf_ReasonPhrase f) <= MaxPacketSize
  | FWindowUpdate f => is_u32 (wuf_StreamID f) /\ is_u64 (wuf_ByteOffset f)
  | FBlocked f => is_u32 (bf_StreamID f)
  | FPing _ => True
  | FPLUSFeedback f => len (pf_Data f) <= 255
  end.

Lemma safe_wrapErr {A} code (m : res A) P : safe m P -> safe (wrapErr code m) P.
Proof. by destruct m. Qed.

Lemma safe_inject {A} (c : A -> Frame) (m : res (A * list Z)) r (P : A -> Prop) (Q : Frame -> Prop) :
  safe m (parses r P) -> (forall f, P f -> Q (c f)) -> safe (inject c m) (parses r Q).
Proof.
  intros Hm HPQ. unfold inject. eapply safe_bind; [exact Hm|].
  intros [f r'] (Hf & Hr' & Hl). split_and!; simpl; auto.
Qed.

#[export] Hint Resolve safe_ParseRstStreamFrame safe_ParseWindowUpdateFrame safe_ParseBlockedFrame
  safe_ParsePingFrame safe_ParseGoawayFrame safe_ParseConnectionCloseFrame
  safe_ParseStopWaitingFrame safe_ParseStreamFrame safe_ParsePLUSFeedbackFrame safe_wrapErr : safe.

Lemma safe_unpackFrame hdr level typeByte r :
  bytes_ok r -> 0 <= ph_PacketNumber hdr < 2 ^ 64 -> 0 <= ph_PacketNumberLen hdr <= 8 ->
  safe (unpackFrame hdr level typeByte r) (parses r (frame_accepted hdr level)).
Proof.
  intros Hr Hpn Hpnl. unfold unpackFrame.
  case_if.
  { eapply safe_bind; [by apply safe_wrapErr, safe_ParseStreamFrame|].
    intros [f r'] (Hf & Hr' & Hl). cbn [fst snd] in *.
    destruct (negb _ && _) eqn:E; [done|]. split_and!; simpl; try done. split; [done|].
    apply andb_false_iff in E as [?|?]; to_prop; [by left|right; lia]. }
  case_if.
  { eapply (safe_inject _ _ _ AckFrame_accepted); [|done].
    apply safe_wrapErr. eapply safe_impl; [by apply ParseAckFrame_accepted|].
    by intros [f r'] (? & ? & ?). }
  case_if; [done|].
  repeat match goal with
  | |- safe (match ?t with _ => _ end) _ => destruct t
  | |- safe (inject _ _) _ => eapply safe_inject; [eauto with safe|done]
  end; done.
Qed.

Lemma safe_unpackFrames fuel hdr level r fs :
  bytes_ok r -> 0 <= ph_PacketNumber hdr < 2 ^ 64 -> 0 <= ph_PacketNumberLen hdr <= 8 ->
  (length r <= fuel)%nat -> Forall (frame_accepted hdr level) fs ->
  safe (unpackFrames fuel hdr level r fs) (Forall (frame_accepted hdr level)).
Proof.
  intros Hr Hpn Hpnl. revert r fs Hr. induction fuel as [|fuel IH]; intros r fs Hr Hf Hfs.
  { destruct r; [done|simpl in Hf; lia]. }
  destruct r as [|typeByte r]; [done|]. cbn [unpackFrames]. case_if.
  { inversion_clear Hr. apply IH; [done|simpl in Hf; lia|done]. }
  eapply safe_bind; [by apply safe_unpackFrame|].
  intros [f r'] (Hacc & Hr' & Hl). cbn [fst snd] in *.
  apply IH; [done|unfold len in Hl; simpl in *; lia|].
  apply Forall_app. auto.
Qed.

Lemma Unpack_accepted `{quicAEAD, !quicAEADLaws _} raw hdr data :
  bytes_ok data -> 0 <= ph_PacketNumber hdr < 2 ^ 64 -> 0 <= ph_PacketNumberLen hdr <= 8 ->
  safe (Unpack raw hdr data) (fun p =>
    Forall (frame_accepted hdr (up_encryptionLevel p)) (up_frames p)).
Proof.
  intros Hd Hpn Hpnl. unfold Unpack.
  eapply safe_bind; [by apply safe_wrapErr, Open_safe|]. intros [plain level] Hp.
  case_if; [done|].
  eapply safe_bind; [by apply safe_unpackFrames|]. done.
Qed.

(** C17: whatever the network delivers, unpacking terminates without a panic,
    and every frame it hands to the session satisfies what the session relies on:
    stream data other than the crypto stream's is encrypted, no offset
    overflows, ACK ranges are ordered and disjoint, a STOP_WAITING frame does
    not point above its packet. *)
Theorem unpack_safe `{quicAEAD, !quicAEADLaws _} raw hdr data :
  bytes_ok data -> 0 <= ph_PacketNumber hdr < 2 ^ 64 -> 0 <= ph_PacketNumberLen hdr <= 8 ->
  safe (Unpack raw hdr data) (fun p =>
    Forall (frame_accepted hdr (up_encryptionLevel p)) (up_frames p)).
Proof. apply Unpack_accepted. Qed.

(** ** Packets of the peer *)

(** A control frame that is written with this type byte and parsed by its parser
    is found by the dispatch on the type byte. *)
Lemma unpack_control {A} (c : A -> Frame) parse hdr level delay f f' rest tb w :
  Frame_Write f delay [] = (w, Ok tt) -> head w = Some tb -> tb <> 0 ->
  (forall r, unpackFrame hdr level tb r = inject c (parse r)) ->
  parse (w ++ rest) = Ok (f', rest) -> frame_received delay f = c f' ->
  exists tb w, Frame_Write f delay [] = (tb :: w, Ok tt) /\ tb <> 0 /\
    unpackFrame hdr level tb ((tb :: w) ++ rest) = Ok (frame_received delay f, rest).
Proof.
  intros Ew Hhd Htb Hu Hp Hc. destruct w as [|x w]; [done|]. injection Hhd as ->.
  exists tb, w. rewrite Hu, Hp, Hc. done.
Qed.

Ltac control_frame lem :=
  let w := fresh "w" in let Ew := fresh "Ew" in let Ep := fresh "Ep" in
  edestruct lem as (w & Ew & _ & Ep); [try (eassumption || lia)..|];
  eapply unpack_control;
    [exact Ew
    |injection Ew as <-; reflexivity
    |done
    |intros ?; reflexivity
    |cbv beta; rewrite Ep; reflexivity
    |reflexivity].

Lemma ackTypeByte_class f :
  Z.land (ackTypeByte f) 0x80 = 0 /\ Z.land (ackTypeByte f) 0xc0 = 0x40.
Proof.
  unfold ackTypeByte. cbv zeta.
  destruct (GetPacketNumberLength_oneOf (LargestAcked f)) as [-> | [-> | [-> | ->]]];
  destruct (deltaLen_oneOf f) as [-> | [-> | [-> | ->]]];
  destruct (HasMissingRanges f); split; reflexivity.
Qed.

Lemma stop_waiting_head f w :
  StopWaitingFrame_Write f [] = (w, Ok tt) -> head w = Some 6.
Proof.
  unfold StopWaitingFrame_Write. repeat case_if; [done..|].
  intros Ew. repeat match goal with
  | H : match ?t with _ => _ end = _ |- _ => destruct t
  end; (discriminate || by injection Ew as <-).
Qed.

Lemma unpackFrame_written hdr level delay f rest :
  frame_ok (ph_PacketNumber hdr) (ph_PacketNumberLen hdr) delay f ->
  (open_ended f = true -> rest = []) ->
  match f with
  | FStream f => sf_StreamID f = 1 \/ EncryptionUnencrypted < level
  | _ => True
  end ->
  exists tb w, Frame_Write f delay [] = (tb :: w, Ok tt) /\ tb <> 0 /\
    unpackFrame hdr level tb ((tb :: w) ++ rest) = Ok (frame_received delay f, rest).
Proof.
  destruct f as [f|f|f|f|f|f|f|f|f|f]; cbn [frame_ok open_ended]; intros Hok Hopen Hlev.
  - destruct Hok as [Hwf Hlen]. pose proof Hwf as (Hid & Hoff & _).
    destruct (streamTypeByte_decode f Hid Hoff) as (_ & _ & _ & _ & _ & E80).
    unfold Frame_Write. rewrite StreamFrame_Write_spec by done.
    eexists _, _. split; [reflexivity|]. split; [intros E0; by rewrite E0 in E80|].
    unfold unpackFrame. rewrite E80. cbn [Z.eqb Pos.eqb].
    fold (stream_frame_bytes f). rewrite ParseStreamFrame_bytes; [|done|].
    2: { destruct (sf_DataLenPresent f); [done|]. split; [done|by apply Hopen]. }
    cbn [wrapErr rbind frame_received]. destruct (negb _ && _) eqn:E; [|done].
    to_prop. destruct Hlev; [done|lia].
  - destruct Hok as (Hwf & Hgap & Hd). unfold Frame_Write.
    rewrite AckFrame_Write_bytes by done. eexists _, _. split; [reflexivity|].
    destruct (ackTypeByte_class f) as [E80 E40].
    split; [intros E0; by rewrite E0 in E40|].
    unfold unpackFrame. rewrite E80, E40. cbn [Z.eqb Pos.eqb].
    change (_ :: _) with (ackFrameBytes f delay). by rewrite ParseAckFrame_bytes.
  - destruct Hok as (Hl & El & Ep & Hu & Hpn & Hdiff). rewrite <- El, <- Ep in *.
    destruct (stop_waiting_roundtrip f rest Hl Hu Hpn Hdiff) as (w & Ew & _ & Ew').
    eapply (unpack_control FStopWaiting _ _ _ _ _ _ _ 6);
      [exact Ew| |done|intros ?; reflexivity|cbv beta|reflexivity].
    + eapply stop_waiting_head; [exact Ew|done..].
    + rewrite <- El, <- Ep, Ew'. reflexivity.
  - destruct Hok as (? & ? & ?). control_frame rst_stream_roundtrip.
  - destruct Hok as (? & ?). destruct (connection_close_roundtrip f rest) as (w & Ew & _ & Ep); [done..|].
    eapply (unpack_control FConnectionClose _ _ _ _ _ _ _ 2);
      [exact Ew| |done|intros ?; reflexivity|cbv beta; rewrite Ep; reflexivity|done].
    unfold ConnectionCloseFrame_Write in Ew. case_if; by injection Ew as <-.
  - destruct Hok as (? & ? & ?). control_frame goaway_roundtrip.
  - destruct Hok as (? & ?). control_frame window_update_roundtrip.
  - control_frame blocked_roundtrip.
  - control_frame ping_roundtrip.
  - destruct (plus_feedback_roundtrip f rest Hok) as (w & Ew & _ & Ep).
    eapply (unpack_control FPLUSFeedback _ _ _ _ _ _ _ 8);
      [exact Ew| |done|intros ?; reflexivity|cbv beta; rewrite Ep; reflexivity|done].
    unfold PLUSFeedbackFrame_Write in Ew. case_if; by injection Ew as <-.
Qed.

(** A payload: each frame preceded by padding, and [k] bytes of padding at the
    end. *)
Fixpoint payload (delay : Z) (items : list (nat * Frame)) (k : nat) : list Z :=
  match items with
  | [] => replicate k 0
  | (n, f) :: items => replicate n 0 ++ (Frame_Write f delay []).1 ++ payload delay items k
  end.

(** The peer may send these frames in a packet with this header at this encryption
    level; a STREAM frame without a data length comes last. *)
Fixpoint payload_ok (hdr : PublicHeader) (level delay : Z) (items : list (nat * Frame)) (k : nat)
    : Prop :=
  match items with
  | [] => True
  | (_, f) :: items =>
      frame_ok (ph_PacketNumber hdr) (ph_PacketNumberLen hdr) delay f /\
      match f with
      | FStream f => sf_StreamID f = 1 \/ EncryptionUnencrypted < level
      | _ => True
      end /\
      (open_ended f = true -> items = [] /\ k = 0%nat) /\
      payload_ok hdr level delay items k
  end.

Lemma unpackFrames_padding n fuel hdr level r fs :
  unpackFrames (n + fuel) hdr level (replicate n 0 ++ r) fs = unpackFrames fuel hdr level r fs.
Proof. by induction n as [|n IH]. Qed.

Lemma unpackFrames_written hdr level delay items k fuel fs :
  payload_ok hdr level delay items k -> (length (payload delay items k) <= fuel)%nat ->
  unpackFrames fuel hdr level (payload delay items k) fs =
  Ok (fs ++ map (fun nf => frame_received delay nf.2) items).
Proof.
  revert fuel fs. induction items as [|[n f] items IH]; intros fuel fs Hok Hfuel.
  { simpl in *. rewrite length_replicate in Hfuel.
    replace fuel with (k + (fuel - k))%nat by lia. rewrite <- (app_nil_r (replicate k 0)).
    rewrite unpackFrames_padding, app_nil_r. by destruct (fuel - k)%nat. }
  cbn [payload payload_ok map] in *. destruct Hok as (Hf & Hlev & Hopen & Hok).
  rewrite length_app, length_replicate in Hfuel.
  replace fuel with (n + (fuel - n))%nat by lia. rewrite unpackFrames_padding.
  destruct (unpackFrame_written hdr level delay f (payload delay items k) Hf) as (tb & w & Ew & Htb & Eu);
    [|done|].
  { intros Ho. by destruct (Hopen Ho) as [-> ->]. }
  rewrite Ew in *. cbn [fst] in *. rewrite length_app in Hfuel. cbn [length] in Hfuel.
  destruct (fuel - n)%nat as [|fuel'] eqn:Ef; [lia|].
  cbn [app unpackFrames]. rewrite (proj2 (Z.eqb_neq tb 0)) by done.
  cbn [app] in Eu. rewrite Eu. cbn [rbind]. rewrite IH; [|done|lia]. by rewrite <- app_assoc.
Qed.

(** C26: what the peer put into a packet comes out of it: if the payload is a
    sequence of well-formed frames as [Write] produces them, with padding anywhere
    between them, then [Unpack] returns exactly these frames in their order. *)
Theorem unpack_written `{quicAEAD} raw hdr data delay items k level :
  Open data (ph_PacketNumber hdr) raw = Ok (payload delay items k, level) ->
  payload delay items k <> [] -> payload_ok hdr level delay items k ->
  Unpack raw hdr data =
  Ok (mkUnpackedPacket level (map (fun nf => frame_received delay nf.2) items)).
Proof.
  intros Eo Hne Hok. unfold Unpack. rewrite Eo. cbn [wrapErr rbind].
  destruct (Z.eqb_spec (len (payload delay items k)) 0) as [E|_]; [by apply len_zero in E|].
  by rewrite unpackFrames_written.
Qed.

(** ** Witnesses: an AEAD that does not encrypt *)

Definition plainAEAD : quicAEAD :=
  {| Open := fun src _ _ => Ok (src, EncryptionForwardSecure) |}.

Lemma plainAEAD_laws : quicAEADLaws plainAEAD.
Proof. constructor. intros src pn ad Hsrc. exact Hsrc. Qed.

Definition samplePacketHeader : PublicHeader :=
  mkPublicHeader [] 0x1337 false false false 2 0x1234 0 [] [].

Definition samplePacketItems : list (nat * Frame) :=
  [(0%nat, FStopWaiting (mkStopWaitingFrame 0x1230 2 0x1234));
   (2%nat, FWindowUpdate (mkWindowUpdateFrame 5 0xdecafbad));
   (1%nat, FStream (mkStreamFrame 5 true false 0x100 [1; 2; 3]))].

Lemma unpack_safe_witness :
  safe (@Unpack plainAEAD [] samplePacketHeader [0x06; 4; 0; 0x90; 1; 2])
    (fun p => Forall (frame_accepted samplePacketHeader (up_encryptionLevel p)) (up_frames p)).
Proof.
  apply (@unpack_safe plainAEAD plainAEAD_laws); [|vm_compute; intuition discriminate..].
  repeat constructor; discriminate.
Defined.

Lemma unpack_written_witness :
  @Unpack plainAEAD [] samplePacketHeader (payload 0 samplePacketItems 0) =
  Ok (mkUnpackedPacket EncryptionForwardSecure
        (map (fun nf => frame_received 0 nf.2) samplePacketItems)).
Proof.
  apply (@unpack_written plainAEAD [] samplePacketHeader _ 0 samplePacketItems 0);
    [reflexivity|discriminate|].
  cbn [payload_ok samplePacketItems frame_ok open_ended sf_DataLenPresent].
  unfold StreamFrame_wf, bytes_ok. cbn.
  unfold EncryptionForwardSecure, EncryptionUnencrypted, is_u8, is_u32, is_u64.
  split_and!; try (lia || done || (intros; done)); auto; repeat constructor; lia.
Defined.
