(* ===== verification/FlowControl.v ===== *)
(** * Package flowcontrol

    A flow controller for the connection and one per stream.  The parameters of
    the connection are used through the interface of Handshake.v; the smoothed
    RTT and the current time are arguments.  The manager is a map of stream
    controllers and the connection's controller. *)

From S2P Require Import Prelude Protocol Qerr Handshake.

(** ** flowcontrol/flow_controller.go *)

Record flowController : Type := mkFlowController {
  fc_streamID : Z;
  fc_contributesToConnection : bool;
  fc_bytesSent : Z;
  fc_sendWindow : Z;
  fc_lastWindowUpdateTime : Z;
  fc_bytesRead : Z;
  fc_highestReceived : Z;
  fc_receiveWindow : Z;
  fc_receiveWindowIncrement : Z;
  fc_maxReceiveWindowIncrement : Z;
}.

Definition ErrReceivedSmallerByteOffset : goerror := ErrNew "Received a smaller byte offset".

(** Field updates *)
Definition set_bytesSent (c : flowController) (x : Z) : flowController :=
  mkFlowController (fc_streamID c) (fc_contributesToConnection c) x (fc_sendWindow c)
    (fc_lastWindowUpdateTime c) (fc_bytesRead c) (fc_highestReceived c) (fc_receiveWindow c)
    (fc_receiveWindowIncrement c) (fc_maxReceiveWindowIncrement c).
Definition set_sendWindow (c : flowController) (x : Z) : flowController :=
  mkFlowController (fc_streamID c) (fc_contributesToConnection c) (fc_bytesSent c) x
    (fc_lastWindowUpdateTime c) (fc_bytesRead c) (fc_highestReceived c) (fc_receiveWindow c)
    (fc_receiveWindowIncrement c) (fc_maxReceiveWindowIncrement c).
Definition set_lastWindowUpdateTime (c : flowController) (x : Z) : flowController :=
  mkFlowController (fc_streamID c) (fc_contributesToConnection c) (fc_bytesSent c)
    (fc_sendWindow c) x (fc_bytesRead c) (fc_highestReceived c) (fc_receiveWindow c)
    (fc_receiveWindowIncrement c) (fc_maxReceiveWindowIncrement c).
Definition set_bytesRead (c : flowController) (x : Z) : flowController :=
  mkFlowController (fc_streamID c) (fc_contributesToConnection c) (fc_bytesSent c)
    (fc_sendWindow c) (fc_lastWindowUpdateTime c) x (fc_highestReceived c) (fc_receiveWindow c)
    (fc_receiveWindowIncrement c) (fc_maxReceiveWindowIncrement c).
Definition set_highestReceived (c : flowController) (x : Z) : flowController :=
  mkFlowController (fc_streamID c) (fc_contributesToConnection c) (fc_bytesSent c)
    (fc_sendWindow c) (fc_lastWindowUpdateTime c) (fc_bytesRead c) x (fc_receiveWindow c)
    (fc_receiveWindowIncrement c) (fc_maxReceiveWindowIncrement c).
Definition set_receiveWindow (c : flowController) (x : Z) : flowController :=
  mkFlowController (fc_streamID c) (fc_contributesToConnection c) (fc_bytesSent c)
    (fc_sendWindow c) (fc_lastWindowUpdateTime c) (fc_bytesRead c) (fc_highestReceived c) x
    (fc_receiveWindowIncrement c) (fc_maxReceiveWindowIncrement c).
Definition set_receiveWindowIncrement (c : flowController) (x : Z) : flowController :=
  mkFlowController (fc_streamID c) (fc_contributesToConnection c) (fc_bytesSent c)
    (fc_sendWindow c) (fc_lastWindowUpdateTime c) (fc_bytesRead c) (fc_highestReceived c)
    (fc_receiveWindow c) x (fc_maxReceiveWindowIncrement c).

Section controller.
Context {A : Type} `{ConnectionParametersManager A} (connectionParameters : A).

Definition newFlowController (streamID : Z) (contributesToConnection : bool) : flowController :=
  if streamID =? 0 then
    let w := GetReceiveConnectionFlowControlWindow connectionParameters in
    mkFlowController streamID contributesToConnection 0 0 0 0 0 w w
      (GetMaxReceiveConnectionFlowControlWindow connectionParameters)
  else
    let w := GetReceiveStreamFlowControlWindow connectionParameters in
    mkFlowController streamID contributesToConnection 0 0 0 0 0 w w
      (GetMaxReceiveStreamFlowControlWindow connectionParameters).

Definition getSendWindow (c : flowController) : Z :=
  if fc_sendWindow c =? 0 then
    if fc_streamID c =? 0 then GetSendConnectionFlowControlWindow connectionParameters
    else GetSendStreamFlowControlWindow connectionParameters
  else fc_sendWindow c.

Definition fc_AddBytesSent (c : flowController) (n : Z) : flowController :=
  set_bytesSent c (u64 (fc_bytesSent c + n)).

Definition UpdateSendWindow (c : flowController) (newOffset : Z) : flowController * bool :=
  if newOffset >? fc_sendWindow c then (set_sendWindow c newOffset, true) else (c, false).

Definition fc_SendWindowSize (c : flowController) : Z :=
  let sendWindow := getSendWindow c in
  if fc_bytesSent c >? sendWindow then 0 else u64 (sendWindow - fc_bytesSent c).

Definition SendWindowOffset (c : flowController) : Z := getSendWindow c.

(** The new controller, the increment, and the error *)
Definition fc_UpdateHighestReceived (c : flowController) (byteOffset : Z)
    : flowController * Z * option goerror :=
  if byteOffset =? fc_highestReceived c then (c, 0, None)
  else if byteOffset >? fc_highestReceived c
  then (set_highestReceived c byteOffset, u64 (byteOffset - fc_highestReceived c), None)
  else (c, 0, Some ErrReceivedSmallerByteOffset).

Definition IncrementHighestReceived (c : flowController) (increment : Z) : flowController :=
  set_highestReceived c (u64 (fc_highestReceived c + increment)).

Definition fc_AddBytesRead (c : flowController) (now n : Z) : flowController :=
  let c := if fc_bytesRead c =? 0 then set_lastWindowUpdateTime c now else c in
  set_bytesRead c (u64 (fc_bytesRead c + n)).

Definition maybeAdjustWindowIncrement (c : flowController) (now rtt : Z) : flowController :=
  if fc_lastWindowUpdateTime c =? 0 then c
  else if rtt =? 0 then c
  else
    let timeSinceLastWindowUpdate := now - fc_lastWindowUpdateTime c in
    if timeSinceLastWindowUpdate >=? i64 (2 * rtt) then c
    else
      set_receiveWindowIncrement c
        (MinByteCount (u64 (2 * fc_receiveWindowIncrement c)) (fc_maxReceiveWindowIncrement c)).

(** The controller, whether there is an update, the new increment and the new
    offset *)
Definition MaybeUpdateWindow (c : flowController) (now rtt : Z)
    : flowController * bool * Z * Z :=
  let diff := u64 (fc_receiveWindow c - fc_bytesRead c) in
  if diff <? fc_receiveWindowIncrement c / 2 then
    let oldWindowIncrement := fc_receiveWindowIncrement c in
    let c := maybeAdjustWindowIncrement c now rtt in
    let newWindowIncrement :=
      if negb (fc_receiveWindowIncrement c =? oldWindowIncrement)
      then fc_receiveWindowIncrement c else 0 in
    let c := set_lastWindowUpdateTime c now in
    let c := set_receiveWindow c (u64 (fc_bytesRead c + fc_receiveWindowIncrement c)) in
    (c, true, newWindowIncrement, fc_receiveWindow c)
  else (c, false, 0, 0).

Definition EnsureMinimumWindowIncrement (c : flowController) (inc : Z) : flowController :=
  if inc >? fc_receiveWindowIncrement c then
    set_lastWindowUpdateTime
      (set_receiveWindowIncrement c (MinByteCount inc (fc_maxReceiveWindowIncrement c))) 0
  else c.

Definition CheckFlowControlViolation (c : flowController) : bool :=
  fc_highestReceived c >? fc_receiveWindow c.
End controller.

(** ** flowcontrol/flow_control_manager.go *)

Record flowControlManager : Type := mkFlowControlManager {
  streamFlowController : gmap Z flowController;
  connFlowController : flowController;
}.

Record WindowUpdate : Type := mkWindowUpdate {
  wu_StreamID : Z;
  wu_Offset : Z;
}.

Definition errMapAccess : goerror := ErrNew "Error accessing the flowController map.".

Definition set_stream (f : flowControlManager) (id : Z) (c : flowController) : flowControlManager :=
  mkFlowControlManager (<[id := c]> (streamFlowController f)) (connFlowController f).
Definition set_conn (f : flowControlManager) (c : flowController) : flowControlManager :=
  mkFlowControlManager (streamFlowController f) c.

(** [float64(newIncrement) * 1.5], rounded down: exact for the windows in use *)
Definition connectionIncrement (newIncrement : Z) : Z := newIncrement * 3 / 2.

Section manager.
Context {A : Type} `{ConnectionParametersManager A} (connectionParameters : A).

Definition NewFlowControlManager : flowControlManager :=
  mkFlowControlManager ∅ (newFlowController connectionParameters 0 false).

Definition fcm_NewStream (f : flowControlManager) (streamID : Z) (contributes : bool)
    : flowControlManager :=
  match streamFlowController f !! streamID with
  | Some _ => f
  | None => set_stream f streamID (newFlowController connectionParameters streamID contributes)
  end.

Definition RemoveStream (f : flowControlManager) (streamID : Z) : flowControlManager :=
  mkFlowControlManager (delete streamID (streamFlowController f)) (connFlowController f).

Definition errStreamViolation (byteOffset streamID window : Z) : goerror :=
  QuicError FlowControlReceivedTooMuchData
    (Msgf "Received %d bytes on stream %d, allowed %d bytes" [byteOffset; streamID; window]).
Definition errConnectionViolation (byteOffset window : Z) : goerror :=
  QuicError FlowControlReceivedTooMuchData
    (Msgf "Received %d bytes for the connection, allowed %d bytes" [byteOffset; window]).

(** The part that [ResetStream] and [UpdateHighestReceived] share *)
Definition checkReceived (f : flowControlManager) (streamID byteOffset : Z) (c : flowController)
    (increment : Z) : flowControlManager * res unit :=
  let f := set_stream f streamID c in
  if CheckFlowControlViolation c
  then (f, Err (errStreamViolation byteOffset streamID (fc_receiveWindow c)))
  else if fc_contributesToConnection c then
    let conn := IncrementHighestReceived (connFlowController f) increment in
    let f := set_conn f conn in
    if CheckFlowControlViolation conn
    then (f, Err (errConnectionViolation byteOffset (fc_receiveWindow conn)))
    else (f, Ok tt)
  else (f, Ok tt).

Definition ResetStream (f : flowControlManager) (streamID byteOffset : Z)
    : flowControlManager * res unit :=
  match streamFlowController f !! streamID with
  | None => (f, Err errMapAccess)
  | Some c =>
      let '(c, increment, err) := fc_UpdateHighestReceived c byteOffset in
      match err with
      | Some _ => (f, Err (ErrorCodeErr StreamDataAfterTermination))
      | None => checkReceived f streamID byteOffset c increment
      end
  end.

Definition UpdateHighestReceived (f : flowControlManager) (streamID byteOffset : Z)
    : flowControlManager * res unit :=
  match streamFlowController f !! streamID with
  | None => (f, Err errMapAccess)
  | Some c =>
      let '(c, increment, _) := fc_UpdateHighestReceived c byteOffset in
      checkReceived f streamID byteOffset c increment
  end.

Definition AddBytesRead (f : flowControlManager) (now streamID n : Z)
    : flowControlManager * res unit :=
  match streamFlowController f !! streamID with
  | None => (f, Err errMapAccess)
  | Some c =>
      let f := set_stream f streamID (fc_AddBytesRead c now n) in
      if fc_contributesToConnection c
      then (set_conn f (fc_AddBytesRead (connFlowController f) now n), Ok tt)
      else (f, Ok tt)
  end.

(** The loop over the stream controllers, in the order [ids] in which the map is
    traversed *)
Fixpoint streamWindowUpdates (f : flowControlManager) (now rtt : Z) (ids : list Z)
    (res : list WindowUpdate) : flowControlManager * list WindowUpdate :=
  match ids with
  | [] => (f, res)
  | id :: ids =>
      match streamFlowController f !! id with
      | None => streamWindowUpdates f now rtt ids res
      | Some fc =>
          let '(fc, necessary, newIncrement, offset) := MaybeUpdateWindow fc now rtt in
          let f := set_stream f id fc in
          if necessary then
            let f :=
              if fc_contributesToConnection fc && negb (newIncrement =? 0)
              then set_conn f (EnsureMinimumWindowIncrement (connFlowController f)
                                 (connectionIncrement newIncrement))
              else f in
            streamWindowUpdates f now rtt ids (res ++ [mkWindowUpdate id offset])
          else streamWindowUpdates f now rtt ids res
      end
  end.

Definition GetWindowUpdates (f : flowControlManager) (now rtt : Z) (ids : list Z)
    : flowControlManager * list WindowUpdate :=
  let '(f, res) := streamWindowUpdates f now rtt ids [] in
  let '(conn, necessary, _, offset) := MaybeUpdateWindow (connFlowController f) now rtt in
  let f := set_conn f conn in
  if necessary then (f, res ++ [mkWindowUpdate 0 offset]) else (f, res).

Definition GetReceiveWindow (f : flowControlManager) (streamID : Z) : res Z :=
  match streamFlowController f !! streamID with
  | None => Err errMapAccess
  | Some c => Ok (fc_receiveWindow c)
  end.

Definition AddBytesSent (f : flowControlManager) (streamID n : Z)
    : flowControlManager * res unit :=
  match streamFlowController f !! streamID with
  | None => (f, Err errMapAccess)
  | Some c =>
      let f := set_stream f streamID (fc_AddBytesSent c n) in
      if fc_contributesToConnection c
      then (set_conn f (fc_AddBytesSent (connFlowController f) n), Ok tt)
      else (f, Ok tt)
  end.

Definition SendWindowSize (f : flowControlManager) (streamID : Z) : res Z :=
  match streamFlowController f !! streamID with
  | None => Err errMapAccess
  | Some c =>
      let r := fc_SendWindowSize connectionParameters c in
      if fc_contributesToConnection c
      then Ok (MinByteCount r (fc_SendWindowSize connectionParameters (connFlowController f)))
      else Ok r
  end.

Definition RemainingConnectionWindowSize (f : flowControlManager) : Z :=
  fc_SendWindowSize connectionParameters (connFlowController f).

Definition UpdateWindow (f : flowControlManager) (streamID offset : Z)
    : flowControlManager * res bool :=
  if streamID =? 0 then
    let '(conn, b) := UpdateSendWindow (connFlowController f) offset in (set_conn f conn, Ok b)
  else
    match streamFlowController f !! streamID with
    | None => (f, Err errMapAccess)
    | Some c => let '(c, b) := UpdateSendWindow c offset in (set_stream f streamID c, Ok b)
    end.
End manager.

(** ** flowcontrol/interface.go

    The interface that streams, the stream framer and the session use.  The current time,
    the smoothed RTT and the order in which a map is traversed are arguments. *)

Class FlowControlManager (F : Type) : Type := {
  FlowNewStream : F -> Z -> bool -> F;
  FlowRemoveStream : F -> Z -> F;
  FlowResetStream : F -> Z -> Z -> F * res unit;
  FlowUpdateHighestReceived : F -> Z -> Z -> F * res unit;
  FlowAddBytesRead : F -> Z -> Z -> Z -> F * res unit;
  FlowGetWindowUpdates : F -> Z -> Z -> list Z -> F * list WindowUpdate;
  FlowGetReceiveWindow : F -> Z -> res Z;
  FlowAddBytesSent : F -> Z -> Z -> F * res unit;
  FlowSendWindowSize : F -> Z -> res Z;
  FlowRemainingConnectionWindowSize : F -> Z;
  FlowUpdateWindow : F -> Z -> Z -> F * res bool;
}.

(** The manager implements it, with the connection parameters of the moment. *)
Definition flowControlManager_methods {A} `{ConnectionParametersManager A} (connectionParameters : A)
    : FlowControlManager flowControlManager := {|
  FlowNewStream := fcm_NewStream connectionParameters;
  FlowRemoveStream := RemoveStream;
  FlowResetStream := ResetStream;
  FlowUpdateHighestReceived := UpdateHighestReceived;
  FlowAddBytesRead := AddBytesRead;
  FlowGetWindowUpdates := GetWindowUpdates;
  FlowGetReceiveWindow := GetReceiveWindow;
  FlowAddBytesSent := AddBytesSent;
  FlowSendWindowSize := SendWindowSize connectionParameters;
  FlowRemainingConnectionWindowSize := RemainingConnectionWindowSize connectionParameters;
  FlowUpdateWindow := UpdateWindow;
|}.

(** What a sender relies on: [sends_ok] says that no window is exceeded, and sending at most
    [SendWindowSize] bytes keeps it. *)
Class FlowControlLaws (F : Type) `{FlowControlManager F} (sends_ok : F -> Prop) : Prop := {
  flow_window f id w : FlowSendWindowSize f id = Ok w -> 0 <= w;
  flow_sent f id w n : sends_ok f -> FlowSendWindowSize f id = Ok w -> 0 <= n <= w ->
    sends_ok (FlowAddBytesSent f id n).1;
  flow_sent_nothing f id : sends_ok f -> sends_ok (FlowAddBytesSent f id 0).1;
}.

(** ** One controller *)

(** What has been read is at most what has been received, which is at most the
    advertised window, which is at most one increment above what has been read.
    Byte counts stay below 2^62. *)
Record fc_ok (c : flowController) : Prop := mkFcOk {
  fo_read : 0 <= fc_bytesRead c < 2 ^ 62;
  fo_high : fc_bytesRead c <= fc_highestReceived c <= fc_receiveWindow c;
  fo_window : fc_receiveWindow c <= fc_bytesRead c + fc_receiveWindowIncrement c;
  fo_inc : 0 < fc_receiveWindowIncrement c <= fc_maxReceiveWindowIncrement c;
  fo_max : fc_maxReceiveWindowIncrement c < 2 ^ 32;
}.

Lemma newFlowController_ok {A} `{ConnectionParametersLaws A ok} (p : A) id contributes :
  ok p -> fc_ok (newFlowController p id contributes).
Proof.
  intros Hok. destruct (receive_window_bounds p Hok) as (? & ? & ? & ?).
  unfold newFlowController. destruct (id =? 0); constructor; simpl; lia.
Qed.

Lemma fc_AddBytesRead_ok c now n :
  fc_ok c -> 0 <= n <= fc_highestReceived c - fc_bytesRead c -> fc_bytesRead c + n < 2 ^ 62 ->
  fc_ok (fc_AddBytesRead c now n) /\
  fc_bytesRead (fc_AddBytesRead c now n) = fc_bytesRead c + n /\
  fc_highestReceived (fc_AddBytesRead c now n) = fc_highestReceived c /\
  fc_receiveWindow (fc_AddBytesRead c now n) = fc_receiveWindow c.
Proof.
  intros [] Hn Hsmall. unfold fc_AddBytesRead.
  assert (fc_bytesRead (if fc_bytesRead c =? 0 then set_lastWindowUpdateTime c now else c) = fc_bytesRead c)
    as -> by (by case_if).
  rewrite u64_small by (unfold_width; lia).
  destruct (fc_bytesRead c =? 0); (split_and!; [constructor|..]); simpl; (done || lia).
Qed.

Lemma EnsureMinimumWindowIncrement_ok c inc :
  fc_ok c ->
  let c' := EnsureMinimumWindowIncrement c inc in
  fc_ok c' /\ fc_bytesRead c' = fc_bytesRead c /\ fc_highestReceived c' = fc_highestReceived c /\
  fc_receiveWindow c' = fc_receiveWindow c /\ fc_receiveWindowIncrement c <= fc_receiveWindowIncrement c'.
Proof.
  intros []. unfold EnsureMinimumWindowIncrement. cbv zeta. case_if.
  - rewrite MinByteCount_min. split_and!; [constructor|..]; simpl; (done || lia).
  - split_and!; [constructor|..]; (done || lia).
Qed.

(** An update only raises the window; afterwards at least half of the increment
    is open. *)
Lemma MaybeUpdateWindow_ok c now rtt :
  fc_ok c ->
  let '(c', necessary, newIncrement, offset) := MaybeUpdateWindow c now rtt in
  fc_ok c' /\ fc_bytesRead c' = fc_bytesRead c /\ fc_highestReceived c' = fc_highestReceived c /\
  fc_contributesToConnection c' = fc_contributesToConnection c /\
  fc_receiveWindow c <= fc_receiveWindow c' /\
  fc_receiveWindowIncrement c' / 2 <= fc_receiveWindow c' - fc_bytesRead c' /\
  (necessary = true -> offset = fc_receiveWindow c' /\ fc_receiveWindow c < offset) /\
  (necessary = false -> c' = c).
Proof.
  intros Hc. pose proof Hc as []. unfold MaybeUpdateWindow. rewrite u64_small by (unfold_width; lia).
  case_if; [|split_and!; (done || lia)].
  assert (exists inc, maybeAdjustWindowIncrement c now rtt = set_receiveWindowIncrement c inc /\
    fc_receiveWindowIncrement c <= inc <= fc_maxReceiveWindowIncrement c) as (inc & -> & Hinc).
  { unfold maybeAdjustWindowIncrement. rewrite MinByteCount_min, u64_small by (unfold_width; lia).
    assert (c = set_receiveWindowIncrement c (fc_receiveWindowIncrement c)) as E by by destruct c.
    repeat case_if; eexists; (split; [first [exact E|reflexivity]|lia]). }
  cbn. rewrite u64_small by (unfold_width; lia).
  assert (inc / 2 <= inc /\ fc_receiveWindowIncrement c / 2 <= inc / 2 /\
    fc_receiveWindowIncrement c / 2 <= fc_receiveWindowIncrement c)
    by (Z.to_euclidean_division_equations; lia).
  split_and!; try done; try lia. constructor; simpl; lia.
Qed.

(** ** The sums over the streams *)

Definition weight (g : flowController -> Z) (c : flowController) : Z :=
  if fc_contributesToConnection c then g c else 0.
Definition total (g : flowController -> Z) (m : gmap Z flowController) : Z :=
  map_fold (fun _ c acc => weight g c + acc) 0 m.

Lemma total_empty g : total g ∅ = 0.
Proof. apply map_fold_empty. Qed.

Lemma total_insert_new g m i c : m !! i = None -> total g (<[i := c]> m) = weight g c + total g m.
Proof. intros Hi. unfold total. rewrite map_fold_insert_L; [done|intros; lia|done]. Qed.

Lemma total_delete g m i c : m !! i = Some c -> total g (delete i m) = total g m - weight g c.
Proof.
  intros Hi. rewrite <- (insert_delete_id m i c Hi) at 2.
  rewrite total_insert_new by apply lookup_delete_eq. lia.
Qed.

Lemma total_insert g m i c c' :
  m !! i = Some c -> total g (<[i := c']> m) = total g m - weight g c + weight g c'.
Proof.
  intros Hi. rewrite <- insert_delete_eq. rewrite total_insert_new by apply lookup_delete_eq.
  rewrite (total_delete g m i c Hi). lia.
Qed.

Lemma total_le g1 g2 m :
  (forall i c, m !! i = Some c -> g1 c <= g2 c) -> total g1 m <= total g2 m.
Proof.
  intros Hle. induction m as [|i c m Hi IH] using map_ind; [by rewrite !total_empty|].
  rewrite !total_insert_new by done.
  assert (g1 c <= g2 c) by (eapply (Hle i); apply lookup_insert_eq).
  assert (total g1 m <= total g2 m).
  { apply IH. intros j c' Hj. apply (Hle j). rewrite lookup_insert_ne by congruence. done. }
  unfold weight. destruct (fc_contributesToConnection c); lia.
Qed.

(** ** The manager as a state machine *)

Section reach.
Context {A : Type} {ok : A -> Prop} `{ConnectionParametersLaws A ok}.

(** [fcm_reach f h r]: [f] is reached by operations that did not report a
    violation; [h] and [r] are the bytes received and read on the streams that
    have been removed.  The application reads at most what has been received. *)
Inductive fcm_reach : flowControlManager -> Z -> Z -> Prop :=
| freach_new p : ok p -> fcm_reach (NewFlowControlManager p) 0 0
| freach_stream p f h r id contributes :
    fcm_reach f h r -> ok p -> fcm_reach (fcm_NewStream p f id contributes) h r
| freach_received f h r id off f' :
    fcm_reach f h r -> is_u64 off -> UpdateHighestReceived f id off = (f', Ok tt) ->
    fcm_reach f' h r
| freach_reset f h r id off f' :
    fcm_reach f h r -> is_u64 off -> ResetStream f id off = (f', Ok tt) -> fcm_reach f' h r
| freach_read f h r now id n c :
    fcm_reach f h r -> streamFlowController f !! id = Some c ->
    0 <= n <= fc_highestReceived c - fc_bytesRead c ->
    fc_bytesRead c + n < 2 ^ 62 -> fc_bytesRead (connFlowController f) + n < 2 ^ 62 ->
    fcm_reach (AddBytesRead f now id n).1 h r
| freach_updates f h r now rtt ids :
    fcm_reach f h r -> fcm_reach (GetWindowUpdates f now rtt ids).1 h r
| freach_remove f h r id c :
    fcm_reach f h r -> streamFlowController f !! id = Some c ->
    fcm_reach (RemoveStream f id) (h + weight fc_highestReceived c) (r + weight fc_bytesRead c)
| freach_sent f h r id n : fcm_reach f h r -> fcm_reach (AddBytesSent f id n).1 h r
| freach_window f h r id off : fcm_reach f h r -> fcm_reach (UpdateWindow f id off).1 h r.

Record fcm_ok (f : flowControlManager) (h r : Z) : Prop := mkFcmOk {
  mo_streams : forall id c, streamFlowController f !! id = Some c -> fc_ok c;
  mo_conn : fc_ok (connFlowController f);
  mo_highest : fc_highestReceived (connFlowController f)
    = h + total fc_highestReceived (streamFlowController f);
  mo_read : fc_bytesRead (connFlowController f) = r + total fc_bytesRead (streamFlowController f);
  mo_removed : 0 <= r <= h;
}.

Lemma fc_ok_send c x :
  (fc_ok (set_bytesSent c x) <-> fc_ok c) /\ (fc_ok (set_sendWindow c x) <-> fc_ok c).
Proof. split; (split; intros []; constructor; done). Qed.

Lemma streams_insert (P : flowController -> Prop) (m : gmap Z flowController) i c :
  (forall j d, m !! j = Some d -> P d) -> P c ->
  forall j d, <[i := c]> m !! j = Some d -> P d.
Proof. intros Hm Hc j d. rewrite lookup_insert_Some. intros [[_ <-]|[_ Hj]]; eauto. Qed.

(** Replacing a stream's controller by one with the same counters *)
Lemma fcm_ok_set_stream f h r id c c' :
  fcm_ok f h r -> streamFlowController f !! id = Some c -> fc_ok c' ->
  fc_contributesToConnection c' = fc_contributesToConnection c ->
  fc_highestReceived c' = fc_highestReceived c -> fc_bytesRead c' = fc_bytesRead c ->
  fcm_ok (set_stream f id c') h r.
Proof.
  intros [] Hc Hok' E1 E2 E3. constructor; cbn [streamFlowController connFlowController set_stream]; auto.
  - by apply streams_insert.
  - rewrite (total_insert _ _ _ c _ Hc). unfold weight. rewrite E1, E2. lia.
  - rewrite (total_insert _ _ _ c _ Hc). unfold weight. rewrite E1, E3. lia.
Qed.

Lemma fcm_ok_set_conn f h r c :
  fcm_ok f h r -> fc_ok c -> fc_highestReceived c = fc_highestReceived (connFlowController f) ->
  fc_bytesRead c = fc_bytesRead (connFlowController f) -> fcm_ok (set_conn f c) h r.
Proof. intros [] Hc E1 E2. constructor; cbn [streamFlowController connFlowController set_conn]; congruence || done. Qed.

(** The result of the two receive operations *)
Lemma checkReceived_spec f h r id off c c' inc :
  fcm_ok f h r -> streamFlowController f !! id = Some c -> is_u64 off ->
  c' = set_highestReceived c (Z.max off (fc_highestReceived c)) ->
  inc = Z.max 0 (off - fc_highestReceived c) ->
  let '(f', res) := checkReceived f id off c' inc in
  (res = Ok tt <-> off <= fc_receiveWindow c /\
     (fc_contributesToConnection c = true ->
      fc_highestReceived (connFlowController f) + inc <= fc_receiveWindow (connFlowController f))) /\
  (res = Ok tt -> fcm_ok f' h r).
Proof.
  intros Hf Hc Hoff -> ->. pose proof Hf as [Hs Hconn Hh Hr Hrem].
  pose proof (Hs _ _ Hc) as Hcok. pose proof Hcok as []. pose proof Hconn as [].
  unfold checkReceived, CheckFlowControlViolation. cbn [fc_highestReceived fc_receiveWindow
    set_highestReceived fc_contributesToConnection]. unfold is_u64 in Hoff.
  case_if; [split; [split; [done|lia]|done]|].
  assert (fc_ok (set_highestReceived c (Z.max off (fc_highestReceived c)))) as Hc'
    by (constructor; simpl; lia).
  destruct (fc_contributesToConnection c) eqn:Econ.
  - unfold IncrementHighestReceived.
    cbn [connFlowController set_stream fc_highestReceived fc_receiveWindow set_highestReceived].
    rewrite u64_small by (unfold_width; lia). case_if; [split; [split; [done|intuition lia]|done]|].
    split; [split; [intuition lia|done]|]. intros _.
    constructor; cbn [streamFlowController connFlowController set_stream set_conn
      fc_highestReceived fc_bytesRead set_highestReceived]; auto.
    + by apply streams_insert.
    + constructor; simpl; lia.
    + rewrite (total_insert _ _ _ c _ Hc), Hh. unfold weight. simpl. rewrite Econ. lia.
    + rewrite (total_insert _ _ _ c _ Hc), Hr. unfold weight. simpl. rewrite Econ. lia.
  - split; [split; [intuition lia|done]|]. intros _.
    constructor; cbn [streamFlowController connFlowController set_stream]; auto.
    + by apply streams_insert.
    + rewrite (total_insert _ _ _ c _ Hc), Hh. unfold weight. simpl. rewrite Econ. lia.
    + rewrite (total_insert _ _ _ c _ Hc), Hr. unfold weight. simpl. rewrite Econ. lia.
Qed.

Lemma fc_UpdateHighestReceived_spec c off :
  fc_ok c -> is_u64 off ->
  let '(c', inc, err) := fc_UpdateHighestReceived c off in
  c' = set_highestReceived c (Z.max off (fc_highestReceived c)) /\
  inc = Z.max 0 (off - fc_highestReceived c) /\ (err = None <-> fc_highestReceived c <= off).
Proof.
  intros [] Hoff. unfold is_u64 in Hoff. unfold fc_UpdateHighestReceived.
  assert (forall x, x = fc_highestReceived c -> c = set_highestReceived c x) as E
    by (intros x ->; by destruct c).
  case_if; [split_and!; [apply E; lia|lia|split; [lia|done]]|]. case_if.
  - rewrite u64_small by (unfold_width; lia). split_and!; [f_equal; lia|lia|split; [lia|done]].
  - split_and!; [apply E; lia|lia|split; [done|lia]].
Qed.

Lemma fcm_received_spec f h r id off c :
  fcm_ok f h r -> streamFlowController f !! id = Some c -> is_u64 off ->
  let '(f', res) := UpdateHighestReceived f id off in
  (res = Ok tt <-> off <= fc_receiveWindow c /\
     (fc_contributesToConnection c = true ->
      fc_highestReceived (connFlowController f) + Z.max 0 (off - fc_highestReceived c)
        <= fc_receiveWindow (connFlowController f))) /\
  (res = Ok tt -> fcm_ok f' h r).
Proof.
  intros Hf Hc Hoff. unfold UpdateHighestReceived. rewrite Hc.
  pose proof (fc_UpdateHighestReceived_spec c off (mo_streams f h r Hf _ _ Hc) Hoff) as Hu.
  destruct (fc_UpdateHighestReceived c off) as [[c' inc] err]. destruct Hu as (-> & -> & _).
  by apply (checkReceived_spec f h r id off c _ _ Hf).
Qed.

Lemma fcm_ok_read f h r now id n c :
  fcm_ok f h r -> streamFlowController f !! id = Some c ->
  0 <= n <= fc_highestReceived c - fc_bytesRead c ->
  fc_bytesRead c + n < 2 ^ 62 -> fc_bytesRead (connFlowController f) + n < 2 ^ 62 ->
  fcm_ok (AddBytesRead f now id n).1 h r.
Proof.
  intros Hf Hc Hn Hs1 Hs2. pose proof Hf as [Hs Hconn Hh Hr Hrem]. unfold AddBytesRead. rewrite Hc.
  destruct (fc_AddBytesRead_ok c now n (Hs _ _ Hc) Hn Hs1) as (Hok & E1 & E2 & E3).
  assert (fc_contributesToConnection (fc_AddBytesRead c now n) = fc_contributesToConnection c) as E4
    by (unfold fc_AddBytesRead; by case_if).
  destruct (fc_contributesToConnection c) eqn:Econ.
  - assert (n <= fc_highestReceived (connFlowController f) - fc_bytesRead (connFlowController f)).
    { pose proof (total_delete fc_highestReceived _ id c Hc) as D1.
      pose proof (total_delete fc_bytesRead _ id c Hc) as D2. unfold weight in D1, D2.
      rewrite Econ in D1, D2.
      assert (total fc_bytesRead (delete id (streamFlowController f)) <=
        total fc_highestReceived (delete id (streamFlowController f))); [|lia].
      apply total_le. intros i d [_ Hd]%lookup_delete_Some. destruct (Hs _ _ Hd). lia. }
    destruct (fc_AddBytesRead_ok (connFlowController f) now n Hconn) as (Hok' & F1 & F2 & F3); [lia|done|].
    cbn [fst]. constructor; cbn [streamFlowController connFlowController set_stream set_conn]; auto.
    + by apply streams_insert.
    + rewrite F2, Hh, (total_insert _ _ _ c _ Hc). unfold weight. rewrite E4, Econ, E2. lia.
    + rewrite F1, Hr, (total_insert _ _ _ c _ Hc). unfold weight. rewrite E4, Econ, E1. lia.
  - cbn [fst]. constructor; cbn [streamFlowController connFlowController set_stream]; auto.
    + by apply streams_insert.
    + rewrite Hh, (total_insert _ _ _ c _ Hc). unfold weight. rewrite E4, Econ. lia.
    + rewrite Hr, (total_insert _ _ _ c _ Hc). unfold weight. rewrite E4, Econ. lia.
Qed.

(** A stream's window never shrinks, and is half open when its turn has come. *)
Definition updated (c c' : flowController) (visited : bool) : Prop :=
  fc_bytesRead c' = fc_bytesRead c /\ fc_receiveWindow c <= fc_receiveWindow c' /\
  (if visited then fc_receiveWindowIncrement c' / 2 <= fc_receiveWindow c' - fc_bytesRead c'
   else c' = c).

Lemma streamWindowUpdates_ok f h r now rtt ids acc :
  fcm_ok f h r ->
  let '(f', _) := streamWindowUpdates f now rtt ids acc in
  fcm_ok f' h r /\
  (fc_receiveWindow (connFlowController f) <= fc_receiveWindow (connFlowController f') /\
   fc_bytesRead (connFlowController f') = fc_bytesRead (connFlowController f)) /\
  forall id c, streamFlowController f !! id = Some c ->
    exists c', streamFlowController f' !! id = Some c' /\ updated c c' (bool_decide (id ∈ ids)).
Proof.
  revert f acc; induction ids as [|i ids IH]; intros f acc Hf; cbn [streamWindowUpdates].
  { split_and!; [done|lia|done|]. intros id c Hc. exists c. split; [done|].
    unfold updated. rewrite bool_decide_false by apply not_elem_of_nil. split_and!; (done || lia). }
  destruct (streamFlowController f !! i) as [d|] eqn:Ed.
  2: { specialize (IH f acc Hf). destruct (streamWindowUpdates f now rtt ids acc) as [f' acc'].
       destruct IH as (H1 & H2 & H3). split; [done|]. split; [done|]. intros id c Hc.
       destruct (H3 id c Hc) as (c' & Hc' & Hu). exists c'. split; [done|].
       rewrite (bool_decide_ext (id ∈ i :: ids) (id ∈ ids)); [done|].
       rewrite elem_of_cons. split; [intros [-> | ?]; [congruence|done]|by right]. }
  pose proof (MaybeUpdateWindow_ok d now rtt (mo_streams f h r Hf _ _ Ed)) as Hmu.
  destruct (MaybeUpdateWindow d now rtt) as [[[d' nec] inc] off].
  destruct Hmu as (Hd' & E1 & E2 & E3 & Hw & Hhalf & _ & _).
  set (f1 := set_stream f i d').
  assert (fcm_ok f1 h r) as Hf1 by (by eapply fcm_ok_set_stream).
  set (f2 := if nec then if fc_contributesToConnection d' && negb (inc =? 0)
    then set_conn f1 (EnsureMinimumWindowIncrement (connFlowController f1) (connectionIncrement inc))
    else f1 else f1).
  assert (fcm_ok f2 h r /\ streamFlowController f2 = <[i := d']> (streamFlowController f) /\
    fc_receiveWindow (connFlowController f2) = fc_receiveWindow (connFlowController f) /\
    fc_bytesRead (connFlowController f2) = fc_bytesRead (connFlowController f)) as (Hf2 & Es & Ec & Er).
  { subst f2. destruct nec; [|done]. destruct (_ && _); [|done].
    destruct (EnsureMinimumWindowIncrement_ok (connFlowController f1) (connectionIncrement inc)
      (mo_conn f1 h r Hf1)) as (G1 & G2 & G3 & G4 & _).
    split_and!; [by apply fcm_ok_set_conn|done|exact G4|exact G2]. }
  assert (forall acc', let '(f', _) := streamWindowUpdates f2 now rtt ids acc' in
    fcm_ok f' h r /\
    (fc_receiveWindow (connFlowController f) <= fc_receiveWindow (connFlowController f') /\
     fc_bytesRead (connFlowController f') = fc_bytesRead (connFlowController f)) /\
    forall id c, streamFlowController f !! id = Some c ->
      exists c', streamFlowController f' !! id = Some c' /\
        updated c c' (bool_decide (id ∈ i :: ids))) as Hgo.
  { intros acc'. specialize (IH f2 acc' Hf2). destruct (streamWindowUpdates f2 now rtt ids acc') as [f' ?].
    destruct IH as (H1 & H2 & H3). split_and!; [done|lia|lia|]. intros id c Hc. rewrite Es in H3.
    destruct (decide (i = id)) as [<-|Hne].
    - destruct (H3 i d' ltac:(apply lookup_insert_eq)) as (c' & Hc' & U1 & U2 & U3). exists c'.
      replace c with d in * by congruence. split; [done|]. unfold updated. split_and!; [lia|lia|].
      rewrite (bool_decide_true (i ∈ i :: ids)) by left.
      destruct (bool_decide (i ∈ ids)); [done|by subst c'].
    - destruct (H3 id c) as (c' & Hc' & Hu); [by rewrite lookup_insert_ne|]. exists c'.
      split; [done|]. rewrite (bool_decide_ext (id ∈ i :: ids) (id ∈ ids)); [done|].
      rewrite elem_of_cons. split; [intros [-> | ?]; [congruence|done]|by right]. }
  subst f2. destruct nec; apply Hgo.
Qed.

Lemma GetWindowUpdates_ok f h r now rtt ids :
  fcm_ok f h r ->
  let f' := (GetWindowUpdates f now rtt ids).1 in
  fcm_ok f' h r /\ updated (connFlowController f) (connFlowController f') true /\
  forall id c, streamFlowController f !! id = Some c ->
    exists c', streamFlowController f' !! id = Some c' /\ updated c c' (bool_decide (id ∈ ids)).
Proof.
  intros Hf. unfold GetWindowUpdates. pose proof (streamWindowUpdates_ok f h r now rtt ids [] Hf) as Hs.
  destruct (streamWindowUpdates f now rtt ids []) as [f1 acc]. destruct Hs as (H1 & H2 & H3).
  pose proof (MaybeUpdateWindow_ok (connFlowController f1) now rtt (mo_conn f1 h r H1)) as Hmu.
  destruct (MaybeUpdateWindow _ now rtt) as [[[c' nec] inc] off].
  destruct Hmu as (Hd' & E1 & E2 & E3 & Hw & Hhalf & _ & _).
  assert (fcm_ok (set_conn f1 c') h r) as Hok by by apply fcm_ok_set_conn.
  assert (updated (connFlowController f) c' true) as Hu.
  { unfold updated. split_and!; [lia|lia|done]. }
  destruct nec; split_and!; done.
Qed.

Lemma fcm_reach_ok f h r : fcm_reach f h r -> fcm_ok f h r.
Proof.
  induction 1 as [p Hp|p f h r id contributes _ IH Hp|f h r id off f' _ IH Hoff E
    |f h r id off f' _ IH Hoff E|f h r now id n c _ IH Hc Hn H1 H2|f h r now rtt ids _ IH
    |f h r id c _ IH Hc|f h r id n _ IH|f h r id off _ IH].
  - constructor; cbn [streamFlowController connFlowController NewFlowControlManager]; try done;
      [|by rewrite total_empty..]. by apply (newFlowController_ok (ok := ok)).
  - unfold fcm_NewStream. destruct (streamFlowController f !! id) eqn:E; [done|].
    destruct IH. constructor; cbn [streamFlowController connFlowController set_stream]; auto.
    + apply streams_insert; [done|]. by apply (newFlowController_ok (ok := ok)).
    + rewrite total_insert_new by done. unfold weight, newFlowController. repeat case_if; simpl; lia.
    + rewrite total_insert_new by done. unfold weight, newFlowController. repeat case_if; simpl; lia.
  - destruct (streamFlowController f !! id) as [c|] eqn:Hc.
    + pose proof (fcm_received_spec f h r id off c IH Hc Hoff) as Hs. rewrite E in Hs. by apply Hs.
    + unfold UpdateHighestReceived in E. by rewrite Hc in E.
  - unfold ResetStream in E. destruct (streamFlowController f !! id) as [c|] eqn:Hc; [|done].
    pose proof (fc_UpdateHighestReceived_spec c off (mo_streams f h r IH _ _ Hc) Hoff) as Hu.
    destruct (fc_UpdateHighestReceived c off) as [[c' inc] [e|]]; [done|]. destruct Hu as (-> & -> & _).
    pose proof (checkReceived_spec f h r id off c _ _ IH Hc Hoff eq_refl eq_refl) as Hs.
    rewrite E in Hs. by apply Hs.
  - by apply (fcm_ok_read _ _ _ _ _ _ c).
  - by apply GetWindowUpdates_ok.
  - destruct IH. constructor; cbn [streamFlowController connFlowController RemoveStream]; auto.
    + intros j d [_ Hd]%lookup_delete_Some. eauto.
    + rewrite (total_delete _ _ _ c Hc). lia.
    + rewrite (total_delete _ _ _ c Hc). lia.
    + destruct (mo_streams0 _ _ Hc). unfold weight. destruct (fc_contributesToConnection c); lia.
  - unfold AddBytesSent. destruct (streamFlowController f !! id) as [c|] eqn:Hc; [|done].
    assert (fcm_ok (set_stream f id (fc_AddBytesSent c n)) h r) as Hf1.
    { eapply fcm_ok_set_stream; eauto. apply fc_ok_send. by eapply mo_streams. }
    destruct (fc_contributesToConnection c); [|done]. apply fcm_ok_set_conn; try done.
    apply fc_ok_send. apply IH.
  - unfold UpdateWindow, UpdateSendWindow. case_if.
    + case_if; cbn [fst]; (apply fcm_ok_set_conn; [done| |done|done]); [apply fc_ok_send|]; apply IH.
    + destruct (streamFlowController f !! id) as [c|] eqn:Hc; [|done].
      case_if; cbn [fst]; (eapply fcm_ok_set_stream; eauto); [apply fc_ok_send|];
        by eapply mo_streams.
Qed.

(** C15: in every reachable state, the connection's counters are the sums over
    the streams that count for the connection, the closed ones included; and on
    each stream and on the connection, the data that has been received but not
    read fits into the advertised window, which is at most the configured
    maximum above what has been read. *)
Theorem flow_control_bounded f h r :
  fcm_reach f h r ->
  fc_highestReceived (connFlowController f) = h + total fc_highestReceived (streamFlowController f) /\
  fc_bytesRead (connFlowController f) = r + total fc_bytesRead (streamFlowController f) /\
  forall c, c = connFlowController f \/ (exists id, streamFlowController f !! id = Some c) ->
    0 <= fc_highestReceived c - fc_bytesRead c <= fc_receiveWindow c - fc_bytesRead c /\
    fc_receiveWindow c - fc_bytesRead c <= fc_maxReceiveWindowIncrement c.
Proof.
  intros []%fcm_reach_ok. split_and!; [done|done|]. intros c Hc.
  assert (fc_ok c) as [] by (destruct Hc as [-> | [id Hc]]; eauto). lia.
Qed.

(** Received data is accepted if and only if it stays within the window of
    its stream and, when the stream counts for the connection, within the window
    of the connection. *)
Theorem flow_control_enforced f h r id c off :
  fcm_reach f h r -> streamFlowController f !! id = Some c -> is_u64 off ->
  (UpdateHighestReceived f id off).2 = Ok tt <->
  off <= fc_receiveWindow c /\
  (fc_contributesToConnection c = true ->
   fc_highestReceived (connFlowController f) + Z.max 0 (off - fc_highestReceived c)
     <= fc_receiveWindow (connFlowController f)).
Proof.
  intros Hf%fcm_reach_ok Hc Hoff. pose proof (fcm_received_spec f h r id off c Hf Hc Hoff) as Hs.
  destruct (UpdateHighestReceived f id off) as [f' res]. apply Hs.
Qed.

(** The window updates never shrink a window, and leave at least half of the
    increment open on the connection and on every stream, so that the peer can
    continue to send once the application has read. *)
Theorem window_updates_progress f h r now rtt ids :
  fcm_reach f h r -> (forall id c, streamFlowController f !! id = Some c -> id ∈ ids) ->
  let f' := (GetWindowUpdates f now rtt ids).1 in
  updated (connFlowController f) (connFlowController f') true /\
  forall id c, streamFlowController f !! id = Some c ->
    exists c', streamFlowController f' !! id = Some c' /\ updated c c' true.
Proof.
  intros Hf%fcm_reach_ok Hids. destruct (GetWindowUpdates_ok f h r now rtt ids Hf) as (_ & H1 & H2).
  split; [exact H1|]. intros id c Hc. destruct (H2 id c Hc) as (c' & Hc' & Hu).
  exists c'. split; [done|]. rewrite bool_decide_true in Hu by eauto. done.
Qed.
End reach.

(** ** Sending *)

Section sending.
Context {A : Type} `{ConnectionParametersLaws A ok} (p : A).

(** The bytes sent are within the window. *)
Definition send_ok (c : flowController) : Prop :=
  is_u64 (fc_sendWindow c) /\ 0 <= fc_bytesSent c <= getSendWindow p c.

Record within_windows (f : flowControlManager) : Prop := mkWithinWindows {
  ww_streams : forall id c, streamFlowController f !! id = Some c -> send_ok c;
  ww_conn : send_ok (connFlowController f);
}.

Lemma getSendWindow_u64 c : ok p -> is_u64 (fc_sendWindow c) -> is_u64 (getSendWindow p c).
Proof.
  intros Hp Hw. destruct (send_window_u32 p Hp). unfold getSendWindow, is_u64, is_u32 in *.
  repeat case_if; lia.
Qed.

Lemma fc_SendWindowSize_ok c :
  ok p -> send_ok c -> fc_SendWindowSize p c = getSendWindow p c - fc_bytesSent c.
Proof.
  intros Hp [Hw Hs]. pose proof (getSendWindow_u64 c Hp Hw) as Hu. unfold is_u64 in Hu.
  unfold fc_SendWindowSize. rewrite Z.gtb_ltb, (proj2 (Z.ltb_ge _ _)) by lia.
  apply u64_small. unfold_width. lia.
Qed.

Lemma send_ok_add c n :
  ok p -> send_ok c -> 0 <= n <= fc_SendWindowSize p c ->
  send_ok (fc_AddBytesSent c n) /\ fc_bytesSent (fc_AddBytesSent c n) = fc_bytesSent c + n.
Proof.
  intros Hp Hc. rewrite fc_SendWindowSize_ok by done. destruct Hc as [Hw Hs]. intros Hn.
  pose proof (getSendWindow_u64 c Hp Hw) as Hu. unfold is_u64 in Hu.
  unfold send_ok, fc_AddBytesSent. simpl. rewrite u64_small by (unfold_width; lia).
  change (getSendWindow p (set_bytesSent c (fc_bytesSent c + n))) with (getSendWindow p c).
  split; [split; [done|lia]|done].
Qed.

Lemma AddBytesSent_within f id n :
  ok p -> within_windows f -> (n = 0 \/ exists w, SendWindowSize p f id = Ok w /\ 0 <= n <= w) ->
  within_windows (AddBytesSent f id n).1.
Proof.
  intros Hp Hf Hn. unfold AddBytesSent, SendWindowSize in *.
  destruct (streamFlowController f !! id) as [c|] eqn:Hc; [|done].
  pose proof (ww_streams f Hf id c Hc) as Hcok. pose proof (ww_conn f Hf) as Hconn.
  pose proof (fc_SendWindowSize_ok c Hp Hcok) as E1.
  pose proof (fc_SendWindowSize_ok _ Hp Hconn) as E2.
  assert (0 <= n <= fc_SendWindowSize p c /\
    (fc_contributesToConnection c = true -> n <= fc_SendWindowSize p (connFlowController f))) as [Hn1 Hn2].
  { destruct Hcok, Hconn. destruct Hn as [-> | (w & Hw & Hn)]; [lia|].
    destruct (fc_contributesToConnection c); injection Hw as <-; [rewrite MinByteCount_min in Hn|]; lia. }
  assert (within_windows (set_stream f id (fc_AddBytesSent c n))) as Hf'.
  { constructor; [|done]. cbn. intros id' c'. rewrite lookup_insert_Some.
    intros [[_ <-]|[_ Hc']]; [by apply send_ok_add|by apply (ww_streams f Hf id')]. }
  destruct (fc_contributesToConnection c); [|done].
  constructor; [apply Hf'|]. apply send_ok_add; [done|done|]. simpl. split; [lia|by apply Hn2].
Qed.

Lemma newFlowController_send_ok id b : ok p -> send_ok (newFlowController p id b).
Proof.
  intros Hp. destruct (send_window_u32 p Hp) as [H1 H2]. unfold is_u32 in *.
  unfold newFlowController, send_ok, getSendWindow, is_u64. destruct (id =? 0) eqn:E; simpl; rewrite E; lia.
Qed.
Lemma NewFlowControlManager_within : ok p -> within_windows (NewFlowControlManager p).
Proof.
  intros Hp. constructor; [|by apply newFlowController_send_ok].
  intros id c. simpl. by rewrite lookup_empty.
Qed.
Lemma fcm_NewStream_within f id b : ok p -> within_windows f -> within_windows (fcm_NewStream p f id b).
Proof.
  intros Hp Hf. unfold fcm_NewStream. case_match; [done|]. constructor; [|apply Hf].
  intros id' c. simpl. rewrite lookup_insert_Some.
  intros [[_ <-]|[_ Hc]]; [by apply newFlowController_send_ok|by eapply ww_streams].
Qed.

Lemma SendWindowSize_nonneg f id w : SendWindowSize p f id = Ok w -> 0 <= w.
Proof.
  unfold SendWindowSize. destruct (streamFlowController f !! id) as [c|]; [|done].
  assert (forall c, 0 <= fc_SendWindowSize p c) as Hpos.
  { intros c'. unfold fc_SendWindowSize. case_if; [done|]. apply u64_range. }
  case_if; intros [= <-]; [rewrite MinByteCount_min; pose proof (Hpos c); pose proof (Hpos (connFlowController f)); lia|done].
Qed.

#[export] Instance flowControlManager_laws (Hp : ok p) :
  @FlowControlLaws flowControlManager (flowControlManager_methods p) within_windows.
Proof.
  constructor; cbn.
  - intros f id w. apply SendWindowSize_nonneg.
  - intros f id w n Hf Hw Hn. apply AddBytesSent_within; eauto.
  - intros f id Hf. apply AddBytesSent_within; auto.
Qed.
End sending.

(** Whoever sends at most [SendWindowSize] bytes on a stream respects the
    window of the stream and, when the stream counts for it, of the connection. *)
Theorem send_window_respected {A} `{ConnectionParametersLaws A ok} (p : A) f id c n w :
  ok p -> streamFlowController f !! id = Some c ->
  is_u64 (fc_sendWindow c) -> is_u64 (fc_sendWindow (connFlowController f)) ->
  0 <= fc_bytesSent c <= getSendWindow p c ->
  0 <= fc_bytesSent (connFlowController f) <= getSendWindow p (connFlowController f) ->
  SendWindowSize p f id = Ok w -> 0 <= n <= w ->
  exists f' c', AddBytesSent f id n = (f', Ok tt) /\ streamFlowController f' !! id = Some c' /\
    fc_bytesSent c' = fc_bytesSent c + n /\ fc_bytesSent c' <= getSendWindow p c' /\
    fc_bytesSent (connFlowController f') <= getSendWindow p (connFlowController f') /\
    (fc_contributesToConnection c = true ->
     fc_bytesSent (connFlowController f') = fc_bytesSent (connFlowController f) + n).
Proof.
  intros Hok Hc Hw1 Hw2 Hs1 Hs2. destruct (send_window_u32 p Hok) as [Hu1 Hu2].
  assert (forall d, is_u64 (fc_sendWindow d) -> is_u64 (getSendWindow p d)) as Hgw.
  { intros d Hd. unfold getSendWindow, is_u64, is_u32 in *. repeat case_if; lia. }
  pose proof (Hgw _ Hw1). pose proof (Hgw _ Hw2).
  unfold SendWindowSize, AddBytesSent, fc_SendWindowSize. rewrite Hc.
  rewrite !Z.gtb_ltb, !(proj2 (Z.ltb_ge _ _)) by lia. unfold is_u64 in *.
  rewrite !u64_small by (unfold_width; lia). rewrite MinByteCount_min.
  destruct (fc_contributesToConnection c) eqn:Econ; intros [= <-] Hn;
    (eexists _, (fc_AddBytesSent c n); split; [reflexivity|]);
    cbn [streamFlowController connFlowController set_conn set_stream];
    rewrite lookup_insert_eq; unfold fc_AddBytesSent;
    rewrite ?u64_small by (unfold_width; lia); cbn [fc_bytesSent set_bytesSent];
    split_and!; try done; try (change (getSendWindow p (set_bytesSent ?d ?x)) with (getSendWindow p d)); try lia.
Qed.

(** Until the first WINDOW_UPDATE, the negotiated window applies; a first
    WINDOW_UPDATE with a smaller offset lowers the window below what the peer
    has already granted. *)
Theorem first_window_update_can_shrink {A} `{ConnectionParametersManager A} (p : A) off :
  0 < off < GetSendStreamFlowControlWindow p ->
  let c := newFlowController p 5 true in
  (UpdateSendWindow c off).2 = true /\
  getSendWindow p (UpdateSendWindow c off).1 = off /\
  off < getSendWindow p c.
Proof.
  intros Hoff. unfold newFlowController. cbn. unfold UpdateSendWindow, getSendWindow. cbn.
  rewrite Z.gtb_ltb, (proj2 (Z.ltb_lt _ _)) by lia. cbn.
  rewrite (proj2 (Z.eqb_neq _ _)) by lia. split_and!; (done || lia).
Qed.

(** ** Examples: a server with one stream, on which 1000 bytes have arrived *)

Definition sampleParams : connectionParametersManager :=
  NewConnectionParamatersManager PerspectiveServer Version36.
Definition sampleFlow0 : flowControlManager :=
  fcm_NewStream sampleParams (NewFlowControlManager sampleParams) 5 true.
Definition sampleFlow : flowControlManager := (UpdateHighestReceived sampleFlow0 5 1000).1.
Definition sampleController : flowController :=
  set_highestReceived (newFlowController sampleParams 5 true) 1000.

Lemma sampleParams_ok : params_ok sampleParams.
Proof. apply NewConnectionParamatersManager_ok. Qed.

Lemma sampleFlow_reach : fcm_reach (ok := params_ok) sampleFlow 0 0.
Proof.
  apply (freach_received sampleFlow0 0 0 5 1000); [|split; [discriminate|reflexivity]|vm_compute; reflexivity].
  apply freach_stream; [apply freach_new|]; apply sampleParams_ok.
Qed.

Lemma sampleFlow_stream : streamFlowController sampleFlow !! 5 = Some sampleController.
Proof. vm_compute. reflexivity. Qed.

Lemma flow_control_bounded_witness :
  fc_highestReceived (connFlowController sampleFlow)
    = 0 + total fc_highestReceived (streamFlowController sampleFlow) /\
  0 <= fc_highestReceived sampleController - fc_bytesRead sampleController.
Proof.
  destruct (flow_control_bounded (ok := params_ok) sampleFlow 0 0 sampleFlow_reach) as (H1 & _ & H2).
  split; [exact H1|].
  apply (H2 sampleController). right. exists 5. exact sampleFlow_stream.
Defined.

Lemma flow_control_enforced_witness :
  (UpdateHighestReceived sampleFlow 5 2000).2 = Ok tt <->
  2000 <= fc_receiveWindow sampleController /\
  (fc_contributesToConnection sampleController = true ->
   fc_highestReceived (connFlowController sampleFlow) + Z.max 0 (2000 - fc_highestReceived sampleController)
     <= fc_receiveWindow (connFlowController sampleFlow)).
Proof.
  apply (flow_control_enforced (ok := params_ok) sampleFlow 0 0 5 sampleController 2000 sampleFlow_reach);
    [exact sampleFlow_stream|split; [discriminate|reflexivity]].
Defined.

Lemma window_updates_progress_witness :
  updated (connFlowController sampleFlow)
    (connFlowController (GetWindowUpdates sampleFlow 100 10 [5]).1) true.
Proof.
  apply (window_updates_progress (ok := params_ok) sampleFlow 0 0 100 10 [5] sampleFlow_reach).
  intros id c Hc. unfold sampleFlow in Hc. vm_compute in Hc.
  destruct (decide (id = 5)) as [->|Hne]; [left|].
  exfalso. revert Hc. change (streamFlowController sampleFlow !! id = Some c -> False).
  assert (streamFlowController sampleFlow = {[5 := sampleController]}) as -> by (vm_compute; reflexivity).
  rewrite lookup_singleton_ne by done. discriminate.
Defined.

Lemma send_window_respected_witness :
  exists f' c', AddBytesSent sampleFlow 5 100 = (f', Ok tt) /\
    streamFlowController f' !! 5 = Some c' /\ fc_bytesSent c' <= getSendWindow sampleParams c'.
Proof.
  destruct (send_window_respected (ok := params_ok) sampleParams sampleFlow 5 sampleController 100 16384)
    as (f' & c' & H1 & H2 & _ & H3 & _);
    [apply sampleParams_ok|exact sampleFlow_stream|..];
    try (vm_compute; repeat split; (reflexivity || discriminate)).
  exists f', c'. split; [exact H1|]. split; [exact H2|exact H3].
Defined.

Lemma first_window_update_can_shrink_witness :
  getSendWindow sampleParams (UpdateSendWindow (newFlowController sampleParams 5 true) 100).1 = 100.
Proof. apply (first_window_update_can_shrink sampleParams 100). vm_compute. split; reflexivity. Defined.
