(* ===== verification/Floats.v ===== *)
(** * IEEE arithmetic and time

    A product or a sum of non-negative floating-point numbers, all scaled by the
    same power of two to be integers, is the exact result rounded to the precision
    of the format, ties to even; precision is relative, so the scale does not
    matter.  The values of the code are far from overflow and underflow. *)

From S2P Require Import Prelude.

(** [rne p m] rounds [m >= 0] to [p] significant bits. *)
Definition rne (p m : Z) : Z :=
  let e := Z.max 0 (Z.log2 m + 1 - p) in
  let q := Z.shiftr m e in
  let r := m - Z.shiftl q e in
  let half := Z.shiftl 1 e in
  let up := (half <? 2 * r) || ((half =? 2 * r) && Z.odd q) in
  Z.shiftl (if up && (0 <? e) then q + 1 else q) e.

Definition float32_prec : Z := 24.
Definition float64_prec : Z := 53.

(** [time.Time.Sub]: the difference, saturated to a [time.Duration] *)
Definition timeSub (t u : Z) : Z := Z.max (- 2 ^ 63) (Z.min (2 ^ 63 - 1) (t - u)).

Lemma timeSub_small t u : - 2 ^ 63 <= t - u < 2 ^ 63 -> timeSub t u = t - u.
Proof. unfold timeSub. lia. Qed.

Lemma rne_small p m : 0 < p -> 0 <= m < 2 ^ p -> rne p m = m.
Proof.
  intros Hp Hm. unfold rne.
  assert (Z.log2 m < p) as Hlog.
  { destruct (Z.eq_dec m 0) as [->|]; [done|]. apply Z.log2_lt_pow2; lia. }
  rewrite Z.max_l by lia. rewrite andb_false_r. by rewrite Z.shiftr_0_r, Z.shiftl_0_r.
Qed.

Lemma rne_0 p : 0 < p -> rne p 0 = 0.
Proof. intros. apply rne_small; [done|]. pose proof (Z.pow_pos_nonneg 2 p). lia. Qed.

(** The rounding error is at most half a unit in the last place. *)
Lemma rne_error p m : 0 < p -> 0 <= m -> 0 <= rne p m /\ 2 ^ p * Z.abs (rne p m - m) <= m.
Proof.
  intros Hp Hm. destruct (Z.lt_ge_cases m (2 ^ p)) as [Hlt|Hge].
  { rewrite rne_small by lia. rewrite Z.sub_diag. simpl. lia. }
  pose proof (Z.pow_pos_nonneg 2 p ltac:(lia) ltac:(lia)) as Hpp.
  destruct (Z.log2_spec m ltac:(lia)) as [Hl1 Hl2]. pose proof (Z.log2_le_pow2 m p ltac:(lia)) as Hlp.
  assert (p <= Z.log2 m) as Hlog by (apply Hlp; lia).
  unfold rne. rewrite Z.max_r by lia. set (e := Z.log2 m + 1 - p) in *.
  pose proof (Z.pow_pos_nonneg 2 e ltac:(lia) ltac:(lia)) as Hee.
  rewrite !Z.shiftl_mul_pow2, Z.shiftr_div_pow2, Z.mul_1_l by lia.
  pose proof (Z.div_mod m (2 ^ e) ltac:(lia)) as Hdm.
  pose proof (Z.mod_pos_bound m (2 ^ e) ltac:(lia)) as Hmod.
  pose proof (Z.div_pos m (2 ^ e) ltac:(lia) ltac:(lia)) as Hq.
  set (q := m / 2 ^ e) in *. set (rr := m mod 2 ^ e) in *.
  assert (2 ^ p * 2 ^ e <= 2 * m) as Hpe.
  { rewrite <- Z.pow_add_r by lia. replace (p + e) with (Z.succ (Z.log2 m)) by lia.
    rewrite Z.pow_succ_r by apply Z.log2_nonneg. lia. }
  rewrite (proj2 (Z.ltb_lt 0 e)), andb_true_r by lia.
  replace (m - q * 2 ^ e) with rr by lia.
  destruct ((2 ^ e <? 2 * rr) || ((2 ^ e =? 2 * rr) && Z.odd q)) eqn:Eup.
  - assert (2 ^ e <= 2 * rr) by (apply orb_true_iff in Eup as [?|?]; to_prop; lia).
    split; [nia|]. replace ((q + 1) * 2 ^ e - m) with (2 ^ e - rr) by lia. nia.
  - apply orb_false_iff in Eup as [Eup _]. to_prop. split; [nia|].
    replace (q * 2 ^ e - m) with (- rr) by lia. rewrite Z.abs_opp, Z.abs_eq by lia. nia.
Qed.

(** A bound that the format can represent survives the rounding. *)
Lemma rne_le p m c k :
  0 < p -> 0 <= m -> 0 <= k -> 0 <= c < 2 ^ p -> m <= c * 2 ^ k -> rne p m <= c * 2 ^ k.
Proof.
  intros Hp Hm Hk Hc Hle. destruct (Z.lt_ge_cases m (2 ^ p)) as [Hlt|Hge].
  { by rewrite rne_small by lia. }
  pose proof (Z.pow_pos_nonneg 2 p ltac:(lia) ltac:(lia)) as Hpp.
  destruct (Z.log2_spec m ltac:(lia)) as [Hl1 Hl2]. pose proof (Z.log2_le_pow2 m p ltac:(lia)) as Hlp.
  assert (p <= Z.log2 m) as Hlog by (apply Hlp; lia).
  unfold rne. rewrite Z.max_r by lia. set (e := Z.log2 m + 1 - p) in *.
  pose proof (Z.pow_pos_nonneg 2 e ltac:(lia) ltac:(lia)) as Hee.
  pose proof (Z.pow_pos_nonneg 2 k ltac:(lia) ltac:(lia)) as Hkk.
  assert (e <= k) as Hek.
  { destruct (Z.le_gt_cases e k) as [|Hgt]; [done|].
    assert (2 ^ p * 2 ^ k <= 2 ^ Z.log2 m); [|nia].
    rewrite <- Z.pow_add_r by lia. apply Z.pow_le_mono_r; lia. }
  replace k with (k - e + e) in * by lia. rewrite Z.pow_add_r in * by lia.
  rewrite Z.mul_assoc in *. set (b := c * 2 ^ (k - e)) in *. clearbody b.
  rewrite !Z.shiftl_mul_pow2, Z.shiftr_div_pow2, Z.mul_1_l by lia.
  pose proof (Z.div_mod m (2 ^ e) ltac:(lia)) as Hdm.
  pose proof (Z.mod_pos_bound m (2 ^ e) ltac:(lia)) as Hmod.
  set (q := m / 2 ^ e) in *. replace (m - q * 2 ^ e) with (m mod 2 ^ e) by lia.
  apply Z.mul_le_mono_nonneg_r; [lia|].
  assert (q <= b) by nia. case_if; [|done].
  assert (m mod 2 ^ e <> 0); [|nia].
  match goal with H : (_ || _) = true |- _ => apply orb_true_iff in H as [?|?] end; to_prop; lia.
Qed.

(** ** Floating-point numbers with an exponent

    A non-negative number [m * 2^e]; the code computes with such numbers where a
    common scale does not do (divisions, decimal constants). *)

Record fl : Type := mkFl { mant : Z; expo : Z }.

(** [m * 2^e] as a fraction *)
Definition fnum (x : fl) : Z := mant x * 2 ^ Z.max 0 (expo x).
Definition fden (x : fl) : Z := 2 ^ Z.max 0 (- expo x).

(** The fraction [n / d] in units of [2^e], rounded to nearest, ties to even *)
Definition scaledQuot (n d e : Z) : Z * Z * Z :=
  let n' := n * 2 ^ Z.max 0 (- e) in
  let d' := d * 2 ^ Z.max 0 e in
  (n' / d', n' mod d', d').

Definition roundAt (n d e : Z) : Z :=
  let '(q, r, d') := scaledQuot n d e in
  if (d' <? 2 * r) || ((d' =? 2 * r) && Z.odd q) then q + 1 else q.

(** The exponent that leaves [p] significant bits *)
Definition exponentFor (p n d : Z) : Z :=
  let e := Z.log2 n - Z.log2 d - p in
  let '(q, _, _) := scaledQuot n d e in
  if q <? 2 ^ p then e else e + 1.

Definition roundQ (p n d : Z) : fl :=
  if n =? 0 then mkFl 0 0
  else let e := exponentFor p n d in mkFl (roundAt n d e) e.

Definition f32 (n d : Z) : fl := roundQ float32_prec n d.
Definition f32_of (z : Z) : fl := f32 z 1.
Definition f32_add (x y : fl) : fl := f32 (fnum x * fden y + fnum y * fden x) (fden x * fden y).
Definition f32_sub (x y : fl) : fl := f32 (fnum x * fden y - fnum y * fden x) (fden x * fden y).
Definition f32_mul (x y : fl) : fl := f32 (fnum x * fnum y) (fden x * fden y).
Definition f32_div (x y : fl) : fl := f32 (fnum x * fden y) (fden x * fnum y).

(** Conversion to an integer type truncates. *)
Definition fl_trunc (x : fl) : Z := fnum x / fden x.

Lemma fden_pos x : 0 < fden x.
Proof. apply Z.pow_pos_nonneg; lia. Qed.

Lemma fl_trunc_spec m e :
  fl_trunc (mkFl m e) = if 0 <=? e then m * 2 ^ e else m / 2 ^ (- e).
Proof.
  unfold fl_trunc, fnum, fden. cbn [mant expo]. destruct (Z.leb_spec 0 e).
  - rewrite (Z.max_r 0 e), (Z.max_l 0 (- e)) by lia. apply Z.div_1_r.
  - rewrite (Z.max_l 0 e), (Z.max_r 0 (- e)) by lia. by rewrite Z.mul_1_r.
Qed.

(** With a positive exponent the mantissa is full. *)
Lemma exponentFor_full p n d :
  0 < p -> 0 < n -> 0 < d -> 0 < exponentFor p n d ->
  2 ^ (p - 1) * (d * 2 ^ exponentFor p n d) <= n.
Proof.
  intros Hp Hn Hd. unfold exponentFor, scaledQuot.
  destruct (Z.log2_spec n Hn) as [Hn1 _]. destruct (Z.log2_spec d Hd) as [_ Hd2].
  pose proof (Z.log2_nonneg n). pose proof (Z.log2_nonneg d).
  set (e := Z.log2 n - Z.log2 d - p). destruct (Z.ltb_spec (n * 2 ^ Z.max 0 (- e) / (d * 2 ^ Z.max 0 e)) (2 ^ p)) as [Hq|Hq].
  - intros He. transitivity (2 ^ (p - 1) * (2 ^ Z.succ (Z.log2 d) * 2 ^ e)).
    + pose proof (Z.pow_pos_nonneg 2 (p - 1) ltac:(lia) ltac:(lia)).
      pose proof (Z.pow_pos_nonneg 2 e ltac:(lia) ltac:(lia)). nia.
    + rewrite <- !Z.pow_add_r by lia. replace (p - 1 + (Z.succ (Z.log2 d) + e)) with (Z.log2 n) by lia.
      done.
  - intros He. rewrite (Z.max_r 0 e), (Z.max_l 0 (- e)), Z.mul_1_r in Hq by lia.
    pose proof (Z.pow_pos_nonneg 2 e ltac:(lia) ltac:(lia)).
    assert (2 ^ p * (d * 2 ^ e) <= n) as Hle.
    { pose proof (Z.mul_div_le n (d * 2 ^ e) ltac:(nia)). nia. }
    rewrite (Z.pow_add_r 2 e 1) by lia. replace p with (p - 1 + 1) in Hle by lia.
    rewrite (Z.pow_add_r 2 (p - 1) 1) in Hle by lia. lia.
Qed.

(** An integer bound that the format represents survives the rounding. *)
Lemma roundQ_le p n d c :
  0 < p -> 0 <= n -> 0 < d -> 0 <= c < 2 ^ p -> n <= c * d ->
  fnum (roundQ p n d) <= c * fden (roundQ p n d).
Proof.
  intros Hp Hn Hd Hc Hle. unfold roundQ. destruct (Z.eqb_spec n 0) as [->|Hn0];
    [change (0 <= c * 1); lia|].
  pose proof (exponentFor_full p n d Hp ltac:(lia) Hd) as Hfull.
  set (e := exponentFor p n d) in *. unfold fnum, fden. cbn [mant expo].
  assert (e <= 0) as He.
  { destruct (Z.le_gt_cases e 0) as [|Hpos]; [done|]. specialize (Hfull Hpos).
    assert (2 ^ p * d <= n); [|nia]. etransitivity; [|exact Hfull].
    rewrite (Z.mul_comm d), Z.mul_assoc. apply Z.mul_le_mono_nonneg_r; [lia|].
    rewrite <- Z.pow_add_r by lia. apply Z.pow_le_mono_r; lia. }
  rewrite (Z.max_l 0 e), (Z.max_r 0 (- e)), Z.mul_1_r by lia.
  unfold roundAt, scaledQuot. rewrite (Z.max_l 0 e), (Z.max_r 0 (- e)), Z.mul_1_r by lia.
  pose proof (Z.pow_pos_nonneg 2 (- e) ltac:(lia) ltac:(lia)) as Hpw. set (w := 2 ^ (- e)) in *.
  clearbody w. pose proof (Z.div_mod (n * w) d ltac:(lia)) as Hdm.
  pose proof (Z.mod_pos_bound (n * w) d Hd) as Hmod.
  set (q := n * w / d) in *. set (r := (n * w) mod d) in *.
  assert (d * q + r <= d * (c * w)) as Hqr by nia. assert (q <= c * w) by nia.
  destruct ((d <? 2 * r) || ((d =? 2 * r) && Z.odd q)) eqn:E; [|done].
  assert (0 < r) by (apply orb_true_iff in E as [?|?]; to_prop; lia). nia.
Qed.

Lemma roundQ_ge p n d c :
  0 < p -> 0 <= n -> 0 < d -> 0 <= c < 2 ^ p -> c * d <= n ->
  c * fden (roundQ p n d) <= fnum (roundQ p n d).
Proof.
  intros Hp Hn Hd Hc Hle. unfold roundQ. destruct (Z.eqb_spec n 0) as [->|Hn0];
    [change (c * 1 <= 0); nia|].
  pose proof (exponentFor_full p n d Hp ltac:(lia) Hd) as Hfull.
  set (e := exponentFor p n d) in *. unfold fnum, fden. cbn [mant expo].
  unfold roundAt, scaledQuot. destruct (Z.le_gt_cases e 0) as [He|He].
  - rewrite (Z.max_l 0 e), (Z.max_r 0 (- e)), !Z.mul_1_r by lia.
    pose proof (Z.pow_pos_nonneg 2 (- e) ltac:(lia) ltac:(lia)) as Hpw. set (w := 2 ^ (- e)) in *.
    clearbody w. assert (c * w <= n * w / d) by (apply Z.div_le_lower_bound; nia). case_if; lia.
  - specialize (Hfull He). rewrite (Z.max_r 0 e), (Z.max_l 0 (- e)), !Z.mul_1_r by lia.
    pose proof (Z.pow_pos_nonneg 2 e ltac:(lia) ltac:(lia)) as Hpw.
    assert (2 ^ (p - 1) <= n / (d * 2 ^ e)) as Hq by (apply Z.div_le_lower_bound; nia).
    assert (c <= 2 ^ (p - 1) * 2 ^ e) as Hce.
    { rewrite <- Z.pow_add_r by lia. transitivity (2 ^ p); [lia|]. apply Z.pow_le_mono_r; lia. }
    case_if; nia.
Qed.

Lemma fl_trunc_le x c : fnum x <= c * fden x -> fl_trunc x <= c.
Proof.
  intros Hx. pose proof (fden_pos x). unfold fl_trunc. apply Z.div_le_upper_bound; lia.
Qed.

Lemma fl_trunc_ge x c : c * fden x <= fnum x -> c <= fl_trunc x.
Proof. intros Hx. pose proof (fden_pos x). unfold fl_trunc. apply Z.div_le_lower_bound; lia. Qed.

Lemma fnum_roundQ_nonneg p n d : 0 < p -> 0 <= n -> 0 < d -> 0 <= fnum (roundQ p n d).
Proof.
  intros Hp Hn Hd. pose proof (roundQ_ge p n d 0 Hp Hn Hd) as H.
  pose proof (Z.pow_pos_nonneg 2 p). lia.
Qed.

(** An integer of the format is represented exactly. *)
Lemma f32_of_exact z : 0 <= z < 2 ^ 24 -> fnum (f32_of z) = z * fden (f32_of z).
Proof.
  intros Hz. unfold f32_of, f32, float32_prec.
  pose proof (roundQ_le 24 z 1 z ltac:(lia) ltac:(lia) ltac:(lia) Hz ltac:(lia)).
  pose proof (roundQ_ge 24 z 1 z ltac:(lia) ltac:(lia) ltac:(lia) Hz ltac:(lia)). lia.
Qed.
