(* ===== verification/RTTStats.v ===== *)
(** * congestion/rtt_stats.go: the round-trip time estimate

    Durations are integers in nanoseconds.  The [float32] computations are
    [Floats.rne] on scaled integers; every duration that is converted is
    non-negative ([rtt_ok]). *)

From S2P Require Import Prelude Protocol Floats.

Definition initialRTTus : Z := 100 * 1000.

Record rttSample : Type := mkRttSample { rs_rtt : Z; rs_time : Z }.

Record RTTStats : Type := mkRTTStats {
  rtt_initialRTTus : Z;
  recentMinRTTwindow : Z;
  minRTT : Z;
  latestRTT : Z;
  smoothedRTT : Z;
  meanDeviation : Z;
  numMinRTTsamplesRemaining : Z;
  newMinRTT : rttSample;
  recentMinRTT : rttSample;
  halfWindowRTT : rttSample;
  quarterWindowRTT : rttSample;
}.

Definition noSample : rttSample := mkRttSample 0 0.

Definition NewRTTStats : RTTStats :=
  mkRTTStats initialRTTus InfDuration 0 0 0 0 0 noSample noSample noSample noSample.

Definition InitialRTTus (r : RTTStats) : Z := rtt_initialRTTus r.
Definition MinRTT (r : RTTStats) : Z := minRTT r.
Definition LatestRTT (r : RTTStats) : Z := latestRTT r.
Definition RecentMinRTT (r : RTTStats) : Z := rs_rtt (recentMinRTT r).
Definition SmoothedRTT (r : RTTStats) : Z := smoothedRTT r.
Definition GetQuarterWindowRTT (r : RTTStats) : Z := rs_rtt (quarterWindowRTT r).
Definition GetHalfWindowRTT (r : RTTStats) : Z := rs_rtt (halfWindowRTT r).
Definition MeanDeviation (r : RTTStats) : Z := meanDeviation r.

Definition SetRecentMinRTTwindow (r : RTTStats) (w : Z) : RTTStats :=
  mkRTTStats (rtt_initialRTTus r) w (minRTT r) (latestRTT r) (smoothedRTT r) (meanDeviation r)
    (numMinRTTsamplesRemaining r) (newMinRTT r) (recentMinRTT r) (halfWindowRTT r)
    (quarterWindowRTT r).

(** [time.Duration(float32(d/time.Microsecond) * (1/denominator)) * time.Microsecond] *)
Definition windowFraction (d denominator : Z) : Z :=
  i64 (rne float32_prec (Z.quot d Microsecond) / denominator * Microsecond).

Definition updateRecentMinRTT (r : RTTStats) (sample now : Z) : RTTStats :=
  let this := mkRttSample sample now in
  let '(remaining, newMin, recent, half, quarter) :=
    if numMinRTTsamplesRemaining r >? 0 then
      let remaining := numMinRTTsamplesRemaining r - 1 in
      let newMin :=
        if (rs_rtt (newMinRTT r) =? 0) || (sample <=? rs_rtt (newMinRTT r))
        then this else newMinRTT r in
      if remaining =? 0 then (remaining, newMin, newMin, newMin, newMin)
      else (remaining, newMin, recentMinRTT r, halfWindowRTT r, quarterWindowRTT r)
    else (numMinRTTsamplesRemaining r, newMinRTT r, recentMinRTT r, halfWindowRTT r,
          quarterWindowRTT r) in
  let '(recent, half, quarter) :=
    if (rs_rtt recent =? 0) || (sample <=? rs_rtt recent) then (this, this, this)
    else if sample <=? rs_rtt half then (recent, this, this)
    else if sample <=? rs_rtt quarter then (recent, half, this)
    else (recent, half, quarter) in
  let '(recent, half, quarter) :=
    if rs_time recent <? now - recentMinRTTwindow r then (half, quarter, this)
    else if rs_time half <? now - windowFraction (recentMinRTTwindow r) 2
    then (recent, quarter, this)
    else if rs_time quarter <? now - windowFraction (recentMinRTTwindow r) 4
    then (recent, half, this)
    else (recent, half, quarter) in
  mkRTTStats (rtt_initialRTTus r) (recentMinRTTwindow r) (minRTT r) (latestRTT r) (smoothedRTT r)
    (meanDeviation r) remaining newMin recent half quarter.

(** [float32(a)*(wa/denominator) + float32(b)*(wb/denominator)], truncated to an
    integer *)
Definition weightedAverage (wa a wb b denominator : Z) : Z :=
  rne float32_prec
    (rne float32_prec (wa * rne float32_prec a) + rne float32_prec (wb * rne float32_prec b))
  / denominator.

Definition UpdateRTT (r : RTTStats) (sendDelta ackDelay now : Z) : RTTStats :=
  if (sendDelta =? InfDuration) || (sendDelta <=? 0) then r
  else
    let minRTT' :=
      if (minRTT r =? 0) || (minRTT r >? sendDelta) then sendDelta else minRTT r in
    let r := updateRecentMinRTT r sendDelta now in
    let sample := if sendDelta >? ackDelay then i64 (sendDelta - ackDelay) else sendDelta in
    let '(smoothed, deviation) :=
      if smoothedRTT r =? 0 then (sample, Z.quot sample 2)
      else
        (i64 (weightedAverage 7 (Z.quot (smoothedRTT r) Microsecond)
                1 (Z.quot sample Microsecond) 8 * Microsecond),
         i64 (weightedAverage 3 (Z.quot (meanDeviation r) Microsecond)
                1 (Z.quot (AbsDuration (i64 (smoothedRTT r - sample))) Microsecond) 4 * Microsecond)) in
    mkRTTStats (rtt_initialRTTus r) (recentMinRTTwindow r) minRTT' sample smoothed deviation
      (numMinRTTsamplesRemaining r) (newMinRTT r) (recentMinRTT r) (halfWindowRTT r)
      (quarterWindowRTT r).

Definition SampleNewRecentMinRTT (r : RTTStats) (numSamples : Z) : RTTStats :=
  mkRTTStats (rtt_initialRTTus r) (recentMinRTTwindow r) (minRTT r) (latestRTT r) (smoothedRTT r)
    (meanDeviation r) numSamples noSample (recentMinRTT r) (halfWindowRTT r) (quarterWindowRTT r).

Definition RTT_OnConnectionMigration (r : RTTStats) : RTTStats :=
  mkRTTStats initialRTTus InfDuration 0 0 0 0 0 (newMinRTT r) noSample noSample noSample.

Definition ExpireSmoothedMetrics (r : RTTStats) : RTTStats :=
  mkRTTStats (rtt_initialRTTus r) (recentMinRTTwindow r) (minRTT r) (latestRTT r)
    (MaxDuration (smoothedRTT r) (latestRTT r))
    (MaxDuration (meanDeviation r) (AbsDuration (i64 (smoothedRTT r - latestRTT r))))
    (numMinRTTsamplesRemaining r) (newMinRTT r) (recentMinRTT r) (halfWindowRTT r)
    (quarterWindowRTT r).

(** ** The weighted average *)

Lemma weightedAverage_exact wa a wb b d :
  0 <= wa -> 0 <= wb -> 0 <= a < 2 ^ 24 -> 0 <= b < 2 ^ 24 -> wa * a + wb * b < 2 ^ 24 ->
  weightedAverage wa a wb b d = (wa * a + wb * b) / d.
Proof.
  intros. unfold weightedAverage, float32_prec. f_equal.
  rewrite (rne_small 24 a), (rne_small 24 b) by lia.
  rewrite (rne_small 24 (wa * a)), (rne_small 24 (wb * b)) by nia. apply rne_small; nia.
Qed.

Lemma weightedAverage_le wa a wb b d k :
  0 <= wa -> 0 <= wb -> 0 < d -> wa + wb = d -> d < 2 ^ 24 -> 0 <= k ->
  0 <= a <= 2 ^ k -> 0 <= b <= 2 ^ k -> 0 <= weightedAverage wa a wb b d <= 2 ^ k.
Proof.
  intros Hwa Hwb Hd <- Hd24 Hk Ha Hb. unfold weightedAverage, float32_prec.
  pose proof (rne_error 24 a ltac:(lia) ltac:(lia)) as [Ha0 _].
  pose proof (rne_error 24 b ltac:(lia) ltac:(lia)) as [Hb0 _].
  pose proof (rne_le 24 a 1 k ltac:(lia) ltac:(lia) Hk ltac:(lia) ltac:(lia)) as Ha1.
  pose proof (rne_le 24 b 1 k ltac:(lia) ltac:(lia) Hk ltac:(lia) ltac:(lia)) as Hb1.
  set (ra := rne 24 a) in *. set (rb := rne 24 b) in *.
  pose proof (rne_error 24 (wa * ra) ltac:(lia) ltac:(nia)) as [Hwa0 _].
  pose proof (rne_error 24 (wb * rb) ltac:(lia) ltac:(nia)) as [Hwb0 _].
  pose proof (rne_le 24 (wa * ra) wa k ltac:(lia) ltac:(nia) Hk ltac:(lia) ltac:(nia)) as Hwa1.
  pose proof (rne_le 24 (wb * rb) wb k ltac:(lia) ltac:(nia) Hk ltac:(lia) ltac:(nia)) as Hwb1.
  set (s := rne 24 (wa * ra) + rne 24 (wb * rb)) in *.
  pose proof (rne_error 24 s ltac:(lia) ltac:(lia)) as [Hs0 _].
  pose proof (rne_le 24 s (wa + wb) k ltac:(lia) ltac:(lia) Hk ltac:(lia) ltac:(nia)) as Hs1.
  split; [by apply Z.div_pos; lia|]. apply Z.div_le_upper_bound; lia.
Qed.

(** ** The statistics track the samples *)

(** Every duration is at most this: 285 years. *)
Definition maxDuration : Z := 2 ^ 53 * Microsecond.

Definition validSample (sendDelta : Z) : bool :=
  negb ((sendDelta =? InfDuration) || (sendDelta <=? 0)).

(** The states the code can reach, with the valid samples since the start or the
    last connection migration. *)
Inductive RTT_reach : RTTStats -> list Z -> Prop :=
| reach_new : RTT_reach NewRTTStats []
| reach_update r ds sendDelta ackDelay now :
    RTT_reach r ds -> sendDelta <= maxDuration -> 0 <= ackDelay ->
    RTT_reach (UpdateRTT r sendDelta ackDelay now)
      (if validSample sendDelta then sendDelta :: ds else ds)
| reach_sample r ds n :
    RTT_reach r ds -> is_u32 n -> RTT_reach (SampleNewRecentMinRTT r n) ds
| reach_window r ds w : RTT_reach r ds -> RTT_reach (SetRecentMinRTTwindow r w) ds
| reach_migrate r ds : RTT_reach r ds -> RTT_reach (RTT_OnConnectionMigration r) []
| reach_expire r ds : RTT_reach r ds -> RTT_reach (ExpireSmoothedMetrics r) ds.

Definition minimum (ds : list Z) : Z :=
  match ds with
  | [] => 0
  | d :: ds => fold_left Z.min ds d
  end.

(** The smoothed values are in range, and the minima are the samples they claim
    to be, the wider the window the smaller. *)
Record rtt_ok (r : RTTStats) (ds : list Z) : Prop := {
  rok_samples : Forall (fun d => 0 < d <= maxDuration) ds;
  rok_latest : 0 <= latestRTT r <= maxDuration;
  rok_smoothed : 0 <= smoothedRTT r <= maxDuration;
  rok_deviation : 0 <= meanDeviation r <= maxDuration;
  rok_min : minRTT r = minimum ds;
  rok_remaining : 0 <= numMinRTTsamplesRemaining r;
  rok_newMin : 0 < numMinRTTsamplesRemaining r ->
    rs_rtt (newMinRTT r) = 0 \/ rs_rtt (newMinRTT r) ∈ ds;
  rok_windows :
    match ds with
    | [] => RecentMinRTT r = 0 /\ GetHalfWindowRTT r = 0 /\ GetQuarterWindowRTT r = 0
    | _ =>
        RecentMinRTT r ∈ ds /\ GetHalfWindowRTT r ∈ ds /\ GetQuarterWindowRTT r ∈ ds /\
        RecentMinRTT r <= GetHalfWindowRTT r <= GetQuarterWindowRTT r
    end;
}.

Lemma minimum_cons d ds :
  Forall (fun d => 0 < d) ds -> 0 < d ->
  (if (minimum ds =? 0) || (minimum ds >? d) then d else minimum ds) = minimum (d :: ds).
Proof.
  intros Hds Hd. destruct ds as [|x ds]; [done|]. unfold minimum. cbn [fold_left].
  assert (forall a b l, fold_left Z.min l (Z.min a b) = Z.min a (fold_left Z.min l b)) as Hmin.
  { intros a b l. revert b. induction l as [|y l IH]; intros b; [done|]. cbn [fold_left].
    by rewrite <- IH, Z.min_assoc. }
  rewrite Hmin. assert (0 < fold_left Z.min ds x) as Hpos.
  { inversion_clear Hds as [|? ? Hx Hl]. revert x Hx. induction Hl as [|y l Hy _ IH]; intros x Hx; [done|].
    cbn [fold_left]. apply IH. lia. }
  set (m := fold_left Z.min ds x) in *. repeat case_if; try lia.
  all: match goal with H : (_ || _) = true |- _ => apply orb_true_iff in H as [?|?] end; to_prop; lia.
Qed.

(** The recent-minimum bookkeeping. *)
Lemma updateRecentMinRTT_ok r ds sample now :
  rtt_ok r ds -> 0 < sample ->
  let r' := updateRecentMinRTT r sample now in
  0 <= numMinRTTsamplesRemaining r' /\
  (0 < numMinRTTsamplesRemaining r' ->
   rs_rtt (newMinRTT r') = 0 \/ rs_rtt (newMinRTT r') ∈ sample :: ds) /\
  RecentMinRTT r' ∈ sample :: ds /\ GetHalfWindowRTT r' ∈ sample :: ds /\
  GetQuarterWindowRTT r' ∈ sample :: ds /\
  RecentMinRTT r' <= GetHalfWindowRTT r' <= GetQuarterWindowRTT r'.
Proof.
  intros Hok Hs. destruct Hok as [Hds _ _ _ _ Hrem Hnew Hwin].
  assert (forall d, d ∈ ds -> 0 < d) as Hpos.
  { intros d Hd. rewrite Forall_forall in Hds. by apply Hds. }
  unfold updateRecentMinRTT, RecentMinRTT, GetHalfWindowRTT, GetQuarterWindowRTT in *.
  set (this := mkRttSample sample now).
  (* the first block: a forced new minimum *)
  set (blk := if numMinRTTsamplesRemaining r >? 0 then _ else _).
  assert (exists rem nm rec half quar, blk = (rem, nm, rec, half, quar) /\ 0 <= rem /\
    (0 < rem -> rs_rtt nm = 0 \/ rs_rtt nm ∈ sample :: ds) /\
    (rs_rtt rec = 0 \/
     rs_rtt rec ∈ sample :: ds /\ rs_rtt half ∈ sample :: ds /\ rs_rtt quar ∈ sample :: ds /\
     rs_rtt rec <= rs_rtt half <= rs_rtt quar)) as (rem & nm & rec & half & quar & -> & Hr & Hn & Hw).
  { assert (rs_rtt (recentMinRTT r) = 0 \/
     rs_rtt (recentMinRTT r) ∈ sample :: ds /\ rs_rtt (halfWindowRTT r) ∈ sample :: ds /\
     rs_rtt (quarterWindowRTT r) ∈ sample :: ds /\
     rs_rtt (recentMinRTT r) <= rs_rtt (halfWindowRTT r) <= rs_rtt (quarterWindowRTT r)) as Hold.
    { destruct ds; [left; tauto|right]. destruct Hwin as (? & ? & ? & ?).
      split_and!; try (by right); lia. }
    subst blk. case_if.
    - set (nm := if _ || _ then this else newMinRTT r).
      assert (rs_rtt nm = 0 \/ rs_rtt nm ∈ sample :: ds) as Hnm.
      { subst nm. case_if; [right; apply list_elem_of_here|]. destruct (Hnew ltac:(lia)); [by left|].
        right. by right. }
      case_if; do 5 eexists; (split; [reflexivity|]); split_and!; try (done || lia).
      destruct Hnm; [by left|right; split_and!; (done || lia)].
    - do 5 eexists; split; [reflexivity|]. split_and!; [done|intros; lia|done]. }
  (* the comparison with the windows, and the expiry *)
  assert (sample ∈ sample :: ds) as Hin by apply list_elem_of_here.
  assert (forall x, x ∈ sample :: ds -> 0 < x) as Hpos'.
  { intros x Hx. apply elem_of_cons in Hx as [->|Hx]; auto. }
  set (blk2 := if (rs_rtt rec =? 0) || _ then _ else _).
  assert (exists rec' half' quar', blk2 = (rec', half', quar') /\
    rs_rtt rec' ∈ sample :: ds /\ rs_rtt half' ∈ sample :: ds /\ rs_rtt quar' ∈ sample :: ds /\
    rs_rtt rec' <= rs_rtt half' <= rs_rtt quar' /\ rs_rtt quar' <= sample)
    as (rec' & half' & quar' & -> & H1 & H2 & H3 & H4 & H5).
  { subst blk2. destruct ((rs_rtt rec =? 0) || (sample <=? rs_rtt rec)) eqn:E0.
    - exists this, this, this. simpl. split_and!; (done || lia).
    - apply orb_false_iff in E0 as [? ?]. to_prop. destruct Hw as [?|(? & ? & ? & ?)]; [done|].
      repeat case_if; do 3 eexists; (split; [reflexivity|]); simpl; split_and!; (done || lia). }
  repeat case_if; simpl; split_and!; (done || lia).
Qed.

Lemma smoothed_le a b wa wb d :
  0 <= wa -> 0 <= wb -> 0 < d -> wa + wb = d -> d < 2 ^ 24 ->
  0 <= a <= maxDuration -> 0 <= b <= maxDuration ->
  0 <= i64 (weightedAverage wa (Z.quot a Microsecond) wb (Z.quot b Microsecond) d * Microsecond)
    <= maxDuration.
Proof.
  intros Hwa Hwb Hd Hsum Hd24 Ha Hb. unfold maxDuration, Microsecond in *.
  assert (forall x, 0 <= x <= 2 ^ 53 * 1000 -> 0 <= Z.quot x 1000 <= 2 ^ 53) as Hq.
  { intros x Hx. rewrite Z.quot_div_nonneg by lia.
    split; [by apply Z.div_pos; lia|]. apply Z.div_le_upper_bound; lia. }
  pose proof (weightedAverage_le wa (Z.quot a 1000) wb (Z.quot b 1000) d 53 Hwa Hwb Hd Hsum Hd24
    ltac:(lia) (Hq a Ha) (Hq b Hb)).
  rewrite i64_small by lia. lia.
Qed.

Lemma UpdateRTT_ok r ds sendDelta ackDelay now :
  rtt_ok r ds -> sendDelta <= maxDuration -> 0 <= ackDelay ->
  rtt_ok (UpdateRTT r sendDelta ackDelay now)
    (if validSample sendDelta then sendDelta :: ds else ds).
Proof.
  intros Hok Hmax Hack. unfold UpdateRTT, validSample.
  destruct ((sendDelta =? InfDuration) || (sendDelta <=? 0)) eqn:E; simpl negb; [done|].
  apply orb_false_iff in E as [_ E]. to_prop.
  pose proof (updateRecentMinRTT_ok r ds sendDelta now Hok ltac:(lia)) as Hrec.
  destruct Hok as [Hds _ Hsm Hdev Hmin _ _ _].
  set (sample := if sendDelta >? ackDelay then _ else _).
  assert (0 < sample <= maxDuration) as Hsample.
  { subst sample. unfold maxDuration, Microsecond in *. case_if; [|lia].
    rewrite i64_small by lia. lia. }
  assert (smoothedRTT (updateRecentMinRTT r sendDelta now) = smoothedRTT r /\
    meanDeviation (updateRecentMinRTT r sendDelta now) = meanDeviation r) as [-> ->].
  { unfold updateRecentMinRTT. repeat case_if; done. }
  set (r' := updateRecentMinRTT r sendDelta now) in *. clearbody r' sample.
  set (sd := if smoothedRTT r =? 0 then _ else _).
  assert (0 <= sd.1 <= maxDuration /\ 0 <= sd.2 <= maxDuration) as [Hs Hd].
  { subst sd. case_if; simpl.
    - rewrite Z.quot_div_nonneg by lia. split; [lia|].
      split; [by apply Z.div_pos; lia|]. apply Z.div_le_upper_bound; lia.
    - split; apply smoothed_le; try (lia || done).
      unfold AbsDuration, maxDuration, Microsecond in *.
      rewrite (i64_small (_ - _)) by lia. case_if; [|rewrite i64_small by lia]; lia. }
  destruct sd as [smoothed deviation]. simpl in Hs, Hd.
  destruct Hrec as (Hrem & Hnew & Hw1 & Hw2 & Hw3 & Hw4).
  constructor; cbn [latestRTT smoothedRTT meanDeviation minRTT numMinRTTsamplesRemaining newMinRTT];
    try (done || lia).
  - by constructor.
  - rewrite Hmin. apply minimum_cons; [|lia]. eapply Forall_impl; [exact Hds|]. simpl. lia.
Qed.

Lemma RTT_reach_ok r ds : RTT_reach r ds -> rtt_ok r ds.
Proof.
  induction 1 as [|r ds sd ad now Hr IH Hmax Hack|r ds n Hr IH Hn|r ds w Hr IH|r ds Hr IH|r ds Hr IH].
  - constructor; cbn; try done; try (unfold maxDuration, Microsecond; lia).
  - by apply UpdateRTT_ok.
  - destruct IH. constructor; try done; [apply Hn|]. intros _. by left.
  - by destruct IH.
  - destruct IH. constructor; cbn; try done; try (unfold maxDuration, Microsecond; lia).
  - destruct IH as [? Hl Hs Hd ? ? ? ?]. constructor; try done; cbn; rewrite MaxDuration_max; [lia|].
    unfold AbsDuration, maxDuration, Microsecond in *.
    rewrite (i64_small (_ - _)) by lia. case_if; [|rewrite i64_small by lia]; lia.
Qed.

(** In every reachable state the RTT statistics are sound: the minimum RTT is
    the minimum of all valid samples since the last migration, the recent minimum
    and the half- and quarter-window minima are samples in increasing order, never
    below it, and the smoothed RTT and its deviation stay in range although they
    are computed in single precision. *)
Theorem rtt_stats_track_samples r ds :
  RTT_reach r ds ->
  MinRTT r = minimum ds /\
  0 <= SmoothedRTT r <= maxDuration /\ 0 <= MeanDeviation r <= maxDuration /\
  (ds <> [] ->
   RecentMinRTT r ∈ ds /\ GetHalfWindowRTT r ∈ ds /\ GetQuarterWindowRTT r ∈ ds /\
   MinRTT r <= RecentMinRTT r <= GetHalfWindowRTT r /\
   GetHalfWindowRTT r <= GetQuarterWindowRTT r).
Proof.
  intros [Hds Hl Hs Hd Hmin _ _ Hw]%RTT_reach_ok.
  do 3 (split; [done|]). intros Hne. destruct ds as [|d ds]; [done|]. destruct Hw as (Hw1 & Hw2 & Hw3 & Hw4).
  split_and!; try (done || lia). unfold MinRTT. rewrite Hmin.
  apply elem_of_cons in Hw1. clear -Hw1. unfold minimum.
  assert (forall l a, fold_left Z.min l a <= a /\ forall x, x ∈ l -> fold_left Z.min l a <= x) as Hmin.
  { induction l as [|y l IH]; intros a; cbn [fold_left]; [split; [lia|]; by intros x ?%not_elem_of_nil|].
    destruct (IH (Z.min a y)) as [H1 H2]. split; [lia|].
    intros x [->|Hx]%elem_of_cons; [lia|auto]. }
  destruct (Hmin ds d) as [H1 H2]. destruct Hw1 as [->|Hx]; [lia|auto].
Qed.

(** Below two seconds the single-precision arithmetic is exact: the new
    smoothed RTT is 7/8 of the old one plus 1/8 of the sample, and the mean
    deviation is 3/4 of the old one plus 1/4 of the distance of the sample, in
    whole microseconds; the sample is the send delta without the peer's ACK delay
    unless that leaves nothing. *)
Theorem rtt_update_exact r sendDelta ackDelay now :
  let ms2 := 2 ^ 21 * Microsecond in
  0 < sendDelta < ms2 -> 0 <= ackDelay < 2 ^ 62 -> 0 < smoothedRTT r < ms2 ->
  0 <= meanDeviation r < ms2 ->
  let r' := UpdateRTT r sendDelta ackDelay now in
  let sample := if ackDelay <? sendDelta then sendDelta - ackDelay else sendDelta in
  latestRTT r' = sample /\ 0 < sample <= sendDelta /\
  smoothedRTT r' = (7 * (smoothedRTT r / 1000) + sample / 1000) / 8 * 1000 /\
  meanDeviation r' =
    (3 * (meanDeviation r / 1000) + Z.abs (smoothedRTT r - sample) / 1000) / 4 * 1000.
Proof.
  intros ms2 Hsd Hack Hsm Hdev. unfold ms2, Microsecond in *. cbv zeta. unfold UpdateRTT.
  rewrite (proj2 (Z.eqb_neq sendDelta InfDuration)), (proj2 (Z.leb_gt sendDelta 0))
    by (unfold InfDuration; lia). cbn [orb].
  assert (smoothedRTT (updateRecentMinRTT r sendDelta now) = smoothedRTT r /\
    meanDeviation (updateRecentMinRTT r sendDelta now) = meanDeviation r) as [-> ->].
  { unfold updateRecentMinRTT. repeat case_if; done. }
  rewrite Z.gtb_ltb, (i64_small (sendDelta - ackDelay)) by lia.
  set (sample := if ackDelay <? sendDelta then _ else _).
  assert (0 < sample <= sendDelta) as Hsample by (subst sample; case_if; lia).
  rewrite (proj2 (Z.eqb_neq (smoothedRTT r) 0)) by lia. cbn [latestRTT smoothedRTT meanDeviation].
  assert (AbsDuration (i64 (smoothedRTT r - sample)) = Z.abs (smoothedRTT r - sample)) as ->.
  { rewrite i64_small by lia. unfold AbsDuration. case_if; [|rewrite i64_small by lia]; lia. }
  unfold Microsecond. rewrite !Z.quot_div_nonneg by lia.
  assert (forall x, 0 <= x < 2 ^ 21 * 1000 -> 0 <= x / 1000 < 2 ^ 21) as Hq.
  { intros x Hx. split; [by apply Z.div_pos; lia|]. apply Z.div_lt_upper_bound; lia. }
  pose proof (Hq (smoothedRTT r) ltac:(lia)). pose proof (Hq sample ltac:(lia)).
  pose proof (Hq (meanDeviation r) ltac:(lia)).
  pose proof (Hq (Z.abs (smoothedRTT r - sample)) ltac:(lia)).
  rewrite !weightedAverage_exact by lia. rewrite !Z.mul_1_l.
  split_and!; try (done || lia); apply i64_small; Z.to_euclidean_division_equations; lia.
Qed.

Lemma rtt_stats_track_samples_witness :
  let r := UpdateRTT (UpdateRTT NewRTTStats 300 0 1) 200 10 2 in
  MinRTT r = minimum [200; 300] /\
  0 <= SmoothedRTT r <= maxDuration /\ 0 <= MeanDeviation r <= maxDuration /\
  ([200; 300] <> [] ->
   RecentMinRTT r ∈ [200; 300] /\ GetHalfWindowRTT r ∈ [200; 300] /\
   GetQuarterWindowRTT r ∈ [200; 300] /\
   MinRTT r <= RecentMinRTT r <= GetHalfWindowRTT r /\
   GetHalfWindowRTT r <= GetQuarterWindowRTT r).
Proof.
  apply (rtt_stats_track_samples (UpdateRTT (UpdateRTT NewRTTStats 300 0 1) 200 10 2) [200; 300]).
  apply (reach_update _ [300] 200 10 2); [|vm_compute; discriminate|lia].
  apply (reach_update _ [] 300 0 1); [constructor|vm_compute; discriminate|lia].
Defined.

Lemma rtt_update_exact_witness :
  let r := UpdateRTT NewRTTStats (300 * Millisecond) 0 1 in
  let r' := UpdateRTT r (400 * Millisecond) (20 * Millisecond) 2 in
  latestRTT r' = 380 * Millisecond /\ 0 < 380 * Millisecond <= 400 * Millisecond /\
  smoothedRTT r' = 310 * Millisecond /\ meanDeviation r' = 132500 * Microsecond.
Proof.
  apply (rtt_update_exact (UpdateRTT NewRTTStats (300 * Millisecond) 0 1) (400 * Millisecond)
    (20 * Millisecond) 2); vm_compute; intuition discriminate.
Defined.
