(* ===== verification/SendAlgorithm.v ===== *)
(** * congestion/interface.go: what the ack handler needs of congestion control

    The algorithm is a mutable object that shares the RTT statistics with the ack
    handler: an operation takes the algorithm's state, the statistics as they are
    when it is called, and the clock where it reads it. *)

From S2P Require Import Prelude RTTStats.

Class SendAlgorithm : Type := {
  SA_state : Type;
  OnPacketSent (c : SA_state) (sentTime bytesInFlight packetNumber bytes : Z)
    (isRetransmittable : bool) : SA_state * bool;
  GetCongestionWindow (c : SA_state) : Z;
  MaybeExitSlowStart (c : SA_state) (rtt : RTTStats) : SA_state;
  OnPacketAcked (c : SA_state) (rtt : RTTStats) (now number ackedBytes bytesInFlight : Z)
    : SA_state;
  OnPacketLost (c : SA_state) (number lostBytes bytesInFlight : Z) : SA_state;
  OnRetransmissionTimeout (c : SA_state) (packetsRetransmitted : bool) : SA_state;
  RetransmissionDelay (c : SA_state) (rtt : RTTStats) : Z;
}.

(** What the ack handler may rely on, for the states that satisfy the algorithm's
    invariant [SA_ok]: the invariant is kept, and the retransmission delay is at
    most the smoothed RTT plus four times its deviation. *)
Class SendAlgorithmLaws (A : SendAlgorithm) : Type := {
  SA_ok : SA_state -> Prop;
  OnPacketSent_ok c t b n l r : SA_ok c -> SA_ok (OnPacketSent c t b n l r).1;
  MaybeExitSlowStart_ok c rtt : SA_ok c -> SA_ok (MaybeExitSlowStart c rtt);
  OnPacketAcked_ok c rtt now n l b : SA_ok c -> SA_ok (OnPacketAcked c rtt now n l b);
  OnPacketLost_ok c n l b : SA_ok c -> SA_ok (OnPacketLost c n l b);
  OnRetransmissionTimeout_ok c r : SA_ok c -> SA_ok (OnRetransmissionTimeout c r);
  RetransmissionDelay_range c rtt :
    SA_ok c -> 0 <= SmoothedRTT rtt -> 0 <= MeanDeviation rtt ->
    SmoothedRTT rtt + 4 * MeanDeviation rtt < 2 ^ 63 ->
    0 <= RetransmissionDelay c rtt <= SmoothedRTT rtt + 4 * MeanDeviation rtt;
}.
