(* ===== verification/SentPackets.v ===== *)
(** * Package ackhandler: the packets we sent

    [ackhandler/packet.go], [stop_waiting_manager.go] and
    [sent_packet_handler.go].  The packet history is a linked list in the code: here
    a list, an element of it being known by its packet number, which is unique.
    Operations take the clock readings they make. *)

From S2P Require Import Prelude Protocol Qerr Frames AckFrame Frame Floats RTTStats SendAlgorithm.

(** ** ackhandler/packet.go *)

Record Packet : Type := mkPacket {
  p_PacketNumber : Z;
  p_Frames : list Frame;
  p_Length : Z;
  p_EncryptionLevel : Z;
  p_SendTime : Z;
}.

Fixpoint framesForRetransmission (fs : list Frame) : list Frame :=
  match fs with
  | [] => []
  | frame :: fs =>
      match frame with
      | FAck _ => framesForRetransmission fs
      | FStopWaiting _ => framesForRetransmission fs
      | _ => frame :: framesForRetransmission fs
      end
  end.

Definition GetFramesForRetransmission (p : Packet) : list Frame :=
  framesForRetransmission (p_Frames p).

(** ** ackhandler/stop_waiting_manager.go *)

Record stopWaitingManager : Type := mkStopWaitingManager {
  largestLeastUnackedSent : Z;
  nextLeastUnacked : Z;
  lastStopWaitingFrame : option StopWaitingFrame;
}.

Definition swm_GetStopWaitingFrame (s : stopWaitingManager) (force : bool)
    : stopWaitingManager * option StopWaitingFrame :=
  if nextLeastUnacked s <=? largestLeastUnackedSent s then
    if force then (s, lastStopWaitingFrame s) else (s, None)
  else
    let swf := mkStopWaitingFrame (nextLeastUnacked s) 0 0 in
    (mkStopWaitingManager (nextLeastUnacked s) (nextLeastUnacked s) (Some swf), Some swf).

Definition swm_ReceivedAck (s : stopWaitingManager) (ack : AckFrame) : stopWaitingManager :=
  if LargestAcked ack >=? nextLeastUnacked s
  then mkStopWaitingManager (largestLeastUnackedSent s) (u64 (LargestAcked ack + 1))
         (lastStopWaitingFrame s)
  else s.

Definition QueuedRetransmissionForPacketNumber (s : stopWaitingManager) (p : Z)
    : stopWaitingManager :=
  if p >=? nextLeastUnacked s
  then mkStopWaitingManager (largestLeastUnackedSent s) (u64 (p + 1)) (lastStopWaitingFrame s)
  else s.

(** ** ackhandler/sent_packet_handler.go *)

Definition defaultRTOTimeout : Z := 500 * Millisecond.
Definition minRTOTimeout : Z := 200 * Millisecond.
Definition maxRTOTimeout : Z := 60 * Second.

Definition ErrDuplicateOrOutOfOrderAck : goerror :=
  ErrNew "SentPacketHandler: Duplicate or out-of-order ACK".
Definition ErrTooManyTrackedSentPackets : goerror :=
  ErrNew "Too many outstanding non-acked and non-retransmitted packets".
Definition ErrAckForSkippedPacket : goerror :=
  QuicError InvalidAckData (Msg "Received an ACK for a skipped packet number").
Definition errAckForUnsentPacket : goerror :=
  QuicError InvalidAckData (Msg "Received ACK for an unsent package").
Definition errPacketNumberNotIncreasing : goerror :=
  ErrNew "Already sent a packet with a higher packet number".

Section handler.
Context `{SendAlgorithm}.

Record sentPacketHandler : Type := mkSentPacketHandler {
  lastSentPacketNumber : Z;
  skippedPackets : list Z;
  sph_LargestAcked : Z;
  largestReceivedPacketWithAck : Z;
  packetHistory : list Packet;
  sph_stopWaitingManager : stopWaitingManager;
  retransmissionQueue : list Packet;
  bytesInFlight : Z;
  congestion : SA_state;
  rttStats : RTTStats;
  rtoCount : Z;
  lossTime : Z;
  alarm : Z;
}.

(** The handler with the packet history, retransmission queue, stop-waiting
    manager, bytes in flight, congestion state and RTO count replaced: the fields
    that acknowledgements and losses change. *)
Definition with_packets (h : sentPacketHandler) (history : list Packet) (swm : stopWaitingManager)
    (queue : list Packet) (inFlight : Z) (c : SA_state) (rto : Z) : sentPacketHandler :=
  mkSentPacketHandler (lastSentPacketNumber h) (skippedPackets h) (sph_LargestAcked h)
    (largestReceivedPacketWithAck h) history swm queue inFlight c (rttStats h) rto (lossTime h)
    (alarm h).

Definition with_congestion (h : sentPacketHandler) (c : SA_state) : sentPacketHandler :=
  with_packets h (packetHistory h) (sph_stopWaitingManager h) (retransmissionQueue h)
    (bytesInFlight h) c (rtoCount h).

Definition with_timers (h : sentPacketHandler) (loss al : Z) : sentPacketHandler :=
  mkSentPacketHandler (lastSentPacketNumber h) (skippedPackets h) (sph_LargestAcked h)
    (largestReceivedPacketWithAck h) (packetHistory h) (sph_stopWaitingManager h)
    (retransmissionQueue h) (bytesInFlight h) (congestion h) (rttStats h) (rtoCount h) loss al.

Definition with_skipped (h : sentPacketHandler) (skipped : list Z) : sentPacketHandler :=
  mkSentPacketHandler (lastSentPacketNumber h) skipped (sph_LargestAcked h)
    (largestReceivedPacketWithAck h) (packetHistory h) (sph_stopWaitingManager h)
    (retransmissionQueue h) (bytesInFlight h) (congestion h) (rttStats h) (rtoCount h)
    (lossTime h) (alarm h).

Definition with_acked (h : sentPacketHandler) (largestAcked largestWithAck : Z)
    : sentPacketHandler :=
  mkSentPacketHandler (lastSentPacketNumber h) (skippedPackets h) largestAcked
    largestWithAck (packetHistory h) (sph_stopWaitingManager h)
    (retransmissionQueue h) (bytesInFlight h) (congestion h) (rttStats h) (rtoCount h)
    (lossTime h) (alarm h).

Definition with_rtt (h : sentPacketHandler) (r : RTTStats) : sentPacketHandler :=
  mkSentPacketHandler (lastSentPacketNumber h) (skippedPackets h) (sph_LargestAcked h)
    (largestReceivedPacketWithAck h) (packetHistory h) (sph_stopWaitingManager h)
    (retransmissionQueue h) (bytesInFlight h) (congestion h) r (rtoCount h)
    (lossTime h) (alarm h).

Definition with_stopWaiting (h : sentPacketHandler) (s : stopWaitingManager)
    : sentPacketHandler :=
  with_packets h (packetHistory h) s (retransmissionQueue h) (bytesInFlight h) (congestion h)
    (rtoCount h).

Definition NewSentPacketHandler (r : RTTStats) (c : SA_state) : sentPacketHandler :=
  mkSentPacketHandler 0 [] 0 0 [] (mkStopWaitingManager 0 0 None) [] 0 c r 0 0 0.

Definition largestInOrderAcked (h : sentPacketHandler) : Z :=
  match packetHistory h with
  | f :: _ => u64 (p_PacketNumber f - 1)
  | [] => sph_LargestAcked h
  end.

Definition computeRTOTimeout (h : sentPacketHandler) : Z :=
  let rto := RetransmissionDelay (congestion h) (rttStats h) in
  let rto := if rto =? 0 then defaultRTOTimeout else rto in
  let rto := MaxDuration rto minRTOTimeout in
  let rto := i64 (Z.shiftl rto (rtoCount h)) in
  MinDuration rto maxRTOTimeout.

Definition updateLossDetectionAlarm (h : sentPacketHandler) (now : Z) : sentPacketHandler :=
  if len (packetHistory h) =? 0 then with_timers h (lossTime h) 0
  else if negb (lossTime h =? 0) then with_timers h (lossTime h) (lossTime h)
  else with_timers h (lossTime h) (now + computeRTOTimeout h).

(** The loop over the packet numbers that were skipped: at most
    [MaxTrackedSkippedPackets] of them are kept. *)
Definition trackSkipped (skipped : list Z) (p : Z) : list Z :=
  let skipped := skipped ++ [p] in
  if len skipped >? MaxTrackedSkippedPackets then tail skipped else skipped.

Definition SentPacket (h : sentPacketHandler) (packet : Packet) (now alarmNow : Z)
    : sentPacketHandler * res unit :=
  if p_PacketNumber packet <=? lastSentPacketNumber h then (h, Err errPacketNumberNotIncreasing)
  else if u64 (len (retransmissionQueue h) + len (packetHistory h) + 1) >? MaxTrackedSentPackets
  then (h, Err ErrTooManyTrackedSentPackets)
  else
    let first := lastSentPacketNumber h + 1 in
    let h := with_skipped h
      (fold_left trackSkipped (seqZ first (p_PacketNumber packet - first)) (skippedPackets h)) in
    let packet := mkPacket (p_PacketNumber packet) (p_Frames packet) (p_Length packet)
                    (p_EncryptionLevel packet) now in
    if p_Length packet =? 0 then (h, Err (ErrNew "SentPacketHandler: packet cannot be empty"))
    else
      let inFlight := u64 (bytesInFlight h + p_Length packet) in
      let '(c, _) := OnPacketSent (congestion h) now inFlight (p_PacketNumber packet)
                       (p_Length packet) true in
      let h := mkSentPacketHandler (p_PacketNumber packet) (skippedPackets h)
        (sph_LargestAcked h) (largestReceivedPacketWithAck h) (packetHistory h ++ [packet])
        (sph_stopWaitingManager h) (retransmissionQueue h) inFlight c (rttStats h)
        (rtoCount h) (lossTime h) (alarm h) in
      (updateLossDetectionAlarm h alarmNow, Ok tt).

(** *** Acknowledgements *)

(** [packetHistory.Remove]: the element with this packet number *)
Fixpoint removePacket (history : list Packet) (pn : Z) : list Packet :=
  match history with
  | [] => []
  | p :: history =>
      if p_PacketNumber p =? pn then history else p :: removePacket history pn
  end.

(** The inner loop of [determineNewlyAckedPackets]: [ranges] are the ACK ranges from
    the current index on, the lowest first. *)
Fixpoint advanceRange (pn : Z) (ranges : list AckRange) : list AckRange :=
  match ranges with
  | ackRange :: (_ :: _) as next =>
      if pn >? LastPacketNumber ackRange then advanceRange pn next else ranges
  | _ => ranges
  end.

Fixpoint newlyAcked (ackFrame : AckFrame) (history : list Packet) (ranges : list AckRange)
    : res (list Packet) :=
  match history with
  | [] => Ok []
  | packet :: history =>
      let packetNumber := p_PacketNumber packet in
      if packetNumber <? LowestAcked ackFrame then newlyAcked ackFrame history ranges
      else if packetNumber >? LargestAcked ackFrame then Ok []
      else if HasMissingRanges ackFrame then
        match advanceRange packetNumber ranges with
        | [] => Panic
        | (ackRange :: _) as ranges =>
            if packetNumber >=? FirstPacketNumber ackRange then
              if packetNumber >? LastPacketNumber ackRange then
                Err (Errorf "BUG: ackhandler would have acked wrong packet 0x%x, while evaluating range 0x%x -> 0x%x"
                       [packetNumber; FirstPacketNumber ackRange; LastPacketNumber ackRange])
              else
                let! acked := newlyAcked ackFrame history ranges in
                Ok (packet :: acked)
            else newlyAcked ackFrame history ranges
        end
      else
        let! acked := newlyAcked ackFrame history ranges in
        Ok (packet :: acked)
  end.

Definition determineNewlyAckedPackets (h : sentPacketHandler) (ackFrame : AckFrame)
    : res (list Packet) :=
  newlyAcked ackFrame (packetHistory h) (rev (AckRanges ackFrame)).

(** The search for the packet whose acknowledgement gives an RTT sample *)
Fixpoint findLargestAcked (history : list Packet) (largestAcked : Z) : option Packet :=
  match history with
  | [] => None
  | packet :: history =>
      if p_PacketNumber packet =? largestAcked then Some packet
      else if p_PacketNumber packet >? largestAcked then None
      else findLargestAcked history largestAcked
  end.

Definition maybeUpdateRTT (h : sentPacketHandler) (largestAcked ackDelay rcvTime now : Z)
    : sentPacketHandler * bool :=
  match findLargestAcked (packetHistory h) largestAcked with
  | Some packet =>
      (with_rtt h (UpdateRTT (rttStats h) (timeSub rcvTime (p_SendTime packet)) ackDelay now), true)
  | None => (h, false)
  end.

Definition onPacketAcked (h : sentPacketHandler) (p : Packet) : sentPacketHandler :=
  with_packets h (removePacket (packetHistory h) (p_PacketNumber p)) (sph_stopWaitingManager h)
    (retransmissionQueue h) (u64 (bytesInFlight h - p_Length p)) (congestion h) 0.

(** The loop over the acked packets *)
Fixpoint ackPackets (h : sentPacketHandler) (now : Z) (acked : list Packet) : sentPacketHandler :=
  match acked with
  | [] => h
  | p :: acked =>
      let h := onPacketAcked h p in
      let h := with_congestion h (OnPacketAcked (congestion h) (rttStats h) now
                 (p_PacketNumber p) (p_Length p) (bytesInFlight h)) in
      ackPackets h now acked
  end.

(** *** Losses *)

Definition queuePacketForRetransmission (h : sentPacketHandler) (packet : Packet)
    : sentPacketHandler :=
  with_packets h (removePacket (packetHistory h) (p_PacketNumber packet))
    (QueuedRetransmissionForPacketNumber (sph_stopWaitingManager h) (p_PacketNumber packet))
    (retransmissionQueue h ++ [packet]) (u64 (bytesInFlight h - p_Length packet))
    (congestion h) (rtoCount h).

(** [(1.0 + timeReorderingFraction) * maxRTT] in double precision *)
Definition delayUntilLost (h : sentPacketHandler) : Z :=
  let maxRTT := MaxDuration (LatestRTT (rttStats h)) (SmoothedRTT (rttStats h)) in
  rne float64_prec (9 * rne float64_prec maxRTT) / 8.

(** The loop of [detectLostPackets]: the lost packets and the loss time *)
Fixpoint lostPackets (history : list Packet) (largestAcked now delay lossTime : Z)
    : list Packet * Z :=
  match history with
  | [] => ([], lossTime)
  | packet :: history =>
      if p_PacketNumber packet >? largestAcked then ([], lossTime)
      else
        let timeSinceSent := timeSub now (p_SendTime packet) in
        if timeSinceSent >? delay then
          let '(lost, lossTime) := lostPackets history largestAcked now delay lossTime in
          (packet :: lost, lossTime)
        else
          let lossTime := if lossTime =? 0 then now + i64 (delay - timeSinceSent) else lossTime in
          lostPackets history largestAcked now delay lossTime
  end.

Fixpoint loseLostPackets (h : sentPacketHandler) (lost : list Packet) : sentPacketHandler :=
  match lost with
  | [] => h
  | p :: lost =>
      let h := queuePacketForRetransmission h p in
      let h := with_congestion h (OnPacketLost (congestion h) (p_PacketNumber p) (p_Length p)
                 (bytesInFlight h)) in
      loseLostPackets h lost
  end.

Definition detectLostPackets (h : sentPacketHandler) (now : Z) : sentPacketHandler :=
  let '(lost, loss) :=
    lostPackets (packetHistory h) (sph_LargestAcked h) now (delayUntilLost h) 0 in
  loseLostPackets (with_timers h loss (alarm h)) lost.

Definition queueRTO (h : sentPacketHandler) (packet : Packet) : sentPacketHandler :=
  let h := queuePacketForRetransmission h packet in
  let h := with_congestion h (OnPacketLost (congestion h) (p_PacketNumber packet)
             (p_Length packet) (bytesInFlight h)) in
  with_congestion h (OnRetransmissionTimeout (congestion h) true).

Definition retransmitOldest (h : sentPacketHandler) : sentPacketHandler :=
  match packetHistory h with
  | p :: _ => queueRTO h p
  | [] => h
  end.

Definition retransmitOldestTwoPackets (h : sentPacketHandler) : sentPacketHandler :=
  retransmitOldest (retransmitOldest h).

Definition OnAlarm (h : sentPacketHandler) (now alarmNow : Z) : sentPacketHandler :=
  let h :=
    if negb (lossTime h =? 0) then detectLostPackets h now
    else
      let h := retransmitOldestTwoPackets h in
      with_packets h (packetHistory h) (sph_stopWaitingManager h) (retransmissionQueue h)
        (bytesInFlight h) (congestion h) (u32 (rtoCount h + 1)) in
  updateLossDetectionAlarm h alarmNow.

(** *** The ACK handler *)

Definition skippedPacketsAcked (h : sentPacketHandler) (ackFrame : AckFrame) : bool :=
  existsb (AcksPacket ackFrame) (skippedPackets h).

(** The index after the last skipped packet number at or below [lioa] *)
Fixpoint deleteIndex (skipped : list Z) (lioa : Z) (i : nat) (index : nat) : nat :=
  match skipped with
  | [] => index
  | p :: skipped => deleteIndex skipped lioa (S i) (if p <=? lioa then S i else index)
  end.

Definition garbageCollectSkippedPackets (h : sentPacketHandler) : sentPacketHandler :=
  with_skipped h
    (drop (deleteIndex (skippedPackets h) (largestInOrderAcked h) 0 0) (skippedPackets h)).

(** [rttNow], [ackNow], [lossNow] and [alarmNow] are the readings of the clock for
    the RTT sample, the acked packets, the loss detection and the alarm. *)
Definition ReceivedAck (h : sentPacketHandler) (ackFrame : AckFrame)
    (withPacketNumber rcvTime rttNow ackNow lossNow alarmNow : Z)
    : sentPacketHandler * res unit :=
  if LargestAcked ackFrame >? lastSentPacketNumber h then (h, Err errAckForUnsentPacket)
  else if withPacketNumber <=? largestReceivedPacketWithAck h
  then (h, Err ErrDuplicateOrOutOfOrderAck)
  else
    let h := with_acked h (sph_LargestAcked h) withPacketNumber in
    if LargestAcked ackFrame <=? largestInOrderAcked h then (h, Ok tt)
    else
      let h := with_acked h (LargestAcked ackFrame) withPacketNumber in
      if skippedPacketsAcked h ackFrame then (h, Err ErrAckForSkippedPacket)
      else
        let '(h, rttUpdated) :=
          maybeUpdateRTT h (LargestAcked ackFrame) (DelayTime ackFrame) rcvTime rttNow in
        let h :=
          if rttUpdated then with_congestion h (MaybeExitSlowStart (congestion h) (rttStats h))
          else h in
        match determineNewlyAckedPackets h ackFrame with
        | Panic => (h, Panic)
        | Err e => (h, Err e)
        | Ok ackedPackets =>
            let h := ackPackets h ackNow ackedPackets in
            let h := detectLostPackets h lossNow in
            let h := updateLossDetectionAlarm h alarmNow in
            let h := garbageCollectSkippedPackets h in
            (with_stopWaiting h (swm_ReceivedAck (sph_stopWaitingManager h) ackFrame), Ok tt)
        end.

(** *** The interface of the session *)

Definition GetAlarmTimeout (h : sentPacketHandler) : Z := alarm h.

(** The queue is used as a stack. *)
Definition DequeuePacketForRetransmission (h : sentPacketHandler)
    : sentPacketHandler * option Packet :=
  match last (retransmissionQueue h) with
  | None => (h, None)
  | Some packet =>
      (with_packets h (packetHistory h) (sph_stopWaitingManager h)
         (take (length (retransmissionQueue h) - 1) (retransmissionQueue h))
         (bytesInFlight h) (congestion h) (rtoCount h), Some packet)
  end.

Definition GetLeastUnacked (h : sentPacketHandler) : Z := u64 (largestInOrderAcked h + 1).

Definition GetStopWaitingFrame (h : sentPacketHandler) (force : bool)
    : sentPacketHandler * option StopWaitingFrame :=
  let '(s, swf) := swm_GetStopWaitingFrame (sph_stopWaitingManager h) force in
  (with_stopWaiting h s, swf).

Definition SendingAllowed (h : sentPacketHandler) : bool :=
  let congestionLimited := bytesInFlight h >? GetCongestionWindow (congestion h) in
  let maxTrackedLimited :=
    u64 (len (retransmissionQueue h) + len (packetHistory h)) >=? MaxTrackedSentPackets in
  negb (congestionLimited || maxTrackedLimited).

End handler.

(** ** The packets an ACK frame acknowledges *)

Definition before (p q : Packet) : Prop := p_PacketNumber p < p_PacketNumber q.

(** ACK ranges, the lowest first *)
Definition ascending (rs : list AckRange) : Prop :=
  StronglySorted (fun r s => LastPacketNumber r < FirstPacketNumber s) rs /\
  Forall (fun r => FirstPacketNumber r <= LastPacketNumber r) rs.

Lemma descends_ascending prev rs :
  range_ok prev -> descends prev rs -> ascending (rev (prev :: rs)).
Proof.
  intros Hp Hd. split.
  - revert prev Hp Hd. induction rs as [|r rs IH]; intros prev Hp Hd; [repeat constructor|].
    destruct Hd as (Hr & Hg & Hd). change (rev (prev :: r :: rs)) with (rev (r :: rs) ++ [prev]).
    apply StronglySorted_app_2; [|by apply IH|repeat constructor].
    intros x y Hx Hy. apply list_elem_of_singleton in Hy as ->.
    apply list_elem_of_In, in_rev, list_elem_of_In in Hx.
    pose proof (descends_bounds r rs (LastPacketNumber x) Hr Hd) as Hb.
    assert (range_ok x) as Hxok.
    { apply elem_of_cons in Hx as [->|Hx]; [done|].
      pose proof (descends_range_ok r rs Hd) as Hall. rewrite Forall_forall in Hall. auto. }
    specialize (Hb ltac:(apply Exists_exists; exists x; split; [done|];
      unfold inRange, range_ok in *; lia)). lia.
  - apply Forall_rev. constructor; [unfold range_ok in Hp; lia|].
    eapply Forall_impl; [by eapply descends_range_ok|]. unfold range_ok. simpl. lia.
Qed.

Lemma advanceRange_spec pn rs :
  ascending rs -> rs <> [] -> (exists r, r ∈ rs /\ pn <= LastPacketNumber r) ->
  exists dropped r rest, rs = dropped ++ r :: rest /\ advanceRange pn rs = r :: rest /\
    Forall (fun r => LastPacketNumber r < pn) dropped /\ pn <= LastPacketNumber r.
Proof.
  induction rs as [|r rs IH]; intros Hasc Hne (x & Hx & Hpn); [done|].
  destruct rs as [|s rs].
  { apply list_elem_of_singleton in Hx as ->. by exists [], r, []. }
  cbn [advanceRange]. case_if.
  - destruct IH as (dropped & r' & rest & E & Ea & Hd & Hr'); [|done| |].
    { destruct Hasc as [Hs Hf]. inversion Hs; inversion Hf; by subst. }
    { exists x. split; [|done]. apply elem_of_cons in Hx as [->|Hx]; [lia|done]. }
    exists (r :: dropped), r', rest. rewrite E. split_and!; [done|by rewrite <- E|by constructor|done].
  - exists [], r, (s :: rs). split_and!; (done || lia).
Qed.

Lemma ascending_app l1 l2 : ascending (l1 ++ l2) -> ascending l2.
Proof.
  intros [Hs Hf]. split; [by eapply StronglySorted_app_1_r|]. by apply Forall_app in Hf as [_ ?].
Qed.

Lemma newlyAcked_ranges ack history rs :
  StronglySorted before history -> ascending rs -> AckRanges ack <> [] ->
  (exists r, r ∈ rs /\ LargestAcked ack <= LastPacketNumber r) ->
  (forall p, p ∈ history -> AcksPacket ack (p_PacketNumber p) = true <->
     (LowestAcked ack <= p_PacketNumber p <= LargestAcked ack /\ Exists (inRange (p_PacketNumber p)) rs)) ->
  newlyAcked ack history rs = Ok (filter (fun p => AcksPacket ack (p_PacketNumber p) = true) history).
Proof.
  intros Hs. revert rs. induction Hs as [|p history Hs IH Hp]; intros rs Hasc Hne Hlast Hacks; [done|].
  assert (Hnext : forall q, q ∈ history -> p_PacketNumber p < p_PacketNumber q).
  { rewrite Forall_forall in Hp. exact Hp. }
  cbn [newlyAcked]. pose proof (Hacks p ltac:(left)) as Hap.
  destruct (Z.ltb_spec (p_PacketNumber p) (LowestAcked ack)) as [Hlow|Hlow].
  { rewrite filter_cons_False by (rewrite Hap; lia). apply IH; auto.
    intros q Hq. apply Hacks. by right. }
  rewrite Z.gtb_ltb. destruct (Z.ltb_spec (LargestAcked ack) (p_PacketNumber p)) as [Hhigh|Hhigh].
  { rewrite filter_cons_False by (rewrite Hap; lia). f_equal. symmetry. apply filter_none.
    intros q Hq. rewrite Hacks by by right. specialize (Hnext q Hq). lia. }
  assert (HasMissingRanges ack = true) as ->.
  { unfold HasMissingRanges. destruct (AckRanges ack) as [|r l]; [done|]. rewrite len_cons, Z.gtb_ltb.
    pose proof (len_nonneg l). apply Z.ltb_lt. lia. }
  destruct (advanceRange_spec (p_PacketNumber p) rs Hasc) as (dropped & r & rest & -> & -> & Hd & Hr).
  { destruct Hlast as (x & Hx & _). intros ->. by apply not_elem_of_nil in Hx. }
  { destruct Hlast as (x & Hx & ?). exists x. split; [done|lia]. }
  pose proof (ascending_app _ _ Hasc) as Hasc'.
  assert (forall q, p_PacketNumber p <= q -> Exists (inRange q) (dropped ++ r :: rest) <->
    Exists (inRange q) (r :: rest)) as Hdrop.
  { intros q Hq. rewrite Exists_app. split; [|by right]. intros [He|He]; [|done].
    apply Exists_exists in He as (x & Hx & Hin). rewrite Forall_forall in Hd.
    specialize (Hd x Hx). simpl in Hd. unfold inRange in Hin. lia. }
  assert (newlyAcked ack history (r :: rest) =
    Ok (filter (fun p => AcksPacket ack (p_PacketNumber p) = true) history)) as IH'.
  { apply IH; [done|done| |].
    - destruct Hlast as (x & Hx & ?). apply elem_of_app in Hx as [Hx|Hx]; [|by exists x].
      rewrite Forall_forall in Hd. specialize (Hd x Hx). simpl in Hd. lia.
    - intros q Hq. rewrite Hacks by by right. specialize (Hnext q Hq). by rewrite Hdrop by lia. }
  rewrite Hdrop in Hap by lia.
  rewrite Z.geb_leb. destruct (Z.leb_spec (FirstPacketNumber r) (p_PacketNumber p)) as [Hfirst|Hfirst].
  - rewrite Z.gtb_ltb, (proj2 (Z.ltb_ge _ _)) by lia. rewrite IH'. cbn [rbind].
    rewrite filter_cons_True; [done|]. apply Hap. split; [lia|]. left. unfold inRange. lia.
  - rewrite IH', filter_cons_False; [done|]. rewrite Hap. intros [_ He].
    apply Exists_cons in He as [He|He]; [unfold inRange in He; lia|].
    apply Exists_exists in He as (x & Hx & Hin). destruct Hasc' as [Hss Hff].
    apply StronglySorted_inv in Hss as [_ Hall]. rewrite Forall_forall in Hall.
    specialize (Hall x Hx). simpl in Hall. apply Forall_cons in Hff as [? _]. unfold inRange in Hin. lia.
Qed.

Lemma newlyAcked_plain ack history rs :
  StronglySorted before history -> AckRanges ack = [] ->
  newlyAcked ack history rs = Ok (filter (fun p => AcksPacket ack (p_PacketNumber p) = true) history).
Proof.
  intros Hs E. induction Hs as [|p history Hs IH Hp]; [done|]. cbn [newlyAcked].
  assert (HasMissingRanges ack = false) as -> by (unfold HasMissingRanges; by rewrite E).
  pose proof (AcksPacket_plain ack (p_PacketNumber p) E) as Hap.
  rewrite Z.gtb_ltb. destruct (Z.ltb_spec (p_PacketNumber p) (LowestAcked ack)).
  { by rewrite filter_cons_False by (rewrite Hap; lia). }
  destruct (Z.ltb_spec (LargestAcked ack) (p_PacketNumber p)).
  - rewrite filter_cons_False by (rewrite Hap; lia). f_equal. symmetry. apply filter_none.
    intros q Hq. rewrite AcksPacket_plain by done.
    rewrite Forall_forall in Hp. specialize (Hp q Hq). unfold before in Hp. lia.
  - rewrite IH. cbn [rbind]. by rewrite filter_cons_True by (rewrite Hap; lia).
Qed.

(** Every packet of the history that an accepted ACK frame acknowledges is found,
    and no other; the consistency check of the loop never fails. *)
Lemma newlyAcked_spec ack history :
  StronglySorted before history -> AckFrame_accepted ack ->
  newlyAcked ack history (rev (AckRanges ack)) =
  Ok (filter (fun p => AcksPacket ack (p_PacketNumber p) = true) history).
Proof.
  intros Hs (Hlow & _ & Hrs). destruct (AckRanges ack) as [|first rs] eqn:E.
  { by apply newlyAcked_plain. }
  destruct Hrs as (Hf & Hd & _ & Hlast & _).
  apply newlyAcked_ranges; [done|by apply descends_ascending|by rewrite E| |].
  - exists first. split; [|lia]. apply list_elem_of_In, in_rev. rewrite rev_involutive. by left.
  - intros p _. rewrite AcksPacket_ranges, E by by rewrite E. by rewrite Exists_rev_iff.
Qed.

(** ** The packet history *)

Fixpoint total (l : list Packet) : Z :=
  match l with
  | [] => 0
  | p :: l => p_Length p + total l
  end.

Definition numbers (l : list Packet) : list Z := map p_PacketNumber l.

Lemma before_NoDup l : StronglySorted before l -> NoDup (numbers l).
Proof.
  induction 1 as [|p l Hl IH Hp]; [constructor|]. cbn. constructor; [|done].
  intros Hin. apply list_elem_of_fmap in Hin as (q & E & Hq).
  rewrite Forall_forall in Hp. specialize (Hp q Hq). unfold before in Hp. lia.
Qed.

Lemma removePacket_filter l pn :
  NoDup (numbers l) -> removePacket l pn = filter (fun p => p_PacketNumber p <> pn) l.
Proof.
  induction l as [|p l IH]; intros Hnd; [done|].
  unfold numbers in *. cbn [map removePacket] in *. apply NoDup_cons in Hnd as [Hp Hnd].
  destruct (Z.eqb_spec (p_PacketNumber p) pn) as [<-|Hne].
  - rewrite filter_cons_False by tauto. symmetry. apply filter_all.
    intros q Hq E. apply Hp. rewrite <- E. apply list_elem_of_fmap. eauto.
  - by rewrite filter_cons_True, IH.
Qed.

Lemma total_remove l p :
  NoDup (numbers l) -> p ∈ l -> total (removePacket l (p_PacketNumber p)) = total l - p_Length p.
Proof.
  induction l as [|q l IH]; intros Hnd Hp; [by apply not_elem_of_nil in Hp|].
  cbn in *. apply NoDup_cons in Hnd as [Hq Hnd].
  destruct (Z.eqb_spec (p_PacketNumber q) (p_PacketNumber p)) as [E|E].
  - apply elem_of_cons in Hp as [->|Hp]; [lia|]. exfalso. apply Hq. rewrite E.
    apply list_elem_of_fmap. eauto.
  - apply elem_of_cons in Hp as [->|Hp]; [done|]. cbn. rewrite IH by done. lia.
Qed.

(** Removing packets one after the other *)
Fixpoint removePackets (l ps : list Packet) : list Packet :=
  match ps with
  | [] => l
  | p :: ps => removePackets (removePacket l (p_PacketNumber p)) ps
  end.

Lemma filter_numbers_NoDup (P : Packet -> Prop) `{!forall x, Decision (P x)} l :
  NoDup (numbers l) -> NoDup (numbers (filter P l)).
Proof.
  induction l as [|p l IH]; intros Hnd; [done|]. cbn in Hnd. apply NoDup_cons in Hnd as [Hp Hnd].
  rewrite filter_cons. case_decide; [|auto]. cbn. constructor; [|auto].
  intros Hin. apply Hp. apply list_elem_of_fmap in Hin as (q & -> & Hq).
  apply list_elem_of_filter in Hq as [_ Hq]. apply list_elem_of_fmap. eauto.
Qed.

Lemma removePackets_filter l ps :
  NoDup (numbers l) ->
  removePackets l ps = filter (fun p => p_PacketNumber p ∉ numbers ps) l.
Proof.
  revert l. induction ps as [|p ps IH]; intros l Hnd; cbn.
  { symmetry. apply filter_all. intros q _. apply not_elem_of_nil. }
  rewrite removePacket_filter by done.
  rewrite IH by by apply filter_numbers_NoDup. rewrite list_filter_filter.
  apply filter_ext_in. intros q _. cbn. rewrite not_elem_of_cons. tauto.
Qed.

(** Removing the packets that satisfy a predicate leaves those that do not. *)
Lemma removePackets_pred (P : Packet -> Prop) `{!forall x, Decision (P x)} l :
  NoDup (numbers l) -> removePackets l (filter P l) = filter (fun p => ~ P p) l.
Proof.
  intros Hnd. rewrite removePackets_filter by done. apply filter_ext_in.
  intros p Hp. split.
  - intros Hn HP. apply Hn. apply list_elem_of_fmap. exists p. split; [done|].
    by apply list_elem_of_filter.
  - intros HP Hin. apply list_elem_of_fmap in Hin as (q & E & Hq).
    apply list_elem_of_filter in Hq as [HPq Hq]. assert (p = q) as ->; [|done].
    clear -Hnd Hp Hq E. induction l as [|x l IH]; [by apply not_elem_of_nil in Hp|].
    cbn in Hnd. apply NoDup_cons in Hnd as [Hx Hnd].
    assert (forall y, y ∈ l -> p_PacketNumber x <> p_PacketNumber y) as Hne.
    { intros y Hy Exy. apply Hx. apply list_elem_of_fmap. eauto. }
    apply elem_of_cons in Hp as [->|Hp], Hq as [->|Hq]; [done| | |auto].
    + by apply Hne in Hq.
    + apply Hne in Hp. congruence.
Qed.

Lemma total_removePackets l ps :
  NoDup (numbers l) -> NoDup (numbers ps) -> ps ⊆ l ->
  total (removePackets l ps) = total l - total ps.
Proof.
  revert l. induction ps as [|p ps IH]; intros l Hnd Hps Hin; cbn; [lia|].
  cbn in Hps. apply NoDup_cons in Hps as [Hp Hps].
  assert (p ∈ l) by (apply Hin; left).
  rewrite IH; [rewrite total_remove by done; lia| |done|].
  - rewrite removePacket_filter by done. by apply filter_numbers_NoDup.
  - intros q Hq. rewrite removePacket_filter by done. apply list_elem_of_filter.
    split; [|apply Hin; by right]. intros E. apply Hp. rewrite <- E. apply list_elem_of_fmap. eauto.
Qed.

(** ** What each operation does *)

Section theory.
Context `{SA : SendAlgorithm, Laws : !SendAlgorithmLaws SA}.

(** The fields that removing packets from the history leaves alone. *)
Record untouched (h h' : sentPacketHandler) : Prop := {
  un_last : lastSentPacketNumber h' = lastSentPacketNumber h;
  un_skipped : skippedPackets h' = skippedPackets h;
  un_largest : sph_LargestAcked h' = sph_LargestAcked h;
  un_withAck : largestReceivedPacketWithAck h' = largestReceivedPacketWithAck h;
  un_rtt : rttStats h' = rttStats h;
}.

Lemma untouched_refl h : untouched h h.
Proof. done. Qed.

Lemma untouched_trans h1 h2 h3 : untouched h1 h2 -> untouched h2 h3 -> untouched h1 h3.
Proof. intros [] []. constructor; congruence. Qed.

(** The history is what the code assumes of it. *)
Record history_ok (h : sentPacketHandler) : Prop := {
  hist_sorted : StronglySorted before (packetHistory h);
  hist_inFlight : bytesInFlight h = total (packetHistory h);
  hist_total : total (packetHistory h) < 2 ^ 64;
  hist_lengths : Forall (fun p => 0 <= p_Length p) (packetHistory h);
  hist_congestion : SA_ok (congestion h);
}.

Lemma total_nonneg l : Forall (fun p => 0 <= p_Length p) l -> 0 <= total l.
Proof. induction 1; cbn; lia. Qed.

Lemma total_ge l p : Forall (fun p => 0 <= p_Length p) l -> p ∈ l -> p_Length p <= total l.
Proof.
  induction 1 as [|q l Hq Hl IH]; intros Hp; [by apply not_elem_of_nil in Hp|].
  pose proof (total_nonneg l Hl). apply elem_of_cons in Hp as [->|Hp]; cbn; [lia|].
  specialize (IH Hp). lia.
Qed.

(** One packet leaves the history. *)
Lemma history_ok_remove h h' p c :
  history_ok h -> p ∈ packetHistory h -> SA_ok c -> congestion h' = c ->
  packetHistory h' = removePacket (packetHistory h) (p_PacketNumber p) ->
  bytesInFlight h' = u64 (bytesInFlight h - p_Length p) -> history_ok h'.
Proof.
  intros [Hs Hi Ht Hl _] Hp Hc <- E Eb. pose proof (before_NoDup _ Hs) as Hnd.
  pose proof (total_remove _ p Hnd Hp) as Etot. pose proof (total_ge _ p Hl Hp).
  rewrite removePacket_filter in E, Etot by done.
  assert (Forall (fun p => 0 <= p_Length p) (packetHistory h')) as Hl'
    by (rewrite E; by apply filter_Forall).
  assert (0 <= p_Length p) by (rewrite Forall_forall in Hl; by apply Hl).
  constructor; [rewrite E; by apply StronglySorted_filter| |rewrite E; lia|done|done].
  rewrite Eb, E, Etot, Hi. apply u64_small. unfold_width. lia.
Qed.

Lemma elem_removePacket l p q :
  NoDup (numbers l) -> q ∈ l -> p_PacketNumber q <> p_PacketNumber p ->
  q ∈ removePacket l (p_PacketNumber p).
Proof. intros. rewrite removePacket_filter by done. by apply list_elem_of_filter. Qed.

Lemma subset_removePacket l p ps :
  NoDup (numbers l) -> NoDup (numbers (p :: ps)) -> p :: ps ⊆ l ->
  ps ⊆ removePacket l (p_PacketNumber p).
Proof.
  intros Hnd Hps Hin q Hq. cbn in Hps. apply NoDup_cons in Hps as [Hp _].
  apply elem_removePacket; [done|apply Hin; by right|]. intros E. apply Hp.
  rewrite <- E. apply list_elem_of_fmap. eauto.
Qed.

Lemma ackPackets_spec h now acked :
  history_ok h -> NoDup (numbers acked) -> acked ⊆ packetHistory h ->
  let h' := ackPackets h now acked in
  history_ok h' /\ untouched h h' /\
  packetHistory h' = removePackets (packetHistory h) acked /\
  retransmissionQueue h' = retransmissionQueue h /\
  sph_stopWaitingManager h' = sph_stopWaitingManager h /\
  lossTime h' = lossTime h /\ alarm h' = alarm h.
Proof.
  revert h. induction acked as [|p acked IH]; intros h Hok Hnd Hin; [done|]. cbn [ackPackets].
  set (h1 := with_congestion _ _).
  assert (history_ok h1) as Hok1.
  { eapply (history_ok_remove h h1 p); [done|apply Hin; left| |done|done|done].
    apply OnPacketAcked_ok. by destruct Hok. }
  destruct (IH h1 Hok1) as (Hok' & Hun & Eh & Eq & Es & El & Ea).
  - cbn in Hnd. by apply NoDup_cons in Hnd as [_ ?].
  - apply subset_removePacket; [apply before_NoDup; by destruct Hok|done|done].
  - split_and!; try done. by apply (untouched_trans h h1).
Qed.

Lemma loseLostPackets_spec h lost :
  history_ok h -> NoDup (numbers lost) -> lost ⊆ packetHistory h ->
  let h' := loseLostPackets h lost in
  history_ok h' /\ untouched h h' /\
  packetHistory h' = removePackets (packetHistory h) lost /\
  retransmissionQueue h' = retransmissionQueue h ++ lost /\
  sph_stopWaitingManager h' =
    fold_left QueuedRetransmissionForPacketNumber (numbers lost) (sph_stopWaitingManager h) /\
  lossTime h' = lossTime h /\ alarm h' = alarm h.
Proof.
  revert h. induction lost as [|p lost IH]; intros h Hok Hnd Hin.
  { cbn. by rewrite app_nil_r. }
  cbn [loseLostPackets]. set (h1 := with_congestion _ _).
  assert (history_ok h1) as Hok1.
  { eapply (history_ok_remove h h1 p); [done|apply Hin; left| |done|done|done].
    apply OnPacketLost_ok. by destruct Hok. }
  destruct (IH h1 Hok1) as (Hok' & Hun & Eh & Eq & Es & El & Ea).
  - cbn in Hnd. by apply NoDup_cons in Hnd as [_ ?].
  - apply subset_removePacket; [apply before_NoDup; by destruct Hok|done|done].
  - split_and!; try done; [by apply (untouched_trans h h1)|]. rewrite Eq. cbn. by rewrite <- app_assoc.
Qed.

(** A packet is lost when it is old enough and a later one was acked. *)
Definition isLost (largestAcked now delay : Z) (p : Packet) : Prop :=
  p_PacketNumber p <= largestAcked /\ delay < timeSub now (p_SendTime p).

#[global] Instance isLost_dec largestAcked now delay p : Decision (isLost largestAcked now delay p).
Proof. unfold isLost. apply _. Defined.

Lemma lostPackets_spec history largestAcked now delay loss :
  StronglySorted before history ->
  (lostPackets history largestAcked now delay loss).1 =
  filter (isLost largestAcked now delay) history.
Proof.
  intros Hs. revert loss. induction Hs as [|p history Hs IH Hp]; intros loss; [done|].
  cbn [lostPackets]. rewrite Z.gtb_ltb. destruct (Z.ltb_spec largestAcked (p_PacketNumber p)).
  - cbn. symmetry. apply (filter_none _ (p :: history)). intros q Hq [Hq' _].
    apply elem_of_cons in Hq as [->|Hq]; [lia|].
    rewrite Forall_forall in Hp. specialize (Hp q Hq). unfold before in Hp. lia.
  - rewrite Z.gtb_ltb. destruct (Z.ltb_spec delay (timeSub now (p_SendTime p))).
    + specialize (IH loss). destruct (lostPackets history largestAcked now delay loss). cbn [fst] in IH |- *.
      rewrite IH. by rewrite filter_cons_True by done.
    + rewrite IH. rewrite filter_cons_False; [done|]. intros [_ ?]. lia.
Qed.

Lemma detectLostPackets_spec h now :
  history_ok h ->
  let lost := isLost (sph_LargestAcked h) now (delayUntilLost h) in
  let h' := detectLostPackets h now in
  history_ok h' /\ untouched h h' /\
  packetHistory h' = filter (fun p => ~ lost p) (packetHistory h) /\
  retransmissionQueue h' = retransmissionQueue h ++ filter lost (packetHistory h) /\
  sph_stopWaitingManager h' =
    fold_left QueuedRetransmissionForPacketNumber (numbers (filter lost (packetHistory h)))
      (sph_stopWaitingManager h).
Proof.
  intros Hok lost. unfold detectLostPackets.
  pose proof (lostPackets_spec (packetHistory h) (sph_LargestAcked h) now (delayUntilLost h) 0
    ltac:(by destruct Hok)) as El. fold lost in El.
  destruct (lostPackets _ _ _ _ _) as [ps loss]. cbn [fst] in El. subst ps.
  assert (NoDup (numbers (packetHistory h))) as Hnd by (apply before_NoDup; by destruct Hok).
  set (h1 := with_timers h loss (alarm h)).
  assert (history_ok h1) as Hok1 by by destruct Hok.
  destruct (loseLostPackets_spec h1 (filter lost (packetHistory h)) Hok1)
    as (Hok' & Hun & Eh & Eq & Es & _).
  - by apply filter_numbers_NoDup.
  - intros p Hp. by apply list_elem_of_filter in Hp as [_ ?].
  - split_and!; try done; [by destruct Hun|].
    rewrite Eh. by apply removePackets_pred.
Qed.

(** The RTT sample and the exit from slow start do not touch the packets. *)
Lemma maybeUpdateRTT_spec h largestAcked ackDelay rcvTime now :
  history_ok h ->
  let '(h', updated) := maybeUpdateRTT h largestAcked ackDelay rcvTime now in
  let h'' := if updated : bool then with_congestion h' (MaybeExitSlowStart (congestion h') (rttStats h'))
             else h' in
  history_ok h'' /\ packetHistory h'' = packetHistory h /\
  retransmissionQueue h'' = retransmissionQueue h /\
  sph_stopWaitingManager h'' = sph_stopWaitingManager h /\
  lastSentPacketNumber h'' = lastSentPacketNumber h /\ skippedPackets h'' = skippedPackets h /\
  sph_LargestAcked h'' = sph_LargestAcked h /\
  largestReceivedPacketWithAck h'' = largestReceivedPacketWithAck h /\
  rttStats h'' =
    match findLargestAcked (packetHistory h) largestAcked with
    | Some p => UpdateRTT (rttStats h) (timeSub rcvTime (p_SendTime p)) ackDelay now
    | None => rttStats h
    end.
Proof.
  intros Hok. unfold maybeUpdateRTT. destruct (findLargestAcked _ _) as [p|].
  - split; [|done]. destruct Hok. constructor; try done. by apply MaybeExitSlowStart_ok.
  - split; [|done]. done.
Qed.

Lemma updateLossDetectionAlarm_spec h now :
  exists al, updateLossDetectionAlarm h now = with_timers h (lossTime h) al.
Proof. unfold updateLossDetectionAlarm. repeat case_if; eauto. Qed.

(** What processing an ACK frame does to the packets. *)
Record ack_processed (h h' : sentPacketHandler) (ack : AckFrame) (rcvTime rttNow lossNow : Z)
    : Prop := {
  (* [lost] of the state after the RTT update, which the rest leaves alone *)
  ap_ok : history_ok h';
  ap_history : packetHistory h' =
    filter (fun p => ~ isLost (LargestAcked ack) lossNow (delayUntilLost h') p)
      (filter (fun p => ~ AcksPacket ack (p_PacketNumber p) = true) (packetHistory h));
  ap_queue : retransmissionQueue h' = retransmissionQueue h ++
    filter (isLost (LargestAcked ack) lossNow (delayUntilLost h'))
      (filter (fun p => ~ AcksPacket ack (p_PacketNumber p) = true) (packetHistory h));
  ap_largest : sph_LargestAcked h' = LargestAcked ack;
  ap_last : lastSentPacketNumber h' = lastSentPacketNumber h;
  ap_skipped : skippedPackets h' ⊆ skippedPackets h /\
    len (skippedPackets h') <= len (skippedPackets h) /\
    Forall (fun s => AcksPacket ack s = false) (skippedPackets h);
  ap_rtt : rttStats h' =
    match findLargestAcked (packetHistory h) (LargestAcked ack) with
    | Some p => UpdateRTT (rttStats h) (timeSub rcvTime (p_SendTime p)) (DelayTime ack) rttNow
    | None => rttStats h
    end;
  ap_stopWaiting : sph_stopWaitingManager h' =
    swm_ReceivedAck (fold_left QueuedRetransmissionForPacketNumber
      (numbers (filter (isLost (LargestAcked ack) lossNow (delayUntilLost h'))
                  (filter (fun p => ~ AcksPacket ack (p_PacketNumber p) = true) (packetHistory h))))
      (sph_stopWaitingManager h)) ack;
}.

Lemma ReceivedAck_outcome h ack withPN rcvTime rttNow ackNow lossNow alarmNow :
  history_ok h -> AckFrame_accepted ack ->
  let '(h', r) := ReceivedAck h ack withPN rcvTime rttNow ackNow lossNow alarmNow in
  match r with
  | Panic => False
  | Err e =>
      (lastSentPacketNumber h < LargestAcked ack /\ e = errAckForUnsentPacket /\ h' = h) \/
      (withPN <= largestReceivedPacketWithAck h /\ e = ErrDuplicateOrOutOfOrderAck /\ h' = h) \/
      (LargestAcked ack <= lastSentPacketNumber h /\
       Exists (fun s => AcksPacket ack s = true) (skippedPackets h) /\ e = ErrAckForSkippedPacket /\
       h' = with_acked h (LargestAcked ack) withPN)
  | Ok _ =>
      LargestAcked ack <= lastSentPacketNumber h /\ largestReceivedPacketWithAck h < withPN /\
      ((LargestAcked ack <= largestInOrderAcked h /\ h' = with_acked h (sph_LargestAcked h) withPN) \/
       (largestInOrderAcked h < LargestAcked ack /\ ack_processed h h' ack rcvTime rttNow lossNow))
  end.
Proof.
  intros Hok Hack. unfold ReceivedAck.
  case_if; [left; split_and!; (done || lia)|].
  case_if; [right; left; split_and!; (done || lia)|].
  set (h0 := with_acked h (sph_LargestAcked h) withPN).
  change (largestInOrderAcked h0) with (largestInOrderAcked h).
  case_if; [split_and!; try lia; left; split; (done || lia)|].
  set (h1 := with_acked h0 (LargestAcked ack) withPN).
  destruct (skippedPacketsAcked h1 ack) eqn:Es.
  { right. right. split; [lia|]. split; [|done]. apply existsb_exists in Es as (x & Hx & Hs).
    apply Exists_exists. exists x. split; [by apply list_elem_of_In|done]. }
  assert (history_ok h1) as Hok1 by by destruct Hok.
  pose proof (maybeUpdateRTT_spec h1 (LargestAcked ack) (DelayTime ack) rcvTime rttNow Hok1) as Hrtt.
  destruct (maybeUpdateRTT _ _ _ _ _) as [h2 updated]. cbv zeta in Hrtt.
  set (h3 := if updated then _ else h2) in *.
  destruct Hrtt as (Hok3 & Eh & Eq & Esw & El & Esk & Ela & Ewa & Er).
  unfold determineNewlyAckedPackets. rewrite newlyAcked_spec by (done || by destruct Hok3).
  set (acked := filter (fun p => AcksPacket ack (p_PacketNumber p) = true) (packetHistory h3)).
  assert (NoDup (numbers (packetHistory h3))) as Hnd by (apply before_NoDup; by destruct Hok3).
  destruct (ackPackets_spec h3 ackNow acked Hok3) as (Hok4 & Hun4 & Eh4 & Eq4 & Esw4 & _).
  { by apply filter_numbers_NoDup. }
  { intros p Hp. by apply list_elem_of_filter in Hp as [_ ?]. }
  set (h4 := ackPackets h3 ackNow acked) in *. clearbody h4.
  unfold acked in Eh4. rewrite removePackets_pred in Eh4 by done.
  destruct (detectLostPackets_spec h4 lossNow Hok4) as (Hok5 & Hun5 & Eh5 & Eq5 & Esw5).
  set (h5 := detectLostPackets h4 lossNow) in *. clearbody h5.
  destruct (updateLossDetectionAlarm_spec h5 alarmNow) as [al ->].
  assert (sph_LargestAcked h4 = LargestAcked ack) as Ela4
    by (rewrite (un_largest _ _ Hun4), Ela; done).
  assert (rttStats h5 = rttStats h4 /\ rttStats h4 = rttStats h3) as [Er5 Er4]
    by (destruct Hun5, Hun4; done).
  split; [lia|]. split; [lia|]. right. split; [lia|].
  set (h' := with_stopWaiting _ _).
  assert (rttStats h' = rttStats h4) as Erh by exact Er5.
  assert (delayUntilLost h' = delayUntilLost h4) as Ed
    by (unfold delayUntilLost; by rewrite Erh).
  constructor; rewrite ?Ed; cbn.
  - by destruct Hok5.
  - by rewrite Eh5, Ela4, Eh4, Eh.
  - by rewrite Eq5, Eq4, Eq, Ela4, Eh4, Eh.
  - by rewrite (un_largest _ _ Hun5).
  - by rewrite (un_last _ _ Hun5), (un_last _ _ Hun4), El.
  - assert (skippedPackets h5 = skippedPackets h) as Esk5
      by (by rewrite (un_skipped _ _ Hun5), (un_skipped _ _ Hun4), Esk).
    rewrite Esk5. split.
    + intros x Hx. by eapply elem_of_submseteq, submseteq_drop.
    + split; [unfold len; rewrite length_drop; lia|].
      apply Forall_forall. intros x Hx. destruct (AcksPacket ack x) eqn:Ex; [|done].
      assert (skippedPacketsAcked h1 ack = true); [|congruence].
      apply existsb_exists. exists x. split; [by apply list_elem_of_In|done].
  - rewrite Er5, Er4. exact Er.
  - by rewrite Esw5, Esw4, Esw, Ela4, Eh4, Eh.
Qed.

(** ** The states the session can bring the handler into *)

(** [sent]: the packets that were sent, in order; [dequeued]: those that were
    handed out for retransmission; [acks]: the ACK frames that were received. *)
Inductive SPH_reach : sentPacketHandler -> list Packet -> list Packet -> list AckFrame -> Prop :=
| sph_new r c : SA_ok c -> SPH_reach (NewSentPacketHandler r c) [] [] []
| sph_sent h sent dequeued acks packet now alarmNow h' r :
    SPH_reach h sent dequeued acks ->
    0 < p_PacketNumber packet < 2 ^ 63 -> 0 < p_Length packet <= MaxPacketSize ->
    SentPacket h packet now alarmNow = (h', r) ->
    SPH_reach h'
      (match r with
       | Ok _ => sent ++ [mkPacket (p_PacketNumber packet) (p_Frames packet) (p_Length packet)
                            (p_EncryptionLevel packet) now]
       | _ => sent
       end) dequeued acks
| sph_ack h sent dequeued acks ack withPN rcvTime t1 t2 t3 t4 h' r :
    SPH_reach h sent dequeued acks -> AckFrame_accepted ack ->
    ReceivedAck h ack withPN rcvTime t1 t2 t3 t4 = (h', r) ->
    SPH_reach h' sent dequeued (ack :: acks)
| sph_alarm h sent dequeued acks now alarmNow :
    SPH_reach h sent dequeued acks -> SPH_reach (OnAlarm h now alarmNow) sent dequeued acks
| sph_dequeue h sent dequeued acks h' p :
    SPH_reach h sent dequeued acks -> DequeuePacketForRetransmission h = (h', Some p) ->
    SPH_reach h' sent (p :: dequeued) acks
| sph_stopWaiting h sent dequeued acks force h' swf :
    SPH_reach h sent dequeued acks -> GetStopWaitingFrame h force = (h', swf) ->
    SPH_reach h' sent dequeued acks.

(** Every sent packet is in the history, queued for retransmission, handed out for
    it, or was acknowledged by the peer. *)
Definition accounted (h : sentPacketHandler) (sent dequeued : list Packet) (acks : list AckFrame)
    : Prop :=
  exists acked,
    sent ≡ₚ packetHistory h ++ retransmissionQueue h ++ dequeued ++ acked /\
    Forall (fun p => Exists (fun ack => AcksPacket ack (p_PacketNumber p) = true) acks) acked.

Record sph_ok (h : sentPacketHandler) (sent dequeued : list Packet) (acks : list AckFrame) : Prop := {
  sok_history : history_ok h;
  sok_accounted : accounted h sent dequeued acks;
  sok_sorted : StronglySorted before sent;
  sok_sent : Forall (fun p => 0 < p_PacketNumber p <= lastSentPacketNumber h /\
                       0 < p_Length p <= MaxPacketSize) sent;
  sok_tracked : len (retransmissionQueue h) + len (packetHistory h) <= MaxTrackedSentPackets;
  sok_skipped : Forall (fun s => 0 < s <= lastSentPacketNumber h /\ s ∉ numbers sent) (skippedPackets h);
  sok_numSkipped : len (skippedPackets h) <= MaxTrackedSkippedPackets;
  sok_last : 0 <= lastSentPacketNumber h < 2 ^ 63;
  sok_largest : 0 <= sph_LargestAcked h <= lastSentPacketNumber h;
  sok_stopWaiting : 0 <= nextLeastUnacked (sph_stopWaitingManager h) <= lastSentPacketNumber h + 1;
}.

Lemma history_sent h sent dequeued acks p :
  accounted h sent dequeued acks -> p ∈ packetHistory h ++ retransmissionQueue h -> p ∈ sent.
Proof. intros (acked & -> & _) Hp. rewrite app_assoc. apply elem_of_app. by left. Qed.

Lemma total_app l1 l2 : total (l1 ++ l2) = total l1 + total l2.
Proof. induction l1 as [|p l1 IH]; [done|]. cbn [app total]. lia. Qed.

Lemma total_le_len l m : Forall (fun p => p_Length p <= m) l -> total l <= len l * m.
Proof. induction 1 as [|p l Hp Hl IH]; cbn [total]; [done|]. rewrite len_cons. lia. Qed.

Lemma trackSkipped_spec (P : Z -> Prop) new skipped :
  Forall P skipped -> Forall P new -> len skipped <= MaxTrackedSkippedPackets ->
  let skipped' := fold_left trackSkipped new skipped in
  Forall P skipped' /\ len skipped' <= MaxTrackedSkippedPackets.
Proof.
  revert skipped. induction new as [|x new IH]; intros skipped Hs Hn Hl; [done|]. cbn [fold_left].
  apply Forall_cons in Hn as [Hx Hn].
  assert (Forall P (skipped ++ [x])) as Hsx by (apply Forall_app; auto).
  unfold trackSkipped at 2 4. apply IH; [|done|].
  - case_if; [|done]. destruct skipped; cbn in *; [constructor|].
    by apply Forall_cons in Hsx as [_ ?].
  - pose proof (len_app skipped [x]) as El. change (len [x]) with 1 in El.
    case_if; [|lia]. destruct skipped as [|y skipped]; cbn [app tail] in *; [done|].
    rewrite !len_cons in El. rewrite len_cons in Hl. lia.
Qed.

Lemma SentPacket_ok h sent dequeued acks packet now alarmNow h' r :
  sph_ok h sent dequeued acks ->
  0 < p_PacketNumber packet < 2 ^ 63 -> 0 < p_Length packet <= MaxPacketSize ->
  SentPacket h packet now alarmNow = (h', r) ->
  sph_ok h'
    (match r with
     | Ok _ => sent ++ [mkPacket (p_PacketNumber packet) (p_Frames packet) (p_Length packet)
                          (p_EncryptionLevel packet) now]
     | _ => sent
     end) dequeued acks.
Proof.
  intros Hok Hpn Hlen. unfold SentPacket.
  case_if; [by intros [= <- <-]|]. case_if; [by intros [= <- <-]|].
  cbn [p_Length p_PacketNumber]. rewrite (proj2 (Z.eqb_neq _ 0)) by lia.
  destruct (OnPacketSent _ _ _ _ _ _) as [c b] eqn:Ec.
  match goal with |- context [updateLossDetectionAlarm ?x alarmNow] =>
    destruct (updateLossDetectionAlarm_spec x alarmNow) as [al ->] end.
  intros [= <- <-].
  set (p := mkPacket _ _ _ _ now).
  destruct Hok as [Hh Hacc Hsort Hsent Htr Hsk Hns Hlast Hla Hsw].
  assert (Forall (fun q => p_PacketNumber q <= lastSentPacketNumber h /\
     0 < p_Length q <= MaxPacketSize) (packetHistory h)) as Hhist.
  { apply Forall_forall. intros q Hq. rewrite Forall_forall in Hsent.
    destruct (Hsent q) as [? ?]; [|lia]. eapply history_sent; [done|]. apply elem_of_app. by left. }
  pose proof (len_nonneg (retransmissionQueue h)). pose proof (len_nonneg (packetHistory h)).
  unfold MaxTrackedSentPackets, DefaultMaxCongestionWindow in *.
  assert (len (retransmissionQueue h) + len (packetHistory h) + 1 <= 2000) as Hroom
    by (rewrite u64_small in * by (unfold_width; lia); lia).
  assert (total (packetHistory h ++ [p]) <= 2000 * MaxPacketSize) as Htot.
  { etransitivity; [apply (total_le_len _ MaxPacketSize)|].
    - apply Forall_app. split; [eapply Forall_impl; [exact Hhist|]; simpl; lia|]. repeat constructor.
      cbn. lia.
    - rewrite len_app. change (len [p]) with 1. unfold MaxPacketSize. lia. }
  destruct (trackSkipped_spec (fun s => lastSentPacketNumber h < s < p_PacketNumber packet \/
    s ∈ skippedPackets h) (seqZ (lastSentPacketNumber h + 1)
    (p_PacketNumber packet - (lastSentPacketNumber h + 1))) (skippedPackets h)) as [Hsk' Hns'].
  { apply Forall_forall. auto. }
  { apply Forall_forall. intros x Hx%elem_of_seqZ. left. lia. }
  { done. }
  constructor; cbn; try (done || lia).
  - destruct Hh as [Hs Hi Ht Hl Hc]. rewrite total_app in Htot. cbn [total p_Length p] in Htot.
    constructor; cbn.
    + apply StronglySorted_app_2; [|done|repeat constructor]. intros x y Hx Hy.
      apply list_elem_of_singleton in Hy as ->. rewrite Forall_forall in Hhist.
      specialize (Hhist x Hx). unfold before. cbn. lia.
    + rewrite total_app. cbn. rewrite Hi. pose proof (total_nonneg _ Hl). rewrite u64_small; [lia|].
      unfold_width. unfold MaxPacketSize in *. lia.
    + rewrite total_app. cbn. unfold MaxPacketSize in *. lia.
    + apply Forall_app. split; [done|]. repeat constructor. cbn. lia.
    + change c with (c, b).1. rewrite <- Ec. by apply OnPacketSent_ok.
  - destruct Hacc as (acked & Hperm & Hacked). exists acked. split; [|done]. cbn.
    rewrite Hperm. rewrite <- !app_assoc. apply Permutation_app_head.
    rewrite (Permutation_app_comm [p]). by rewrite <- !app_assoc.
  - apply StronglySorted_app_2; [|done|repeat constructor]. intros x y Hx Hy.
    apply list_elem_of_singleton in Hy as ->. rewrite Forall_forall in Hsent.
    specialize (Hsent x Hx). unfold before. cbn. lia.
  - apply Forall_app. split; [|apply Forall_singleton; cbn; lia].
    eapply Forall_impl; [exact Hsent|]. simpl. lia.
  - rewrite len_app. change (len [p]) with 1.
    unfold MaxTrackedSentPackets, DefaultMaxCongestionWindow. lia.
  - eapply Forall_impl; [exact Hsk'|]. simpl. rewrite Forall_forall in Hsk. intros x Hx.
    unfold numbers. rewrite map_app, elem_of_app. cbn. rewrite list_elem_of_singleton.
    destruct Hx as [Hx|Hx].
    + split; [lia|]. intros [Hin|E]; [|lia]. apply list_elem_of_fmap in Hin as (q & -> & Hq).
      rewrite Forall_forall in Hsent. specialize (Hsent q Hq). lia.
    + destruct (Hsk x Hx) as [? Hni]. split; [lia|]. intros [Hin|E]; [done|lia].
Qed.

Lemma Permutation_regroup (A L R Q D O : list Packet) :
  (A ++ L ++ R) ++ Q ++ D ++ O ≡ₚ R ++ (Q ++ L) ++ D ++ O ++ A.
Proof.
  rewrite <- !app_assoc. rewrite (Permutation_app_comm A). rewrite !app_assoc.
  do 3 (apply Permutation_app_tail). rewrite <- !app_assoc. rewrite (Permutation_app_comm L).
  by rewrite <- !app_assoc.
Qed.

(** Packets that leave the history for the queue, or were acked *)
Lemma accounted_split h h' sent dequeued acks acks' (acked lost : Packet -> Prop)
    `{!forall p, Decision (acked p), !forall p, Decision (lost p)} :
  accounted h sent dequeued acks -> acks ⊆ acks' ->
  (forall p, acked p -> Exists (fun ack => AcksPacket ack (p_PacketNumber p) = true) acks') ->
  packetHistory h' = filter (fun p => ~ lost p) (filter (fun p => ~ acked p) (packetHistory h)) ->
  retransmissionQueue h' =
    retransmissionQueue h ++ filter lost (filter (fun p => ~ acked p) (packetHistory h)) ->
  accounted h' sent dequeued acks'.
Proof.
  intros (old & Hperm & Hold) Hsub Hacked Eh Eq. exists (old ++ filter acked (packetHistory h)). split.
  - rewrite Hperm, Eh, Eq.
    pose proof (Permutation_filter_split acked (packetHistory h)) as H1.
    pose proof (Permutation_filter_split lost (filter (fun p => ~ acked p) (packetHistory h))) as H2.
    set (L := filter lost _) in *. set (A := filter acked _) in *. set (R := filter (fun p => ~ lost p) _) in *.
    rewrite H1, H2. apply Permutation_regroup.
  - apply Forall_app. split.
    + eapply Forall_impl; [exact Hold|]. simpl. intros p Hp. rewrite Exists_exists in *.
      destruct Hp as (a & Ha & ?). exists a. auto.
    + apply Forall_forall. intros p Hp. apply Hacked.
      by apply list_elem_of_filter in Hp as [? _].
Qed.

Lemma queued_next swm ps m :
  0 <= nextLeastUnacked swm <= m + 1 -> m < 2 ^ 63 -> Forall (fun p => 0 <= p <= m) ps ->
  0 <= nextLeastUnacked (fold_left QueuedRetransmissionForPacketNumber ps swm) <= m + 1.
Proof.
  intros Hn Hm Hps. revert swm Hn. induction Hps as [|p ps Hp Hps IH]; intros swm Hn; [done|].
  cbn [fold_left]. apply IH. unfold QueuedRetransmissionForPacketNumber. case_if; [|done]. cbn.
  rewrite u64_small by (unfold_width; lia). lia.
Qed.

Lemma filter_split_len (P : Packet -> Prop) `{!forall p, Decision (P p)} l :
  len (filter P l) + len (filter (fun p => ~ P p) l) = len l.
Proof.
  pose proof (Permutation_length (Permutation_filter_split P l)) as E. rewrite length_app in E.
  unfold len. lia.
Qed.

(** A step that removes packets from the history keeps the invariant. *)
Lemma sph_ok_remove h h' sent dequeued acks acks' (acked lost : Packet -> Prop)
    `{!forall p, Decision (acked p), !forall p, Decision (lost p)} :
  sph_ok h sent dequeued acks -> acks ⊆ acks' ->
  (forall p, acked p -> Exists (fun ack => AcksPacket ack (p_PacketNumber p) = true) acks') ->
  history_ok h' ->
  packetHistory h' = filter (fun p => ~ lost p) (filter (fun p => ~ acked p) (packetHistory h)) ->
  retransmissionQueue h' =
    retransmissionQueue h ++ filter lost (filter (fun p => ~ acked p) (packetHistory h)) ->
  lastSentPacketNumber h' = lastSentPacketNumber h ->
  skippedPackets h' ⊆ skippedPackets h -> len (skippedPackets h') <= len (skippedPackets h) ->
  0 <= sph_LargestAcked h' <= lastSentPacketNumber h ->
  0 <= nextLeastUnacked (sph_stopWaitingManager h') <= lastSentPacketNumber h + 1 ->
  sph_ok h' sent dequeued acks'.
Proof.
  intros [_ Hacc Hsort Hsent Htr Hsk Hns Hlast _ _] Hsub Hacked Hh Eh Eq El Esk Hlen Hla Hsw.
  constructor; rewrite ?El; try (done || lia).
  - by eapply accounted_split.
  - rewrite Eh, Eq, len_app.
    pose proof (filter_split_len lost (filter (fun p => ~ acked p) (packetHistory h))).
    pose proof (filter_split_len acked (packetHistory h)).
    pose proof (len_nonneg (filter acked (packetHistory h))). lia.
  - rewrite Forall_forall in *. intros x Hx. apply Hsk. by apply Esk.
Qed.

Lemma ReceivedAck_ok h sent dequeued acks ack withPN rcvTime t1 t2 t3 t4 h' r :
  sph_ok h sent dequeued acks -> AckFrame_accepted ack ->
  ReceivedAck h ack withPN rcvTime t1 t2 t3 t4 = (h', r) ->
  sph_ok h' sent dequeued (ack :: acks).
Proof.
  intros Hok Hack E.
  pose proof (ReceivedAck_outcome h ack withPN rcvTime t1 t2 t3 t4 ltac:(by destruct Hok) Hack) as Ho.
  rewrite E in Ho. clear E.
  assert (Hsame : forall la wpn, 0 <= la <= lastSentPacketNumber h ->
    sph_ok (with_acked h la wpn) sent dequeued (ack :: acks)).
  { intros la wpn Hla. destruct Hok as [Hh Hacc ? ? ? ? ? ? ? ?].
    constructor; try done; [by destruct Hh|]. destruct Hacc as (A & Hp & HA).
    exists A. split; [done|]. eapply Forall_impl; [exact HA|]. simpl. intros p Hp'. by right. }
  assert (Hid : sph_ok h sent dequeued (ack :: acks)).
  { specialize (Hsame (sph_LargestAcked h) (largestReceivedPacketWithAck h)).
    destruct h. apply Hsame. by destruct Hok. }
  pose proof (sok_largest _ _ _ _ Hok) as Hlarge. destruct Hack as (Hla & _).
  destruct r as [[]|e|]; [|destruct Ho as [(_ & _ & ->)|[(_ & _ & ->)|(Hle & _ & _ & ->)]]|done];
    try done.
  2: { apply Hsame. lia. }
  destruct Ho as (Hle & _ & [(_ & ->)|(_ & Hp)]); [by apply Hsame|].
  destruct Hp as [Hh Eh Eq Ela El (Esk & Hns & _) _ Esw].
  apply (sph_ok_remove h h' _ _ acks (ack :: acks) (fun p => AcksPacket ack (p_PacketNumber p) = true)
    (isLost (LargestAcked ack) t3 (delayUntilLost h'))); try done;
    [intros a Ha; by right|intros p Hp; by left|rewrite Ela; lia|].
  rewrite Esw. pose proof (sok_last _ _ _ _ Hok).
  set (lost := filter _ (filter _ _)).
  assert (lost ⊆ packetHistory h) as Hlost.
  { intros p [_ Hp]%list_elem_of_filter. by apply list_elem_of_filter in Hp as [_ Hp]. }
  pose proof (queued_next (sph_stopWaitingManager h) (numbers lost) (lastSentPacketNumber h)
    (sok_stopWaiting _ _ _ _ Hok) ltac:(lia)) as Hq.
  unfold swm_ReceivedAck. case_if; cbn.
  - rewrite u64_small by (unfold_width; lia). lia.
  - apply Hq. apply Forall_forall. intros x Hx. apply list_elem_of_fmap in Hx as (p & -> & Hp).
    pose proof (sok_sent _ _ _ _ Hok) as Hsent. rewrite Forall_forall in Hsent.
    specialize (Hsent p). destruct Hsent as [? _]; [|lia].
    eapply history_sent; [by destruct Hok|]. apply elem_of_app. left. by apply Hlost.
Qed.

Lemma queueRTO_spec h p history :
  history_ok h -> packetHistory h = p :: history ->
  let h' := queueRTO h p in
  history_ok h' /\ untouched h h' /\ packetHistory h' = history /\
  retransmissionQueue h' = retransmissionQueue h ++ [p] /\
  sph_stopWaitingManager h' =
    QueuedRetransmissionForPacketNumber (sph_stopWaitingManager h) (p_PacketNumber p).
Proof.
  intros Hok E h'. assert (packetHistory h' = history) as Eh.
  { cbn. rewrite E. cbn. by rewrite Z.eqb_refl. }
  split_and!; try done.
  eapply (history_ok_remove h h' p); [done|rewrite E; left| |reflexivity|done|done].
  apply OnRetransmissionTimeout_ok, OnPacketLost_ok. by destruct Hok.
Qed.

(** At most one packet moves from the front of the history to the queue. *)
Lemma retransmitOldest_ok h sent dequeued acks :
  sph_ok h sent dequeued acks -> sph_ok (retransmitOldest h) sent dequeued acks.
Proof.
  intros Hok. unfold retransmitOldest. destruct (packetHistory h) as [|p history] eqn:E; [done|].
  destruct (queueRTO_spec h p history ltac:(by destruct Hok) E) as (Hh & Hun & Eh & Eq & Es).
  assert (StronglySorted before (p :: history)) as Hs
    by (rewrite <- E; by destruct Hok as [[]]).
  apply StronglySorted_inv in Hs as [_ Hp].
  assert (filter (fun _ => ~ False) (packetHistory h) = p :: history) as Ef
    by (rewrite filter_all; [done|tauto]).
  apply (sph_ok_remove h _ _ _ acks acks (fun _ => False)
    (fun q => p_PacketNumber q = p_PacketNumber p)); rewrite ?Ef; try done.
  - rewrite Eh, filter_cons_False by tauto. symmetry. apply filter_all.
    intros q Hq. rewrite Forall_forall in Hp. specialize (Hp q Hq). unfold before in Hp. lia.
  - rewrite Eq, filter_cons_True by done. do 2 f_equal. symmetry. apply filter_none.
    intros q Hq. rewrite Forall_forall in Hp. specialize (Hp q Hq). unfold before in Hp. lia.
  - destruct Hun as [_ _ -> _ _]. by destruct Hok.
  - rewrite Es. destruct Hok as [_ Hacc _ Hsent _ _ _ Hlast _ Hsw].
    apply (queued_next _ [p_PacketNumber p]); [done|lia|]. apply Forall_singleton.
    rewrite Forall_forall in Hsent. destruct (Hsent p) as [? _]; [|lia].
    eapply history_sent; [done|]. rewrite E. left.
Qed.

Lemma detectLostPackets_ok h sent dequeued acks now :
  sph_ok h sent dequeued acks -> sph_ok (detectLostPackets h now) sent dequeued acks.
Proof.
  intros Hok.
  destruct (detectLostPackets_spec h now ltac:(by destruct Hok)) as (Hh & Hun & Eh & Eq & Es).
  assert (filter (fun _ => ~ False) (packetHistory h) = packetHistory h) as Ef
    by (rewrite filter_all; [done|tauto]).
  apply (sph_ok_remove h _ _ _ acks acks (fun _ => False)
    (isLost (sph_LargestAcked h) now (delayUntilLost h))); rewrite ?Ef; try done.
  - by destruct Hun.
  - destruct Hun as [_ -> _ _ _]. done.
  - destruct Hun as [_ -> _ _ _]. lia.
  - destruct Hun as [_ _ -> _ _]. by destruct Hok.
  - rewrite Es. destruct Hok as [_ Hacc _ Hsent _ _ _ Hlast _ Hsw].
    apply queued_next; [done|lia|]. apply Forall_forall. intros x Hx.
    apply list_elem_of_fmap in Hx as (p & -> & Hp). apply list_elem_of_filter in Hp as [_ Hp].
    rewrite Forall_forall in Hsent. destruct (Hsent p) as [? _]; [|lia].
    eapply history_sent; [done|]. apply elem_of_app. by left.
Qed.

(** Timers and counters are no part of the invariant. *)
Lemma sph_ok_timers h sent dequeued acks loss al :
  sph_ok h sent dequeued acks -> sph_ok (with_timers h loss al) sent dequeued acks.
Proof. intros [Hh ? ? ? ? ? ? ? ? ?]. constructor; try done. by destruct Hh. Qed.

Lemma sph_ok_rto h sent dequeued acks n :
  sph_ok h sent dequeued acks ->
  sph_ok (with_packets h (packetHistory h) (sph_stopWaitingManager h) (retransmissionQueue h)
    (bytesInFlight h) (congestion h) n) sent dequeued acks.
Proof. intros [Hh ? ? ? ? ? ? ? ? ?]. constructor; try done. by destruct Hh. Qed.

Lemma OnAlarm_ok h sent dequeued acks now alarmNow :
  sph_ok h sent dequeued acks -> sph_ok (OnAlarm h now alarmNow) sent dequeued acks.
Proof.
  intros Hok. unfold OnAlarm. set (h1 := if negb _ then _ else _).
  assert (sph_ok h1 sent dequeued acks) as Hok1.
  { subst h1. case_if; [by apply detectLostPackets_ok|].
    apply sph_ok_rto. by do 2 apply retransmitOldest_ok. }
  destruct (updateLossDetectionAlarm_spec h1 alarmNow) as [al ->]. by apply sph_ok_timers.
Qed.

Lemma Dequeue_ok h sent dequeued acks h' p :
  sph_ok h sent dequeued acks -> DequeuePacketForRetransmission h = (h', Some p) ->
  sph_ok h' sent (p :: dequeued) acks.
Proof.
  intros Hok. unfold DequeuePacketForRetransmission.
  destruct (last (retransmissionQueue h)) as [q|] eqn:E; [|done]. intros [= <- <-].
  apply last_Some in E as [queue E]. rewrite E, length_app. cbn [length].
  replace (length queue + 1 - 1)%nat with (length queue) by lia. rewrite take_app_length.
  destruct Hok as [Hh (A & Hp & HA) ? ? Htr ? ? ? ? ?]. rewrite E in *.
  constructor; try done; [by destruct Hh| |].
  - exists A. split; [|done]. cbn. rewrite Hp. by rewrite <- !app_assoc.
  - cbn. rewrite len_app in Htr. change (len [q]) with 1 in Htr. lia.
Qed.

Lemma GetStopWaitingFrame_ok h sent dequeued acks force h' swf :
  sph_ok h sent dequeued acks -> GetStopWaitingFrame h force = (h', swf) ->
  sph_ok h' sent dequeued acks.
Proof.
  intros Hok. unfold GetStopWaitingFrame, swm_GetStopWaitingFrame.
  destruct Hok as [Hh ? ? ? ? ? ? ? ? ?].
  repeat case_if; intros [= <- <-]; (constructor; try done; by destruct Hh).
Qed.

Lemma SPH_reach_ok h sent dequeued acks :
  SPH_reach h sent dequeued acks -> sph_ok h sent dequeued acks.
Proof.
  induction 1 as [r c Hc|h sent dq acks p now al h' r Hr IH Hpn Hl E
    |h sent dq acks ack wpn rcv t1 t2 t3 t4 h' r Hr IH Hack E|h sent dq acks now al Hr IH
    |h sent dq acks h' p Hr IH E|h sent dq acks f h' swf Hr IH E].
  - constructor; cbn; try (done || lia); [constructor; cbn; try done; constructor|by exists []|constructor].
  - by eapply SentPacket_ok.
  - by eapply ReceivedAck_ok.
  - by apply OnAlarm_ok.
  - by eapply Dequeue_ok.
  - by eapply GetStopWaitingFrame_ok.
Qed.

(** ** STOP_WAITING frames *)

(** Packet numbers are not skipped: every packet number that was used is in the history or
    below the next STOP_WAITING.  A forced STOP_WAITING frame is the last one again, which is
    still the right one. *)
Record sw_ok (h : sentPacketHandler) : Prop := {
  sw_covers n : 0 < n <= lastSentPacketNumber h ->
    n ∈ numbers (packetHistory h) \/ n < nextLeastUnacked (sph_stopWaitingManager h);
  sw_largest : 0 <= largestLeastUnackedSent (sph_stopWaitingManager h)
    <= nextLeastUnacked (sph_stopWaitingManager h);
  sw_frame : match lastStopWaitingFrame (sph_stopWaitingManager h) with
    | Some f => swf_LeastUnacked f = largestLeastUnackedSent (sph_stopWaitingManager h) /\ 0 < swf_LeastUnacked f
    | None => largestLeastUnackedSent (sph_stopWaitingManager h) = 0
    end;
}.

Lemma sw_ok_new r c : sw_ok (NewSentPacketHandler r c).
Proof. constructor; cbn; try done. intros n Hn. lia. Qed.

(** A step that removes packets from the history *)
Lemma sw_ok_remove h h' :
  sw_ok h -> lastSentPacketNumber h' = lastSentPacketNumber h ->
  largestLeastUnackedSent (sph_stopWaitingManager h') = largestLeastUnackedSent (sph_stopWaitingManager h) ->
  lastStopWaitingFrame (sph_stopWaitingManager h') = lastStopWaitingFrame (sph_stopWaitingManager h) ->
  nextLeastUnacked (sph_stopWaitingManager h) <= nextLeastUnacked (sph_stopWaitingManager h') ->
  (forall p, p ∈ packetHistory h ->
     p ∈ packetHistory h' \/ p_PacketNumber p < nextLeastUnacked (sph_stopWaitingManager h')) ->
  sw_ok h'.
Proof.
  intros [Hc Hl Hf] E1 E2 E3 Hn Hp. constructor; rewrite ?E2, ?E3; [|lia|done].
  rewrite E1. intros n [Hin|Hlt]%Hc; [|right; lia].
  apply list_elem_of_fmap in Hin as (p & -> & Hin). destruct (Hp p Hin) as [Hin'|]; [left|by right].
  by apply list_elem_of_fmap_2.
Qed.

Lemma queued_covers swm ps m :
  m < 2 ^ 63 -> Forall (fun p => 0 <= p <= m) ps ->
  let swm' := fold_left QueuedRetransmissionForPacketNumber ps swm in
  largestLeastUnackedSent swm' = largestLeastUnackedSent swm /\
  lastStopWaitingFrame swm' = lastStopWaitingFrame swm /\
  nextLeastUnacked swm <= nextLeastUnacked swm' /\
  forall p, p ∈ ps -> p < nextLeastUnacked swm'.
Proof.
  intros Hm Hps. cbv zeta. revert swm. induction Hps as [|p ps Hp Hps IH]; intros swm.
  { split_and!; [done|done|cbn; lia|]. by intros p ?%elem_of_nil. }
  cbn [fold_left]. destruct (IH (QueuedRetransmissionForPacketNumber swm p)) as (E1 & E2 & E3 & E4).
  rewrite E1, E2. unfold QueuedRetransmissionForPacketNumber in *.
  rewrite u64_small in * by (unfold_width; lia). case_if; cbn in *.
  - split_and!; [done|done|lia|]. intros q [-> | Hq]%elem_of_cons; [lia|by apply E4].
  - split_and!; [done|done|lia|]. intros q [-> | Hq]%elem_of_cons; [lia|by apply E4].
Qed.

Lemma history_numbers h sent dequeued acks ps :
  sph_ok h sent dequeued acks -> ps ⊆ packetHistory h ->
  Forall (fun n => 0 <= n <= lastSentPacketNumber h) (numbers ps).
Proof.
  intros Hok Hps. apply Forall_forall. intros n Hn. apply list_elem_of_fmap in Hn as (p & -> & Hp).
  pose proof (sok_sent _ _ _ _ Hok) as Hs. rewrite Forall_forall in Hs. destruct (Hs p) as [? _]; [|lia].
  eapply history_sent; [apply (sok_accounted _ _ _ _ Hok)|]. apply elem_of_app. left. by apply Hps.
Qed.

Lemma sw_ok_sent h packet now alarmNow h' :
  sw_ok h -> p_PacketNumber packet = lastSentPacketNumber h + 1 ->
  SentPacket h packet now alarmNow = (h', Ok tt) -> sw_ok h' /\
  lastSentPacketNumber h' = p_PacketNumber packet.
Proof.
  intros [Hc Hl Hf] Epn. unfold SentPacket. do 2 (case_if; [done|]). case_if; [done|].
  destruct (OnPacketSent _ _ _ _ _ _) as [c b].
  match goal with |- context [updateLossDetectionAlarm ?x alarmNow] =>
    destruct (updateLossDetectionAlarm_spec x alarmNow) as [al ->] end.
  intros [= <-]. split; [|done]. constructor; cbn; [|done|done]. intros n Hn. unfold numbers. rewrite map_app.
  destruct (decide (n = p_PacketNumber packet)) as [-> | Hne].
  - left. apply elem_of_app. right. by left.
  - destruct (Hc n) as [Hin|]; [lia| |by right]. left. apply elem_of_app. by left.
Qed.

Lemma sw_ok_lost h h' sent dequeued acks (lost : Packet -> Prop) `{!forall p, Decision (lost p)} :
  sph_ok h sent dequeued acks -> sw_ok h -> lastSentPacketNumber h' = lastSentPacketNumber h ->
  packetHistory h' = filter (fun p => ~ lost p) (packetHistory h) ->
  sph_stopWaitingManager h' =
    fold_left QueuedRetransmissionForPacketNumber (numbers (filter lost (packetHistory h)))
      (sph_stopWaitingManager h) -> sw_ok h'.
Proof.
  intros Hok Hsw El Eh Es. pose proof (sok_last _ _ _ _ Hok).
  assert (filter lost (packetHistory h) ⊆ packetHistory h) as Hsub
    by (intros p Hp; by apply list_elem_of_filter in Hp as [_ ?]).
  destruct (queued_covers (sph_stopWaitingManager h) _ (lastSentPacketNumber h) ltac:(lia)
    (history_numbers _ _ _ _ _ Hok Hsub)) as (E1 & E2 & E3 & E4).
  apply (sw_ok_remove h h'); rewrite ?Es; try done. intros p Hp. rewrite Eh.
  destruct (decide (lost p)); [right; apply E4, list_elem_of_fmap_2; by apply list_elem_of_filter|].
  left. by apply list_elem_of_filter.
Qed.

Lemma ReceivedAck_sw h sent dequeued acks ack withPN rcvTime t1 t2 t3 t4 h' r :
  sph_ok h sent dequeued acks -> sw_ok h -> AckFrame_accepted ack ->
  ReceivedAck h ack withPN rcvTime t1 t2 t3 t4 = (h', r) -> sw_ok h'.
Proof.
  intros Hok Hsw Hack E.
  pose proof (ReceivedAck_outcome h ack withPN rcvTime t1 t2 t3 t4 ltac:(by destruct Hok) Hack) as Ho.
  rewrite E in Ho. clear E.
  assert (Hsame : forall la wpn, sw_ok (with_acked h la wpn)) by (destruct Hsw; by constructor).
  destruct r as [[]|e|]; [|destruct Ho as [(_ & _ & ->)|[(_ & _ & ->)|(_ & _ & _ & ->)]]|done]; try done.
  destruct Ho as (Hle & _ & [(_ & ->)|(_ & Hp)]); [done|]. pose proof (sok_last _ _ _ _ Hok).
  destruct Hp as [_ Eh _ _ El _ _ Esw]. set (notAcked := filter _ (packetHistory h)) in *.
  assert (filter (isLost (LargestAcked ack) t3 (delayUntilLost h')) notAcked ⊆ packetHistory h) as Hsub.
  { intros p [_ Hp]%list_elem_of_filter. by apply list_elem_of_filter in Hp as [_ Hp]. }
  destruct (queued_covers (sph_stopWaitingManager h) _ (lastSentPacketNumber h) ltac:(lia)
    (history_numbers _ _ _ _ _ Hok Hsub)) as (E1 & E2 & E3 & E4).
  set (swm1 := fold_left _ _ _) in *.
  assert (largestLeastUnackedSent (swm_ReceivedAck swm1 ack) = largestLeastUnackedSent swm1 /\
    lastStopWaitingFrame (swm_ReceivedAck swm1 ack) = lastStopWaitingFrame swm1 /\
    nextLeastUnacked swm1 <= nextLeastUnacked (swm_ReceivedAck swm1 ack) /\
    LargestAcked ack < nextLeastUnacked (swm_ReceivedAck swm1 ack)) as (F1 & F2 & F3 & F4).
  { destruct Hack as (? & ? & _). unfold swm_ReceivedAck. rewrite u64_small by (unfold_width; lia).
    case_if; cbn; (split_and!; (done || lia)). }
  apply (sw_ok_remove h h'); rewrite ?Esw, ?F1, ?F2; try (done || lia).
  intros p Hp. rewrite Eh. destruct (AcksPacket ack (p_PacketNumber p)) eqn:Ea.
  { right. unfold AcksPacket in Ea. destruct (_ || _) eqn:Eo; [done|]. apply orb_false_iff in Eo as [_ Eo]. lia. }
  assert (p ∈ notAcked) as Hn by (apply list_elem_of_filter; by rewrite Ea).
  destruct (decide (isLost (LargestAcked ack) t3 (delayUntilLost h') p)).
  - right. assert (p_PacketNumber p < nextLeastUnacked swm1); [|lia].
    apply E4, list_elem_of_fmap_2. by apply list_elem_of_filter.
  - left. by apply list_elem_of_filter.
Qed.

Lemma retransmitOldest_sw h sent dequeued acks :
  sph_ok h sent dequeued acks -> sw_ok h -> sw_ok (retransmitOldest h).
Proof.
  intros Hok Hsw. unfold retransmitOldest. destruct (packetHistory h) as [|p history] eqn:E; [done|].
  destruct (queueRTO_spec h p history ltac:(by destruct Hok) E) as (_ & Hun & Eh & _ & Es).
  pose proof (sok_last _ _ _ _ Hok).
  destruct (queued_covers (sph_stopWaitingManager h) (numbers [p]) (lastSentPacketNumber h) ltac:(lia)) as (E1 & E2 & E3 & E4).
  { apply (history_numbers _ _ _ _ _ Hok). rewrite E. set_solver. }
  cbn [fold_left numbers map] in *. apply (sw_ok_remove h); rewrite ?Es; try done.
  rewrite E, Eh. intros q [-> | Hq]%elem_of_cons; [right; apply E4; by left|by left].
Qed.

Lemma OnAlarm_sw h sent dequeued acks now alarmNow :
  sph_ok h sent dequeued acks -> sw_ok h -> sw_ok (OnAlarm h now alarmNow).
Proof.
  intros Hok Hsw. unfold OnAlarm. set (h1 := if negb _ then _ else _).
  assert (sw_ok h1) as Hsw1.
  { subst h1. case_if.
    - destruct (detectLostPackets_spec h now ltac:(by destruct Hok)) as (_ & Hun & Eh & _ & Es).
      eapply sw_ok_lost; [done|done|by destruct Hun|exact Eh|exact Es].
    - assert (sw_ok (retransmitOldestTwoPackets h)) as H2; [|destruct H2; by constructor].
      eapply retransmitOldest_sw; [by eapply retransmitOldest_ok|]. by eapply retransmitOldest_sw. }
  destruct (updateLossDetectionAlarm_spec h1 alarmNow) as [al ->]. destruct Hsw1. by constructor.
Qed.

Lemma Dequeue_sw h : sw_ok h -> sw_ok (DequeuePacketForRetransmission h).1.
Proof. intros []. unfold DequeuePacketForRetransmission. destruct (last _); by constructor. Qed.

(** The frame of the manager is for the next least unacked packet number; it exists as soon as
    a packet has been acked or queued. *)
Lemma GetStopWaitingFrame_sw h force :
  sw_ok h -> let '(h', swf) := GetStopWaitingFrame h force in
  sw_ok h' /\ packetHistory h' = packetHistory h /\ lastSentPacketNumber h' = lastSentPacketNumber h /\
  nextLeastUnacked (sph_stopWaitingManager h') = nextLeastUnacked (sph_stopWaitingManager h) /\
  (forall f, swf = Some f ->
     swf_LeastUnacked f = nextLeastUnacked (sph_stopWaitingManager h) /\ 0 < swf_LeastUnacked f) /\
  (force = true -> 0 < nextLeastUnacked (sph_stopWaitingManager h) -> swf <> None).
Proof.
  intros [Hc Hl Hf]. unfold GetStopWaitingFrame, swm_GetStopWaitingFrame. case_if; [|].
  - destruct force; (split_and!; [constructor; cbn; done|done|done|done| |]); try done.
    + intros f E. rewrite E in Hf. cbn in *. lia.
    + intros _ Hpos E. rewrite E in Hf. lia.
  - split_and!; try done; [constructor; cbn; try done; lia|]. intros f [= <-]. cbn. lia.
Qed.

Lemma GetLeastUnacked_range h sent dequeued acks :
  sph_ok h sent dequeued acks -> 0 < GetLeastUnacked h <= lastSentPacketNumber h + 1.
Proof.
  intros Hok. pose proof (sok_last _ _ _ _ Hok). pose proof (sok_largest _ _ _ _ Hok).
  pose proof (sok_sent _ _ _ _ Hok) as Hsent. unfold GetLeastUnacked, largestInOrderAcked.
  destruct (packetHistory h) as [|p history] eqn:E; [rewrite u64_small by (unfold_width; lia); lia|].
  assert (0 < p_PacketNumber p <= lastSentPacketNumber h) as Hp.
  { rewrite Forall_forall in Hsent. apply Hsent. eapply history_sent; [apply Hok|]. rewrite E. by left. }
  rewrite (u64_small (p_PacketNumber p - 1)), u64_small by (unfold_width; lia). lia.
Qed.

(** The packer's STOP_WAITING frames fit the length of the packet number. *)
Lemma sw_leastUnacked h sent dequeued acks :
  sph_ok h sent dequeued acks -> sw_ok h -> 0 < nextLeastUnacked (sph_stopWaitingManager h) ->
  0 < GetLeastUnacked h <= lastSentPacketNumber h + 1 /\
  GetLeastUnacked h <= nextLeastUnacked (sph_stopWaitingManager h) <= lastSentPacketNumber h + 1.
Proof.
  intros Hok [Hc _ _] Hpos. pose proof (sok_last _ _ _ _ Hok). pose proof (sok_largest _ _ _ _ Hok).
  pose proof (sok_stopWaiting _ _ _ _ Hok). unfold GetLeastUnacked, largestInOrderAcked.
  pose proof (hist_sorted _ (sok_history _ _ _ _ Hok)) as Hs.
  pose proof (history_numbers _ _ _ _ (packetHistory h) Hok ltac:(done)) as Hnum.
  pose proof (sok_sent _ _ _ _ Hok) as Hsent. pose proof (sok_accounted _ _ _ _ Hok) as Hacc.
  destruct (packetHistory h) as [|p history] eqn:E.
  - rewrite u64_small by (unfold_width; lia). split; [lia|]. split; [|lia].
    destruct (decide (lastSentPacketNumber h = 0)); [lia|].
    destruct (Hc (lastSentPacketNumber h)) as [Hin|]; [lia| |lia]. by apply elem_of_nil in Hin.
  - assert (0 < p_PacketNumber p <= lastSentPacketNumber h) as Hp.
    { rewrite Forall_forall in Hsent. apply Hsent. eapply history_sent; [done|]. rewrite E. by left. }
    rewrite (u64_small (p_PacketNumber p - 1)), u64_small by (unfold_width; lia). split; [lia|].
    split; [|lia]. destruct (decide (p_PacketNumber p = 1)); [lia|].
    destruct (Hc (p_PacketNumber p - 1)) as [Hin|]; [lia| |lia]. exfalso.
    apply list_elem_of_fmap in Hin as (q & Eq & [-> | Hq]%elem_of_cons); [lia|].
    apply StronglySorted_inv in Hs as [_ Hs]. rewrite Forall_forall in Hs. apply Hs in Hq. unfold before in Hq. lia.
Qed.

(** C3: no packet is ever forgotten: in every reachable state, each packet that
    was sent is still tracked as outstanding, waits for retransmission, was handed
    out for retransmission, or was acknowledged by an ACK frame of the peer, and is
    only one of these; the bytes in flight are exactly the bytes of the outstanding
    packets, which are in strictly increasing order, and the number of tracked
    packets stays within its limit. *)
Theorem sent_packets_conserved h sent dequeued acks :
  SPH_reach h sent dequeued acks ->
  NoDup (numbers sent) /\
  (exists acked,
    sent ≡ₚ packetHistory h ++ retransmissionQueue h ++ dequeued ++ acked /\
    Forall (fun p => Exists (fun ack => AcksPacket ack (p_PacketNumber p) = true) acks) acked) /\
  StronglySorted before (packetHistory h) /\ bytesInFlight h = total (packetHistory h) /\
  len (retransmissionQueue h) + len (packetHistory h) <= MaxTrackedSentPackets.
Proof.
  intros [Hh Hacc Hs _ Ht _ _ _ _ _]%SPH_reach_ok. destruct Hh.
  split_and!; try done. by apply before_NoDup.
Qed.

(** C34: the effect of an ACK frame from the network: an ACK for a packet that was not sent, a
    reordered ACK, or an ACK for a packet number that was skipped on purpose is an error that
    leaves the packets alone; a repeated ACK, whose [LargestAcked] is not higher than the one of
    the last ACK, changes nothing; any other removes exactly the packets it acknowledges and
    moves exactly those that are now overdue to the retransmission queue.  The consistency check
    inside never fails, and nothing panics.  Left out are the ACKs for which the test of the
    code, with the largest packet acknowledged in order, differs from a comparison with the last
    [LargestAcked]; for those see [largest_acked_can_decrease] and [higher_ack_ignored]. *)
Theorem received_ack_outcome h sent dequeued acks ack withPN rcvTime rttNow ackNow lossNow alarmNow :
  SPH_reach h sent dequeued acks -> AckFrame_accepted ack ->
  (LargestAcked ack <= largestInOrderAcked h <-> LargestAcked ack <= sph_LargestAcked h) ->
  let '(h', r) := ReceivedAck h ack withPN rcvTime rttNow ackNow lossNow alarmNow in
  match r with
  | Panic => False
  | Err e =>
      (lastSentPacketNumber h < LargestAcked ack /\ e = errAckForUnsentPacket /\ h' = h) \/
      (withPN <= largestReceivedPacketWithAck h /\ e = ErrDuplicateOrOutOfOrderAck /\ h' = h) \/
      (LargestAcked ack <= lastSentPacketNumber h /\
       Exists (fun s => AcksPacket ack s = true) (skippedPackets h) /\ e = ErrAckForSkippedPacket /\
       h' = with_acked h (LargestAcked ack) withPN)
  | Ok _ =>
      LargestAcked ack <= lastSentPacketNumber h /\ largestReceivedPacketWithAck h < withPN /\
      ((LargestAcked ack <= sph_LargestAcked h /\ h' = with_acked h (sph_LargestAcked h) withPN) \/
       (sph_LargestAcked h < LargestAcked ack /\ ack_processed h h' ack rcvTime rttNow lossNow))
  end.
Proof.
  intros Hr Hack Hiff.
  pose proof (ReceivedAck_outcome h ack withPN rcvTime rttNow ackNow lossNow alarmNow
    (sok_history _ _ _ _ (SPH_reach_ok _ _ _ _ Hr)) Hack) as Ho.
  destruct (ReceivedAck _ _ _ _ _ _ _ _) as [h' [[]|err|]]; [|exact Ho..].
  destruct Ho as (H1 & H2 & [[H3 H4]|[H3 H4]]); (split; [exact H1|]; split; [exact H2|]).
  - left. split; [by apply Hiff|exact H4].
  - right. split; [|exact H4]. apply Z.nle_gt. intros H%Hiff. lia.
Qed.

(** An ACK whose [LargestAcked] is higher than that of the last ACK is ignored when it is below
    the oldest outstanding packet; then it acknowledges no outstanding packet. *)
Lemma higher_ack_ignored h ack withPN rcvTime rttNow ackNow lossNow alarmNow :
  LargestAcked ack <= lastSentPacketNumber h -> largestReceivedPacketWithAck h < withPN ->
  sph_LargestAcked h < LargestAcked ack <= largestInOrderAcked h ->
  ReceivedAck h ack withPN rcvTime rttNow ackNow lossNow alarmNow = (with_acked h (sph_LargestAcked h) withPN, Ok tt).
Proof.
  intros H1 H2 H3. unfold ReceivedAck. change (largestInOrderAcked (with_acked _ _ _)) with (largestInOrderAcked h).
  repeat (case_if; [try lia; try done|]). lia.
Qed.

Lemma retransmitOldest_spec h :
  history_ok h ->
  let h' := retransmitOldest h in
  history_ok h' /\ untouched h h' /\ packetHistory h' = drop 1 (packetHistory h) /\
  retransmissionQueue h' = retransmissionQueue h ++ take 1 (packetHistory h) /\
  rtoCount h' = rtoCount h.
Proof.
  intros Hok. unfold retransmitOldest. destruct (packetHistory h) as [|p history] eqn:E.
  - rewrite E, app_nil_r. done.
  - destruct (queueRTO_spec h p history Hok E) as (? & ? & ? & ? & ?). done.
Qed.

(** When the alarm fires, either the packets that are overdue, or, when no
    loss timer is running, the two oldest outstanding packets are queued for
    retransmission, and all others stay outstanding; in the second case the
    backoff count goes up.  Afterwards the alarm is off when nothing is
    outstanding, and otherwise set to the loss time or to the retransmission
    timeout. *)
Theorem alarm_outcome h sent dequeued acks now alarmNow :
  SPH_reach h sent dequeued acks ->
  let h' := OnAlarm h now alarmNow in
  let lost := isLost (sph_LargestAcked h) now (delayUntilLost h) in
  (lossTime h <> 0 -> packetHistory h' = filter (fun p => ~ lost p) (packetHistory h) /\
     retransmissionQueue h' = retransmissionQueue h ++ filter lost (packetHistory h)) /\
  (lossTime h = 0 -> packetHistory h' = drop 2 (packetHistory h) /\
     retransmissionQueue h' = retransmissionQueue h ++ take 2 (packetHistory h) /\
     rtoCount h' = u32 (rtoCount h + 1)) /\
  (packetHistory h' = [] -> GetAlarmTimeout h' = 0) /\
  (packetHistory h' <> [] -> GetAlarmTimeout h' =
     (if lossTime h' =? 0 then alarmNow + computeRTOTimeout h' else lossTime h')).
Proof.
  intros Hr. pose proof (sok_history _ _ _ _ (SPH_reach_ok _ _ _ _ Hr)) as Hok.
  cbv zeta. unfold OnAlarm. set (h1 := if negb _ then _ else _).
  pose proof (updateLossDetectionAlarm_spec h1 alarmNow) as [al Eal].
  split; [|split; [|split]].
  - intros Hl. rewrite Eal. subst h1. rewrite (proj2 (Z.eqb_neq _ _)) by done. cbn [negb].
    destruct (detectLostPackets_spec h now Hok) as (_ & _ & Eh & Eq & _). done.
  - intros Hl. rewrite Eal. subst h1. rewrite (proj2 (Z.eqb_eq _ _)) by done. cbn [negb].
    unfold retransmitOldestTwoPackets.
    destruct (retransmitOldest_spec h Hok) as (Hok1 & _ & Eh1 & Eq1 & Er1).
    destruct (retransmitOldest_spec _ Hok1) as (_ & _ & Eh2 & Eq2 & Er2).
    cbn. rewrite Eh2, Eq2, Er2, Er1, Eq1, Eh1, drop_drop, <- app_assoc. split_and!; try done.
    f_equal. by destruct (packetHistory h) as [|? [|? ?]].
  - clear Eal. unfold updateLossDetectionAlarm.
    destruct (packetHistory h1) as [|p l] eqn:E; [done|]. repeat case_if; cbn; congruence.
  - clear Eal. unfold updateLossDetectionAlarm.
    destruct (packetHistory h1) as [|p l] eqn:E; [done|]. intros _.
    rewrite len_cons. pose proof (len_nonneg l). rewrite (proj2 (Z.eqb_neq _ 0)) by lia.
    destruct (Z.eqb_spec (lossTime h1) 0) as [E0|E0]; cbn;
      [by rewrite (proj2 (Z.eqb_eq _ _))|by rewrite (proj2 (Z.eqb_neq _ _))].
Qed.

(** The retransmission timeout is the smoothed RTT plus four times its
    deviation (500 ms before the first sample), at least 200 ms, doubled for each
    timeout in a row, and at most 60 s, as long as the doubling stays within 64
    bits: for an RTT below about nine minutes, for 24 timeouts. *)
Theorem rto_timeout_bounds h :
  SA_ok (congestion h) -> 0 <= SmoothedRTT (rttStats h) -> 0 <= MeanDeviation (rttStats h) ->
  SmoothedRTT (rttStats h) + 4 * MeanDeviation (rttStats h) < 2 ^ 39 -> 0 <= rtoCount h <= 24 ->
  let delay := RetransmissionDelay (congestion h) (rttStats h) in
  let base := if delay =? 0 then defaultRTOTimeout else Z.max delay minRTOTimeout in
  computeRTOTimeout h = Z.min (base * 2 ^ rtoCount h) maxRTOTimeout /\
  minRTOTimeout <= computeRTOTimeout h <= maxRTOTimeout.
Proof.
  intros Hc Hs Hd Hsum Hn delay base.
  pose proof (RetransmissionDelay_range (congestion h) (rttStats h) Hc Hs Hd ltac:(lia)) as Hdelay.
  fold delay in Hdelay.
  assert (minRTOTimeout <= base < 2 ^ 39) as Hb.
  { subst base. unfold minRTOTimeout, defaultRTOTimeout, Millisecond. case_if; lia. }
  assert (computeRTOTimeout h = Z.min (base * 2 ^ rtoCount h) maxRTOTimeout) as E.
  { unfold computeRTOTimeout. fold delay. rewrite MinDuration_min, MaxDuration_max.
    replace (Z.max (if delay =? 0 then defaultRTOTimeout else delay) minRTOTimeout) with base
      by (subst base; unfold minRTOTimeout, defaultRTOTimeout, Millisecond; case_if; lia).
    rewrite Z.shiftl_mul_pow2 by lia. f_equal. apply i64_small.
    pose proof (Z.pow_le_mono_r 2 (rtoCount h) 24 ltac:(lia) ltac:(lia)).
    pose proof (Z.pow_pos_nonneg 2 (rtoCount h) ltac:(lia) ltac:(lia)).
    unfold minRTOTimeout, Millisecond in *. nia. }
  split; [done|]. rewrite E. pose proof (Z.pow_pos_nonneg 2 (rtoCount h) ltac:(lia) ltac:(lia)).
  unfold minRTOTimeout, maxRTOTimeout, Millisecond, Second in *. nia.
Qed.

(** The backoff shifts a 64-bit duration without a limit on the count: from 64
    timeouts in a row on, the retransmission timeout is zero, although it is meant
    never to be below [minRTOTimeout]. *)
Theorem rto_backoff_overflows h :
  64 <= rtoCount h -> computeRTOTimeout h = 0 /\ computeRTOTimeout h < minRTOTimeout.
Proof.
  intros Hn. assert (computeRTOTimeout h = 0) as ->; [|done].
  unfold computeRTOTimeout. rewrite Z.shiftl_mul_pow2 by lia.
  replace (2 ^ rtoCount h) with (2 ^ (rtoCount h - 64) * 2 ^ 64)
    by (rewrite <- Z.pow_add_r by lia; f_equal; lia).
  set (x := MaxDuration _ _). clearbody x. unfold i64.
  rewrite Z.mul_assoc.
  replace (x * 2 ^ (rtoCount h - 64) * 2 ^ 64 + 2 ^ 63)
    with (2 ^ 63 + x * 2 ^ (rtoCount h - 64) * 2 ^ 64) by lia.
  rewrite Z_mod_plus_full. done.
Qed.

End theory.

(** ** Witnesses: a window that never closes *)

Definition openWindow : SendAlgorithm :=
  {| SA_state := unit;
     OnPacketSent c _ _ _ _ r := (c, r);
     GetCongestionWindow _ := 32 * DefaultTCPMSS;
     MaybeExitSlowStart c _ := c;
     OnPacketAcked c _ _ _ _ _ := c;
     OnPacketLost c _ _ _ := c;
     OnRetransmissionTimeout c _ := c;
     RetransmissionDelay _ rtt := SmoothedRTT rtt + 4 * MeanDeviation rtt |}.

Definition openWindowLaws : SendAlgorithmLaws openWindow.
Proof. refine {| SA_ok _ := True |}; try done. intros c rtt _ ? ? ?. simpl. lia. Defined.

Definition samplePacket (pn : Z) : Packet := mkPacket pn [FPing mkPingFrame] 100 2 0.
Definition sampleHandler0 : @sentPacketHandler openWindow :=
  @NewSentPacketHandler openWindow NewRTTStats tt.
Definition sampleHandler1 : @sentPacketHandler openWindow :=
  (SentPacket sampleHandler0 (samplePacket 1) 1000000 1000000).1.
Definition sampleHandler2 : @sentPacketHandler openWindow :=
  (SentPacket sampleHandler1 (samplePacket 2) 2000000 2000000).1.
Definition sampleHandler3 : @sentPacketHandler openWindow :=
  (SentPacket sampleHandler2 (samplePacket 4) 3000000 3000000).1.
Definition sampleSent : list Packet :=
  [mkPacket 1 [FPing mkPingFrame] 100 2 1000000; mkPacket 2 [FPing mkPingFrame] 100 2 2000000;
   mkPacket 4 [FPing mkPingFrame] 100 2 3000000].

Lemma sampleHandler3_reach : @SPH_reach openWindow openWindowLaws sampleHandler3 sampleSent [] [].
Proof.
  apply (@sph_sent openWindow openWindowLaws sampleHandler2 (take 2 sampleSent) [] []
           (samplePacket 4) 3000000 3000000 sampleHandler3 (Ok tt));
    [|cbn; lia|vm_compute; intuition discriminate|reflexivity].
  apply (@sph_sent openWindow openWindowLaws sampleHandler1 (take 1 sampleSent) [] []
           (samplePacket 2) 2000000 2000000 sampleHandler2 (Ok tt));
    [|cbn; lia|vm_compute; intuition discriminate|reflexivity].
  apply (@sph_sent openWindow openWindowLaws sampleHandler0 [] [] []
           (samplePacket 1) 1000000 1000000 sampleHandler1 (Ok tt));
    [|cbn; lia|vm_compute; intuition discriminate|reflexivity].
  by constructor.
Qed.

Definition ackOf (first last : Z) : AckFrame := mkAckFrame last first [] 0 0.

Lemma ackOf_accepted first last :
  0 <= first <= last -> last < 2 ^ 48 -> AckFrame_accepted (ackOf first last).
Proof. intros. unfold AckFrame_accepted, ackOf. cbn. lia. Qed.

Lemma sent_packets_conserved_witness :
  NoDup (numbers sampleSent) /\
  (exists acked,
    sampleSent ≡ₚ packetHistory sampleHandler3 ++ retransmissionQueue sampleHandler3 ++ [] ++ acked /\
    Forall (fun p => Exists (fun ack => AcksPacket ack (p_PacketNumber p) = true) []) acked) /\
  StronglySorted before (packetHistory sampleHandler3) /\
  bytesInFlight sampleHandler3 = total (packetHistory sampleHandler3) /\
  len (retransmissionQueue sampleHandler3) + len (packetHistory sampleHandler3)
    <= MaxTrackedSentPackets.
Proof.
  apply (@sent_packets_conserved openWindow openWindowLaws sampleHandler3 sampleSent [] []
    sampleHandler3_reach).
Defined.

Lemma received_ack_outcome_witness :
  LargestAcked (ackOf 4 4) <= lastSentPacketNumber sampleHandler3 /\
  largestReceivedPacketWithAck sampleHandler3 < 1 /\
  ((LargestAcked (ackOf 4 4) <= sph_LargestAcked sampleHandler3 /\
    (ReceivedAck sampleHandler3 (ackOf 4 4) 1 4000000 4000000 4000000 4000000 4000000).1 =
      with_acked sampleHandler3 (sph_LargestAcked sampleHandler3) 1) \/
   (sph_LargestAcked sampleHandler3 < LargestAcked (ackOf 4 4) /\
    @ack_processed openWindow openWindowLaws sampleHandler3
      (ReceivedAck sampleHandler3 (ackOf 4 4) 1 4000000 4000000 4000000 4000000 4000000).1
      (ackOf 4 4) 4000000 4000000 4000000)).
Proof.
  apply (@received_ack_outcome openWindow openWindowLaws sampleHandler3 sampleSent [] [] (ackOf 4 4)
    1 4000000 4000000 4000000 4000000 4000000 sampleHandler3_reach).
  - apply ackOf_accepted; lia.
  - reflexivity.
Defined.

Lemma alarm_outcome_witness :
  packetHistory (OnAlarm sampleHandler3 9000000000 9000000000) = drop 2 (packetHistory sampleHandler3) /\
  retransmissionQueue (OnAlarm sampleHandler3 9000000000 9000000000) =
    retransmissionQueue sampleHandler3 ++ take 2 (packetHistory sampleHandler3) /\
  rtoCount (OnAlarm sampleHandler3 9000000000 9000000000) = u32 (rtoCount sampleHandler3 + 1).
Proof.
  apply (@alarm_outcome openWindow openWindowLaws sampleHandler3 sampleSent [] [] 9000000000 9000000000
    sampleHandler3_reach). reflexivity.
Defined.

Lemma rto_timeout_bounds_witness :
  computeRTOTimeout sampleHandler3 = Z.min (defaultRTOTimeout * 2 ^ 0) maxRTOTimeout /\
  minRTOTimeout <= computeRTOTimeout sampleHandler3 <= maxRTOTimeout.
Proof.
  apply (@rto_timeout_bounds openWindow openWindowLaws sampleHandler3);
    [exact I|vm_compute; intuition discriminate..].
Defined.

Lemma rto_backoff_overflows_witness :
  let h := @with_packets openWindow sampleHandler3 [] (sph_stopWaitingManager sampleHandler3) [] 0 tt 64 in
  computeRTOTimeout h = 0 /\ computeRTOTimeout h < minRTOTimeout.
Proof.
  apply (@rto_backoff_overflows openWindow
    (@with_packets openWindow sampleHandler3 [] (sph_stopWaitingManager sampleHandler3) [] 0 tt 64)).
  cbn. lia.
Defined.

(** An ACK whose [LargestAcked] is not above that of the last ACK is not
    ignored: as long as an older packet is outstanding it is processed, and
    [LargestAcked] goes down. *)
Theorem largest_acked_can_decrease :
  exists (h h' : @sentPacketHandler openWindow) sent acks ack,
    @SPH_reach openWindow openWindowLaws h sent [] acks /\ AckFrame_accepted ack /\
    ReceivedAck h ack 2 54000000 54000000 54000000 54000000 54000000 = (h', Ok tt) /\
    LargestAcked ack < sph_LargestAcked h /\ sph_LargestAcked h' = LargestAcked ack /\
    sph_LargestAcked h' < sph_LargestAcked h.
Proof.
  set (h := (ReceivedAck sampleHandler3 (ackOf 4 4) 1 53000000 53000000 53000000 53000000 53000000).1).
  exists h, (ReceivedAck h (ackOf 2 2) 2 54000000 54000000 54000000 54000000 54000000).1,
    sampleSent, [ackOf 4 4], (ackOf 2 2).
  split; [|split; [apply ackOf_accepted; lia|split_and!; by vm_compute]].
  apply (@sph_ack openWindow openWindowLaws sampleHandler3 sampleSent [] [] (ackOf 4 4) 1 53000000
           53000000 53000000 53000000 53000000 h (Ok tt));
    [exact sampleHandler3_reach|apply ackOf_accepted; lia|by vm_compute].
Qed.
