(* ===== verification/Congestion.v ===== *)
(** * Package congestion: the CUBIC sender

    [hybrid_slow_start.go], [prr_sender.go], [cubic.go], [cubic_sender.go] and
    [bandwidth.go].  The single-precision computations are those of [Floats.v].
    Times are integers, 0 being the zero time. *)

From S2P Require Import Prelude Protocol Floats RTTStats SendAlgorithm.

(** ** congestion/hybrid_slow_start.go *)

Definition hybridStartLowWindow : Z := 16.
Definition hybridStartMinSamples : Z := 8.
Definition hybridStartDelayFactorExp : Z := 3.
Definition hybridStartDelayMinThresholdUs : Z := 4000.
Definition hybridStartDelayMaxThresholdUs : Z := 16000.

Record HybridSlowStart : Type := mkHybridSlowStart {
  endPacketNumber : Z;
  hss_lastSentPacketNumber : Z;
  started : bool;
  currentMinRTT : Z;
  rttSampleCount : Z;
  hystartFound : bool;
}.

Definition StartReceiveRound (s : HybridSlowStart) (lastSent : Z) : HybridSlowStart :=
  mkHybridSlowStart lastSent (hss_lastSentPacketNumber s) true 0 0 (hystartFound s).

Definition IsEndOfRound (s : HybridSlowStart) (ack : Z) : bool := endPacketNumber s <? ack.

Definition ShouldExitSlowStart (s : HybridSlowStart) (latestRTT minRTT congestionWindow : Z)
    : HybridSlowStart * bool :=
  let s := if negb (started s) then StartReceiveRound s (hss_lastSentPacketNumber s) else s in
  if hystartFound s then (s, true)
  else
    let count := u32 (rttSampleCount s + 1) in
    let current :=
      if (count <=? hybridStartMinSamples)
         && ((currentMinRTT s =? 0) || (currentMinRTT s >? latestRTT))
      then latestRTT else currentMinRTT s in
    let found :=
      if count =? hybridStartMinSamples then
        let thresholdUs := Z.shiftr (Z.quot minRTT Microsecond) hybridStartDelayFactorExp in
        let thresholdUs := MinInt64 thresholdUs hybridStartDelayMaxThresholdUs in
        let threshold := MaxInt64 thresholdUs hybridStartDelayMinThresholdUs * Microsecond in
        if current >? i64 (minRTT + threshold) then true else hystartFound s
      else hystartFound s in
    (mkHybridSlowStart (endPacketNumber s) (hss_lastSentPacketNumber s) (started s) current count
       found,
     (congestionWindow >=? hybridStartLowWindow) && found).

Definition HSS_OnPacketSent (s : HybridSlowStart) (packetNumber : Z) : HybridSlowStart :=
  mkHybridSlowStart (endPacketNumber s) packetNumber (started s) (currentMinRTT s)
    (rttSampleCount s) (hystartFound s).

Definition HSS_OnPacketAcked (s : HybridSlowStart) (ackedPacketNumber : Z) : HybridSlowStart :=
  if IsEndOfRound s ackedPacketNumber
  then mkHybridSlowStart (endPacketNumber s) (hss_lastSentPacketNumber s) false (currentMinRTT s)
         (rttSampleCount s) (hystartFound s)
  else s.

Definition Restart (s : HybridSlowStart) : HybridSlowStart :=
  mkHybridSlowStart (endPacketNumber s) (hss_lastSentPacketNumber s) false (currentMinRTT s)
    (rttSampleCount s) false.

(** ** congestion/prr_sender.go *)

Record PrrSender : Type := mkPrrSender {
  bytesSentSinceLoss : Z;
  bytesDeliveredSinceLoss : Z;
  ackCountSinceLoss : Z;
  bytesInFlightBeforeLoss : Z;
}.

Definition PRR_OnPacketSent (p : PrrSender) (sentBytes : Z) : PrrSender :=
  mkPrrSender (u64 (bytesSentSinceLoss p + sentBytes)) (bytesDeliveredSinceLoss p)
    (ackCountSinceLoss p) (bytesInFlightBeforeLoss p).

Definition PRR_OnPacketLost (p : PrrSender) (bytesInFlight : Z) : PrrSender :=
  mkPrrSender 0 0 0 bytesInFlight.

Definition PRR_OnPacketAcked (p : PrrSender) (ackedBytes : Z) : PrrSender :=
  mkPrrSender (bytesSentSinceLoss p) (u64 (bytesDeliveredSinceLoss p + ackedBytes))
    (u64 (ackCountSinceLoss p + 1)) (bytesInFlightBeforeLoss p).

Definition PRR_TimeUntilSend (p : PrrSender) (congestionWindow bytesInFlight slowstartThreshold : Z)
    : Z :=
  if (bytesSentSinceLoss p =? 0) || (bytesInFlight <? DefaultTCPMSS) then 0
  else if congestionWindow >? bytesInFlight then
    if u64 (bytesDeliveredSinceLoss p + u64 (ackCountSinceLoss p * DefaultTCPMSS))
       <=? bytesSentSinceLoss p
    then InfDuration else 0
  else if u64 (bytesDeliveredSinceLoss p * slowstartThreshold)
          >? u64 (bytesSentSinceLoss p * bytesInFlightBeforeLoss p)
  then 0
  else InfDuration.

(** ** congestion/cubic.go *)

Definition cubeScale : Z := 40.
Definition cubeCongestionWindowScale : Z := 410.
Definition cubeFactor : Z := Z.shiftl 1 cubeScale / cubeCongestionWindowScale.
Definition defaultNumConnections : Z := 2.
Definition betaConst : fl := f32 7 10.
Definition betaLastMax : fl := f32 85 100.
Definition maxCubicTimeInterval : Z := 30 * Millisecond.

Record Cubic : Type := mkCubic {
  cubic_numConnections : Z;
  epoch : Z;
  appLimitedStartTime : Z;
  lastUpdateTime : Z;
  lastCongestionWindow : Z;
  lastMaxCongestionWindow : Z;
  ackedPacketsCount : Z;
  estimatedTCPcongestionWindow : Z;
  originPointCongestionWindow : Z;
  timeToOriginPoint : Z;
  lastTargetCongestionWindow : Z;
}.

Definition Cubic_Reset (c : Cubic) : Cubic :=
  mkCubic (cubic_numConnections c) 0 0 0 0 0 0 0 0 0 0.

Definition NewCubic : Cubic := mkCubic defaultNumConnections 0 0 0 0 0 0 0 0 0 0.

Definition betaN (n : Z) : fl :=
  f32_div (f32_add (f32_sub (f32_of n) (f32_of 1)) betaConst) (f32_of n).
Definition Cubic_beta (c : Cubic) : fl := betaN (cubic_numConnections c).

Definition Cubic_alpha (c : Cubic) : fl :=
  let b := Cubic_beta c in
  let n := f32_of (cubic_numConnections c) in
  f32_div (f32_mul (f32_mul (f32_mul (f32_of 3) n) n) (f32_sub (f32_of 1) b))
    (f32_add (f32_of 1) b).

(** [shiftQuicCubicEpochWhenAppLimited] is the constant [true]. *)
Definition OnApplicationLimited (c : Cubic) (now : Z) : Cubic :=
  if appLimitedStartTime c =? 0
  then mkCubic (cubic_numConnections c) (epoch c) now (lastUpdateTime c) (lastCongestionWindow c)
         (lastMaxCongestionWindow c) (ackedPacketsCount c) (estimatedTCPcongestionWindow c)
         (originPointCongestionWindow c) (timeToOriginPoint c) (lastTargetCongestionWindow c)
  else c.

Definition CongestionWindowAfterPacketLoss (c : Cubic) (currentCongestionWindow : Z)
    : Cubic * Z :=
  let lastMax :=
    if currentCongestionWindow <? lastMaxCongestionWindow c
    then fl_trunc (f32_mul betaLastMax (f32_of currentCongestionWindow))
    else currentCongestionWindow in
  (mkCubic (cubic_numConnections c) 0 (appLimitedStartTime c) (lastUpdateTime c)
     (lastCongestionWindow c) lastMax (ackedPacketsCount c) (estimatedTCPcongestionWindow c)
     (originPointCongestionWindow c) (timeToOriginPoint c) (lastTargetCongestionWindow c),
   fl_trunc (f32_mul (f32_of currentCongestionWindow) (Cubic_beta c))).

(** The loop that updates the TCP-friendly window; an iteration consumes
    acknowledged packets or, when none are required, grows the window. *)
Fixpoint estimateLoop (fuel : nat) (alpha : fl) (acked estimated : Z) : Z * Z :=
  let required := fl_trunc (f32_div (f32_of estimated) alpha) in
  if acked <? required then (acked, estimated)
  else
    match fuel with
    | O => (acked, estimated)
    | S fuel => estimateLoop fuel alpha (u64 (acked - required)) (u64 (estimated + 1))
    end.

Section cubic.

(** [uint32(math.Cbrt(float64(x)))], the cube root of the standard library *)
Variable Cbrt : Z -> Z.

Definition CongestionWindowAfterAck (c : Cubic) (currentCongestionWindow delayMin currentTime : Z)
    : Cubic * Z :=
  let acked := u64 (ackedPacketsCount c + 1) in
  if (lastCongestionWindow c =? currentCongestionWindow)
     && (timeSub currentTime (lastUpdateTime c) <=? maxCubicTimeInterval)
  then
    (mkCubic (cubic_numConnections c) (epoch c) (appLimitedStartTime c) (lastUpdateTime c)
       (lastCongestionWindow c) (lastMaxCongestionWindow c) acked
       (estimatedTCPcongestionWindow c) (originPointCongestionWindow c) (timeToOriginPoint c)
       (lastTargetCongestionWindow c),
     MaxPacketNumber (lastTargetCongestionWindow c) (estimatedTCPcongestionWindow c))
  else
    let '(epoch', appLimited, acked, estimated, origin, toOrigin) :=
      if epoch c =? 0 then
        if lastMaxCongestionWindow c <=? currentCongestionWindow
        then (currentTime, appLimitedStartTime c, 1, currentCongestionWindow,
              currentCongestionWindow, 0)
        else (currentTime, appLimitedStartTime c, 1, currentCongestionWindow,
              lastMaxCongestionWindow c,
              Cbrt (u64 (cubeFactor * (lastMaxCongestionWindow c - currentCongestionWindow))))
      else if negb (appLimitedStartTime c =? 0)
      then (epoch c + timeSub currentTime (appLimitedStartTime c), 0, acked,
            estimatedTCPcongestionWindow c, originPointCongestionWindow c, timeToOriginPoint c)
      else (epoch c, appLimitedStartTime c, acked, estimatedTCPcongestionWindow c,
            originPointCongestionWindow c, timeToOriginPoint c) in
    let elapsedTime :=
      Z.quot (i64 (Z.shiftl (Z.quot (timeSub (currentTime + delayMin) epoch') Microsecond) 10))
        1000000 in
    let offset := i64 (toOrigin - elapsedTime) in
    let offset := if offset <? 0 then i64 (- offset) else offset in
    let deltaCongestionWindow :=
      u64 (Z.shiftr (i64 (cubeCongestionWindowScale * offset * offset * offset)) cubeScale) in
    let target :=
      if elapsedTime >? toOrigin then u64 (origin + deltaCongestionWindow)
      else u64 (origin - deltaCongestionWindow) in
    let '(acked, estimated) := estimateLoop (S (Z.to_nat acked)) (Cubic_alpha c) acked estimated in
    (mkCubic (cubic_numConnections c) epoch' appLimited currentTime currentCongestionWindow
       (lastMaxCongestionWindow c) acked estimated origin toOrigin target,
     if target <? estimated then estimated else target).

End cubic.

(** ** congestion/cubic_sender.go *)

Definition maxBurstBytes : Z := 3 * DefaultTCPMSS.
Definition defaultMinimumCongestionWindow : Z := 2.
Definition renoBeta : fl := f32 7 10.

Record connectionStats : Type := mkConnectionStats {
  slowstartPacketsLost : Z;
  slowstartBytesLost : Z;
}.

Record cubicSender : Type := mkCubicSender {
  hybridSlowStart : HybridSlowStart;
  prr : PrrSender;
  stats : connectionStats;
  cubic : Cubic;
  reno : bool;
  largestSentPacketNumber : Z;
  largestAckedPacketNumber : Z;
  largestSentAtLastCutback : Z;
  congestionWindow : Z;
  slowstartThreshold : Z;
  lastCutbackExitedSlowstart : bool;
  slowStartLargeReduction : bool;
  minCongestionWindow : Z;
  maxTCPCongestionWindow : Z;
  numConnections : Z;
  congestionWindowCount : Z;
  initialCongestionWindow : Z;
  initialMaxCongestionWindow : Z;
}.

Definition NewCubicSender (reno : bool) (initialWindow initialMaxWindow : Z) : cubicSender :=
  mkCubicSender (mkHybridSlowStart 0 0 false 0 0 false) (mkPrrSender 0 0 0 0)
    (mkConnectionStats 0 0) NewCubic reno 0 0 0 initialWindow initialMaxWindow false false
    defaultMinimumCongestionWindow initialMaxWindow defaultNumConnections 0 initialWindow
    initialMaxWindow.

(** The sender with the sub-components replaced *)
Definition with_parts (c : cubicSender) (h : HybridSlowStart) (p : PrrSender) (s : connectionStats)
    (cu : Cubic) : cubicSender :=
  mkCubicSender h p s cu (reno c) (largestSentPacketNumber c) (largestAckedPacketNumber c)
    (largestSentAtLastCutback c) (congestionWindow c) (slowstartThreshold c)
    (lastCutbackExitedSlowstart c) (slowStartLargeReduction c) (minCongestionWindow c)
    (maxTCPCongestionWindow c) (numConnections c) (congestionWindowCount c)
    (initialCongestionWindow c) (initialMaxCongestionWindow c).

(** The sender with its packet numbers replaced *)
Definition with_numbers (c : cubicSender) (sent acked cutback : Z) : cubicSender :=
  mkCubicSender (hybridSlowStart c) (prr c) (stats c) (cubic c) (reno c) sent acked cutback
    (congestionWindow c) (slowstartThreshold c) (lastCutbackExitedSlowstart c)
    (slowStartLargeReduction c) (minCongestionWindow c) (maxTCPCongestionWindow c)
    (numConnections c) (congestionWindowCount c) (initialCongestionWindow c)
    (initialMaxCongestionWindow c).

(** The sender with its windows replaced *)
Definition with_window (c : cubicSender) (window threshold : Z) (exited : bool) (count : Z)
    : cubicSender :=
  mkCubicSender (hybridSlowStart c) (prr c) (stats c) (cubic c) (reno c)
    (largestSentPacketNumber c) (largestAckedPacketNumber c) (largestSentAtLastCutback c)
    window threshold exited (slowStartLargeReduction c) (minCongestionWindow c)
    (maxTCPCongestionWindow c) (numConnections c) count (initialCongestionWindow c)
    (initialMaxCongestionWindow c).

Definition InRecovery (c : cubicSender) : bool :=
  (largestAckedPacketNumber c <=? largestSentAtLastCutback c)
  && negb (largestAckedPacketNumber c =? 0).

Definition CS_GetCongestionWindow (c : cubicSender) : Z := u64 (congestionWindow c * DefaultTCPMSS).
Definition GetSlowStartThreshold (c : cubicSender) : Z := u64 (slowstartThreshold c * DefaultTCPMSS).
Definition InSlowStart (c : cubicSender) : bool :=
  CS_GetCongestionWindow c <? GetSlowStartThreshold c.

Definition TimeUntilSend (c : cubicSender) (bytesInFlight : Z) : Z :=
  if InRecovery c
  then PRR_TimeUntilSend (prr c) (CS_GetCongestionWindow c) bytesInFlight (GetSlowStartThreshold c)
  else if CS_GetCongestionWindow c >? bytesInFlight then 0
  else InfDuration.

Definition CS_OnPacketSent (c : cubicSender) (bytesInFlight packetNumber bytes : Z)
    (isRetransmittable : bool) : cubicSender * bool :=
  if negb isRetransmittable then (c, false)
  else
    let p := if InRecovery c then PRR_OnPacketSent (prr c) bytes else prr c in
    let c := with_numbers c packetNumber (largestAckedPacketNumber c) (largestSentAtLastCutback c) in
    (with_parts c (HSS_OnPacketSent (hybridSlowStart c) packetNumber) p (stats c) (cubic c), true).

Definition ExitSlowstart (c : cubicSender) : cubicSender :=
  with_window c (congestionWindow c) (congestionWindow c) (lastCutbackExitedSlowstart c)
    (congestionWindowCount c).

Definition CS_MaybeExitSlowStart (c : cubicSender) (rtt : RTTStats) : cubicSender :=
  if InSlowStart c then
    let '(h, exit) :=
      ShouldExitSlowStart (hybridSlowStart c) (LatestRTT rtt) (MinRTT rtt)
        (CS_GetCongestionWindow c / DefaultTCPMSS) in
    let c := with_parts c h (prr c) (stats c) (cubic c) in
    if exit then ExitSlowstart c else c
  else c.

Definition isCwndLimited (c : cubicSender) (bytesInFlight : Z) : bool :=
  let window := CS_GetCongestionWindow c in
  if bytesInFlight >=? window then true
  else
    let availableBytes := u64 (window - bytesInFlight) in
    let slowStartLimited := InSlowStart c && (bytesInFlight >? window / 2) in
    slowStartLimited || (availableBytes <=? maxBurstBytes).

Definition maybeIncreaseCwnd (Cbrt : Z -> Z) (c : cubicSender) (rtt : RTTStats)
    (now bytesInFlight : Z) : cubicSender :=
  if negb (isCwndLimited c bytesInFlight) then
    with_parts c (hybridSlowStart c) (prr c) (stats c) (OnApplicationLimited (cubic c) now)
  else if congestionWindow c >=? maxTCPCongestionWindow c then c
  else if InSlowStart c then
    with_window c (u64 (congestionWindow c + 1)) (slowstartThreshold c)
      (lastCutbackExitedSlowstart c) (congestionWindowCount c)
  else if reno c then
    let count := u64 (congestionWindowCount c + 1) in
    if u64 (count * numConnections c) >=? congestionWindow c
    then with_window c (u64 (congestionWindow c + 1)) (slowstartThreshold c)
           (lastCutbackExitedSlowstart c) 0
    else with_window c (congestionWindow c) (slowstartThreshold c)
           (lastCutbackExitedSlowstart c) count
  else
    let '(cu, target) :=
      CongestionWindowAfterAck Cbrt (cubic c) (congestionWindow c) (MinRTT rtt) now in
    let c := with_parts c (hybridSlowStart c) (prr c) (stats c) cu in
    with_window c (MinPacketNumber (maxTCPCongestionWindow c) target) (slowstartThreshold c)
      (lastCutbackExitedSlowstart c) (congestionWindowCount c).

Definition CS_OnPacketAcked (Cbrt : Z -> Z) (c : cubicSender) (rtt : RTTStats)
    (now ackedPacketNumber ackedBytes bytesInFlight : Z) : cubicSender :=
  let c := with_numbers c (largestSentPacketNumber c)
             (MaxPacketNumber ackedPacketNumber (largestAckedPacketNumber c))
             (largestSentAtLastCutback c) in
  if InRecovery c
  then with_parts c (hybridSlowStart c) (PRR_OnPacketAcked (prr c) ackedBytes) (stats c) (cubic c)
  else
    let c := maybeIncreaseCwnd Cbrt c rtt now bytesInFlight in
    if InSlowStart c
    then with_parts c (HSS_OnPacketAcked (hybridSlowStart c) ackedPacketNumber) (prr c) (stats c)
           (cubic c)
    else c.

Definition CS_RenoBeta (c : cubicSender) : fl :=
  f32_div (f32_add (f32_sub (f32_of (numConnections c)) (f32_of 1)) renoBeta)
    (f32_of (numConnections c)).

Definition CS_OnPacketLost (c : cubicSender) (packetNumber lostBytes bytesInFlight : Z)
    : cubicSender :=
  if packetNumber <=? largestSentAtLastCutback c then
    if lastCutbackExitedSlowstart c then
      let packetsLost := u64 (slowstartPacketsLost (stats c) + 1) in
      let bytesLost := u64 (slowstartBytesLost (stats c) + lostBytes) in
      let c := with_parts c (hybridSlowStart c) (prr c) (mkConnectionStats packetsLost bytesLost)
                 (cubic c) in
      if slowStartLargeReduction c then
        let window :=
          if (packetsLost =? 1)
             || (bytesLost / DefaultTCPMSS >? u64 (bytesLost - lostBytes) / DefaultTCPMSS)
          then MaxPacketNumber (u64 (congestionWindow c - 1)) (minCongestionWindow c)
          else congestionWindow c in
        with_window c window window (lastCutbackExitedSlowstart c) (congestionWindowCount c)
      else c
    else c
  else
    let exited := InSlowStart c in
    let st :=
      if InSlowStart c
      then mkConnectionStats (u64 (slowstartPacketsLost (stats c) + 1)) (slowstartBytesLost (stats c))
      else stats c in
    let c := with_parts c (hybridSlowStart c) (PRR_OnPacketLost (prr c) bytesInFlight) st (cubic c) in
    let '(cu, window) :=
      if slowStartLargeReduction c && InSlowStart c
      then (cubic c, u64 (congestionWindow c - 1))
      else if reno c
      then (cubic c, fl_trunc (f32_mul (f32_of (congestionWindow c)) (CS_RenoBeta c)))
      else CongestionWindowAfterPacketLoss (cubic c) (congestionWindow c) in
    let window := if window <? minCongestionWindow c then minCongestionWindow c else window in
    let c := with_parts c (hybridSlowStart c) (prr c) (stats c) cu in
    let c := with_window c window window exited 0 in
    with_numbers c (largestSentPacketNumber c) (largestAckedPacketNumber c)
      (largestSentPacketNumber c).

Definition CS_OnRetransmissionTimeout (c : cubicSender) (packetsRetransmitted : bool)
    : cubicSender :=
  let c := with_numbers c (largestSentPacketNumber c) (largestAckedPacketNumber c) 0 in
  if negb packetsRetransmitted then c
  else
    let c := with_parts c (Restart (hybridSlowStart c)) (prr c) (stats c) (Cubic_Reset (cubic c)) in
    with_window c (minCongestionWindow c) (congestionWindow c / 2) (lastCutbackExitedSlowstart c)
      (congestionWindowCount c).

Definition CS_OnConnectionMigration (c : cubicSender) : cubicSender :=
  mkCubicSender (Restart (hybridSlowStart c)) (mkPrrSender 0 0 0 0) (stats c)
    (Cubic_Reset (cubic c)) (reno c) 0 0 0 (initialCongestionWindow c)
    (initialMaxCongestionWindow c) false (slowStartLargeReduction c) (minCongestionWindow c)
    (initialMaxCongestionWindow c) (numConnections c) 0 (initialCongestionWindow c)
    (initialMaxCongestionWindow c).

Definition CS_RetransmissionDelay (rtt : RTTStats) : Z :=
  if SmoothedRTT rtt =? 0 then 0
  else i64 (SmoothedRTT rtt + i64 (MeanDeviation rtt * 4)).

(** ** congestion/bandwidth.go *)

Definition BandwidthFromDelta (bytes delta : Z) : Z :=
  u64 (u64 (u64 bytes * u64 Second) / u64 delta * 8).

Definition BandwidthEstimate (c : cubicSender) (rtt : RTTStats) : Z :=
  if SmoothedRTT rtt =? 0 then 0
  else BandwidthFromDelta (CS_GetCongestionWindow c) (SmoothedRTT rtt).

(** ** The sender as the congestion control of the ack handler *)

#[export] Instance cubicSendAlgorithm (Cbrt : Z -> Z) : SendAlgorithm :=
  {| SA_state := cubicSender;
     OnPacketSent c sentTime bytesInFlight packetNumber bytes isRetransmittable :=
       CS_OnPacketSent c bytesInFlight packetNumber bytes isRetransmittable;
     GetCongestionWindow := CS_GetCongestionWindow;
     MaybeExitSlowStart := CS_MaybeExitSlowStart;
     OnPacketAcked := CS_OnPacketAcked Cbrt;
     OnPacketLost := CS_OnPacketLost;
     OnRetransmissionTimeout := CS_OnRetransmissionTimeout;
     RetransmissionDelay c rtt := CS_RetransmissionDelay rtt |}.

Definition SetNumEmulatedConnections (c : cubicSender) (n : Z) : cubicSender :=
  let n := Max n 1 in
  let cu := cubic c in
  mkCubicSender (hybridSlowStart c) (prr c) (stats c)
    (mkCubic n (epoch cu) (appLimitedStartTime cu) (lastUpdateTime cu) (lastCongestionWindow cu)
       (lastMaxCongestionWindow cu) (ackedPacketsCount cu) (estimatedTCPcongestionWindow cu)
       (originPointCongestionWindow cu) (timeToOriginPoint cu) (lastTargetCongestionWindow cu))
    (reno c) (largestSentPacketNumber c) (largestAckedPacketNumber c)
    (largestSentAtLastCutback c) (congestionWindow c) (slowstartThreshold c)
    (lastCutbackExitedSlowstart c) (slowStartLargeReduction c) (minCongestionWindow c)
    (maxTCPCongestionWindow c) n (congestionWindowCount c) (initialCongestionWindow c)
    (initialMaxCongestionWindow c).

Definition SetSlowStartLargeReduction (c : cubicSender) (enabled : bool) : cubicSender :=
  mkCubicSender (hybridSlowStart c) (prr c) (stats c) (cubic c) (reno c)
    (largestSentPacketNumber c) (largestAckedPacketNumber c) (largestSentAtLastCutback c)
    (congestionWindow c) (slowstartThreshold c) (lastCutbackExitedSlowstart c) enabled
    (minCongestionWindow c) (maxTCPCongestionWindow c) (numConnections c)
    (congestionWindowCount c) (initialCongestionWindow c) (initialMaxCongestionWindow c).

(** ** The laws the ack handler relies on *)

#[export] Instance cubicSendAlgorithmLaws (Cbrt : Z -> Z) :
  SendAlgorithmLaws (cubicSendAlgorithm Cbrt).
Proof.
  refine {| SA_ok _ := True |}; try done.
  intros c rtt _ Hs Hd Hsum. cbn [RetransmissionDelay cubicSendAlgorithm].
  unfold CS_RetransmissionDelay. case_if; [lia|].
  rewrite (i64_small (MeanDeviation rtt * 4)) by lia. rewrite i64_small by lia. lia.
Defined.

(** ** The TCP-friendly window *)

(** [alpha] for the default of two emulated connections, about 0.973 *)
Definition defaultAlpha : fl := mkFl 16323775 (-24).

Lemma Cubic_alpha_default c : cubic_numConnections c = 2 -> Cubic_alpha c = defaultAlpha.
Proof. intros E. unfold Cubic_alpha, Cubic_beta. rewrite E. vm_compute. reflexivity. Qed.

Lemma betaN_default : betaN 2 = mkFl 14260634 (-24).
Proof. vm_compute. reflexivity. Qed.

(** At least one acknowledged packet is required to grow the window. *)
Lemma required_pos est :
  1 <= est -> 1 <= fl_trunc (f32_div (f32_of est) defaultAlpha).
Proof.
  intros He. apply fl_trunc_ge. unfold f32_div, f32, float32_prec.
  pose proof (fden_pos (f32_of est)) as Hd.
  pose proof (roundQ_ge 24 est 1 1 ltac:(lia) ltac:(lia) ltac:(lia) ltac:(lia) ltac:(lia)) as Hge.
  change (roundQ 24 est 1) with (f32_of est) in Hge.
  change (fden defaultAlpha) with (2 ^ 24). change (fnum defaultAlpha) with 16323775.
  apply roundQ_ge; lia.
Qed.

(** The loop neither creates acknowledgements nor shrinks the window, and it has
    enough fuel: it stops because the acknowledgements do not suffice. *)
Lemma estimateLoop_spec fuel acked est B :
  1 <= est -> 0 <= acked -> est + acked <= B -> B < 2 ^ 63 -> acked < Z.of_nat fuel ->
  let '(acked', est') := estimateLoop fuel defaultAlpha acked est in
  est <= est' /\ 0 <= acked' /\ est' + acked' <= B /\
  acked' < fl_trunc (f32_div (f32_of est') defaultAlpha).
Proof.
  revert acked est. induction fuel as [|fuel IH]; intros acked est He Ha Hb HB Hf; [lia|].
  cbn [estimateLoop]. pose proof (required_pos est He) as Hr.
  set (required := fl_trunc (f32_div (f32_of est) defaultAlpha)) in *.
  destruct (Z.ltb_spec acked required) as [Hlt|Hge].
  { split_and!; (lia || done). }
  rewrite !u64_small by (unfold_width; lia).
  specialize (IH (acked - required) (est + 1) ltac:(lia) ltac:(lia) ltac:(lia) HB ltac:(lia)).
  destruct (estimateLoop fuel _ _ _) as [acked' est']. destruct IH as (? & ? & ? & ?).
  split_and!; (lia || done).
Qed.

(** ** The congestion window stays within its limits *)

(** [B] bounds the TCP-friendly window plus the acknowledgements counted for it;
    it grows by one with each acknowledged packet. *)
Record cubic_ok (cu : Cubic) (B : Z) : Prop := {
  cok_n : cubic_numConnections cu = 2;
  cok_last : lastCongestionWindow cu <> 0 -> 2 <= estimatedTCPcongestionWindow cu;
  cok_epoch : epoch cu <> 0 -> 2 <= estimatedTCPcongestionWindow cu;
  cok_nonneg : 0 <= estimatedTCPcongestionWindow cu /\ 0 <= ackedPacketsCount cu;
  cok_bound : estimatedTCPcongestionWindow cu + ackedPacketsCount cu <= B;
}.

Record sender_ok (c : cubicSender) (B : Z) : Prop := {
  so_min : minCongestionWindow c = 2;
  so_window : 2 <= congestionWindow c <= maxTCPCongestionWindow c;
  so_max : maxTCPCongestionWindow c < 2 ^ 24;
  so_initial : 2 <= initialCongestionWindow c <= maxTCPCongestionWindow c;
  so_initialMax : initialMaxCongestionWindow c = maxTCPCongestionWindow c;
  so_n : numConnections c = 2;
  so_cubic : cubic_ok (cubic c) B;
  so_bound : 2 ^ 25 <= B;
}.

Lemma f32_mul_le x y c :
  0 <= fnum x -> 0 <= fnum y -> 0 <= c < 2 ^ 24 -> fnum x <= c * fden x -> fnum y <= fden y ->
  fl_trunc (f32_mul x y) <= c.
Proof.
  intros Hx Hy Hc Hxc Hy1. apply fl_trunc_le. unfold f32_mul, f32, float32_prec.
  pose proof (fden_pos x). pose proof (fden_pos y). apply roundQ_le; nia.
Qed.

(** A loss never enlarges the window. *)
Lemma window_after_loss_le w :
  0 <= w < 2 ^ 24 -> fl_trunc (f32_mul (f32_of w) (betaN 2)) <= w.
Proof.
  intros Hw. pose proof (f32_of_exact w Hw) as Ew. pose proof (fden_pos (f32_of w)).
  apply f32_mul_le; [nia|by rewrite betaN_default|done|lia|by rewrite betaN_default].
Qed.

Lemma cubic_ok_mono cu B B' : cubic_ok cu B -> B <= B' -> cubic_ok cu B'.
Proof. intros [] ?. constructor; (done || lia). Qed.

Lemma CongestionWindowAfterAck_ok Cbrt cu B w delayMin now :
  cubic_ok cu B -> 2 <= w < 2 ^ 24 -> 2 ^ 25 <= B -> B + 1 < 2 ^ 63 ->
  let '(cu', target) := CongestionWindowAfterAck Cbrt cu w delayMin now in
  cubic_ok cu' (B + 1) /\ 2 <= target.
Proof.
  intros [Hn Hlast Hep [He Ha] Hb] Hw HB HB'. unfold CongestionWindowAfterAck.
  rewrite (u64_small (ackedPacketsCount cu + 1)) by (unfold_width; lia).
  destruct ((lastCongestionWindow cu =? w) && _) eqn:Eq.
  - to_prop. rewrite MaxPacketNumber_max. split; [constructor; cbn; try done; lia|].
    specialize (Hlast ltac:(lia)). lia.
  - clear Eq. rewrite Cubic_alpha_default by done.
    set (blk := if epoch cu =? 0 then _ else _).
    assert (exists e al ac est o t, blk = (e, al, ac, est, o, t) /\
      2 <= est /\ 0 <= ac /\ est + ac <= B + 1) as (e & al & ac & est & o & t & -> & H1 & H2 & H3).
    { subst blk. repeat case_if; do 6 eexists; (split; [reflexivity|]); try lia.
      all: specialize (Hep ltac:(done)); lia. }
    pose proof (estimateLoop_spec (S (Z.to_nat ac)) ac est (B + 1) ltac:(lia) H2 H3 HB' ltac:(lia)) as Hl.
    destruct (estimateLoop _ _ _ _) as [ac' est']. destruct Hl as (Hl1 & Hl2 & Hl3 & _).
    split; [constructor; cbn; (done || lia)|]. case_if; lia.
Qed.

Lemma maybeIncreaseCwnd_ok Cbrt c B rtt now bytesInFlight :
  sender_ok c B -> B + 1 < 2 ^ 63 -> sender_ok (maybeIncreaseCwnd Cbrt c rtt now bytesInFlight) (B + 1).
Proof.
  intros Hok HB. assert (sender_ok c (B + 1)) as Hok1.
  { destruct Hok. constructor; try (done || lia). eapply cubic_ok_mono; [done|lia]. }
  unfold maybeIncreaseCwnd. case_if.
  { destruct Hok1 as [? ? ? ? ? ? [] ?]. constructor; try done. cbn. unfold OnApplicationLimited.
    case_if; constructor; done. }
  case_if; [done|]. pose proof (so_window _ _ Hok) as Hw. pose proof (so_max _ _ Hok) as Hm.
  rewrite (u64_small (congestionWindow c + 1)) by (unfold_width; lia).
  case_if; [destruct Hok1; constructor; cbn; (done || lia)|].
  case_if; [case_if; destruct Hok1; constructor; cbn; (done || lia)|].
  pose proof (CongestionWindowAfterAck_ok Cbrt (cubic c) B (congestionWindow c) (MinRTT rtt) now
    (so_cubic _ _ Hok) ltac:(lia) (so_bound _ _ Hok) HB) as Hack.
  destruct (CongestionWindowAfterAck _ _ _ _ _) as [cu target]. destruct Hack as [Hcu Ht].
  destruct Hok1. constructor; cbn; try (done || lia). rewrite MinPacketNumber_min. lia.
Qed.

Lemma CS_OnPacketLost_ok c B pn lost inFlight :
  sender_ok c B -> sender_ok (CS_OnPacketLost c pn lost inFlight) B.
Proof.
  intros Hok. pose proof (so_window _ _ Hok) as Hw. pose proof (so_max _ _ Hok) as Hm.
  pose proof (so_min _ _ Hok) as Hmin. pose proof (so_n _ _ Hok) as Hn.
  unfold CS_OnPacketLost. case_if.
  { case_if; [|done]. cbn [slowStartLargeReduction with_parts congestionWindow minCongestionWindow].
    rewrite (u64_small (congestionWindow c - 1)), MaxPacketNumber_max by (unfold_width; lia).
    case_if; [|by destruct Hok]. destruct Hok. case_if; constructor; cbn; (done || lia). }
  cbn [slowStartLargeReduction with_parts congestionWindow minCongestionWindow reno cubic].
  set (blk := if _ && _ then _ else _).
  assert (exists cu window, blk = (cu, window) /\ cubic_ok cu B /\ window <= congestionWindow c)
    as (cu & window & -> & Hcu & Hwin).
  { pose proof (window_after_loss_le (congestionWindow c) ltac:(lia)) as Hle.
    destruct Hok as [_ _ _ _ _ _ Hcu _]. subst blk. case_if; [|case_if].
    - do 2 eexists; split; [reflexivity|]. split; [done|].
      rewrite u64_small by (unfold_width; lia). lia.
    - do 2 eexists; split; [reflexivity|]. split; [done|]. unfold CS_RenoBeta.
      cbn [numConnections with_parts]. rewrite Hn. exact Hle.
    - unfold CongestionWindowAfterPacketLoss. do 2 eexists; split; [reflexivity|].
      destruct Hcu as [En ? ? ? ?]. split; [by constructor|]. unfold Cubic_beta. by rewrite En. }
  destruct Hok. constructor; cbn; try done. case_if; lia.
Qed.

(** The states of a sender created with these windows, with the number of packets
    acknowledged so far. *)
Inductive CS_reach (Cbrt : Z -> Z) (initial maximum : Z) : cubicSender -> Z -> Prop :=
| cs_new reno : CS_reach Cbrt initial maximum (NewCubicSender reno initial maximum) 0
| cs_sent c n inFlight pn bytes retransmittable :
    CS_reach Cbrt initial maximum c n ->
    CS_reach Cbrt initial maximum (CS_OnPacketSent c inFlight pn bytes retransmittable).1 n
| cs_exit c n rtt :
    CS_reach Cbrt initial maximum c n -> CS_reach Cbrt initial maximum (CS_MaybeExitSlowStart c rtt) n
| cs_acked c n rtt now pn bytes inFlight :
    CS_reach Cbrt initial maximum c n ->
    CS_reach Cbrt initial maximum (CS_OnPacketAcked Cbrt c rtt now pn bytes inFlight) (n + 1)
| cs_lost c n pn bytes inFlight :
    CS_reach Cbrt initial maximum c n ->
    CS_reach Cbrt initial maximum (CS_OnPacketLost c pn bytes inFlight) n
| cs_timeout c n retransmitted :
    CS_reach Cbrt initial maximum c n ->
    CS_reach Cbrt initial maximum (CS_OnRetransmissionTimeout c retransmitted) n
| cs_migrate c n :
    CS_reach Cbrt initial maximum c n -> CS_reach Cbrt initial maximum (CS_OnConnectionMigration c) n
| cs_large c n enabled :
    CS_reach Cbrt initial maximum c n ->
    CS_reach Cbrt initial maximum (SetSlowStartLargeReduction c enabled) n.

Lemma CS_reach_nonneg Cbrt initial maximum c n : CS_reach Cbrt initial maximum c n -> 0 <= n.
Proof. induction 1; lia. Qed.

Lemma CS_reach_ok Cbrt initial maximum c n :
  CS_reach Cbrt initial maximum c n -> 2 <= initial <= maximum -> maximum < 2 ^ 24 -> n < 2 ^ 62 ->
  sender_ok c (2 ^ 25 + n) /\ maxTCPCongestionWindow c = maximum.
Proof.
  intros Hr Hi Hm. induction Hr as [r|c n fl pn by_ rt Hr IH|c n rtt Hr IH|c n rtt now pn by_ fl Hr IH
    |c n pn by_ fl Hr IH|c n rt Hr IH|c n Hr IH|c n en Hr IH]; intros Hn;
    try (destruct (IH ltac:(lia)) as [Hok Emax]).
  - split; [|done]. constructor; cbn; try (done || lia).
  - unfold CS_OnPacketSent. case_if; [done|]. destruct Hok. split; [by constructor|done].
  - unfold CS_MaybeExitSlowStart. case_if; [|done]. destruct (ShouldExitSlowStart _ _ _ _) as [h e].
    destruct Hok. case_if; (split; [by constructor|done]).
  - pose proof (CS_reach_nonneg _ _ _ _ _ Hr). unfold CS_OnPacketAcked.
    set (c0 := with_numbers c _ _ _).
    assert (sender_ok c0 (2 ^ 25 + n)) as Hok0 by (destruct Hok; by constructor).
    pose proof (maybeIncreaseCwnd_ok Cbrt c0 _ rtt now fl Hok0 ltac:(lia)) as Hok1.
    assert (maxTCPCongestionWindow (maybeIncreaseCwnd Cbrt c0 rtt now fl) = maximum) as Emax1.
    { unfold maybeIncreaseCwnd. repeat case_if; try done.
      by destruct (CongestionWindowAfterAck _ _ _ _ _). }
    replace (2 ^ 25 + (n + 1)) with (2 ^ 25 + n + 1) by lia.
    case_if.
    + split; [|done]. destruct Hok0. constructor; try (done || lia).
      eapply cubic_ok_mono; [done|lia].
    + case_if; [|done]. split; [|done]. destruct Hok1. by constructor.
  - split; [by apply CS_OnPacketLost_ok|]. unfold CS_OnPacketLost.
    repeat case_if; try done. all: by destruct (CongestionWindowAfterPacketLoss _ _).
  - unfold CS_OnRetransmissionTimeout. pose proof (CS_reach_nonneg _ _ _ _ _ Hr).
    case_if; destruct Hok as [? ? ? ? ? ? [] ?]; (split; [|done]); constructor; cbn; try (done || lia).
    constructor; cbn; (done || lia).
  - destruct Hok as [? ? ? ? ? ? [] ?]. pose proof (CS_reach_nonneg _ _ _ _ _ Hr).
    split; [|cbn; congruence]. constructor; cbn; try (done || lia). constructor; cbn; (done || lia).
  - destruct Hok. split; [by constructor|done].
Qed.

(** C35: whatever the network does, the congestion window stays between two
    packets and the configured maximum; the conversion to bytes does not overflow,
    so the window the ack handler sees is never closed.  This holds although the
    CUBIC target itself can underflow, and for less than 2^62 acknowledgements. *)
Theorem cubic_window_bounds Cbrt initial maximum c n :
  CS_reach Cbrt initial maximum c n -> 2 <= initial <= maximum -> maximum < 2 ^ 24 -> n < 2 ^ 62 ->
  2 <= congestionWindow c <= maximum /\
  2 * DefaultTCPMSS <= @GetCongestionWindow (cubicSendAlgorithm Cbrt) c <= maximum * DefaultTCPMSS.
Proof.
  intros Hr Hi Hm Hn. destruct (CS_reach_ok _ _ _ _ _ Hr Hi Hm Hn) as [Hok <-].
  pose proof (so_window _ _ Hok). cbn [GetCongestionWindow cubicSendAlgorithm].
  unfold CS_GetCongestionWindow, DefaultTCPMSS. rewrite u64_small by (unfold_width; lia). lia.
Qed.

Lemma cubic_window_bounds_witness :
  let c := CS_OnPacketLost (NewCubicSender false 32 1000) 1 1350 1350 in
  2 <= congestionWindow c <= 1000 /\
  2 * DefaultTCPMSS <= @GetCongestionWindow (cubicSendAlgorithm (fun x => x)) c <= 1000 * DefaultTCPMSS.
Proof.
  apply (cubic_window_bounds (fun x => x) 32 1000
    (CS_OnPacketLost (NewCubicSender false 32 1000) 1 1350 1350) 0); [|lia..].
  apply cs_lost, cs_new.
Defined.

(** Up to the default maximum the single-precision product is exact. *)
Lemma window_after_loss_exact w :
  0 <= w <= DefaultMaxCongestionWindow ->
  fl_trunc (f32_mul (f32_of w) (betaN 2)) = 17 * w / 20.
Proof.
  intros Hw.
  assert (forallb (fun w => fl_trunc (f32_mul (f32_of w) (betaN 2)) =? 17 * w / 20) (seqZ 0 1001) = true)
    as Hall by (vm_compute; reflexivity).
  rewrite forallb_forall in Hall. apply Z.eqb_eq, Hall, list_elem_of_In, elem_of_seqZ.
  unfold DefaultMaxCongestionWindow in Hw. lia.
Qed.

(** A loss event reduces the window to 85 percent (the backoff of two emulated
    connections), never below two packets, and ends slow start; the further losses
    of packets that were sent before it do not reduce the window again. *)
Theorem cubic_loss_reduces_once Cbrt c n pn lost inFlight pn' lost' inFlight' :
  CS_reach Cbrt InitialCongestionWindow DefaultMaxCongestionWindow c n -> n < 2 ^ 62 ->
  reno c = false -> slowStartLargeReduction c = false -> largestSentAtLastCutback c < pn ->
  let c' := CS_OnPacketLost c pn lost inFlight in
  congestionWindow c' = Z.max 2 (17 * congestionWindow c / 20) /\ InSlowStart c' = false /\
  (pn' <= largestSentPacketNumber c ->
   congestionWindow (CS_OnPacketLost c' pn' lost' inFlight') = congestionWindow c').
Proof.
  intros Hr Hn Hreno Hlarge Hpn.
  destruct (CS_reach_ok _ _ _ _ _ Hr ltac:(done) ltac:(done) Hn) as [Hok Emax].
  pose proof (so_window _ _ Hok) as Hw. rewrite Emax in Hw.
  pose proof (window_after_loss_exact (congestionWindow c) ltac:(lia)) as E.
  cbv zeta. set (c' := CS_OnPacketLost c pn lost inFlight).
  assert (congestionWindow c' = Z.max 2 (17 * congestionWindow c / 20) /\
    slowstartThreshold c' = congestionWindow c' /\ slowStartLargeReduction c' = false /\
    largestSentAtLastCutback c' = largestSentPacketNumber c) as (Ew & Et & El & Ec).
  { subst c'. unfold CS_OnPacketLost. rewrite (proj2 (Z.leb_gt _ _)) by lia.
    cbn [slowStartLargeReduction reno with_parts]. rewrite Hlarge, Hreno. cbn [andb].
    unfold CongestionWindowAfterPacketLoss. cbn [cubic with_parts congestionWindow minCongestionWindow].
    destruct (so_cubic _ _ Hok) as [En _ _ _ _]. unfold Cubic_beta. rewrite En.
    cbn. rewrite E, (so_min _ _ Hok). split_and!; try done. case_if; lia. }
  split; [done|]. split.
  { unfold InSlowStart, CS_GetCongestionWindow, GetSlowStartThreshold. rewrite Et. apply Z.ltb_irrefl. }
  intros Hpn'. unfold CS_OnPacketLost at 1. rewrite Ec, (proj2 (Z.leb_le _ _)) by lia.
  case_if; [|done]. cbn [slowStartLargeReduction with_parts]. by rewrite El.
Qed.

Lemma cubic_loss_reduces_once_witness :
  let c := NewCubicSender false InitialCongestionWindow DefaultMaxCongestionWindow in
  let c' := CS_OnPacketLost c 1 1350 1350 in
  congestionWindow c' = Z.max 2 (17 * 32 / 20) /\ InSlowStart c' = false /\
  (0 <= largestSentPacketNumber c ->
   congestionWindow (CS_OnPacketLost c' 0 1350 1350) = congestionWindow c').
Proof.
  apply (cubic_loss_reduces_once (fun x => x)
    (NewCubicSender false InitialCongestionWindow DefaultMaxCongestionWindow) 0 1 1350 1350 0 1350 1350);
    [apply cs_new|lia|reflexivity..].
Defined.

(** An RTT that has doubled ends slow start by the delay rule after eight samples. *)
Definition delayedRTT : RTTStats :=
  mkRTTStats initialRTTus InfDuration (100 * Millisecond) (200 * Millisecond) (150 * Millisecond)
    (50 * Millisecond) 0 noSample noSample noSample noSample.

Definition afterSlowStart : cubicSender :=
  Nat.iter 8 (fun c => CS_MaybeExitSlowStart c delayedRTT)
    (NewCubicSender false InitialCongestionWindow DefaultMaxCongestionWindow).

(** One acknowledgement while the application sends little, then, ten seconds
    later, acknowledgements that use the whole window. *)
Definition appLimitedAck (Cbrt : Z -> Z) : cubicSender :=
  CS_OnPacketAcked Cbrt afterSlowStart delayedRTT (1 * Second) 1 1350 0.
Definition firstLimitedAck (Cbrt : Z -> Z) : cubicSender :=
  CS_OnPacketAcked Cbrt (appLimitedAck Cbrt) delayedRTT (11 * Second) 2 1350 (32 * DefaultTCPMSS).
Definition secondLimitedAck (Cbrt : Z -> Z) : cubicSender :=
  CS_OnPacketAcked Cbrt (firstLimitedAck Cbrt) delayedRTT (11 * Second + 100 * Millisecond) 3 1350
    (32 * DefaultTCPMSS).

(** The start of an application-limited period is not cleared when a new CUBIC
    epoch begins.  An acknowledgement then moves the epoch into the future by a
    period that lies before it, the CUBIC target underflows, and the congestion
    window jumps from 32 packets to its maximum within one acknowledgement. *)
Theorem cubic_app_limited_window_jump Cbrt :
  CS_reach Cbrt InitialCongestionWindow DefaultMaxCongestionWindow (secondLimitedAck Cbrt) 3 /\
  InSlowStart (firstLimitedAck Cbrt) = false /\
  congestionWindow (firstLimitedAck Cbrt) = 32 /\
  11 * Second + 100 * Millisecond < epoch (cubic (secondLimitedAck Cbrt)) /\
  congestionWindow (secondLimitedAck Cbrt) = DefaultMaxCongestionWindow.
Proof.
  split.
  - unfold secondLimitedAck, firstLimitedAck, appLimitedAck, afterSlowStart. cbn [Nat.iter].
    apply (cs_acked _ _ _ _ 2), (cs_acked _ _ _ _ 1), (cs_acked _ _ _ _ 0).
    do 8 apply cs_exit. apply cs_new.
  - split_and!; vm_compute; reflexivity.
Qed.
