(* ===== verification/LinkedList.v ===== *)
(** * The linked lists

    [utils/packetinterval_linkedlist.go], [utils/byteinterval_linkedlist.go] and
    [ackhandler/packet_linkedlist.go] are three copies, generated for their element
    types, of one doubly linked list, a ring of elements through a sentinel.  The
    model is a heap with one map per field of an element, so that elements are
    shared and updated in place, for any type of values.  The theorems show that the
    operations act on the sequence of elements as on a functional list and leave all
    other lists alone (ListRefinement.v composes them); the other files use the sequences of
    values. *)

From S2P Require Import Prelude.

Abbreviation ptr := Z (only parsing).

Section LinkedList.
Context {V : Type} `{!Inhabited V}.

(** ** Elements, lists and the heap *)

Definition null : ptr := 0.

(** The fields [next], [prev], [list] and [Value] of the elements, by address, and
    the field [len] of the lists.  The sentinel [root] is the first field of a list:
    a list and its sentinel have the same address. *)
Record heap : Type := mkHeap {
  nexts : gmap ptr ptr;
  prevs : gmap ptr ptr;
  lists : gmap ptr ptr;
  values : gmap ptr V;
  lens : gmap ptr Z;
  brk : ptr;
}.

Definition M (A : Type) : Type := heap -> res (A * heap).
#[global] Instance M_ret : MRet M := fun A a h => Ok (a, h).
#[global] Instance M_bind : MBind M := fun A B k m h =>
  match m h with
  | Ok (a, h) => k a h
  | Err e => Err e
  | Panic => Panic
  end.

(** Reading or writing a field of [null] panics. *)
Definition load {A} (field : heap -> gmap ptr A) (p : ptr) : M A := fun h =>
  match field h !! p with
  | Some x => Ok (x, h)
  | None => Panic
  end.

Definition set_next (p q : ptr) : M unit := fun h =>
  match nexts h !! p with
  | Some _ => Ok (tt, mkHeap (<[p := q]> (nexts h)) (prevs h) (lists h) (values h) (lens h) (brk h))
  | None => Panic
  end.
Definition set_prev (p q : ptr) : M unit := fun h =>
  match prevs h !! p with
  | Some _ => Ok (tt, mkHeap (nexts h) (<[p := q]> (prevs h)) (lists h) (values h) (lens h) (brk h))
  | None => Panic
  end.
Definition set_list (p l : ptr) : M unit := fun h =>
  match lists h !! p with
  | Some _ => Ok (tt, mkHeap (nexts h) (prevs h) (<[p := l]> (lists h)) (values h) (lens h) (brk h))
  | None => Panic
  end.
Definition set_Value (p : ptr) (v : V) : M unit := fun h =>
  match values h !! p with
  | Some _ => Ok (tt, mkHeap (nexts h) (prevs h) (lists h) (<[p := v]> (values h)) (lens h) (brk h))
  | None => Panic
  end.
Definition set_len (l : ptr) (n : Z) : M unit := fun h =>
  match lens h !! l with
  | Some _ => Ok (tt, mkHeap (nexts h) (prevs h) (lists h) (values h) (<[l := n]> (lens h)) (brk h))
  | None => Panic
  end.

(** [&Element{Value: v}] and [new(List)] *)
Definition newElement (v : V) : M ptr := fun h =>
  let p := brk h in
  Ok (p, mkHeap (<[p := null]> (nexts h)) (<[p := null]> (prevs h)) (<[p := null]> (lists h))
           (<[p := v]> (values h)) (lens h) (p + 1)).
Definition newListObject : M ptr := fun h =>
  let p := brk h in
  Ok (p, mkHeap (<[p := null]> (nexts h)) (<[p := null]> (prevs h)) (<[p := null]> (lists h))
           (<[p := inhabitant]> (values h)) (<[p := 0]> (lens h)) (p + 1)).

(** ** The operations *)

Definition Next (e : ptr) : M ptr :=
  p ← load nexts e;
  l ← load lists e;
  mret (if negb (l =? null) && negb (p =? l) then p else null).

Definition Prev (e : ptr) : M ptr :=
  p ← load prevs e;
  l ← load lists e;
  mret (if negb (l =? null) && negb (p =? l) then p else null).

Definition Init (l : ptr) : M ptr :=
  set_next l l;; set_prev l l;; set_len l 0;; mret l.

Definition NewList : M ptr := l ← newListObject; Init l.

Definition Len (l : ptr) : M Z := load lens l.

Definition Front (l : ptr) : M ptr :=
  n ← load lens l; if n =? 0 then mret null else load nexts l.

Definition Back (l : ptr) : M ptr :=
  n ← load lens l; if n =? 0 then mret null else load prevs l.

Definition lazyInit (l : ptr) : M unit :=
  n ← load nexts l; if n =? null then Init l;; mret tt else mret tt.

(** [insert] *)
Definition insertElement (l e at_ : ptr) : M ptr :=
  n ← load nexts at_;
  set_next at_ e;;
  set_prev e at_;;
  set_next e n;;
  set_prev n e;;
  set_list e l;;
  c ← load lens l;
  set_len l (c + 1);;
  mret e.

Definition insertValue (l : ptr) (v : V) (at_ : ptr) : M ptr :=
  e ← newElement v; insertElement l e at_.

(** [remove] *)
Definition removeElement (l e : ptr) : M ptr :=
  p ← load prevs e; n ← load nexts e;
  set_next p n;;
  set_prev n p;;
  set_next e null;;
  set_prev e null;;
  set_list e null;;
  c ← load lens l;
  set_len l (c - 1);;
  mret e.

Definition Remove (l e : ptr) : M V :=
  o ← load lists e;
  (if o =? l then removeElement l e;; mret tt else mret tt);;
  load values e.

Definition PushFront (l : ptr) (v : V) : M ptr := lazyInit l;; insertValue l v l.

Definition PushBack (l : ptr) (v : V) : M ptr :=
  lazyInit l;; p ← load prevs l; insertValue l v p.

Definition InsertBefore (l : ptr) (v : V) (mark : ptr) : M ptr :=
  o ← load lists mark;
  if negb (o =? l) then mret null else p ← load prevs mark; insertValue l v p.

Definition InsertAfter (l : ptr) (v : V) (mark : ptr) : M ptr :=
  o ← load lists mark;
  if negb (o =? l) then mret null else insertValue l v mark.

Definition MoveToFront (l e : ptr) : M unit :=
  o ← load lists e;
  if negb (o =? l) then mret tt
  else
    n ← load nexts l;
    if n =? e then mret tt else removeElement l e;; insertElement l e l;; mret tt.

Definition MoveToBack (l e : ptr) : M unit :=
  o ← load lists e;
  if negb (o =? l) then mret tt
  else
    p ← load prevs l;
    if p =? e then mret tt
    else removeElement l e;; p ← load prevs l; insertElement l e p;; mret tt.

(** [l.insert(l.remove(e), mark.prev)]: the call is evaluated before the field is read,
    as the Go compiler does. *)
Definition MoveBefore (l e mark : ptr) : M unit :=
  o ← load lists e;
  if negb (o =? l) || (e =? mark) then mret tt
  else
    o ← load lists mark;
    if negb (o =? l) then mret tt
    else removeElement l e;; p ← load prevs mark; insertElement l e p;; mret tt.

Definition MoveAfter (l e mark : ptr) : M unit :=
  o ← load lists e;
  if negb (o =? l) || (e =? mark) then mret tt
  else
    o ← load lists mark;
    if negb (o =? l) then mret tt
    else removeElement l e;; insertElement l e mark;; mret tt.

(** The loops count [other.Len()] down from the start, so that a list can be appended
    to itself. *)
Fixpoint pushBackLoop (i : nat) (l e : ptr) : M unit :=
  match i with
  | O => mret tt
  | S i =>
      v ← load values e;
      p ← load prevs l;
      insertValue l v p;;
      e ← Next e;
      pushBackLoop i l e
  end.

Definition PushBackList (l other : ptr) : M unit :=
  lazyInit l;;
  i ← Len other;
  e ← Front other;
  pushBackLoop (Z.to_nat i) l e.

Fixpoint pushFrontLoop (i : nat) (l e : ptr) : M unit :=
  match i with
  | O => mret tt
  | S i =>
      v ← load values e;
      insertValue l v l;;
      e ← Prev e;
      pushFrontLoop i l e
  end.

Definition PushFrontList (l other : ptr) : M unit :=
  lazyInit l;;
  i ← Len other;
  e ← Back other;
  pushFrontLoop (Z.to_nat i) l e.

(** ** The ring *)

(** Following the field [m] from [a] leads through [qs]. *)
Fixpoint path (m : gmap ptr ptr) (a : ptr) (qs : list ptr) : Prop :=
  match qs with
  | [] => True
  | q :: qs => m !! a = Some q /\ path m q qs
  end.

(** The list [l] has the elements [ps] with the values [vs]. *)
Record is_list (h : heap) (l : ptr) (ps : list ptr) (vs : list V) : Prop := {
  il_nodup : NoDup (l :: ps);
  il_next : path (nexts h) l (ps ++ [l]);
  il_prev : path (prevs h) l (rev ps ++ [l]);
  il_owner p : lists h !! p = Some l <-> p ∈ ps;
  il_root : lists h !! l = Some null;
  il_values : Forall2 (fun p v => values h !! p = Some v) ps vs;
  il_len : lens h !! l = Some (len ps);
}.

(** All fields of an object exist, the free addresses are above all objects, and a
    sentinel is in no list; the lists of elements exist. *)
Record heap_ok (h : heap) : Prop := {
  ho_next p : is_Some (nexts h !! p) <-> null < p < brk h;
  ho_prev p : is_Some (prevs h !! p) <-> null < p < brk h;
  ho_list p : is_Some (lists h !! p) <-> null < p < brk h;
  ho_value p : is_Some (values h !! p) <-> null < p < brk h;
  ho_root p : is_Some (lens h !! p) -> lists h !! p = Some null;
  ho_owner p l : lists h !! p = Some l -> null <= l < brk h;
  ho_brk : null < brk h;
}.

(** What an operation on [l] leaves alone *)
Definition frame (l : ptr) (h h' : heap) : Prop :=
  forall l' ps vs, l' <> l -> is_list h l' ps vs -> is_list h' l' ps vs.

Lemma path_app m a ps qs : path m a (ps ++ qs) <-> path m a ps /\ path m (List.last ps a) qs.
Proof.
  revert a; induction ps as [|p ps IH]; intros a; simpl; [tauto|].
  rewrite IH. change (match ps with [] => p | _ :: _ => List.last ps a end) with (List.last (p :: ps) a).
  rewrite last_cons. tauto.
Qed.

(** A path depends only on the fields of the objects it leaves. *)
Lemma path_ext m m' a ps q :
  (forall p, p ∈ a :: ps -> m' !! p = m !! p) -> path m a (ps ++ [q]) -> path m' a (ps ++ [q]).
Proof.
  revert a; induction ps as [|p ps IH]; intros a Hm; simpl.
  - rewrite (Hm a) by left. done.
  - rewrite (Hm a) by left. intros [H1 H2]. split; [done|]. apply IH; [|done].
    intros p' Hp'. apply Hm. by right.
Qed.

(** The first step of a path leads to the head of what is left. *)
Lemma path_head m a ps q : path m a (ps ++ [q]) -> m !! a = Some (hd q ps).
Proof. destruct ps; simpl; tauto. Qed.

(** The part of a path before the object where it is redirected *)
Lemma path_front m m' a ps :
  NoDup (a :: ps) -> (forall p, p ∈ a :: ps -> p <> List.last ps a -> m' !! p = m !! p) ->
  path m a ps -> path m' a ps.
Proof.
  destruct ps as [|x ps _] using rev_ind; [done|]. intros Hnd Hm. rewrite last_last in Hm.
  apply path_ext. intros p Hp.
  assert (p <> x).
  { intros ->. rewrite app_comm_cons in Hnd. apply NoDup_app in Hnd as (_ & Hd & _).
    apply (Hd x Hp). by left. }
  apply Hm; [|done]. rewrite app_comm_cons. apply elem_of_app. by left.
Qed.

Lemma path_insert m a ps qs b e :
  NoDup (a :: ps ++ qs) -> e ∉ a :: ps ++ qs -> path m a (ps ++ qs ++ [b]) ->
  path (<[e := hd b qs]> (<[List.last ps a := e]> m)) a (ps ++ e :: qs ++ [b]).
Proof.
  intros Hnd He. rewrite !(path_app _ _ ps). intros [H1 H2].
  pose proof (last_elem a ps) as Hl. rewrite app_comm_cons in Hnd, He.
  apply NoDup_app in Hnd as (Hnd & Hd & _). rewrite elem_of_app in He.
  split; [|simpl; split].
  - eapply path_front; [done| |exact H1]. intros p Hp Hp'.
    rewrite !lookup_insert_ne; [done|naive_solver..].
  - rewrite lookup_insert_ne by naive_solver. apply lookup_insert_eq.
  - destruct qs as [|q qs]; simpl in *; (split; [apply lookup_insert_eq|]); [done|].
    destruct H2 as [_ H2]. eapply path_ext; [|exact H2].
    intros p Hp. rewrite !lookup_insert_ne; [done| |naive_solver].
    intros <-. by apply (Hd (List.last ps a)).
Qed.

Lemma path_remove m a ps qs b e :
  NoDup (a :: ps ++ e :: qs) -> path m a (ps ++ e :: qs ++ [b]) ->
  path (<[e := null]> (<[List.last ps a := hd b qs]> m)) a (ps ++ qs ++ [b]).
Proof.
  intros Hnd. rewrite !(path_app _ _ ps). intros [H1 [_ H2]].
  pose proof (last_elem a ps) as Hl. rewrite app_comm_cons in Hnd.
  apply NoDup_app in Hnd as (Hnd & Hd & [He _]%NoDup_cons).
  assert (e ∉ a :: ps) as He' by (intros Hx; apply (Hd e Hx); left).
  split.
  - eapply path_front; [done| |exact H1]. intros p Hp Hp'.
    rewrite !lookup_insert_ne; [done|naive_solver..].
  - destruct qs as [|q qs]; simpl in *.
    + rewrite lookup_insert_ne by naive_solver. by rewrite lookup_insert_eq.
    + split; [rewrite lookup_insert_ne by naive_solver; apply lookup_insert_eq|].
      destruct H2 as [_ H2]. eapply path_ext; [|exact H2]. intros p Hp.
      rewrite !lookup_insert_ne; [done| |naive_solver].
      intros <-. apply (Hd (List.last ps a)); [done|]. by right.
Qed.

(** ** Inserting and removing an element *)

Lemma load_bind {A B} (field : heap -> gmap ptr A) p x (k : A -> M B) h :
  field h !! p = Some x -> (load field p ≫= k) h = k x h.
Proof. intros Hx. unfold mbind, M_bind, load. by rewrite Hx. Qed.

Lemma set_next_bind {B} p q (k : unit -> M B) h : is_Some (nexts h !! p) ->
  (set_next p q ≫= k) h
  = k tt (mkHeap (<[p := q]> (nexts h)) (prevs h) (lists h) (values h) (lens h) (brk h)).
Proof. intros [x Hx]. unfold mbind, M_bind, set_next. by rewrite Hx. Qed.

Lemma set_prev_bind {B} p q (k : unit -> M B) h : is_Some (prevs h !! p) ->
  (set_prev p q ≫= k) h
  = k tt (mkHeap (nexts h) (<[p := q]> (prevs h)) (lists h) (values h) (lens h) (brk h)).
Proof. intros [x Hx]. unfold mbind, M_bind, set_prev. by rewrite Hx. Qed.

Lemma set_list_bind {B} p q (k : unit -> M B) h : is_Some (lists h !! p) ->
  (set_list p q ≫= k) h
  = k tt (mkHeap (nexts h) (prevs h) (<[p := q]> (lists h)) (values h) (lens h) (brk h)).
Proof. intros [x Hx]. unfold mbind, M_bind, set_list. by rewrite Hx. Qed.

Lemma set_len_bind {B} p n (k : unit -> M B) h : is_Some (lens h !! p) ->
  (set_len p n ≫= k) h
  = k tt (mkHeap (nexts h) (prevs h) (lists h) (values h) (<[p := n]> (lens h)) (brk h)).
Proof. intros [x Hx]. unfold mbind, M_bind, set_len. by rewrite Hx. Qed.

Lemma bind_ok {A B} (m : M A) (k : A -> M B) h a h' :
  m h = Ok (a, h') -> (m ≫= k) h = k a h'.
Proof. intros Hm. unfold mbind, M_bind. by rewrite Hm. Qed.

(** One step of a straight-line operation *)
Ltac heap_step :=
  first
    [ rewrite set_next_bind by (cbn [nexts]; solve [rewrite ?lookup_insert_is_Some'; eauto])
    | rewrite set_prev_bind by (cbn [prevs]; solve [rewrite ?lookup_insert_is_Some'; eauto])
    | rewrite set_list_bind by (cbn [lists]; solve [rewrite ?lookup_insert_is_Some'; eauto])
    | rewrite set_len_bind by (cbn [lens]; solve [eauto])
    | erewrite load_bind by (cbn [nexts prevs lists lens values]; eassumption) ];
  cbn [nexts prevs lists values lens brk].

(** An element that is in no list *)
Definition detached (h : heap) (e : ptr) : Prop := lists h !! e = Some null /\ lens h !! e = None.

Lemma is_list_live h l ps vs p :
  heap_ok h -> is_list h l ps vs -> p ∈ l :: ps -> null < p < brk h.
Proof.
  intros Hh Hl Hp. apply (ho_list _ Hh). apply elem_of_cons in Hp as [->|Hp].
  - rewrite (il_root _ _ _ _ Hl). eauto.
  - apply (il_owner _ _ _ _ Hl) in Hp. eauto.
Qed.

Lemma detached_not_in h l ps vs e :
  heap_ok h -> is_list h l ps vs -> detached h e -> e ∉ l :: ps.
Proof.
  intros Hh Hl [H1 H2] He. pose proof (is_list_live _ _ _ _ l Hh Hl ltac:(left)).
  apply elem_of_cons in He as [->|He].
  - by rewrite (il_len _ _ _ _ Hl) in H2.
  - apply (il_owner _ _ _ _ Hl) in He. rewrite He in H1. injection H1 as ->. lia.
Qed.

(** Two lists have no object in common. *)
Lemma is_list_disjoint h l ps vs l' ps' vs' p :
  heap_ok h -> is_list h l ps vs -> is_list h l' ps' vs' -> l' <> l ->
  p ∈ l :: ps -> p ∉ l' :: ps'.
Proof.
  intros Hh Hl Hl' Hne Hp Hp'.
  pose proof (is_list_live _ _ _ _ l Hh Hl ltac:(left)).
  pose proof (is_list_live _ _ _ _ l' Hh Hl' ltac:(left)).
  pose proof (il_root _ _ _ _ Hl). pose proof (il_root _ _ _ _ Hl').
  apply elem_of_cons in Hp as [->|Hp], Hp' as [->|Hp']; [done| | |].
  all: try apply (il_owner _ _ _ _ Hl) in Hp; try apply (il_owner _ _ _ _ Hl') in Hp';
    simplify_eq; lia.
Qed.

Lemma values_ext (m m' : gmap ptr V) ps vs :
  (forall p, p ∈ ps -> m' !! p = m !! p) ->
  Forall2 (fun p v => m !! p = Some v) ps vs -> Forall2 (fun p v => m' !! p = Some v) ps vs.
Proof.
  intros Hm Hv. induction Hv as [|p v ps vs Hp Hv IH]; constructor.
  - rewrite Hm; [done|left].
  - apply IH. intros q Hq. apply Hm. by right.
Qed.

(** An operation on [l] that only touches [l], its elements, detached elements and new
    objects, and leaves these in [l] or detached, does not affect another list. *)
Definition touched (h : heap) (l : ptr) (ps : list ptr) (p : ptr) : Prop :=
  p ∈ l :: ps \/ detached h p \/ ~ null < p < brk h.

Lemma frame_intro h h' l ps vs :
  heap_ok h -> is_list h l ps vs ->
  (forall p, ~ touched h l ps p ->
    nexts h' !! p = nexts h !! p /\ prevs h' !! p = prevs h !! p /\
    lists h' !! p = lists h !! p /\ values h' !! p = values h !! p /\
    lens h' !! p = lens h !! p) ->
  (forall p o, touched h l ps p -> lists h' !! p = Some o -> o = l \/ o = null) ->
  frame l h h'.
Proof.
  intros Hh Hl Hsame Htouch l' qs ws Hne Hl'.
  assert (forall p, p ∈ l' :: qs -> ~ touched h l ps p) as Hout.
  { intros p Hp [Hp'|[Hp'|Hp']].
    - by eapply (is_list_disjoint h l ps vs l' qs ws p).
    - by eapply (detached_not_in h l' qs ws p).
    - by eapply Hp', is_list_live. }
  pose proof (is_list_live _ _ _ _ l' Hh Hl' ltac:(left)) as Hlive.
  split.
  - apply Hl'.
  - eapply path_ext; [|apply Hl']. intros p Hp. apply Hsame. by apply Hout.
  - eapply path_ext; [|apply Hl']. intros p Hp. apply Hsame, Hout.
    rewrite elem_of_cons in *. rewrite elem_of_rev in Hp. done.
  - intros p. split; intros Hp.
    + apply (il_owner _ _ _ _ Hl'). destruct (decide (p ∈ l :: ps)) as [Hd|Hd].
      { destruct (Htouch p l') as [?|?]; [by left|done|done|lia]. }
      destruct (decide (lists h !! p = Some null /\ lens h !! p = None)) as [Hd2|Hd2].
      { destruct (Htouch p l') as [?|?]; [by right; left|done|done|lia]. }
      destruct (decide (null < p < brk h)) as [Hd3|Hd3].
      2: { destruct (Htouch p l') as [?|?]; [by right; right|done|done|lia]. }
      destruct (Hsame p) as (_ & _ & <- & _); [|done]. unfold touched, detached. tauto.
    + destruct (Hsame p) as (_ & _ & -> & _); [apply Hout; by right|]. by apply Hl'.
  - destruct (Hsame l') as (_ & _ & -> & _); [apply Hout; left|]. apply Hl'.
  - eapply values_ext; [|apply Hl']. intros p Hp. apply Hsame, Hout. by right.
  - destruct (Hsame l') as (_ & _ & _ & _ & ->); [apply Hout; left|]. apply Hl'.
Qed.

Lemma insert_dom {A} (m : gmap ptr A) p x k :
  is_Some (m !! p) -> is_Some (<[p := x]> m !! k) <-> is_Some (m !! k).
Proof. intros Hp. rewrite lookup_insert_is_Some. destruct (decide (p = k)) as [<-|]; tauto. Qed.

Lemma heap_ok_update h p1 q1 p2 q2 p3 q3 p4 q4 p5 q5 n :
  heap_ok h -> Forall (fun p => null < p < brk h) [p1; p2; p3; p4; p5] ->
  (forall p, is_Some (n !! p) -> <[p5 := q5]> (lists h) !! p = Some null) ->
  null <= q5 < brk h ->
  heap_ok (mkHeap (<[p1 := q1]> (<[p2 := q2]> (nexts h))) (<[p3 := q3]> (<[p4 := q4]> (prevs h)))
             (<[p5 := q5]> (lists h)) (values h) n (brk h)).
Proof.
  intros [Hn Hp Hl Hv Hr Ho Hb] Hlive Hroot Hq. rewrite !Forall_cons in Hlive.
  destruct Hlive as (H1 & H2 & H3 & H4 & H5 & _).
  assert (forall (m : gmap ptr ptr) a b k q r,
    (forall p, is_Some (m !! p) <-> null < p < brk h) -> null < a < brk h -> null < b < brk h ->
    is_Some (<[a := q]> (<[b := r]> m) !! k) <-> null < k < brk h) as Hup.
  { intros m a b k q r Hm Ha Hb'. rewrite !insert_dom; rewrite ?insert_dom; by rewrite ?Hm. }
  split; cbn; [intros p; by apply Hup|intros p; by apply Hup| |done|done| |done].
  - intros p. rewrite insert_dom; by rewrite Hl.
  - intros p l. rewrite lookup_insert. case_decide; [naive_solver|apply Ho].
Qed.

Lemma hd_rev (d : ptr) ps : hd d (rev ps) = List.last ps d.
Proof.
  induction ps as [|p ps IH] using rev_ind; [done|]. by rewrite rev_unit, last_last.
Qed.
Lemma last_rev (d : ptr) ps : List.last (rev ps) d = hd d ps.
Proof. by rewrite <- hd_rev, rev_involutive. Qed.

Lemma NoDup_rev (l : ptr) ps : NoDup (l :: ps) -> NoDup (l :: rev ps).
Proof. by rewrite <- Permutation_rev. Qed.

(** The objects on both sides of a position, and the links between them *)
Lemma neighbours h l ps qs vs :
  heap_ok h -> is_list h l (ps ++ qs) vs ->
  List.last ps l ∈ l :: ps ++ qs /\ hd l qs ∈ l :: ps ++ qs /\
  nexts h !! List.last ps l = Some (hd l qs) /\ prevs h !! hd l qs = Some (List.last ps l).
Proof.
  intros Hh Hl. split_and!.
  - rewrite app_comm_cons. apply elem_of_app. left. apply last_elem.
  - destruct qs as [|q qs]; simpl; [by left|]. right. apply elem_of_app. right. by left.
  - pose proof (il_next _ _ _ _ Hl) as Hp. rewrite <- app_assoc in Hp.
    apply path_app in Hp as [_ Hp]. by apply path_head in Hp.
  - pose proof (il_prev _ _ _ _ Hl) as Hp. rewrite rev_app_distr, <- app_assoc in Hp.
    apply path_app in Hp as [_ Hp]. apply path_head in Hp. by rewrite hd_rev, last_rev in Hp.
Qed.

Lemma touched_owner h l ps vs p o :
  heap_ok h -> is_list h l ps vs -> touched h l ps p -> lists h !! p = Some o -> o = l \/ o = null.
Proof.
  intros Hh Hl [[->|Hp]%elem_of_cons|[[Hp _]|Hp]] Ho.
  - rewrite (il_root _ _ _ _ Hl) in Ho. naive_solver.
  - apply (il_owner _ _ _ _ Hl) in Hp. naive_solver.
  - naive_solver.
  - exfalso. apply Hp, (ho_list _ Hh). eauto.
Qed.

Lemma insertElement_spec h l ps qs vs ws e v :
  heap_ok h -> is_list h l (ps ++ qs) (vs ++ ws) -> length ps = length vs ->
  detached h e -> values h !! e = Some v ->
  let h' := mkHeap (<[e := hd l qs]> (<[List.last ps l := e]> (nexts h)))
              (<[hd l qs := e]> (<[e := List.last ps l]> (prevs h)))
              (<[e := l]> (lists h)) (values h) (<[l := len (ps ++ qs) + 1]> (lens h)) (brk h) in
  insertElement l e (List.last ps l) h = Ok (e, h') /\
  heap_ok h' /\ is_list h' l (ps ++ e :: qs) (vs ++ v :: ws) /\ frame l h h'.
Proof.
  intros Hh Hl Hlen He Hv h'. subst h'.
  pose proof (detached_not_in _ _ _ _ _ Hh Hl He) as Hout.
  destruct (neighbours _ _ _ _ _ Hh Hl) as (Hat & Hn & Hnext & Hprev).
  assert (null < e < brk h) as He' by (apply (ho_list _ Hh); destruct He; eauto).
  assert (forall p, p ∈ l :: ps ++ qs -> null < p < brk h) as Hlive
    by (intros p Hp; by apply (is_list_live _ _ _ _ p Hh Hl)).
  pose proof (il_len _ _ _ _ Hl) as Hlens.
  split; [|split; [|split]].
  - assert (is_Some (nexts h !! e)) by (by rewrite (ho_next _ Hh)).
    assert (is_Some (prevs h !! e)) by (by rewrite (ho_prev _ Hh)).
    destruct He as [? _]. unfold insertElement. by repeat heap_step.
  - apply heap_ok_update; [done| | |]. { rewrite !Forall_cons, Forall_nil.
    pose proof (Hlive _ Hat). pose proof (Hlive _ Hn). tauto. }
    { intros p. rewrite (insert_dom _ l) by eauto. intros Hp. rewrite lookup_insert_ne.
      { by apply (ho_root _ Hh). } destruct He as [_ He]. intros <-. rewrite He in Hp. by destruct Hp. }
    pose proof (Hlive l ltac:(left)). lia.
  - destruct Hl as [Hnd Hnx Hpv Hown Hroot Hvals _].
    split; cbn [nexts prevs lists values lens].
    + rewrite <- Permutation_middle, Permutation_swap. by apply NoDup_cons.
    + rewrite <- app_assoc. simpl. apply path_insert; [done|done|]. by rewrite app_assoc.
    + rewrite insert_insert_ne by (intros E; by rewrite E in Hn).
      rewrite <- (hd_rev l ps), <- (last_rev l qs), rev_app_distr. simpl. rewrite <- !app_assoc.
      rewrite rev_app_distr, <- app_assoc in Hpv. apply path_insert; [| |done].
      * rewrite <- rev_app_distr. by apply NoDup_rev.
      * by rewrite elem_of_cons, <- rev_app_distr, elem_of_rev, <- elem_of_cons.
    + intros p. rewrite lookup_insert. case_decide as Hp.
      * subst p. split; [|done]. intros _. apply elem_of_app. right. left.
      * rewrite Hown, !elem_of_app, elem_of_cons. naive_solver.
    + rewrite lookup_insert_ne; [done|]. intros ->. apply Hout. left.
    + apply Forall2_app_inv in Hvals as [H3 H4]; [|done]. apply Forall2_app; [done|].
      by constructor.
    + rewrite lookup_insert_eq. f_equal. autorewrite with quic_len. lia.
  - eapply frame_intro; [done|done| |]; cbn [nexts prevs lists values lens].
    + intros p Hp. unfold touched in Hp.
      assert (e <> p) by (intros ->; tauto). assert (l <> p) by (intros ->; apply Hp; left; left).
      split_and!; rewrite ?lookup_insert_ne; try done; intros <-; tauto.
    + intros p o Hp. rewrite lookup_insert. case_decide; [naive_solver|]. by apply (touched_owner h l _ _ p o Hh Hl).
Qed.

Lemma removeElement_spec h l ps qs vs ws e v :
  heap_ok h -> is_list h l (ps ++ e :: qs) (vs ++ v :: ws) -> length ps = length vs ->
  let h' := mkHeap (<[e := null]> (<[List.last ps l := hd l qs]> (nexts h)))
              (<[e := null]> (<[hd l qs := List.last ps l]> (prevs h)))
              (<[e := null]> (lists h)) (values h) (<[l := len (ps ++ e :: qs) - 1]> (lens h)) (brk h) in
  removeElement l e h = Ok (e, h') /\
  heap_ok h' /\ is_list h' l (ps ++ qs) (vs ++ ws) /\ frame l h h' /\ detached h' e.
Proof.
  intros Hh Hl Hlen h'. subst h'.
  destruct (neighbours _ _ _ _ _ Hh Hl) as (Hat & He & _ & Hprev). cbn [hd] in He, Hprev.
  pose proof Hl as Hl2. rewrite cons_middle, app_assoc in Hl2.
  destruct (neighbours _ _ _ _ _ Hh Hl2) as (_ & Hn & Hnext & Hprev2).
  rewrite last_last in Hnext, Hprev2. rewrite <- app_assoc in Hn. cbn [app] in Hn.
  assert (forall p, p ∈ l :: ps ++ e :: qs -> null < p < brk h) as Hlive
    by (intros p Hp; by apply (is_list_live _ _ _ _ p Hh Hl)).
  pose proof (il_len _ _ _ _ Hl) as Hlens.
  pose proof Hl as [Hnd Hnx Hpv Hown Hroot Hvals _].
  split; [|split; [|split; [|split]]].
  - assert (is_Some (nexts h !! List.last ps l)) by (rewrite (ho_next _ Hh); auto).
    assert (is_Some (lists h !! e)) by (rewrite (ho_list _ Hh); auto).
    unfold removeElement. by repeat heap_step.
  - apply heap_ok_update; [done| | |]. { rewrite !Forall_cons, Forall_nil.
    pose proof (Hlive _ Hat). pose proof (Hlive _ Hn). pose proof (Hlive _ He). tauto. }
    { intros p. rewrite (insert_dom _ l) by eauto. intros Hp%(ho_root _ Hh). rewrite lookup_insert.
      by case_decide. }
    pose proof (ho_brk _ Hh). lia.
  - assert ((e ∉ l :: ps ++ qs) /\ NoDup (l :: ps ++ qs)) as [Hout Hnd'].
    { rewrite <- Permutation_middle, Permutation_swap in Hnd. by apply NoDup_cons in Hnd. }
    split; cbn [nexts prevs lists values lens].
    + done.
    + rewrite <- app_assoc. apply path_remove; [done|]. by rewrite <- app_assoc in Hnx.
    + rewrite rev_app_distr in Hpv |- *. simpl in Hpv. rewrite <- !app_assoc in *. simpl in Hpv.
      rewrite <- (hd_rev l ps), <- (last_rev l qs). apply path_remove; [|done].
      replace (rev qs ++ e :: rev ps) with (rev (ps ++ e :: qs)); [by apply NoDup_rev|].
      rewrite rev_app_distr. simpl. by rewrite <- app_assoc.
    + intros p. rewrite lookup_insert. case_decide as Hp.
      * subst p. pose proof (Hlive l ltac:(left)). split; [intros E; injection E; lia|].
        intros Hp. exfalso. apply Hout. by right.
      * rewrite Hown, !elem_of_app, elem_of_cons. naive_solver.
    + rewrite lookup_insert_ne; [done|]. intros ->. apply Hout. left.
    + apply Forall2_app_inv in Hvals as [H3 H4]; [|done]. inversion H4; subst.
      by apply Forall2_app.
    + rewrite lookup_insert_eq. f_equal. autorewrite with quic_len. lia.
  - eapply frame_intro; [done|exact Hl| |]; cbn [nexts prevs lists values lens].
    + intros p Hp. unfold touched in Hp.
      assert (l <> p) by (intros ->; apply Hp; left; left).
      split_and!; rewrite ?lookup_insert_ne; try done; intros <-; tauto.
    + intros p o Hp. rewrite lookup_insert. case_decide; [naive_solver|]. by apply (touched_owner h l _ _ p o Hh Hl).
  - assert (lists h !! e = Some l) as Ho by (apply Hown, elem_of_app; right; left).
    pose proof (Hlive l ltac:(left)) as Hpos.
    split; cbn; [apply lookup_insert_eq|]. rewrite lookup_insert_ne.
    2: { intros ->. rewrite Hroot in Ho. injection Ho; lia. }
    destruct (lens h !! e) eqn:E; [|done].
    rewrite (ho_root _ Hh) in Ho by (rewrite E; eauto). injection Ho as <-. lia.
Qed.

(** ** What each operation does to its list *)

(** [m] returns [r], leaves [l] with the elements [ps] and values [vs], and every other
    list as it was. *)
Definition yields {A} (m : M A) (h : heap) (l : ptr) (r : A) (b : ptr) (ps : list ptr) (vs : list V)
    : Prop :=
  exists h', m h = Ok (r, h') /\ heap_ok h' /\ is_list h' l ps vs /\ frame l h h' /\ brk h' = b.

Lemma frame_refl l h : frame l h h.
Proof. by intros l' ps vs _ Hl. Qed.
Lemma frame_trans l h1 h2 h3 : frame l h1 h2 -> frame l h2 h3 -> frame l h1 h3.
Proof. intros H1 H2 l' ps vs Hne Hl. by apply H2, H1. Qed.

Lemma yields_ret {A} (r : A) h l ps vs :
  heap_ok h -> is_list h l ps vs -> yields (mret r) h l r (brk h) ps vs.
Proof. intros Hh Hl. exists h. split_and!; try done. apply frame_refl. Qed.

Lemma yields_bind {A B} (m : M A) (k : A -> M B) h l a b1 ps1 vs1 r b ps vs :
  yields m h l a b1 ps1 vs1 ->
  (forall h', heap_ok h' -> is_list h' l ps1 vs1 -> brk h' = b1 -> yields (k a) h' l r b ps vs) ->
  yields (m ≫= k) h l r b ps vs.
Proof.
  intros (h1 & Hm & Hh1 & Hl1 & Hf1 & Hb1) Hk.
  destruct (Hk h1 Hh1 Hl1 Hb1) as (h2 & Hm2 & Hh2 & Hl2 & Hf2 & Hb2).
  exists h2. rewrite (bind_ok _ _ _ _ _ Hm). split_and!; try done. by eapply frame_trans.
Qed.

Lemma yields_load {A B} (field : heap -> gmap ptr A) p x (k : A -> M B) h l r b ps vs :
  field h !! p = Some x -> yields (k x) h l r b ps vs -> yields (load field p ≫= k) h l r b ps vs.
Proof. intros Hx (h' & Hk). exists h'. by rewrite (load_bind _ _ _ _ _ Hx). Qed.

Lemma yields_read {A B} (m : M A) x (k : A -> M B) h l r b ps vs :
  m h = Ok (x, h) -> yields (k x) h l r b ps vs -> yields (m ≫= k) h l r b ps vs.
Proof. intros Hx (h' & Hk). exists h'. by rewrite (bind_ok _ _ _ _ _ Hx). Qed.

(** A new object does not touch the lists. *)
Lemma heap_ok_alloc h v n :
  heap_ok h -> (forall p, is_Some (n !! p) -> is_Some (lens h !! p) \/ p = brk h) ->
  let p := brk h in
  heap_ok (mkHeap (<[p := null]> (nexts h)) (<[p := null]> (prevs h)) (<[p := null]> (lists h))
             (<[p := v]> (values h)) n (p + 1)).
Proof.
  intros [Hn Hp Hl Hv Hr Ho Hb] Hlens p. split; cbn.
  1-4: intros k; rewrite lookup_insert_is_Some', ?Hn, ?Hp, ?Hl, ?Hv; unfold null in *; lia.
  - intros k Hk. rewrite lookup_insert. case_decide; [done|]. apply Hr.
    destruct (Hlens k Hk); [done|]. subst. done.
  - intros k l. rewrite lookup_insert. case_decide.
    + intros [= <-]. unfold null in *. lia.
    + intros Hk%Ho. subst p. lia.
  - unfold null in *. lia.
Qed.

Lemma is_list_alloc h v n l ps vs :
  heap_ok h -> is_list h l ps vs ->
  (forall p, p <> brk h -> n !! p = lens h !! p) ->
  let p := brk h in
  is_list (mkHeap (<[p := null]> (nexts h)) (<[p := null]> (prevs h)) (<[p := null]> (lists h))
             (<[p := v]> (values h)) n (p + 1)) l ps vs.
Proof.
  intros Hh Hl Hn p. assert (forall q, q ∈ l :: ps -> p <> q) as Hp.
  { intros q Hq. pose proof (is_list_live _ _ _ _ _ Hh Hl Hq). subst p. lia. }
  pose proof (is_list_live _ _ _ _ l Hh Hl ltac:(left)) as Hlive.
  destruct Hl as [Hnd Hnx Hpv Hown Hroot Hvals Hlen].
  split; cbn [nexts prevs lists values lens]; [done| | | | | |].
  - eapply path_ext; [|done]. intros q Hq. apply lookup_insert_ne. auto.
  - eapply path_ext; [|done]. intros q Hq. apply lookup_insert_ne, Hp.
    by rewrite elem_of_cons, elem_of_rev, <- elem_of_cons in Hq.
  - intros q. rewrite lookup_insert. case_decide as Hq; [|done]. subst q. split.
    + intros E. injection E. lia.
    + intros Hin. exfalso. apply (Hp p); [by right|done].
  - rewrite lookup_insert_ne; [done|]. apply Hp. left.
  - eapply values_ext; [|done]. intros q Hq. apply lookup_insert_ne, Hp. by right.
  - rewrite Hn; [done|]. apply not_eq_sym, Hp. left.
Qed.

Lemma insertValue_spec h l ps qs vs ws v :
  heap_ok h -> is_list h l (ps ++ qs) (vs ++ ws) -> length ps = length vs ->
  yields (insertValue l v (List.last ps l)) h l (brk h) (brk h + 1)
    (ps ++ brk h :: qs) (vs ++ v :: ws).
Proof.
  intros Hh Hl Hlen. pose proof (ho_brk _ Hh) as Hb.
  assert (lens h !! brk h = None) as Hnone.
  { destruct (lens h !! brk h) eqn:E; [|done].
    assert (is_Some (lists h !! brk h)) as Hx by (rewrite (ho_root _ Hh); eauto).
    apply (ho_list _ Hh) in Hx. lia. }
  pose proof (heap_ok_alloc h v (lens h) Hh ltac:(auto)) as Hh1.
  pose proof (is_list_alloc h v (lens h) l _ _ Hh Hl ltac:(auto)) as Hl1.
  cbv zeta in Hh1, Hl1. match type of Hh1 with heap_ok ?x => set (h1 := x) in * end.
  assert (newElement v h = Ok (brk h, h1)) as Hnew by done.
  destruct (insertElement_spec h1 l ps qs vs ws (brk h) v Hh1 Hl1 Hlen) as (Hi & Hh2 & Hl2 & Hf).
  - split; [|done]. apply lookup_insert_eq.
  - apply lookup_insert_eq.
  - unfold insertValue, yields. rewrite (bind_ok _ _ _ _ _ Hnew), Hi.
    eexists. split_and!; [reflexivity|done|done| |done].
    intros l' ps' vs' Hne Hl'. apply Hf; [done|]. by apply is_list_alloc.
Qed.

(** The sentinel of a list that has been initialised is linked. *)
Lemma lazyInit_noop h l ps vs :
  heap_ok h -> is_list h l ps vs -> lazyInit l h = Ok (tt, h).
Proof.
  intros Hh Hl. destruct (neighbours h l [] ps vs Hh Hl) as (_ & Hn & Hnext & _). cbn [List.last] in *.
  unfold lazyInit. rewrite (load_bind _ _ _ _ _ Hnext).
  pose proof (is_list_live _ _ _ _ _ Hh Hl Hn) as Hlive.
  destruct (hd l ps =? null) eqn:E; [|done]. to_prop. lia.
Qed.

Lemma PushFront_spec h l ps vs v :
  heap_ok h -> is_list h l ps vs ->
  yields (PushFront l v) h l (brk h) (brk h + 1) (brk h :: ps) (v :: vs).
Proof.
  intros Hh Hl. unfold PushFront, yields. rewrite (bind_ok _ _ _ _ _ (lazyInit_noop _ _ _ _ Hh Hl)).
  by apply (insertValue_spec h l [] ps [] vs).
Qed.

Lemma PushBack_spec h l ps vs v :
  heap_ok h -> is_list h l ps vs ->
  yields (PushBack l v) h l (brk h) (brk h + 1) (ps ++ [brk h]) (vs ++ [v]).
Proof.
  intros Hh Hl. unfold PushBack, yields. rewrite (bind_ok _ _ _ _ _ (lazyInit_noop _ _ _ _ Hh Hl)).
  rewrite <- (app_nil_r ps), <- (app_nil_r vs) in Hl.
  destruct (neighbours h l ps [] _ Hh Hl) as (_ & _ & _ & Hprev). cbn [hd] in Hprev.
  rewrite (load_bind _ _ _ _ _ Hprev).
  apply (insertValue_spec h l ps [] vs []); [done..|].
  pose proof (Forall2_length _ _ _ (il_values _ _ _ _ Hl)) as Hlen. by rewrite !app_nil_r in Hlen.
Qed.

Lemma owner_eq h l ps vs e :
  is_list h l ps vs -> is_Some (lists h !! e) ->
  exists o, lists h !! e = Some o /\ (o = l <-> e ∈ ps).
Proof.
  intros Hl [o Ho]. exists o. split; [done|]. rewrite <- (il_owner _ _ _ _ Hl). rewrite Ho.
  split; [by intros ->|by intros [= ->]].
Qed.

(** ** The same operations on a list of elements with their values *)

Fixpoint insert_before (mark : ptr) (x : ptr * V) (els : list (ptr * V)) : list (ptr * V) :=
  match els with
  | [] => []
  | y :: els => if y.1 =? mark then x :: y :: els else y :: insert_before mark x els
  end.
Fixpoint insert_after (mark : ptr) (x : ptr * V) (els : list (ptr * V)) : list (ptr * V) :=
  match els with
  | [] => []
  | y :: els => if y.1 =? mark then y :: x :: els else y :: insert_after mark x els
  end.
Fixpoint remove_el (e : ptr) (els : list (ptr * V)) : list (ptr * V) :=
  match els with
  | [] => []
  | y :: els => if y.1 =? e then els else y :: remove_el e els
  end.
Fixpoint value_of (e : ptr) (els : list (ptr * V)) : option V :=
  match els with
  | [] => None
  | y :: els => if y.1 =? e then Some y.2 else value_of e els
  end.

(** Takes [e] out of the list and puts it back with [place]. *)
Definition move_el (e : ptr) (place : ptr * V -> list (ptr * V) -> list (ptr * V))
    (els : list (ptr * V)) : list (ptr * V) :=
  match value_of e els with
  | Some v => place (e, v) (remove_el e els)
  | None => els
  end.

Definition has_els (h : heap) (l : ptr) (els : list (ptr * V)) : Prop := is_list h l els.*1 els.*2.

Lemma skip_front (f : list (ptr * V) -> list (ptr * V)) A B :
  (forall y els, y ∈ A -> f (y :: els) = y :: f els) -> f (A ++ B) = A ++ f B.
Proof.
  induction A as [|y A IH]; intros Hf; [done|]. simpl. rewrite Hf by left. f_equal.
  apply IH. intros z els Hz. apply Hf. by right.
Qed.

Lemma fst_ne A (e : ptr) : e ∉ A.*1 -> forall y : ptr * V, y ∈ A -> (y.1 =? e) = false.
Proof.
  intros He y Hy. apply Z.eqb_neq. intros <-. apply He. apply list_elem_of_fmap. eauto.
Qed.

Lemma insert_before_split A B e v x :
  e ∉ A.*1 -> insert_before e x (A ++ (e, v) :: B) = A ++ x :: (e, v) :: B.
Proof.
  intros He. rewrite (skip_front (insert_before e x)).
  - simpl. by rewrite Z.eqb_refl.
  - intros y els Hy. simpl. by rewrite (fst_ne A).
Qed.
Lemma insert_after_split A B e v x :
  e ∉ A.*1 -> insert_after e x (A ++ (e, v) :: B) = A ++ (e, v) :: x :: B.
Proof.
  intros He. rewrite (skip_front (insert_after e x)).
  - simpl. by rewrite Z.eqb_refl.
  - intros y els Hy. simpl. by rewrite (fst_ne A).
Qed.
Lemma remove_el_split A B e v : e ∉ A.*1 -> remove_el e (A ++ (e, v) :: B) = A ++ B.
Proof.
  intros He. rewrite (skip_front (remove_el e)).
  - simpl. by rewrite Z.eqb_refl.
  - intros y els Hy. simpl. by rewrite (fst_ne A).
Qed.
Lemma value_of_split A B e v : e ∉ A.*1 -> value_of e (A ++ (e, v) :: B) = Some v.
Proof.
  intros He. induction A as [|y A IH]; simpl; [by rewrite Z.eqb_refl|].
  simpl in He. apply not_elem_of_cons in He as [H1 H2]. rewrite (proj2 (Z.eqb_neq _ _)) by done. auto.
Qed.

Lemma not_in_els e els :
  e ∉ els.*1 -> forall x, insert_before e x els = els /\ insert_after e x els = els
                          /\ remove_el e els = els /\ value_of e els = None.
Proof.
  intros He x. induction els as [|y els IH]; [done|]. simpl in *.
  apply not_elem_of_cons in He as [H1 H2]. rewrite (proj2 (Z.eqb_neq _ _)) by done.
  destruct (IH H2) as (-> & -> & -> & ->). done.
Qed.

(** An element of the list, with what is before and after it *)
Lemma has_els_split h l els e :
  has_els h l els -> e ∈ els.*1 ->
  exists A v B, els = A ++ (e, v) :: B /\ (e ∉ A.*1) /\ (e ∉ B.*1).
Proof.
  intros Hl ([e' v] & -> & (A & B & ->)%list_elem_of_split)%list_elem_of_fmap. cbn [fst].
  exists A, v, B. split; [done|]. pose proof (il_nodup _ _ _ _ Hl) as Hnd.
  rewrite fmap_app in Hnd. apply NoDup_cons in Hnd as [_ Hnd].
  apply NoDup_app in Hnd as (_ & Hd & Hnd). simpl in *. apply NoDup_cons in Hnd as [Hnd _].
  split; [|done]. intros He. apply (Hd _ He). left.
Qed.

Definition gives {A} (m : M A) (h : heap) (l : ptr) (r : A) (b : ptr) (els : list (ptr * V)) : Prop :=
  yields m h l r b els.*1 els.*2.

Lemma insertValue_els h l A B v :
  heap_ok h -> has_els h l (A ++ B) ->
  gives (insertValue l v (List.last A.*1 l)) h l (brk h) (brk h + 1) (A ++ (brk h, v) :: B).
Proof.
  intros Hh Hl. unfold gives, has_els in *. rewrite !fmap_app in *. simpl.
  apply insertValue_spec; [done|done|]. by rewrite !length_fmap.
Qed.

(** Taking [e] out leaves it detached, with its value. *)
Lemma removeElement_els h l A e v B :
  heap_ok h -> has_els h l (A ++ (e, v) :: B) ->
  exists h', removeElement l e h = Ok (e, h') /\ heap_ok h' /\ has_els h' l (A ++ B) /\
    frame l h h' /\ detached h' e /\ values h' = values h /\ brk h' = brk h /\
    values h !! e = Some v.
Proof.
  intros Hh Hl. unfold has_els in *. rewrite !fmap_app in *. simpl in Hl.
  destruct (removeElement_spec h l _ _ _ _ e v Hh Hl) as (Hr & Hh' & Hl' & Hf & Hd);
    [by rewrite !length_fmap|].
  eexists. split_and!; [exact Hr|done|done|done|done|done|done|].
  pose proof (il_values _ _ _ _ Hl) as Hv. apply Forall2_app_inv in Hv as [_ Hv];
    [by inversion Hv|by rewrite !length_fmap].
Qed.

Lemma insertElement_els h l A B e v :
  heap_ok h -> has_els h l (A ++ B) -> detached h e -> values h !! e = Some v ->
  gives (insertElement l e (List.last A.*1 l)) h l e (brk h) (A ++ (e, v) :: B).
Proof.
  intros Hh Hl Hd Hv. unfold gives, has_els in *. rewrite !fmap_app in *. simpl.
  destruct (insertElement_spec h l _ _ _ _ e v Hh Hl) as (Hr & Hh' & Hl' & Hf);
    [by rewrite !length_fmap|done|done|].
  eexists. split_and!; [exact Hr|done..].
Qed.

(** [l.insert(l.remove(e), at)], where [at] is read after the removal *)
Lemma reinsert_els h l A e v B C D (at_ : M ptr) :
  heap_ok h -> has_els h l (A ++ (e, v) :: B) -> A ++ B = C ++ D ->
  (forall h', heap_ok h' -> has_els h' l (C ++ D) -> at_ h' = Ok (List.last C.*1 l, h')) ->
  gives (removeElement l e;; p ← at_; insertElement l e p;; mret tt) h l tt (brk h)
    (C ++ (e, v) :: D).
Proof.
  intros Hh Hl Heq Hat.
  destruct (removeElement_els _ _ _ _ _ _ Hh Hl) as (h1 & Hr & Hh1 & Hl1 & Hf1 & Hd1 & Hv1 & Hb1 & Hv).
  rewrite Heq in Hl1. rewrite <- Hv1 in Hv.
  destruct (insertElement_els _ _ _ _ _ _ Hh1 Hl1 Hd1 Hv) as (h2 & Hi & Hh2 & Hl2 & Hf2 & Hb2).
  exists h2. rewrite (bind_ok _ _ _ _ _ Hr), (bind_ok _ _ _ _ _ (Hat h1 Hh1 Hl1)).
  rewrite (bind_ok _ _ _ _ _ Hi). split_and!; [done|done|done| |congruence].
  by eapply frame_trans.
Qed.

(** What the fields of the sentinel and of an element point to *)
Lemma prev_of h l A B : heap_ok h -> has_els h l (A ++ B) ->
  prevs h !! hd l B.*1 = Some (List.last A.*1 l) /\ nexts h !! List.last A.*1 l = Some (hd l B.*1).
Proof.
  intros Hh Hl. unfold has_els in Hl. rewrite !fmap_app in Hl.
  by destruct (neighbours _ _ _ _ _ Hh Hl) as (_ & _ & ? & ?).
Qed.

Section operations.
Context (h : heap) (l : ptr) (els : list (ptr * V)).
Context (Hh : heap_ok h) (Hl : has_els h l els).

Lemma owner_els e :
  null < e < brk h -> exists o, lists h !! e = Some o /\ (o =? l) = bool_decide (e ∈ els.*1).
Proof using Hh Hl.
  intros [o Ho]%(ho_list _ Hh). exists o. split; [done|].
  pose proof (il_owner _ _ _ _ Hl e) as Hown. rewrite Ho in Hown.
  destruct (Z.eqb_spec o l) as [->|Hne]; symmetry.
  - apply bool_decide_eq_true. by apply Hown.
  - apply bool_decide_eq_false. intros He%Hown. congruence.
Qed.

Lemma gives_noop {A} (r : A) : gives (mret r) h l r (brk h) els.
Proof using Hh Hl. by apply yields_ret. Qed.

Lemma InsertBefore_els v mark :
  null < mark < brk h ->
  if bool_decide (mark ∈ els.*1)
  then gives (InsertBefore l v mark) h l (brk h) (brk h + 1) (insert_before mark (brk h, v) els)
  else gives (InsertBefore l v mark) h l null (brk h) els.
Proof using Hh Hl.
  intros (o & Ho & Heq)%owner_els. unfold InsertBefore, gives, yields.
  rewrite !(load_bind _ _ _ _ _ Ho), Heq.
  case_bool_decide as Hm; simpl; [|apply gives_noop].
  destruct (has_els_split _ _ _ _ Hl Hm) as (A & w & B & -> & HA & _).
  rewrite insert_before_split by done. destruct (prev_of _ _ _ _ Hh Hl) as [Hp _]. simpl in Hp.
  rewrite (load_bind _ _ _ _ _ Hp). by apply insertValue_els.
Qed.

Lemma InsertAfter_els v mark :
  null < mark < brk h ->
  if bool_decide (mark ∈ els.*1)
  then gives (InsertAfter l v mark) h l (brk h) (brk h + 1) (insert_after mark (brk h, v) els)
  else gives (InsertAfter l v mark) h l null (brk h) els.
Proof using Hh Hl.
  intros (o & Ho & Heq)%owner_els. unfold InsertAfter, gives, yields.
  rewrite !(load_bind _ _ _ _ _ Ho), Heq.
  case_bool_decide as Hm; simpl; [|apply gives_noop].
  destruct (has_els_split _ _ _ _ Hl Hm) as (A & w & B & -> & HA & _).
  rewrite insert_after_split by done.
  rewrite cons_middle, app_assoc in Hl |- *.
  pose proof (insertValue_els h l (A ++ [(mark, w)]) B v Hh Hl) as Hi.
  rewrite fmap_app in Hi. simpl in Hi. rewrite last_last in Hi.
  replace (A ++ (mark, w) :: (brk h, v) :: B) with ((A ++ [(mark, w)]) ++ (brk h, v) :: B); [done|].
  by rewrite <- app_assoc.
Qed.

Lemma Remove_els e :
  null < e < brk h ->
  exists v, values h !! e = Some v /\ gives (Remove l e) h l v (brk h) (remove_el e els).
Proof using Hh Hl.
  intros He. pose proof He as (o & Ho & Heq)%owner_els. apply (ho_value _ Hh) in He as [w Hw].
  exists w. split; [done|]. unfold Remove, gives, yields. rewrite (load_bind _ _ _ _ _ Ho), Heq.
  case_bool_decide as Hm.
  - destruct (has_els_split _ _ _ _ Hl Hm) as (A & v & B & -> & HA & _).
    rewrite remove_el_split by done.
    destruct (removeElement_els _ _ _ _ _ _ Hh Hl) as (h1 & Hr & Hh1 & Hl1 & Hf & _ & Hv & Hb & _).
    exists h1. unfold mbind at 1, M_bind at 1. rewrite (bind_ok _ _ _ _ _ Hr). simpl.
    unfold load. rewrite Hv, Hw. done.
  - destruct (not_in_els _ _ Hm (e, w)) as (_ & _ & -> & _).
    exists h. unfold mbind, M_bind, load. simpl. rewrite Hw. split_and!; try done. apply frame_refl.
Qed.

Lemma move_el_split A e v B place :
  e ∉ A.*1 -> move_el e place (A ++ (e, v) :: B) = place (e, v) (A ++ B).
Proof using Type. intros He. unfold move_el. by rewrite value_of_split, remove_el_split. Qed.

Lemma move_el_absent e place : e ∉ els.*1 -> move_el e place els = els.
Proof using Inhabited0.
  intros He. unfold move_el. by destruct (not_in_els _ _ He (e, inhabitant)) as (_ & _ & _ & ->).
Qed.

Lemma MoveToFront_els e :
  null < e < brk h -> gives (MoveToFront l e) h l tt (brk h) (move_el e cons els).
Proof using Hh Hl Inhabited0.
  intros (o & Ho & Heq)%owner_els. unfold MoveToFront, gives, yields.
  rewrite (load_bind _ _ _ _ _ Ho), Heq.
  case_bool_decide as Hm; [|rewrite move_el_absent by done; apply gives_noop]. cbn [negb].
  destruct (has_els_split _ _ _ _ Hl Hm) as (A & v & B & -> & HA & _). rewrite move_el_split by done.
  destruct (prev_of h l [] _ Hh Hl) as [_ Hn]. cbn [fmap list_fmap List.last] in Hn.
  rewrite (load_bind _ _ _ _ _ Hn). case_if.
  - destruct A as [|[p w] A]; [by apply yields_ret|]. simpl in *. subst p. exfalso. apply HA. left.
  - by destruct (reinsert_els h l A e v B [] (A ++ B) (mret l)) as (h' & E & ?); [..|exists h'].
Qed.

Lemma MoveToBack_els e :
  null < e < brk h ->
  gives (MoveToBack l e) h l tt (brk h) (move_el e (fun x els => els ++ [x]) els).
Proof using Hh Hl Inhabited0.
  intros (o & Ho & Heq)%owner_els. unfold MoveToBack, gives, yields.
  rewrite (load_bind _ _ _ _ _ Ho), Heq.
  case_bool_decide as Hm; [|rewrite move_el_absent by done; apply gives_noop]. cbn [negb].
  destruct (has_els_split _ _ _ _ Hl Hm) as (A & v & B & -> & HA & HB). rewrite move_el_split by done.
  pose proof Hl as Hl2. rewrite <- (app_nil_r (A ++ _)) in Hl2.
  destruct (prev_of h l _ [] Hh Hl2) as [Hp _]. cbn [fmap list_fmap hd] in Hp.
  rewrite (load_bind _ _ _ _ _ Hp). case_if.
  - destruct B as [|[p w] B _] using rev_ind; [rewrite app_nil_r; by apply yields_ret|].
    rewrite app_comm_cons, app_assoc, fmap_app in Heqb. simpl in Heqb. rewrite last_last in Heqb.
    subst p. exfalso. apply HB. rewrite fmap_app. apply elem_of_app. right. left.
  - apply (reinsert_els h l A e v B (A ++ B) [] (load prevs l)); [done|done|by rewrite app_nil_r|].
    intros h' Hh' Hl'. destruct (prev_of h' l _ [] Hh' Hl') as [Hp' _]. simpl in Hp'.
    unfold load. by rewrite Hp'.
Qed.

Lemma MoveBefore_els e mark :
  null < e < brk h -> null < mark < brk h ->
  gives (MoveBefore l e mark) h l tt (brk h)
    (if (e =? mark) || bool_decide (mark ∉ els.*1) then els else move_el e (insert_before mark) els).
Proof using Hh Hl Inhabited0.
  intros (o & Ho & Heq)%owner_els (o' & Ho' & Heq')%owner_els. unfold MoveBefore, gives, yields.
  rewrite (load_bind _ _ _ _ _ Ho), Heq.
  destruct (Z.eqb_spec e mark) as [->|Hne]; [rewrite orb_true_r; apply gives_noop|].
  destruct (decide (e ∈ els.*1)) as [Hm|Hm]; [rewrite bool_decide_true by done
    |rewrite bool_decide_false by done]; simpl.
  2: { rewrite move_el_absent by done. case_match; apply gives_noop. }
  rewrite (load_bind _ _ _ _ _ Ho'), Heq'. rewrite bool_decide_not.
  case_bool_decide as Hmark; simpl; [|apply gives_noop].
  destruct (has_els_split _ _ _ _ Hl Hm) as (A & v & B & -> & HA & HB). rewrite move_el_split by done.
  assert (mark ∈ (A ++ B).*1) as Hin.
  { rewrite fmap_app in *. rewrite elem_of_app in *. simpl in Hmark. set_solver. }
  destruct (removeElement_els _ _ _ _ _ _ Hh Hl) as (h1 & _ & _ & Hl1 & _).
  destruct (has_els_split _ _ _ _ Hl1 Hin) as (C & w & D & HCD & HC & _). rewrite HCD.
  rewrite insert_before_split by done.
  apply (reinsert_els h l A e v B C ((mark, w) :: D) (load prevs mark)); [done|done|done|].
  intros h' Hh' Hl'. destruct (prev_of h' l _ _ Hh' Hl') as [Hp' _]. simpl in Hp'.
  unfold load. by rewrite Hp'.
Qed.

Lemma MoveAfter_els e mark :
  null < e < brk h -> null < mark < brk h ->
  gives (MoveAfter l e mark) h l tt (brk h)
    (if (e =? mark) || bool_decide (mark ∉ els.*1) then els else move_el e (insert_after mark) els).
Proof using Hh Hl Inhabited0.
  intros (o & Ho & Heq)%owner_els (o' & Ho' & Heq')%owner_els. unfold MoveAfter, gives, yields.
  rewrite (load_bind _ _ _ _ _ Ho), Heq.
  destruct (Z.eqb_spec e mark) as [->|Hne]; [rewrite orb_true_r; apply gives_noop|].
  destruct (decide (e ∈ els.*1)) as [Hm|Hm]; [rewrite bool_decide_true by done
    |rewrite bool_decide_false by done]; simpl.
  2: { rewrite move_el_absent by done. case_match; apply gives_noop. }
  rewrite (load_bind _ _ _ _ _ Ho'), Heq'. rewrite bool_decide_not.
  case_bool_decide as Hmark; simpl; [|apply gives_noop].
  destruct (has_els_split _ _ _ _ Hl Hm) as (A & v & B & -> & HA & HB). rewrite move_el_split by done.
  assert (mark ∈ (A ++ B).*1) as Hin.
  { rewrite fmap_app in *. rewrite elem_of_app in *. simpl in Hmark. set_solver. }
  destruct (removeElement_els _ _ _ _ _ _ Hh Hl) as (h1 & _ & _ & Hl1 & _).
  destruct (has_els_split _ _ _ _ Hl1 Hin) as (C & w & D & HCD & HC & _). rewrite HCD.
  rewrite insert_after_split by done. rewrite cons_middle, (app_assoc C).
  destruct (reinsert_els h l A e v B (C ++ [(mark, w)]) D (mret mark)) as (h' & E & ?);
    [done|done| | |by exists h'].
  - rewrite HCD. by rewrite <- app_assoc.
  - intros h' Hh' Hl'. rewrite fmap_app. simpl. by rewrite last_last.
Qed.

(** The ends of the list, and the neighbours of an element *)
Lemma sentinel_not_in : null < l /\ (l ∉ els.*1).
Proof using Hh Hl.
  split; [|by apply NoDup_cons_1_1, (il_nodup _ _ _ _ Hl)].
  by apply (is_list_live _ _ _ _ l Hh Hl); left.
Qed.

Lemma Len_els : Len l h = Ok (len els, h).
Proof using Hl.
  unfold Len, load. rewrite (il_len _ _ _ _ Hl). unfold len. by rewrite length_fmap.
Qed.

Lemma Front_els : Front l h = Ok (hd null els.*1, h).
Proof using Hh Hl.
  unfold Front. rewrite (load_bind _ _ _ _ _ (il_len _ _ _ _ Hl)).
  destruct (prev_of h l [] els Hh Hl) as [_ Hn]. cbn [fmap list_fmap List.last] in Hn.
  destruct els as [|x rest]; [done|]. rewrite (proj2 (Z.eqb_neq _ _)).
  - unfold load. by rewrite Hn.
  - cbn [fmap list_fmap]. rewrite len_cons. pose proof (len_nonneg (rest.*1)). lia.
Qed.

Lemma Back_els : Back l h = Ok (List.last els.*1 null, h).
Proof using Hh Hl.
  unfold Back. rewrite (load_bind _ _ _ _ _ (il_len _ _ _ _ Hl)).
  pose proof Hl as Hl2. rewrite <- (app_nil_r els) in Hl2.
  destruct (prev_of h l els [] Hh Hl2) as [Hp _]. cbn [fmap list_fmap hd] in Hp.
  destruct els as [|x rest]; [done|]. rewrite (proj2 (Z.eqb_neq _ _)).
  - unfold load. rewrite Hp. cbn [fmap list_fmap]. by rewrite !last_cons.
  - cbn [fmap list_fmap]. rewrite len_cons. pose proof (len_nonneg (rest.*1)). lia.
Qed.

End operations.

Lemma Next_els h l A e v B :
  heap_ok h -> has_els h l (A ++ (e, v) :: B) -> Next e h = Ok (hd null B.*1, h).
Proof.
  intros Hh Hl. destruct (sentinel_not_in _ _ _ Hh Hl) as [Hpos Hout].
  assert (lists h !! e = Some l) as Ho.
  { apply (il_owner _ _ _ _ Hl). rewrite fmap_app. apply elem_of_app. right. left. }
  pose proof Hl as Hl2. rewrite cons_middle, app_assoc in Hl2.
  destruct (prev_of _ _ _ _ Hh Hl2) as [_ Hn]. rewrite fmap_app in Hn. simpl in Hn.
  rewrite last_last in Hn. unfold Next.
  rewrite (load_bind _ _ _ _ _ Hn), (load_bind _ _ _ _ _ Ho).
  rewrite (proj2 (Z.eqb_neq l null)) by lia. simpl.
  destruct B as [|[p w] B]; simpl; [by rewrite Z.eqb_refl|].
  rewrite (proj2 (Z.eqb_neq p l)); [done|]. intros ->. apply Hout.
  rewrite fmap_app. apply elem_of_app. right. right. left.
Qed.

Lemma Prev_els h l A e v B :
  heap_ok h -> has_els h l (A ++ (e, v) :: B) -> Prev e h = Ok (List.last A.*1 null, h).
Proof.
  intros Hh Hl. destruct (sentinel_not_in _ _ _ Hh Hl) as [Hpos Hout].
  assert (lists h !! e = Some l) as Ho.
  { apply (il_owner _ _ _ _ Hl). rewrite fmap_app. apply elem_of_app. right. left. }
  destruct (prev_of _ _ _ _ Hh Hl) as [Hp _]. simpl in Hp. unfold Prev.
  rewrite (load_bind _ _ _ _ _ Hp), (load_bind _ _ _ _ _ Ho).
  rewrite (proj2 (Z.eqb_neq l null)) by lia. simpl.
  destruct A as [|[p w] A _] using rev_ind; simpl; [by rewrite Z.eqb_refl|].
  rewrite fmap_app. simpl. rewrite !last_last. rewrite (proj2 (Z.eqb_neq p l)); [done|].
  intros ->. apply Hout. rewrite !fmap_app. apply elem_of_app. left. apply elem_of_app. right. left.
Qed.

Lemma value_els h l A e v B : has_els h l (A ++ (e, v) :: B) -> values h !! e = Some v.
Proof.
  intros Hl. pose proof (il_values _ _ _ _ Hl) as Hv. rewrite !fmap_app in Hv.
  apply Forall2_app_inv in Hv as [_ Hv]; [by inversion Hv|by rewrite !length_fmap].
Qed.

(** New elements with the values [vs], at the addresses from [n] on *)
Fixpoint copies (n : ptr) (vs : list V) : list (ptr * V) :=
  match vs with
  | [] => []
  | v :: vs => (n, v) :: copies (n + 1) vs
  end.

(** [other] has the elements [A], [rest] still to be copied, and what the loop has
    appended if it is [l] itself. *)
Lemma pushBackLoop_els h l o els A rest new :
  heap_ok h -> has_els h l els -> has_els h o (A ++ rest ++ new) ->
  (o = l -> els = A ++ rest ++ new) ->
  gives (pushBackLoop (length rest) l (hd null (rest ++ new).*1)) h l tt (brk h + len rest)
    (els ++ copies (brk h) rest.*2).
Proof.
  revert h els A new; induction rest as [|[e v] rest IH]; intros h els A new Hh Hl Ho Hsame.
  { simpl. rewrite Z.add_0_r, app_nil_r. by apply yields_ret. }
  cbn [length pushBackLoop app fmap list_fmap hd fst snd copies].
  unfold gives. apply (yields_load _ _ v); [by eapply value_els|].
  pose proof Hl as Hl2. rewrite <- (app_nil_r els) in Hl2.
  destruct (prev_of h l els [] Hh Hl2) as [Hp _]. cbn [fmap list_fmap hd] in Hp.
  eapply yields_load; [exact Hp|].
  destruct (insertValue_els h l els [] v Hh Hl2) as (h1 & Hi & Hh1 & Hl1 & Hf1 & Hb1).
  change (has_els h1 l (els ++ [(brk h, v)])) in Hl1.
  assert (exists new', has_els h1 o (A ++ ((e, v) :: rest) ++ new') /\
    (o = l -> els ++ [(brk h, v)] = A ++ ((e, v) :: rest) ++ new')) as (new' & Ho' & Hsame').
  { destruct (decide (o = l)) as [->|Hne].
    - exists (new ++ [(brk h, v)]). rewrite (Hsame eq_refl) in *. rewrite <- !app_assoc in *. done.
    - exists new. split; [|done]. by apply Hf1. }
  assert (Next e h1 = Ok (hd null (rest ++ new').*1, h1)) as Hnext by (by eapply Next_els).
  destruct (IH h1 (els ++ [(brk h, v)]) (A ++ [(e, v)]) new') as (h2 & Hloop & Hh2 & Hl2' & Hf2 & Hb2).
  { done. } { done. } { by rewrite <- app_assoc. } { intros Heq. rewrite <- app_assoc. by apply Hsame'. }
  exists h2. rewrite (bind_ok _ _ _ _ _ Hi), (bind_ok _ _ _ _ _ Hnext). split_and!.
  - done.
  - done.
  - rewrite <- app_assoc, Hb1 in Hl2'. done.
  - by eapply frame_trans.
  - rewrite len_cons. lia.
Qed.

Lemma PushBackList_els h l o els other :
  heap_ok h -> has_els h l els -> has_els h o other -> (o = l -> els = other) ->
  gives (PushBackList l o) h l tt (brk h + len other) (els ++ copies (brk h) other.*2).
Proof.
  intros Hh Hl Ho Hsame. unfold PushBackList, gives, yields.
  rewrite (bind_ok _ _ _ _ _ (lazyInit_noop _ _ _ _ Hh Hl)).
  rewrite (bind_ok _ _ _ _ _ (Len_els _ _ _ Ho)), (bind_ok _ _ _ _ _ (Front_els _ _ _ Hh Ho)).
  pose proof (pushBackLoop_els h l o els [] other [] Hh Hl) as Hloop. rewrite app_nil_r in Hloop.
  unfold len at 1. rewrite Nat2Z.id. by apply Hloop.
Qed.

Lemma pushFrontLoop_els h l o els rest B new :
  heap_ok h -> has_els h l els -> has_els h o (new ++ rest ++ B) ->
  (o = l -> els = new ++ rest ++ B) ->
  gives (pushFrontLoop (length rest) l (List.last (new ++ rest).*1 null)) h l tt (brk h + len rest)
    (rev (copies (brk h) (rev rest.*2)) ++ els).
Proof.
  revert h els B new; induction rest as [|[e v] rest IH] using rev_ind; intros h els B new Hh Hl Ho Hsame.
  { simpl. rewrite Z.add_0_r. by apply yields_ret. }
  rewrite length_app, Nat.add_comm, app_assoc, !fmap_app. cbn [length Nat.add pushFrontLoop].
  cbn [fmap list_fmap fst snd]. rewrite last_last, rev_app_distr.
  cbn [rev app copies]. rewrite <- !app_assoc in Ho, Hsame. cbn [app] in Ho, Hsame.
  assert (values h !! e = Some v) as Hv.
  { rewrite app_assoc in Ho. by eapply value_els. }
  unfold gives. apply (yields_load _ _ v); [done|].
  destruct (insertValue_els h l [] els v Hh Hl) as (h1 & Hi & Hh1 & Hl1 & Hf1 & Hb1).
  change (has_els h1 l ((brk h, v) :: els)) in Hl1. cbn [fmap list_fmap List.last] in Hi.
  assert (exists new', has_els h1 o (new' ++ rest ++ (e, v) :: B) /\
    (o = l -> (brk h, v) :: els = new' ++ rest ++ (e, v) :: B)) as (new' & Ho' & Hsame').
  { destruct (decide (o = l)) as [->|Hne].
    - exists ((brk h, v) :: new). by rewrite (Hsame eq_refl) in *.
    - exists new. split; [|done]. by apply Hf1. }
  assert (Prev e h1 = Ok (List.last (new' ++ rest).*1 null, h1)) as Hprev.
  { rewrite app_assoc in Ho'. by eapply Prev_els. }
  destruct (IH h1 ((brk h, v) :: els) ((e, v) :: B) new') as (h2 & Hloop & Hh2 & Hl2 & Hf2 & Hb2);
    [done..|].
  exists h2. rewrite (bind_ok _ _ _ _ _ Hi), (bind_ok _ _ _ _ _ Hprev). split_and!.
  - done.
  - done.
  - rewrite Hb1 in Hl2. rewrite <- app_assoc. done.
  - by eapply frame_trans.
  - rewrite len_app, len_cons, len_nil. lia.
Qed.

Lemma PushFrontList_els h l o els other :
  heap_ok h -> has_els h l els -> has_els h o other -> (o = l -> els = other) ->
  gives (PushFrontList l o) h l tt (brk h + len other)
    (rev (copies (brk h) (rev other.*2)) ++ els).
Proof.
  intros Hh Hl Ho Hsame. unfold PushFrontList, gives, yields.
  rewrite (bind_ok _ _ _ _ _ (lazyInit_noop _ _ _ _ Hh Hl)).
  rewrite (bind_ok _ _ _ _ _ (Len_els _ _ _ Ho)), (bind_ok _ _ _ _ _ (Back_els _ _ _ Hh Ho)).
  pose proof (pushFrontLoop_els h l o els other [] [] Hh Hl) as Hloop.
  rewrite app_nil_r in Hloop. unfold len at 1. rewrite Nat2Z.id. by apply Hloop.
Qed.

(** A new list *)
Lemma NewList_spec h :
  heap_ok h ->
  exists h', NewList h = Ok (brk h, h') /\ heap_ok h' /\ has_els h' (brk h) [] /\
    (forall l els, has_els h l els -> has_els h' l els) /\ brk h' = brk h + 1.
Proof.
  intros Hh. set (b := brk h). pose proof (ho_brk _ Hh) as Hb.
  assert (forall l els, has_els h l els -> l <> b /\ (b ∉ els.*1)) as Hfresh.
  { intros l els Hl. split.
    - intros ->. pose proof (is_list_live _ _ _ _ b Hh Hl ltac:(left)). subst b. lia.
    - intros Hin. pose proof (is_list_live _ _ _ _ b Hh Hl ltac:(by right)). subst b. lia. }
  pose proof (heap_ok_alloc h inhabitant (<[b := 0]> (lens h)) Hh) as Hh1. cbv zeta in Hh1.
  fold b in Hh1. unfold NewList, newListObject, Init. unfold mbind at 1, M_bind at 1. fold b.
  rewrite set_next_bind, set_prev_bind, set_len_bind by (cbn; rewrite lookup_insert_eq; eauto).
  cbn. rewrite !insert_insert_eq.
  assert (forall k, is_Some (<[b := 0]> (lens h) !! k) -> is_Some (lens h !! k) \/ k = b) as Hlens.
  { intros k. rewrite lookup_insert_is_Some'. naive_solver. }
  specialize (Hh1 Hlens).
  eexists. split; [reflexivity|]. split_and!; [| | |done].
  - destruct Hh1 as [Hn Hp Hl Hv Hr Ho Hb1]. cbn in *. split; cbn; [| |done..].
    + intros k. rewrite <- Hn, !lookup_insert_is_Some'. tauto.
    + intros k. rewrite <- Hp, !lookup_insert_is_Some'. tauto.
  - split; cbn; rewrite ?lookup_insert_eq; try done; [apply NoDup_singleton|].
    intros p. rewrite lookup_insert. split; [|by intros ?%elem_of_nil].
    case_decide; [intros [= E]; lia|]. intros Hp.
    apply (ho_owner _ Hh) in Hp. subst b. lia.
  - intros l els Hl. destruct (Hfresh _ _ Hl) as [H1 H2].
    pose proof (is_list_alloc h inhabitant (<[b := 0]> (lens h)) l _ _ Hh Hl) as Hl1. cbv zeta in Hl1.
    fold b in Hl1. destruct Hl1 as [Hnd Hnx Hpv Hown Hroot Hvals Hlen].
    { intros p Hp. by apply lookup_insert_ne. }
    split; cbn in *; [done| | |done..].
    + eapply path_ext; [|exact Hnx]. intros q Hq. rewrite !lookup_insert_ne; set_solver.
    + eapply path_ext; [|exact Hpv]. intros q Hq. rewrite !lookup_insert_ne; [done|..].
      all: intros <-; rewrite elem_of_cons, elem_of_rev in Hq; naive_solver.
Qed.

(** Assigning to the field [Value] of an element *)
Definition assign (e : ptr) (v : V) (x : ptr * V) : ptr * V := if x.1 =? e then (e, v) else x.

Lemma assign_fst e v els : (assign e v <$> els).*1 = els.*1.
Proof.
  rewrite <- list_fmap_compose. apply list_fmap_ext. intros i [p w] _. unfold assign. simpl.
  destruct (Z.eqb_spec p e) as [->|]; done.
Qed.

Lemma set_Value_spec h e v :
  heap_ok h -> null < e < brk h ->
  exists h', set_Value e v h = Ok (tt, h') /\ heap_ok h' /\ brk h' = brk h /\
    (forall l els, has_els h l els -> has_els h' l (assign e v <$> els)).
Proof.
  intros Hh He. pose proof He as [w Hw]%(ho_value _ Hh). unfold set_Value. rewrite Hw.
  eexists. split; [reflexivity|]. split_and!; [|done|].
  - destruct Hh as [Hn Hp Hl Hv Hr Ho Hb]. split; cbn; try done.
    intros p. rewrite insert_dom by (by rewrite Hv). apply Hv.
  - intros l els [Hnd Hnx Hpv Hown Hroot Hvals Hlen]. unfold has_els. rewrite assign_fst.
    split; cbn; try done. clear -Hvals. induction els as [|[p x] els IH]; [constructor|].
    inversion Hvals as [|? ? ? ? Hp Hrest]; subst. simpl. constructor; [|by apply IH].
    unfold assign. cbn [fst]. destruct (Z.eqb_spec p e) as [->|]; simpl.
    + apply lookup_insert_eq.
    + by rewrite lookup_insert_ne.
Qed.

Lemma assign_split A B e v w :
  e ∉ A.*1 -> e ∉ B.*1 -> assign e v <$> (A ++ (e, w) :: B) = A ++ (e, v) :: B.
Proof.
  assert (forall C, e ∉ C.*1 -> assign e v <$> C = C) as Hid.
  { intros C HC. rewrite <- (list_fmap_id C) at 2. apply list_fmap_ext.
    intros i x Hx%list_elem_of_lookup_2. unfold assign. by rewrite (fst_ne C). }
  intros HA HB. rewrite fmap_app. simpl. rewrite !Hid by done. unfold assign at 1. simpl.
  by rewrite Z.eqb_refl.
Qed.

Lemma set_Value_els h l A e w B v :
  heap_ok h -> has_els h l (A ++ (e, w) :: B) ->
  gives (set_Value e v) h l tt (brk h) (A ++ (e, v) :: B).
Proof.
  intros Hh Hl. assert (e ∈ (A ++ (e, w) :: B).*1) as Hin.
  { rewrite fmap_app. apply elem_of_app. right. left. }
  pose proof (il_nodup _ _ _ _ Hl) as Hnd. apply NoDup_cons in Hnd as [_ Hnd].
  rewrite fmap_app in Hnd. apply NoDup_app in Hnd as (_ & Hd & Hnd). simpl in Hd, Hnd.
  apply NoDup_cons in Hnd as [HB _]. assert (e ∉ A.*1) as HA by (intros He; apply (Hd _ He); left).
  assert (null < e < brk h) as He by (apply (is_list_live _ _ _ _ e Hh Hl); by right).
  destruct (set_Value_spec h e v Hh He) as (h' & Hm & Hh' & Hb & Hels).
  exists h'. split_and!; [done|done| | |done].
  - specialize (Hels _ _ Hl). by rewrite assign_split in Hels.
  - unfold set_Value in Hm. rewrite (value_els _ _ _ _ _ _ Hl) in Hm. injection Hm as <-.
    eapply frame_intro; [done|exact Hl| |]; cbn.
    + intros p Hp. rewrite lookup_insert_ne; [done|]. intros <-. apply Hp. left. by right.
    + intros p o Hp. by apply (touched_owner h l _ _ p o Hh Hl).
Qed.

(** An element of a list occurs in it once. *)
Lemma els_live h l A e v B :
  heap_ok h -> has_els h l (A ++ (e, v) :: B) ->
  null < e < brk h /\ (e ∉ A.*1) /\ (e ∉ B.*1).
Proof.
  intros Hh Hl. pose proof (il_nodup _ _ _ _ Hl) as Hnd. apply NoDup_cons in Hnd as [_ Hnd].
  rewrite fmap_app in Hnd. apply NoDup_app in Hnd as (_ & Hd & Hnd). simpl in Hd, Hnd.
  apply NoDup_cons in Hnd as [HB _]. split_and!; [| | |done].
  1-2: apply (is_list_live _ _ _ _ e Hh Hl); right; rewrite fmap_app; apply elem_of_app; right; left.
  intros He. apply (Hd _ He). left.
Qed.

(** [Remove] for an element of the list: its value, and those of all elements, stay. *)
Lemma Remove_values h l A e v B :
  heap_ok h -> has_els h l (A ++ (e, v) :: B) ->
  exists h', Remove l e h = Ok (v, h') /\ heap_ok h' /\ has_els h' l (A ++ B) /\ frame l h h' /\ values h' = values h /\ brk h' = brk h.
Proof.
  intros Hh Hl. destruct (removeElement_els _ _ _ _ _ _ Hh Hl) as (h1 & Hr & Hh1 & Hl1 & Hf & _ & Hv & Hb & Hw).
  exists h1. split_and!; try done. unfold Remove. assert (lists h !! e = Some l) as Ho.
  { apply (il_owner _ _ _ _ Hl). rewrite fmap_app. apply elem_of_app. right. left. }
  rewrite (load_bind _ _ _ _ _ Ho), Z.eqb_refl. unfold mbind at 1, M_bind at 1. rewrite (bind_ok _ _ _ _ _ Hr). simpl.
  unfold load. by rewrite Hv, Hw.
Qed.

End LinkedList.
