(* ===== verification/ListRefinement.v ===== *)
(** * The linked lists refine sequences

    Any sequence of operations on any number of linked lists does what the same
    operations do on functional sequences, and traversals read these sequences. *)

From S2P Require Import Prelude LinkedList.

Section Refinement.
Context {V : Type} `{!Inhabited V}.

(** ** Sequences of operations on any number of lists *)

Inductive op : Type :=
| ONewList
| OPushFront (l : ptr) (v : V)
| OPushBack (l : ptr) (v : V)
| OInsertBefore (l : ptr) (v : V) (mark : ptr)
| OInsertAfter (l : ptr) (v : V) (mark : ptr)
| ORemove (l e : ptr)
| OMoveToFront (l e : ptr)
| OMoveToBack (l e : ptr)
| OMoveBefore (l e mark : ptr)
| OMoveAfter (l e mark : ptr)
| OPushBackList (l other : ptr)
| OPushFrontList (l other : ptr)
| OSetValue (e : ptr) (v : V).

Definition run_op (o : op) : M unit :=
  match o with
  | ONewList => NewList;; mret tt
  | OPushFront l v => PushFront l v;; mret tt
  | OPushBack l v => PushBack l v;; mret tt
  | OInsertBefore l v mark => InsertBefore l v mark;; mret tt
  | OInsertAfter l v mark => InsertAfter l v mark;; mret tt
  | ORemove l e => Remove l e;; mret tt
  | OMoveToFront l e => MoveToFront l e
  | OMoveToBack l e => MoveToBack l e
  | OMoveBefore l e mark => MoveBefore l e mark
  | OMoveAfter l e mark => MoveAfter l e mark
  | OPushBackList l other => PushBackList l other
  | OPushFrontList l other => PushFrontList l other
  | OSetValue e v => set_Value e v
  end.

Fixpoint run_ops (os : list op) : M unit :=
  match os with
  | [] => mret tt
  | o :: os => run_op o;; run_ops os
  end.

(** The specification: each list is a sequence of elements with their values; the
    second component is the next free address. *)
Definition lists_state : Type := gmap ptr (list (ptr * V)) * ptr.

Definition spec_op (o : op) (s : lists_state) : lists_state :=
  let '(a, n) := s in
  match o with
  | ONewList => (<[n := []]> a, n + 1)
  | OPushFront l v => (<[l := (n, v) :: a !!! l]> a, n + 1)
  | OPushBack l v => (<[l := a !!! l ++ [(n, v)]]> a, n + 1)
  | OInsertBefore l v mark =>
      if bool_decide (mark ∈ (a !!! l).*1) then (<[l := insert_before mark (n, v) (a !!! l)]> a, n + 1)
      else (a, n)
  | OInsertAfter l v mark =>
      if bool_decide (mark ∈ (a !!! l).*1) then (<[l := insert_after mark (n, v) (a !!! l)]> a, n + 1)
      else (a, n)
  | ORemove l e => (<[l := remove_el e (a !!! l)]> a, n)
  | OMoveToFront l e => (<[l := move_el e cons (a !!! l)]> a, n)
  | OMoveToBack l e => (<[l := move_el e (fun x els => els ++ [x]) (a !!! l)]> a, n)
  | OMoveBefore l e mark =>
      (<[l := if (e =? mark) || bool_decide (mark ∉ (a !!! l).*1) then a !!! l
              else move_el e (insert_before mark) (a !!! l)]> a, n)
  | OMoveAfter l e mark =>
      (<[l := if (e =? mark) || bool_decide (mark ∉ (a !!! l).*1) then a !!! l
              else move_el e (insert_after mark) (a !!! l)]> a, n)
  | OPushBackList l other =>
      (<[l := a !!! l ++ copies n (a !!! other).*2]> a, n + len (a !!! other))
  | OPushFrontList l other =>
      (<[l := rev (copies n (rev (a !!! other).*2)) ++ a !!! l]> a, n + len (a !!! other))
  | OSetValue e v => ((fun els : list (ptr * V) => assign e v <$> els) <$> a, n)
  end.

(** The lists and elements of an operation exist. *)
Definition op_valid (s : lists_state) (o : op) : Prop :=
  let is_list l := is_Some (s.1 !! l) in
  let is_object e := null < e < s.2 in
  match o with
  | ONewList => True
  | OPushFront l _ | OPushBack l _ => is_list l
  | OInsertBefore l _ e | OInsertAfter l _ e | ORemove l e | OMoveToFront l e | OMoveToBack l e =>
      is_list l /\ is_object e
  | OMoveBefore l e mark | OMoveAfter l e mark => is_list l /\ is_object e /\ is_object mark
  | OPushBackList l o | OPushFrontList l o => is_list l /\ is_list o
  | OSetValue e _ => is_object e
  end.

Fixpoint ops_valid (s : lists_state) (os : list op) : Prop :=
  match os with
  | [] => True
  | o :: os => op_valid s o /\ ops_valid (spec_op o s) os
  end.

Definition run_spec (os : list op) (s : lists_state) : lists_state :=
  foldl (fun s o => spec_op o s) s os.

(** The loops of the code over a list: from the front with [Next], from the back with
    [Prev].  The fuel is the number of elements. *)
Fixpoint forward (fuel : nat) (e : ptr) : M (list V) :=
  if e =? null then mret []
  else
    match fuel with
    | O => fun _ => Panic
    | S fuel => v ← load values e; e ← Next e; vs ← forward fuel e; mret (v :: vs)
    end.
Fixpoint backward (fuel : nat) (e : ptr) : M (list V) :=
  if e =? null then mret []
  else
    match fuel with
    | O => fun _ => Panic
    | S fuel => v ← load values e; e ← Prev e; vs ← backward fuel e; mret (v :: vs)
    end.

Definition read_list (l : ptr) : M (list V * list V) :=
  n ← Len l;
  e ← Front l; vs ← forward (Z.to_nat n) e;
  e ← Back l; ws ← backward (Z.to_nat n) e;
  mret (vs, ws).

(** ** Simulation *)

Record simulates (h : heap) (s : lists_state) : Prop := {
  sim_ok : heap_ok h;
  sim_brk : brk h = s.2;
  sim_lists l els : s.1 !! l = Some els -> has_els h l els;
}.

Lemma simulates_step {A} (m : M (V:=V) A) h a n l r b els' :
  simulates h (a, n) -> is_Some (a !! l) -> gives m h l r b els' ->
  exists h', (m;; mret tt) h = Ok (tt, h') /\ simulates h' (<[l := els']> a, b).
Proof.
  intros [Hh Hb Hl] [els Hels] (h' & Hm & Hh' & Hl' & Hf & Hb').
  exists h'. rewrite (bind_ok _ _ _ _ _ Hm). split; [done|].
  split; [done|done|]. cbn. intros l2 els2. rewrite lookup_insert. case_decide as E.
  - intros [= <-]. by subst l2.
  - intros H2. apply Hf; [done|]. by apply Hl.
Qed.

Lemma simulates_unit (m : M (V:=V) unit) h h' : (m;; mret tt) h = Ok (tt, h') -> m h = Ok (tt, h').
Proof. unfold mbind, M_bind. destruct (m h) as [[[] ?]|?|]; [|done..]. by intros [= ->]. Qed.

Lemma simulates_noop {A} (m : M (V:=V) A) h s l r els :
  simulates h s -> s.1 !! l = Some els -> gives m h l r (brk h) els ->
  exists h', (m;; mret tt) h = Ok (tt, h') /\ simulates h' s.
Proof.
  intros Hs Hl Hg. destruct s as [a n]. pose proof (sim_brk _ _ Hs) as Hb. cbn in *.
  destruct (simulates_step _ _ _ _ _ _ _ _ Hs ltac:(eauto) Hg) as (h' & Hm & Hs').
  exists h'. split; [done|]. by rewrite insert_id, Hb in Hs'.
Qed.

Lemma run_op_simulates h s o :
  simulates h s -> op_valid s o ->
  exists h', run_op o h = Ok (tt, h') /\ simulates h' (spec_op o s).
Proof.
  intros Hs Hv. destruct s as [a n]. pose proof Hs as [Hh Hb Hl]. cbn in Hb.
  assert (forall l, is_Some (a !! l) -> has_els h l (a !!! l)) as Hels.
  { intros l [els He]. rewrite lookup_total_alt, He. by apply Hl. }
  assert (forall m : M (V:=V) unit, (exists h', (m;; mret tt) h = Ok (tt, h') /\ simulates h' (spec_op o (a, n))) ->
    exists h', m h = Ok (tt, h') /\ simulates h' (spec_op o (a, n))) as Hunit.
  { intros m (h' & Hm & Hs'). exists h'. split; [by apply simulates_unit|done]. }
  destruct o; cbn [run_op spec_op op_valid fst snd] in *; rewrite <- ?Hb in *.
  - destruct (NewList_spec h Hh) as (h' & Hm & Hh' & Hl' & Hf & Hb').
    exists h'. rewrite (bind_ok _ _ _ _ _ Hm). split; [done|]. split; [done|done|]. cbn.
    intros l els. rewrite lookup_insert. case_decide; [naive_solver|]. intros Hx. by apply Hf, Hl.
  - eapply simulates_step; [done|done|]. by apply PushFront_spec, Hels.
  - eapply simulates_step; [done|done|]. unfold gives. rewrite !fmap_app. by apply PushBack_spec, Hels.
  - destruct Hv as [Hv1 Hv2]. pose proof (InsertBefore_els h l _ Hh (Hels l Hv1) v mark Hv2) as Hi.
    case_bool_decide; [by eapply simulates_step|]. eapply simulates_noop; [done| |exact Hi]. cbn.
    by apply lookup_lookup_total.
  - destruct Hv as [Hv1 Hv2]. pose proof (InsertAfter_els h l _ Hh (Hels l Hv1) v mark Hv2) as Hi.
    case_bool_decide; [by eapply simulates_step|]. eapply simulates_noop; [done| |exact Hi]. cbn.
    by apply lookup_lookup_total.
  - destruct Hv as [Hv1 Hv2]. destruct (Remove_els h l _ Hh (Hels l Hv1) e Hv2) as (w & _ & Hr).
    by eapply simulates_step.
  - apply Hunit. destruct Hv as [Hv1 Hv2]. eapply simulates_step; [done|done|]. apply MoveToFront_els; auto.
  - apply Hunit. destruct Hv as [Hv1 Hv2]. eapply simulates_step; [done|done|]. apply MoveToBack_els; auto.
  - apply Hunit. destruct Hv as (Hv1 & Hv2 & Hv3). eapply simulates_step; [done|done|]. apply MoveBefore_els; auto.
  - apply Hunit. destruct Hv as (Hv1 & Hv2 & Hv3). eapply simulates_step; [done|done|]. apply MoveAfter_els; auto.
  - apply Hunit. destruct Hv as [Hv1 Hv2]. eapply simulates_step; [done|done|].
    apply PushBackList_els; [done|auto|auto|by intros ->].
  - apply Hunit. destruct Hv as [Hv1 Hv2]. eapply simulates_step; [done|done|].
    apply PushFrontList_els; [done|auto|auto|by intros ->].
  - destruct (set_Value_spec h e v Hh Hv) as (h' & Hm & Hh' & Hb' & Hf).
    exists h'. split; [done|]. split; [done|cbn; congruence|]. cbn.
    intros l els. rewrite lookup_fmap. intros (els0 & Hx & ->)%fmap_Some. by apply Hf, Hl.
Qed.

Lemma run_ops_simulates os h s :
  simulates h s -> ops_valid s os ->
  exists h', run_ops os h = Ok (tt, h') /\ simulates h' (run_spec os s).
Proof.
  revert h s; induction os as [|o os IH]; intros h s Hs Hv; [by exists h|].
  destruct Hv as [Hv1 Hv2]. destruct (run_op_simulates _ _ _ Hs Hv1) as (h1 & Hm & Hs1).
  cbn [run_ops]. rewrite (bind_ok _ _ _ _ _ Hm). by apply IH.
Qed.

(** ** Traversals *)

Lemma forward_els h l A B :
  heap_ok h -> has_els h l (A ++ B) ->
  forward (length B) (hd null B.*1) h = Ok (B.*2, h).
Proof.
  intros Hh. revert A; induction B as [|[e v] B IH]; intros A Hl; [done|].
  assert (null < e < brk h) as He.
  { apply (is_list_live _ _ _ _ e Hh Hl). right. rewrite fmap_app. apply elem_of_app. right. left. }
  cbn [length forward fmap list_fmap hd fst snd]. rewrite (proj2 (Z.eqb_neq e null)) by lia.
  rewrite (load_bind _ _ _ _ _ (value_els _ _ _ _ _ _ Hl)).
  rewrite (bind_ok _ _ _ _ _ (Next_els _ _ _ _ _ _ Hh Hl)).
  rewrite cons_middle, app_assoc in Hl. by rewrite (bind_ok _ _ _ _ _ (IH _ Hl)).
Qed.

Lemma backward_els h l A B :
  heap_ok h -> has_els h l (A ++ B) ->
  backward (length A) (List.last A.*1 null) h = Ok (rev A.*2, h).
Proof.
  intros Hh. revert B; induction A as [|[e v] A IH] using rev_ind; intros B Hl; [done|].
  rewrite <- app_assoc in Hl. cbn [app] in Hl. assert (null < e < brk h) as He.
  { apply (is_list_live _ _ _ _ e Hh Hl). right. rewrite fmap_app. apply elem_of_app. right. left. }
  rewrite length_app, Nat.add_comm, !fmap_app. cbn [length Nat.add fmap list_fmap fst snd].
  rewrite last_last, rev_app_distr. cbn [rev app backward].
  rewrite (proj2 (Z.eqb_neq e null)) by lia.
  rewrite (load_bind _ _ _ _ _ (value_els _ _ _ _ _ _ Hl)).
  rewrite (bind_ok _ _ _ _ _ (Prev_els _ _ _ _ _ _ Hh Hl)).
  by rewrite (bind_ok _ _ _ _ _ (IH _ Hl)).
Qed.

Lemma read_list_els h l els :
  heap_ok h -> has_els h l els -> read_list l h = Ok ((els.*2, rev els.*2), h).
Proof.
  intros Hh Hl. unfold read_list. rewrite (bind_ok _ _ _ _ _ (Len_els _ _ _ Hl)).
  unfold len. rewrite Nat2Z.id. rewrite (bind_ok _ _ _ _ _ (Front_els _ _ _ Hh Hl)).
  rewrite (bind_ok _ _ _ _ _ (forward_els h l [] els Hh Hl)).
  rewrite (bind_ok _ _ _ _ _ (Back_els _ _ _ Hh Hl)). rewrite <- (app_nil_r els) in Hl.
  by rewrite (bind_ok _ _ _ _ _ (backward_els _ _ _ _ Hh Hl)).
Qed.

Definition emptyHeap : heap (V:=V) := mkHeap ∅ ∅ ∅ ∅ ∅ 1.

Lemma emptyHeap_simulates : simulates emptyHeap (∅, 1).
Proof.
  split; [|done|done]. split; cbn; unfold null.
  1-4: intros p; rewrite lookup_empty; split; [by intros [??]|lia].
  - intros p. rewrite lookup_empty. by intros [??].
  - done.
  - done.
Qed.

(** C18: the linked lists behave as sequences: any sequence of operations on lists and
    elements that exist runs without a panic, and afterwards a traversal of a list from
    the front reads the sequence that the same operations give on functional lists, a
    traversal from the back reads it backwards, and [Len] is its length. *)
Theorem linked_lists_refine os :
  ops_valid (∅, 1) os ->
  exists h, run_ops os emptyHeap = Ok (tt, h) /\
    forall l els, (run_spec os (∅, 1)).1 !! l = Some els ->
      read_list l h = Ok ((els.*2, rev els.*2), h) /\ Len l h = Ok (len els, h).
Proof.
  intros Hv. destruct (run_ops_simulates _ _ _ emptyHeap_simulates Hv) as (h & Hrun & Hs).
  exists h. split; [done|]. intros l els Hl. apply (sim_lists _ _ Hs) in Hl.
  split; [apply read_list_els|]; [apply Hs|done|by apply Len_els].
Qed.

End Refinement.

Lemma linked_lists_refine_witness :
  exists h, run_ops [ONewList; OPushBack 1 10; OPushFront 1 20; OInsertAfter 1 30 3; OMoveToFront 1 2;
                     OPushBackList 1 1; ORemove 1 4; OSetValue 2 11; OMoveAfter 1 5 2] emptyHeap
            = Ok (tt, h) /\ read_list 1 h = Ok (([11; 10; 20; 20; 30], [30; 20; 20; 10; 11]), h).
Proof.
  destruct (linked_lists_refine
    [ONewList; OPushBack 1 10; OPushFront 1 20; OInsertAfter 1 30 3; OMoveToFront 1 2;
     OPushBackList 1 1; ORemove 1 4; OSetValue 2 11; OMoveAfter 1 5 2]) as (h & Hrun & Hl).
  - vm_compute. repeat split; eauto.
  - exists h. split; [exact Hrun|].
    destruct (Hl 1 [(2, 11); (5, 10); (3, 20); (6, 20); (7, 30)]) as [Hr _]; [reflexivity|exact Hr].
Defined.
