(* ===== verification/HistoryRefinement.v ===== *)
(** * The received packet history on its linked list

    [receivedPacketHistory] of ackhandler/received_packet_history.go as the code has it:
    the ranges are a linked list on the heap, which the loops traverse and update in
    place.  The theorem relates it to the history of ReceivedPackets.v, whose ranges are
    the sequence of the values of that list. *)

From S2P Require Import Prelude Protocol Qerr AckFrame ReceivedPackets LinkedList ListRefinement.

#[global] Instance PacketInterval_inhabited : Inhabited PacketInterval :=
  populate (mkPacketInterval 0 0).

(** ** The code *)

Record heapHistory : Type := mkHeapHistory {
  hh_ranges : ptr;
  hh_receivedPacketNumbers : gset Z;
  hh_lowestInReceivedPacketNumbers : Z;
}.

(** Merges an extended range with the one before it, if they are adjacent. *)
Definition mergeWithPrev (l el : ptr) : M (V:=PacketInterval) unit :=
  prev ← Prev el;
  if prev =? null then mret tt
  else
    pv ← load values prev;
    v ← load values el;
    if u64 (iv_End pv + 1) =? iv_Start v then
      set_Value prev (mkPacketInterval (iv_Start pv) (iv_End v));;
      Remove l el;;
      mret tt
    else mret tt.

(** The loop of [ReceivedPacket]: [true] when it returns, [false] when it ends. *)
Fixpoint receivedPacketLoop (fuel : nat) (l : ptr) (p : Z) (el : ptr) : M (V:=PacketInterval) bool :=
  if el =? null then mret false
  else
    match fuel with
    | O => fun _ => Panic
    | S fuel =>
        v ← load values el;
        if (p >=? iv_Start v) && (p <=? iv_End v) then mret true
        else
          rangeExtended ←
            (if iv_End v =? u64 (p - 1) then set_Value el (mkPacketInterval (iv_Start v) p);; mret true
             else if iv_Start v =? u64 (p + 1)
             then set_Value el (mkPacketInterval p (iv_End v));; mret true
             else mret false);
          if (rangeExtended : bool) then mergeWithPrev l el;; mret true
          else
            v ← load values el;
            if p >? iv_End v then InsertAfter l (mkPacketInterval p p) el;; mret true
            else el ← Prev el; receivedPacketLoop fuel l p el
    end.

Definition heap_ReceivedPacket (hh : heapHistory) (p : Z)
    : M (V:=PacketInterval) (heapHistory * res unit) :=
  let l := hh_ranges hh in
  n ← Len l;
  if n >=? MaxTrackedReceivedAckRanges
  then mret (hh, Err errTooManyOutstandingReceivedAckRanges)
  else if Z.of_nat (size (hh_receivedPacketNumbers hh)) >=? MaxTrackedReceivedPackets
  then mret (hh, Err errTooManyOutstandingReceivedPackets)
  else
    let hh := mkHeapHistory l ({[p]} ∪ hh_receivedPacketNumbers hh)
                (hh_lowestInReceivedPacketNumbers hh) in
    if n =? 0 then PushBack l (mkPacketInterval p p);; mret (hh, Ok tt)
    else
      el ← Back l;
      returned ← receivedPacketLoop (Z.to_nat n) l p el;
      if (returned : bool) then mret (hh, Ok tt)
      else
        front ← Front l;
        InsertBefore l (mkPacketInterval p p) front;;
        mret (hh, Ok tt).

Fixpoint deleteBelowLoop (fuel : nat) (l : ptr) (leastUnacked : Z) (m : gset Z) (el : ptr)
    : M (V:=PacketInterval) (gset Z) :=
  if el =? null then mret m
  else
    match fuel with
    | O => fun _ => Panic
    | S fuel =>
        nextEl ← Next el;
        v ← load values el;
        if (leastUnacked >? iv_Start v) && (leastUnacked <=? iv_End v) then
          let m := deleteNumbers m (iv_Start v) (Z.to_nat (leastUnacked - iv_Start v)) in
          set_Value el (mkPacketInterval leastUnacked (iv_End v));;
          deleteBelowLoop fuel l leastUnacked m nextEl
        else if iv_End v <? leastUnacked then
          let m := deleteNumbers m (iv_Start v) (Z.to_nat (iv_End v + 1 - iv_Start v)) in
          Remove l el;;
          deleteBelowLoop fuel l leastUnacked m nextEl
        else mret m
    end.

Definition heap_DeleteBelow (hh : heapHistory) (leastUnacked : Z) : M (V:=PacketInterval) heapHistory :=
  let l := hh_ranges hh in
  n ← Len l;
  el ← Front l;
  m ← deleteBelowLoop (Z.to_nat n) l leastUnacked (hh_receivedPacketNumbers hh) el;
  mret (mkHeapHistory l m (MaxPacketNumber (hh_lowestInReceivedPacketNumbers hh) leastUnacked)).

Definition heap_GetAckRanges (hh : heapHistory) : M (V:=PacketInterval) (list AckRange) :=
  let l := hh_ranges hh in
  n ← Len l;
  if n =? 0 then mret []
  else
    el ← Back l;
    vs ← backward (Z.to_nat n) el;
    mret (map (fun v => mkAckRange (iv_Start v) (iv_End v)) vs).

Definition heap_GetHighestAckRange (hh : heapHistory) : M (V:=PacketInterval) AckRange :=
  let l := hh_ranges hh in
  n ← Len l;
  if n >? 0 then
    el ← Back l;
    r ← load values el;
    mret (mkAckRange (iv_Start r) (iv_End r))
  else mret (mkAckRange 0 0).

Definition heap_newReceivedPacketHistory : M (V:=PacketInterval) heapHistory :=
  l ← NewList; mret (mkHeapHistory l ∅ 0).

Definition heap_IsDuplicate (hh : heapHistory) (p : Z) : bool :=
  if p <? hh_lowestInReceivedPacketNumbers hh then true
  else bool_decide (p ∈ hh_receivedPacketNumbers hh).

(** A sequence of calls, and the errors they return *)
Inductive call : Type :=
| CReceivedPacket (p : Z)
| CDeleteBelow (leastUnacked : Z).

Fixpoint heap_calls (cs : list call) (hh : heapHistory)
    : M (V:=PacketInterval) (heapHistory * list (res unit)) :=
  match cs with
  | [] => mret (hh, [])
  | CReceivedPacket p :: cs =>
      x ← heap_ReceivedPacket hh p;
      y ← heap_calls cs x.1;
      mret (y.1, x.2 :: y.2)
  | CDeleteBelow n :: cs => hh ← heap_DeleteBelow hh n; heap_calls cs hh
  end.

Fixpoint calls (cs : list call) (s : receivedPacketHistory)
    : receivedPacketHistory * list (res unit) :=
  match cs with
  | [] => (s, [])
  | CReceivedPacket p :: cs =>
      let x := History_ReceivedPacket s p in
      let y := calls cs x.1 in
      (y.1, x.2 :: y.2)
  | CDeleteBelow n :: cs => calls cs (DeleteBelow s n)
  end.

(** ** The loops *)

(** The ranges after [ReceivedPacket] extended [v] *)
Definition merged (before : list PacketInterval) (v : PacketInterval) (after : list PacketInterval)
    : list PacketInterval :=
  match before with
  | prev :: before' =>
      if u64 (iv_End prev + 1) =? iv_Start v
      then rev_append before' (mkPacketInterval (iv_Start prev) (iv_End v) :: after)
      else rev_append before (v :: after)
  | [] => v :: after
  end.

Lemma mergeWithPrev_refines h l A e v B :
  heap_ok h -> has_els h l (A ++ (e, v) :: B) ->
  exists els, gives (mergeWithPrev l e) h l tt (brk h) els /\ els.*2 = merged (rev A.*2) v B.*2.
Proof.
  intros Hh Hl. unfold mergeWithPrev, gives.
  destruct A as [|[q w] A _] using rev_ind.
  { exists ((e, v) :: B). split; [|done]. eapply yields_read; [by eapply Prev_els|]. by apply yields_ret. }
  pose proof Hl as Hl2. rewrite <- app_assoc in Hl2. cbn [app] in Hl2.
  destruct (els_live _ _ _ _ _ _ Hh Hl2) as ((? & ?) & HA & HB).
  destruct (els_live _ _ _ _ _ _ Hh Hl) as (He & HA' & HB').
  rewrite fmap_app, rev_app_distr. cbn [fmap list_fmap snd rev app merged].
  destruct (u64 (iv_End w + 1) =? iv_Start v) eqn:Hadj.
  - exists (A ++ (q, mkPacketInterval (iv_Start w) (iv_End v)) :: B). split.
    2: { rewrite fmap_app, rev_append_rev, rev_involutive. done. }
    eapply yields_read; [by eapply Prev_els|]. rewrite fmap_app. cbn [fmap list_fmap fst].
    rewrite last_last, (proj2 (Z.eqb_neq q null)) by lia.
    eapply yields_load; [by eapply value_els|]. eapply yields_load; [by eapply value_els|].
    rewrite Hadj. eapply yields_bind; [by eapply set_Value_els|].
    intros h1 Hh1 Hl1 Hb1. cbn beta. change (is_list h1 l ?a.*1 ?a.*2) with (has_els h1 l a) in Hl1.
    rewrite <- Hb1 in He.
    destruct (Remove_els h1 l _ Hh1 Hl1 e He) as (x & _ & Hr).
    rewrite cons_middle, app_assoc, remove_el_split in Hr.
    2: { rewrite fmap_app in *. done. }
    rewrite <- app_assoc in Hr. cbn [app] in Hr.
    eapply yields_bind; [exact Hr|]. intros h2 Hh2 Hl2' Hb2. rewrite Hb1 in Hb2. rewrite <- Hb2.
    by apply yields_ret.
  - exists ((A ++ [(q, w)]) ++ (e, v) :: B). split.
    + eapply yields_read; [by eapply Prev_els|]. rewrite fmap_app. cbn [fmap list_fmap fst].
      rewrite last_last, (proj2 (Z.eqb_neq q null)) by lia.
      eapply yields_load; [by eapply value_els|]. eapply yields_load; [by eapply value_els|].
      rewrite Hadj. by apply yields_ret.
    + rewrite rev_append_rev. cbn [rev]. rewrite rev_involutive, !fmap_app. cbn.
      by rewrite <- !app_assoc.
Qed.

(** One iteration per element from the back; [A] is still to be visited. *)
Lemma receivedPacketLoop_refines h l p A B :
  heap_ok h -> has_els h l (A ++ B) ->
  exists r b els, gives (receivedPacketLoop (length A) l p (List.last A.*1 null)) h l r b els /\
    (if r then els.*2 = insertPacket p (rev A.*2) B.*2
     else els = A ++ B /\ insertPacket p (rev A.*2) B.*2 = mkPacketInterval p p :: els.*2).
Proof.
  intros Hh. revert B; induction A as [|[e v] A IH] using rev_ind; intros B Hl.
  { exists false, (brk h), B. split; [by apply yields_ret|done]. }
  rewrite <- app_assoc in Hl |- *. cbn [app] in Hl |- *.
  destruct (els_live _ _ _ _ _ _ Hh Hl) as (He & HA & HB).
  rewrite length_app, Nat.add_comm, !fmap_app. cbn [length Nat.add fmap list_fmap fst snd].
  rewrite last_last, rev_app_distr. cbn [rev app receivedPacketLoop insertPacket].
  rewrite (proj2 (Z.eqb_neq e null)) by lia.
  pose proof (value_els _ _ _ _ _ _ Hl) as Hv.
  assert (forall v' k P, exists r b els,
    gives ((set_Value e v';; mret true) ≫= fun ext : bool =>
             if ext then mergeWithPrev l e;; mret true else k) h l r b els /\
    if r then els.*2 = merged (rev A.*2) v' B.*2 else P els) as Hext.
  { intros v' k P. destruct (set_Value_els h l A e v B v' Hh Hl) as (h1 & Hs & Hh1 & Hl1 & Hf1 & Hb1).
    destruct (mergeWithPrev_refines h1 l A e v' B Hh1 Hl1) as (els & (h2 & Hm & Hh2 & Hl2 & Hf2 & Hb2) & Heq).
    exists true, (brk h), els. split; [|done]. exists h2. unfold mbind at 1, M_bind at 1.
    rewrite (bind_ok _ _ _ _ _ Hs). cbn. rewrite (bind_ok _ _ _ _ _ Hm).
    split_and!; [done|done|done|by eapply frame_trans|congruence]. }
  destruct ((p >=? iv_Start v) && (p <=? iv_End v)) eqn:Hin.
  { exists true, (brk h), (A ++ (e, v) :: B). split.
    - eapply yields_load; [exact Hv|]. rewrite Hin. by apply yields_ret.
    - rewrite rev_append_rev. cbn [rev]. by rewrite rev_involutive, <- app_assoc, fmap_app. }
  destruct (iv_End v =? u64 (p - 1)) eqn:H1; [|destruct (iv_Start v =? u64 (p + 1)) eqn:H2].
  - edestruct (Hext (mkPacketInterval (iv_Start v) p)) as (r & b & els & Hg & Hr).
    exists r, b, els. split; [|destruct r; [exact Hr|exact Hr]].
    eapply yields_load; [exact Hv|]. rewrite Hin, H1. exact Hg.
  - edestruct (Hext (mkPacketInterval p (iv_End v))) as (r & b & els & Hg & Hr).
    exists r, b, els. split; [|destruct r; [exact Hr|exact Hr]].
    eapply yields_load; [exact Hv|]. rewrite Hin, H1, H2. exact Hg.
  - destruct (p >? iv_End v) eqn:H3.
    + pose proof (InsertAfter_els h l _ Hh Hl (mkPacketInterval p p) e He) as Hi.
      rewrite bool_decide_true in Hi by (rewrite fmap_app; apply elem_of_app; right; left).
      rewrite insert_after_split in Hi by done.
      exists true, (brk h + 1), (A ++ (e, v) :: (brk h, mkPacketInterval p p) :: B). split.
      * eapply yields_load; [exact Hv|]. rewrite Hin, H1, H2. eapply yields_read; [done|].
        eapply yields_load; [exact Hv|]. rewrite H3. eapply yields_bind; [exact Hi|].
        intros h1 Hh1 Hl1 Hb1. rewrite <- Hb1. by apply (yields_ret true).
      * cbn beta iota. rewrite rev_append_rev. cbn [rev].
        by rewrite rev_involutive, <- app_assoc, fmap_app.
    + destruct (IH ((e, v) :: B) Hl) as (r & b & els & Hg & Hr). exists r, b, els. split; [|done].
      eapply yields_load; [exact Hv|]. rewrite Hin, H1, H2. eapply yields_read; [done|].
      eapply yields_load; [exact Hv|]. rewrite H3. eapply yields_read; [by eapply Prev_els|]. exact Hg.
Qed.

(** The elements that [DeleteBelow] keeps are the last ones; [A] has been kept with a
    new start. *)
Lemma deleteBelowLoop_refines h l leastUnacked m A B :
  heap_ok h -> has_els h l (A ++ B) ->
  exists m' B', gives (deleteBelowLoop (length B) l leastUnacked m (hd null B.*1)) h l m' (brk h) (A ++ B') /\
    (B'.*2, m') = DeleteBelow_loop leastUnacked B.*2 m.
Proof.
  intros Hh. revert h Hh m A; induction B as [|[e v] B IH]; intros h Hh m A Hl.
  { exists m, []. split; [by apply yields_ret|done]. }
  destruct (els_live _ _ _ _ _ _ Hh Hl) as (He & HA & HB).
  pose proof (value_els _ _ _ _ _ _ Hl) as Hv.
  cbn [length fmap list_fmap fst snd hd deleteBelowLoop DeleteBelow_loop].
  rewrite (proj2 (Z.eqb_neq e null)) by lia.
  destruct ((leastUnacked >? iv_Start v) && (leastUnacked <=? iv_End v)) eqn:H1;
    [|destruct (iv_End v <? leastUnacked) eqn:H2].
  - set (m1 := deleteNumbers m (iv_Start v) (Z.to_nat (leastUnacked - iv_Start v))).
    set (v' := mkPacketInterval leastUnacked (iv_End v)).
    destruct (set_Value_els h l A e v B v' Hh Hl) as (h1 & Hs & Hh1 & Hl1 & Hf1 & Hb1).
    change (has_els h1 l (A ++ (e, v') :: B)) in Hl1. rewrite cons_middle, app_assoc in Hl1.
    destruct (IH h1 Hh1 m1 _ Hl1) as (m' & B' & (h2 & Hm & Hh2 & Hl2 & Hf2 & Hb2) & Heq).
    exists m', ((e, v') :: B'). split.
    + eapply yields_read; [by eapply Next_els|]. eapply yields_load; [exact Hv|]. rewrite H1.
      exists h2. rewrite (bind_ok _ _ _ _ _ Hs). rewrite <- app_assoc in Hl2.
      split_and!; [done|done|done|by eapply frame_trans|congruence].
    + cbn. by rewrite <- Heq.
  - set (m1 := deleteNumbers m (iv_Start v) (Z.to_nat (iv_End v + 1 - iv_Start v))).
    destruct (Remove_els h l _ Hh Hl e He) as (x & _ & (h1 & Hs & Hh1 & Hl1 & Hf1 & Hb1)).
    rewrite remove_el_split in Hl1 by done.
    destruct (IH h1 Hh1 m1 _ Hl1) as (m' & B' & (h2 & Hm & Hh2 & Hl2 & Hf2 & Hb2) & Heq).
    exists m', B'. split; [|done].
    eapply yields_read; [by eapply Next_els|]. eapply yields_load; [exact Hv|]. rewrite H1, H2.
    exists h2. rewrite (bind_ok _ _ _ _ _ Hs).
    split_and!; [done|done|done|by eapply frame_trans|congruence].
  - exists m, ((e, v) :: B). split; [|done].
    eapply yields_read; [by eapply Next_els|]. eapply yields_load; [exact Hv|]. rewrite H1, H2.
    by apply yields_ret.
Qed.

(** ** The refinement *)

(** The history [s] is what the heap holds. *)
Record represents (h : heap) (hh : heapHistory) (s : receivedPacketHistory) : Prop := {
  rep_ok : heap_ok h;
  rep_ranges : exists els, has_els h (hh_ranges hh) els /\ els.*2 = ranges s;
  rep_numbers : hh_receivedPacketNumbers hh = receivedPacketNumbers s;
  rep_lowest : hh_lowestInReceivedPacketNumbers hh = lowestInReceivedPacketNumbers s;
}.

Lemma gives_represents {A} (m : M A) h l r b els nums low :
  gives m h l r b els ->
  exists h', m h = Ok (r, h') /\ frame l h h' /\
    represents h' (mkHeapHistory l nums low) (mkReceivedPacketHistory els.*2 nums low).
Proof. intros (h' & Hm & Hh' & Hl' & Hf & _). exists h'. split_and!; [done|done|]. split; eauto. Qed.

Lemma heap_ReceivedPacket_refines h hh s p :
  represents h hh s ->
  exists h' hh', heap_ReceivedPacket hh p h = Ok ((hh', (History_ReceivedPacket s p).2), h') /\
    represents h' hh' (History_ReceivedPacket s p).1 /\ frame (hh_ranges hh) h h'.
Proof.
  intros [Hh (els & Hl & Hels) Hn Hlow]. unfold heap_ReceivedPacket, History_ReceivedPacket.
  assert (len els = len (ranges s)) as Hlen by (rewrite <- Hels; unfold len; by rewrite length_fmap).
  rewrite (bind_ok _ _ _ _ _ (Len_els _ _ _ Hl)), Hlen, Hn.
  case_if; [exists h, hh; split_and!; [done|split; eauto|apply frame_refl]|].
  case_if; [exists h, hh; split_and!; [done|split; eauto|apply frame_refl]|].
  set (l := hh_ranges hh) in *. set (nums := {[p]} ∪ receivedPacketNumbers s). rewrite Hlow.
  set (low := lowestInReceivedPacketNumbers s). set (hh' := mkHeapHistory l nums low).
  cbn [fst snd]. rewrite <- Hlen, <- Hels. destruct (len els =? 0) eqn:Hz.
  { to_prop. apply len_zero in Hz as ->.
    assert (gives (PushBack l (mkPacketInterval p p)) h l (brk h) (brk h + 1)
              [(brk h, mkPacketInterval p p)]) as Hp by (by apply (PushBack_spec h l [] [])).
    destruct (gives_represents _ _ _ _ _ _ nums low Hp) as (h' & Hm & Hf & Hr).
    exists h', hh'. by rewrite (bind_ok _ _ _ _ _ Hm). }
  rewrite (bind_ok _ _ _ _ _ (Back_els _ _ _ Hh Hl)). rewrite <- (app_nil_r els) in Hl.
  destruct (receivedPacketLoop_refines h l p els [] Hh Hl) as (r & b & els' & Hg & Hr).
  unfold len. rewrite Nat2Z.id. pose proof Hg as (h1 & Hm & Hh1 & Hl1 & Hf1 & Hb1).
  rewrite (bind_ok _ _ _ _ _ Hm). destruct r.
  { destruct (gives_represents _ _ _ _ _ _ nums low Hg) as (h' & Hm' & Hf & Hrep).
    rewrite Hm in Hm'. injection Hm' as <-. exists h1, hh'. cbn in Hr. by rewrite <- Hr. }
  destruct Hr as [-> Hr]. rewrite app_nil_r in *. cbn in Hr. rewrite Hr.
  rewrite (bind_ok _ _ _ _ _ (Front_els _ _ _ Hh1 Hl1)).
  destruct els as [|[e v] els]; [done|]. cbn [fmap list_fmap hd fst].
  destruct (els_live _ _ [] _ _ _ Hh1 Hl1) as (He & _).
  pose proof (InsertBefore_els h1 l _ Hh1 Hl1 (mkPacketInterval p p) e He) as Hi.
  rewrite bool_decide_true in Hi by (left). cbn [insert_before fst] in Hi. rewrite Z.eqb_refl in Hi.
  destruct (gives_represents _ _ _ _ _ _ nums low Hi) as (h' & Hm' & Hf & Hrep).
  exists h', hh'. rewrite (bind_ok _ _ _ _ _ Hm'). split_and!; [done|done|by eapply frame_trans].
Qed.

Lemma heap_DeleteBelow_refines h hh s leastUnacked :
  represents h hh s ->
  exists h' hh', heap_DeleteBelow hh leastUnacked h = Ok (hh', h') /\
    represents h' hh' (DeleteBelow s leastUnacked) /\ frame (hh_ranges hh) h h'.
Proof.
  intros [Hh (els & Hl & Hels) Hn Hlow]. unfold heap_DeleteBelow, DeleteBelow.
  rewrite (bind_ok _ _ _ _ _ (Len_els _ _ _ Hl)), (bind_ok _ _ _ _ _ (Front_els _ _ _ Hh Hl)).
  unfold len. rewrite Nat2Z.id, Hn, Hlow, <- Hels.
  destruct (deleteBelowLoop_refines h (hh_ranges hh) leastUnacked (receivedPacketNumbers s) [] els Hh Hl)
    as (m' & B' & Hg & <-).
  destruct (gives_represents _ _ _ _ _ _ m' (MaxPacketNumber (lowestInReceivedPacketNumbers s) leastUnacked) Hg)
    as (h' & Hm & Hf & Hrep).
  eexists h', _. by rewrite (bind_ok _ _ _ _ _ Hm).
Qed.

Lemma heap_reads h hh s :
  represents h hh s ->
  heap_GetAckRanges hh h = Ok (GetAckRanges s, h) /\
  heap_GetHighestAckRange hh h = Ok (GetHighestAckRange s, h).
Proof.
  intros [Hh (els & Hl & Hels) Hn Hlow].
  unfold heap_GetAckRanges, heap_GetHighestAckRange, GetAckRanges, GetHighestAckRange.
  rewrite !(bind_ok _ _ _ _ _ (Len_els _ _ _ Hl)). rewrite <- Hels.
  destruct els as [|[e v] els _] using rev_ind; [done|].
  rewrite len_app, len_cons, len_nil. pose proof (len_nonneg els).
  rewrite (proj2 (Z.eqb_neq _ _)), (proj2 (Z.gtb_lt _ _)) by lia.
  rewrite !(bind_ok _ _ _ _ _ (Back_els _ _ _ Hh Hl)). split.
  - pose proof Hl as Hl2. rewrite <- (app_nil_r (els ++ _)) in Hl2.
    replace (Z.to_nat _) with (length (els ++ [(e, v)])) by (unfold len; rewrite length_app; simpl; lia).
    by rewrite (bind_ok _ _ _ _ _ (backward_els _ _ _ _ Hh Hl2)).
  - rewrite !fmap_app. cbn [fmap list_fmap fst snd]. rewrite last_last, rev_app_distr.
    by rewrite (load_bind _ _ _ _ _ (value_els _ _ _ _ _ _ Hl)).
Qed.

Lemma heap_calls_refine cs h hh s :
  represents h hh s ->
  exists h' hh', heap_calls cs hh h = Ok ((hh', (calls cs s).2), h') /\
    represents h' hh' (calls cs s).1.
Proof.
  revert h hh s; induction cs as [|[p|n] cs IH]; intros h hh s Hr; [by exists h, hh| |].
  - destruct (heap_ReceivedPacket_refines _ _ _ p Hr) as (h1 & hh1 & Hm & Hr1 & _).
    destruct (IH _ _ _ Hr1) as (h2 & hh2 & Hm2 & Hr2). exists h2, hh2. cbn [heap_calls calls fst snd].
    by rewrite (bind_ok _ _ _ _ _ Hm), (bind_ok _ _ _ _ _ Hm2).
  - destruct (heap_DeleteBelow_refines _ _ _ n Hr) as (h1 & hh1 & Hm & Hr1 & _).
    destruct (IH _ _ _ Hr1) as (h2 & hh2 & Hm2 & Hr2). exists h2, hh2. cbn [heap_calls calls].
    by rewrite (bind_ok _ _ _ _ _ Hm).
Qed.

(** C19: the history that keeps its ranges in a linked list, and updates it in place while
    it traverses it, refines the history that keeps them in a sequence: after any sequence
    of received packets and STOP_WAITINGs it has returned the same errors, reports the
    same ACK ranges and the same duplicates, and has not dereferenced a nil pointer. *)
Theorem received_history_refines cs :
  let s := calls cs newReceivedPacketHistory in
  exists h hh,
    (hh0 ← heap_newReceivedPacketHistory; heap_calls cs hh0) emptyHeap = Ok ((hh, s.2), h) /\
    heap_GetAckRanges hh h = Ok (GetAckRanges s.1, h) /\
    heap_GetHighestAckRange hh h = Ok (GetHighestAckRange s.1, h) /\
    forall p, heap_IsDuplicate hh p = IsDuplicate s.1 p.
Proof.
  intros s. destruct (NewList_spec (V:=PacketInterval) emptyHeap) as (h0 & Hnew & Hh0 & Hl0 & _);
    [apply emptyHeap_simulates|].
  destruct (heap_calls_refine cs h0 (mkHeapHistory 1 ∅ 0) newReceivedPacketHistory)
    as (h & hh & Hm & Hr); [by split; [|exists []| |]|].
  exists h, hh. split_and!.
  - unfold heap_newReceivedPacketHistory, mbind, M_bind. rewrite Hnew. exact Hm.
  - by apply heap_reads.
  - by apply heap_reads.
  - intros p. unfold heap_IsDuplicate, IsDuplicate. destruct Hr as [_ _ -> ->]. done.
Qed.
