(* ===== verification/SorterRefinement.v ===== *)
(** * The frame sorter on its linked list

    [streamFrameSorter] of stream_frame_sorter.go as the code has it: the gaps are a linked
    list on the heap (utils/byteinterval_linkedlist.go), which [Push] traverses with the
    pointers [gap] and [endGap], removing elements behind itself and assigning to the values
    of the elements.  The theorem relates it to the sorter of StreamFrameSorter.v, whose gaps
    are the sequence of the values of that list. *)

From S2P Require Import Prelude Protocol Frames StreamFrameSorter LinkedList ListRefinement.

#[global] Instance ByteInterval_inhabited : Inhabited ByteInterval := populate (mkByteInterval 0 0).

(** ** The code *)

Record heapSorter : Type := mkHeapSorter {
  hs_queuedFrames : gmap Z StreamFrame;
  hs_readPosition : Z;
  hs_gaps : ptr;
}.
#[local] Abbreviation MB := (M (V := ByteInterval)).

Definition heap_newStreamFrameSorter : MB heapSorter :=
  l ← NewList;
  PushFront l (mkByteInterval 0 MaxByteCount);;
  mret (mkHeapSorter ∅ 0 l).

(** The loop that skips the gaps before the frame *)
Inductive heapGap : Type :=
| HFound (gap : ptr)
| HDuplicate
| HNone.
Fixpoint findGapLoop (fuel : nat) (start end_ : Z) (gap : ptr) : MB heapGap :=
  if gap =? null then mret HNone
  else
    match fuel with
    | O => fun _ => Panic
    | S fuel =>
        v ← load values gap;
        if end_ <=? bi_Start v then mret HDuplicate
        else if (end_ >? bi_Start v) && (start <=? bi_End v) then mret (HFound gap)
        else gap ← Next gap; findGapLoop fuel start end_ gap
    end.

(** The loop that looks for the end gap; [true] if there is no next gap *)
Fixpoint findEndGapLoop (fuel : nat) (l : ptr) (end_ : Z) (gap endGap : ptr) (q : gmap Z StreamFrame)
    : MB (ptr * gmap Z StreamFrame * bool) :=
  match fuel with
  | O => fun _ => Panic
  | S fuel =>
      v ← load values endGap;
      if end_ >=? bi_End v then
        nextEndGap ← Next endGap;
        if nextEndGap =? null then mret (endGap, q, true)
        else
          (if negb (endGap =? gap) then Remove l endGap;; mret tt else mret tt);;
          nv ← load values nextEndGap;
          if end_ <=? bi_Start nv then mret (endGap, q, false)
          else
            v ← load values endGap;
            findEndGapLoop fuel l end_ gap nextEndGap (delete (bi_End v) q)
      else mret (endGap, q, false)
  end.

(** The update of the gaps *)
Definition updateGapsHeap (l : ptr) (start end_ : Z) (gap endGap : ptr) : MB unit :=
  gv ← load values gap;
  if start =? bi_Start gv then
    (if end_ >=? bi_End gv then Remove l gap;; mret tt else mret tt);;
    ev ← load values endGap;
    if end_ <? bi_End ev then set_Value endGap (mkByteInterval end_ (bi_End ev)) else mret tt
  else
    ev ← load values endGap;
    if end_ =? bi_End ev then set_Value gap (mkByteInterval (bi_Start gv) start)
    else if gap =? endGap then
      InsertAfter l (mkByteInterval end_ (bi_End gv)) gap;;
      gv ← load values gap;
      set_Value gap (mkByteInterval (bi_Start gv) start)
    else
      set_Value gap (mkByteInterval (bi_Start gv) start);;
      ev ← load values endGap;
      set_Value endGap (mkByteInterval end_ (bi_End ev)).

(** [Push] from the search for the gap on *)
Definition heap_pushData (s : heapSorter) (frame : StreamFrame) : MB (heapSorter * res unit) :=
  let l := hs_gaps s in
  let start := sf_Offset frame in
  let end_ := u64 (sf_Offset frame + StreamFrame_DataLen frame) in
  n ← Len l;
  front ← Front l;
  found ← findGapLoop (Z.to_nat n) start end_ front;
  match found with
  | HDuplicate => mret (s, Err errDuplicateStreamData)
  | HNone => mret (s, Err errNoGapFound)
  | HFound gap =>
      gv ← load values gap;
      let add := bi_Start gv - start in
      let '(start, front) :=
        if start <? bi_Start gv
        then (u64 (start + add), let! d := sliceFrom (sf_Data frame) add in
                                 Ok (setFrame frame (u64 (sf_Offset frame + add)) d))
        else (start, Ok frame) in
      match front with
      | Ok frame =>
          '(endGap, q, bug) ← findEndGapLoop (Z.to_nat n) l end_ gap gap (hs_queuedFrames s);
          let s := mkHeapSorter q (hs_readPosition s) l in
          if bug : bool then mret (s, Err errNoEndGapFound)
          else
            ev ← load values endGap;
            let cutLen := end_ - bi_End ev in
            let '(end_, back) :=
              if end_ >? bi_End ev
              then (end_ - cutLen,
                    let! d := sliceTo (sf_Data frame) (u64 (StreamFrame_DataLen frame - cutLen)) in
                    Ok (setFrame frame (sf_Offset frame) d))
              else (end_, Ok frame) in
            match back with
            | Ok frame =>
                updateGapsHeap l start end_ gap endGap;;
                n ← Len l;
                if n >? MaxStreamFrameSorterGaps then mret (s, Err errTooManyGapsInReceivedStreamData)
                else mret (mkHeapSorter (<[sf_Offset frame := frame]> q) (hs_readPosition s) l, Ok tt)
            | Err e => mret (s, Err e)
            | Panic => mret (s, Panic)
            end
      | Err e => mret (s, Err e)
      | Panic => mret (s, Panic)
      end
  end.

Definition heap_Push (s : heapSorter) (frame : StreamFrame) : MB (heapSorter * res unit) :=
  if StreamFrame_DataLen frame =? 0 then
    if sf_FinBit frame
    then mret (mkHeapSorter (<[sf_Offset frame := frame]> (hs_queuedFrames s)) (hs_readPosition s) (hs_gaps s), Ok tt)
    else mret (s, Err errEmptyStreamData)
  else
    match hs_queuedFrames s !! sf_Offset frame with
    | Some oldFrame =>
        if StreamFrame_DataLen frame <=? StreamFrame_DataLen oldFrame
        then mret (s, Err errDuplicateStreamData)
        else
          match sliceFrom (sf_Data frame) (StreamFrame_DataLen oldFrame) with
          | Ok d => heap_pushData s (setFrame frame (u64 (sf_Offset frame + StreamFrame_DataLen oldFrame)) d)
          | Err e => mret (s, Err e)
          | Panic => mret (s, Panic)
          end
    | None => heap_pushData s frame
    end.

Definition heap_Head (s : heapSorter) : option StreamFrame := hs_queuedFrames s !! hs_readPosition s.
Definition heap_Pop (s : heapSorter) : heapSorter * option StreamFrame :=
  match heap_Head s with
  | Some frame =>
      (mkHeapSorter (delete (sf_Offset frame) (hs_queuedFrames s)) (u64 (hs_readPosition s + StreamFrame_DataLen frame)) (hs_gaps s),
       Some frame)
  | None => (s, None)
  end.

(** ** The loops *)

Lemma findGapLoop_refines h l start end_ A B :
  heap_ok h -> has_els h l (A ++ B) ->
  exists r, findGapLoop (length B) start end_ (hd null B.*1) h = Ok (r, h) /\
    match findGap start end_ (rev A.*2) B.*2 with
    | gapFound passed gap rest => exists A' e B', A ++ B = A' ++ (e, gap) :: B' /\ passed = rev A'.*2 /\ rest = B'.*2 /\ r = HFound e
    | gapDuplicate => r = HDuplicate
    | gapNone => r = HNone
    end.
Proof.
  intros Hh. revert A. induction B as [|[e v] B IH]; intros A Hl; [by exists HNone|].
  destruct (els_live _ _ _ _ _ _ Hh Hl) as (He & _). cbn [length fmap list_fmap hd fst snd findGapLoop findGap].
  rewrite (proj2 (Z.eqb_neq e null)) by lia. rewrite (load_bind _ _ _ _ _ (value_els _ _ _ _ _ _ Hl)).
  case_if; [by exists HDuplicate|]. case_if.
  { exists (HFound e). split; [done|]. by exists A, e, B. }
  rewrite (bind_ok _ _ _ _ _ (Next_els _ _ _ _ _ _ Hh Hl)). rewrite cons_middle, app_assoc in Hl.
  destruct (IH (A ++ [(e, v)]) Hl) as (r & Hr & Hf). exists r. split; [exact Hr|].
  rewrite fmap_app, rev_app_distr in Hf. cbn [fmap list_fmap snd rev app] in Hf. by rewrite <- app_assoc in Hf.
Qed.

(** What the loop for the end gap leaves: [P] are the elements before the end gap *)
Record endGapHeap (l : ptr) (gap : ptr) (end_ : Z) (h h' : heap (V := ByteInterval)) (e : ptr) (eg : endGapSearch) (P B : list (ptr * ByteInterval))
    : Prop := {
  eh_ok : heap_ok h';
  eh_frame : frame l h h';
  eh_brk : brk h' = brk h;
  eh_value : values h' !! e = Some (egGap eg);
  eh_isGap : (e =? gap) = egIsGap eg;
  eh_rest : egRest eg = B.*2;
  eh_els : has_els h' l (P ++ (if egRemoved eg then [] else [(e, egGap eg)]) ++ B);
  eh_removed : egRemoved eg = true -> egIsGap eg = false /\ bi_End (egGap eg) <= end_;
  eh_bug : egBug eg = true -> egRemoved eg = false;
}.

Lemma endGap_stay h l gap end_ P e v B q bug :
  heap_ok h -> has_els h l (P ++ (e, v) :: B) ->
  endGapHeap l gap end_ h h e (mkEndGapSearch q v (e =? gap) false B.*2 bug) P B.
Proof. intros Hh Hl. split; cbn; try done; [apply frame_refl|by eapply value_els]. Qed.

Lemma findEndGap_not_gap end_ v B q : egIsGap (findEndGap end_ false v B q) = false.
Proof. revert v q. induction B as [|v2 B IH]; intros v q; cbn [findEndGap]; repeat case_match; done || apply IH. Qed.

(** The step from one end gap to the next one *)
Lemma endGap_frame l gap end_ h h1 h' e eg P B :
  frame l h h1 -> brk h1 = brk h -> endGapHeap l gap end_ h1 h' e eg P B -> endGapHeap l gap end_ h h' e eg P B.
Proof. intros Hf Hb [? Hf1 Hb1 ? ? ? ? ? ?]. split; try done; [by eapply frame_trans|congruence]. Qed.

Lemma findEndGapLoop_refines fuel B h l end_ gap P e v q :
  (length B < fuel)%nat -> heap_ok h -> has_els h l (P ++ (e, v) :: B) -> (e <> gap -> gap ∈ P.*1) ->
  let eg := findEndGap end_ (e =? gap) v B.*2 q in
  exists h' e' B', findEndGapLoop fuel l end_ gap e q h = Ok ((e', egQueue eg, egBug eg), h') /\
    endGapHeap l gap end_ h h' e' eg (if egIsGap eg then P else if e =? gap then P ++ [(e, v)] else P) B'.
Proof.
  assert (forall b, (if b : bool then P else if b then P ++ [(e, v)] else P) = P) as HP by by intros [].
  revert fuel h P e v q HP. induction B as [|[e2 v2] B IH]; intros [|fuel] h P e v q HP Hfu Hh Hl Hg; cbn [length] in Hfu; try lia; cbn zeta;
    cbn [length findEndGapLoop fmap list_fmap findEndGap snd]; rewrite (load_bind _ _ _ _ _ (value_els _ _ _ _ _ _ Hl)); case_if.
  - rewrite (bind_ok _ _ _ _ _ (Next_els _ _ _ _ _ _ Hh Hl)). exists h, e, []. cbn. rewrite HP. split; [done|]. by apply (endGap_stay h l gap end_ P e v []).
  - exists h, e, []. cbn. rewrite HP. split; [done|]. by apply (endGap_stay h l gap end_ P e v []).
  - rewrite (bind_ok _ _ _ _ _ (Next_els _ _ _ _ _ _ Hh Hl)). cbn [fmap list_fmap hd fst].
    assert (has_els h l ((P ++ [(e, v)]) ++ (e2, v2) :: B)) as Hl2 by by rewrite <- app_assoc.
    destruct (els_live _ _ _ _ _ _ Hh Hl2) as (He2 & HP2 & _). rewrite fmap_app in HP2. rewrite (proj2 (Z.eqb_neq e2 null)) by lia.
    destruct (Z.eqb_spec e gap) as [->|Hne]; cbn [negb].
    + rewrite (bind_ok _ _ _ _ _ eq_refl). rewrite (load_bind _ _ _ _ _ (value_els _ _ _ _ _ _ Hl2)). case_if.
      * exists h, gap, ((e2, v2) :: B). cbn. split; [done|]. pose proof (endGap_stay h l gap end_ P gap v ((e2, v2) :: B) q false Hh Hl) as Hs.
        by rewrite Z.eqb_refl in Hs.
      * rewrite (load_bind _ _ _ _ _ (value_els _ _ _ _ _ _ Hl)).
        destruct (IH fuel h (P ++ [(gap, v)]) e2 v2 (delete (bi_End v) q)) as (h' & e' & B' & Hr & He'); [by intros []|lia|done|done| |].
        { intros _. rewrite fmap_app. apply elem_of_app. right. left. }
        assert ((e2 =? gap) = false) as E2 by (apply Z.eqb_neq; set_solver). rewrite E2 in Hr, He'.
        exists h', e', B'. split; [exact Hr|]. rewrite !findEndGap_not_gap in *. exact He'.
    + destruct (Remove_values _ _ _ _ _ _ Hh Hl) as (h1 & Hr1 & Hh1 & Hl1 & Hf1 & Hv1 & Hb1).
      assert ((Remove l e;; mret tt) h = Ok (tt, h1)) as Hrm by by rewrite (bind_ok _ _ _ _ _ Hr1).
      rewrite (bind_ok _ _ _ _ _ Hrm). rewrite (load_bind _ _ _ _ _ (value_els _ _ _ _ _ _ Hl1)). pose proof (value_els _ _ _ _ _ _ Hl) as Hve.
      rewrite <- Hv1 in Hve. case_if.
      * exists h1, e, ((e2, v2) :: B). cbn. split; [done|]. split; cbn; try done; by apply Z.eqb_neq.
      * rewrite (load_bind _ _ _ _ _ Hve).
        destruct (IH fuel h1 P e2 v2 (delete (bi_End v) q)) as (h' & e' & B' & Hr & He'); [by intros []|lia|done|done|by intros _; apply Hg|].
        assert ((e2 =? gap) = false) as E2 by (apply Z.eqb_neq; specialize (Hg Hne); set_solver). rewrite E2 in Hr, He'.
        exists h', e', B'. split; [exact Hr|]. rewrite !findEndGap_not_gap in *. by eapply endGap_frame.
  - exists h, e, ((e2, v2) :: B). cbn. rewrite HP. split; [done|]. by apply (endGap_stay h l gap end_ P e v ((e2, v2) :: B)).
Qed.

(** ** The update of the gaps *)

Lemma yields_step {A C} (m : MB A) (k : A -> MB C) h h1 l x r b ps vs :
  m h = Ok (x, h1) -> frame l h h1 -> yields (k x) h1 l r b ps vs -> yields (m ≫= k) h l r b ps vs.
Proof.
  intros Hm Hf (h2 & Hk & Hh2 & Hl2 & Hf2 & Hb2). exists h2. rewrite (bind_ok _ _ _ _ _ Hm). split_and!; try done. by eapply frame_trans.
Qed.

(** The gap as the end gap *)
Lemma updateGaps_same h l start end_ P gap gv B :
  heap_ok h -> has_els h l (P ++ (gap, gv) :: B) ->
  exists b els, gives (updateGapsHeap l start end_ gap gap) h l tt b els /\
    els.*2 = P.*2 ++ updateGaps start end_ gv gv true false ++ B.*2.
Proof.
  intros Hh Hl. pose proof (value_els _ _ _ _ _ _ Hl) as Hv. destruct (els_live _ _ _ _ _ _ Hh Hl) as (He & HP & HB).
  unfold updateGapsHeap, updateGaps. destruct (start =? bi_Start gv) eqn:Es; [destruct (end_ >=? bi_End gv) eqn:Ee|].
  - destruct (Remove_values _ _ _ _ _ _ Hh Hl) as (h1 & Hr1 & Hh1 & Hl1 & Hf1 & Hv1 & Hb1).
    exists (brk h1), (P ++ B). split; [|by rewrite fmap_app]. eapply yields_load; [exact Hv|]. rewrite Es, Ee.
    eapply (yields_step _ _ _ h1 _ tt); [by rewrite (bind_ok _ _ _ _ _ Hr1)|done|]. rewrite <- Hv1 in Hv.
    eapply yields_load; [exact Hv|]. rewrite (proj2 (Z.ltb_ge _ _)) by lia. by apply yields_ret.
  - assert (end_ < bi_End gv) as Hlt by lia. rewrite (proj2 (Z.ltb_lt _ _) Hlt).
    exists (brk h), (P ++ (gap, mkByteInterval end_ (bi_End gv)) :: B). split; [|by rewrite fmap_app].
    eapply yields_load; [exact Hv|]. rewrite Es, Ee. eapply yields_read; [done|]. eapply yields_load; [exact Hv|].
    rewrite (proj2 (Z.ltb_lt _ _) Hlt). by eapply set_Value_els.
  - destruct (end_ =? bi_End gv) eqn:Ee.
    + exists (brk h), (P ++ (gap, mkByteInterval (bi_Start gv) start) :: B). split; [|by rewrite fmap_app].
      eapply yields_load; [exact Hv|]. rewrite Es. eapply yields_load; [exact Hv|]. rewrite Ee. by eapply set_Value_els.
    + pose proof (InsertAfter_els h l _ Hh Hl (mkByteInterval end_ (bi_End gv)) gap He) as Hi.
      rewrite bool_decide_true in Hi by (rewrite fmap_app; apply elem_of_app; right; left). rewrite insert_after_split in Hi by done.
      exists (brk h + 1), (P ++ (gap, mkByteInterval (bi_Start gv) start) :: (brk h, mkByteInterval end_ (bi_End gv)) :: B).
      split; [|by rewrite fmap_app]. eapply yields_load; [exact Hv|]. rewrite Es. eapply yields_load; [exact Hv|]. rewrite Ee, Z.eqb_refl.
      eapply yields_bind; [exact Hi|]. intros h1 Hh1 Hl1 Hb1. eapply yields_load; [by eapply value_els|].
      rewrite <- Hb1. by eapply set_Value_els.
Qed.

(** An end gap of its own *)
Lemma updateGaps_two h l start end_ P gap gv e ev B :
  heap_ok h -> has_els h l ((P ++ [(gap, gv)]) ++ (e, ev) :: B) ->
  exists b els, gives (updateGapsHeap l start end_ gap e) h l tt b els /\
    els.*2 = P.*2 ++ updateGaps start end_ gv ev false false ++ B.*2.
Proof.
  intros Hh Hl. pose proof (value_els _ _ _ _ _ _ Hl) as Hve. destruct (els_live _ _ _ _ _ _ Hh Hl) as (He & HP & HB).
  pose proof Hl as Hl2. rewrite <- app_assoc in Hl2. cbn [app] in Hl2. pose proof (value_els _ _ _ _ _ _ Hl2) as Hv.
  assert (gap <> e) as Hne by (rewrite fmap_app in HP; set_solver).
  unfold updateGapsHeap, updateGaps. destruct (start =? bi_Start gv) eqn:Es.
  - (* the gap is removed or stays, then the end gap is cut *)
    assert (exists h1 P', (if end_ >=? bi_End gv then Remove l gap;; mret tt else mret tt) h = Ok (tt, h1) /\ frame l h h1 /\
      heap_ok h1 /\ has_els h1 l (P' ++ (e, ev) :: B) /\ P'.*2 = P.*2 ++ (if end_ >=? bi_End gv then [] else [gv])) as
      (h1 & P' & Hm & Hf1 & Hh1 & Hl1 & EP).
    { destruct (end_ >=? bi_End gv).
      - destruct (Remove_values _ _ _ _ _ _ Hh Hl2) as (h1 & Hr1 & Hh1 & Hl1 & Hf1 & _). exists h1, P. rewrite (bind_ok _ _ _ _ _ Hr1).
        split_and!; try done. by rewrite app_nil_r.
      - exists h, (P ++ [(gap, gv)]). split_and!; try done; [apply frame_refl|by rewrite fmap_app]. }
    pose proof (value_els _ _ _ _ _ _ Hl1) as Hve1. destruct (end_ <? bi_End ev) eqn:Ee.
    + exists (brk h1), (P' ++ (e, mkByteInterval end_ (bi_End ev)) :: B).
      split; [|rewrite fmap_app, EP; cbn; by rewrite <- !app_assoc].
      eapply yields_load; [exact Hv|]. rewrite Es. eapply yields_step; [exact Hm|done|]. eapply yields_load; [exact Hve1|]. rewrite Ee.
      by eapply set_Value_els.
    + exists (brk h1), (P' ++ (e, ev) :: B). split; [|rewrite fmap_app, EP; cbn; by rewrite <- !app_assoc].
      eapply yields_load; [exact Hv|]. rewrite Es. eapply yields_step; [exact Hm|done|]. eapply yields_load; [exact Hve1|]. rewrite Ee.
      by apply yields_ret.
  - destruct (end_ =? bi_End ev) eqn:Ee.
    + exists (brk h), (P ++ (gap, mkByteInterval (bi_Start gv) start) :: (e, ev) :: B). split; [|by rewrite fmap_app].
      eapply yields_load; [exact Hv|]. rewrite Es. eapply yields_load; [exact Hve|]. rewrite Ee. by eapply set_Value_els.
    + exists (brk h), (P ++ (gap, mkByteInterval (bi_Start gv) start) :: (e, mkByteInterval end_ (bi_End ev)) :: B).
      split; [|by rewrite fmap_app].
      eapply yields_load; [exact Hv|]. rewrite Es. eapply yields_load; [exact Hve|]. rewrite Ee, (proj2 (Z.eqb_neq _ _) Hne).
      eapply yields_bind; [by eapply set_Value_els|]. intros h1 Hh1 Hl1 Hb1.
      change (has_els h1 l (P ++ (gap, mkByteInterval (bi_Start gv) start) :: (e, ev) :: B)) in Hl1.
      rewrite cons_middle, app_assoc in Hl1. eapply yields_load; [by eapply value_els|]. rewrite <- Hb1.
      pose proof (set_Value_els h1 l _ e ev B (mkByteInterval end_ (bi_End ev)) Hh1 Hl1) as Hs. by rewrite <- app_assoc in Hs.
Qed.

(** An end gap that has been removed: the frame ends where it ended. *)
Lemma updateGaps_removed h l start P gap gv e ev B :
  heap_ok h -> has_els h l (P ++ (gap, gv) :: B) -> values h !! e = Some ev -> gap <> e ->
  exists b els, gives (updateGapsHeap l start (bi_End ev) gap e) h l tt b els /\
    els.*2 = P.*2 ++ updateGaps start (bi_End ev) gv ev false true ++ B.*2.
Proof.
  intros Hh Hl Hve Hne. pose proof (value_els _ _ _ _ _ _ Hl) as Hv. unfold updateGapsHeap, updateGaps.
  rewrite Z.ltb_irrefl, Z.eqb_refl. destruct (start =? bi_Start gv) eqn:Es; [destruct (bi_End ev >=? bi_End gv) eqn:Ee|].
  - destruct (Remove_values _ _ _ _ _ _ Hh Hl) as (h1 & Hr1 & Hh1 & Hl1 & Hf1 & Hv1 & Hb1).
    exists (brk h1), (P ++ B). split; [|by rewrite fmap_app]. eapply yields_load; [exact Hv|]. rewrite Es, Ee.
    eapply (yields_step _ _ _ h1 _ tt); [by rewrite (bind_ok _ _ _ _ _ Hr1)|done|]. rewrite <- Hv1 in Hve.
    eapply yields_load; [exact Hve|]. rewrite Z.ltb_irrefl. by apply yields_ret.
  - exists (brk h), (P ++ (gap, gv) :: B). split; [|by rewrite fmap_app]. eapply yields_load; [exact Hv|]. rewrite Es, Ee.
    eapply yields_read; [done|]. eapply yields_load; [exact Hve|]. rewrite Z.ltb_irrefl. by apply yields_ret.
  - exists (brk h), (P ++ (gap, mkByteInterval (bi_Start gv) start) :: B). split; [|by rewrite fmap_app].
    eapply yields_load; [exact Hv|]. rewrite Es. eapply yields_load; [exact Hve|]. rewrite Z.eqb_refl. by eapply set_Value_els.
Qed.

(** ** The refinement *)

(** The sorter [s] is what the heap holds. *)
Record sorter_rep (h : heap) (hs : heapSorter) (s : streamFrameSorter) : Prop := mkSorterRep {
  sr_ok : heap_ok h;
  sr_gaps : exists els, has_els h (hs_gaps hs) els /\ els.*2 = gaps s;
  sr_queue : hs_queuedFrames hs = queuedFrames s;
  sr_read : hs_readPosition hs = readPosition s;
}.

(** The update for the gap and the end gap that the loops have found *)
Lemma update_refines h h1 l start end_ end' P gap gv B e eg :
  has_els h l (P ++ (gap, gv) :: B) -> end' = Z.min end_ (bi_End (egGap eg)) ->
  (egIsGap eg = true -> egGap eg = gv /\ egRemoved eg = false) ->
  forall B', endGapHeap l gap end_ h h1 e eg (if egIsGap eg then P else P ++ [(gap, gv)]) B' ->
  exists b els, gives (updateGapsHeap l start end' gap e) h1 l tt b els /\
    els.*2 = P.*2 ++ updateGaps start end' gv (egGap eg) (egIsGap eg) (egRemoved eg) ++ egRest eg.
Proof.
  intros Hl Hend Hgap B' [Hh1 _ _ Hve Hi Hr Hels Hrem _]. rewrite Hr. destruct (egIsGap eg) eqn:Eg.
  - destruct (Hgap eq_refl) as [E1 E]. rewrite E1, E in *. apply Z.eqb_eq in Hi as ->. by apply updateGaps_same.
  - apply Z.eqb_neq in Hi. destruct (egRemoved eg) eqn:Er.
    + destruct (Hrem eq_refl) as [_ Hle]. rewrite Z.min_r in Hend by lia. subst end'. rewrite <- app_assoc in Hels. cbn [app] in Hels.
      by apply updateGaps_removed; [..|congruence].
    + by apply updateGaps_two.
Qed.

Lemma findEndGap_gap end_ v B q : egIsGap (findEndGap end_ true v B q) = true ->
  egGap (findEndGap end_ true v B q) = v /\ egRemoved (findEndGap end_ true v B q) = false.
Proof.
  destruct B as [|v2 B]; cbn [findEndGap]; [by repeat case_match|]. repeat case_match; try done. by rewrite findEndGap_not_gap.
Qed.

Lemma heap_pushData_refines h hs s f :
  sorter_rep h hs s -> (pushData s f).2 <> Panic ->
  exists h' hs', heap_pushData hs f h = Ok ((hs', (pushData s f).2), h') /\ sorter_rep h' hs' (pushData s f).1 /\ hs_gaps hs' = hs_gaps hs.
Proof.
  intros [Hh (els & Hl & Hels) Hq Hread]. unfold heap_pushData, pushData. set (l := hs_gaps hs) in *.
  set (end_ := u64 (sf_Offset f + StreamFrame_DataLen f)). set (start := sf_Offset f).
  rewrite (bind_ok _ _ _ _ _ (Len_els _ _ _ Hl)), (bind_ok _ _ _ _ _ (Front_els _ _ _ Hh Hl)).
  assert (Z.to_nat (len els) = length els) as -> by apply Nat2Z.id.
  destruct (findGapLoop_refines h l start end_ [] els Hh Hl) as (r & Hr & Hf). cbn [fmap list_fmap rev app] in Hf. rewrite Hels in Hf.
  rewrite (bind_ok _ _ _ _ _ Hr). destruct (findGap start end_ [] (gaps s)) as [passed gv rest| |].
  2, 3: subst r; intros _; exists h, hs; split_and!; [done|by split; eauto|done].
  destruct Hf as (P & gap & B & -> & -> & -> & ->). rewrite rev_involutive.
  rewrite (load_bind _ _ _ _ _ (value_els _ _ _ _ _ _ Hl)).
  destruct (if start <? bi_Start gv then _ else _) as [start' front]. destruct front as [f1|e|]; [| |done].
  2: intros _; exists h, hs; split_and!; [done|by split; eauto|done].
  destruct (findEndGapLoop_refines (length (P ++ (gap, gv) :: B)) B h l end_ gap P gap gv (hs_queuedFrames hs)) as (h1 & e & B' & Hm & Heg);
    [rewrite length_app; cbn; lia|done..|].
  rewrite Z.eqb_refl in Hm, Heg. rewrite Hq in Hm, Heg |- *. rewrite (bind_ok _ _ _ _ _ Hm).
  set (eg := findEndGap end_ true gv B.*2 (queuedFrames s)) in *.
  destruct (egBug eg) eqn:Ebug.
  { intros _. exists h1. eexists. split_and!; [done| |done]. destruct Heg as [Hh1 _ _ _ _ Hrest Hl1 _ Hb]. rewrite (Hb Ebug) in Hl1.
    split; cbn; [done| |done|done]. eexists. split; [exact Hl1|]. rewrite Hrest, !fmap_app.
    pose proof (findEndGap_gap end_ gv B.*2 (queuedFrames s)) as Hgap. fold eg in Hgap. destruct (egIsGap eg).
    - destruct Hgap as [-> _]; [done|]. by rewrite <- app_assoc.
    - rewrite fmap_app. done. }
  rewrite (load_bind _ _ _ _ _ (eh_value _ _ _ _ _ _ _ _ _ Heg)).
  destruct (if end_ >? bi_End (egGap eg) then _ else _) as [end' back] eqn:Eback.
  assert (end' = Z.min end_ (bi_End (egGap eg))) as Hend by (destruct (Z.gtb_spec end_ (bi_End (egGap eg))); simplify_eq; lia).
  destruct back as [f2|err|]; [| |done].
  2: { exfalso. destruct (end_ >? bi_End (egGap eg)); [|done]. unfold sliceTo in Eback. case_if; done. }
  destruct (update_refines h h1 l start' end_ end' P gap gv B e eg Hl Hend (findEndGap_gap _ _ _ _) B' Heg) as (b & els' & Hg & Eels).
  pose proof Hg as (h2 & Hm2 & Hh2 & Hl2 & _). change (has_els h2 l els') in Hl2.
  rewrite (bind_ok _ _ _ _ _ Hm2), (bind_ok _ _ _ _ _ (Len_els _ _ _ Hl2)).
  assert (len els' = len els'.*2) as -> by (unfold len; by rewrite length_fmap). rewrite Eels.
  intros _. exists h2. case_if; (eexists; split_and!; [done| |done]); (split; cbn; [done|eauto|done|done]).
Qed.

Lemma heap_Push_refines h hs s f :
  sorter_rep h hs s -> (Push s f).2 <> Panic ->
  exists h' hs', heap_Push hs f h = Ok ((hs', (Push s f).2), h') /\ sorter_rep h' hs' (Push s f).1.
Proof.
  intros Hr. pose proof Hr as [Hh Hg Hq Hread]. unfold heap_Push, Push. rewrite Hq. case_if.
  { intros _. exists h. case_match; (eexists; split; [done|]); [|done]. by split. }
  assert (forall f, (pushData s f).2 <> Panic ->
    exists h' hs', heap_pushData hs f h = Ok ((hs', (pushData s f).2), h') /\ sorter_rep h' hs' (pushData s f).1) as Hp.
  { intros f' Hf. destruct (heap_pushData_refines h hs s f' Hr Hf) as (h' & hs' & ? & ? & _). eauto. }
  destruct (queuedFrames s !! sf_Offset f) as [old|]; [|apply Hp]. case_if; [intros _; eauto|].
  destruct (sliceFrom _ _) as [d| |]; [apply Hp|intros _; eauto|done].
Qed.

Lemma heap_Pop_refines h hs s : sorter_rep h hs s ->
  (heap_Pop hs).2 = (Pop s).2 /\ sorter_rep h (heap_Pop hs).1 (Pop s).1.
Proof.
  intros [Hh Hg Hq Hread]. unfold heap_Pop, heap_Head, Pop, Head. rewrite Hq, Hread. case_match; [|by split].
  split; [done|]. by split.
Qed.

(** *** Sequences of calls *)

Inductive sorterCall : Type :=
| CallPush (f : StreamFrame)
| CallPop.
Inductive sorterResult : Type :=
| Pushed (r : res unit)
| Popped (f : option StreamFrame).

Fixpoint sorter_calls (cs : list sorterCall) (s : streamFrameSorter) : streamFrameSorter * list sorterResult :=
  match cs with
  | [] => (s, [])
  | CallPush f :: cs =>
      let '(s, r) := Push s f in let '(s, rs) := sorter_calls cs s in (s, Pushed r :: rs)
  | CallPop :: cs =>
      let '(s, f) := Pop s in let '(s, rs) := sorter_calls cs s in (s, Popped f :: rs)
  end.
Fixpoint heap_sorter_calls (cs : list sorterCall) (hs : heapSorter) : MB (heapSorter * list sorterResult) :=
  match cs with
  | [] => mret (hs, [])
  | CallPush f :: cs =>
      '(hs, r) ← heap_Push hs f;
      '(hs, rs) ← heap_sorter_calls cs hs;
      mret (hs, Pushed r :: rs)
  | CallPop :: cs =>
      let '(hs, f) := heap_Pop hs in
      '(hs, rs) ← heap_sorter_calls cs hs;
      mret (hs, Popped f :: rs)
  end.

(** Frames as the stream hands them to the sorter *)
Definition call_valid (c : sorterCall) : Prop :=
  match c with
  | CallPush f => 0 <= sf_Offset f /\ sf_Offset f + StreamFrame_DataLen f < MaxByteCount /\ (sf_Data f <> [] \/ sf_FinBit f = true)
  | CallPop => True
  end.

Lemma sorter_calls_refine cs h hs s : Forall call_valid cs -> gaps_ok 0 (gaps s) -> sorter_rep h hs s ->
  exists h' hs', heap_sorter_calls cs hs h = Ok ((hs', (sorter_calls cs s).2), h') /\ sorter_rep h' hs' (sorter_calls cs s).1.
Proof.
  intros Hv. revert h hs s. induction Hv as [|[f|] cs Hc _ IH]; intros h hs s Hg Hr; cbn [sorter_calls heap_sorter_calls].
  - by exists h, hs.
  - destruct Hc as (Ho & Hmax & Hne). pose proof (Push_safe s f Hg Ho Hmax Hne) as [Hg' Hres].
    destruct (heap_Push_refines h hs s f Hr) as (h1 & hs1 & Hm & Hr1); [by destruct Hres as [->|[->| ->]]|].
    destruct (Push s f) as [s1 r]. cbn [fst snd] in *. destruct (IH h1 hs1 s1 Hg' Hr1) as (h2 & hs2 & Hm2 & Hr2).
    exists h2, hs2. rewrite (bind_ok _ _ _ _ _ Hm). cbn. rewrite (bind_ok _ _ _ _ _ Hm2). by destruct (sorter_calls cs s1).
  - destruct (heap_Pop_refines h hs s Hr) as [Ef Hr1]. assert (gaps (Pop s).1 = gaps s) as Eg by (unfold Pop; by case_match).
    destruct (Pop s) as [s1 f], (heap_Pop hs) as [hs1 f']. cbn [fst snd] in *. subst f'. rewrite <- Eg in Hg.
    destruct (IH h hs1 s1 Hg Hr1) as (h2 & hs2 & Hm2 & Hr2). exists h2, hs2. rewrite (bind_ok _ _ _ _ _ Hm2).
    by destruct (sorter_calls cs s1).
Qed.

(** C20: The sorter that keeps its gaps in a linked list, and removes and changes elements while
    it holds pointers to them, refines the sorter that keeps them in a sequence, which the
    theorems on reassembly are about: for every sequence of frames and pops it returns the
    same errors and the same frames, and does not dereference a nil pointer. *)
Theorem sorter_refines cs : Forall call_valid cs ->
  exists h hs, (hs0 ← heap_newStreamFrameSorter; heap_sorter_calls cs hs0) emptyHeap =
    Ok ((hs, (sorter_calls cs newStreamFrameSorter).2), h) /\ sorter_rep h hs (sorter_calls cs newStreamFrameSorter).1.
Proof.
  intros Hv. destruct (NewList_spec (V := ByteInterval) emptyHeap) as (h0 & Hnew & Hh0 & Hl0 & _); [apply emptyHeap_simulates|].
  destruct (PushFront_spec h0 1 [] [] (mkByteInterval 0 MaxByteCount) Hh0 Hl0) as (h1 & Hp & Hh1 & Hl1 & _).
  destruct (sorter_calls_refine cs h1 (mkHeapSorter ∅ 0 1) newStreamFrameSorter Hv) as (h & hs & Hm & Hr).
  - cbn. unfold MaxByteCount. lia.
  - split; cbn; [done| |done|done]. exists [(brk h0, mkByteInterval 0 MaxByteCount)]. done.
  - exists h, hs. split; [|done]. unfold heap_newStreamFrameSorter. rewrite <- Hm.
    assert ((l ← NewList; PushFront l (mkByteInterval 0 MaxByteCount);; mret (mkHeapSorter ∅ 0 l)) emptyHeap = Ok (mkHeapSorter ∅ 0 1, h1))
      as E by (rewrite (bind_ok _ _ _ _ _ Hnew), (bind_ok _ _ _ _ _ Hp); done).
    by rewrite (bind_ok _ _ _ _ _ E).
Qed.

(** Frames that overlap, that fill a gap, that span several gaps, and one that is cut *)
Lemma sorter_refines_witness :
  let frame o d := CallPush (mkStreamFrame 5 false true o d) in
  let cs := [frame 4 [4; 5]; frame 8 [8; 9]; CallPop; frame 1 [1; 2; 3; 4; 5; 6; 7; 8]; frame 0 [0; 1]; CallPop; CallPop] in
  exists h hs, (hs0 ← heap_newStreamFrameSorter; heap_sorter_calls cs hs0) emptyHeap =
    Ok ((hs, (sorter_calls cs newStreamFrameSorter).2), h) /\ sorter_rep h hs (sorter_calls cs newStreamFrameSorter).1.
Proof.
  intros frame cs. apply (sorter_refines cs). unfold cs, frame. repeat apply Forall_cons_2; try apply Forall_nil_2; cbn; try done;
    (split_and!; [lia|vm_compute; reflexivity|left; done]).
Defined.
