(* ===== verification/PacketNumberGenerator.v ===== *)
(** * packet_number_generator.go: the numbers of outgoing packets

    The generator is meant to skip a random packet number now and then, so that a peer
    that acknowledges packets it has not received is found out.  What [crypto/rand]
    returns is an argument of the operations. *)

From S2P Require Import Prelude Protocol.

Record packetNumberGenerator : Type := mkPacketNumberGenerator {
  png_averagePeriod : Z;
  png_next : Z;
  png_nextToSkip : Z;
}.

Definition newPacketNumberGenerator (averagePeriod : Z) : packetNumberGenerator :=
  mkPacketNumberGenerator averagePeriod 1 0.

Definition Peek (p : packetNumberGenerator) : Z := png_next p.

(** [rand.Read(b)] for a slice of two bytes *)
Definition getRandomNumber (rand : res (Z * Z)) : res Z :=
  let! (b0, b1) := rand in
  Ok (u16 (Z.shiftl b0 8 + b1)).

Definition generateNewSkip (p : packetNumberGenerator) (rand : res (Z * Z))
    : packetNumberGenerator * res unit :=
  match getRandomNumber rand with
  | Ok num =>
      let skip := u64 (num * u64 (png_averagePeriod p - 1)) / (65535 / 2) in
      (mkPacketNumberGenerator (png_averagePeriod p) (png_next p) (u64 (png_next p + 2 + skip)), Ok tt)
  | Err e => (p, Err e)
  | Panic => (p, Panic)
  end.

(** The error of [generateNewSkip] is dropped. *)
Definition PNG_Pop (p : packetNumberGenerator) (rand : res (Z * Z)) : packetNumberGenerator * Z :=
  let next := png_next p in
  let n := u64 (png_next p + 1) in
  if n =? png_nextToSkip p then
    let p := mkPacketNumberGenerator (png_averagePeriod p) (u64 (n + 1)) (png_nextToSkip p) in
    ((generateNewSkip p rand).1, next)
  else (mkPacketNumberGenerator (png_averagePeriod p) n (png_nextToSkip p), next).

(** The numbers of the packets sent with the given random numbers *)
Fixpoint popAll (p : packetNumberGenerator) (rands : list (res (Z * Z)))
    : packetNumberGenerator * list Z :=
  match rands with
  | [] => (p, [])
  | r :: rands =>
      let '(p, n) := PNG_Pop p r in
      let '(p, ns) := popAll p rands in
      (p, n :: ns)
  end.

(** ** Properties *)

(** Each packet number is one or two above the one before: no two consecutive numbers are
    skipped, and [Peek] announces the next one. *)
Definition png_step (p p' : packetNumberGenerator) : Prop :=
  png_next p' = png_next p + 1 \/ png_next p' = png_next p + 2.

Lemma pop_step p rand :
  0 <= png_next p < 2 ^ 64 - 2 ->
  (PNG_Pop p rand).2 = Peek p /\ png_step p (PNG_Pop p rand).1.
Proof.
  intros Hp. unfold PNG_Pop, Peek, png_step. nowrap. case_if; cbn; [|auto].
  nowrap. split; [done|]. right. unfold generateNewSkip.
  destruct (getRandomNumber rand); cbn; lia.
Qed.

(** A new skip lies two to [2 + 2 * (averagePeriod - 1)] numbers ahead. *)
Lemma generateNewSkip_range p b0 b1 :
  is_u8 b0 -> is_u8 b1 -> 0 <= png_next p < 2 ^ 62 -> 1 <= png_averagePeriod p <= 2 ^ 15 ->
  png_next p + 2 <= png_nextToSkip (generateNewSkip p (Ok (b0, b1))).1
                 <= png_next p + 2 + 2 * png_averagePeriod p.
Proof.
  intros Hb0 Hb1 Hn Ha. unfold generateNewSkip, getRandomNumber. cbn [rbind].
  pose proof (u16_range (Z.shiftl b0 8 + b1)) as Hr. set (num := u16 _) in *.
  rewrite (u64_small (png_averagePeriod p - 1)) by (unfold_width; lia).
  assert (0 <= num * (png_averagePeriod p - 1) <= 65535 * (png_averagePeriod p - 1)) as Hm
    by (unfold_width; nia).
  rewrite (u64_small (num * _)) by (unfold_width; lia). cbn [fst png_nextToSkip].
  change (65535 / 2) with 32767.
  assert (0 <= num * (png_averagePeriod p - 1) / 32767 <= 2 * png_averagePeriod p) as Hd.
  { split; [apply Z.div_pos; lia|]. apply Z.div_le_upper_bound; lia. }
  nowrap. lia.
Qed.

Lemma pop_no_skip p rand :
  png_nextToSkip p = 0 -> 1 <= png_next p < 2 ^ 64 - 1 ->
  PNG_Pop p rand = (mkPacketNumberGenerator (png_averagePeriod p) (png_next p + 1) 0, png_next p).
Proof. intros Hs Hp. unfold PNG_Pop. rewrite Hs. nowrap. by rewrite (proj2 (Z.eqb_neq _ _)) by lia. Qed.

(** Although it is meant to skip a packet number every [averagePeriod] packets on
    average, a new generator never skips any: [nextToSkip] starts at zero, and only the
    skip of that number would set it to another. *)
Theorem packet_numbers_never_skipped averagePeriod rands :
  len rands < 2 ^ 64 - 1 ->
  (popAll (newPacketNumberGenerator averagePeriod) rands).2 = seqZ 1 (len rands).
Proof.
  assert (forall p, png_nextToSkip p = 0 -> 1 <= png_next p -> png_next p + len rands < 2 ^ 64 ->
    (popAll p rands).2 = seqZ (png_next p) (len rands)) as Hall.
  { induction rands as [|r rands IH]; intros p Hs Hn Hlen; [done|].
    rewrite len_cons in *. pose proof (len_nonneg rands).
    cbn [popAll]. rewrite pop_no_skip by lia.
    specialize (IH (mkPacketNumberGenerator (png_averagePeriod p) (png_next p + 1) 0)).
    cbn [png_nextToSkip png_next] in IH. destruct (popAll _ rands) as [p' ns]. cbn [snd] in *. rewrite IH by lia.
    rewrite (seqZ_cons (png_next p) (1 + len rands)) by lia.
    f_equal. f_equal; lia. }
  intros Hlen. apply Hall; cbn; lia.
Qed.

Lemma packet_numbers_never_skipped_witness :
  (popAll (newPacketNumberGenerator SkipPacketAveragePeriodLength)
     [Ok (0, 0); Ok (0, 1); Ok (255, 255); Err EOF]).2 = seqZ 1 4.
Proof. apply (packet_numbers_never_skipped _ [Ok (0, 0); Ok (0, 1); Ok (255, 255); Err EOF]). reflexivity. Defined.
