(* ===== verification/StreamsMap.v ===== *)
(** * streams_map.go: the open streams of a session

    A stream is an object of any type [S] with an ID; the map holds the current state of
    each.  [newStream] is the callback of the session, which also changes the session's
    flow control: [W] is the state that the callbacks change.  Every method holds the
    mutex throughout (the unlocked lookup of [GetOrOpenStream] is repeated under the
    lock), so a method is one step.  A call that waits on a condition variable returns
    [None] and has no effect: it is repeated when it is woken up. *)

From S2P Require Import Prelude Protocol Qerr Handshake.

Section StreamsMap.
Context {S W A : Type} (StreamID : S -> Z) (newStream : W -> Z -> W * res S).
Context `{ConnectionParametersManager A}.

Record streamsMap : Type := mkStreamsMap {
  sm_perspective : Perspective;
  sm_streams : gmap Z S;
  sm_openStreams : list Z;
  sm_roundRobinIndex : Z;
  sm_nextStream : Z;
  sm_highestStreamOpenedByPeer : Z;
  sm_closeErr : option goerror;
  sm_nextStreamToAccept : Z;
  sm_numOutgoingStreams : Z;
  sm_numIncomingStreams : Z;
}.

Definition errStreamsMapAccess : goerror := ErrNew "streamsMap: Error accessing the streams map".

Definition newStreamsMap (pers : Perspective) : streamsMap :=
  match pers with
  | PerspectiveClient => mkStreamsMap pers ∅ [] 0 1 0 None 2 0 0
  | PerspectiveServer => mkStreamsMap pers ∅ [] 0 2 0 None 1 0 0
  end.

(** ** Updates of single fields *)

Definition sm_set_streams (m : streamsMap) (ss : gmap Z S) (os : list Z) : streamsMap :=
  mkStreamsMap (sm_perspective m) ss os (sm_roundRobinIndex m) (sm_nextStream m)
    (sm_highestStreamOpenedByPeer m) (sm_closeErr m) (sm_nextStreamToAccept m)
    (sm_numOutgoingStreams m) (sm_numIncomingStreams m).
Definition sm_set_index (m : streamsMap) (i : Z) : streamsMap :=
  mkStreamsMap (sm_perspective m) (sm_streams m) (sm_openStreams m) i (sm_nextStream m)
    (sm_highestStreamOpenedByPeer m) (sm_closeErr m) (sm_nextStreamToAccept m)
    (sm_numOutgoingStreams m) (sm_numIncomingStreams m).
Definition sm_set_counts (m : streamsMap) (outgoing incoming : Z) : streamsMap :=
  mkStreamsMap (sm_perspective m) (sm_streams m) (sm_openStreams m) (sm_roundRobinIndex m)
    (sm_nextStream m) (sm_highestStreamOpenedByPeer m) (sm_closeErr m) (sm_nextStreamToAccept m)
    outgoing incoming.
Definition sm_set_ids (m : streamsMap) (next highest accept : Z) : streamsMap :=
  mkStreamsMap (sm_perspective m) (sm_streams m) (sm_openStreams m) (sm_roundRobinIndex m)
    next highest (sm_closeErr m) accept (sm_numOutgoingStreams m) (sm_numIncomingStreams m).

(** ** Opening streams *)

Definition putStream (m : streamsMap) (s : S) : streamsMap * res unit :=
  let id := StreamID s in
  match sm_streams m !! id with
  | Some _ => (m, Err (Errorf "a stream with ID %d already exists" [id]))
  | None => (sm_set_streams m (<[id := s]> (sm_streams m)) (sm_openStreams m ++ [id]), Ok tt)
  end.

Definition openRemoteStream (cp : A) (m : streamsMap) (w : W) (id : Z) : streamsMap * W * res S :=
  if sm_numIncomingStreams m >=? GetMaxIncomingStreams cp
  then (m, w, Err (ErrorCodeErr TooManyOpenStreams))
  else if u32 (id + MaxNewStreamIDDelta) <? sm_highestStreamOpenedByPeer m
  then (m, w, Err (QuicError InvalidStreamID
          (Msgf "attempted to open stream %d, which is a lot smaller than the highest opened stream, %d"
             [id; sm_highestStreamOpenedByPeer m])))
  else
    match newStream w id with
    | (w, Ok s) =>
        let m :=
          if is_server (sm_perspective m)
          then sm_set_counts m (sm_numOutgoingStreams m) (u32 (sm_numIncomingStreams m + 1))
          else sm_set_counts m (u32 (sm_numOutgoingStreams m + 1)) (sm_numIncomingStreams m) in
        let m :=
          if id >? sm_highestStreamOpenedByPeer m
          then sm_set_ids m (sm_nextStream m) id (sm_nextStreamToAccept m) else m in
        ((putStream m s).1, w, Ok s)
    | (w, e) => (m, w, e)
    end.

(** [for ; sid <= id; sid += 2].  One iteration opens [id]; when the ID wraps around, the
    next one fails.  The fuel is one more than the number of IDs up to [id]. *)
Fixpoint openRemoteStreams (fuel : nat) (cp : A) (m : streamsMap) (w : W) (sid id : Z)
    : streamsMap * W * res unit :=
  if sid <=? id then
    match fuel with
    | O => (m, w, Panic)
    | Datatypes.S fuel =>
        match openRemoteStream cp m w sid with
        | (m, w, Ok _) => openRemoteStreams fuel cp m w (u32 (sid + 2)) id
        | (m, w, Err e) => (m, w, Err e)
        | (m, w, Panic) => (m, w, Panic)
        end
    end
  else (m, w, Ok tt).

(** The stream, or [None] for a stream that is closed *)
Definition SM_GetOrOpenStream (cp : A) (m : streamsMap) (w : W) (id : Z)
    : streamsMap * W * res (option S) :=
  match sm_streams m !! id with
  | Some s => (m, w, Ok (Some s))
  | None =>
      if id <=? sm_highestStreamOpenedByPeer m then (m, w, Ok None)
      else if is_server (sm_perspective m) && (id mod 2 =? 0)
      then (m, w, Err (QuicError InvalidStreamID
              (Msgf "attempted to open stream %d from client-side" [id])))
      else if negb (is_server (sm_perspective m)) && (id mod 2 =? 1)
      then (m, w, Err (QuicError InvalidStreamID
              (Msgf "attempted to open stream %d from server-side" [id])))
      else
        let sid := u32 (sm_highestStreamOpenedByPeer m + 2) in
        let sid := if (sid =? 2) && is_server (sm_perspective m) then 1 else sid in
        match openRemoteStreams (Z.to_nat ((id - sid) / 2 + 2)) cp m w sid id with
        | (m, w, Ok _) => (m, w, Ok (sm_streams m !! id))
        | (m, w, Err e) => (m, w, Err e)
        | (m, w, Panic) => (m, w, Panic)
        end
  end.

Definition openStreamImpl (cp : A) (m : streamsMap) (w : W) : streamsMap * W * res S :=
  let id := sm_nextStream m in
  if sm_numOutgoingStreams m >=? GetMaxOutgoingStreams cp
  then (m, w, Err (ErrorCodeErr TooManyOpenStreams))
  else
    match newStream w id with
    | (w, Ok s) =>
        let m :=
          if is_server (sm_perspective m)
          then sm_set_counts m (u32 (sm_numOutgoingStreams m + 1)) (sm_numIncomingStreams m)
          else sm_set_counts m (sm_numOutgoingStreams m) (u32 (sm_numIncomingStreams m + 1)) in
        let m := sm_set_ids m (u32 (sm_nextStream m + 2)) (sm_highestStreamOpenedByPeer m)
                   (sm_nextStreamToAccept m) in
        ((putStream m s).1, w, Ok s)
    | (w, e) => (m, w, e)
    end.

Definition SM_OpenStream (cp : A) (m : streamsMap) (w : W) : streamsMap * W * res S :=
  match sm_closeErr m with
  | Some e => (m, w, Err e)
  | None => openStreamImpl cp m w
  end.

(** One attempt: [Ok None] when the call waits for a stream to be closed. *)
Definition SM_OpenStreamSync (cp : A) (m : streamsMap) (w : W) : streamsMap * W * res (option S) :=
  match sm_closeErr m with
  | Some e => (m, w, Err e)
  | None =>
      match openStreamImpl cp m w with
      | (m, w, Ok s) => (m, w, Ok (Some s))
      | (m, w, Err e) =>
          if decide (e = ErrorCodeErr TooManyOpenStreams) then (m, w, Ok None) else (m, w, Err e)
      | (m, w, Panic) => (m, w, Panic)
      end
  end.

(** [Ok None] when the call waits for the peer to open the stream. *)
Definition SM_AcceptStream (m : streamsMap) : streamsMap * res (option S) :=
  match sm_closeErr m with
  | Some e => (m, Err e)
  | None =>
      match sm_streams m !! sm_nextStreamToAccept m with
      | Some s =>
          (sm_set_ids m (sm_nextStream m) (sm_highestStreamOpenedByPeer m)
             (u32 (sm_nextStreamToAccept m + 2)), Ok (Some s))
      | None => (m, Ok None)
      end
  end.

(** ** Iterating over the streams *)

(** A callback can change the streams, the map and the rest of the session; it returns
    whether to continue, and an error. *)
Definition streamLambda : Type := streamsMap * W -> S -> (streamsMap * W) * (bool * option goerror).

Definition iterateFunc (st : streamsMap * W) (streamID : Z) (fn : streamLambda)
    : (streamsMap * W) * (bool * option goerror) :=
  match sm_streams st.1 !! streamID with
  | None => (st, (true, Some errStreamsMapAccess))
  | Some str => fn st str
  end.

Fixpoint iterateOver (ids : list Z) (st : streamsMap * W) (fn : streamLambda)
    : (streamsMap * W) * option goerror :=
  match ids with
  | [] => (st, None)
  | streamID :: ids =>
      match iterateFunc st streamID fn with
      | (st, (_, Some e)) => (st, Some e)
      | (st, (false, None)) => (st, None)
      | (st, (true, None)) => iterateOver ids st fn
      end
  end.

Definition Iterate (st : streamsMap * W) (fn : streamLambda) : (streamsMap * W) * option goerror :=
  iterateOver (sm_openStreams st.1) st fn.

(** The result of a part of [RoundRobinIterate]: go on, or return *)
Inductive rrResult : Type :=
| rrContinue
| rrReturn (err : option goerror)
| rrPanic.

(** [for _, i := range []protocol.StreamID{1, 3}] *)
Fixpoint iteratePriority (ids : list Z) (st : streamsMap * W) (fn : streamLambda)
    : (streamsMap * W) * rrResult :=
  match ids with
  | [] => (st, rrContinue)
  | i :: ids =>
      match iterateFunc st i fn with
      | (st, (cont, err)) =>
          match err with
          | Some e =>
              if decide (e = errStreamsMapAccess)
              then if cont then iteratePriority ids st fn else (st, rrReturn None)
              else (st, rrReturn (Some e))
          | None => if cont then iteratePriority ids st fn else (st, rrReturn None)
          end
      end
  end.

(** [for i := uint32(0); i < numStreams; i++]; [n] iterations are left. *)
Fixpoint roundRobinLoop (n : nat) (i startIndex numStreams : Z) (st : streamsMap * W)
    (fn : streamLambda) : (streamsMap * W) * rrResult :=
  match n with
  | O => (st, rrReturn None)
  | Datatypes.S n =>
      match sm_openStreams st.1 !! Z.to_nat (u32 (i + startIndex) mod numStreams) with
      | None => (st, rrPanic)
      | Some streamID =>
          if (streamID =? 1) || (streamID =? 3)
          then roundRobinLoop n (i + 1) startIndex numStreams st fn
          else
            match iterateFunc st streamID fn with
            | (st, (_, Some e)) => (st, rrReturn (Some e))
            | (st, (cont, None)) =>
                let st := (sm_set_index st.1 (u32 (sm_roundRobinIndex st.1 + 1) mod numStreams), st.2) in
                if (cont : bool) then roundRobinLoop n (i + 1) startIndex numStreams st fn
                else (st, rrReturn None)
            end
      end
  end.

Definition RoundRobinIterate (st : streamsMap * W) (fn : streamLambda)
    : (streamsMap * W) * rrResult :=
  let numStreams := u32 (Z.of_nat (size (sm_streams st.1))) in
  let startIndex := sm_roundRobinIndex st.1 in
  match iteratePriority [1; 3] st fn with
  | (st, rrContinue) => roundRobinLoop (Z.to_nat numStreams) 0 startIndex numStreams st fn
  | r => r
  end.

(** ** Closing streams *)

(** The index of [id], if it is open *)
Fixpoint findIndex (id : Z) (ids : list Z) (i : Z) : option Z :=
  match ids with
  | [] => None
  | s :: ids => if s =? id then Some i else findIndex id ids (i + 1)
  end.

Definition SM_RemoveStream (m : streamsMap) (id : Z) : streamsMap * res unit :=
  match sm_streams m !! id with
  | None => (m, Err (Errorf "attempted to remove non-existing stream: %d" [id]))
  | Some _ =>
      let m :=
        if id mod 2 =? 0
        then sm_set_counts m (u32 (sm_numOutgoingStreams m - 1)) (sm_numIncomingStreams m)
        else sm_set_counts m (sm_numOutgoingStreams m) (u32 (sm_numIncomingStreams m - 1)) in
      let m :=
        match findIndex id (sm_openStreams m) 0 with
        | None => m
        | Some i =>
            let m := sm_set_streams m (sm_streams m)
                       (take (Z.to_nat i) (sm_openStreams m) ++ drop (Z.to_nat (i + 1)) (sm_openStreams m)) in
            if u32 i <? sm_roundRobinIndex m
            then sm_set_index m (u32 (sm_roundRobinIndex m - 1)) else m
        end in
      (sm_set_streams m (delete id (sm_streams m)) (sm_openStreams m), Ok tt)
  end.

Definition SM_CloseWithError (m : streamsMap) (err : option goerror) : streamsMap :=
  mkStreamsMap (sm_perspective m) (sm_streams m) (sm_openStreams m) (sm_roundRobinIndex m)
    (sm_nextStream m) (sm_highestStreamOpenedByPeer m) err (sm_nextStreamToAccept m)
    (sm_numOutgoingStreams m) (sm_numIncomingStreams m).

(** ** The invariant *)

Definition own_parity (p : Perspective) : Z := if is_server p then 0 else 1.

(** The IDs of [ids] with the given parity *)
Definition with_parity (r : Z) (ids : list Z) : list Z := filter (fun id => id mod 2 = r) ids.

Record sm_ok (m : streamsMap) : Prop := {
  ok_nodup : NoDup (sm_openStreams m);
  ok_open id : id ∈ sm_openStreams m <-> is_Some (sm_streams m !! id);
  ok_id id s : sm_streams m !! id = Some s -> StreamID s = id;
  ok_range id : id ∈ sm_openStreams m -> 0 < id < 2 ^ 32;
  ok_index : 0 <= sm_roundRobinIndex m <= len (sm_openStreams m);
  ok_outgoing : sm_numOutgoingStreams m = len (with_parity 0 (sm_openStreams m));
  ok_incoming : sm_numIncomingStreams m = len (with_parity 1 (sm_openStreams m));
  ok_own id : id ∈ sm_openStreams m -> id mod 2 = own_parity (sm_perspective m) ->
    id < sm_nextStream m;
  ok_remote id : id ∈ sm_openStreams m -> id mod 2 <> own_parity (sm_perspective m) ->
    id <= sm_highestStreamOpenedByPeer m;
  ok_next : sm_nextStream m mod 2 = own_parity (sm_perspective m) /\ 0 < sm_nextStream m < 2 ^ 32;
  ok_highest : 0 <= sm_highestStreamOpenedByPeer m < 2 ^ 32 /\
    (sm_highestStreamOpenedByPeer m = 0 \/
     sm_highestStreamOpenedByPeer m mod 2 <> own_parity (sm_perspective m));
}.

(** What the callback of the session guarantees: the new stream has the requested ID. *)
Definition newStream_ok : Prop :=
  forall w id, match newStream w id with (_, Ok s) => StreamID s = id | (_, Err _) => True | (_, Panic) => False end.

(** Streams change their state, but neither their IDs nor the map. *)
Record only_streams (m m' : streamsMap) : Prop := {
  os_dom id : is_Some (sm_streams m' !! id) <-> is_Some (sm_streams m !! id);
  os_id id s : sm_streams m' !! id = Some s -> StreamID s = id;
  os_rest : m' = sm_set_streams m (sm_streams m') (sm_openStreams m);
}.

Lemma only_streams_ok m m' : only_streams m m' -> sm_ok m -> sm_ok m'.
Proof.
  intros [Hd Hi Hr] Hok. rewrite Hr. destruct Hok. split; cbn; try done.
  intros id. by rewrite Hd.
Qed.

Lemma len_range l a b : NoDup l -> (forall x, x ∈ l -> a <= x < b) -> a <= b -> len l <= b - a.
Proof.
  intros Hnd Hl Hab. assert (l ⊆+ seqZ a (b - a)) as Hs.
  { apply NoDup_submseteq; [done|]. intros x Hx%Hl. apply elem_of_seqZ. lia. }
  apply submseteq_length in Hs. rewrite length_seqZ in Hs. unfold len. lia.
Qed.

Lemma with_parity_bound r l :
  NoDup l -> (forall x, x ∈ l -> 0 < x < 2 ^ 32) -> len (with_parity r l) <= 2 ^ 31.
Proof.
  intros Hnd Hl. unfold with_parity.
  assert (len ((fun x => x / 2) <$> filter (fun id => id mod 2 = r) l) <= 2 ^ 31 - 0) as Hm.
  { apply len_range; [|intros x (y & -> & [_ Hy%Hl]%list_elem_of_filter)%list_elem_of_fmap|lia].
    - apply NoDup_fmap_2_strong; [|by apply NoDup_filter].
      intros x y [Hx _]%list_elem_of_filter [Hy _]%list_elem_of_filter E.
      rewrite (Z.div_mod x 2), (Z.div_mod y 2) by lia. lia.
    - split; [apply Z.div_pos; lia|]. apply Z.div_lt_upper_bound; lia. }
  unfold len in *. rewrite length_fmap in Hm. lia.
Qed.

Lemma with_parity_snoc r l id :
  len (with_parity r (l ++ [id])) = len (with_parity r l) + (if decide (id mod 2 = r) then 1 else 0).
Proof.
  unfold with_parity. rewrite filter_app, len_app, filter_cons. by case_decide.
Qed.

(** [m'] is [m] with the streams [ids] opened by the peer. *)
Record opened_remote (m m' : streamsMap) (ids : list Z) : Prop := {
  or_open : sm_openStreams m' = sm_openStreams m ++ ids;
  or_old id s : sm_streams m !! id = Some s -> sm_streams m' !! id = Some s;
  or_highest : sm_highestStreamOpenedByPeer m' = List.last ids (sm_highestStreamOpenedByPeer m);
  or_rest : sm_perspective m' = sm_perspective m /\ sm_roundRobinIndex m' = sm_roundRobinIndex m /\
    sm_nextStream m' = sm_nextStream m /\ sm_closeErr m' = sm_closeErr m /\
    sm_nextStreamToAccept m' = sm_nextStreamToAccept m;
}.

Lemma opened_remote_refl m : opened_remote m m [].
Proof. split; [by rewrite app_nil_r|done..]. Qed.

Lemma opened_remote_trans m1 m2 m3 ids ids' :
  opened_remote m1 m2 ids -> opened_remote m2 m3 ids' -> opened_remote m1 m3 (ids ++ ids').
Proof.
  intros [H1 H2 H3 H4] [H1' H2' H3' H4']. split.
  - by rewrite H1', H1, app_assoc.
  - auto.
  - rewrite H3', H3. clear. induction ids as [|x ids IH] using rev_ind; [done|].
    destruct ids' as [|y ids' _] using rev_ind; [by rewrite app_nil_r|].
    by rewrite app_assoc, !last_last.
  - intuition congruence.
Qed.

(** A new ID is put at the end of the open streams. *)
Lemma putStream_new m s id :
  StreamID s = id -> sm_streams m !! id = None ->
  (putStream m s).1 = sm_set_streams m (<[id := s]> (sm_streams m)) (sm_openStreams m ++ [id]).
Proof. intros <- Hn. unfold putStream. by rewrite Hn. Qed.

(** The invariant after opening [id], which counts for the parity of [id] *)
Lemma sm_ok_put m m' id s :
  sm_ok m -> StreamID s = id -> sm_streams m !! id = None -> 0 < id < 2 ^ 32 ->
  sm_perspective m' = sm_perspective m -> sm_roundRobinIndex m' = sm_roundRobinIndex m ->
  sm_streams m' = <[id := s]> (sm_streams m) -> sm_openStreams m' = sm_openStreams m ++ [id] ->
  sm_numOutgoingStreams m' = sm_numOutgoingStreams m + (if decide (id mod 2 = 0) then 1 else 0) ->
  sm_numIncomingStreams m' = sm_numIncomingStreams m + (if decide (id mod 2 = 1) then 1 else 0) ->
  sm_nextStream m <= sm_nextStream m' < 2 ^ 32 ->
  sm_nextStream m' mod 2 = sm_nextStream m mod 2 ->
  sm_highestStreamOpenedByPeer m <= sm_highestStreamOpenedByPeer m' < 2 ^ 32 ->
  (id mod 2 = own_parity (sm_perspective m) -> id < sm_nextStream m') ->
  (id mod 2 <> own_parity (sm_perspective m) -> id <= sm_highestStreamOpenedByPeer m') ->
  (sm_highestStreamOpenedByPeer m' = 0 \/
     sm_highestStreamOpenedByPeer m' mod 2 <> own_parity (sm_perspective m)) ->
  sm_ok m'.
Proof.
  intros [] Hs Hn Hid Hp Hr Hss Hos Hout Hin Hnx Hnp Hhi Hown Hrem Hpar.
  assert (id ∉ sm_openStreams m) as Hfresh.
  { intros Hx%ok_open0. rewrite Hn in Hx. by destruct Hx. }
  split; rewrite ?Hp, ?Hr, ?Hss, ?Hos; try (intros x; rewrite elem_of_app, list_elem_of_singleton).
  - apply NoDup_app. split_and!; [done| |apply NoDup_singleton].
    by intros x Hx ->%list_elem_of_singleton.
  - rewrite lookup_insert_is_Some', <- ok_open0. split; intros [?|?]; auto.
  - intros id' s'. rewrite lookup_insert. destruct (decide (id = id')); [|apply ok_id0].
    intros [= <-]. congruence.
  - intros [Hx| ->]; [by apply ok_range0|done].
  - autorewrite with quic_len. lia.
  - rewrite with_parity_snoc. lia.
  - rewrite with_parity_snoc. lia.
  - intros [Hx| ->]; [|done]. intros Hx2. specialize (ok_own0 x Hx Hx2). lia.
  - intros [Hx| ->]; [|done]. intros Hx2. specialize (ok_remote0 x Hx Hx2). lia.
  - rewrite Hnp. split; [tauto|]. lia.
  - split; [lia|done].
Qed.

Context (Hnew : newStream_ok).

Lemma parity_cases (id : Z) (p : Perspective) :
  id mod 2 = own_parity p \/ id mod 2 = 1 - own_parity p.
Proof.
  pose proof (Z.mod_pos_bound id 2 ltac:(lia)). unfold own_parity. destruct (is_server p); lia.
Qed.

(** Counts stay far from the limits of their type. *)
Lemma counts_bound m : sm_ok m ->
  0 <= sm_numOutgoingStreams m <= 2 ^ 31 /\ 0 <= sm_numIncomingStreams m <= 2 ^ 31.
Proof.
  intros []. rewrite ok_outgoing0, ok_incoming0.
  pose proof (with_parity_bound 0 _ ok_nodup0 ok_range0).
  pose proof (with_parity_bound 1 _ ok_nodup0 ok_range0).
  pose proof (len_nonneg (with_parity 0 (sm_openStreams m))).
  pose proof (len_nonneg (with_parity 1 (sm_openStreams m))). lia.
Qed.

Lemma openRemoteStream_spec cp m w id :
  sm_ok m -> 0 < id < 2 ^ 32 -> id mod 2 <> own_parity (sm_perspective m) ->
  sm_highestStreamOpenedByPeer m < id <= sm_highestStreamOpenedByPeer m + 2 ->
  match openRemoteStream cp m w id with
  | (m', _, Ok s) => sm_ok m' /\ opened_remote m m' [id] /\ sm_streams m' !! id = Some s /\
      id + MaxNewStreamIDDelta < 2 ^ 32 /\ sm_numIncomingStreams m < GetMaxIncomingStreams cp
  | (m', _, Err _) => m' = m
  | (_, _, Panic) => False
  end.
Proof.
  intros Hok Hid Hpar Hhi. unfold openRemoteStream. case_if; [done|]. case_if; [done|].
  pose proof (Hnew w id) as Hn. destruct (newStream w id) as [w' [s|e|]]; [|done|done].
  assert (id + MaxNewStreamIDDelta < 2 ^ 32) as Hbound.
  { change MaxNewStreamIDDelta with 400 in *.
    destruct (decide (id + 400 < 2 ^ 32)) as [|Hge]; [done|]. exfalso.
    assert (u32 (id + 400) = id + 400 - 2 ^ 32) as E.
    { unfold u32. symmetry. apply Z.mod_unique with 1; lia. }
    rewrite E in *. lia. }
  pose proof (counts_bound m Hok) as [Hc1 Hc2].
  assert (sm_streams m !! id = None) as Hfresh.
  { destruct (sm_streams m !! id) eqn:E; [|done].
    assert (id ∈ sm_openStreams m) as Hin by (apply (ok_open _ Hok); eauto).
    pose proof (ok_remote _ Hok id Hin Hpar). lia. }
  pose proof (ok_highest _ Hok) as [Hh1 Hh2]. pose proof (ok_next _ Hok) as [Hx1 Hx2].
  assert (id mod 2 = 1 - own_parity (sm_perspective m)) as Hpar'
    by (destruct (parity_cases id (sm_perspective m)); lia).
  set (m1 := if is_server _ then _ else _).
  assert (sm_highestStreamOpenedByPeer m1 = sm_highestStreamOpenedByPeer m) as E1
    by (subst m1; by destruct (is_server _)).
  rewrite E1. rewrite (proj2 (Z.gtb_lt _ _)) by lia.
  rewrite (putStream_new _ s id); [|done|subst m1; by destruct (is_server _)].
  split_and!; [|split| |done|done].
  - eapply (sm_ok_put m _ id s); subst m1; unfold own_parity in *;
      destruct (is_server (sm_perspective m)) eqn:Es; cbn; try done; try lia.
    all: nowrap; repeat case_decide; lia.
  - subst m1. by destruct (is_server _).
  - intros id' s' Hs'. subst m1. destruct (is_server _); cbn; rewrite lookup_insert_ne; (done || congruence).
  - done.
  - subst m1. by destruct (is_server _).
  - subst m1. destruct (is_server _); cbn; apply lookup_insert_eq.
Qed.

(** [n] consecutive IDs of one side *)
Fixpoint streamIDs (n : nat) (sid : Z) : list Z :=
  match n with
  | O => []
  | Datatypes.S n => sid :: streamIDs n (sid + 2)
  end.

(** The outcome of opening all streams from [sid] on, [n] in all: all of them are open, or
    an error is returned after the first [k]. *)
Definition opened_up_to (m m' : streamsMap) (n : nat) (sid : Z) (r : res unit) : Prop :=
  match r with
  | Ok _ => opened_remote m m' (streamIDs n sid)
  | Err _ => exists k, (k < n)%nat /\ opened_remote m m' (streamIDs k sid)
  | Panic => False
  end.

Lemma openRemoteStreams_spec fuel n cp m w sid id m' w' r :
  sm_ok m -> 0 < sid < 2 ^ 32 -> id < 2 ^ 32 -> sid mod 2 <> own_parity (sm_perspective m) ->
  sm_highestStreamOpenedByPeer m < sid <= sm_highestStreamOpenedByPeer m + 2 ->
  id = sid + 2 * Z.of_nat n - 2 -> (n < fuel)%nat ->
  openRemoteStreams fuel cp m w sid id = (m', w', r) -> sm_ok m' /\ opened_up_to m m' n sid r.
Proof.
  revert fuel m w sid; induction n as [|n IH]; intros fuel m w sid Hok Hsid Hid Hpar Hhi Heq Hfuel Hrun.
  { destruct fuel; cbn [openRemoteStreams] in Hrun; rewrite (proj2 (Z.leb_gt sid id)) in Hrun by lia;
      injection Hrun as <- _ <-; (split; [done|apply opened_remote_refl]). }
  destruct fuel as [|fuel]; [lia|]. cbn [openRemoteStreams] in Hrun.
  rewrite (proj2 (Z.leb_le sid id)) in Hrun by lia.
  pose proof (openRemoteStream_spec cp m w sid Hok Hsid Hpar Hhi) as Hone.
  destruct (openRemoteStream cp m w sid) as [[m1 w1] [s|e|]]; [| |done].
  - destruct Hone as (Hok1 & Hopen & _ & Hb & _). change MaxNewStreamIDDelta with 400 in Hb.
    pose proof (or_highest _ _ _ Hopen) as Hh1. cbn [List.last] in Hh1.
    pose proof (or_rest _ _ _ Hopen) as [Hp1 _].
    rewrite (u32_small (sid + 2)) in Hrun by (unfold_width; lia).
    apply IH in Hrun as [Hok' Hup]; [|done|lia|done| |lia|lia|lia].
    2: { rewrite Hp1. by rewrite <- (Z_mod_plus_full sid 1 2) in Hpar. }
    split; [done|]. destruct r as [u|e|]; cbn in *.
    + by apply (opened_remote_trans _ m1 _ [sid] (streamIDs n (sid + 2))).
    + destruct Hup as (k & Hk & Hup). exists (Datatypes.S k). split; [lia|].
      by apply (opened_remote_trans _ m1 _ [sid] (streamIDs k (sid + 2))).
    + done.
  - subst m1. injection Hrun as <- _ <-. split; [done|]. exists O. split; [lia|apply opened_remote_refl].
Qed.

Lemma last_streamIDs n sid d : (0 < n)%nat -> List.last (streamIDs n sid) d = sid + 2 * Z.of_nat n - 2.
Proof.
  revert sid d; induction n as [|n IH]; intros sid d Hn; [lia|]. cbn [streamIDs]. rewrite last_cons.
  destruct n; [cbn; lia|]. rewrite IH by lia. lia.
Qed.

(** The first stream that the peer has not opened yet *)
Definition firstUnopened (m : streamsMap) : Z :=
  if (sm_highestStreamOpenedByPeer m =? 0) && is_server (sm_perspective m) then 1
  else sm_highestStreamOpenedByPeer m + 2.

(** ** Each operation keeps the invariant *)

Lemma firstUnopened_spec m id :
  sm_ok m -> 0 < id < 2 ^ 32 -> sm_highestStreamOpenedByPeer m < id ->
  id mod 2 <> own_parity (sm_perspective m) ->
  exists n,
    (if (u32 (sm_highestStreamOpenedByPeer m + 2) =? 2) && is_server (sm_perspective m) then 1
     else u32 (sm_highestStreamOpenedByPeer m + 2)) = firstUnopened m /\
    firstUnopened m mod 2 <> own_parity (sm_perspective m) /\
    (id - firstUnopened m) / 2 + 1 = Z.of_nat n /\
    (0 < firstUnopened m <= id /\
     sm_highestStreamOpenedByPeer m < firstUnopened m <= sm_highestStreamOpenedByPeer m + 2) /\
    id = firstUnopened m + 2 * Z.of_nat n - 2.
Proof.
  intros Hok Hid Hlt Hpar. pose proof (ok_highest _ Hok) as [Hh1 Hh2]. unfold firstUnopened, own_parity in *.
  clear Hok. generalize dependent (sm_highestStreamOpenedByPeer m). intros h Hlt Hh1 Hh2.
  assert (h = 0 \/ h + 2 <= id) as Hgap by (destruct (is_server _); Z.div_mod_to_equations; lia).
  rewrite (u32_small (h + 2)) by (unfold_width; lia).
  exists (Z.to_nat ((id - if (h =? 0) && is_server (sm_perspective m) then 1 else h + 2) / 2 + 1)).
  replace (h + 2 =? 2) with (h =? 0) by (destruct (Z.eqb_spec h 0), (Z.eqb_spec (h + 2) 2); lia).
  split; [done|].
  destruct (is_server (sm_perspective m)), (Z.eqb_spec h 0) as [E|E]; cbn [andb]; try subst h;
    split_and!; Z.div_mod_to_equations; lia.
Qed.

Lemma GetOrOpenStream_spec cp m w id m' w' r :
  sm_ok m -> 0 <= id < 2 ^ 32 -> SM_GetOrOpenStream cp m w id = (m', w', r) ->
  sm_ok m' /\
  match sm_streams m !! id with
  | Some s => m' = m /\ r = Ok (Some s)
  | None =>
      if id <=? sm_highestStreamOpenedByPeer m then m' = m /\ r = Ok None
      else if id mod 2 =? own_parity (sm_perspective m) then m' = m /\ exists msg, r = Err (QuicError InvalidStreamID msg)
      else
        let n := Z.to_nat ((id - firstUnopened m) / 2 + 1) in
        opened_up_to m m' n (firstUnopened m) (rmap (fun _ => tt) r) /\
        (forall o, r = Ok o -> exists s, o = Some s /\ sm_streams m' !! id = Some s)
  end.
Proof.
  intros Hok Hid0 Hrun. unfold SM_GetOrOpenStream in Hrun.
  destruct (sm_streams m !! id) as [s|] eqn:Hs; [by injection Hrun as <- _ <-|].
  destruct (id <=? sm_highestStreamOpenedByPeer m) eqn:Hle; [by injection Hrun as <- _ <-|]. to_prop.
  assert (0 < id < 2 ^ 32) as Hid by (pose proof (ok_highest _ Hok); lia). clear Hid0.
  pose proof (parity_cases id (sm_perspective m)) as Hpc.
  destruct (id mod 2 =? own_parity (sm_perspective m)) eqn:Hpar; to_prop.
  { unfold own_parity in Hpar. destruct (is_server (sm_perspective m)); rewrite Hpar in Hrun; cbn in Hrun;
      injection Hrun as <- _ <-; eauto. }
  assert (is_server (sm_perspective m) && (id mod 2 =? 0) = false) as E1.
  { unfold own_parity in *. destruct (is_server (sm_perspective m)); [|done]. cbn. by apply Z.eqb_neq. }
  assert (negb (is_server (sm_perspective m)) && (id mod 2 =? 1) = false) as E2.
  { unfold own_parity in *. destruct (is_server (sm_perspective m)); [done|]. cbn. by apply Z.eqb_neq. }
  rewrite E1, E2 in Hrun.
  destruct (firstUnopened_spec m id Hok Hid ltac:(lia) Hpar) as (n & Hsid & Hfpar & Hn & Hrange & Hfirst).
  rewrite Hsid in Hrun. replace (Z.to_nat ((id - firstUnopened m) / 2 + 2)) with (Datatypes.S n) in Hrun by lia.
  destruct (openRemoteStreams (Datatypes.S n) cp m w (firstUnopened m) id) as [[m1 w1] r1] eqn:Hloop.
  eapply (openRemoteStreams_spec _ n) in Hloop as [Hok1 Hup]; [|done|lia|lia|done|lia|lia|lia].
  replace (Z.to_nat ((id - firstUnopened m) / 2 + 1)) with n by lia.
  destruct r1 as [u|e|]; [| |done]; injection Hrun as <- _ <-.
  - split; [done|]. split; [done|]. intros o [= <-].
    assert (id ∈ sm_openStreams m1) as [s Hin]%(ok_open _ Hok1); [|eauto].
    rewrite (or_open _ _ _ Hup). apply elem_of_app. right.
    assert (0 < n)%nat as Hpos by lia. rewrite Hfirst, <- (last_streamIDs n _ (firstUnopened m) Hpos).
    destruct n as [|n']; [lia|]. cbn [streamIDs]. rewrite last_cons. apply last_elem.
  - split; [done|]. split; [done|]. by intros o.
Qed.

(** Opening a stream of our own; IDs are not reused as long as they do not wrap around. *)
Lemma openStreamImpl_spec cp m w m' w' r :
  sm_ok m -> sm_nextStream m + 2 < 2 ^ 32 -> openStreamImpl cp m w = (m', w', r) ->
  sm_ok m' /\
  match r with
  | Ok s => StreamID s = sm_nextStream m /\ sm_streams m' = <[sm_nextStream m := s]> (sm_streams m) /\
      sm_openStreams m' = sm_openStreams m ++ [sm_nextStream m] /\ sm_nextStream m' = sm_nextStream m + 2 /\
      sm_highestStreamOpenedByPeer m' = sm_highestStreamOpenedByPeer m /\
      sm_perspective m' = sm_perspective m /\ sm_closeErr m' = sm_closeErr m /\
      sm_nextStreamToAccept m' = sm_nextStreamToAccept m /\
      sm_numOutgoingStreams m < GetMaxOutgoingStreams cp
  | Err _ => m' = m
  | Panic => False
  end.
Proof.
  intros Hok Hb Hrun. unfold openStreamImpl in Hrun. case_if; [by injection Hrun as <- _ <-|].
  pose proof (Hnew w (sm_nextStream m)) as Hn.
  destruct (newStream w (sm_nextStream m)) as [w1 [s|e|]]; [|by injection Hrun as <- _ <-|done].
  pose proof (ok_next _ Hok) as [Hx1 Hx2]. pose proof (ok_highest _ Hok) as [Hh1 Hh2].
  pose proof (counts_bound m Hok) as [Hc1 Hc2].
  assert (sm_streams m !! sm_nextStream m = None) as Hfresh.
  { destruct (sm_streams m !! sm_nextStream m) eqn:E; [|done].
    assert (sm_nextStream m ∈ sm_openStreams m) as Hin by (apply (ok_open _ Hok); eauto).
    pose proof (ok_own _ Hok _ Hin Hx1). lia. }
  rewrite (putStream_new _ s (sm_nextStream m)) in Hrun; [|done|by destruct (is_server _)].
  injection Hrun as <- _ <-. split.
  - assert ((sm_nextStream m + 2) mod 2 = sm_nextStream m mod 2) as Hmod
      by (apply (Z_mod_plus_full _ 1 2)).
    eapply (sm_ok_put m _ (sm_nextStream m) s); unfold own_parity in *;
      destruct (is_server (sm_perspective m)) eqn:Es; cbn; nowrap; try done; try lia.
    all: repeat case_decide; lia.
  - destruct (is_server (sm_perspective m)); cbn; nowrap; done.
Qed.

Lemma findIndex_split id l1 l2 i :
  id ∉ l1 -> findIndex id (l1 ++ id :: l2) i = Some (i + len l1).
Proof.
  revert i; induction l1 as [|x l1 IH]; intros i Hn; cbn [app findIndex].
  - rewrite Z.eqb_refl, len_nil. f_equal. lia.
  - apply not_elem_of_cons in Hn as [Hx Hn]. rewrite (proj2 (Z.eqb_neq x id)) by congruence.
    rewrite IH by done. rewrite len_cons. f_equal. lia.
Qed.

Lemma with_parity_split r l1 l2 id :
  len (with_parity r (l1 ++ id :: l2))
  = len (with_parity r (l1 ++ l2)) + (if decide (id mod 2 = r) then 1 else 0).
Proof.
  unfold with_parity. rewrite !filter_app, !len_app, filter_cons.
  case_decide; autorewrite with quic_len; lia.
Qed.

Lemma sm_ok_remove m m' id l1 l2 :
  sm_ok m -> sm_openStreams m = l1 ++ id :: l2 -> sm_openStreams m' = l1 ++ l2 ->
  sm_streams m' = delete id (sm_streams m) ->
  sm_perspective m' = sm_perspective m -> sm_nextStream m' = sm_nextStream m ->
  sm_highestStreamOpenedByPeer m' = sm_highestStreamOpenedByPeer m ->
  sm_numOutgoingStreams m' = sm_numOutgoingStreams m - (if decide (id mod 2 = 0) then 1 else 0) ->
  sm_numIncomingStreams m' = sm_numIncomingStreams m - (if decide (id mod 2 = 1) then 1 else 0) ->
  0 <= sm_roundRobinIndex m' <= len (l1 ++ l2) -> sm_ok m'.
Proof.
  intros [] Hl Hos Hss Hp Hnx Hhi Hout Hin Hidx.
  assert (forall x, x ∈ l1 ++ l2 -> x ∈ sm_openStreams m /\ x <> id) as Hsub.
  { rewrite Hl in *. intros x Hx. apply NoDup_app in ok_nodup0 as (_ & Hd & [Hn _]%NoDup_cons).
    rewrite elem_of_app in Hx. split; [rewrite elem_of_app, elem_of_cons; tauto|]. intros ->.
    destruct Hx as [Hx|Hx]; [|done]. apply (Hd _ Hx). left. }
  split; rewrite ?Hp, ?Hnx, ?Hhi, ?Hss, ?Hos; try done.
  - rewrite Hl in ok_nodup0. rewrite <- Permutation_middle in ok_nodup0. by apply NoDup_cons in ok_nodup0 as [_ ?].
  - intros x. rewrite lookup_delete_is_Some, <- ok_open0, Hl, !elem_of_app, elem_of_cons.
    specialize (Hsub x). rewrite elem_of_app in Hsub. destruct (decide (x = id)) as [->|]; naive_solver.
  - intros x s [_ Hx]%lookup_delete_Some. by apply ok_id0.
  - intros x [Hx _]%Hsub. by apply ok_range0.
  - rewrite Hl, with_parity_split in ok_outgoing0. lia.
  - rewrite Hl, with_parity_split in ok_incoming0. lia.
  - intros x [Hx _]%Hsub. by apply ok_own0.
  - intros x [Hx _]%Hsub. by apply ok_remote0.
Qed.

Lemma RemoveStream_spec m id :
  sm_ok m -> is_Some (sm_streams m !! id) ->
  exists m' l1 l2, SM_RemoveStream m id = (m', Ok tt) /\ sm_ok m' /\
    sm_streams m' = delete id (sm_streams m) /\
    sm_openStreams m = l1 ++ id :: l2 /\ sm_openStreams m' = l1 ++ l2 /\
    sm_perspective m' = sm_perspective m /\ sm_nextStream m' = sm_nextStream m /\
    sm_highestStreamOpenedByPeer m' = sm_highestStreamOpenedByPeer m /\
    sm_nextStreamToAccept m' = sm_nextStreamToAccept m.
Proof.
  intros Hok Hs. pose proof Hs as Hin%(ok_open _ Hok). apply list_elem_of_split in Hin as (l1 & l2 & Hl).
  pose proof (ok_nodup _ Hok) as Hnd. rewrite Hl in Hnd. apply NoDup_app in Hnd as (Hnd1 & Hd & Hnd2).
  assert (id ∉ l1) as Hn1 by (intros Hx; apply (Hd _ Hx); left).
  destruct Hs as [s Hs]. unfold SM_RemoveStream. rewrite Hs.
  set (m1 := if id mod 2 =? 0 then _ else _).
  assert (sm_openStreams m1 = l1 ++ id :: l2) as E1 by (subst m1; by destruct (_ =? 0)).
  rewrite E1, findIndex_split, Z.add_0_l by done.
  rewrite take_len_app. replace (drop (Z.to_nat (len l1 + 1)) (l1 ++ id :: l2)) with l2.
  2: { rewrite cons_middle, app_assoc. unfold len.
       replace (Z.to_nat _) with (length (l1 ++ [id])) by (rewrite length_app; simpl; lia).
       by rewrite drop_app_length. }
  assert (len (l1 ++ id :: l2) <= 2 ^ 32 - 1) as Hlen.
  { rewrite <- Hl. apply (len_range _ 1 (2 ^ 32)); [apply Hok| |lia].
    intros x Hx. pose proof (ok_range _ Hok x Hx). lia. }
  pose proof (counts_bound m Hok) as [Hc1 Hc2]. pose proof (ok_index _ Hok) as Hidx.
  pose proof (ok_outgoing _ Hok) as Ho. pose proof (ok_incoming _ Hok) as Hi.
  rewrite Hl in Hidx, Ho, Hi. rewrite with_parity_split in Ho, Hi. autorewrite with quic_len in Hidx, Hlen.
  pose proof (len_nonneg l1). pose proof (len_nonneg l2).
  pose proof (len_nonneg (with_parity 0 (l1 ++ l2))). pose proof (len_nonneg (with_parity 1 (l1 ++ l2))).
  assert (sm_roundRobinIndex m1 = sm_roundRobinIndex m) as E2 by (subst m1; by destruct (_ =? 0)).
  cbn [sm_roundRobinIndex sm_set_streams]. rewrite E2, (u32_small (len l1)) by (unfold_width; lia).
  pose proof (Z.mod_pos_bound id 2 ltac:(lia)).
  subst m1. destruct (id mod 2 =? 0) eqn:Hpar, (len l1 <? sm_roundRobinIndex m) eqn:Hlt; to_prop;
    eexists _, l1, l2; (split; [reflexivity|]); cbn; split_and!; try done;
    (eapply (sm_ok_remove m _ id l1 l2); [done|done|..]; cbn; autorewrite with quic_len; try done;
     repeat case_decide; nowrap; lia).
Qed.

(** ** Round-robin scheduling *)

(** A callback that only changes the state of streams and does not fail, as the one of
    stream_framer.go *)
Record local_fn (fn : streamLambda) : Prop := {
  lf_streams m w s :
    (forall id s, sm_streams m !! id = Some s -> StreamID s = id) ->
    sm_streams m !! StreamID s = Some s -> only_streams m (fn (m, w) s).1.1;
  lf_noerr st s : (fn st s).2.2 = None;
  lf_index m w s i : fn (sm_set_index m i, w) s
    = ((sm_set_index (fn (m, w) s).1.1 i, (fn (m, w) s).1.2), (fn (m, w) s).2);
}.

(** Calls [fn] for the streams [ids], until it returns false, and lists the streams for
    which it was called. *)
Fixpoint visit (ids : list Z) (st : streamsMap * W) (fn : streamLambda)
    : (streamsMap * W) * list Z :=
  match ids with
  | [] => (st, [])
  | id :: ids =>
      match sm_streams st.1 !! id with
      | None => visit ids st fn
      | Some s =>
          let '(st, (cont, _)) := fn st s in
          if cont : bool then let '(st, ids) := visit ids st fn in (st, id :: ids)
          else (st, [id])
      end
  end.

Definition prioritized (id : Z) : bool := (id =? 1) || (id =? 3).

(** The order of a round: streams 1 and 3, then the others from the current index on *)
Definition rotate (k : nat) (l : list Z) : list Z := drop k l ++ take k l.
Definition others (ids : list Z) : list Z := filter (fun id => prioritized id = false) ids.
Definition roundOrder (m : streamsMap) : list Z :=
  [1; 3] ++ others (rotate (Z.to_nat (sm_roundRobinIndex m mod len (sm_openStreams m))) (sm_openStreams m)).

Lemma only_streams_refl m : (forall id s, sm_streams m !! id = Some s -> StreamID s = id) -> only_streams m m.
Proof. intros Hid. split; [done|done|]. by destruct m. Qed.
Lemma only_streams_trans m1 m2 m3 : only_streams m1 m2 -> only_streams m2 m3 -> only_streams m1 m3.
Proof.
  intros [H1 H2 H3] [H1' H2' H3']. split; [|done|].
  - intros id. by rewrite H1', H1.
  - rewrite H3', H3. done.
Qed.

Lemma rotate_lookup (l : list Z) (start i : Z) :
  0 <= start <= len l -> 0 <= i < len l ->
  rotate (Z.to_nat (start mod len l)) l !! Z.to_nat i = l !! Z.to_nat ((i + start) mod len l).
Proof.
  intros Hs Hi. unfold rotate. set (k := start mod len l).
  assert (0 <= k < len l) as Hk by (apply Z.mod_pos_bound; lia).
  assert ((i + start) mod len l = (i + k) mod len l) as ->
    by (subst k; by rewrite Z.add_mod_idemp_r by lia).
  assert (length (drop (Z.to_nat k) l) = Z.to_nat (len l - k)) as Hlen
    by (rewrite length_drop; unfold len in *; lia).
  destruct (decide (i + k < len l)) as [Hlt|Hge].
  - rewrite lookup_app_l by lia. rewrite lookup_drop, Z.mod_small by lia. f_equal. lia.
  - rewrite lookup_app_r by lia. rewrite Hlen.
    replace ((i + k) mod len l) with (i + k - len l).
    2: { apply Z.mod_unique with 1; lia. }
    rewrite lookup_take_lt by lia. f_equal. lia.
Qed.

Section round_robin.
Context (fn : streamLambda) (Hfn : local_fn fn).

Lemma visit_index ids m w i :
  visit ids (sm_set_index m i, w) fn
  = ((sm_set_index (visit ids (m, w) fn).1.1 i, (visit ids (m, w) fn).1.2), (visit ids (m, w) fn).2).
Proof using Hfn.
  revert m w; induction ids as [|id ids IH]; intros m w; [done|]. cbn.
  destruct (sm_streams m !! id) as [s|]; [|apply IH].
  rewrite (lf_index _ Hfn). destruct (fn (m, w) s) as [[m1 w1] [[|] e]]; cbn; [|done].
  rewrite IH. by destruct (visit ids (m1, w1) fn) as [[m2 w2] v].
Qed.

Lemma visit_only_streams ids m w :
  (forall id s, sm_streams m !! id = Some s -> StreamID s = id) ->
  only_streams m (visit ids (m, w) fn).1.1.
Proof using Hfn.
  revert m w; induction ids as [|id ids IH]; intros m w Hid; [by apply only_streams_refl|]. cbn.
  destruct (sm_streams m !! id) as [s|] eqn:Hs; [|by apply IH].
  assert (sm_streams m !! StreamID s = Some s) as Hs' by (by rewrite (Hid id s)).
  pose proof (lf_streams _ Hfn m w s Hid Hs') as Hos. destruct (fn (m, w) s) as [[m1 w1] [[|] e]]; [|done].
  cbn in Hos. specialize (IH m1 w1 (os_id _ _ Hos)). destruct (visit ids (m1, w1) fn) as [[m2 w2] v].
  by eapply only_streams_trans.
Qed.

(** The index after [k] streams have been visited *)
Definition bump (idx n k : Z) : Z := if k =? 0 then idx else (idx + k) mod n.

Lemma bump_bump idx n k : 0 < n -> 0 <= k -> bump (bump idx n 1) n k = bump idx n (k + 1).
Proof using Type.
  intros Hn Hk. unfold bump. cbn. rewrite (proj2 (Z.eqb_neq (k + 1) 0)) by lia.
  destruct (Z.eqb_spec k 0) as [->|]; [done|]. rewrite Z.add_mod_idemp_l by lia. f_equal. lia.
Qed.

Lemma roundRobinLoop_visit rest i start m w :
  let n := len (sm_openStreams m) in
  (forall id s, sm_streams m !! id = Some s -> StreamID s = id) ->
  (forall id, id ∈ sm_openStreams m -> is_Some (sm_streams m !! id)) ->
  (forall j, (j < length rest)%nat ->
    rest !! j = sm_openStreams m !! Z.to_nat (u32 (i + Z.of_nat j + start) mod n)) ->
  (forall id, id ∈ rest -> id ∈ sm_openStreams m) ->
  0 <= sm_roundRobinIndex m <= n -> n <= 2 ^ 31 ->
  let '((m', w'), v) := visit (others rest) (m, w) fn in
  roundRobinLoop (length rest) i start n (m, w) fn
  = ((sm_set_index m' (bump (sm_roundRobinIndex m) n (len v)), w'), rrReturn None).
Proof using Hfn.
  intros n. revert i m w n; induction rest as [|id rest IH]; intros i m w n Hid Hopen Hrest Hin Hidx Hn.
  { cbn. unfold bump. cbn. by destruct m. }
  assert (sm_openStreams m !! Z.to_nat (u32 (i + start) mod n) = Some id) as Hnext.
  { specialize (Hrest O ltac:(simpl; lia)). rewrite Z.add_0_r in Hrest. by rewrite <- Hrest. }
  assert (0 < n) as Hpos.
  { apply list_elem_of_lookup_2 in Hnext. subst n. destruct (sm_openStreams m); [by apply elem_of_nil in Hnext|].
    rewrite len_cons. pose proof (len_nonneg l). lia. }
  assert (forall m0 : streamsMap, sm_openStreams m0 = sm_openStreams m -> forall j, (j < length rest)%nat ->
    rest !! j = sm_openStreams m0 !! Z.to_nat (u32 (i + 1 + Z.of_nat j + start) mod n)) as Hrest'.
  { intros m0 -> j Hj. specialize (Hrest (Datatypes.S j) ltac:(simpl; lia)).
    replace (i + 1 + Z.of_nat j) with (i + Z.of_nat (Datatypes.S j)) by lia. by rewrite <- Hrest. }
  assert (forall x, x ∈ rest -> x ∈ sm_openStreams m) as Hin' by (intros x Hx; apply Hin; by right).
  cbn [length roundRobinLoop fst]. rewrite Hnext. unfold others. rewrite filter_cons. cbn [fst].
  fold (prioritized id). destruct (prioritized id) eqn:Hprio; cbn [decide].
  { rewrite decide_False by done. apply IH; auto. }
  rewrite decide_True by done. fold (others rest). cbn [visit fst]. unfold iterateFunc. cbn [fst].
  destruct (Hopen id (Hin id ltac:(left))) as [s Hs]. rewrite Hs.
  assert (sm_streams m !! StreamID s = Some s) as Hs' by (by rewrite (Hid id s)).
  pose proof (lf_streams _ Hfn m w s Hid Hs') as Hos. pose proof (lf_noerr _ Hfn (m, w) s) as Herr.
  destruct (fn (m, w) s) as [[m1 w1] [cont e]] eqn:Ecall. cbn in Hos, Herr. subst e.
  assert (sm_openStreams m1 = sm_openStreams m) as Eo by (by rewrite (os_rest _ _ Hos)).
  assert (sm_roundRobinIndex m1 = sm_roundRobinIndex m) as Ei by (by rewrite (os_rest _ _ Hos)).
  cbn [fst snd]. rewrite Ei. rewrite (u32_small (sm_roundRobinIndex m + 1)) by (unfold_width; lia).
  pose proof (Z.mod_pos_bound (sm_roundRobinIndex m + 1) n Hpos) as Hmod.
  destruct cont; [|done].
  set (m2 := sm_set_index m1 _).
  assert (len (sm_openStreams m2) = n) as En by (subst m2 n; cbn; by rewrite Eo).
  specialize (IH (i + 1) m2 w1). cbv zeta in IH. rewrite En in IH.
  subst m2. rewrite visit_index in IH.
  destruct (visit (others rest) (m1, w1) fn) as [[m3 w3] v]. cbn [fst snd] in IH.
  rewrite IH.
  - cbn [sm_set_index sm_roundRobinIndex]. rewrite len_cons, (Z.add_comm 1 (len v)), <- bump_bump by (auto using len_nonneg).
    done.
  - intros x y. cbn. apply (os_id _ _ Hos).
  - intros x. cbn. rewrite Eo, (os_dom _ _ Hos). apply Hopen.
  - intros j Hj. cbn. by apply Hrest'.
  - intros x Hx. cbn. rewrite Eo. auto.
  - cbn. lia.
  - done.
Qed.

Lemma visit_subset ids st : forall id, id ∈ (visit ids st fn).2 -> id ∈ ids.
Proof using Type.
  revert st; induction ids as [|x ids IH]; intros st id; cbn; [done|].
  destruct (sm_streams st.1 !! x) as [s|]; [|intros Hx; right; by eapply IH].
  destruct (fn st s) as [st1 [[|] e]]; cbn.
  - specialize (IH st1 id). destruct (visit ids st1 fn) as [st2 v]. cbn in *.
    rewrite !elem_of_cons. naive_solver.
  - rewrite !elem_of_cons, elem_of_nil. naive_solver.
Qed.

(** The first part of a round *)
Lemma iteratePriority_visit ids rest st :
  exists v, (forall id, id ∈ v -> id ∈ ids) /\
  match iteratePriority ids st fn with
  | (st', rrContinue) =>
      visit (ids ++ rest) st fn = ((visit rest st' fn).1, v ++ (visit rest st' fn).2)
  | (st', rrReturn None) => visit (ids ++ rest) st fn = (st', v)
  | _ => False
  end.
Proof using Hfn.
  revert st; induction ids as [|id ids IH]; intros st; cbn [iteratePriority app visit].
  { exists []. split; [done|]. by destruct (visit rest st fn). }
  unfold iterateFunc. destruct (sm_streams st.1 !! id) as [s|].
  - pose proof (lf_noerr _ Hfn st s) as He. destruct (fn st s) as [st1 [[|] e]]; cbn in He; subst e.
    + destruct (IH st1) as (v & Hv & Hm). exists (id :: v). split.
      { intros x [->|Hx]%elem_of_cons; [left|right; auto]. }
      destruct (iteratePriority ids st1 fn) as [st2 [|[e|]|]]; try done; by rewrite Hm.
    + exists [id]. split; [|done]. intros x ->%list_elem_of_singleton. left.
  - rewrite decide_True by done. destruct (IH st) as (v & Hv & Hm). exists v. split; [|done].
    intros x Hx. right. auto.
Qed.

Lemma iteratePriority_only_streams ids m w :
  (forall id s, sm_streams m !! id = Some s -> StreamID s = id) ->
  only_streams m (iteratePriority ids (m, w) fn).1.1.
Proof using Hfn.
  revert m w; induction ids as [|id ids IH]; intros m w Hid; cbn [iteratePriority];
    [by apply only_streams_refl|].
  unfold iterateFunc. cbn [fst]. destruct (sm_streams m !! id) as [s|] eqn:Hs.
  - assert (sm_streams m !! StreamID s = Some s) as Hs' by (by rewrite (Hid id s)).
    pose proof (lf_streams _ Hfn m w s Hid Hs') as Hos. pose proof (lf_noerr _ Hfn (m, w) s) as He.
    destruct (fn (m, w) s) as [[m1 w1] [[|] e]]; cbn in He, Hos; subst e; [|done].
    eapply only_streams_trans; [done|]. by apply IH, Hos.
  - rewrite decide_True by done. by apply IH.
Qed.

End round_robin.

Lemma size_streams m : sm_ok m -> Z.of_nat (size (sm_streams m)) = len (sm_openStreams m).
Proof.
  intros Hok. assert (dom (sm_streams m) = list_to_set (sm_openStreams m) :> gset Z) as Hd.
  { apply set_eq. intros id. rewrite elem_of_dom, elem_of_list_to_set. symmetry. apply Hok. }
  rewrite <- size_dom, Hd, size_list_to_set by apply Hok. done.
Qed.

Lemma others_none v : (forall id, id ∈ v -> id ∈ [1; 3]) -> others v = [].
Proof.
  intros Hv. apply filter_none. intros x Hx%Hv. unfold prioritized.
  rewrite !elem_of_cons, elem_of_nil in Hx. destruct Hx as [->|[->|[]]]; done.
Qed.
Lemma others_all v l : (forall id, id ∈ v -> id ∈ others l) -> others v = v.
Proof. intros Hv. apply filter_all. by intros x [Hx _]%Hv%list_elem_of_filter. Qed.

(** ** Reachable states *)

Inductive sm_step (m : streamsMap) : streamsMap -> Prop :=
| St_GetOrOpenStream cp w id m' w' r :
    0 <= id < 2 ^ 32 -> SM_GetOrOpenStream cp m w id = (m', w', r) -> sm_step m m'
| St_OpenStream cp w m' w' r :
    sm_nextStream m + 2 < 2 ^ 32 -> SM_OpenStream cp m w = (m', w', r) -> sm_step m m'
| St_OpenStreamSync cp w m' w' r :
    sm_nextStream m + 2 < 2 ^ 32 -> SM_OpenStreamSync cp m w = (m', w', r) -> sm_step m m'
| St_AcceptStream m' r : SM_AcceptStream m = (m', r) -> sm_step m m'
| St_streams m' : only_streams m m' -> sm_step m m'
| St_RoundRobinIterate w fn m' w' r :
    local_fn fn -> len (sm_openStreams m) <= 2 ^ 31 ->
    RoundRobinIterate (m, w) fn = ((m', w'), r) -> sm_step m m'
| St_RemoveStream id m' r : SM_RemoveStream m id = (m', r) -> sm_step m m'
| St_CloseWithError err : sm_step m (SM_CloseWithError m err).

Lemma RoundRobinIterate_visit fn m w :
  local_fn fn -> sm_ok m -> len (sm_openStreams m) <= 2 ^ 31 ->
  let '((m', w'), v) := visit (roundOrder m) (m, w) fn in
  RoundRobinIterate (m, w) fn
  = ((sm_set_index m' (bump (sm_roundRobinIndex m) (len (sm_openStreams m)) (len (others v))), w'),
     rrReturn None).
Proof.
  intros Hfn Hok Hn. unfold RoundRobinIterate, roundOrder. cbn [fst].
  rewrite (size_streams m Hok). pose proof (len_nonneg (sm_openStreams m)).
  rewrite (u32_small (len _)) by (unfold_width; lia).
  set (rest := rotate _ _).
  destruct (iteratePriority_visit fn Hfn [1; 3] (others rest) (m, w)) as (v & Hv & Hm).
  pose proof (iteratePriority_only_streams fn Hfn [1; 3] m w (ok_id _ Hok)) as Hos.
  destruct (iteratePriority [1; 3] (m, w) fn) as [[m1 w1] [|[e|]|]]; try done.
  - cbn in Hos. assert (sm_openStreams m1 = sm_openStreams m) as Eo by (by rewrite (os_rest _ _ Hos)).
    assert (sm_roundRobinIndex m1 = sm_roundRobinIndex m) as Ei by (by rewrite (os_rest _ _ Hos)).
    pose proof (ok_index _ Hok) as Hidx.
    assert (length rest = length (sm_openStreams m)) as Hlen.
    { subst rest. unfold rotate. rewrite length_app, length_drop, length_take. lia. }
    pose proof (roundRobinLoop_visit fn Hfn rest 0 (sm_roundRobinIndex m) m1 w1) as Hloop.
    cbv zeta in Hloop. rewrite Eo, Ei in Hloop. rewrite Hm.
    pose proof (visit_subset fn (others rest) (m1, w1)) as Hsub.
    destruct (visit (others rest) (m1, w1) fn) as [[m2 w2] v2]. cbn [fst snd] in *.
    replace (Z.to_nat (len (sm_openStreams m))) with (length rest) by (unfold len; lia).
    rewrite Hloop; clear Hloop.
    + replace (others (v ++ v2)) with v2; [done|].
      unfold others. rewrite filter_app. fold (others v) (others v2).
      by rewrite others_none, (others_all v2 rest).
    + apply Hos.
    + intros id Hid. apply (os_dom _ _ Hos). by apply (ok_open _ Hok).
    + intros j Hj. rewrite Z.add_0_l. rewrite Hlen in Hj.
      rewrite u32_small by (unfold_width; unfold len in *; lia).
      rewrite <- rotate_lookup by (unfold len in *; lia). by rewrite Nat2Z.id.
    + intros id. subst rest. unfold rotate. set (k := Z.to_nat _).
      rewrite <- (take_drop k (sm_openStreams m)) at 3. rewrite !elem_of_app. tauto.
    + done.
    + done.
  - cbn in Hos. rewrite Hm, others_none by done. cbn.
    replace (bump _ _ 0) with (sm_roundRobinIndex m1); [by destruct m1|].
    by rewrite (os_rest _ _ Hos).
Qed.

Lemma sm_ok_index m i : sm_ok m -> 0 <= i <= len (sm_openStreams m) -> sm_ok (sm_set_index m i).
Proof. intros [] Hi. by split. Qed.

Lemma roundOrder_other m id : id ∈ roundOrder m -> prioritized id = false -> id ∈ sm_openStreams m.
Proof.
  unfold roundOrder. rewrite elem_of_app. intros [Hid|[_ Hid]%list_elem_of_filter] Hp.
  - exfalso. rewrite !elem_of_cons, elem_of_nil in Hid. by destruct Hid as [->|[->|[]]].
  - unfold rotate in Hid. set (k := Z.to_nat _) in Hid. rewrite <- (take_drop k (sm_openStreams m)).
    rewrite !elem_of_app in *. tauto.
Qed.

Lemma RoundRobinIterate_ok fn m w :
  local_fn fn -> sm_ok m -> len (sm_openStreams m) <= 2 ^ 31 ->
  sm_ok (RoundRobinIterate (m, w) fn).1.1.
Proof.
  intros Hfn Hok Hn.
  pose proof (RoundRobinIterate_visit fn m w Hfn Hok Hn) as Hv.
  pose proof (visit_only_streams fn Hfn (roundOrder m) m w (ok_id _ Hok)) as Hos.
  destruct (visit (roundOrder m) (m, w) fn) as [[m1 w1] v] eqn:E. rewrite Hv.
  cbn in Hos |- *.
  assert (sm_openStreams m1 = sm_openStreams m) as Eo by (by rewrite (os_rest _ _ Hos)).
  apply sm_ok_index; [by eapply only_streams_ok|]. rewrite Eo. unfold bump.
  destruct (others v) as [|x ov] eqn:Ex; [apply Hok|].
  assert (x ∈ others v) as [Hp Hx]%list_elem_of_filter by (rewrite Ex; left).
  assert (x ∈ sm_openStreams m) as Hin.
  { apply roundOrder_other; [|done]. apply (visit_subset fn _ (m, w)). by rewrite E. }
  assert (0 < len (sm_openStreams m)) as Hpos.
  { destruct (sm_openStreams m) as [|y l]; [by apply elem_of_nil in Hin|].
    rewrite len_cons. pose proof (len_nonneg l). lia. }
  rewrite len_cons, (proj2 (Z.eqb_neq _ _)) by (pose proof (len_nonneg ov); lia).
  pose proof (Z.mod_pos_bound (sm_roundRobinIndex m + (1 + len ov)) _ Hpos). lia.
Qed.

Lemma sm_step_ok m m' : sm_ok m -> sm_step m m' -> sm_ok m'.
Proof.
  intros Hok Hstep. destruct Hstep as
    [cp w id m' w' r Hid Hrun|cp w m' w' r Hb Hrun|cp w m' w' r Hb Hrun|m' r Hrun|m' Hos
    |w fn m' w' r Hfn Hn Hrun|id m' r Hrun|err].
  - by eapply GetOrOpenStream_spec in Hrun as [? _].
  - unfold SM_OpenStream in Hrun. destruct (sm_closeErr m); [by injection Hrun as <- _ _|].
    by eapply openStreamImpl_spec in Hrun as [? _].
  - unfold SM_OpenStreamSync in Hrun. destruct (sm_closeErr m); [by injection Hrun as <- _ _|].
    destruct (openStreamImpl cp m w) as [[m1 w1] r1] eqn:E. eapply openStreamImpl_spec in E as [? _]; [|done..].
    destruct r1 as [s|e|]; [|destruct (decide _)|]; by injection Hrun as <- _ _.
  - unfold SM_AcceptStream in Hrun. destruct (sm_closeErr m); [by injection Hrun as <- _|].
    destruct (sm_streams m !! _); injection Hrun as <- _; [|done]. destruct Hok. by split.
  - by eapply only_streams_ok.
  - pose proof (RoundRobinIterate_ok fn m w Hfn Hok Hn) as Hok'. by rewrite Hrun in Hok'.
  - destruct (sm_streams m !! id) as [s|] eqn:Hs.
    + destruct (RemoveStream_spec m id Hok ltac:(eauto)) as (m1 & l1 & l2 & Hr & Hok1 & _).
      rewrite Hr in Hrun. by injection Hrun as <- _.
    + unfold SM_RemoveStream in Hrun. rewrite Hs in Hrun. by injection Hrun as <- _.
  - destruct Hok. by split.
Qed.

Lemma newStreamsMap_ok pers : sm_ok (newStreamsMap pers).
Proof.
  destruct pers; (split; cbn; try done; [constructor|..]).
  all: try (intros id; rewrite lookup_empty; split; [by intros ?%elem_of_nil|by intros []]).
  all: try (intros id ?%elem_of_nil; done).
  all: split; [lia|auto].
Qed.

Lemma sm_reach_ok pers m : rtc sm_step (newStreamsMap pers) m -> sm_ok m.
Proof.
  intros Hr. pose proof (newStreamsMap_ok pers) as H0. revert H0.
  induction Hr; eauto using sm_step_ok.
Qed.

(** C25: in every state that the session can reach, the list of open streams and the map
    agree, no ID is open twice, the round-robin index is within the list, and the two
    counters are the numbers of open streams with even and with odd IDs, so they never
    wrap around. *)
Theorem streams_map_invariant pers m :
  rtc sm_step (newStreamsMap pers) m ->
  NoDup (sm_openStreams m) /\
  (forall id, id ∈ sm_openStreams m <-> is_Some (sm_streams m !! id)) /\
  0 <= sm_roundRobinIndex m <= len (sm_openStreams m) /\
  sm_numOutgoingStreams m = len (with_parity 0 (sm_openStreams m)) /\
  sm_numIncomingStreams m = len (with_parity 1 (sm_openStreams m)) /\
  sm_numOutgoingStreams m <= 2 ^ 31 /\ sm_numIncomingStreams m <= 2 ^ 31.
Proof.
  intros Hok%sm_reach_ok. pose proof (counts_bound m Hok). destruct Hok. split_and!; try done; lia.
Qed.

(** What [GetOrOpenStream] does, on every branch: it returns an open stream; it
    returns nothing for an ID up to the highest that the peer has opened; it refuses an ID
    of our own side; and otherwise it opens every stream of the peer up to the ID, in
    order, and returns the last, or stops with an error at one of them.  It never panics
    and its loop ends, also at the end of the ID space. *)
Theorem get_or_open_stream_outcome pers cp m w id m' w' r :
  rtc sm_step (newStreamsMap pers) m -> 0 <= id < 2 ^ 32 ->
  SM_GetOrOpenStream cp m w id = (m', w', r) ->
  match sm_streams m !! id with
  | Some s => m' = m /\ r = Ok (Some s)
  | None =>
      if id <=? sm_highestStreamOpenedByPeer m then m' = m /\ r = Ok None
      else if id mod 2 =? own_parity (sm_perspective m)
      then m' = m /\ exists msg, r = Err (QuicError InvalidStreamID msg)
      else
        let n := Z.to_nat ((id - firstUnopened m) / 2 + 1) in
        opened_up_to m m' n (firstUnopened m) (rmap (fun _ => tt) r) /\
        (forall o, r = Ok o -> exists s, o = Some s /\ sm_streams m' !! id = Some s)
  end.
Proof. intros Hok%sm_reach_ok Hid Hrun. by eapply GetOrOpenStream_spec. Qed.

(** A round calls the callback for streams 1 and 3 first and then for every other open
    stream once, from the current index on in the order of opening, until the callback
    stops it; the index advances by the number of these other streams.  There is no index
    out of range, also when streams have been closed since the last round. *)
Theorem round_robin_visits pers fn m w :
  rtc sm_step (newStreamsMap pers) m -> local_fn fn -> len (sm_openStreams m) <= 2 ^ 31 ->
  let '((m', w'), v) := visit (roundOrder m) (m, w) fn in
  RoundRobinIterate (m, w) fn
  = ((sm_set_index m' (bump (sm_roundRobinIndex m) (len (sm_openStreams m)) (len (others v))), w'),
     rrReturn None).
Proof. intros Hok%sm_reach_ok Hfn Hn. by apply RoundRobinIterate_visit. Qed.

(** ** Deviations *)

(** A stream that we opened ourselves and that is closed is taken for an attempt of
    the peer to open it, unless the peer has opened a stream with a higher ID: instead of
    ignoring a late frame for it, [GetOrOpenStream] returns an error that closes the
    session. *)
Theorem closed_own_stream_refused pers cp m w id :
  rtc sm_step (newStreamsMap pers) m ->
  0 <= id < sm_nextStream m -> id mod 2 = own_parity (sm_perspective m) ->
  sm_streams m !! id = None -> sm_highestStreamOpenedByPeer m < id ->
  exists msg, SM_GetOrOpenStream cp m w id = (m, w, Err (QuicError InvalidStreamID msg)).
Proof.
  intros Hok%sm_reach_ok Hid Hpar Hs Hhi. unfold SM_GetOrOpenStream. rewrite Hs.
  rewrite (proj2 (Z.leb_gt _ _)) by done. unfold own_parity in Hpar.
  destruct (is_server (sm_perspective m)); cbn; rewrite Hpar; cbn; eauto.
Qed.

(** The stream that [AcceptStream] waits for has been closed. *)
Record accept_stuck (m : streamsMap) (id : Z) : Prop := {
  as_ok : sm_ok m;
  as_next : sm_nextStreamToAccept m = id;
  as_closed : id ∉ sm_openStreams m;
  as_opened : 0 < id <= sm_highestStreamOpenedByPeer m;
  as_parity : id mod 2 <> own_parity (sm_perspective m);
}.

Lemma streamIDs_ge n sid x : x ∈ streamIDs n sid -> sid <= x.
Proof.
  revert sid; induction n as [|n IH]; intros sid; cbn; [by intros ?%elem_of_nil|].
  intros [->|Hx]%elem_of_cons; [lia|]. apply IH in Hx. lia.
Qed.

Lemma opened_remote_stuck m m' id n :
  accept_stuck m id -> sm_ok m' -> opened_remote m m' (streamIDs n (firstUnopened m)) -> accept_stuck m' id.
Proof.
  intros [Hok Hn Hc Hop Hp] Hok' [Ho Hold Hhi (Hpers & _ & _ & _ & Hacc)].
  pose proof (ok_highest _ Hok) as [Hh _].
  assert (sm_highestStreamOpenedByPeer m < firstUnopened m) as Hfirst.
  { unfold firstUnopened. case_if; cbn; lia. }
  split; [done|congruence| | |by rewrite Hpers].
  - rewrite Ho, elem_of_app. intros [Hx|Hx%streamIDs_ge]; [done|lia].
  - rewrite Hhi. destruct n as [|n]; [cbn; lia|]. rewrite last_streamIDs by lia. lia.
Qed.

Lemma openStreamImpl_stuck cp m w m' w' r id :
  accept_stuck m id -> sm_nextStream m + 2 < 2 ^ 32 -> openStreamImpl cp m w = (m', w', r) ->
  accept_stuck m' id.
Proof.
  intros [Hok Hn Hc Hop Hp] Hb Hrun. pose proof (ok_next _ Hok) as [Hpar _].
  eapply openStreamImpl_spec in Hrun as [Hok' Hout]; [|done|done].
  destruct r as [s|e|]; [|by subst m'|done]. destruct Hout as (_ & _ & Ho & _ & Hhi & Hpe & _ & Hacc & _).
  split; [done|congruence| |by rewrite Hhi|by rewrite Hpe].
  rewrite Ho, elem_of_app, list_elem_of_singleton. intros [?| ->]; done.
Qed.

Lemma step_stuck m m' id : accept_stuck m id -> sm_step m m' -> accept_stuck m' id.
Proof.
  intros Hst Hstep. pose proof (sm_step_ok _ _ (as_ok _ _ Hst) Hstep) as Hok'.
  pose proof Hst as [Hok Hn Hc Hop Hp]. destruct Hstep as
    [cp w sid m' w' r Hid Hrun|cp w m' w' r Hb Hrun|cp w m' w' r Hb Hrun|m' r Hrun|m' Hos
    |w fn m' w' r Hfn Hlen Hrun|sid m' r Hrun|err].
  - eapply GetOrOpenStream_spec in Hrun as [_ Hout]; [|done|done].
    destruct (sm_streams m !! sid); [by destruct Hout as [-> _]|].
    destruct (sid <=? _); [by destruct Hout as [-> _]|].
    destruct (sid mod 2 =? _); [by destruct Hout as [-> _]|]. cbv zeta in Hout. destruct Hout as [Hup _].
    destruct r as [o|e|]; cbn in Hup; [|destruct Hup as (k & _ & Hup)|done]; by eapply opened_remote_stuck.
  - unfold SM_OpenStream in Hrun. destruct (sm_closeErr m); [by injection Hrun as <- _ _|].
    by eapply openStreamImpl_stuck.
  - unfold SM_OpenStreamSync in Hrun. destruct (sm_closeErr m); [by injection Hrun as <- _ _|].
    destruct (openStreamImpl cp m w) as [[m1 w1] r1] eqn:E. eapply openStreamImpl_stuck in E; [|done..].
    destruct r1 as [s|e|]; [|destruct (decide _)|]; by injection Hrun as <- _ _.
  - unfold SM_AcceptStream in Hrun. destruct (sm_closeErr m); [by injection Hrun as <- _|].
    destruct (sm_streams m !! sm_nextStreamToAccept m) eqn:Hs; [|by injection Hrun as <- _].
    exfalso. apply Hc. rewrite <- Hn. apply (ok_open _ Hok). eauto.
  - rewrite (os_rest _ _ Hos) in Hok' |- *. by split.
  - pose proof (RoundRobinIterate_visit fn m w Hfn Hok Hlen) as Hv.
    pose proof (visit_only_streams fn Hfn (roundOrder m) m w (ok_id _ Hok)) as Hos.
    destruct (visit (roundOrder m) (m, w) fn) as [[m1 w1] v]. rewrite Hv in Hrun.
    injection Hrun as <- _ _. cbn in Hos. rewrite (os_rest _ _ Hos) in Hok' |- *. by split.
  - destruct (sm_streams m !! sid) as [s|] eqn:Hs.
    + destruct (RemoveStream_spec m sid Hok ltac:(eauto)) as (m1 & l1 & l2 & Hr & _ & _ & Hl & Hl' & Hpe & _ & Hhi & Hacc).
      rewrite Hr in Hrun. injection Hrun as <- _. split; [done|congruence| |by rewrite Hhi|by rewrite Hpe].
      rewrite Hl in Hc. rewrite Hl'. rewrite elem_of_app, elem_of_cons in Hc. rewrite elem_of_app. tauto.
    + unfold SM_RemoveStream in Hrun. rewrite Hs in Hrun. by injection Hrun as <- _.
  - by split.
Qed.

(** When a stream of the peer is closed before the application has accepted it (the
    peer can open it and reset it at once), [AcceptStream] waits for it forever: no later
    operation makes it return that stream or any other. *)
Theorem accept_waits_forever pers m m' :
  rtc sm_step (newStreamsMap pers) m ->
  sm_streams m !! sm_nextStreamToAccept m = None ->
  0 < sm_nextStreamToAccept m <= sm_highestStreamOpenedByPeer m ->
  sm_nextStreamToAccept m mod 2 <> own_parity (sm_perspective m) ->
  rtc sm_step m m' -> sm_closeErr m' = None ->
  SM_AcceptStream m' = (m', Ok None).
Proof.
  intros Hok%sm_reach_ok Hs Hid Hpar Hsteps Hclose.
  assert (accept_stuck m (sm_nextStreamToAccept m)) as Hst.
  { split; try done. intros Hx%(ok_open _ Hok). rewrite Hs in Hx. by destruct Hx. }
  revert Hst. generalize (sm_nextStreamToAccept m). intros id Hst.
  assert (accept_stuck m' id) as [Hok' Hn Hc _ _].
  { clear Hs Hid Hpar Hclose Hok. induction Hsteps; eauto using step_stuck. }
  unfold SM_AcceptStream. rewrite Hclose, Hn.
  destruct (sm_streams m' !! id) eqn:E; [|done]. exfalso. apply Hc, (ok_open _ Hok'). eauto.
Qed.

(** Opens [n] streams of our own. *)
Fixpoint openStreams (n : nat) (cp : A) (m : streamsMap) (w : W) : streamsMap * W * res unit :=
  match n with
  | O => (m, w, Ok tt)
  | Datatypes.S n =>
      match SM_OpenStream cp m w with
      | (m, w, Ok _) => openStreams n cp m w
      | (m, w, Err e) => (m, w, Err e)
      | (m, w, Panic) => (m, w, Panic)
      end
  end.

(** A client does not respect the limit on outgoing streams that the server has
    announced: its counters are crossed, streams that it opens count as incoming, and it
    can open any number of them. *)
Theorem client_outgoing_limit_ignored cp n w :
  (forall w id, exists w' s, newStream w id = (w', Ok s)) ->
  0 < GetMaxOutgoingStreams cp -> Z.of_nat n < 2 ^ 31 - 1 ->
  exists m' w', openStreams n cp (newStreamsMap PerspectiveClient) w = (m', w', Ok tt) /\
    len (sm_openStreams m') = Z.of_nat n.
Proof.
  intros Hsucc Hmax Hn.
  assert (forall m w, sm_ok m -> sm_perspective m = PerspectiveClient -> sm_closeErr m = None ->
    sm_numOutgoingStreams m = 0 -> sm_nextStream m + 2 * Z.of_nat n < 2 ^ 32 ->
    exists m' w', openStreams n cp m w = (m', w', Ok tt) /\
      len (sm_openStreams m') = len (sm_openStreams m) + Z.of_nat n) as Hall.
  { clear w Hn. induction n as [|n IH]; intros m w Hok Hp Hc Ho Hb.
    { exists m, w. split; [done|lia]. }
    cbn [openStreams]. unfold SM_OpenStream. rewrite Hc.
    destruct (openStreamImpl cp m w) as [[m1 w1] r] eqn:Hrun. pose proof Hrun as Hspec.
    eapply openStreamImpl_spec in Hspec as [Hok1 Hout]; [|done|lia].
    assert (exists s, r = Ok s) as [s ->].
    { unfold openStreamImpl in Hrun. rewrite Ho in Hrun. case_if; [lia|].
      destruct (Hsucc w (sm_nextStream m)) as (w2 & s & Hs). rewrite Hs in Hrun. exists s. congruence. }
    destruct Hout as (_ & _ & Hos & Hnx & _ & Hp1 & Hc1 & _).
    pose proof (ok_next _ Hok) as [Hpar _]. rewrite Hp in Hpar. cbn in Hpar.
    destruct (IH m1 w1) as (m' & w' & Hrun' & Hlen); [done|congruence|congruence| |lia|].
    - rewrite (ok_outgoing _ Hok1), Hos, with_parity_snoc, <- (ok_outgoing _ Hok), Ho.
      rewrite decide_False; [done|]. rewrite Hpar. done.
    - exists m', w'. split; [done|]. rewrite Hlen, Hos, len_app, len_cons, len_nil. lia. }
  apply Hall; [apply newStreamsMap_ok|done|done|done|cbn; lia].
Qed.

End StreamsMap.

(** ** Instances for concrete runs: a stream is its ID. *)

Definition idStream (w : list Z) (id : Z) : list Z * res Z := (w, Ok id).
Definition serverParameters : connectionParametersManager :=
  NewConnectionParamatersManager PerspectiveServer 36.
Definition clientParameters : connectionParametersManager :=
  NewConnectionParamatersManager PerspectiveClient 36.

Lemma idStream_ok : newStream_ok (fun id : Z => id) idStream.
Proof. done. Qed.

Abbreviation id_step := (sm_step (fun id : Z => id) idStream) (only parsing).

Lemma run_get m id :
  0 <= id < 2 ^ 32 ->
  rtc id_step m (SM_GetOrOpenStream (fun id : Z => id) idStream serverParameters m [] id).1.1.
Proof.
  intros Hid. destruct (SM_GetOrOpenStream _ _ serverParameters m [] id) as [[m' w] r] eqn:E.
  apply rtc_once. by eapply St_GetOrOpenStream.
Qed.
Lemma run_accept m : rtc id_step m (SM_AcceptStream m).1.
Proof. destruct (SM_AcceptStream m) eqn:E. apply rtc_once. by eapply St_AcceptStream. Qed.
Lemma run_remove m id : rtc id_step m (SM_RemoveStream m id).1.
Proof. destruct (SM_RemoveStream m id) eqn:E. apply rtc_once. by eapply St_RemoveStream. Qed.
Lemma run_open m :
  sm_nextStream m + 2 < 2 ^ 32 ->
  rtc id_step m (SM_OpenStream (fun id : Z => id) idStream clientParameters m []).1.1.
Proof.
  intros Hb. destruct (SM_OpenStream _ _ clientParameters m []) as [[m' w] r] eqn:E.
  apply rtc_once. by eapply St_OpenStream.
Qed.

(** A server whose peer has opened streams 1 to 7, of which 3 is closed *)
Definition sampleServer : streamsMap :=
  (SM_RemoveStream (SM_AcceptStream (SM_GetOrOpenStream (fun id : Z => id) idStream serverParameters
     (newStreamsMap PerspectiveServer) [] 7).1.1).1 3).1.
Lemma sampleServer_reach : rtc id_step (newStreamsMap PerspectiveServer) sampleServer.
Proof.
  unfold sampleServer. etransitivity; [|apply run_remove]. etransitivity; [|apply run_accept].
  apply run_get. lia.
Qed.

(** A client that has opened stream 1 and closed it *)
Definition sampleClient : streamsMap :=
  (SM_RemoveStream (SM_OpenStream (fun id : Z => id) idStream clientParameters
     (newStreamsMap PerspectiveClient) []).1.1 1).1.
Lemma sampleClient_reach : rtc id_step (newStreamsMap PerspectiveClient) sampleClient.
Proof.
  unfold sampleClient. etransitivity; [|apply run_remove]. apply run_open. cbn. lia.
Qed.

Lemma streams_map_invariant_witness :
  sm_openStreams sampleServer = [1; 5; 7] /\
  sm_numIncomingStreams sampleServer = len (with_parity 1 (sm_openStreams sampleServer)).
Proof.
  split; [reflexivity|].
  destruct (streams_map_invariant (fun id : Z => id) idStream idStream_ok PerspectiveServer sampleServer
              sampleServer_reach) as (_ & _ & _ & _ & Hin & _). exact Hin.
Defined.

Lemma get_or_open_stream_outcome_witness :
  exists m' w' r,
    SM_GetOrOpenStream (fun id : Z => id) idStream serverParameters sampleServer [] 11 = (m', w', r) /\
    r = Ok (Some 11) /\ opened_up_to sampleServer m' 2 9 (rmap (fun _ => tt) r).
Proof.
  destruct (SM_GetOrOpenStream (fun id : Z => id) idStream serverParameters sampleServer [] 11)
    as [[m' w'] r] eqn:E. exists m', w', r. split; [reflexivity|].
  pose proof (get_or_open_stream_outcome (fun id : Z => id) idStream idStream_ok PerspectiveServer
    serverParameters sampleServer [] 11 m' w' r sampleServer_reach ltac:(lia) E) as Hout.
  split; [vm_compute in E; congruence|].
  replace (sm_streams sampleServer !! 11) with (@None Z) in Hout by (vm_compute; reflexivity).
  replace (11 <=? sm_highestStreamOpenedByPeer sampleServer) with false in Hout by (vm_compute; reflexivity).
  replace (11 mod 2 =? own_parity (sm_perspective sampleServer)) with false in Hout by (vm_compute; reflexivity).
  replace (firstUnopened sampleServer) with 9 in Hout by (vm_compute; reflexivity).
  exact (proj1 Hout).
Defined.

Definition record (st : streamsMap (S:=Z) * list Z) (s : Z)
    : (streamsMap (S:=Z) * list Z) * (bool * option goerror) := ((st.1, st.2 ++ [s]), (true, None)).

Lemma record_local : local_fn (fun id : Z => id) record.
Proof. split; [|done|done]. intros m w s Hid _. by apply only_streams_refl. Qed.

Lemma round_robin_visits_witness :
  (RoundRobinIterate (sampleServer, []) record).1.2 = [1; 5; 7].
Proof.
  pose proof (round_robin_visits (fun id : Z => id) idStream idStream_ok PerspectiveServer record
                sampleServer [] sampleServer_reach record_local) as Hv.
  destruct (visit (roundOrder sampleServer) (sampleServer, []) record) as [[m' w'] v] eqn:E.
  rewrite Hv by (vm_compute; congruence). cbn [fst snd]. vm_compute in E. congruence.
Defined.

Lemma closed_own_stream_refused_witness :
  exists msg, SM_GetOrOpenStream (fun id : Z => id) idStream clientParameters sampleClient [] 1
              = (sampleClient, [], Err (QuicError InvalidStreamID msg)).
Proof.
  apply (closed_own_stream_refused (fun id : Z => id) idStream idStream_ok PerspectiveClient
           clientParameters sampleClient [] 1 sampleClient_reach); reflexivity || (vm_compute; split; congruence).
Defined.

(** The peer opens stream 9 afterwards: it is not accepted either. *)
Lemma accept_waits_forever_witness :
  let m' := (SM_GetOrOpenStream (fun id : Z => id) idStream serverParameters sampleServer [] 9).1.1 in
  sm_streams m' !! 9 = Some 9 /\ SM_AcceptStream m' = (m', Ok None).
Proof.
  intros m'. split; [reflexivity|].
  apply (accept_waits_forever (fun id : Z => id) idStream idStream_ok PerspectiveServer sampleServer m'
           sampleServer_reach); try reflexivity; [vm_compute; split; congruence|vm_compute; congruence|].
  apply run_get. lia.
Defined.

Lemma client_outgoing_limit_ignored_witness :
  GetMaxOutgoingStreams clientParameters = 100 /\
  exists m' w', openStreams (fun id : Z => id) idStream 1000 clientParameters (newStreamsMap PerspectiveClient) []
                = (m', w', Ok tt) /\ len (sm_openStreams m') = Z.of_nat 1000.
Proof.
  split; [reflexivity|].
  apply (client_outgoing_limit_ignored (fun id : Z => id) idStream idStream_ok clientParameters 1000 []).
  - intros w id. exists w, id. reflexivity.
  - reflexivity.
  - reflexivity.
Defined.

(** The schedule is not fair: streams 1 and 3 are skipped but keep their places in
    the list.  With streams 1, 3, 5 and 7 and room for one stream in each round, stream 5
    is served three times as often as stream 7. *)
Theorem round_robin_unfair :
  let one st s := ((st.1, st.2 ++ [s]), (prioritized s, None)) in
  let round st := (RoundRobinIterate st one).1 in
  let m := (SM_GetOrOpenStream (fun id : Z => id) idStream serverParameters
              (newStreamsMap PerspectiveServer) [] 7).1.1 in
  others (Nat.iter 8 round (m, [])).2
  = [5; 5; 5; 7; 5; 5; 5; 7].
Proof. vm_compute. reflexivity. Qed.
