(* ===== verification/Stream.v ===== *)
(** * stream.go: one stream

    A stream reassembles the received frames for [Read] and holds the data of one
    [Write] until it is sent.  [Read] and [Write] run on goroutines of the application
    while the session adds frames and takes data: [Read] is a sequence of steps, one for
    each part that holds the mutex or runs without it, so that other operations come in
    between, and a step that has to wait is blocked.  The callbacks [onData] and [onReset]
    are the signals that an operation emits.  Flow control is used through its interface. *)

From S2P Require Import Prelude Protocol Frames StreamFrameSorter Handshake FlowControl.

(** ** The state *)

Record stream : Type := mkStream {
  s_streamID : Z;
  s_readPosInFrame : Z;
  s_writeOffset : Z;
  s_readOffset : Z;
  s_err : option goerror;
  s_cancelled : bool;
  s_finishedReading : bool;
  s_finishedWriting : bool;
  s_resetLocally : bool;
  s_resetRemotely : bool;
  s_frameQueue : streamFrameSorter;
  s_dataForWriting : option (list Z);
  s_finSent : bool;
  s_rstSent : bool;
}.

Definition newStream (StreamID : Z) : stream :=
  mkStream StreamID 0 0 0 None false false false false false newStreamFrameSorter None false false.

Definition s_set_read (s : stream) (pos off : Z) (finishedReading : bool) (q : streamFrameSorter) : stream :=
  mkStream (s_streamID s) pos (s_writeOffset s) off (s_err s) (s_cancelled s) finishedReading
    (s_finishedWriting s) (s_resetLocally s) (s_resetRemotely s) q (s_dataForWriting s)
    (s_finSent s) (s_rstSent s).
Definition s_set_write (s : stream) (off : Z) (data : option (list Z)) : stream :=
  mkStream (s_streamID s) (s_readPosInFrame s) off (s_readOffset s) (s_err s) (s_cancelled s)
    (s_finishedReading s) (s_finishedWriting s) (s_resetLocally s) (s_resetRemotely s)
    (s_frameQueue s) data (s_finSent s) (s_rstSent s).
Definition s_set_err (s : stream) (err : option goerror) : stream :=
  mkStream (s_streamID s) (s_readPosInFrame s) (s_writeOffset s) (s_readOffset s) err
    (s_cancelled s) (s_finishedReading s) (s_finishedWriting s) (s_resetLocally s)
    (s_resetRemotely s) (s_frameQueue s) (s_dataForWriting s) (s_finSent s) (s_rstSent s).
Definition s_set_flags (s : stream) (cancelled finishedWriting resetLocally resetRemotely : bool) : stream :=
  mkStream (s_streamID s) (s_readPosInFrame s) (s_writeOffset s) (s_readOffset s) (s_err s)
    cancelled (s_finishedReading s) finishedWriting resetLocally resetRemotely
    (s_frameQueue s) (s_dataForWriting s) (s_finSent s) (s_rstSent s).
Definition s_set_sent (s : stream) (finSent rstSent : bool) : stream :=
  mkStream (s_streamID s) (s_readPosInFrame s) (s_writeOffset s) (s_readOffset s) (s_err s)
    (s_cancelled s) (s_finishedReading s) (s_finishedWriting s) (s_resetLocally s)
    (s_resetRemotely s) (s_frameQueue s) (s_dataForWriting s) finSent rstSent.

(** The callbacks of the session *)
Inductive signal : Type :=
| OnData
| OnReset (streamID offset : Z).

(** ** Sending *)

(** [Write] up to its wait: the number of bytes and the error it returns, or [None] when it
    goes on to wait *)
Definition stream_Write (s : stream) (p : list Z)
    : stream * list signal * option (Z * option goerror) :=
  if s_resetLocally s then (s, [], Some (0, s_err s))
  else
    match s_err s with
    | Some e => (s, [], Some (0, Some e))
    | None =>
        if len p =? 0 then (s, [], Some (0, None))
        else (s_set_write s (s_writeOffset s) (Some p), [OnData], None)
    end.

(** The end of [Write]: [None] as long as it waits *)
Definition Write_return (s : stream) (p : list Z) : option (Z * option goerror) :=
  match s_err s with
  | Some e => Some (0, Some e)
  | None =>
      match s_dataForWriting s with
      | Some _ => None
      | None => Some (len p, None)
      end
  end.

Definition lenOfDataForWriting (s : stream) : Z :=
  match s_err s with
  | None => match s_dataForWriting s with Some d => len d | None => 0 end
  | Some _ => 0
  end.

Definition getDataForWriting (s : stream) (maxBytes : Z) : stream * option (list Z) :=
  match s_err s with
  | Some _ => (s, None)
  | None =>
      match s_dataForWriting s with
      | None => (s, None)
      | Some d =>
          let '(ret, rest) :=
            if len d >? maxBytes
            then (take (Z.to_nat maxBytes) d, Some (drop (Z.to_nat maxBytes) d))
            else (d, None) in
          (s_set_write s (u64 (s_writeOffset s + len ret)) rest, Some ret)
      end
  end.

Definition stream_Close (s : stream) : stream * list signal :=
  (s_set_flags s (s_cancelled s) true (s_resetLocally s) (s_resetRemotely s), [OnData]).

Definition finishedWriteAndSentFin (s : stream) : bool := s_finishedWriting s && s_finSent s.

Definition shouldSendReset (s : stream) : bool :=
  if s_rstSent s then false
  else (s_resetLocally s || s_resetRemotely s) && negb (finishedWriteAndSentFin s).

Definition shouldSendFin (s : stream) : bool :=
  s_finishedWriting s && negb (s_finSent s) && bool_decide (s_err s = None)
  && bool_decide (s_dataForWriting s = None).

Definition sentFin (s : stream) : stream := s_set_sent s true (s_rstSent s).

(** ** Errors *)

Definition setErr (s : stream) (err : option goerror) : stream :=
  match s_err s with
  | None => s_set_err s err
  | Some _ => s
  end.

(** The RST_STREAM that [Reset] and [RegisterRemoteError] send *)
Definition maybeSendReset (s : stream) : stream * list signal :=
  if shouldSendReset s
  then (s_set_sent s (s_finSent s) true, [OnReset (s_streamID s) (s_writeOffset s)])
  else (s, []).

Definition Cancel (s : stream) (err : option goerror) : stream :=
  setErr (s_set_flags s true (s_finishedWriting s) (s_resetLocally s) (s_resetRemotely s)) err.

Definition stream_Reset (s : stream) (err : option goerror) : stream * list signal :=
  if s_resetLocally s then (s, [])
  else
    maybeSendReset
      (setErr (s_set_flags s (s_cancelled s) (s_finishedWriting s) true (s_resetRemotely s)) err).

Definition RegisterRemoteError (s : stream) (err : option goerror) : stream * list signal :=
  if s_resetRemotely s then (s, [])
  else
    maybeSendReset
      (setErr (s_set_flags s (s_cancelled s) (s_finishedWriting s) (s_resetLocally s) true) err).

Definition finished (s : stream) : bool :=
  s_cancelled s
  || (s_finishedReading s && finishedWriteAndSentFin s)
  || (s_resetRemotely s && s_rstSent s)
  || (s_finishedReading s && s_rstSent s)
  || (finishedWriteAndSentFin s && s_resetRemotely s).

(** ** Receiving *)

Section flow.
Context {F : Type} `{FlowControlManager F}.

Definition AddStreamFrame (s : stream) (fc : F) (frame : StreamFrame) : stream * F * res unit :=
  let maxOffset := u64 (sf_Offset frame + StreamFrame_DataLen frame) in
  match FlowUpdateHighestReceived fc (s_streamID s) maxOffset with
  | (fc, Ok _) =>
      let '(q, r) := Push (s_frameQueue s) frame in
      let s := s_set_read s (s_readPosInFrame s) (s_readOffset s) (s_finishedReading s) q in
      match r with
      | Err e => if decide (e = errDuplicateStreamData) then (s, fc, Ok tt) else (s, fc, Err e)
      | r => (s, fc, r)
      end
  | (fc, r) => (s, fc, r)
  end.

Definition CloseRemote (s : stream) (fc : F) (offset : Z) : stream * F :=
  (AddStreamFrame s fc (mkStreamFrame 0 true false offset [])).1.

(** Where a [Read] into a buffer of [want] bytes is, with the bytes [got] so far: before the
    head of the queue is looked up, before [frame] is copied, before [frame] is popped. *)
Inductive reader : Type :=
| ReadHead (want : Z) (got : list Z)
| ReadCopy (want : Z) (got : list Z) (frame : StreamFrame)
| ReadPop (want : Z) (got : list Z) (frame : StreamFrame)
| ReadReturn (got : list Z) (err : option goerror)
| ReadPanic.

(** The condition of the loop *)
Definition readLoop (want : Z) (got : list Z) : reader :=
  if len got <? want then ReadHead want got else ReadReturn got None.

Definition stream_Read (s : stream) (want : Z) : reader :=
  if s_cancelled s || s_resetLocally s then ReadReturn [] (s_err s)
  else if s_finishedReading s then ReadReturn [] (Some EOF)
  else readLoop want [].

(** The part of an iteration that looks up the head of the queue and waits for it; [None]
    when it has to wait.  It only waits before the first byte, and then starts again. *)
Definition readHead (s : stream) (want : Z) (got : list Z) : option (stream * reader) :=
  let frame := Head (s_frameQueue s) in
  if bool_decide (frame = None) && (len got >? 0) then Some (s, ReadReturn got (s_err s))
  else if s_resetLocally s || s_cancelled s then
    match s_err s, frame with
    | Some e, _ => Some (s, ReadReturn got (Some e))
    | None, Some f => Some (s, ReadCopy want got f)
    | None, None => Some (s, ReadPanic)
    end
  else
    match frame with
    | Some f =>
        Some (s_set_read s (i64 (s_readOffset s - sf_Offset f)) (s_readOffset s)
                (s_finishedReading s) (s_frameQueue s), ReadCopy want got f)
    | None => None
    end.

(** The part that copies data into the buffer *)
Definition readCopy (now : Z) (s : stream) (fc : F) (want : Z) (got : list Z) (f : StreamFrame)
    : stream * F * list signal * reader :=
  let pos := s_readPosInFrame s in
  let bytesRead := len got in
  let m := Min (want - bytesRead) (StreamFrame_DataLen f - pos) in
  if bytesRead >? want then
    (s, fc, [], ReadReturn got (Some (Errorf "BUG: bytesRead (%d) > len(p) (%d) in stream.Read"
                                        [bytesRead; want])))
  else if pos >? StreamFrame_DataLen f then
    (s, fc, [], ReadReturn got (Some (Errorf "BUG: readPosInFrame (%d) > frame.DataLen (%d) in stream.Read"
                                        [pos; StreamFrame_DataLen f])))
  else
    match sliceFrom (sf_Data f) pos with
    | Ok d =>
        let got := got ++ take (Z.to_nat m) d in
        let s := s_set_read s (pos + m) (u64 (s_readOffset s + m)) (s_finishedReading s) (s_frameQueue s) in
        let fc := if s_resetRemotely s then fc else (FlowAddBytesRead fc now (s_streamID s) m).1 in
        (s, fc, [OnData],
         if s_readPosInFrame s >=? StreamFrame_DataLen f then ReadPop want got f else readLoop want got)
    | _ => (s, fc, [], ReadPanic)
    end.

(** The part that pops a frame that has been read to its end *)
Definition readPop (s : stream) (want : Z) (got : list Z) (f : StreamFrame) : stream * reader :=
  let q := (Pop (s_frameQueue s)).1 in
  let finishedReading := if sf_FinBit f then true else s_finishedReading s in
  (s_set_read s (s_readPosInFrame s) (s_readOffset s) finishedReading q,
   if sf_FinBit f then ReadReturn got (Some EOF) else readLoop want got).

(** One step of a [Read]; [None] when it waits or has returned. *)
Definition read_step (now : Z) (s : stream) (fc : F) (r : reader)
    : option (stream * F * list signal * reader) :=
  match r with
  | ReadHead want got =>
      match readHead s want got with
      | Some (s, r) => Some (s, fc, [], r)
      | None => None
      end
  | ReadCopy want got f => Some (readCopy now s fc want got f)
  | ReadPop want got f => let '(s, r) := readPop s want got f in Some (s, fc, [], r)
  | ReadReturn _ _ | ReadPanic => None
  end.

(** [Read] without interference, up to its return or to where it waits *)
Fixpoint run_read (fuel : nat) (now : Z) (s : stream) (fc : F) (r : reader) : stream * F * reader :=
  match fuel with
  | O => (s, fc, r)
  | S fuel =>
      match read_step now s fc r with
      | Some (s, fc, _, r) => run_read fuel now s fc r
      | None => (s, fc, r)
      end
  end.

End flow.

(** ** Reading

    [read_reach P s fc r out A]: a stream with contents [content] of [finalSize] bytes, of
    which the bytes [A] have arrived, in frames that satisfy [P] when they are added; the
    reader is at [r] (or idle), and [out] is what earlier calls of [Read] have returned.
    The other operations, and changes of flow control by other streams, come in between
    the steps of a [Read] in any order. *)

Section reading.
Context {F : Type} `{FlowControlManager F} (content : Z -> Z) (finalSize : Z).
(** Offsets within the stream fit into an [int]. *)
Hypothesis Hint : finalSize < 2 ^ 63.
Lemma HfinalSize : finalSize < MaxByteCount.
Proof. unfold MaxByteCount. lia. Qed.

(** The operations on the sending side and the errors *)
Inductive other_op (s : stream) : stream -> Prop :=
| Op_Write p : other_op s (stream_Write s p).1.1
| Op_getDataForWriting n : other_op s (getDataForWriting s n).1
| Op_Close : other_op s (stream_Close s).1
| Op_sentFin : other_op s (sentFin s)
| Op_Cancel e : other_op s (Cancel s (Some e))
| Op_Reset e : other_op s (stream_Reset s (Some e)).1
| Op_RegisterRemoteError e : other_op s (RegisterRemoteError s (Some e)).1.

Inductive read_reach (P : streamFrameSorter -> StreamFrame -> Prop)
    : stream -> F -> option reader -> list Z -> (Z -> Prop) -> Prop :=
| rr_new id fc : read_reach P (newStream id) fc None [] (fun _ => False)
| rr_frame s fc r out A f s' fc' :
    read_reach P s fc r out A ->
    frame_ok content finalSize f -> (StreamFrame_DataLen f = 0 -> sf_FinBit f = true) ->
    P (s_frameQueue s) f -> AddStreamFrame s fc f = (s', fc', Ok tt) ->
    read_reach P s' fc' r out (fun x => A x \/ sf_Offset f <= x < sf_Offset f + StreamFrame_DataLen f)
| rr_other s fc r out A s' :
    read_reach P s fc r out A -> other_op s s' -> read_reach P s' fc r out A
| rr_flow s fc r out A fc' : read_reach P s fc r out A -> read_reach P s fc' r out A
| rr_start s fc out A want :
    read_reach P s fc None out A -> 0 <= want ->
    read_reach P s fc (Some (stream_Read s want)) out A
| rr_step now s fc r out A s' fc' sig r' :
    read_reach P s fc (Some r) out A -> read_step now s fc r = Some (s', fc', sig, r') ->
    read_reach P s' fc' (Some r') out A
| rr_return s fc got e out A :
    read_reach P s fc (Some (ReadReturn got e)) out A -> read_reach P s fc None (out ++ got) A.

(** No frame with a FIN is added after its last byte has arrived. *)
Definition fins_uncut (P : streamFrameSorter -> StreamFrame -> Prop) : Prop :=
  forall q f, P q f -> sf_FinBit f = true ->
    sf_Offset f + StreamFrame_DataLen f = finalSize /\
    (StreamFrame_DataLen f = 0 \/ missing (gaps q) (finalSize - 1)).

Definition got_of (r : option reader) : list Z :=
  match r with
  | Some (ReadHead _ got) | Some (ReadCopy _ got _) | Some (ReadPop _ got _)
  | Some (ReadReturn got _) => got
  | _ => []
  end.

(** [f] is the frame at the head of the queue, or both carry no data. *)
Definition at_head (s : stream) (f : StreamFrame) : Prop :=
  sf_Offset f = readPosition (s_frameQueue s) /\ frame_ok content finalSize f /\
  (StreamFrame_DataLen f = 0 -> sf_FinBit f = true) /\
  exists h, Head (s_frameQueue s) = Some h /\ StreamFrame_DataLen h = StreamFrame_DataLen f /\
    (0 < StreamFrame_DataLen h -> h = f).

(** The read offset is at the start of the head frame or inside it. *)
Definition offset_ok (s : stream) : Prop :=
  s_readOffset s = readPosition (s_frameQueue s) \/
  exists h, Head (s_frameQueue s) = Some h /\
    readPosition (s_frameQueue s) < s_readOffset s < readPosition (s_frameQueue s) + StreamFrame_DataLen h.

Definition reader_ok (s : stream) (r : option reader) : Prop :=
  match r with
  | None => offset_ok s
  | Some (ReadHead want got) => offset_ok s /\ len got < want
  | Some (ReadCopy want got f) =>
      offset_ok s /\ len got < want /\ at_head s f /\
      s_readPosInFrame s = s_readOffset s - readPosition (s_frameQueue s) /\
      (0 < StreamFrame_DataLen f -> s_readPosInFrame s < StreamFrame_DataLen f) /\
      s_readPosInFrame s <= StreamFrame_DataLen f
  | Some (ReadPop want got f) =>
      at_head s f /\ len got <= want /\
      s_readOffset s = readPosition (s_frameQueue s) + StreamFrame_DataLen f
  | Some (ReadReturn got e) => offset_ok s /\ forall x, e = Some x -> x = EOF \/ s_err s = Some x
  | Some ReadPanic => False
  end.

Record read_ok (s : stream) (r : option reader) (out : list Z) (A : Z -> Prop) : Prop := {
  ro_sorter : sorter_ok content finalSize (s_frameQueue s);
  ro_data : data_at content 0 (out ++ got_of r);
  ro_len : len (out ++ got_of r) = s_readOffset s;
  ro_missing : forall x, missing (gaps (s_frameQueue s)) x <-> 0 <= x < MaxByteCount /\ ~ A x;
  ro_err : s_cancelled s || s_resetLocally s = true -> s_err s <> None;
  ro_reader : reader_ok s r;
}.

(** What the other operations leave unchanged *)
Record same_read (s s' : stream) : Prop := {
  sr_pos : s_readPosInFrame s' = s_readPosInFrame s;
  sr_off : s_readOffset s' = s_readOffset s;
  sr_fin : s_finishedReading s' = s_finishedReading s;
  sr_queue : s_frameQueue s' = s_frameQueue s;
  sr_err : forall e, s_err s = Some e -> s_err s' = Some e;
  sr_flags : (s_cancelled s || s_resetLocally s = true -> s_err s <> None) ->
             s_cancelled s' || s_resetLocally s' = true -> s_err s' <> None;
}.

Lemma other_op_same s s' : other_op s s' -> same_read s s'.
Proof.
  destruct s as [id pos wo ro err c fr fw rl rr q d fs rs].
  destruct 1; unfold stream_Write, getDataForWriting, stream_Close, sentFin, Cancel, stream_Reset,
    RegisterRemoteError, maybeSendReset, shouldSendReset, setErr; simpl;
    repeat (case_match; simpl in *; simplify_eq); constructor; simpl in *; intros; try congruence;
    simplify_eq; eauto.
Qed.

Lemma reader_ok_same s s' r : same_read s s' -> reader_ok s r -> reader_ok s' r.
Proof.
  intros [H1 H2 H3 H4 H5 H6]. unfold reader_ok, offset_ok, at_head. rewrite H1, H2, H4.
  destruct r as [[]|]; try done. intros [? He]. split; [done|]. intros x Hx.
  destruct (He x Hx); eauto.
Qed.

Lemma read_ok_same s s' r out A : same_read s s' -> read_ok s r out A -> read_ok s' r out A.
Proof.
  intros Hsame [H1 H2 H3 H4 H5 H6]. pose proof Hsame as [E1 E2 E3 E4 E5 E6].
  constructor; rewrite ?E2, ?E4; auto. by eapply reader_ok_same.
Qed.

(** Adding a frame *)
Lemma AddStreamFrame_inv s fc f s' fc' :
  AddStreamFrame s fc f = (s', fc', Ok tt) ->
  exists q r, Push (s_frameQueue s) f = (q, r) /\ (r = Ok tt \/ r = Err errDuplicateStreamData) /\
    s' = s_set_read s (s_readPosInFrame s) (s_readOffset s) (s_finishedReading s) q.
Proof.
  unfold AddStreamFrame. destruct (FlowUpdateHighestReceived _ _ _) as [fc1 [[]|e|]]; try done.
  destruct (Push (s_frameQueue s) f) as [q [[]|e|]]; intros Hadd; exists q; eexists; (split; [reflexivity|]).
  - split; [by left|congruence].
  - case_match; [|done]. split; [right; congruence|congruence].
  - done.
Qed.

(** The head of the queue before and after a push *)
Lemma push_heads q f q' r :
  sorter_ok content finalSize q -> frame_ok content finalSize f ->
  (StreamFrame_DataLen f = 0 -> sf_FinBit f = true) -> Push q f = (q', r) ->
  r = Ok tt \/ r = Err errDuplicateStreamData ->
  sorter_ok content finalSize q' /\ readPosition q' = readPosition q /\
  (forall x, missing (gaps q') x <->
     missing (gaps q) x /\ ~ (sf_Offset f <= x < sf_Offset f + StreamFrame_DataLen f)) /\
  push_queue q q' f.
Proof.
  intros Hq Hf Hfin Hpush Hr. pose proof (Push_ok _ _ HfinalSize q f Hq Hf Hfin) as Hpost.
  rewrite Hpush in Hpost. unfold push_post in Hpost. cbn [fst snd] in Hpost. destruct Hr as [-> | ->].
  - done.
  - destruct Hpost as [(_ & -> & Hcov)|[=]]. split_and!; [done|done| |].
    + intros x. specialize (Hcov x). intuition.
    + constructor; [done|done|]. intros k f' Hk. by left.
Qed.

Lemma at_head_push s f g q' pos off fin :
  push_queue (s_frameQueue s) q' g -> readPosition q' = readPosition (s_frameQueue s) ->
  sorter_ok content finalSize q' -> at_head s f -> at_head (s_set_read s pos off fin q') f.
Proof.
  intros [Hsome Hhead _] Hrp Hq' (H1 & H2 & H3 & h & Hh & Hl & He). unfold at_head; simpl.
  rewrite Hrp. split_and!; [done|done|done|].
  destruct (Z.lt_ge_cases 0 (StreamFrame_DataLen h)) as [Hlt|Hge].
  - exists h. auto.
  - destruct Hsome as [h' Hh']; [by eexists|]. exists h'.
    destruct (so_queue _ _ _ Hq' _ _ Hh') as (Ho & Hok & _). pose proof (fo_end _ _ _ Hok).
    pose proof (len_nonneg (sf_Data h')). pose proof (len_nonneg (sf_Data h)).
    pose proof (fo_fin _ _ _ H2). unfold StreamFrame_DataLen in *. split_and!; [done|lia|lia].
Qed.

Lemma offset_ok_push s g q' :
  push_queue (s_frameQueue s) q' g -> readPosition q' = readPosition (s_frameQueue s) ->
  offset_ok s -> offset_ok (s_set_read s (s_readPosInFrame s) (s_readOffset s) (s_finishedReading s) q').
Proof.
  intros [_ Hhead _] Hrp [E|(h & Hh & Hb)]; unfold offset_ok; simpl; rewrite Hrp; [by left|].
  right. exists h. split; [apply Hhead; [done|lia]|done].
Qed.

Lemma read_ok_frame s fc r out A f s' fc' :
  read_ok s r out A -> frame_ok content finalSize f ->
  (StreamFrame_DataLen f = 0 -> sf_FinBit f = true) -> AddStreamFrame s fc f = (s', fc', Ok tt) ->
  read_ok s' r out (fun x => A x \/ sf_Offset f <= x < sf_Offset f + StreamFrame_DataLen f).
Proof.
  intros [H1 H2 H3 H4 H5 H6] Hf Hfin (q & r0 & Hpush & Hr & ->)%AddStreamFrame_inv.
  destruct (push_heads _ _ _ _ H1 Hf Hfin Hpush Hr) as (Hq & Hrp & Hm & Hpq).
  constructor; simpl; auto.
  - intros x. rewrite Hm, H4. intuition.
  - unfold reader_ok in *. simpl. rewrite Hrp.
    destruct r as [[]|]; intuition eauto using at_head_push, offset_ok_push.
Qed.

(** ** The steps of the reader *)

Lemma readLoop_ok s want got :
  offset_ok s -> len got <= want -> reader_ok s (Some (readLoop want got)).
Proof.
  intros Ho Hl. unfold readLoop. case_if; simpl; [done|]. split; [done|]. intros x [=].
Qed.
Lemma readLoop_got want got : got_of (Some (readLoop want got)) = got.
Proof. unfold readLoop. by case_if. Qed.

Lemma readHead_ok s want got out A s' r' :
  read_ok s (Some (ReadHead want got)) out A -> readHead s want got = Some (s', r') ->
  read_ok s' (Some r') out A.
Proof.
  intros [H1 H2 H3 H4 H5 [Ho Hl]]. unfold readHead.
  destruct (bool_decide _ && _) eqn:E1.
  { intros [= <- <-]. constructor; auto. split; [done|]. auto. }
  destruct (s_resetLocally s || s_cancelled s) eqn:E2.
  { destruct (s_err s) as [e|] eqn:Ee.
    { intros [= <- <-]. constructor; auto; [congruence|]. split; [done|]. rewrite Ee. auto. }
    exfalso. apply H5; [by rewrite orb_comm|done]. }
  destruct (Head (s_frameQueue s)) as [f|] eqn:Hh; [|done]. intros [= <- <-].
  destruct (so_queue _ _ _ H1 _ _ Hh) as (Eo & Hf & _). pose proof (so_pos _ _ _ H1).
  pose proof (fo_end _ _ _ Hf). pose proof (len_nonneg (sf_Data f)) as Hn.
  change (len (sf_Data f)) with (StreamFrame_DataLen f) in Hn.
  assert (0 <= s_readOffset s - sf_Offset f <= StreamFrame_DataLen f /\
    (0 < StreamFrame_DataLen f -> s_readOffset s - sf_Offset f < StreamFrame_DataLen f)) as [Hb1 Hb2].
  { destruct Ho as [E|(h & Hh' & Hb)]; [lia|]. rewrite Hh in Hh'. injection Hh' as <-. lia. }
  assert (i64 (s_readOffset s - sf_Offset f) = s_readOffset s - readPosition (s_frameQueue s)) as Ei.
  { rewrite Eo in *. apply i64_small. lia. }
  constructor; simpl; auto. rewrite Ei, <- Eo. split_and!; auto; [|lia].
  unfold at_head; simpl. split_and!; [done|done|by eapply so_fin|]. exists f. auto.
Qed.

Lemma readCopy_ok now s fc want got f out A :
  read_ok s (Some (ReadCopy want got f)) out A ->
  exists s' fc' got' r', readCopy now s fc want got f = (s', fc', [OnData], r') /\
    read_ok s' (Some r') out A /\ len got' <= want /\
    ((r' = ReadPop want got' f /\ (len got < len got' \/ sf_FinBit f = true)) \/
     (r' = readLoop want got' /\ len got < len got')).
Proof.
  intros [H1 H2 H3 H4 H5 (Ho & Hl & Hat & Hpos & Hlt & Hle)].
  pose proof Hat as (Eo & Hf & Hfin & h & Hh & Hhl & Hhe).
  pose proof (so_pos _ _ _ H1). pose proof (fo_end _ _ _ Hf) as Hend.
  assert (0 <= s_readPosInFrame s) as Hpos0.
  { rewrite Hpos. destruct Ho as [E|(h' & _ & Hb)]; lia. }
  unfold readCopy. rewrite Min_min, !Z.gtb_ltb, !(proj2 (Z.ltb_ge _ _)) by lia.
  set (m := Z.min _ _). assert (0 <= m <= StreamFrame_DataLen f - s_readPosInFrame s /\ m <= want - len got) as Hm by lia.
  unfold sliceFrom. change (len (sf_Data f)) with (StreamFrame_DataLen f).
  rewrite !(proj2 (Z.leb_le _ _)) by lia. cbn [andb].
  set (d := drop (Z.to_nat (s_readPosInFrame s)) (sf_Data f)).
  assert (len (take (Z.to_nat m) d) = m) as Hlm.
  { subst d. unfold StreamFrame_DataLen in *. rewrite len_take; rewrite ?len_drop; lia. }
  assert (u64 (s_readOffset s + m) = s_readOffset s + m) as Eu.
  { apply u64_small. unfold_width. lia. }
  assert (data_at content 0 (out ++ got ++ take (Z.to_nat m) d)) as Hdata.
  { rewrite app_assoc. apply data_at_app; [done|]. cbn [got_of] in H3. rewrite H3, Z.add_0_l.
    apply data_at_take. replace (s_readOffset s) with (sf_Offset f + s_readPosInFrame s) by lia.
    apply data_at_drop; [lia|apply Hf]. }
  assert (len (out ++ got ++ take (Z.to_nat m) d) = s_readOffset s + m) as Hlen.
  { rewrite app_assoc, len_app, Hlm. cbn [got_of] in H3. lia. }
  eexists _, _, (got ++ take (Z.to_nat m) d), _. split; [reflexivity|]. cbn [s_readPosInFrame s_set_read].
  rewrite Eu. split_and!; [|rewrite len_app; lia|].
  - case_if.
    + constructor; simpl; auto. split_and!; [|rewrite len_app; lia|lia].
      unfold at_head; simpl. eauto 10.
    + constructor; rewrite ?readLoop_got; [done..|].
      apply readLoop_ok; [|rewrite len_app; lia]. unfold offset_ok; simpl.
      destruct (decide (s_readPosInFrame s + m = 0)); [left; lia|]. right. exists h. split; [done|]. lia.
  - rewrite len_app, Hlm. destruct (Z.eq_dec (StreamFrame_DataLen f) 0) as [E0|E0].
    + left. rewrite Z.geb_leb, (proj2 (Z.leb_le _ _)) by lia. auto.
    + case_if; [left|right]; (split; [done|]); lia.
Qed.

Lemma readPop_ok s want got f out A :
  read_ok s (Some (ReadPop want got f)) out A ->
  read_ok (readPop s want got f).1 (Some (readPop s want got f).2) out A.
Proof.
  intros [H1 H2 H3 H4 H5 (Hat & Hl & Eoff)].
  pose proof Hat as (Eo & Hf & Hfin & h & Hh & Hhl & Hhe).
  unfold readPop. destruct (Pop (s_frameQueue s)) as [q' o] eqn:Epop. cbn [fst snd].
  assert (o = Some h) as -> by (unfold Pop in Epop; rewrite Hh in Epop; congruence).
  destruct (Pop_ok _ _ HfinalSize _ _ _ H1 Epop) as (Hq & Hg & _ & _ & Hrp).
  set (s' := s_set_read _ _ _ _ _).
  assert (offset_ok s') as Hoff by (left; simpl; lia).
  set (r' := if sf_FinBit f then _ else _).
  assert (got_of (Some r') = got) as Eg by (subst r'; case_match; [done|apply readLoop_got]).
  constructor; rewrite ?Eg; [done|done|done| |done|].
  - intros x. simpl. by rewrite Hg.
  - subst r'. case_match; [|by apply readLoop_ok]. split; [done|]. intros x [= <-]. by left.
Qed.

(** Every step makes progress. *)
Definition read_measure (r : reader) : Z :=
  match r with
  | ReadHead want got => 3 * (want - len got) + 2
  | ReadCopy want got _ => 3 * (want - len got) + 1
  | ReadPop want got f => if sf_FinBit f then 1 else 3 * (want - len got) + 3
  | ReadReturn _ _ | ReadPanic => 0
  end.

Lemma readLoop_measure want got :
  len got <= want -> 0 <= read_measure (readLoop want got) <= 3 * (want - len got) + 2.
Proof. intros. unfold readLoop. case_if; simpl; lia. Qed.

Lemma read_step_ok now s fc r out A s' fc' sig r' :
  read_ok s (Some r) out A -> read_step now s fc r = Some (s', fc', sig, r') ->
  read_ok s' (Some r') out A /\ 0 <= read_measure r' < read_measure r.
Proof.
  intros Hok. destruct r as [want got|want got f|want got f|got e|]; cbn [read_step]; try done.
  - destruct (readHead s want got) as [[s1 r1]|] eqn:E; [|done]. intros [= <- <- <- <-].
    split; [by eapply readHead_ok|]. destruct (ro_reader _ _ _ _ Hok) as [_ Hl].
    unfold readHead in E. cbn [read_measure].
    repeat case_match; simplify_eq; cbn [read_measure]; lia.
  - destruct (readCopy_ok now s fc want got f out A Hok) as (s1 & fc1 & got1 & r1 & -> & Hok1 & Hl1 & Hp).
    intros [= <- <- <- <-]. split; [done|]. destruct (ro_reader _ _ _ _ Hok) as (_ & Hl & _).
    cbn [read_measure]. destruct Hp as [[-> Hp]|[-> Hp]].
    + cbn [read_measure]. destruct (sf_FinBit f); [lia|]. destruct Hp as [Hp|[=]]. lia.
    + pose proof (readLoop_measure want got1 Hl1). lia.
  - destruct (readPop s want got f) as [s1 r1] eqn:E. intros [= <- <- <- <-].
    pose proof (readPop_ok s want got f out A Hok) as Hok1. rewrite E in Hok1. split; [done|].
    destruct (ro_reader _ _ _ _ Hok) as (_ & Hl & _). unfold readPop in E. injection E as <- <-.
    cbn [read_measure]. destruct (sf_FinBit f); [cbn; lia|].
    pose proof (readLoop_measure want got Hl). lia.
Qed.

Lemma stream_Read_ok s out A want :
  read_ok s None out A -> 0 <= want -> read_ok s (Some (stream_Read s want)) out A.
Proof.
  intros [H1 H2 H3 H4 H5 H6] Hw. rewrite app_nil_r in *.
  assert (got_of (Some (stream_Read s want)) = []) as Eg.
  { unfold stream_Read. repeat case_match; try done. apply readLoop_got. }
  constructor; rewrite ?Eg, ?app_nil_r; auto. unfold stream_Read. repeat case_match.
  - split; [done|]. auto.
  - split; [done|]. intros x [= <-]. by left.
  - by apply readLoop_ok.
Qed.

Lemma read_reach_ok P s fc r out A : read_reach P s fc r out A -> read_ok s r out A.
Proof.
  induction 1 as [id fc| | | | |now s fc r out A s' fc' sig r' _ IH Hstep|s fc got e out A _ IH].
  - pose proof (newStreamFrameSorter_ok content finalSize). constructor; simpl; try done.
    + intros x. unfold missing. rewrite Exists_cons, Exists_nil. unfold bi_mem. simpl. intuition.
    + by left.
  - by eapply read_ok_frame.
  - eapply read_ok_same; [by apply other_op_same|done].
  - done.
  - by apply stream_Read_ok.
  - by eapply read_step_ok.
  - destruct IH as [H1 H2 H3 H4 H5 [H6 _]]. simpl in *. by constructor; simpl; rewrite ?app_nil_r.
Qed.

(** ** The end of the stream *)

Definition fin_at_end (f : StreamFrame) : Prop :=
  sf_FinBit f = true -> sf_Offset f + StreamFrame_DataLen f = finalSize.

Record fins_ok (s : stream) (r : option reader) : Prop := {
  fk_queue : forall k f, queuedFrames (s_frameQueue s) !! k = Some f -> fin_at_end f;
  fk_finished : s_finishedReading s = true -> s_readOffset s = finalSize;
  fk_reader :
    match r with
    | Some (ReadHead _ _) => s_finishedReading s = false
    | Some (ReadCopy _ _ f) | Some (ReadPop _ _ f) => s_finishedReading s = false /\ fin_at_end f
    | Some (ReadReturn _ (Some EOF)) => s_err s = Some EOF \/ s_readOffset s = finalSize
    | _ => True
    end;
}.

Lemma fins_push P s fc r out A f s' fc' :
  fins_uncut P -> P (s_frameQueue s) f -> read_ok s r out A -> fins_ok s r ->
  frame_ok content finalSize f -> (StreamFrame_DataLen f = 0 -> sf_FinBit f = true) ->
  AddStreamFrame s fc f = (s', fc', Ok tt) -> fins_ok s' r.
Proof.
  intros HP Hf Hok [H1 H2 H3] Hfok Hfin (q & r0 & Hpush & Hr & ->)%AddStreamFrame_inv.
  destruct (push_heads _ _ _ _ (ro_sorter _ _ _ _ Hok) Hfok Hfin Hpush Hr) as (Hq & _ & _ & [_ _ Hnew]).
  constructor; simpl; auto. intros k g Hg Hgf.
  destruct (Hnew k g Hg) as [Hold|[Efin Hend]]; [by eapply H1|].
  destruct (so_queue _ _ _ Hq _ _ Hg) as [-> _]. rewrite Efin in Hgf.
  destruct (HP _ _ Hf Hgf) as [Ef Hmiss]. rewrite Ef in Hend.
  destruct Hend as [->|[Hpos Hend]]; [done|]. destruct Hmiss; [lia|done].
Qed.

Lemma fins_same s s' r : same_read s s' -> fins_ok s r -> fins_ok s' r.
Proof.
  intros [E1 E2 E3 E4 E5 E6] [H1 H2 H3]. constructor; rewrite ?E2, ?E3, ?E4; auto.
  destruct r as [[]|]; try done. destruct err as [[]|]; try done. destruct H3; eauto.
Qed.

Lemma fins_readLoop s want got :
  (forall k f, queuedFrames (s_frameQueue s) !! k = Some f -> fin_at_end f) ->
  s_finishedReading s = false -> fins_ok s (Some (readLoop want got)).
Proof. intros Hq Hf. constructor; [done|congruence|]. unfold readLoop. by case_if. Qed.

Lemma fins_step now s fc r out A s' fc' sig r' :
  read_ok s (Some r) out A -> fins_ok s (Some r) ->
  read_step now s fc r = Some (s', fc', sig, r') -> fins_ok s' (Some r').
Proof.
  intros Hok [H1 H2 H3]. pose proof (ro_reader _ _ _ _ Hok) as Hr.
  destruct r as [want got|want got f|want got f|got e|]; cbn [read_step]; try done.
  - destruct (readHead s want got) as [[s1 r1]|] eqn:E; [|done]. intros [= <- <- <- <-].
    unfold readHead in E. destruct (bool_decide _ && _).
    { injection E as <- <-. constructor; auto. destruct (s_err s) as [[]|]; auto. }
    destruct (s_resetLocally s || s_cancelled s) eqn:Efl.
    { destruct (s_err s) as [e|] eqn:Ee.
      - injection E as <- <-. constructor; auto. destruct e; auto.
      - destruct (ro_err _ _ _ _ Hok); [by rewrite orb_comm|done]. }
    destruct (Head (s_frameQueue s)) as [f|] eqn:Hh; [|done]. injection E as <- <-.
    constructor; simpl; auto. split; [done|]. by eapply H1.
  - destruct H3 as [Hfr Hfe].
    destruct (readCopy_ok now s fc want got f out A Hok) as (s1 & fc1 & got1 & r1 & E & _ & _ & Hp).
    rewrite E. intros [= <- <- <- <-].
    assert (s_frameQueue s1 = s_frameQueue s /\ s_finishedReading s1 = s_finishedReading s) as [Eq Ef].
    { unfold readCopy in E. repeat case_match; by simplify_eq. }
    destruct Hp as [[-> _]|[-> _]].
    + constructor; rewrite ?Eq, ?Ef; [done|congruence|done].
    + apply fins_readLoop; rewrite ?Eq, ?Ef; done.
  - destruct H3 as [Hfr Hfe]. destruct (readPop s want got f) as [s1 r1] eqn:E.
    intros [= <- <- <- <-]. destruct Hr as ((Eo & _) & _ & Hoff).
    unfold readPop in E. injection E as <- <-.
    assert (forall k g, queuedFrames (Pop (s_frameQueue s)).1 !! k = Some g -> fin_at_end g) as Hq.
    { intros k g. unfold Pop. destruct (Head _); [|apply H1]. cbn. intros [_ Hk]%lookup_delete_Some. by eapply H1. }
    destruct (sf_FinBit f) eqn:Efin; [|by apply fins_readLoop].
    specialize (Hfe Efin). constructor; simpl; [done|lia|right; lia].
Qed.

Lemma read_reach_fins P s fc r out A :
  fins_uncut P -> read_reach P s fc r out A -> fins_ok s r.
Proof.
  intros HP. induction 1 as [id fc|s fc r out A f s' fc' Hreach IH Hf Hfin HPf Hadd|s fc r out A s' Hreach IH Ho| |
    s fc out A want Hreach IH Hw|now s fc r out A s' fc' sig r' Hreach IH Hstep|s fc got e out A Hreach IH].
  - constructor; [intros k f; simpl; by rewrite lookup_empty|done|done].
  - eapply fins_push; try done. by eapply read_reach_ok.
  - eapply fins_same; [by apply other_op_same|done].
  - done.
  - destruct IH as [H1 H2 _]. unfold stream_Read. repeat case_match.
    + constructor; [done|done|]. destruct (s_err s) as [[]|]; auto.
    + constructor; auto.
    + by apply fins_readLoop.
  - eapply fins_step; [|done|done]. by eapply read_reach_ok.
  - destruct IH as [H1 H2 _]. by constructor.
Qed.

(** ** What [Read] delivers *)

(** A reader that waits has no data to read. *)
Lemma blocked_missing s want got out A now fc :
  read_ok s (Some (ReadHead want got)) out A -> read_step now s fc (ReadHead want got) = None ->
  got = [] /\ ~ A (len out) /\ s_cancelled s = false /\ s_resetLocally s = false.
Proof.
  intros [H1 H2 H3 H4 H5 [Ho Hl]]. cbn [read_step]. unfold readHead.
  destruct (Head (s_frameQueue s)) as [f|] eqn:Hh; simpl.
  { repeat case_match; simplify_eq; done. }
  destruct (len got >? 0) eqn:Eg; [done|]. destruct (s_resetLocally s), (s_cancelled s); simpl;
    try (destruct (s_err s); done).
  intros _. assert (got = []) as -> by (by destruct got).
  split_and!; [done| |done|done]. simpl in H3. rewrite app_nil_r in H3. rewrite H3.
  destruct Ho as [->|(h & Hh' & _)]; [|congruence].
  pose proof (so_gaps _ _ _ H1) as Hg. pose proof (so_chains _ _ _ H1) as Hc.
  destruct (gaps (s_frameQueue s)) as [|g l] eqn:E; [done|].
  destruct Hg as [Hg _], Hc as [Hc _]. unfold Head in Hh.
  inversion Hc as [a Ea|a b f Hf Hlen]; [|congruence].
  apply H4. left. unfold bi_mem. lia.
Qed.

(** C6: whatever frames of the stream arrive, in whatever order, and however the steps of
    [Read] interleave with the other operations, the bytes that [Read] has copied are a
    prefix of the stream, and the read offset is their number; [Read] never panics, and its
    errors are [io.EOF] or the error of the stream; it only waits when the next byte has not
    arrived.  As long as no FIN arrives in a frame whose last byte had arrived before,
    [io.EOF] is returned exactly at the end of the stream. *)
Theorem stream_read_delivers P s fc r out A :
  read_reach P s fc r out A ->
  let read := out ++ got_of r in
  (forall i b, read !! i = Some b -> b = content (Z.of_nat i)) /\ len read = s_readOffset s /\
  r <> Some ReadPanic /\
  (forall got e, r = Some (ReadReturn got (Some e)) -> e = EOF \/ s_err s = Some e) /\
  (forall now r', r = Some r' -> read_step now s fc r' = None ->
     (exists got e, r' = ReadReturn got e) \/ ~ A (len read)) /\
  (fins_uncut P -> forall got, r = Some (ReadReturn got (Some EOF)) -> s_err s <> Some EOF ->
     len read = finalSize).
Proof.
  intros Hreach read. pose proof (read_reach_ok _ _ _ _ _ _ Hreach) as Hok. subst read.
  split_and!.
  - intros i b Hb. by apply (ro_data _ _ _ _ Hok) in Hb.
  - apply Hok.
  - intros ->. by apply (ro_reader _ _ _ _ Hok).
  - intros got e ->. destruct (ro_reader _ _ _ _ Hok) as [_ He]. by apply He.
  - intros now r' -> Hb. destruct r' as [want got| | |got e|]; try done; [|by left; eauto|].
    + right. destruct (blocked_missing _ _ _ _ _ now fc Hok Hb) as (-> & HA & _). simpl. by rewrite app_nil_r.
    + by destruct (ro_reader _ _ _ _ Hok).
  - intros HP got -> Herr. destruct (read_reach_fins _ _ _ _ _ _ HP Hreach) as [_ _ [?|Hend]]; [done|].
    by rewrite (ro_len _ _ _ _ Hok).
Qed.

(** A reader into a buffer that is not empty returns bytes or an error. *)
Definition read_useful (r : reader) : Prop :=
  match r with
  | ReadHead want _ | ReadCopy want _ _ | ReadPop want _ _ => 0 < want
  | ReadReturn got e => got <> [] \/ e <> None
  | ReadPanic => True
  end.

Lemma readLoop_useful want got : 0 < want -> read_useful (readLoop want got).
Proof.
  intros. unfold readLoop. case_if; simpl; [done|]. left. intros ->.
  unfold len in *. simpl in *. lia.
Qed.

Lemma read_step_useful now s fc r out A s' fc' sig r' :
  read_ok s (Some r) out A -> read_useful r ->
  read_step now s fc r = Some (s', fc', sig, r') -> read_useful r'.
Proof.
  intros Hok Hu. destruct r as [want got|want got f|want got f|got e|]; cbn [read_step]; try done.
  - destruct (readHead s want got) as [[s1 r1]|] eqn:E; [|done]. intros [= <- <- <- <-].
    unfold readHead in E. destruct (bool_decide _) eqn:Eh; simpl in E;
      [destruct (len got >? 0) eqn:Eg|].
    { injection E as <- <-. left. by intros ->. }
    all: repeat case_match; simplify_eq; simpl; auto.
  - destruct (readCopy_ok now s fc want got f out A Hok) as (s1 & fc1 & got1 & r1 & -> & _ & _ & Hp).
    intros [= <- <- <- <-]. destruct Hp as [[-> _]|[-> _]]; [done|by apply readLoop_useful].
  - destruct (readPop s want got f) as [s1 r1] eqn:E. intros [= <- <- <- <-].
    unfold readPop in E. injection E as <- <-. case_match; [by right|by apply readLoop_useful].
Qed.

Lemma run_read_ok fuel now s fc r out A :
  read_ok s (Some r) out A -> read_useful r -> read_measure r <= Z.of_nat fuel ->
  let '(s', fc', r') := run_read fuel now s fc r in
  read_ok s' (Some r') out A /\ read_useful r' /\ read_step now s' fc' r' = None.
Proof.
  revert s fc r; induction fuel as [|fuel IH]; intros s fc r Hok Hu Hm; cbn [run_read].
  - split_and!; [done|done|]. destruct (read_step now s fc r) as [[[[s' fc'] sig] r']|] eqn:E; [|done].
    destruct (read_step_ok _ _ _ _ _ _ _ _ _ _ Hok E). lia.
  - destruct (read_step now s fc r) as [[[[s' fc'] sig] r']|] eqn:E; [|done].
    destruct (read_step_ok _ _ _ _ _ _ _ _ _ _ Hok E).
    apply IH; [done|exact (read_step_useful _ _ _ _ _ _ _ _ _ _ Hok Hu E)|lia].
Qed.

(** C33: [Read] into a buffer that is not empty, without interference, ends within three
    steps for each byte: it returns bytes or an error, or it waits without having taken
    anything, and then the next byte has not arrived. *)
Theorem stream_read_terminates P now s fc out A want :
  read_reach P s fc None out A -> 0 < want ->
  let '(s', fc', r') := run_read (Z.to_nat (3 * want + 2)) now s fc (stream_Read s want) in
  (exists got e, r' = ReadReturn got e /\ (got <> [] \/ e <> None)) \/
  (exists want', r' = ReadHead want' [] /\ ~ A (len out)).
Proof.
  intros Hreach%read_reach_ok Hw.
  pose proof (stream_Read_ok _ _ _ want Hreach ltac:(lia)) as Hok.
  assert (read_useful (stream_Read s want) /\ read_measure (stream_Read s want) <= 3 * want + 2) as [Hu Hm].
  { unfold stream_Read. destruct (_ || _) eqn:E.
    - split; [right; by apply (ro_err _ _ _ _ Hreach)|simpl; lia].
    - case_match; [split; [by right|simpl; lia]|]. split; [by apply readLoop_useful|].
      pose proof (readLoop_measure want []) as Hrl. unfold len in Hrl. simpl in Hrl. lia. }
  pose proof (run_read_ok (Z.to_nat (3 * want + 2)) now s fc _ out A Hok Hu ltac:(lia)) as Hrun.
  destruct (run_read _ _ _ _ _) as [[s' fc'] r']. destruct Hrun as (Hok' & Hu' & Hb).
  destruct r' as [want' got| | |got e|]; try done; [right|left; eauto|by destruct (ro_reader _ _ _ _ Hok')].
  destruct (blocked_missing _ _ _ _ _ now fc' Hok' Hb) as (-> & HA & _). eauto.
Qed.
End reading.

(** ** Writing

    [write_reach s w W sent sigs]: the application has passed [W] to [Write], and the call
    for [w] has not returned yet; [sent] is the data that has been taken for frames, and
    [sigs] are the signals so far.  Calls of [Write] do not overlap, and there is none after
    [Close].  [sentFin] comes after [shouldSendFin], but not at once: in between the stream can
    be reset.  The steps of [Read] and the arrival of frames only change the part of the
    stream that [s_set_read] sets. *)

Inductive write_reach : stream -> option (list Z) -> list Z -> list Z -> list signal -> Prop :=
| wr_new id : write_reach (newStream id) None [] [] []
| wr_write s W sent sigs p s' sg :
    write_reach s None W sent sigs -> s_finishedWriting s = false ->
    stream_Write s p = (s', sg, None) -> write_reach s' (Some p) (W ++ p) sent (sigs ++ sg)
| wr_return s p W sent sigs r :
    write_reach s (Some p) W sent sigs -> Write_return s p = Some r -> write_reach s None W sent sigs
| wr_send s w W sent sigs n s' d :
    write_reach s w W sent sigs -> 0 <= n -> getDataForWriting s n = (s', Some d) ->
    write_reach s' w W (sent ++ d) sigs
| wr_fin s w W sent sigs :
    write_reach s w W sent sigs -> s_finishedWriting s = true -> s_dataForWriting s = None ->
    write_reach (sentFin s) w W sent sigs
| wr_read s w W sent sigs pos off fin q :
    write_reach s w W sent sigs -> write_reach (s_set_read s pos off fin q) w W sent sigs
| wr_close s w W sent sigs :
    write_reach s w W sent sigs -> write_reach (stream_Close s).1 w W sent (sigs ++ (stream_Close s).2)
| wr_cancel s w W sent sigs e :
    write_reach s w W sent sigs -> write_reach (Cancel s (Some e)) w W sent sigs
| wr_reset s w W sent sigs e :
    write_reach s w W sent sigs ->
    write_reach (stream_Reset s (Some e)).1 w W sent (sigs ++ (stream_Reset s (Some e)).2)
| wr_remote s w W sent sigs e :
    write_reach s w W sent sigs ->
    write_reach (RegisterRemoteError s (Some e)).1 w W sent (sigs ++ (RegisterRemoteError s (Some e)).2).

Definition pending (s : stream) : list Z := default [] (s_dataForWriting s).

(** The offsets in the RST_STREAM frames *)
Definition resets (sigs : list signal) : list Z :=
  omap (fun g => match g with OnReset _ off => Some off | OnData => None end) sigs.

Record write_ok (s : stream) (w : option (list Z)) (W sent : list Z) (sigs : list signal) : Prop := {
  wo_data : W = sent ++ pending s;
  wo_offset : s_writeOffset s = u64 (len sent);
  wo_writer : match w with Some p => p `suffix_of` W | None => s_err s = None -> s_dataForWriting s = None end;
  wo_pending : s_dataForWriting s <> Some [];
  wo_fin : s_finSent s = true -> s_finishedWriting s = true /\ s_dataForWriting s = None;
  wo_resets : resets sigs = if s_rstSent s then [s_writeOffset s] else [];
  wo_rst : s_rstSent s = true -> s_err s <> None;
}.

Lemma resets_app a b : resets (a ++ b) = resets a ++ resets b.
Proof. apply omap_app. Qed.

Lemma write_ok_err s w W sent sigs e c fw rl rr :
  write_ok s w W sent sigs -> (s_finishedWriting s = true -> fw = true) ->
  write_ok (setErr (s_set_flags s c fw rl rr) (Some e)) w W sent sigs.
Proof.
  intros [H1 H2 H3 H4 H5 H6 H7] Hfw. unfold setErr.
  destruct (s_err s) eqn:E; (constructor; simpl; rewrite ?E; auto).
  all: try (destruct w; [done|simpl; congruence]).
  all: intros Hf; simpl in Hf; try (split; [apply Hfw|]; by apply H5).
  all: simpl; congruence.
Qed.

Lemma write_ok_reset s w W sent sigs :
  write_ok s w W sent sigs -> s_err s <> None ->
  write_ok (maybeSendReset s).1 w W sent (sigs ++ (maybeSendReset s).2).
Proof.
  intros [H1 H2 H3 H4 H5 H6 H7] He. unfold maybeSendReset.
  destruct (shouldSendReset s) eqn:E; cbn [fst snd]; [|rewrite app_nil_r; by constructor].
  unfold shouldSendReset in E. destruct (s_rstSent s); [done|].
  constructor; simpl; auto. by rewrite resets_app, H6.
Qed.

Lemma setErr_some s e : s_err (setErr s (Some e)) <> None.
Proof. unfold setErr. destruct (s_err s) eqn:E; simpl; congruence. Qed.

Lemma write_reach_ok s w W sent sigs : write_reach s w W sent sigs -> write_ok s w W sent sigs.
Proof.
  induction 1 as [id|s W sent sigs p s' sg Hr IH Hfw Hw|s p W sent sigs r Hr IH Hret
    |s w W sent sigs n s' d Hr IH Hn Hget|s w W sent sigs Hr IH Hfw Hfd| | | | |].
  - by constructor.
  - destruct IH as [H1 H2 H3 H4 H5 H6 H7]. unfold stream_Write in Hw. simpl in H3.
    destruct (s_resetLocally s); [done|]. destruct (s_err s) eqn:Ee; [done|].
    destruct (len p =? 0) eqn:El; [done|]. injection Hw as <- <-. specialize (H3 eq_refl).
    unfold pending in H1. rewrite H3, app_nil_r in H1. subst W.
    constructor; simpl; auto.
    + by apply suffix_app_r.
    + by intros [= ->].
    + intros Hf. destruct (H5 Hf) as [Hf1 _]. congruence.
    + rewrite resets_app, H6. apply app_nil_r.
    + by rewrite Ee.
  - destruct IH as [H1 H2 H3 H4 H5 H6 H7]. constructor; auto. intros He.
    unfold Write_return in Hret. rewrite He in Hret. by destruct (s_dataForWriting s).
  - destruct IH as [H1 H2 H3 H4 H5 H6 H7]. unfold getDataForWriting in Hget.
    destruct (s_err s) eqn:Ee; [done|]. destruct (s_dataForWriting s) as [d0|] eqn:Ed; [|done].
    unfold pending in H1. rewrite Ed in H1. simpl in H1.
    assert (s_rstSent s = false) as Ers by (destruct (s_rstSent s); [by destruct H7|done]).
    assert (s_finSent s = false) as Efs by (destruct (s_finSent s); [by destruct H5|done]).
    destruct (len d0 >? n) eqn:En; injection Hget as <- <-.
    + assert (n < len d0) by lia. constructor; simpl; rewrite ?Ers, ?Efs; auto; try done.
      * unfold pending. simpl. by rewrite H1, <- app_assoc, take_drop.
      * rewrite H2, u64_add_l, len_app. done.
      * destruct w; [done|]. by specialize (H3 eq_refl).
      * intros [= E]. apply (f_equal len) in E. rewrite len_drop in E by lia. unfold len in E at 2. simpl in E. lia.
      * by rewrite Ers in H6.
    + constructor; simpl; rewrite ?Ers, ?Efs; auto; try done.
      * unfold pending. simpl. by rewrite app_nil_r.
      * rewrite H2, u64_add_l, len_app. done.
      * destruct w; done.
      * by rewrite Ers in H6.
  - destruct IH as [H1 H2 H3 H4 H5 H6 H7]. by constructor; simpl; auto.
  - destruct IHwrite_reach as [H1 H2 H3 H4 H5 H6 H7]. by constructor.
  - destruct IHwrite_reach as [H1 H2 H3 H4 H5 H6 H7]. constructor; simpl; auto.
    + intros Hf. split; [done|]. by apply H5.
    + rewrite resets_app, H6. apply app_nil_r.
  - by apply write_ok_err.
  - unfold stream_Reset. destruct (s_resetLocally s); [by rewrite app_nil_r|].
    apply write_ok_reset; [by apply write_ok_err|apply setErr_some].
  - unfold RegisterRemoteError. destruct (s_resetRemotely s); [by rewrite app_nil_r|].
    apply write_ok_reset; [by apply write_ok_err|apply setErr_some].
Qed.

(** C7: in every interleaving, what has been taken for frames is a prefix of what the
    application has written, without gaps; the rest is what is still pending.  A [Write] that
    returns without an error has had all of its data taken, and a FIN is only sent when
    everything has been taken.  At most one RST_STREAM is sent, its offset is the final one,
    and no data is taken after it. *)
Theorem stream_write_sends s w W sent sigs :
  write_reach s w W sent sigs ->
  W = sent ++ pending s /\ s_writeOffset s = u64 (len sent) /\
  (forall p n, w = Some p -> Write_return s p = Some (n, None) ->
     n = len p /\ sent = W /\ p `suffix_of` sent) /\
  (s_finSent s = true -> sent = W) /\
  (resets sigs = [] \/
   resets sigs = [s_writeOffset s] /\ forall n, getDataForWriting s n = (s, None)).
Proof.
  intros [H1 H2 H3 H4 H5 H6 H7]%write_reach_ok. unfold pending in *. split_and!; [done|done| | |].
  - intros p n -> Hret. unfold Write_return in Hret.
    destruct (s_err s); [done|]. destruct (s_dataForWriting s); [done|].
    injection Hret as <-. simpl in H1. rewrite app_nil_r in H1. subst W. done.
  - intros Hf. destruct (H5 Hf) as [_ Hd]. rewrite Hd, app_nil_r in H1. done.
  - rewrite H6. destruct (s_rstSent s); [right|by left]. split; [done|]. intros n.
    unfold getDataForWriting. destruct (s_err s); [done|]. by destruct H7.
Qed.

(** ** Deviations *)

(** [Write] does not look at [Close]: data that is written after the FIN has been sent
    is accepted and taken for a frame behind the end of the stream. *)
Theorem write_after_close_is_sent id a b :
  let s1 := (stream_Write (newStream id) [a]).1.1 in
  let s2 := (stream_Close (getDataForWriting s1 1000).1).1 in
  shouldSendFin s2 = true /\ s_writeOffset s2 = 1 /\
  exists s3, stream_Write (sentFin s2) [b] = (s3, [OnData], None) /\
    finishedWriteAndSentFin s3 = true /\ (getDataForWriting s3 1000).2 = Some [b] /\
    s_writeOffset (getDataForWriting s3 1000).1 = 2.
Proof. cbn. split; [done|]. split; [done|]. eexists. by split_and!. Qed.

(** After [Reset(nil)] the stream has no error: a [Read] that was waiting panics, and
    data is still taken for frames although the RST_STREAM has announced the final offset. *)
Theorem reset_nil_panics {F} `{FlowControlManager F} now (fc : F) s want d :
  s_err s = None -> s_resetLocally s = false -> s_rstSent s = false -> s_finSent s = false ->
  Head (s_frameQueue s) = None -> s_dataForWriting s = Some d ->
  exists s', stream_Reset s None = (s', [OnReset (s_streamID s) (s_writeOffset s)]) /\
    read_step now s' fc (ReadHead want []) = Some (s', fc, [], ReadPanic) /\
    (getDataForWriting s' (len d)).2 = Some d.
Proof.
  intros He Hr Hs Hf Hh Hd. destruct s; simpl in *; subst.
  unfold stream_Reset, setErr, maybeSendReset, shouldSendReset, finishedWriteAndSentFin; cbn.
  rewrite andb_false_r. eexists. split; [reflexivity|].
  unfold read_step, readHead, getDataForWriting; cbn. rewrite Hh, andb_false_r.
  by rewrite Z.gtb_ltb, Z.ltb_irrefl.
Qed.

(** A RST_STREAM of the peer does not wake up a [Read] that waits, although the stream
    is finished with it, so that the session forgets it. *)
Theorem remote_reset_leaves_reader_waiting {F} `{FlowControlManager F} now (fc : F) s want e :
  Head (s_frameQueue s) = None -> s_cancelled s = false -> s_resetLocally s = false ->
  s_resetRemotely s = false -> s_rstSent s = false -> s_finSent s = false ->
  let s' := (RegisterRemoteError s (Some e)).1 in
  finished s' = true /\ s_err s' <> None /\ read_step now s' fc (ReadHead want []) = None.
Proof.
  intros Hh Hc Hl Hr Hs Hf. destruct s; simpl in *; subst.
  unfold RegisterRemoteError, setErr, maybeSendReset, shouldSendReset, finished, finishedWriteAndSentFin,
    read_step, readHead.
  destruct s_err0; cbn; rewrite !andb_false_r; cbn; rewrite Hh, ?andb_false_r; cbn; rewrite ?orb_true_r; done.
Qed.

(** ** A stream of three bytes that arrives in two frames *)

Definition sampleMethods : FlowControlManager flowControlManager := flowControlManager_methods sampleParams.
#[local] Existing Instance sampleMethods.

Definition sampleStream1 : stream * flowControlManager :=
  (AddStreamFrame (newStream 5) sampleFlow0 sampleLast).1.
Definition sampleStream : stream * flowControlManager :=
  (AddStreamFrame sampleStream1.1 sampleStream1.2 sampleFirst).1.
Definition sampleArrived (x : Z) : Prop := (False \/ 1 <= x < 1 + 2) \/ 0 <= x < 0 + 2.

Lemma sampleStream_reach P :
  P newStreamFrameSorter sampleLast -> P (s_frameQueue sampleStream1.1) sampleFirst ->
  read_reach sampleContent 3 P sampleStream.1 sampleStream.2 None [] sampleArrived.
Proof.
  intros H1 H2.
  apply (rr_frame sampleContent 3 P sampleStream1.1 sampleStream1.2 None [] (fun x => False \/ 1 <= x < 1 + 2)
           sampleFirst); [|apply sample_frame_ok|done|done|vm_compute; reflexivity].
  apply (rr_frame sampleContent 3 P (newStream 5) sampleFlow0 None [] (fun _ => False) sampleLast);
    [apply rr_new|apply sample_frame_ok|done|done|vm_compute; reflexivity].
Qed.

Lemma run_read_reach {F} `{FlowControlManager F} content finalSize P fuel now s (fc : F) r out A :
  read_reach content finalSize P s fc (Some r) out A ->
  let '(s', fc', r') := run_read fuel now s fc r in read_reach content finalSize P s' fc' (Some r') out A.
Proof.
  revert s fc r; induction fuel as [|fuel IH]; intros s fc r Hr; [done|]. cbn [run_read].
  destruct (read_step now s fc r) as [[[[s' fc'] sig] r']|] eqn:E; [|done]. apply IH. by eapply rr_step.
Qed.

Lemma stream_read_delivers_witness :
  exists s fc, run_read 20 7 sampleStream.1 sampleStream.2 (stream_Read sampleStream.1 8)
    = (s, fc, ReadReturn [10; 11; 12] None) /\ s_readOffset s = 3.
Proof.
  destruct (run_read 20 7 sampleStream.1 sampleStream.2 (stream_Read sampleStream.1 8))
    as [[s fc] r] eqn:E. exists s, fc.
  assert (r = ReadReturn [10; 11; 12] None) as -> by (vm_compute in E; congruence).
  split; [reflexivity|].
  pose proof (run_read_reach sampleContent 3 (fun _ _ => True) 20 7 _ _ _ [] sampleArrived
    (rr_start sampleContent 3 _ _ _ [] sampleArrived 8 (sampleStream_reach (fun _ _ => True) I I) ltac:(lia))) as Hr.
  rewrite E in Hr.
  destruct (stream_read_delivers sampleContent 3 ltac:(lia) _ _ _ _ _ _ Hr) as (_ & Hl & _).
  rewrite <- Hl. reflexivity.
Defined.

Lemma stream_read_terminates_witness :
  let '(s', fc', r') := run_read (Z.to_nat 26) 7 sampleStream.1 sampleStream.2 (stream_Read sampleStream.1 8) in
  (exists got e, r' = ReadReturn got e /\ (got <> [] \/ e <> None)) \/
  (exists want', r' = ReadHead want' [] /\ ~ sampleArrived 0).
Proof.
  apply (stream_read_terminates sampleContent 3 ltac:(lia) (fun _ _ => True) 7 _ _ [] sampleArrived 8);
    [by apply sampleStream_reach|lia].
Defined.

(** A stream on which three bytes are written and two are sent *)
Definition sampleWriter : stream := (stream_Write (newStream 5) [1; 2; 3]).1.1.
Lemma sampleWriter_reach : write_reach sampleWriter (Some [1; 2; 3]) [1; 2; 3] [] [OnData].
Proof. by apply (wr_write (newStream 5) [] [] []); [apply wr_new|..]. Qed.

Lemma stream_write_sends_witness :
  let s := (stream_Reset (getDataForWriting sampleWriter 2).1 (Some EOF)).1 in
  resets ([OnData] ++ [OnReset 5 2]) = [s_writeOffset s] /\ getDataForWriting s 10 = (s, None).
Proof.
  intros s.
  destruct (stream_write_sends s (Some [1; 2; 3]) [1; 2; 3] ([] ++ [1; 2]) ([OnData] ++ [OnReset 5 2]))
    as (_ & _ & _ & _ & [[=]|[H1 H2]]); [|split; [exact H1|apply H2]].
  apply (wr_reset (getDataForWriting sampleWriter 2).1 (Some [1; 2; 3]) [1; 2; 3] ([] ++ [1; 2]) [OnData] EOF).
  apply (wr_send sampleWriter (Some [1; 2; 3]) [1; 2; 3] [] [OnData] 2 _ [1; 2]);
    [apply sampleWriter_reach|lia|reflexivity].
Defined.

Lemma reset_nil_panics_witness :
  exists s', stream_Reset sampleWriter None = (s', [OnReset 5 0]) /\
    read_step 7 s' sampleFlow0 (ReadHead 4 []) = Some (s', sampleFlow0, [], ReadPanic) /\
    (getDataForWriting s' 3).2 = Some [1; 2; 3].
Proof. apply (reset_nil_panics 7 sampleFlow0 sampleWriter 4 [1; 2; 3]); reflexivity. Defined.

Lemma remote_reset_leaves_reader_waiting_witness :
  let s' := (RegisterRemoteError sampleWriter (Some EOF)).1 in
  finished s' = true /\ s_err s' <> None /\ read_step 7 s' sampleFlow0 (ReadHead 4 []) = None.
Proof. apply (remote_reset_leaves_reader_waiting 7 sampleFlow0 sampleWriter 4 EOF); reflexivity. Defined.
