(* ===== verification/StreamFramer.v ===== *)
(** * stream_framer.go: the STREAM frames of the next packet

    Frames that wait for retransmission come first, and the last one can be split; the rest
    of the packet is filled with new data of the streams, in the order of the round-robin
    iteration of StreamsMap.v, within the send windows.  The framer locks a stream several
    times on the way; [appSteps] is what the application does to it in between. *)

From S2P Require Import Prelude Protocol Qerr Frames StreamFrameSorter Handshake FlowControl Stream StreamsMap.

Record streamFramer : Type := mkStreamFramer {
  fr_retransmissionQueue : list StreamFrame;
  fr_blockedFrameQueue : list BlockedFrame;
}.

Definition newStreamFramer : streamFramer := mkStreamFramer [] [].

Definition AddFrameForRetransmission (f : streamFramer) (frame : StreamFrame) : streamFramer :=
  mkStreamFramer (fr_retransmissionQueue f ++ [frame]) (fr_blockedFrameQueue f).

Definition PopBlockedFrame (f : streamFramer) : streamFramer * option BlockedFrame :=
  match fr_blockedFrameQueue f with
  | [] => (f, None)
  | frame :: q => (mkStreamFramer (fr_retransmissionQueue f) q, Some frame)
  end.

Definition HasFramesForRetransmission (f : streamFramer) : bool := len (fr_retransmissionQueue f) >? 0.

(** The first [n] bytes as a frame of their own, and the frame that is left *)
Definition maybeSplitOffFrame (frame : StreamFrame) (n : Z) : option (StreamFrame * StreamFrame) :=
  if n >=? StreamFrame_DataLen frame then None
  else
    Some (mkStreamFrame (sf_StreamID frame) false (sf_DataLenPresent frame) (sf_Offset frame)
            (take (Z.to_nat n) (sf_Data frame)),
          mkStreamFrame (sf_StreamID frame) (sf_FinBit frame) (sf_DataLenPresent frame)
            (u64 (sf_Offset frame + n)) (drop (Z.to_nat n) (sf_Data frame))).

Definition setDataLenPresent (f : StreamFrame) (b : bool) : StreamFrame :=
  mkStreamFrame (sf_StreamID f) (sf_FinBit f) b (sf_Offset f) (sf_Data f).

(** The loop of [maybePopFramesForRetransmission]: the queue that is left, the frames and
    their length *)
Fixpoint popRetransmissions (queue : list StreamFrame) (maxLen currentLen : Z) (res : list StreamFrame)
    : list StreamFrame * list StreamFrame * Z :=
  match queue with
  | [] => ([], res, currentLen)
  | frame :: queue =>
      let frame := setDataLenPresent frame true in
      let frameHeaderLen := StreamFrame_MinLength frame in
      if u64 (currentLen + frameHeaderLen) >=? maxLen then (frame :: queue, res, currentLen)
      else
        let currentLen := u64 (currentLen + frameHeaderLen) in
        match maybeSplitOffFrame frame (u64 (maxLen - currentLen)) with
        | Some (splitFrame, frame) =>
            (frame :: queue, res ++ [splitFrame], u64 (currentLen + StreamFrame_DataLen splitFrame))
        | None =>
            popRetransmissions queue maxLen (u64 (currentLen + StreamFrame_DataLen frame)) (res ++ [frame])
        end
  end.

Definition maybePopFramesForRetransmission (f : streamFramer) (maxLen : Z)
    : streamFramer * list StreamFrame * Z :=
  let '(queue, res, currentLen) := popRetransmissions (fr_retransmissionQueue f) maxLen 0 [] in
  (mkStreamFramer queue (fr_blockedFrameQueue f), res, currentLen).

(** ** New data *)

(** What the application does to a stream while the framer works: the stream's mutex is held
    while the framer looks up the length of its data, while it takes the data, while it asks
    for a FIN, and while the FIN is marked as sent, but neither before nor in between.
    [app_turn] is what happens since the round began, [app_length] after the length has been
    looked up, [app_data] after the data has been taken and [app_fin] after the FIN has been
    asked for. *)
Record appSteps : Type := mkAppSteps {
  app_turn : stream -> stream;
  app_length : stream -> stream;
  app_data : stream -> stream;
  app_fin : stream -> stream;
}.
Definition noSteps : appSteps := mkAppSteps id id id id.

Section framer.
Context {F : Type} `{FlowControlManager F} (app : appSteps).

(** What the callback of [maybePopNormalFrames] changes besides the streams *)
Record popState : Type := mkPopState {
  ps_fc : F;
  ps_blocked : list BlockedFrame;
  ps_res : list StreamFrame;
  ps_currentLen : Z;
}.

Definition emptyFrame (s : stream) : StreamFrame := mkStreamFrame (s_streamID s) false true (s_writeOffset s) [].

Inductive dataLimit : Type :=
| packetFull
| noRoom
| limit (maxLen sendWindowSize : Z).

(** The first part of the callback: how much data can be taken *)
Definition frameLimit (maxBytes : Z) (w : popState) (s : stream) : dataLimit :=
  let frameHeaderBytes := StreamFrame_MinLength (emptyFrame s) in
  if u64 (ps_currentLen w + frameHeaderBytes) >? maxBytes then packetFull
  else
    let maxLen := u64 (maxBytes - ps_currentLen w - frameHeaderBytes) in
    let '(maxLen, sendWindowSize) :=
      if negb (lenOfDataForWriting s =? 0) then
        let sendWindowSize :=
          match FlowSendWindowSize (ps_fc w) (s_streamID s) with Ok x => x | _ => 0 end in
        (MinByteCount maxLen sendWindowSize, sendWindowSize)
      else (maxLen, 0) in
    if maxLen =? 0 then noRoom else limit maxLen sendWindowSize.

(** The second part: the stream and the frame that is taken from it, if any *)
Definition takeFrame (s : stream) (maxLen : Z) : stream * option StreamFrame :=
  let offset := s_writeOffset s in
  let '(s, data) := getDataForWriting (app_length app s) maxLen in
  let s := app_data app s in
  let fin := shouldSendFin s in
  match data, fin with
  | None, false => (s, None)
  | _, _ =>
      (if fin then sentFin (app_fin app s) else s,
       Some (mkStreamFrame (s_streamID s) fin true offset (default [] data)))
  end.

(** The third part: accounting *)
Definition addFrame (maxBytes sendWindowSize : Z) (w : popState) (frame : StreamFrame) : popState :=
  let id := sf_StreamID frame in
  let fc := (FlowAddBytesSent (ps_fc w) id (len (sf_Data frame))).1 in
  let blocked :=
    if FlowRemainingConnectionWindowSize fc =? 0 then ps_blocked w ++ [mkBlockedFrame 0]
    else if negb (sf_FinBit frame) && (u64 (sendWindowSize - StreamFrame_DataLen frame) =? 0)
    then ps_blocked w ++ [mkBlockedFrame id]
    else ps_blocked w in
  mkPopState fc blocked (ps_res w ++ [frame])
    (u64 (ps_currentLen w + (StreamFrame_MinLength frame + StreamFrame_DataLen frame))).

Definition putBack (m : streamsMap) (s : stream) : streamsMap :=
  sm_set_streams m (<[s_streamID s := s]> (sm_streams m)) (sm_openStreams m).

(** The callback of [maybePopNormalFrames] *)
Definition popFrame (maxBytes : Z) : streamLambda (S := stream) (W := popState) := fun st s =>
  let s := app_turn app s in
  match frameLimit maxBytes st.2 s with
  | packetFull => ((putBack st.1 s, st.2), (false, None))
  | noRoom => ((putBack st.1 s, st.2), (true, None))
  | limit maxLen sendWindowSize =>
      match takeFrame s maxLen with
      | (s, None) => ((putBack st.1 s, st.2), (true, None))
      | (s, Some frame) =>
          let w := addFrame maxBytes sendWindowSize st.2 frame in
          ((putBack st.1 s, w), (negb (ps_currentLen w =? maxBytes), None))
      end
  end.

Definition maybePopNormalFrames (m : streamsMap (S := stream)) (fc : F) (blocked : list BlockedFrame)
    (maxBytes : Z) : streamsMap (S := stream) * popState :=
  (RoundRobinIterate (m, mkPopState fc blocked [] 0) (popFrame maxBytes)).1.

Definition PopStreamFrames (f : streamFramer) (m : streamsMap (S := stream)) (fc : F) (maxLen : Z)
    : streamFramer * streamsMap (S := stream) * F * list StreamFrame :=
  let '(f, fs, currentLen) := maybePopFramesForRetransmission f maxLen in
  let '(m, w) := maybePopNormalFrames m fc (fr_blockedFrameQueue f) (u64 (maxLen - currentLen)) in
  (mkStreamFramer (fr_retransmissionQueue f) (ps_blocked w), m, ps_fc w, fs ++ ps_res w).
End framer.

(** ** Frames and their bytes *)

Definition frameLen (f : StreamFrame) : Z := StreamFrame_MinLength f + StreamFrame_DataLen f.
Definition framesLen (fs : list StreamFrame) : Z := foldr (fun f n => frameLen f + n) 0 fs.

(** The bytes of a frame with the stream and the offset they belong to, and the end of the
    stream *)
Definition frameBytes (f : StreamFrame) : list (Z * Z * option Z) :=
  imap (fun i b => (sf_StreamID f, sf_Offset f + Z.of_nat i, Some b)) (sf_Data f)
  ++ (if sf_FinBit f then [(sf_StreamID f, sf_Offset f + StreamFrame_DataLen f, None)] else []).
Definition framesBytes (fs : list StreamFrame) : list (Z * Z * option Z) := fs ≫= frameBytes.
Arguments framesBytes : simpl never.

Lemma framesLen_app a b : framesLen (a ++ b) = framesLen a + framesLen b.
Proof. induction a as [|f a IH]; simpl; [done|]. rewrite IH. lia. Qed.
Lemma framesBytes_app a b : framesBytes (a ++ b) = framesBytes a ++ framesBytes b.
Proof. apply bind_app. Qed.
Lemma framesBytes_cons f fs : framesBytes (f :: fs) = frameBytes f ++ framesBytes fs.
Proof. done. Qed.

Lemma MinLength_bounds f :
  is_u32 (sf_StreamID f) -> is_u64 (sf_Offset f) -> 2 <= StreamFrame_MinLength f <= 15.
Proof.
  intros Hid Hoff. destruct (calculateStreamIDLength_fits f Hid) as [Hs _].
  destruct (getOffsetLength_fits f Hoff) as [Ho _]. unfold StreamFrame_MinLength. case_match; lia.
Qed.
Lemma frameLen_nonneg f : StreamFrame_wf f -> 2 <= frameLen f.
Proof.
  intros (Hid & Hoff & _). pose proof (MinLength_bounds f Hid Hoff).
  pose proof (len_nonneg (sf_Data f)). unfold frameLen, StreamFrame_DataLen. lia.
Qed.
Lemma frameBytes_present f b : frameBytes (setDataLenPresent f b) = frameBytes f.
Proof. done. Qed.
Lemma wf_present f b : StreamFrame_wf f -> StreamFrame_wf (setDataLenPresent f b).
Proof. done. Qed.

(** Splitting a frame keeps its bytes. *)
Lemma split_spec f n a b :
  StreamFrame_wf f -> 0 < n -> maybeSplitOffFrame f n = Some (a, b) ->
  StreamFrame_wf a /\ StreamFrame_wf b /\ StreamFrame_DataLen a = n /\
  StreamFrame_MinLength a = StreamFrame_MinLength f /\ sf_DataLenPresent a = sf_DataLenPresent f /\
  frameBytes f = frameBytes a ++ frameBytes b.
Proof.
  intros (Hid & Hoff & Hd & Hne & Hend) Hn. unfold maybeSplitOffFrame, StreamFrame_DataLen.
  case_if; [done|]. intros [= <- <-]. simpl.
  assert (u64 (sf_Offset f + n) = sf_Offset f + n) as Eu.
  { apply u64_small. unfold is_u64 in *. unfold_width. lia. }
  rewrite Eu. pose proof Hoff as Hoff'. unfold is_u64 in Hoff'. unfold bytes_ok in Hd.
  split_and!; [split_and!; simpl| |rewrite len_take by lia; done|done|done|].
  - done.
  - done.
  - by apply Forall_take.
  - left. intros E. apply (f_equal len) in E. rewrite len_take in E by lia. unfold len in E. simpl in E. lia.
  - rewrite len_take by lia. lia.
  - split_and!; simpl; [done|unfold is_u64; lia|by apply Forall_drop| |rewrite len_drop by lia; lia].
    left. intros E. apply (f_equal len) in E. rewrite len_drop in E by lia. unfold len in E at 2. simpl in E. lia.
  - unfold frameBytes, StreamFrame_DataLen. simpl. rewrite app_nil_r, len_drop by lia.
    rewrite <- (take_drop (Z.to_nat n) (sf_Data f)) at 1. rewrite imap_app, <- !app_assoc.
    f_equal. f_equal.
    + apply imap_ext. intros i x _. simpl. f_equal. f_equal. rewrite length_take. unfold len in *. lia.
    + by replace (sf_Offset f + n + (len (sf_Data f) - n)) with (sf_Offset f + len (sf_Data f)) by lia.
Qed.

Lemma popRetransmissions_spec queue maxLen cur res queue' res' cur' :
  Forall StreamFrame_wf queue -> 0 <= cur <= maxLen -> maxLen < 2 ^ 62 ->
  popRetransmissions queue maxLen cur res = (queue', res', cur') ->
  exists new, res' = res ++ new /\ cur' = cur + framesLen new /\ cur' <= maxLen /\
    framesBytes queue = framesBytes new ++ framesBytes queue' /\
    Forall (fun f => StreamFrame_wf f /\ sf_DataLenPresent f = true) new /\ Forall StreamFrame_wf queue'.
Proof.
  intros Hq Hcur Hmax. revert cur res Hcur; induction Hq as [|f queue Hf Hq IH]; intros cur res Hcur;
    cbn [popRetransmissions].
  { intros [= <- <- <-]. exists []. rewrite app_nil_r. split_and!; try done; simpl; lia. }
  set (g := setDataLenPresent f true). pose proof (wf_present f true Hf) as Hg. fold g in Hg.
  pose proof Hg as (Hid & Hoff & _). pose proof (MinLength_bounds g Hid Hoff) as Hml.
  rewrite u64_small by (unfold_width; lia). case_if.
  { intros [= <- <- <-]. exists []. rewrite app_nil_r. split_and!; try done; simpl; try lia. by constructor. }
  rewrite u64_small by (unfold_width; lia).
  destruct (maybeSplitOffFrame g _) as [[a b]|] eqn:Es.
  - intros [= <- <- <-]. 
    destruct (split_spec g _ a b Hg (ltac:(lia) : 0 < maxLen - (cur + StreamFrame_MinLength g)) Es)
      as (Ha & Hb & Hl & Hm & Hp & Hbytes).
    exists [a]. rewrite Hl, u64_small by (unfold_width; lia). unfold framesLen, frameLen. simpl.
    split_and!; [done|lia|lia| | |by constructor].
    + rewrite !framesBytes_cons, <- (frameBytes_present f true). fold g. rewrite Hbytes.
      change (framesBytes []) with (@nil (Z * Z * option Z)). by rewrite app_nil_r, app_assoc.
    + constructor; [|constructor]. by rewrite Hp.
  - unfold maybeSplitOffFrame in Es. destruct (_ >=? StreamFrame_DataLen g) eqn:Ele; [|done].
    pose proof (len_nonneg (sf_Data g)) as Hn. change (len (sf_Data g)) with (StreamFrame_DataLen g) in Hn.
    rewrite u64_small by (unfold_width; lia). intros Hrun.
    apply IH in Hrun; [|lia]. destruct Hrun as (new & -> & -> & Hle & Hb & Hnew & Hq').
    exists (g :: new). rewrite <- app_assoc. unfold framesLen, frameLen in *. simpl.
    split_and!; [done|lia|lia| | |done].
    + by rewrite !framesBytes_cons, Hb, app_assoc.
    + by constructor.
Qed.

(** ** Taking data from a stream *)

(** A stream whose pending data can be sent *)
Definition sendable (s : stream) : Prop :=
  is_u32 (s_streamID s) /\ 0 <= s_writeOffset s /\ s_writeOffset s + len (pending s) < 2 ^ 64 /\
  bytes_ok (pending s) /\ s_dataForWriting s <> Some [].

(** A step of the application: calls of [Write] do not overlap, and there is none after [Close];
    [Reset] is called with an error. *)
Inductive app_step (s : stream) : stream -> Prop :=
| app_Write p :
    s_finishedWriting s = false -> s_dataForWriting s = None -> bytes_ok p -> s_writeOffset s + len p < 2 ^ 64 ->
    app_step s (stream_Write s p).1.1
| app_Close : app_step s (stream_Close s).1
| app_Reset e : app_step s (stream_Reset s (Some e)).1
| app_Cancel e : app_step s (Cancel s (Some e)).
Abbreviation applied := (rtc app_step).

Definition app_ok (a : appSteps) : Prop :=
  forall s, applied s (app_turn a s) /\ applied s (app_length a s) /\ applied s (app_data a s) /\
    applied s (app_fin a s).

(** No data is written to a stream without data while its turn has come. *)
Definition app_quiet (a : appSteps) : Prop :=
  forall s, lenOfDataForWriting s = 0 -> lenOfDataForWriting (app_length a s) = 0.

(** Either no data comes to an idle stream while its turn has come, or [sends_ok] does not
    depend on what is sent. *)
Definition sends_kept {F} `{FlowControlManager F} (sends_ok : F -> Prop) (a : appSteps) : Prop :=
  app_quiet a \/ forall f id n, sends_ok f -> sends_ok (FlowAddBytesSent f id n).1.

Lemma noSteps_ok : app_ok noSteps /\ app_quiet noSteps.
Proof. by split; [intros s; split_and!; apply rtc_refl|intros s]. Qed.

(** The part of a stream that the steps change *)
Lemma app_step_fields s s' :
  app_step s s' ->
  s_streamID s' = s_streamID s /\ s_writeOffset s' = s_writeOffset s /\ s_frameQueue s' = s_frameQueue s /\
  (s_dataForWriting s' = s_dataForWriting s \/
   exists p, s_finishedWriting s = false /\ s_dataForWriting s' = Some p /\ p <> [] /\ bytes_ok p /\
     s_writeOffset s + len p < 2 ^ 64) /\
  (s_finishedWriting s = true -> s_finishedWriting s' = true).
Proof.
  intros [p Hf Hd Hp Hl| |e|e].
  - unfold stream_Write. repeat case_match; simpl; split_and!; eauto; try done. right. exists p. split_and!; try done.
    intros ->. done.
  - by split_and!; auto.
  - unfold stream_Reset, maybeSendReset, setErr. repeat case_match; simpl; split_and!; auto.
  - unfold Cancel, setErr. simpl. repeat case_match; simpl; split_and!; auto.
Qed.

Lemma applied_fields s s' :
  applied s s' ->
  s_streamID s' = s_streamID s /\ s_writeOffset s' = s_writeOffset s /\ s_frameQueue s' = s_frameQueue s /\
  (sendable s -> sendable s') /\
  (s_finishedWriting s = true -> s_finishedWriting s' = true /\ s_dataForWriting s' = s_dataForWriting s).
Proof.
  induction 1 as [s|s s1 s' Hst _ (E1 & E2 & E3 & Hse & Hfin)]; [by split_and!|].
  apply app_step_fields in Hst as (F1 & F2 & F3 & Hd & Hf). rewrite E1, E2, E3, F1, F2, F3. split_and!; try done.
  - intros (Hid & Hoff & Hend & Hb & Hne). apply Hse. unfold sendable, pending in *. rewrite F1, F2.
    destruct Hd as [-> | (p & _ & -> & Hp & Hbp & Hl)]; [done|]. split_and!; try done. by intros [= ->].
  - intros H. destruct (Hfin (Hf H)) as [? ->]. split; [done|]. destruct Hd as [-> | (p & Hn & _)]; [done|congruence].
Qed.

Lemma app_step_reach s s' w W sent sigs :
  write_reach s w W sent sigs -> app_step s s' ->
  exists w' W' sigs', write_reach s' w' W' sent sigs' /\ W `prefix_of` W'.
Proof.
  intros Hr [p Hf Hd _ _| |e|e].
  - destruct (stream_Write s p) as [[s1 sg] [r|]] eqn:E; simpl.
    { assert (s1 = s) as -> by (unfold stream_Write in E; repeat case_match; congruence). by exists w, W, sigs. }
    exists (Some p), (W ++ p), (sigs ++ sg). split; [|by apply prefix_app_r].
    eapply wr_write; [|done|exact E]. destruct w as [q|]; [|done].
    assert (exists r, Write_return s q = Some r) as [r Er] by (unfold Write_return; rewrite Hd; destruct (s_err s); eauto).
    by eapply wr_return.
  - eexists w, W, _. split; [by apply wr_close|done].
  - eexists w, W, _. split; [by apply wr_reset|done].
  - eexists w, W, _. split; [by apply wr_cancel|done].
Qed.

Lemma applied_reach s s' w W sent sigs :
  applied s s' -> write_reach s w W sent sigs ->
  exists w' W' sigs', write_reach s' w' W' sent sigs' /\ W `prefix_of` W'.
Proof.
  intros Ha. revert w W sigs. induction Ha as [s|s s1 s' Hst _ IH]; intros w W sigs Hr; [by exists w, W, sigs|].
  destruct (app_step_reach _ _ _ _ _ _ Hr Hst) as (w1 & W1 & sigs1 & Hr1 & Hp1).
  destruct (IH _ _ _ Hr1) as (w2 & W2 & sigs2 & Hr2 & Hp2). exists w2, W2, sigs2. split; [done|]. by etrans.
Qed.

Section taking.
Context (app : appSteps) (Happ : app_ok app).

(** What a call of the callback does to a stream: only the application changes it, or the
    framer takes a frame *)
Definition popped (s s' : stream) (fs : list StreamFrame) : Prop :=
  (applied s s' /\ fs = []) \/ (exists n f, 0 < n /\ takeFrame app (app_turn app s) n = (s', Some f) /\ fs = [f]).

Lemma getDataForWriting_spec s n s' o :
  sendable s -> 0 < n -> getDataForWriting s n = (s', o) ->
  sendable s' /\ s_streamID s' = s_streamID s /\
  match o with
  | None => s' = s
  | Some d =>
      bytes_ok d /\ 0 < len d <= n /\ s_writeOffset s' = s_writeOffset s + len d /\
      s_writeOffset s + len d < 2 ^ 64 /\ lenOfDataForWriting s <> 0
  end.
Proof.
  intros (Hid & Hoff & Hend & Hb & Hne) Hn. unfold getDataForWriting, pending in *.
  destruct (s_err s) as [e|] eqn:Ee; [intros [= <- <-]; by split_and!|].
  destruct (s_dataForWriting s) as [d|] eqn:Ed; simpl in Hend, Hb.
  2: { intros [= <- <-]. unfold sendable, pending. rewrite Ed. by split_and!. }
  assert (0 < len d) as Hd0.
  { destruct d; [done|]. rewrite len_cons. pose proof (len_nonneg d). lia. }
  set (taken := if len d >? n then (take (Z.to_nat n) d, Some (drop (Z.to_nat n) d)) else (d, None)).
  assert (exists ret rest, taken = (ret, rest) /\ d = ret ++ default [] rest /\ 0 < len ret <= n /\ rest <> Some [])
    as (ret & rest & -> & Edata & Hret & Hrest).
  { subst taken. case_if; eexists _, _; (split; [reflexivity|]); simpl.
    - split_and!; [by rewrite take_drop|rewrite len_take; lia|rewrite len_take; lia|].
      intros [= E]. apply (f_equal len) in E. rewrite len_drop in E by lia. unfold len in E at 2. simpl in E. lia.
    - split_and!; [by rewrite app_nil_r|lia|lia|done]. }
  assert (lenOfDataForWriting s <> 0) as Hlen by (unfold lenOfDataForWriting; rewrite Ee, Ed; lia).
  subst d. rewrite len_app in Hend, Hd0. apply Forall_app in Hb as [Hb1 Hb2].
  pose proof (len_nonneg (default [] rest)). rewrite u64_small by (unfold_width; lia). intros [= <- <-].
  unfold sendable, pending. simpl. split_and!; (done || lia).
Qed.

Lemma takeFrame_spec s n s' o :
  sendable s -> 0 < n -> takeFrame app s n = (s', o) ->
  sendable s' /\ s_streamID s' = s_streamID s /\ s_frameQueue s' = s_frameQueue s /\
  match o with
  | None => applied s s'
  | Some f =>
      StreamFrame_wf f /\ sf_DataLenPresent f = true /\ sf_StreamID f = s_streamID s /\
      sf_Offset f = s_writeOffset s /\ StreamFrame_DataLen f <= n /\
      (lenOfDataForWriting (app_length app s) = 0 -> StreamFrame_DataLen f = 0)
  end.
Proof.
  intros Hs Hn. unfold takeFrame. destruct (Happ s) as (_ & Ha1 & _).
  destruct (applied_fields _ _ Ha1) as (E1 & E2 & E3 & Hs1 & _). specialize (Hs1 Hs).
  destruct (getDataForWriting (app_length app s) n) as [s1 data] eqn:Eg.
  destruct (getDataForWriting_spec _ _ _ _ Hs1 Hn Eg) as (Hs2 & E4 & Hdata).
  assert (s_frameQueue s1 = s_frameQueue s) as E5
    by (rewrite <- E3; unfold getDataForWriting in Eg; repeat case_match; by simplify_eq/=).
  destruct (Happ s1) as (_ & _ & Ha2 & _). destruct (applied_fields _ _ Ha2) as (F1 & F2 & F3 & Hs3 & _). specialize (Hs3 Hs2).
  set (s2 := app_data app s1) in *. destruct (Happ s2) as (_ & _ & _ & Ha3).
  destruct (applied_fields _ _ Ha3) as (G1 & G2 & G3 & Hs4 & _). specialize (Hs4 Hs3).
  set (t := if shouldSendFin s2 then sentFin (app_fin app s2) else s2).
  assert (sendable t /\ s_streamID t = s_streamID s /\ s_frameQueue t = s_frameQueue s) as (T1 & T2 & T3).
  { subst t. destruct (shouldSendFin s2); simpl; split_and!; congruence || done. }
  assert (data = None /\ shouldSendFin s2 = false \/ (data <> None \/ shouldSendFin s2 = true)) as Hcase
    by (destruct data, (shouldSendFin s2); auto).
  destruct Hcase as [[-> Ef]|Hcase].
  { rewrite Ef. intros [= <- <-]. subst t. rewrite Ef in T1, T2, T3. split_and!; [done..|].
    etrans; [exact Ha1|]. by rewrite <- Hdata. }
  intros E. assert (s' = t /\ o = Some (mkStreamFrame (s_streamID s2) (shouldSendFin s2) true (s_writeOffset s) (default [] data)))
    as [-> ->] by (destruct data; [by injection E as <- <-|]; destruct (shouldSendFin s2); [by injection E as <- <-|by destruct Hcase]).
  do 3 (split; [done|]). destruct Hs as (Hid & Hoff & Hend & _). pose proof (len_nonneg (pending s)).
  unfold StreamFrame_wf, StreamFrame_DataLen. simpl. rewrite F1, E4, E1. destruct data as [d|]; simpl.
  - destruct Hdata as (Hb & Hl & _ & Hlt & Hne). rewrite E2 in Hlt. split_and!; try done; [unfold is_u64; lia| |lia].
    left. intros ->. unfold len in Hl. simpl in Hl. lia.
  - destruct Hcase as [?| -> ]; [done|]. unfold is_u64, len. simpl. split_and!; try done; try lia; first [by constructor|by right].
Qed.

(** The frames that are taken from a stream are the next bytes that the application has
    written. *)
Lemma takeFrame_reach s n s' f w W sent sigs :
  write_reach s w W sent sigs -> 0 <= n -> takeFrame app s n = (s', Some f) ->
  exists w' W' sigs', write_reach s' w' W' (sent ++ sf_Data f) sigs' /\ W `prefix_of` W' /\ sf_Offset f = u64 (len sent).
Proof.
  intros Hr Hn Htake. pose proof (wo_offset _ _ _ _ _ (write_reach_ok _ _ _ _ _ Hr)) as Hoff.
  unfold takeFrame in Htake. destruct (Happ s) as (_ & Ha1 & _).
  destruct (applied_reach _ _ _ _ _ _ Ha1 Hr) as (w1 & W1 & sigs1 & Hr1 & Hp1).
  destruct (getDataForWriting (app_length app s) n) as [s1 data] eqn:Eg.
  assert (write_reach s1 w1 W1 (sent ++ default [] data) sigs1) as Hr2.
  { destruct data as [d|]; [by eapply wr_send|]. simpl. rewrite app_nil_r.
    unfold getDataForWriting in Eg. repeat case_match; simplify_eq; done. }
  destruct (Happ s1) as (_ & _ & Ha2 & _). destruct (applied_reach _ _ _ _ _ _ Ha2 Hr2) as (w2 & W2 & sigs2 & Hr3 & Hp2).
  set (s2 := app_data app s1) in *. destruct (Happ s2) as (_ & _ & _ & Ha3).
  destruct (applied_reach _ _ _ _ _ _ Ha3 Hr3) as (w3 & W3 & sigs3 & Hr4 & Hp3).
  assert (shouldSendFin s2 = true -> write_reach (sentFin (app_fin app s2)) w3 W3 (sent ++ default [] data) sigs3) as Hfin.
  { unfold shouldSendFin. rewrite !andb_true_iff, !bool_decide_eq_true. intros [[[Hf _] _] Hd].
    destruct (applied_fields _ _ Ha3) as (_ & _ & _ & _ & Hk). destruct (Hk Hf) as [Hf' Hd']. apply wr_fin; [done|done|congruence]. }
  assert (W `prefix_of` W2) by by etrans. assert (W `prefix_of` W3) by by etrans.
  destruct (shouldSendFin s2) eqn:Ef, data as [d|]; simplify_eq/=.
  - exists w3, W3, sigs3. by split_and!; [apply Hfin|..].
  - exists w3, W3, sigs3. by split_and!; [apply Hfin|..].
  - exists w2, W2, sigs2. by split_and!.
Qed.
End taking.

(** ** A round of the framer *)

Section round.
Context {F : Type} {sends_ok : F -> Prop} `{HF : FlowControlLaws F sends_ok} (app : appSteps).
Context (Happ : app_ok app).
Abbreviation smap := (streamsMap (S := stream)).

(** The frames of one stream *)
Definition of_stream (id : Z) (fs : list StreamFrame) : list StreamFrame :=
  filter (fun f => sf_StreamID f = id) fs.

Record map_ok (m : smap) : Prop := {
  mo_sm : sm_ok s_streamID m;
  mo_sendable id s : sm_streams m !! id = Some s -> sendable s;
}.

(** What the two queues of the framer hold can be written. *)
Record framer_ok (f : streamFramer) : Prop := {
  fo_retransmissions : Forall StreamFrame_wf (fr_retransmissionQueue f);
  fo_blocked : Forall (fun b => is_u32 (bf_StreamID b)) (fr_blockedFrameQueue f);
}.

(** After the streams [vs] have been visited *)
Record round_ok (m0 : smap) (maxBytes : Z) (vs : list Z) (m : smap) (w : popState (F := F)) : Prop := {
  rk_streams id s0 : sm_streams m0 !! id = Some s0 ->
    exists s, sm_streams m !! id = Some s /\ sendable s /\ popped app s0 s (of_stream id (ps_res w)) /\
      (id ∉ vs -> s = s0 /\ of_stream id (ps_res w) = []);
  rk_len : ps_currentLen w = framesLen (ps_res w) /\ 0 <= framesLen (ps_res w) <= maxBytes;
  rk_wf : Forall (fun f => StreamFrame_wf f /\ sf_DataLenPresent f = true) (ps_res w);
  rk_sends : sends_ok (ps_fc w);
  rk_blocked : Forall (fun b => is_u32 (bf_StreamID b)) (ps_blocked w);
}.

Lemma takeFrame_ID s n : s_streamID (takeFrame app s n).1 = s_streamID s.
Proof.
  assert (forall s, s_streamID (app_length app s) = s_streamID s /\ s_streamID (app_data app s) = s_streamID s /\
    s_streamID (app_fin app s) = s_streamID s) as Hid.
  { intros t. destruct (Happ t) as (_ & H1 & H2 & H3).
    split_and!; [apply (applied_fields _ _ H1)|apply (applied_fields _ _ H2)|apply (applied_fields _ _ H3)]. }
  unfold takeFrame. destruct (getDataForWriting (app_length app s) n) as [s1 o] eqn:Eg.
  assert (s_streamID s1 = s_streamID s) as E1.
  { rewrite <- (proj1 (Hid s)). unfold getDataForWriting in Eg. repeat (case_match; simplify_eq/=; try done). }
  destruct (Hid s1) as (_ & E2 & _), (Hid (app_data app s1)) as (_ & _ & E3).
  destruct o, (shouldSendFin _); simpl; congruence.
Qed.

Lemma popFrame_local maxBytes : local_fn s_streamID (popFrame (F := F) app maxBytes).
Proof.
  split.
  - intros m w s Hid Hs. unfold popFrame. destruct (Happ s) as (Hturn & _).
    destruct (applied_fields _ _ Hturn) as (E0 & _).
    assert (forall s', s_streamID s' = s_streamID (app_turn app s) -> only_streams s_streamID m (putBack m s')) as Hput.
    { intros s' E. rewrite E0 in E. split; [intros id|intros id x|done]; simpl; rewrite E.
      - destruct (decide (s_streamID s = id)) as [<- | Hne]; [by rewrite lookup_insert_eq, Hs|].
        by rewrite lookup_insert_ne.
      - rewrite lookup_insert_Some. intros [[<- <-]|[_ Hx]]; [done|by apply Hid]. }
    destruct (frameLimit maxBytes (m, w).2 _) as [| |n sw]; [by apply Hput..|].
    pose proof (takeFrame_ID (app_turn app s) n). by destruct (takeFrame app _ n) as [s' [f|]]; apply Hput.
  - intros st s. unfold popFrame. by repeat case_match.
  - intros m w s i. unfold popFrame. simpl. by repeat case_match.
Qed.

Lemma of_stream_snoc id fs f :
  of_stream id (fs ++ [f]) = of_stream id fs ++ (if decide (sf_StreamID f = id) then [f] else []).
Proof. unfold of_stream. rewrite filter_app, filter_cons. by case_decide. Qed.

Lemma frameLimit_spec maxBytes (w : popState (F := F)) s :
  sendable s -> 0 <= ps_currentLen w <= maxBytes -> maxBytes < 2 ^ 62 ->
  match frameLimit maxBytes w s with
  | limit n sw =>
      0 < n /\ ps_currentLen w + StreamFrame_MinLength (emptyFrame s) + n <= maxBytes /\
      (lenOfDataForWriting s <> 0 -> FlowSendWindowSize (ps_fc w) (s_streamID s) = Ok sw /\ n <= sw)
  | _ => True
  end.
Proof.
  intros (Hid & Hoff & Hend & _) Hcur Hmax. unfold frameLimit. pose proof (len_nonneg (pending s)).
  pose proof (MinLength_bounds (emptyFrame s) Hid ltac:(unfold is_u64; simpl; lia)) as Hml.
  rewrite (u64_small (ps_currentLen w + _)) by (unfold_width; lia).
  destruct (_ >? maxBytes) eqn:Efull; [done|].
  rewrite u64_small by (unfold_width; lia).
  destruct (lenOfDataForWriting s =? 0) eqn:El; cbn [negb].
  - case_if; [done|]. split_and!; lia.
  - rewrite MinByteCount_min. destruct (FlowSendWindowSize (ps_fc w) (s_streamID s)) as [x|e|] eqn:Ew.
    + pose proof (flow_window _ _ _ Ew). case_if; [done|]. split_and!; [lia|lia|]. split; [done|lia].
    + by rewrite Z.min_r by lia.
    + by rewrite Z.min_r by lia.
Qed.

Context (Hkeep : sends_kept sends_ok app).

(** A stream whose frame has been taken *)
Lemma round_add m0 maxBytes vs m w s0 s s' f n sw :
  round_ok m0 maxBytes vs m w -> s_streamID s ∉ vs -> sm_streams m0 !! s_streamID s = Some s0 -> s = app_turn app s0 ->
  sendable s -> 0 < n -> takeFrame app s n = (s', Some f) -> maxBytes < 2 ^ 62 ->
  ps_currentLen w + StreamFrame_MinLength (emptyFrame s) + n <= maxBytes ->
  (lenOfDataForWriting s <> 0 -> FlowSendWindowSize (ps_fc w) (s_streamID s) = Ok sw /\ n <= sw) ->
  round_ok m0 maxBytes (s_streamID s :: vs) (putBack m s') (addFrame maxBytes sw w f).
Proof.
  intros [H1 [H2 H3] H4 H5 H6] Hnv Hs Eturn Hsend Hn Et Hmax Hroom Hwin.
  destruct (takeFrame_spec app Happ s n s' _ Hsend Hn Et) as (Hsend' & Eid & _ & Hwf & Hp & Efid & Efo & Hlen & Hz).
  assert (frameLen f = StreamFrame_MinLength (emptyFrame s) + StreamFrame_DataLen f) as Efl.
  { unfold frameLen, StreamFrame_MinLength, calculateStreamIDLength, getOffsetLength. simpl.
    by rewrite Efid, Efo, Hp. }
  pose proof (len_nonneg (sf_Data f)) as Hlf. change (len (sf_Data f)) with (StreamFrame_DataLen f) in Hlf.
  pose proof (frameLen_nonneg f Hwf).
  assert (framesLen (ps_res w ++ [f]) = framesLen (ps_res w) + frameLen f) as Esum
    by (rewrite framesLen_app; unfold framesLen; simpl; lia).
  constructor; cbn [addFrame ps_res ps_currentLen ps_fc ps_blocked putBack sm_set_streams sm_streams].
  - intros id s1 Hs1. destruct (H1 id s1 Hs1) as (s2 & Hs2 & Hsend2 & Hpop & Hv). rewrite of_stream_snoc, Efid, Eid.
    destruct (decide (s_streamID s = id)) as [<- | Hne].
    + exists s'. assert (s1 = s0) as -> by congruence. destruct (Hv Hnv) as [_ ->].
      rewrite lookup_insert_eq. split_and!; [done|done| |set_solver]. right. exists n, f. by rewrite <- Eturn.
    + exists s2. rewrite lookup_insert_ne, app_nil_r by done. split_and!; [done|done|done|].
      intros Hin. apply Hv. set_solver.
  - fold (frameLen f). rewrite H2, Esum, u64_small by (unfold_width; lia). split; [done|lia].
  - apply Forall_app. by split; [|constructor].
  - rewrite Efid. change (len (sf_Data f)) with (StreamFrame_DataLen f).
    destruct Hkeep as [Hq|Hq]; [|by apply Hq]. destruct (decide (lenOfDataForWriting s = 0)) as [E0|E0].
    + rewrite (Hz (Hq s E0)). by apply flow_sent_nothing.
    + destruct (Hwin E0) as [Hw Hle]. eapply flow_sent; [done|done|lia].
  - destruct Hsend as (Hid & _).
    repeat case_if; try done; (apply Forall_app; split; [done|]); repeat constructor; simpl; rewrite ?Efid;
      unfold is_u32 in *; lia.
Qed.

(** A stream that only the application has changed *)
Lemma round_turn m0 maxBytes vs m w s0 s :
  round_ok m0 maxBytes vs m w -> s_streamID s ∉ vs -> sm_streams m0 !! s_streamID s = Some s0 -> applied s0 s ->
  round_ok m0 maxBytes (s_streamID s :: vs) (putBack m s) w.
Proof.
  intros [H1 H2 H4 H5 H6] Hnv Hs Ha. constructor; [|done..].
  intros id s1 Hs1. destruct (H1 id s1 Hs1) as (s2 & Hs2 & Hsend & Hpop & Hv). simpl.
  destruct (decide (s_streamID s = id)) as [<- | Hne].
  - assert (s1 = s0) as -> by congruence. destruct (Hv Hnv) as [-> Hnil]. exists s. rewrite lookup_insert_eq.
    destruct (applied_fields _ _ Ha) as (_ & _ & _ & Hse & _). split_and!; [done|by apply Hse|by left|set_solver].
  - exists s2. rewrite lookup_insert_ne by done. split_and!; [done|done|done|]. intros Hin. apply Hv. set_solver.
Qed.

Lemma popFrame_round m0 maxBytes vs m w s :
  maxBytes < 2 ^ 62 -> round_ok m0 maxBytes vs m w -> s_streamID s ∉ vs ->
  sm_streams m0 !! s_streamID s = Some s ->
  round_ok m0 maxBytes (s_streamID s :: vs) (popFrame app maxBytes (m, w) s).1.1 (popFrame app maxBytes (m, w) s).1.2.
Proof.
  intros Hmax Hr Hnv Hs. pose proof Hr as [H1 [H2 H3] H4 H5 H6].
  destruct (H1 _ _ Hs) as (s1 & Hs1 & Hsend & _ & Hv). destruct (Hv Hnv) as [-> _]. clear Hv.
  destruct (Happ s) as (Hturn & _). destruct (applied_fields _ _ Hturn) as (E & _ & _ & Hse & _).
  specialize (Hse Hsend). unfold popFrame. cbn [fst snd]. rewrite <- E in Hnv, Hs |- *.
  set (t := app_turn app s) in *.
  pose proof (frameLimit_spec maxBytes w t Hse ltac:(lia) Hmax) as Hlim.
  destruct (frameLimit maxBytes w t) as [| |n sw]; [by eapply round_turn..|]. destruct Hlim as (Hn & Hroom & Hwin).
  destruct (takeFrame app t n) as [s' [f|]] eqn:Et; cbn [fst snd]; [by eapply round_add|].
  destruct (takeFrame_spec app Happ t n s' None Hse Hn Et) as (_ & E' & _ & Ha). rewrite <- E' in Hnv, Hs |- *.
  eapply round_turn; [done..|]. by etrans.
Qed.

Lemma visit_round m0 maxBytes ids vs m w :
  sm_ok s_streamID m0 -> maxBytes < 2 ^ 62 -> round_ok m0 maxBytes vs m w -> NoDup (vs ++ ids) ->
  only_streams s_streamID m0 m ->
  exists vs', round_ok m0 maxBytes vs' (visit ids (m, w) (popFrame app maxBytes)).1.1
                (visit ids (m, w) (popFrame app maxBytes)).1.2.
Proof.
  intros Hok Hmax. revert vs m w; induction ids as [|id ids IH]; intros vs m w Hr Hnd Hos; [by exists vs|].
  cbn [visit fst]. destruct (sm_streams m !! id) as [s|] eqn:Hs.
  2: { apply (IH vs); [done| |done]. apply NoDup_app in Hnd as (? & Hd & [_ ?]%NoDup_cons).
    apply NoDup_app. split_and!; [done| |done]. intros x Hx Hin. apply (Hd x Hx). by right. }
  destruct (proj1 (os_dom _ _ _ Hos id)) as [s0 Hs0]; [by eexists|].
  assert (id ∉ vs) as Hnv by (apply NoDup_app in Hnd as (_ & Hd & _); set_solver).
  destruct (rk_streams _ _ _ _ _ Hr id s0 Hs0) as (s1 & Hs1 & _ & _ & Hv).
  destruct (Hv Hnv) as [-> _]. assert (s0 = s) as -> by congruence.
  assert (s_streamID s = id) as <- by (by eapply ok_id).
  pose proof (popFrame_round m0 maxBytes vs m w s Hmax Hr Hnv Hs0) as Hr'.
  pose proof (lf_streams _ _ (popFrame_local maxBytes) m w s (os_id _ _ _ Hos) Hs) as Hos'.
  destruct (popFrame app maxBytes (m, w) s) as [[m1 w1] [[|] e]]; cbn [fst snd] in *; [|by eauto].
  destruct (IH (s_streamID s :: vs) m1 w1) as [vs' Hvs'];
    [done| |by eapply only_streams_trans|].
  - eapply NoDup_Permutation_proper; [|exact Hnd]. simpl. by rewrite Permutation_middle.
  - exists vs'. by destruct (visit ids (m1, w1) (popFrame app maxBytes)) as [[m2 w2] v].
Qed.

Lemma roundOrder_NoDup (m : smap) : sm_ok s_streamID m -> NoDup (roundOrder m).
Proof.
  intros Hok. unfold roundOrder, rotate. set (k := Z.to_nat _). set (l := sm_openStreams m).
  assert (NoDup (drop k l ++ take k l)) as Hnd.
  { eapply NoDup_Permutation_proper; [|apply (ok_nodup _ _ Hok)]. fold l.
    by rewrite Permutation_app_comm, take_drop. }
  apply NoDup_app. split_and!.
  - repeat constructor; set_solver.
  - intros id Hid [Hp _]%list_elem_of_filter.
    rewrite !elem_of_cons, elem_of_nil in Hid. by destruct Hid as [->|[->|[]]].
  - by apply NoDup_filter.
Qed.

(** [maybePopNormalFrames] *)
Lemma maybePopNormalFrames_spec m fc blocked maxBytes :
  map_ok m -> sends_ok fc -> Forall (fun b => is_u32 (bf_StreamID b)) blocked ->
  len (sm_openStreams m) <= 2 ^ 31 -> 0 <= maxBytes < 2 ^ 62 ->
  let '(m', w) := maybePopNormalFrames app m fc blocked maxBytes in
  map_ok m' /\ sm_openStreams m' = sm_openStreams m /\ exists vs, round_ok m maxBytes vs m' w.
Proof.
  intros [Hok Hsend] Hfc Hb Hn Hmax. unfold maybePopNormalFrames. set (w0 := mkPopState fc blocked [] 0).
  pose proof (RoundRobinIterate_visit s_streamID (popFrame app maxBytes) m w0 (popFrame_local maxBytes) Hok Hn) as Hv.
  destruct (visit_round m maxBytes (roundOrder m) [] m w0) as [vs Hvs]; [done|lia| | | |].
  { constructor; [|simpl; lia|constructor|done|done]. intros id s Hs. exists s. unfold of_stream, popped.
    simpl. split_and!; eauto. by left. }
  { by apply roundOrder_NoDup. }
  { apply only_streams_refl, Hok. }
  pose proof (RoundRobinIterate_ok s_streamID (popFrame app maxBytes) m w0 (popFrame_local maxBytes) Hok Hn) as Hok'.
  pose proof (visit_only_streams s_streamID _ (popFrame_local maxBytes) (roundOrder m) m w0 (ok_id _ _ Hok)) as Hos.
  destruct (visit (roundOrder m) (m, w0) (popFrame app maxBytes)) as [[m1 w1] v] eqn:E.
  rewrite Hv in *. cbn [fst snd] in *. split_and!.
  - split; [done|]. intros id s Hs. destruct (proj1 (os_dom _ _ _ Hos id)) as [s0 Hs0]; [by eexists|].
    destruct (rk_streams _ _ _ _ _ Hvs id s0 Hs0) as (s' & Hs' & Hsend' & _). simpl in Hs. congruence.
  - simpl. by rewrite (os_rest _ _ _ Hos).
  - exists vs. destruct Hvs. by constructor.
Qed.

(** What [PopStreamFrames] does *)
Record pop_spec (f : streamFramer) (m : smap) (maxLen : Z) (f' : streamFramer) (m' : smap) (fc' : F)
    (fs : list StreamFrame) : Prop := {
  pp_map : map_ok m' /\ sm_openStreams m' = sm_openStreams m;
  pp_sends : sends_ok fc';
  pp_queue : framer_ok f';
  pp_len : 0 <= framesLen fs <= maxLen;
  pp_wf : Forall (fun f => StreamFrame_wf f /\ sf_DataLenPresent f = true) fs;
  pp_frames : exists again new, fs = again ++ new /\
    framesBytes (fr_retransmissionQueue f) = framesBytes again ++ framesBytes (fr_retransmissionQueue f') /\
    forall id s, sm_streams m !! id = Some s ->
      exists s', sm_streams m' !! id = Some s' /\ popped app s s' (of_stream id new);
}.

Lemma framesLen_nonneg fs :
  Forall (fun f => StreamFrame_wf f /\ sf_DataLenPresent f = true) fs -> 0 <= framesLen fs.
Proof. induction 1 as [|g l [Hg _] _ IH]; [done|]. pose proof (frameLen_nonneg g Hg). simpl. lia. Qed.

Lemma PopStreamFrames_spec f m fc maxLen f' m' fc' fs :
  map_ok m -> sends_ok fc -> framer_ok f ->
  len (sm_openStreams m) <= 2 ^ 31 -> 0 <= maxLen < 2 ^ 62 ->
  PopStreamFrames app f m fc maxLen = (f', m', fc', fs) -> pop_spec f m maxLen f' m' fc' fs.
Proof.
  intros Hm Hfc [Hq Hb] Hn Hmax. unfold PopStreamFrames, maybePopFramesForRetransmission.
  destruct (popRetransmissions (fr_retransmissionQueue f) maxLen 0 []) as [[queue again] cur] eqn:Er.
  apply popRetransmissions_spec in Er as (again' & -> & -> & Hle & Hbytes & Hagain & Hq'); [|done|lia|lia].
  pose proof (framesLen_nonneg again' Hagain). rewrite u64_small by (unfold_width; lia).
  pose proof (maybePopNormalFrames_spec m fc (fr_blockedFrameQueue f) (maxLen - (0 + framesLen again'))
    Hm Hfc Hb Hn ltac:(lia)) as Hnorm. cbn [fr_blockedFrameQueue].
  destruct (maybePopNormalFrames _ _ _ _ _) as [m1 w]. destruct Hnorm as (? & ? & vs & [H1 [H2 H3] H4 H5 H6]).
  intros [= <- <- <- <-].
  constructor; simpl; [done|done|by split|rewrite framesLen_app; lia|by apply Forall_app|].
  exists again', (ps_res w). split_and!; [done|done|]. intros id s Hs.
  destruct (H1 id s Hs) as (s' & ? & _ & ? & _). eauto.
Qed.

End round.

(** Every manager satisfies the laws for the invariant that says nothing. *)
Lemma FlowControlLaws_True {F} `{FlowControlLaws F sends_ok} : FlowControlLaws F (fun _ => True).
Proof. split; [apply (flow_window (sends_ok := sends_ok))|done..]. Qed.

(** C12: whatever the application does to the streams while the framer works, what the framer
    hands out for a packet fits into it, and every frame can be written.  The frames for
    retransmission and those that are left in the queue carry exactly the bytes that were
    queued, in order, and the new frames carry the next bytes that the application has
    written to each stream, at most one frame for each.  No window of flow control is
    exceeded if nothing is written to an idle stream between the two looks at it. *)
Theorem pop_stream_frames_sound {F} `{FlowControlLaws F sends_ok} app f (m : streamsMap (S := stream)) fc maxLen
    f' m' fc' fs :
  app_ok app -> map_ok m -> sends_ok fc -> framer_ok f ->
  len (sm_openStreams m) <= 2 ^ 31 -> 0 <= maxLen < 2 ^ 62 ->
  PopStreamFrames app f m fc maxLen = (f', m', fc', fs) ->
  framesLen fs <= maxLen /\ Forall (fun f => StreamFrame_wf f /\ sf_DataLenPresent f = true) fs /\
  (app_quiet app -> sends_ok fc') /\
  exists again new, fs = again ++ new /\
    framesBytes (fr_retransmissionQueue f) = framesBytes again ++ framesBytes (fr_retransmissionQueue f') /\
    forall id s w W sent sigs,
      sm_streams m !! id = Some s -> write_reach s w W sent sigs ->
      exists s' w' W' sigs' d, sm_streams m' !! id = Some s' /\
        write_reach s' w' W' (sent ++ d) sigs' /\ W `prefix_of` W' /\
        (of_stream id new = [] /\ d = [] \/
         exists g, of_stream id new = [g] /\ sf_Data g = d /\ sf_Offset g = u64 (len sent)).
Proof.
  intros Happ Hm Hfc Hq Hn Hmax Hpop. pose proof FlowControlLaws_True as Hlaws.
  assert (app_quiet app -> sends_ok fc') as Hquiet.
  { intros Hk. by destruct (PopStreamFrames_spec (sends_ok := sends_ok) app Happ (or_introl Hk) f m fc maxLen f' m' fc' fs). }
  destruct (PopStreamFrames_spec (sends_ok := fun _ => True) app Happ (or_intror (fun _ _ _ _ => I))
    f m fc maxLen f' m' fc' fs) as [_ _ _ [_ ?] ? (again & new & -> & ? & Hnew)]; [done..|].
  split_and!; [done..|]. exists again, new. split_and!; [done|done|].
  intros id s w W sent sigs Hs Hr. destruct (Hnew id s Hs) as (s' & Hs' & [[Ha ->]|(n & g & Hn0 & Ht & ->)]).
  - destruct (applied_reach _ _ _ _ _ _ Ha Hr) as (w' & W' & sigs' & Hr' & Hp).
    exists s', w', W', sigs', []. rewrite app_nil_r. split_and!; auto.
  - destruct (Happ s) as (Ha & _). destruct (applied_reach _ _ _ _ _ _ Ha Hr) as (w1 & W1 & sigs1 & Hr1 & Hp1).
    destruct (takeFrame_reach app Happ _ n s' g w1 W1 sent sigs1 Hr1 ltac:(lia) Ht) as (w' & W' & sigs' & Hr' & Hp & Ho).
    exists s', w', W', sigs', (sf_Data g). split_and!; [done|done|by etrans|]. right. by exists g.
Qed.

(** ** Deviation *)

(** The application writes [p] to idle streams when the length of their data has been looked
    up. *)
Definition lateWrite (p : list Z) : appSteps :=
  mkAppSteps id (fun s => (stream_Write s p).1.1) id id.

(** The send window is only looked up for a stream that has data.  When the application
    writes to an idle stream between this check and the taking of the data, what it writes
    is taken whatever the windows are, here even if they are closed. *)
Theorem write_during_pop_ignores_window {F} `{FlowControlManager F} maxBytes m (w : popState (F := F)) s p :
  sendable s -> s_dataForWriting s = None -> s_err s = None -> s_resetLocally s = false ->
  s_finishedWriting s = false -> p <> [] -> FlowSendWindowSize (ps_fc w) (s_streamID s) = Ok 0 ->
  0 <= ps_currentLen w -> ps_currentLen w + 15 + len p <= maxBytes < 2 ^ 62 ->
  exists f, ps_res (popFrame (lateWrite p) maxBytes (m, w) s).1.2 = ps_res w ++ [f] /\ sf_Data f = p.
Proof.
  intros (Hid & Hoff & Hend & _) Hd He Hr Hfw Hp _ Hcur Hroom. pose proof (len_nonneg (pending s)).
  assert (0 < len p) by (destruct p; [done|]; rewrite len_cons; pose proof (len_nonneg p); lia).
  pose proof (MinLength_bounds (emptyFrame s) Hid ltac:(unfold is_u64; simpl; lia)) as Hml.
  unfold popFrame, frameLimit, lenOfDataForWriting. cbn [lateWrite app_turn id fst snd]. rewrite Hd, He. cbn [Z.eqb negb].
  rewrite !u64_small by (unfold_width; lia).
  rewrite Z.gtb_ltb, (proj2 (Z.ltb_ge _ _)), (proj2 (Z.eqb_neq _ 0)) by lia.
  assert ((stream_Write s p).1.1 = s_set_write s (s_writeOffset s) (Some p)) as Ew
    by (unfold stream_Write; rewrite Hr, He, (proj2 (Z.eqb_neq (len p) 0)) by lia; done).
  unfold takeFrame, getDataForWriting. cbn [lateWrite app_length app_data app_fin].
  rewrite Ew. cbn [s_set_write s_err s_dataForWriting]. rewrite He.
  rewrite Z.gtb_ltb, (proj2 (Z.ltb_ge _ _)) by lia. unfold shouldSendFin. simpl. rewrite Hfw.
  eexists. by split; [reflexivity|].
Qed.

(** ** A server with one stream that has data, and a frame that waits for retransmission *)

Definition sampleMap : streamsMap (S := stream) :=
  (SM_GetOrOpenStream s_streamID (fun w id => (w, Ok (newStream id))) sampleParams
     (newStreamsMap PerspectiveServer) tt 5).1.1.
Definition sampleMapWriting : streamsMap (S := stream) := putBack sampleMap sampleWriter.
Definition sampleLost : StreamFrame := mkStreamFrame 3 true false 100 [7; 8; 9].
Definition sampleFramer : streamFramer := AddFrameForRetransmission newStreamFramer sampleLost.

Lemma sampleFlow0_within : within_windows sampleParams sampleFlow0.
Proof.
  pose proof sampleParams_ok. by apply fcm_NewStream_within, NewFlowControlManager_within.
Qed.

Lemma sampleMapWriting_streams :
  sm_streams sampleMapWriting = <[5 := sampleWriter]> (<[3 := newStream 3]> {[1 := newStream 1]}).
Proof. vm_compute. reflexivity. Qed.

Lemma newStream_sendable id : is_u32 id -> sendable (newStream id).
Proof. intros Hid. unfold sendable, pending, len. simpl. split_and!; try done. constructor. Qed.

Lemma sampleMapWriting_ok : map_ok sampleMapWriting.
Proof.
  split.
  - apply (only_streams_ok _ sampleMap).
    + split; [|intros id s|done].
      * intros id. unfold sampleMapWriting. simpl. rewrite lookup_insert_is_Some'.
        split; [intros [<- | ?]; [vm_compute; eauto|done]|by right].
      * rewrite sampleMapWriting_streams, !lookup_insert_Some, lookup_singleton_Some.
        intros [[<- <-]|[_ [[<- <-]|[_ [<- <-]]]]]; done.
    + apply (sm_reach_ok s_streamID (fun (w : unit) id => (w, Ok (newStream id)))
               ltac:(by intros ? ?) PerspectiveServer).
      destruct (SM_GetOrOpenStream s_streamID (fun (w : unit) id => (w, Ok (newStream id))) sampleParams
                  (newStreamsMap PerspectiveServer) tt 5) as [[m' w] r] eqn:E.
      unfold sampleMap. rewrite E. apply rtc_once. eapply St_GetOrOpenStream; [|exact E]. lia.
  - intros id s. rewrite sampleMapWriting_streams, !lookup_insert_Some, lookup_singleton_Some.
    intros [[<- <-]|[_ [[<- <-]|[_ [<- <-]]]]]; [|apply newStream_sendable; done..].
    unfold sendable, pending. vm_compute. split_and!; try done. repeat constructor; done.
Qed.

#[local] Existing Instance sampleMethods.
Lemma pop_stream_frames_sound_witness :
  let '(f', m', fc', fs) := PopStreamFrames noSteps sampleFramer sampleMapWriting sampleFlow0 20 in
  fs = [mkStreamFrame 3 true true 100 [7; 8; 9]; mkStreamFrame 5 false true 0 [1; 2; 3]] /\ within_windows sampleParams fc'.
Proof.
  destruct (PopStreamFrames noSteps sampleFramer sampleMapWriting sampleFlow0 20) as [[[f' m'] fc'] fs] eqn:E.
  pose proof (flowControlManager_laws sampleParams sampleParams_ok) as Hlaws.
  split; [vm_compute in E; injection E as _ _ _ <-; reflexivity|].
  destruct (pop_stream_frames_sound (sends_ok := within_windows sampleParams) noSteps sampleFramer sampleMapWriting
    sampleFlow0 20 f' m' fc' fs) as (_ & _ & Hs & _); [apply noSteps_ok|apply sampleMapWriting_ok|apply sampleFlow0_within| |
    vm_compute; discriminate|lia|exact E|apply Hs, noSteps_ok].
  split; repeat constructor; done.
Defined.

(** The window of stream 5 is used up. *)
Definition sampleBlocked : popState (F := flowControlManager) :=
  mkPopState (AddBytesSent sampleFlow0 5 100000).1 [] [] 0.
Lemma write_during_pop_ignores_window_witness :
  exists f, ps_res (popFrame (lateWrite [1; 2]) 1000 (sampleMap, sampleBlocked) (newStream 5)).1.2 = [f] /\
    sf_Data f = [1; 2].
Proof.
  apply (write_during_pop_ignores_window 1000 sampleMap sampleBlocked (newStream 5) [1; 2]);
    try done. apply newStream_sendable; done.
Defined.
