(* ===== verification/PacketPacker.v ===== *)
(** * packet_packer.go: composing outgoing packets

    A packet holds the STOP_WAITING frame, then control frames from the end of their queue,
    then STREAM frames of the framer; a CONNECTION_CLOSE and a retransmission of the handshake
    are packed on their own.  Sealing is the interface [CryptoSetup], the connection
    parameters and flow control are used through theirs.  [delay] is the age of a received
    packet when its ACK is written, [rand] the random bytes of the packet number generator. *)

From S2P Require Import Prelude Protocol Qerr Wire Frames AckFrame Frame PublicHeader PacketUnpacker.
From S2P Require Import StreamFrameSorter Handshake FlowControl SentPackets PacketNumberGenerator Stream StreamsMap StreamFramer.

(** ** handshake/interface.go *)

(** [sealFunc src packetNumber associatedData]: what is written to [dst].  The methods are
    what the setup answers at one moment; the handshake that changes it runs concurrently. *)
Definition Sealer : Type := list Z -> Z -> list Z -> list Z.

Class CryptoSetup (C : Type) : Type := {
  CryptoOpen : C -> list Z -> Z -> list Z -> res (list Z * Z);
  GetSealer : C -> Z * Sealer;
  GetSealerWithEncryptionLevel : C -> Z -> res Sealer;
  DiversificationNonce : C -> list Z;
}.

(** ** The packer *)

Record packedPacket : Type := mkPackedPacket {
  pkt_number : Z;
  pkt_raw : list Z;
  pkt_frames : list Frame;
  pkt_encryptionLevel : Z;
}.

Record packetPacker : Type := mkPacketPacker {
  pk_connectionID : Z;
  pk_perspective : Perspective;
  pk_version : Z;
  pk_isForwardSecure : bool;
  pk_packetNumberGenerator : packetNumberGenerator;
  pk_controlFrames : list Frame;
}.

Definition newPacketPacker (connectionID : Z) (perspective : Perspective) (version : Z) : packetPacker :=
  mkPacketPacker connectionID perspective version false
    (newPacketNumberGenerator SkipPacketAveragePeriodLength) [].

Definition pk_set_control (p : packetPacker) (fs : list Frame) : packetPacker :=
  mkPacketPacker (pk_connectionID p) (pk_perspective p) (pk_version p) (pk_isForwardSecure p)
    (pk_packetNumberGenerator p) fs.
Definition pk_set_generator (p : packetPacker) (g : packetNumberGenerator) : packetPacker :=
  mkPacketPacker (pk_connectionID p) (pk_perspective p) (pk_version p) (pk_isForwardSecure p)
    g (pk_controlFrames p).

Definition QueueControlFrameForNextPacket (p : packetPacker) (f : Frame) : packetPacker :=
  pk_set_control p (pk_controlFrames p ++ [f]).

Definition SetForwardSecure (p : packetPacker) : packetPacker :=
  mkPacketPacker (pk_connectionID p) (pk_perspective p) (pk_version p) true
    (pk_packetNumberGenerator p) (pk_controlFrames p).

(** The loop that takes control frames from the end of the queue, with the queue reversed:
    the frames taken, their length, and the rest of the queue.  An error of [MinLength] is
    dropped. *)
Fixpoint takeControlFrames (queue : list Frame) (payloadLength maxFrameSize : Z) (fs : list Frame)
    : list Frame * Z * list Frame :=
  match queue with
  | [] => (fs, payloadLength, [])
  | frame :: queue =>
      let minLength := match Frame_MinLength frame with Ok l => l | _ => 0 end in
      if u64 (payloadLength + minLength) >? maxFrameSize then (fs, payloadLength, frame :: queue)
      else takeControlFrames queue (u64 (payloadLength + minLength)) maxFrameSize (fs ++ [frame])
  end.

(** [fs[len(fs)-1].DataLenPresent = false] *)
Fixpoint omitLastDataLen (fs : list StreamFrame) : list StreamFrame :=
  match fs with
  | [] => []
  | [f] => [setDataLenPresent f false]
  | f :: fs => f :: omitLastDataLen fs
  end.

(** [for b := PopBlockedFrame(); b != nil; b = PopBlockedFrame()]; each round takes one. *)
Fixpoint popBlockedFrames (fuel : nat) (f : streamFramer) (control : list Frame)
    : streamFramer * list Frame :=
  match fuel with
  | O => (f, control)
  | S fuel =>
      match PopBlockedFrame f with
      | (f, Some b) => popBlockedFrames fuel f (control ++ [FBlocked b])
      | (f, None) => (f, control)
      end
  end.

Section packer.
Context {C A F : Type} `{CryptoSetup C} `{ConnectionParametersManager A} `{FC : FlowControlManager F} (app : appSteps).

(** What packing a packet changes *)
Record packState : Type := mkPackState {
  pst_packer : packetPacker;
  pst_framer : streamFramer;
  pst_streams : streamsMap (S := stream);
  pst_fc : F;
}.

Definition pst_set_packer (st : packState) (p : packetPacker) : packState :=
  mkPackState p (pst_framer st) (pst_streams st) (pst_fc st).

Definition composeNextPacket (st : packState) (stopWaitingFrame : option StopWaitingFrame)
    (maxFrameSize : Z) : packState * res (list Frame) :=
  let start :=
    match stopWaitingFrame with
    | Some swf =>
        let! minLength := StopWaitingFrame_MinLength swf in
        Ok ([FStopWaiting swf], minLength)
    | None => Ok ([], 0)
    end in
  match start with
  | Ok (payloadFrames, payloadLength) =>
      let p := pst_packer st in
      let '(payloadFrames, payloadLength, rest) :=
        takeControlFrames (rev (pk_controlFrames p)) payloadLength maxFrameSize payloadFrames in
      let st := pst_set_packer st (pk_set_control p (rev rest)) in
      if payloadLength >? maxFrameSize then
        (st, Err (Errorf "Packet Packer BUG: packet payload (%d) too large (%d)"
                    [payloadLength; maxFrameSize]))
      else
        let maxFrameSize := u64 (maxFrameSize + 2) in
        let '(framer, streams, fc, fs) :=
          PopStreamFrames app (pst_framer st) (pst_streams st) (pst_fc st)
            (u64 (maxFrameSize - payloadLength)) in
        let fs := omitLastDataLen fs in
        let '(framer, control) :=
          popBlockedFrames (length (fr_blockedFrameQueue framer)) framer
            (pk_controlFrames (pst_packer st)) in
        (mkPackState (pk_set_control (pst_packer st) control) framer streams fc,
         Ok (payloadFrames ++ map FStream fs))
  | Err e => (st, Err e)
  | Panic => (st, Panic)
  end.

Definition isAckOrStopWaiting (f : Frame) : bool :=
  match f with FAck _ | FStopWaiting _ => true | _ => false end.

Definition hasNonCryptoStreamData (fs : list Frame) : bool :=
  existsb (fun f => match f with FStream f => negb (sf_StreamID f =? 1) | _ => false end) fs.

(** The frames of a packet one after the other; [Write] stops at the first error. *)
Fixpoint writeFrames (fs : list Frame) (delay : Z) (b : list Z) : list Z * res unit :=
  match fs with
  | [] => (b, Ok tt)
  | f :: fs =>
      match Frame_Write f delay b with
      | (b, Ok _) => writeFrames fs delay b
      | r => r
      end
  end.

(** The choice of the sealer *)
Definition chooseSealer (crypto : C) (handshakePacketToRetransmit : option Packet) : res (Z * Sealer) :=
  match handshakePacketToRetransmit with
  | Some packet =>
      let! sealFunc := GetSealerWithEncryptionLevel crypto (p_EncryptionLevel packet) in
      Ok (p_EncryptionLevel packet, sealFunc)
  | None => Ok (GetSealer crypto)
  end.

(** The public header of the next packet *)
Definition packetHeader (p : packetPacker) (crypto : C) (cp : A) (encLevel leastUnacked : Z) : PublicHeader :=
  let currentPacketNumber := Peek (pk_packetNumberGenerator p) in
  let packetNumberLen := GetPacketNumberLengthForPublicHeader currentPacketNumber leastUnacked in
  let withVersion := is_client (pk_perspective p) && negb (encLevel =? EncryptionForwardSecure) in
  mkPublicHeader [] (pk_connectionID p) withVersion false (TruncateConnectionID cp)
    packetNumberLen currentPacketNumber (if withVersion then pk_version p else 0) []
    (if is_server (pk_perspective p) && (encLevel =? EncryptionSecure)
     then DiversificationNonce crypto else []).

(** The choice of the frames; a nil STOP_WAITING frame cannot be written. *)
Definition payloadFrames (st : packState) (swf : option StopWaitingFrame)
    (handshakePacketToRetransmit : option Packet) (publicHeaderLength : Z) : packState * res (list Frame) :=
  let p := pst_packer st in
  match handshakePacketToRetransmit with
  | Some packet =>
      match swf with
      | Some f =>
          (st, Ok (FStopWaiting f :: List.filter (fun f => negb (isAckOrStopWaiting f)) (p_Frames packet)))
      | None => (st, Panic)
      end
  | None =>
      match pk_controlFrames p with
      | [FConnectionClose f] => (st, Ok [FConnectionClose f])
      | _ =>
          let maxSize := u64 (MaxFrameAndPublicHeaderSize - publicHeaderLength) in
          let maxSize :=
            if pk_isForwardSecure p then maxSize else u64 (maxSize - NonForwardSecurePacketSizeReduction) in
          composeNextPacket st swf maxSize
      end
  end.

(** Writing and sealing; the buffer has room for the signature of 12 bytes. *)
Definition sealPacket (p : packetPacker) (hdr : PublicHeader) (fs : list Frame) (sealFunc : Sealer)
    (delay : Z) : res (list Z) :=
  match PublicHeader_Write hdr (pk_perspective p) [] with
  | (header, Ok _) =>
      match writeFrames fs delay header with
      | (buffer, Ok _) =>
          if len buffer + 12 >? MaxPacketSize then Err (ErrNew "PacketPacker BUG: packet too large")
          else
            Ok (take (Z.to_nat (len buffer + 12))
                  (header ++ sealFunc (drop (length header) buffer) (ph_PacketNumber hdr) header))
      | (_, Err e) => Err e
      | (_, Panic) => Panic
      end
  | (_, Err e) => Err e
  | (_, Panic) => Panic
  end.

Definition packPacket (st : packState) (crypto : C) (cp : A) (stopWaitingFrame : option StopWaitingFrame)
    (leastUnacked : Z) (handshakePacketToRetransmit : option Packet) (delay : Z) (rand : res (Z * Z))
    : packState * res (option packedPacket) :=
  match chooseSealer crypto handshakePacketToRetransmit with
  | Ok (encLevel, sealFunc) =>
      let hdr := packetHeader (pst_packer st) crypto cp encLevel leastUnacked in
      match GetLength hdr (pk_perspective (pst_packer st)) with
      | Ok publicHeaderLength =>
          let swf :=
            match stopWaitingFrame with
            | Some f => Some (mkStopWaitingFrame (swf_LeastUnacked f) (ph_PacketNumberLen hdr) (ph_PacketNumber hdr))
            | None => None
            end in
          match payloadFrames st swf handshakePacketToRetransmit publicHeaderLength with
          | (st, Ok fs) =>
              if len fs =? 0 then (st, Ok None)
              else if (len fs =? 1) && bool_decide (is_Some stopWaitingFrame) then (st, Ok None)
              else
                match sealPacket (pst_packer st) hdr fs sealFunc delay with
                | Ok raw =>
                    if hasNonCryptoStreamData fs && (encLevel <=? EncryptionUnencrypted)
                    then (st, Err (ErrorCodeErr AttemptToSendUnencryptedStreamData))
                    else
                      let '(g, num) := PNG_Pop (pk_packetNumberGenerator (pst_packer st)) rand in
                      let st := pst_set_packer st (pk_set_generator (pst_packer st) g) in
                      if negb (num =? ph_PacketNumber hdr)
                      then (st, Err (ErrNew "PacketPacker BUG: Peeked and Popped packet numbers do not match."))
                      else (st, Ok (Some (mkPackedPacket (ph_PacketNumber hdr) raw fs encLevel)))
                | Err e => (st, Err e)
                | Panic => (st, Panic)
                end
          | (st, Err e) => (st, Err e)
          | (st, Panic) => (st, Panic)
          end
      | Err e => (st, Err e)
      | Panic => (st, Panic)
      end
  | Err e => (st, Err e)
  | Panic => (st, Panic)
  end.

Definition PackConnectionClose (st : packState) (crypto : C) (cp : A) (ccf : ConnectionCloseFrame)
    (leastUnacked delay : Z) (rand : res (Z * Z)) : packState * res (option packedPacket) :=
  packPacket (pst_set_packer st (pk_set_control (pst_packer st) [FConnectionClose ccf]))
    crypto cp None leastUnacked None delay rand.

Definition RetransmitNonForwardSecurePacket (st : packState) (crypto : C) (cp : A)
    (stopWaitingFrame : option StopWaitingFrame) (packet : Packet) (delay : Z) (rand : res (Z * Z))
    : packState * res (option packedPacket) :=
  if p_EncryptionLevel packet =? EncryptionForwardSecure then
    (st, Err (ErrNew "PacketPacker BUG: forward-secure encrypted handshake packets don't need special treatment"))
  else
    match stopWaitingFrame with
    | None => (st, Err (ErrNew "PacketPacker BUG: Handshake retransmissions must contain a StopWaitingFrame"))
    | Some _ => packPacket st crypto cp stopWaitingFrame 0 (Some packet) delay rand
    end.

Definition PackPacket (st : packState) (crypto : C) (cp : A) (stopWaitingFrame : option StopWaitingFrame)
    (controlFrames : list Frame) (leastUnacked delay : Z) (rand : res (Z * Z))
    : packState * res (option packedPacket) :=
  packPacket (pst_set_packer st (pk_set_control (pst_packer st) (pk_controlFrames (pst_packer st) ++ controlFrames)))
    crypto cp stopWaitingFrame leastUnacked None delay rand.
End packer.

(** ** Frames on the wire *)

(** The length of a frame, with its data *)
Definition wireLen (f : Frame) : Z :=
  match Frame_MinLength f with Ok l => l | _ => 0 end
  + match f with FStream f => StreamFrame_DataLen f | _ => 0 end.

Lemma len_stream_frame_bytes f :
  StreamFrame_wf f -> len (stream_frame_bytes f) = StreamFrame_MinLength f + StreamFrame_DataLen f.
Proof.
  intros (Hid & Hoff & _). destruct (calculateStreamIDLength_fits f Hid) as [Hs _].
  destruct (getOffsetLength_fits f Hoff) as [Ho _].
  unfold stream_frame_bytes, StreamFrame_MinLength, StreamFrame_DataLen.
  rewrite len_cons, !len_app, !len_le_bytes, !Z2Nat.id by lia.
  destruct (sf_DataLenPresent f); rewrite ?len_le_bytes, ?len_nil; lia.
Qed.

(** Each [Write] only appends. *)
Ltac write_appends :=
  unfold WriteByte; autorewrite with quic_write; simpl; rewrite <- ?app_assoc; reflexivity.

(** Writing a well-formed frame appends [wireLen] bytes. *)
Lemma Frame_Write_app pn pnLen delay f b :
  Frame.frame_ok pn pnLen delay f ->
  Frame_Write f delay b = (b ++ (Frame_Write f delay []).1, Ok tt) /\
  len (Frame_Write f delay []).1 = wireLen f /\ 0 < wireLen f.
Proof.
  unfold wireLen.
  destruct f as [f|f|f|f|f|f|f|f|f|f]; cbn [Frame.frame_ok Frame_Write Frame_MinLength]; intros Hok.
  - destruct Hok as [Hwf _]. rewrite !StreamFrame_Write_spec by done. cbn [fst].
    rewrite app_nil_l, len_stream_frame_bytes by done. split_and!; [done|done|].
    pose proof (frameLen_nonneg f Hwf). unfold frameLen in *. lia.
  - destruct Hok as (Hwf & Hgap & _). rewrite !AckFrame_Write_bytes by done. cbn [fst].
    rewrite app_nil_l, len_ackFrameBytes by done. split_and!; [done|lia|].
    rewrite <- (len_ackFrameBytes f delay) by done. unfold ackFrameBytes. cbv zeta.
    rewrite len_cons. match goal with |- context [1 + len ?l] => pose proof (len_nonneg l) end. lia.
  - destruct Hok as (Hl & <- & <- & Hlu & Hpn & Hd).
    destruct (stop_waiting_roundtrip f [] Hl Hlu Hpn Hd) as (w & Ew & Em & _).
    rewrite Ew, Em. cbn [fst]. rewrite Z.add_0_r. revert Ew Em.
    unfold StopWaitingFrame_Write, StopWaitingFrame_MinLength.
    rewrite (proj2 (Z.eqb_neq _ _)), Z.gtb_ltb, (proj2 (Z.ltb_ge _ _)) by lia.
    destruct Hl as [<-|[<-|[<-|[<-|[]]]]]; calc_tests; intros [= <-] _;
      (split; [write_appends|by split]).
  - destruct Hok as (H1 & H2 & H3). split; [unfold RstStreamFrame_Write; write_appends|by split].
  - destruct Hok as (H1 & H2). pose proof (len_nonneg (ccf_ReasonPhrase f)). split.
    + unfold ConnectionCloseFrame_Write. unfold MaxPacketSize in H2.
     rewrite Z.gtb_ltb, (proj2 (Z.ltb_ge _ _)) by lia. write_appends.
    + destruct (connection_close_roundtrip f [] H1 H2) as (w & -> & Hw & _). cbn [fst].
      unfold ConnectionCloseFrame_MinLength in *. lia.
  - destruct Hok as (H1 & H2 & H3). pose proof (len_nonneg (gf_ReasonPhrase f)). split.
    + unfold GoawayFrame_Write. write_appends.
    + destruct (goaway_roundtrip f [] H1 H2 H3) as (w & -> & Hw & _). cbn [fst].
      unfold GoawayFrame_MinLength in *. lia.
  - split; [unfold WindowUpdateFrame_Write; write_appends|by split].
  - split; [unfold BlockedFrame_Write; write_appends|by split].
  - split; [unfold PingFrame_Write; write_appends|by split].
  - pose proof (len_nonneg (pf_Data f)). split.
    + unfold PLUSFeedbackFrame_Write.
      rewrite Z.gtb_ltb, (proj2 (Z.ltb_ge _ _)) by lia. write_appends.
    + destruct (plus_feedback_roundtrip f [] Hok) as (w & -> & Hw & _). cbn [fst].
      unfold PLUSFeedbackFrame_MinLength in *. lia.
Qed.

(** The bytes of the frames of a packet *)
Definition framesPayload (delay : Z) (fs : list Frame) : list Z := payload delay (map (pair 0%nat) fs) 0.
Definition framesWire (fs : list Frame) : Z := foldr (fun f n => wireLen f + n) 0 fs.

Lemma framesWire_app fs gs : framesWire (fs ++ gs) = framesWire fs + framesWire gs.
Proof. induction fs as [|f fs IH]; simpl; lia. Qed.

Lemma writeFrames_payload pn pnLen delay fs b :
  Forall (Frame.frame_ok pn pnLen delay) fs ->
  writeFrames fs delay b = (b ++ framesPayload delay fs, Ok tt) /\
  len (framesPayload delay fs) = framesWire fs /\ len fs <= framesWire fs.
Proof.
  unfold framesPayload. intros Hfs. revert b.
  induction Hfs as [|f fs Hf Hfs IH]; intros b; [by rewrite app_nil_r|].
  destruct (Frame_Write_app _ _ _ _ b Hf) as (Ew & Hl & Hpos). cbn [writeFrames map payload replicate].
  rewrite Ew. destruct (IH (b ++ (Frame_Write f delay []).1)) as (-> & Hl' & ?).
  rewrite app_nil_l, app_assoc, len_app, Hl, Hl', len_cons. simpl. split_and!; [done|lia|lia].
Qed.

(** ** Control frames *)

(** What [controlFrames] may hold: no STREAM, STOP_WAITING or CONNECTION_CLOSE frames *)
Definition control_ok (delay : Z) (f : Frame) : Prop :=
  match f with
  | FStream _ | FStopWaiting _ | FConnectionClose _ => False
  | f => Frame.frame_ok 0 0 delay f
  end.

Lemma control_frame_ok delay f pn pnLen : control_ok delay f -> Frame.frame_ok pn pnLen delay f.
Proof. by destruct f. Qed.

Lemma AckFrame_MinLength_bound f : AckFrame_wf f -> AckFrame_MinLength f <= 2000.
Proof.
  intros Hwf. unfold AckFrame_MinLength.
  pose proof (deltaLen_oneOf f) as Hd. pose proof (GetPacketNumberLength_oneOf (LargestAcked f)) as Hl.
  assert (HasMissingRanges f = true -> 0 <= numWritableNackRanges f <= 255) as Hn.
  { unfold HasMissingRanges. destruct (AckRanges f) as [|r rs] eqn:E; [done|].
    destruct (numWritable_blocks f r rs Hwf E) as (? & _ & ?). lia. }
  destruct (HasMissingRanges f); [specialize (Hn eq_refl)|].
  all: destruct Hd as [-> | [-> | [-> | ->]]]; destruct Hl as [-> | [-> | [-> | ->]]]; lia.
Qed.

(** The same without what an ACK frame needs to be written *)
Definition queueable (f : Frame) : Prop :=
  match f with
  | FStream _ | FStopWaiting _ | FConnectionClose _ => False
  | FAck f => AckFrame_wf f
  | f => Frame.frame_ok 0 0 0 f
  end.

(** What is known of the control frames: at least that they are [queueable]; the packer queues
    BLOCKED frames itself. *)
Record control_pred (Q : Frame -> Prop) : Prop := {
  cp_queueable f : Q f -> queueable f;
  cp_blocked b : is_u32 (bf_StreamID b) -> Q (FBlocked b);
}.

Lemma control_ok_pred delay : control_pred (control_ok delay).
Proof. split; [|done]. intros [] Hf; simpl in *; try done. by destruct Hf. Qed.
Lemma queueable_pred : control_pred queueable.
Proof. by split. Qed.

(** A frame of a packet: a control frame, or one that can be written *)
Definition packable (Q : Frame -> Prop) (pn pnLen delay : Z) (f : Frame) : Prop :=
  Q f \/ Frame.frame_ok pn pnLen delay f.

Lemma packable_ok pn pnLen delay fs :
  Forall (packable (control_ok delay) pn pnLen delay) fs -> Forall (Frame.frame_ok pn pnLen delay) fs.
Proof. intros Hfs. eapply Forall_impl; [exact Hfs|]. intros f [Hf|Hf]; [by apply control_frame_ok|done]. Qed.

(** Only an ACK frame may fail to be written. *)
Lemma queueable_frame_ok f pn pnLen delay :
  queueable f -> Frame.frame_ok pn pnLen delay f \/ exists a, f = FAck a /\ AckFrame_wf a.
Proof. destruct f; simpl; try done; eauto. Qed.

Lemma AckFrame_MinLength_pos f : AckFrame_wf f -> 0 < AckFrame_MinLength f.
Proof.
  intros Hwf. unfold AckFrame_MinLength.
  pose proof (deltaLen_oneOf f) as Hd. pose proof (GetPacketNumberLength_oneOf (LargestAcked f)) as Hl.
  assert (HasMissingRanges f = true -> 0 <= numWritableNackRanges f <= 255) as Hn.
  { unfold HasMissingRanges. destruct (AckRanges f) as [|r rs] eqn:E; [done|].
    destruct (numWritable_blocks f r rs Hwf E) as (? & _ & ?). lia. }
  destruct (HasMissingRanges f); [specialize (Hn eq_refl)|].
  all: destruct Hd as [-> | [-> | [-> | ->]]]; destruct Hl as [-> | [-> | [-> | ->]]]; lia.
Qed.

Lemma queueable_wireLen f :
  queueable f ->
  (match Frame_MinLength f with Ok l => l | _ => 0 end) = wireLen f /\ 0 < wireLen f < 2 ^ 32.
Proof.
  intros Hf. assert (0 < wireLen f) as Hpos.
  { destruct (queueable_frame_ok f 0 0 0 Hf) as [Hok|(a & -> & Hwf)].
    - by destruct (Frame_Write_app 0 0 0 f [] Hok) as (_ & _ & Hpos).
    - unfold wireLen. simpl. pose proof (AckFrame_MinLength_pos a Hwf). lia. }
  unfold wireLen in *. destruct f as [f|f|f|f|f|f|f|f|f|f]; cbn [Frame_MinLength queueable Frame.frame_ok] in *;
    try done; (split; [lia|]).
  - pose proof (AckFrame_MinLength_bound f Hf). lia.
  - destruct Hf as (_ & _ & ?). unfold GoawayFrame_MinLength, MaxPacketSize in *. lia.
  - unfold PLUSFeedbackFrame_MinLength in *. lia.
Qed.

(** Frames leave the end of the queue as long as they fit. *)
Lemma takeControlFrames_spec queue pl maxSize fs fs' pl' rest :
  Forall queueable queue -> 0 <= pl <= maxSize -> maxSize < 2 ^ 62 ->
  takeControlFrames queue pl maxSize fs = (fs', pl', rest) ->
  exists taken, queue = taken ++ rest /\ fs' = fs ++ taken /\ pl' = pl + framesWire taken /\
    pl <= pl' <= maxSize /\
    match rest with f :: _ => maxSize < pl' + wireLen f | [] => True end.
Proof.
  intros Hq. revert pl fs. induction Hq as [|f queue Hf Hq IH]; intros pl fs Hpl Hmax; cbn [takeControlFrames].
  { intros [= <- <- <-]. exists []. rewrite !app_nil_r. simpl. split_and!; try done; lia. }
  destruct (queueable_wireLen f Hf) as [-> Hw]. rewrite u64_small by (unfold_width; lia).
  destruct (Z.gtb_spec (pl + wireLen f) maxSize) as [Hgt|Hle]; intros E.
  { injection E as <- <- <-. exists []. rewrite !app_nil_r. simpl. split_and!; try done; lia. }
  apply IH in E as (taken & -> & -> & -> & ? & Hr); [|lia|lia].
  exists (f :: taken). rewrite <- app_assoc. simpl. split_and!; try done; lia.
Qed.

Lemma popBlockedFrames_all fuel f control :
  (length (fr_blockedFrameQueue f) <= fuel)%nat ->
  popBlockedFrames fuel f control =
  (mkStreamFramer (fr_retransmissionQueue f) [], control ++ map FBlocked (fr_blockedFrameQueue f)).
Proof.
  revert f control. induction fuel as [|fuel IH]; intros [rq bq] control; simpl; intros Hl.
  { destruct bq; [|simpl in Hl; lia]. by rewrite app_nil_r. }
  unfold PopBlockedFrame. simpl. destruct bq as [|b bq]; simpl in *; [by rewrite app_nil_r|].
  rewrite IH by (simpl; lia). simpl. by rewrite <- app_assoc.
Qed.

(** ** Stream frames *)

Lemma omitLastDataLen_spec fs :
  Forall (fun f => StreamFrame_wf f /\ sf_DataLenPresent f = true) fs -> fs <> [] ->
  exists init f, fs = init ++ [f] /\ omitLastDataLen fs = init ++ [setDataLenPresent f false].
Proof.
  induction 1 as [|f fs _ _ IH]; [done|]. intros _. destruct fs as [|g fs]; [by exists [], f|].
  destruct IH as (init & h & E & Eo); [done|]. exists (f :: init), h. split; [by rewrite E|].
  change (omitLastDataLen (f :: g :: fs)) with (f :: omitLastDataLen (g :: fs)). by rewrite Eo.
Qed.

Lemma framesWire_stream fs : framesWire (map FStream fs) = framesLen fs.
Proof. induction fs as [|f fs IH]; [done|]. simpl. rewrite IH. reflexivity. Qed.

Lemma framesLen_elem f fs :
  Forall (fun f => StreamFrame_wf f /\ sf_DataLenPresent f = true) fs -> f ∈ fs -> frameLen f <= framesLen fs.
Proof.
  intros Hfs. induction 1 as [f fs|f g fs _ IH]; apply Forall_cons in Hfs as [[Hg _] Hfs]; simpl.
  - pose proof (framesLen_nonneg fs Hfs). lia.
  - specialize (IH Hfs). pose proof (frameLen_nonneg g Hg). lia.
Qed.

Lemma stream_data_bound f : StreamFrame_wf f -> len (sf_Data f) + 2 <= frameLen f.
Proof.
  intros (Hid & Hoff & _). pose proof (MinLength_bounds f Hid Hoff). unfold frameLen, StreamFrame_DataLen. lia.
Qed.

(** Leaving out the last data length makes up for the two bytes that were added. *)
Lemma omitLastDataLen_ok pn pnLen delay fs n :
  Forall (fun f => StreamFrame_wf f /\ sf_DataLenPresent f = true) fs ->
  framesLen fs <= n + 2 -> 0 <= n <= MaxPacketSize ->
  let gs := map FStream (omitLastDataLen fs) in
  framesWire gs <= n /\ Forall (Frame.frame_ok pn pnLen delay) gs /\
  framesBytes (omitLastDataLen fs) = framesBytes fs /\
  (forall f, f ∈ removelast gs -> open_ended f = false).
Proof.
  intros Hfs Hlen Hn. cbv zeta. destruct (decide (fs = [])) as [->|Hne].
  { simpl. split_and!; [lia|done|done|]. intros f Hf. by apply elem_of_nil in Hf. }
  destruct (omitLastDataLen_spec fs Hfs Hne) as (init & f & -> & ->).
  assert (forall g, g ∈ init ++ [f] -> len (sf_Data g) <= MaxPacketSize) as Hdata.
  { intros g Hg. pose proof (framesLen_elem g _ Hfs Hg).
    pose proof (stream_data_bound g (proj1 (proj1 (Forall_forall _ _) Hfs g Hg))). lia. }
  pose proof (Hdata f ltac:(set_solver)). apply Forall_app in Hfs as [Hi Hf].
  apply Forall_cons in Hf as [[Hwf Hp] _]. rewrite map_app, framesWire_app, !framesWire_stream.
  rewrite framesLen_app in Hlen. split_and!.
  - revert Hlen. simpl. unfold frameLen, StreamFrame_MinLength, calculateStreamIDLength, getOffsetLength,
      StreamFrame_DataLen. simpl. rewrite Hp. lia.
  - apply Forall_app. split.
    + apply Forall_map. apply Forall_forall. intros g Hg. rewrite Forall_forall in Hi.
      destruct (Hi g Hg) as [? E]. simpl. rewrite E. split; [done|]. apply Hdata. set_solver.
    + constructor; [|constructor]. split; [exact Hwf|]. simpl. unfold MaxPacketSize in *. lia.
  - by rewrite !framesBytes_app.
  - simpl. rewrite removelast_last. intros g (h & -> & Hh)%list_elem_of_fmap. rewrite Forall_forall in Hi.
    simpl. by rewrite (proj2 (Hi h Hh)).
Qed.

(** ** At the peer *)

Definition inferPacketNumber (hdr : PublicHeader) (largestRcvd : Z) : PublicHeader :=
  mkPublicHeader (ph_Raw hdr) (ph_ConnectionID hdr) (ph_VersionFlag hdr) (ph_ResetFlag hdr)
    (ph_TruncateConnectionID hdr) (ph_PacketNumberLen hdr)
    (InferPacketNumber (ph_PacketNumberLen hdr) largestRcvd (ph_PacketNumber hdr))
    (ph_VersionNumber hdr) (ph_SupportedVersions hdr) (ph_DiversificationNonce hdr).

(** A datagram from its header to its frames *)
Definition receive `{quicAEAD} (sentBy : Perspective) (largestRcvd : Z) (raw : list Z) : res unpackedPacket :=
  let! (hdr, data) := ParsePublicHeader raw sentBy in
  Unpack (take (length raw - length data) raw) (inferPacketNumber hdr largestRcvd) data.

(** A sealer adds 12 bytes, and the peer opens at [level] what it has sealed. *)
Record seals (sealFunc : Sealer) (peer : quicAEAD) (level : Z) : Prop := {
  seal_len : forall src pn ad, len (sealFunc src pn ad) = len src + 12;
  seal_open : forall src pn ad, @Open peer (sealFunc src pn ad) pn ad = Ok (src, level);
}.

Lemma framesPayload_ok hdr level delay fs :
  Forall (Frame.frame_ok (ph_PacketNumber hdr) (ph_PacketNumberLen hdr) delay) fs ->
  (forall f, f ∈ removelast fs -> open_ended f = false) ->
  (hasNonCryptoStreamData fs = false \/ EncryptionUnencrypted < level) ->
  payload_ok hdr level delay (map (pair 0%nat) fs) 0.
Proof.
  intros Hfs. induction Hfs as [|f fs Hf Hfs IH]; intros Hopen Hlevel; [done|].
  cbn [map payload_ok]. split_and!; [done| | |].
  - destruct f; try done. destruct Hlevel as [Hl|]; [left|by right].
    simpl in Hl. apply orb_false_iff in Hl as [Hl _]. apply negb_false_iff, Z.eqb_eq in Hl. done.
  - intros Ho. destruct fs as [|g fs]; [done|].
    specialize (Hopen f ltac:(simpl; set_solver)). by rewrite Hopen in Ho.
  - apply IH; [|].
    + intros g Hg. apply Hopen. destruct fs; [by apply elem_of_nil in Hg|]. simpl. set_solver.
    + destruct Hlevel as [Hl|]; [left|by right]. simpl in Hl. by apply orb_false_iff in Hl as [_ Hl].
Qed.

Section sealing.
Context (p : packetPacker) (hdr : PublicHeader) (fs : list Frame) (sealFunc : Sealer) (peer : quicAEAD)
  (level delay : Z).
Hypothesis Hhdr : header_ok (pk_perspective p) hdr.
Hypothesis Hreset : ph_ResetFlag hdr = false.
Hypothesis Hfs : Forall (Frame.frame_ok (ph_PacketNumber hdr) (ph_PacketNumberLen hdr) delay) fs.
Hypothesis Hseals : seals sealFunc peer level.
Hypothesis Hsize : len (header_bytes (pk_perspective p) hdr) + framesWire fs <= MaxFrameAndPublicHeaderSize.

Let header := header_bytes (pk_perspective p) hdr.
Let raw := header ++ sealFunc (framesPayload delay fs) (ph_PacketNumber hdr) header.

Lemma sealPacket_ok :
  sealPacket p hdr fs sealFunc delay = Ok raw /\ len raw = len header + framesWire fs + 12.
Proof.
  destruct (writeFrames_payload _ _ _ fs header Hfs) as (Ew & El & _).
  assert (len raw = len header + framesWire fs + 12) as Hl.
  { unfold raw. rewrite len_app, (seal_len _ _ _ Hseals), El. lia. }
  split; [|done]. unfold sealPacket. rewrite PublicHeader_Write_bytes by done. fold header. cbn [app].
  rewrite Ew, len_app, El, Z.gtb_ltb, (proj2 (Z.ltb_ge _ _))
    by (revert Hsize; fold header; unfold MaxFrameAndPublicHeaderSize; lia).
  rewrite drop_app_length. fold raw. rewrite <- Hl, firstn_all2; [done|]. unfold len. lia.
Qed.

(** The peer finds the frames that were packed. *)
Lemma sealed_received leastUnacked largestRcvd :
  fs <> [] -> (forall f, f ∈ removelast fs -> open_ended f = false) ->
  hasNonCryptoStreamData fs = false \/ EncryptionUnencrypted < level ->
  ph_PacketNumberLen hdr = GetPacketNumberLengthForPublicHeader (ph_PacketNumber hdr) leastUnacked ->
  0 <= leastUnacked <= ph_PacketNumber hdr -> ph_PacketNumber hdr < 2 ^ 62 ->
  ph_PacketNumber hdr - leastUnacked < 2 ^ 47 ->
  leastUnacked <= largestRcvd + 1 < ph_PacketNumber hdr + 2 ^ 15 -> 0 <= largestRcvd < 2 ^ 62 ->
  receive (pk_perspective p) largestRcvd raw =
  Ok (mkUnpackedPacket level (map (frame_received delay) fs)).
Proof.
  intros Hne Hopen Hlevel Hlen H1 H2 H3 H4 H5. unfold receive.
  assert (ParsePublicHeader raw (pk_perspective p) =
          Ok (header_received (pk_perspective p) hdr,
              sealFunc (framesPayload delay fs) (ph_PacketNumber hdr) header)) as ->
    by (by apply ParsePublicHeader_bytes). cbn [rbind].
  replace (take _ raw) with header.
  2:{ unfold raw. rewrite length_app, Nat.add_sub. by rewrite take_app_length. }
  assert (hasPacketNumber (ph_VersionFlag hdr) (ph_ResetFlag hdr) (pk_perspective p) = true) as Hpn.
  { destruct (ph_VersionFlag hdr) eqn:Ev; rewrite Hreset; [|done].
    by destruct (hok_version _ _ Hhdr Ev) as [-> _]. }
  assert (ph_PacketNumber (inferPacketNumber (header_received (pk_perspective p) hdr) largestRcvd) =
          ph_PacketNumber hdr) as Enum.
  { simpl. rewrite Hpn, Hlen. by apply packet_number_inferred. }
  unfold Unpack. rewrite Enum. unfold header in *. rewrite (seal_open _ _ _ Hseals). cbn [wrapErr rbind].
  destruct (writeFrames_payload _ _ _ fs [] Hfs) as (_ & El & Hl).
  rewrite (proj2 (Z.eqb_neq _ _)).
  2:{ destruct fs as [|f gs]; [done|]. rewrite len_cons in Hl. pose proof (len_nonneg gs). lia. }
  unfold framesPayload. rewrite unpackFrames_written; [by rewrite map_map|apply framesPayload_ok; try done|done].
  rewrite Enum. simpl. by rewrite Hpn.
Qed.
End sealing.

(** ** Composing a packet *)

Lemma elem_of_removelast_app {T} (x : T) a b : x ∈ removelast (a ++ b) -> x ∈ a \/ x ∈ removelast b.
Proof.
  destruct (decide (length b = 0)%nat) as [Hb|Hb].
  - apply length_zero_iff_nil in Hb as ->. rewrite app_nil_r. intros Hx. left.
    destruct a as [|y a] using rev_ind; [by apply elem_of_nil in Hx|].
    rewrite removelast_last in Hx. set_solver.
  - rewrite removelast_app by (by destruct b). set_solver.
Qed.

(** The STOP_WAITING frame at the start of a packet *)
Lemma stopWaiting_start swf pn pnLen delay :
  match swf with Some f => Frame.frame_ok pn pnLen delay (FStopWaiting f) | None => True end ->
  let sw := option_list (FStopWaiting <$> swf) in
  match swf with
  | Some f => let! minLength := StopWaitingFrame_MinLength f in Ok ([FStopWaiting f], minLength)
  | None => Ok ([], 0)
  end = Ok (sw, framesWire sw) /\ 0 <= framesWire sw <= 7 /\ Forall (Frame.frame_ok pn pnLen delay) sw.
Proof.
  destruct swf as [f|]; simpl; [|done]. unfold wireLen. cbn [Frame_MinLength]. intros Hok.
  pose proof Hok as (Hl & El & _). unfold StopWaitingFrame_MinLength. rewrite El.
  destruct Hl as [<-|[<-|[<-|[<-|[]]]]]; calc_tests; (split; [done|split; [lia|by constructor]]).
Qed.

Section compose.
Context {C A F : Type} `{CryptoSetup C} `{ConnectionParametersManager A} {sends_ok : F -> Prop}
  `{HF : FlowControlLaws F sends_ok} (app : appSteps).

(** What the packer works on *)
Record pack_ok (Q : Frame -> Prop) (st : packState (F := F)) : Prop := {
  po_control : Forall Q (pk_controlFrames (pst_packer st));
  po_framer : framer_ok (pst_framer st);
  po_streams : map_ok (pst_streams st);
  po_few : len (sm_openStreams (pst_streams st)) <= 2 ^ 31;
  po_fc : sends_ok (pst_fc st);
}.

(** What a packet with the frames [fs] and [maxSize] bytes of room takes from the state: as
    many control frames [taken] from the end of their queue as there is room for, and the
    STREAM frames [sfs] that the framer has for the room that is left.  The BLOCKED frames
    that come with these are queued. *)
Record composed (st st' : packState (F := F)) (swf : option StopWaitingFrame) (maxSize : Z) (fs : list Frame)
    : Prop := {
  co_parts : exists taken rest blocked sfs framer,
    let sw := option_list (FStopWaiting <$> swf) in
    let maxLen := maxSize + 2 - framesWire (sw ++ taken) in
    fs = sw ++ taken ++ map FStream (omitLastDataLen sfs) /\
    pk_controlFrames (pst_packer st) = rest ++ rev taken /\
    match last rest with Some f => maxSize < framesWire (sw ++ taken) + wireLen f | None => True end /\
    pst_packer st' = pk_set_control (pst_packer st) (rest ++ map FBlocked blocked) /\
    pst_framer st' = mkStreamFramer (fr_retransmissionQueue framer) [] /\
    pop_spec (sends_ok := sends_ok) app (pst_framer st) (pst_streams st) maxLen framer (pst_streams st')
      (pst_fc st') sfs /\
    framesBytes (omitLastDataLen sfs) = framesBytes sfs;
  co_open : forall f, f ∈ removelast fs -> open_ended f = false;
  co_size : framesWire fs <= maxSize;
}.

Context (Happ : app_ok app) (Hkeep : sends_kept sends_ok app).

Lemma composeNextPacket_spec Q st swf maxSize pn pnLen delay :
  control_pred Q -> pack_ok Q st -> 8 <= maxSize <= MaxPacketSize ->
  match swf with Some f => Frame.frame_ok pn pnLen delay (FStopWaiting f) | None => True end ->
  exists st' fs, composeNextPacket app st swf maxSize = (st', Ok fs) /\ composed st st' swf maxSize fs /\
    pack_ok Q st' /\ Forall (packable Q pn pnLen delay) fs.
Proof.
  intros HQ [Hc Hf Hm Hn Hfc] Hmax Hswf. unfold composeNextPacket.
  destruct (stopWaiting_start swf pn pnLen delay Hswf) as (-> & Hn7 & Hsw).
  set (sw := option_list (FStopWaiting <$> swf)) in *.
  cbv zeta. destruct (takeControlFrames _ (framesWire sw) maxSize sw) as [[fs pl] rest] eqn:Et.
  eapply takeControlFrames_spec in Et as (taken & Eq & -> & Epl & Hpl & Hrest);
    [|apply Forall_rev; eapply Forall_impl; [exact Hc|apply HQ]|unfold MaxPacketSize in *; lia|unfold MaxPacketSize in *; lia].
  rewrite Z.gtb_ltb, (proj2 (Z.ltb_ge _ _)) by lia. unfold MaxPacketSize in *.
  rewrite (u64_small (maxSize + 2)), (u64_small (maxSize + 2 - pl)) by (unfold_width; lia).
  cbn [pst_set_packer pst_framer pst_streams pst_fc pst_packer].
  destruct (PopStreamFrames _ _ _ _ _) as [[[framer streams] fc] sfs] eqn:Ep.
  eapply PopStreamFrames_spec in Ep; [|done|done|done|done|done|done|lia]. pose proof Ep as [[P1 P2] P3 [P4 P4'] P5 P6 _].
  rewrite popBlockedFrames_all by done.
  destruct (omitLastDataLen_ok pn pnLen delay sfs (maxSize - pl) P6) as (O1 & O2 & O3 & O4);
    [lia|unfold MaxPacketSize; lia|].
  apply Forall_rev in Hc. rewrite Eq in Hc. apply Forall_app in Hc as [Ht Hr].
  eexists _, _. split; [reflexivity|]. split_and!.
  - split; simpl.
    + exists taken, (rev rest), (fr_blockedFrameQueue framer), sfs, framer. cbv zeta. fold sw.
      rewrite <- app_assoc, <- rev_app_distr, <- Eq, rev_involutive, framesWire_app, <- Epl. split_and!; try done.
      destruct rest as [|f rest]; [done|]. simpl. by rewrite last_snoc.
    + intros f [Hf'|]%elem_of_removelast_app; [|by apply O4].
      apply elem_of_app in Hf' as [Hf'|Hf'].
      * unfold sw in Hf'. destruct swf; simpl in Hf'; [|by apply elem_of_nil in Hf'].
        by apply list_elem_of_singleton in Hf' as ->.
      * rewrite Forall_forall in Ht. apply Ht, HQ in Hf'. by destruct f.
    + rewrite !framesWire_app. lia.
  - constructor; simpl; [|split; [done|constructor]|done|by rewrite P2|done].
    apply Forall_app. split; [by apply Forall_rev|]. apply Forall_map. eapply Forall_impl; [exact P4'|apply HQ].
  - rewrite <- app_assoc. repeat (apply Forall_app; split);
      [eapply Forall_impl; [exact Hsw|by right]|eapply Forall_impl; [exact Ht|by left]|eapply Forall_impl; [exact O2|by right]].
Qed.

(** ** From the packer to the peer *)

(** What the public header is made of *)
Record header_params (p : packetPacker) (crypto : C) (cp : A) (level leastUnacked : Z) : Prop := {
  hp_connID : TruncateConnectionID cp = false -> 0 < pk_connectionID p < 2 ^ 64;
  hp_truncate : TruncateConnectionID cp = true -> pk_perspective p = PerspectiveServer;
  hp_version : 0 <= pk_version p < 1000;
  hp_nonce : pk_perspective p = PerspectiveServer -> level = EncryptionSecure ->
    len (DiversificationNonce crypto) = 32;
  hp_least : 0 <= leastUnacked <= Peek (pk_packetNumberGenerator p);
  hp_number : 0 < Peek (pk_packetNumberGenerator p) < 2 ^ 62;
  hp_inFlight : Peek (pk_packetNumberGenerator p) - leastUnacked < 2 ^ 47;
}.

Lemma lengthForPublicHeader_fits pn leastUnacked :
  0 <= leastUnacked <= pn -> pn < 2 ^ 62 -> pn - leastUnacked < 2 ^ 47 ->
  let l := GetPacketNumberLengthForPublicHeader pn leastUnacked in
  In l [1; 2; 4; 6] /\ pn - leastUnacked < 2 ^ (8 * l).
Proof.
  intros H1' H2 H3. unfold GetPacketNumberLengthForPublicHeader.
  rewrite u64_small by (unfold_width; lia).
  change (Z.shiftl 2 (PacketNumberLen2 * 8 - 2)) with (2 ^ 15).
  change (Z.shiftl 2 (PacketNumberLen4 * 8 - 2)) with (2 ^ 31).
  unfold PacketNumberLen2, PacketNumberLen4, PacketNumberLen6.
  repeat case_if; (split; [simpl; auto|]); simpl; lia.
Qed.

Lemma packetHeader_ok p crypto cp level leastUnacked :
  header_params p crypto cp level leastUnacked ->
  header_ok (pk_perspective p) (packetHeader p crypto cp level leastUnacked).
Proof.
  intros [P1 P2 P3 P4 P5 P6 P7]. split; simpl.
  - apply andb_false_r.
  - intros Hv. rewrite Hv. by destruct (pk_perspective p).
  - done.
  - done.
  - destruct (pk_perspective p) eqn:Epers; simpl; [|by left].
    destruct (Z.eqb_spec level EncryptionSecure); [right; auto|by left].
  - intros _. apply lengthForPublicHeader_fits; lia.
Qed.

(** The STOP_WAITING frame with its packet number *)
Definition numbered (p : packetPacker) (leastUnacked : Z) (f : StopWaitingFrame) : StopWaitingFrame :=
  let pn := Peek (pk_packetNumberGenerator p) in
  mkStopWaitingFrame (swf_LeastUnacked f) (GetPacketNumberLengthForPublicHeader pn leastUnacked) pn.

Lemma numbered_ok p crypto cp level leastUnacked swf delay :
  header_params p crypto cp level leastUnacked ->
  (forall f, swf = Some f -> leastUnacked <= swf_LeastUnacked f <= Peek (pk_packetNumberGenerator p)) ->
  let hdr := packetHeader p crypto cp level leastUnacked in
  match numbered p leastUnacked <$> swf with
  | Some f => Frame.frame_ok (ph_PacketNumber hdr) (ph_PacketNumberLen hdr) delay (FStopWaiting f)
  | None => True
  end.
Proof.
  intros [_ _ _ _ P5 P6 P7] Hswf. destruct swf as [f|]; [|done]. specialize (Hswf f eq_refl).
  destruct (lengthForPublicHeader_fits _ _ P5 ltac:(lia) P7) as [Hl Hfit]. simpl. split_and!; try done; lia.
Qed.

(** Where the packet arrives: what the peer has received before is in reach of the packet number *)
Record arrives (peer : quicAEAD) (p : packetPacker) (sealFunc : Sealer) (level leastUnacked largestRcvd : Z)
    : Prop := {
  ar_seals : seals sealFunc peer level;
  ar_window : leastUnacked <= largestRcvd + 1 < Peek (pk_packetNumberGenerator p) + 2 ^ 15;
  ar_largest : 0 <= largestRcvd < 2 ^ 62;
}.

(** What becomes of the frames [fs] that were chosen *)
Definition delivered (st st' : packState (F := F)) (peer : quicAEAD) (largestRcvd level delay : Z) (fs : list Frame)
    (rand : res (Z * Z)) (r : res (option packedPacket)) : Prop :=
  let p := pst_packer st in
  if hasNonCryptoStreamData fs && (level <=? EncryptionUnencrypted)
  then st' = st /\ r = Err (ErrorCodeErr AttemptToSendUnencryptedStreamData)
  else
    st' = pst_set_packer st (pk_set_generator p (PNG_Pop (pk_packetNumberGenerator p) rand).1) /\
    exists raw, r = Ok (Some (mkPackedPacket (Peek (pk_packetNumberGenerator p)) raw fs level)) /\
      len raw <= MaxPacketSize /\
      @receive peer (pk_perspective p) largestRcvd raw =
      Ok (mkUnpackedPacket level (map (frame_received delay) fs)).

Lemma packPacket_frames st crypto cp swf leastUnacked hs delay rand level sealFunc st1 control fs peer largestRcvd :
  let p := pst_packer st in let hdr := packetHeader p crypto cp level leastUnacked in
  chooseSealer crypto hs = Ok (level, sealFunc) -> header_params p crypto cp level leastUnacked ->
  arrives peer p sealFunc level leastUnacked largestRcvd ->
  payloadFrames app st (numbered p leastUnacked <$> swf) hs (len (header_bytes (pk_perspective p) hdr)) = (st1, Ok fs) ->
  pst_packer st1 = pk_set_control p control ->
  Forall (Frame.frame_ok (ph_PacketNumber hdr) (ph_PacketNumberLen hdr) delay) fs ->
  (forall f, f ∈ removelast fs -> open_ended f = false) ->
  len (header_bytes (pk_perspective p) hdr) + framesWire fs <= MaxFrameAndPublicHeaderSize ->
  (length (option_list swf) < length fs)%nat ->
  exists st' r, packPacket app st crypto cp swf leastUnacked hs delay rand = (st', r) /\
    delivered st1 st' peer largestRcvd level delay fs rand r.
Proof.
  cbv zeta. intros Hseal Hp [Ha Hw Hl] Hfs Ep Hok Hopen Hsize Hlen. unfold packPacket. rewrite Hseal.
  set (p := pst_packer st) in *. set (hdr := packetHeader p crypto cp level leastUnacked) in *.
  pose proof (packetHeader_ok _ _ _ _ _ Hp) as Hhdr. fold hdr in Hhdr.
  destruct (GetLength_bytes _ _ Hhdr) as [-> _].
  match goal with |- context [payloadFrames app st ?s hs _] =>
    replace s with (numbered p leastUnacked <$> swf) by (by destruct swf) end.
  rewrite Hfs, (proj2 (Z.eqb_neq (len fs) 0)) by (unfold len; lia).
  replace ((len fs =? 1) && bool_decide (is_Some swf)) with false.
  2:{ destruct swf; simpl in *; [|by rewrite andb_false_r]. rewrite (proj2 (Z.eqb_neq _ _)); [done|].
      unfold len. lia. }
  assert (pk_perspective (pst_packer st1) = pk_perspective p /\
          pk_packetNumberGenerator (pst_packer st1) = pk_packetNumberGenerator p) as [E1 E2] by (by rewrite Ep).
  destruct (sealPacket_ok (pst_packer st1) hdr fs sealFunc peer level delay) as [-> Hraw];
    [by rewrite E1|done|done|by rewrite E1|].
  pose proof (sealed_received (pst_packer st1) hdr fs sealFunc peer level delay) as Hrecv.
  set (raw := _ ++ sealFunc _ _ _) in *. unfold delivered. rewrite E1, E2 in *.
  destruct (hasNonCryptoStreamData fs && (level <=? EncryptionUnencrypted)) eqn:Elevel; [by eauto|].
  destruct Hp as [_ _ _ _ P5 P6 P7].
  destruct (PNG_Pop (pk_packetNumberGenerator p) rand) as [g num] eqn:Eg.
  destruct (pop_step (pk_packetNumberGenerator p) rand) as [En _]; [unfold Peek in *; lia|].
  rewrite Eg in En. simpl in En. subst num. change (ph_PacketNumber hdr) with (Peek (pk_packetNumberGenerator p)).
  rewrite Z.eqb_refl. eexists _, _. split; [reflexivity|]. split; [done|]. exists raw. split_and!; [done| |].
  - revert Hsize. rewrite Hraw. unfold MaxFrameAndPublicHeaderSize. lia.
  - apply (Hrecv Hhdr eq_refl Hok Ha Hsize leastUnacked); try done; try (simpl; lia).
    + by destruct fs; [simpl in Hlen; lia|].
    + apply andb_false_iff in Elevel as [?|?%Z.leb_gt]; [by left|right; lia].
Qed.

(** The room for the frames behind a header of [n] bytes *)
Definition frameSpace (p : packetPacker) (n : Z) : Z :=
  MaxFrameAndPublicHeaderSize - n - (if pk_isForwardSecure p then 0 else NonForwardSecurePacketSizeReduction).

Lemma frameSpace_ok p n :
  1 <= n <= 51 -> 8 <= frameSpace p n <= MaxPacketSize /\ n + frameSpace p n <= MaxFrameAndPublicHeaderSize.
Proof.
  unfold frameSpace, MaxFrameAndPublicHeaderSize, NonForwardSecurePacketSizeReduction, MaxPacketSize.
  destruct (pk_isForwardSecure p); lia.
Qed.

Lemma payloadFrames_compose st swf n :
  Forall queueable (pk_controlFrames (pst_packer st)) -> 1 <= n <= 51 ->
  payloadFrames app st swf None n = composeNextPacket app st swf (frameSpace (pst_packer st) n).
Proof.
  intros Hc Hn. unfold payloadFrames. cbv zeta.
  replace (if pk_isForwardSecure _ then _ else _) with (frameSpace (pst_packer st) n).
  - destruct (pk_controlFrames (pst_packer st)) as [|f fs]; [done|].
    apply Forall_cons in Hc as [Hf _]. by destruct f, fs.
  - unfold frameSpace, MaxFrameAndPublicHeaderSize, NonForwardSecurePacketSizeReduction, MaxPacketSize.
    case_if; rewrite ?(u64_small (1350 - 12 - n)), ?u64_small by (unfold_width; lia); lia.
Qed.

Lemma pack_ok_generator Q st g :
  pack_ok Q st -> pack_ok Q (pst_set_packer st (pk_set_generator (pst_packer st) g)).
Proof. intros [? ? ? ? ?]. by constructor. Qed.

Lemma packPacket_nothing st crypto cp swf leastUnacked delay rand level sealFunc st1 fs :
  let p := pst_packer st in let hdr := packetHeader p crypto cp level leastUnacked in
  GetSealer crypto = (level, sealFunc) -> header_params p crypto cp level leastUnacked ->
  payloadFrames app st (numbered p leastUnacked <$> swf) None (len (header_bytes (pk_perspective p) hdr)) = (st1, Ok fs) ->
  length fs = length (option_list swf) ->
  packPacket app st crypto cp swf leastUnacked None delay rand = (st1, Ok None).
Proof.
  cbv zeta. intros Hseal Hp Hfs Hlen. unfold packPacket. simpl chooseSealer. rewrite Hseal.
  destruct (GetLength_bytes _ _ (packetHeader_ok _ _ _ _ _ Hp)) as [-> _].
  match goal with |- context [payloadFrames app st ?s None _] =>
    replace s with (numbered (pst_packer st) leastUnacked <$> swf) by (by destruct swf) end.
  rewrite Hfs. unfold len. rewrite Hlen. by destruct swf.
Qed.

(** What [PackPacket] puts into a packet *)
Lemma payloadFrames_ok Q st crypto cp swf controlFrames leastUnacked delay level :
  let p := pst_packer st in let hdr := packetHeader p crypto cp level leastUnacked in
  let n := len (header_bytes (pk_perspective p) hdr) in
  control_pred Q -> pack_ok Q st -> Forall Q controlFrames ->
  header_params p crypto cp level leastUnacked ->
  (forall f, swf = Some f -> leastUnacked <= swf_LeastUnacked f <= Peek (pk_packetNumberGenerator p)) ->
  let queued := pst_set_packer st (pk_set_control p (pk_controlFrames p ++ controlFrames)) in
  exists st1 fs,
    payloadFrames app queued (numbered p leastUnacked <$> swf) None n = (st1, Ok fs) /\
    composed queued st1 (numbered p leastUnacked <$> swf) (frameSpace p n) fs /\ pack_ok Q st1 /\
    Forall (packable Q (ph_PacketNumber hdr) (ph_PacketNumberLen hdr) delay) fs /\
    n + framesWire fs <= MaxFrameAndPublicHeaderSize.
Proof.
  cbv zeta. intros HQ Hst Hcontrol Hp Hswf. set (p := pst_packer st) in *.
  set (queued := pst_set_packer st (pk_set_control p (pk_controlFrames p ++ controlFrames))).
  assert (pack_ok Q queued) as Hq.
  { destruct Hst as [? ? ? ? ?]. constructor; try done. simpl. by apply Forall_app. }
  pose proof (packetHeader_ok _ _ _ _ _ Hp) as Hhdr.
  destruct (GetLength_bytes _ _ Hhdr) as [_ Hn]. set (n := len _) in *.
  pose proof (numbered_ok _ _ _ _ _ swf delay Hp Hswf) as Hsw. destruct (frameSpace_ok p n Hn) as [Hs1 Hs2].
  destruct (composeNextPacket_spec Q queued (numbered p leastUnacked <$> swf) (frameSpace p n) _ _ delay HQ Hq Hs1 Hsw)
    as (st1 & fs & Ec & Hc & Hst1 & Hok).
  change (frameSpace p n) with (frameSpace (pst_packer queued) n) in Ec. rewrite <- payloadFrames_compose in Ec;
    [|eapply Forall_impl; [apply (po_control _ _ Hq)|apply HQ]|done].
  exists st1, fs. split_and!; try done. pose proof (co_size _ _ _ _ _ Hc). lia.
Qed.

(** C5: a packet that is packed arrives.  Whatever is queued, [PackPacket] returns neither
    one of its BUG errors nor a packet over the limit: it puts the STOP_WAITING frame, as many
    control frames as there is room for, and STREAM frames into the packet, keeps the other
    control frames, and the peer gets exactly these frames.  Nothing is packed if there is
    nothing to send, and the only error is that for unencrypted stream data.  For a STOP_WAITING
    frame with nothing else see [lone_stop_waiting_dropped]. *)
Theorem pack_packet_delivered st crypto cp swf controlFrames leastUnacked delay rand level sealFunc peer largestRcvd :
  let p := pst_packer st in
  let n := len (header_bytes (pk_perspective p) (packetHeader p crypto cp level leastUnacked)) in
  pack_ok (control_ok delay) st -> Forall (control_ok delay) controlFrames ->
  header_params p crypto cp level leastUnacked -> arrives peer p sealFunc level leastUnacked largestRcvd ->
  GetSealer crypto = (level, sealFunc) ->
  (forall f, swf = Some f -> leastUnacked <= swf_LeastUnacked f <= Peek (pk_packetNumberGenerator p)) ->
  let queued := pst_set_packer st (pk_set_control p (pk_controlFrames p ++ controlFrames)) in
  exists st1 fs st' r,
    PackPacket app st crypto cp swf controlFrames leastUnacked delay rand = (st', r) /\
    composed queued st1 (numbered p leastUnacked <$> swf) (frameSpace p n) fs /\ pack_ok (control_ok delay) st' /\
    (fs = [] -> st' = st1 /\ r = Ok None) /\
    (fs <> option_list (FStopWaiting <$> (numbered p leastUnacked <$> swf)) ->
     delivered st1 st' peer largestRcvd level delay fs rand r).
Proof.
  cbv zeta. intros Hst Hcontrol Hp Ha Hseal Hswf. unfold PackPacket.
  destruct (payloadFrames_ok _ st crypto cp swf controlFrames leastUnacked delay level (control_ok_pred delay) Hst
    Hcontrol Hp Hswf) as (st1 & fs & Ec & Hc & Hst1 & Hok%packable_ok & Hsize).
  set (p := pst_packer st) in *.
  set (queued := pst_set_packer st (pk_set_control p (pk_controlFrames p ++ controlFrames))) in *.
  assert (header_params (pst_packer queued) crypto cp level leastUnacked) as Hp' by (destruct Hp; by constructor).
  destruct (co_parts _ _ _ _ _ Hc) as (taken & rest & blocked & sfs & framer & Efs & _ & _ & Ep & _).
  destruct (decide (length fs = length (option_list swf))) as [E|E].
  { exists st1, fs, st1, (Ok None). split_and!; [|done..|].
    - eapply packPacket_nothing; [exact Hseal|exact Hp'|exact Ec|exact E].
    - intros []. rewrite Efs. rewrite Efs in E. destruct swf; simpl in *; rewrite length_app in E;
        (destruct taken, (map FStream _); simpl in *; [done|lia..]). }
  destruct (packPacket_frames queued crypto cp swf leastUnacked None delay rand level sealFunc st1
    (rest ++ map FBlocked blocked) fs peer largestRcvd) as (st' & r & Epack & Hsent); try done.
  { simpl. by rewrite Hseal. }
  { destruct Ha. by constructor. }
  { apply (co_open _ _ _ _ _ Hc). }
  { rewrite Efs in *. destruct swf; simpl in *; rewrite length_app in *; lia. }
  exists st1, fs, st', r. split_and!; [done|done| | |done].
  - unfold delivered in Hsent. case_if; destruct Hsent as [-> _]; [done|by apply pack_ok_generator].
  - intros ->. by destruct swf.
Qed.

(** A STOP_WAITING frame alone is not sent, although the comment of [PackPacket] guarantees
    it to be in the next packet. *)
Lemma lone_stop_waiting_dropped st crypto cp swf leastUnacked delay rand level sealFunc :
  let p := pst_packer st in
  pack_ok queueable st -> header_params p crypto cp level leastUnacked -> GetSealer crypto = (level, sealFunc) ->
  leastUnacked <= swf_LeastUnacked swf <= Peek (pk_packetNumberGenerator p) ->
  exists st1 fs,
    composed (pst_set_packer st (pk_set_control p (pk_controlFrames p ++ []))) st1 (Some (numbered p leastUnacked swf))
      (frameSpace p (len (header_bytes (pk_perspective p) (packetHeader p crypto cp level leastUnacked)))) fs /\
    (fs = [FStopWaiting (numbered p leastUnacked swf)] ->
     PackPacket app st crypto cp (Some swf) [] leastUnacked delay rand = (st1, Ok None)).
Proof.
  cbv zeta. intros Hst Hp Hseal Hswf.
  destruct (payloadFrames_ok _ st crypto cp (Some swf) [] leastUnacked delay level queueable_pred Hst
    ltac:(constructor) Hp ltac:(by intros f [= <-])) as (st1 & fs & Ec & Hc & _).
  exists st1, fs. split; [done|]. intros ->. unfold PackPacket.
  eapply packPacket_nothing; [exact Hseal|destruct Hp; by constructor|exact Ec|done].
Qed.

(** ** Packing cannot fail badly

    Whatever the sealer returns, a packet is within the limits, or there is one of three errors. *)

Definition errPacketTooLarge : goerror := ErrNew "PacketPacker BUG: packet too large".

Definition packed_safe (st st' : packState (F := F)) (level : Z) (fs : list Frame) (rand : res (Z * Z))
    (r : res (option packedPacket)) : Prop :=
  let p := pst_packer st in
  (st' = st /\ (r = Ok None \/ r = Err (ErrorCodeErr AttemptToSendUnencryptedStreamData) \/ r = Err errPacketTooLarge \/
     r = Err errInconsistentAckBlocks)) \/
  (st' = pst_set_packer st (pk_set_generator p (PNG_Pop (pk_packetNumberGenerator p) rand).1) /\
   exists raw, r = Ok (Some (mkPackedPacket (Peek (pk_packetNumberGenerator p)) raw fs level)) /\
     0 < len raw <= MaxPacketSize).

Lemma writeFrames_packable pn pnLen delay fs b :
  Forall (packable queueable pn pnLen delay) fs ->
  (exists b', len b <= len b' /\ writeFrames fs delay b = (b', Ok tt)) \/
  exists b', writeFrames fs delay b = (b', Err errInconsistentAckBlocks).
Proof.
  intros Hfs. revert b. induction Hfs as [|f fs Hf _ IH]; intros b; [left; by exists b|].
  assert ((exists b', len b <= len b' /\ Frame_Write f delay b = (b', Ok tt)) \/
    exists b', Frame_Write f delay b = (b', Err errInconsistentAckBlocks)) as [(b1 & Hb1 & Hw)|(b1 & Hw)].
  { assert (Frame.frame_ok pn pnLen delay f \/ exists a, f = FAck a /\ AckFrame_wf a) as [Hok|(a & -> & Hwf)]
      by (destruct Hf; [by apply queueable_frame_ok|by left]).
    - destruct (Frame_Write_app pn pnLen delay f b Hok) as (-> & _). left. eexists. split; [|done].
      rewrite len_app. pose proof (len_nonneg (Frame_Write f delay []).1). lia.
    - simpl. destruct (decide (firstGapFits a)) as [Hg|Hg].
      + rewrite AckFrame_Write_bytes by done. left. eexists. split; [|done]. rewrite len_app.
        pose proof (len_nonneg (ackFrameBytes a delay)). lia.
      + destruct (ack_frame_long_first_gap a delay b Hwf Hg) as (b' & ->). right. by exists b'. }
  - cbn [writeFrames]. rewrite Hw. destruct (IH b1) as [(b' & ? & ?)|?]; [left; exists b'; split; [lia|done]|by right].
  - cbn [writeFrames]. rewrite Hw. right. by exists b1.
Qed.

Lemma sealPacket_safe p hdr fs sealFunc delay :
  header_ok (pk_perspective p) hdr -> ph_ResetFlag hdr = false ->
  Forall (packable queueable (ph_PacketNumber hdr) (ph_PacketNumberLen hdr) delay) fs ->
  sealPacket p hdr fs sealFunc delay = Err errPacketTooLarge \/
  sealPacket p hdr fs sealFunc delay = Err errInconsistentAckBlocks \/
  exists raw, sealPacket p hdr fs sealFunc delay = Ok raw /\ 0 < len raw <= MaxPacketSize.
Proof.
  intros Hhdr Hreset Hfs. unfold sealPacket. rewrite PublicHeader_Write_bytes by done. cbn [Datatypes.app].
  set (header := header_bytes _ _). destruct (writeFrames_packable _ _ _ fs header Hfs) as [(b & Hb & ->)|(b & ->)]; [|auto].
  destruct (GetLength_bytes _ _ Hhdr) as [_ Hn]. fold header in Hn. case_if; [by left|right; right].
  eexists. split; [reflexivity|]. unfold len. rewrite length_take, length_app. unfold len in *. lia.
Qed.

Lemma packPacket_safe st crypto cp swf leastUnacked hs delay rand level sealFunc st1 control fs :
  let p := pst_packer st in let hdr := packetHeader p crypto cp level leastUnacked in
  chooseSealer crypto hs = Ok (level, sealFunc) -> header_params p crypto cp level leastUnacked ->
  payloadFrames app st (numbered p leastUnacked <$> swf) hs (len (header_bytes (pk_perspective p) hdr)) = (st1, Ok fs) ->
  pst_packer st1 = pk_set_control p control ->
  Forall (packable queueable (ph_PacketNumber hdr) (ph_PacketNumberLen hdr) delay) fs ->
  exists st' r, packPacket app st crypto cp swf leastUnacked hs delay rand = (st', r) /\
    packed_safe st1 st' level fs rand r.
Proof.
  cbv zeta. intros Hseal Hp Hfs Ep Hok. unfold packPacket. rewrite Hseal.
  set (p := pst_packer st) in *. set (hdr := packetHeader p crypto cp level leastUnacked) in *.
  pose proof (packetHeader_ok _ _ _ _ _ Hp) as Hhdr. fold hdr in Hhdr.
  destruct (GetLength_bytes _ _ Hhdr) as [-> _].
  match goal with |- context [payloadFrames app st ?s hs _] =>
    replace s with (numbered p leastUnacked <$> swf) by (by destruct swf) end.
  rewrite Hfs. unfold packed_safe. case_if; [eauto 10|]. case_if; [eauto 10|].
  assert (pk_perspective (pst_packer st1) = pk_perspective p /\
          pk_packetNumberGenerator (pst_packer st1) = pk_packetNumberGenerator p) as [E1 E2] by (by rewrite Ep).
  destruct (sealPacket_safe (pst_packer st1) hdr fs sealFunc delay) as [-> |[-> | (raw & -> & Hraw)]];
    [by rewrite E1|done|done|by eauto 10|by eauto 10|].
  destruct (hasNonCryptoStreamData fs && (level <=? EncryptionUnencrypted)); [by eauto 10|].
  destruct Hp as [_ _ _ _ P5 P6 P7]. rewrite E2.
  destruct (PNG_Pop (pk_packetNumberGenerator p) rand) as [g num] eqn:Eg.
  destruct (pop_step (pk_packetNumberGenerator p) rand) as [En _]; [unfold Peek in *; lia|].
  rewrite Eg in En. simpl in En. subst num. change (ph_PacketNumber hdr) with (Peek (pk_packetNumberGenerator p)).
  rewrite Z.eqb_refl. cbn [negb]. eexists _, _. split; [reflexivity|]. right. split; [done|]. by exists raw.
Qed.

(** The frames of a packet that was sent; a CONNECTION_CLOSE is not tracked. *)
Definition sent_frame_ok (f : Frame) : Prop :=
  match f with
  | FConnectionClose _ => False
  | FAck _ | FStopWaiting _ => True
  | f => Frame.frame_ok 0 0 0 f
  end.

Lemma queueable_sent Q pn pnLen delay f :
  control_pred Q -> packable Q pn pnLen delay f -> match f with FConnectionClose _ => False | _ => True end ->
  sent_frame_ok f.
Proof. intros HQ [Hf%HQ|Hf]; by destruct f. Qed.

(** A composed packet holds no CONNECTION_CLOSE frame. *)
Lemma composed_no_close Q st st' swf maxSize fs f :
  control_pred Q -> pack_ok Q st -> composed st st' swf maxSize fs -> f ∈ fs ->
  match f with FConnectionClose _ => False | _ => True end.
Proof.
  intros HQ Hst Hc Hf. destruct (co_parts _ _ _ _ _ Hc) as (taken & rest & blocked & sfs & framer & Efs & Econtrol & _).
  rewrite Efs in Hf. apply elem_of_app in Hf as [Hf|Hf].
  - destruct swf; simpl in Hf; [|by apply elem_of_nil in Hf]. by apply list_elem_of_singleton in Hf as ->.
  - apply elem_of_app in Hf as [Hf|Hf]; [|by apply list_elem_of_fmap in Hf as (? & -> & _)].
    pose proof (po_control _ _ Hst) as Hall. rewrite Econtrol, Forall_forall in Hall.
    assert (queueable f) as Hq; [|by destruct f]. apply HQ, Hall, elem_of_app. right.
    rewrite list_elem_of_In in *. by apply in_rev in Hf.
Qed.

Lemma PackPacket_safe st crypto cp swf controlFrames leastUnacked delay rand :
  let p := pst_packer st in let '(level, _) := GetSealer crypto in
  let n := len (header_bytes (pk_perspective p) (packetHeader p crypto cp level leastUnacked)) in
  pack_ok queueable st -> Forall queueable controlFrames ->
  header_params p crypto cp level leastUnacked ->
  (forall f, swf = Some f -> leastUnacked <= swf_LeastUnacked f <= Peek (pk_packetNumberGenerator p)) ->
  let queued := pst_set_packer st (pk_set_control p (pk_controlFrames p ++ controlFrames)) in
  exists st1 fs st' r,
    PackPacket app st crypto cp swf controlFrames leastUnacked delay rand = (st', r) /\
    composed queued st1 (numbered p leastUnacked <$> swf) (frameSpace p n) fs /\ pack_ok queueable st1 /\
    Forall sent_frame_ok fs /\ packed_safe st1 st' level fs rand r.
Proof.
  cbv zeta. destruct (GetSealer crypto) as [level sealFunc] eqn:Hseal.
  intros Hst Hcontrol Hp Hswf. unfold PackPacket.
  destruct (payloadFrames_ok _ st crypto cp swf controlFrames leastUnacked delay level queueable_pred Hst Hcontrol Hp Hswf)
    as (st1 & fs & Ec & Hc & Hst1 & Hok & _).
  destruct (co_parts _ _ _ _ _ Hc) as (taken & rest & blocked & sfs & framer & _ & _ & _ & Ep & _).
  set (p := pst_packer st) in *.
  set (queued := pst_set_packer st (pk_set_control p (pk_controlFrames p ++ controlFrames))) in *.
  assert (header_params (pst_packer queued) crypto cp level leastUnacked) as Hp' by (destruct Hp; by constructor).
  assert (pack_ok queueable queued) as Hq.
  { destruct Hst as [? ? ? ? ?]. constructor; try done. simpl. by apply Forall_app. }
  destruct (packPacket_safe queued crypto cp swf leastUnacked None delay rand level sealFunc st1
    (rest ++ map FBlocked blocked) fs) as (st' & r & Epack & Hsafe); try done.
  { simpl. by rewrite Hseal. }
  exists st1, fs, st', r. split_and!; try done. apply Forall_forall. intros f Hf.
  rewrite Forall_forall in Hok. eapply queueable_sent; [apply queueable_pred|by apply Hok|].
  by eapply composed_no_close; [apply queueable_pred|exact Hq|exact Hc|].
Qed.

Lemma RetransmitNonForwardSecurePacket_safe st crypto cp swf packet delay rand :
  let p := pst_packer st in let level := p_EncryptionLevel packet in
  let fs := FStopWaiting (numbered p 0 swf) :: List.filter (fun f => negb (isAckOrStopWaiting f)) (p_Frames packet) in
  Forall sent_frame_ok (p_Frames packet) -> level <> EncryptionForwardSecure ->
  (forall sealFunc, GetSealerWithEncryptionLevel crypto level = Ok sealFunc -> header_params p crypto cp level 0) ->
  0 <= swf_LeastUnacked swf <= Peek (pk_packetNumberGenerator p) ->
  exists st' r, RetransmitNonForwardSecurePacket app st crypto cp (Some swf) packet delay rand = (st', r) /\
    match GetSealerWithEncryptionLevel crypto level with
    | Ok _ => packed_safe st st' level fs rand r /\ Forall sent_frame_ok fs
    | Err e => st' = st /\ r = Err e
    | Panic => st' = st /\ r = Panic
    end.
Proof.
  cbv zeta. intros Hfs Hlevel Hp Hlu. unfold RetransmitNonForwardSecurePacket.
  rewrite (proj2 (Z.eqb_neq _ _)) by done.
  destruct (GetSealerWithEncryptionLevel crypto (p_EncryptionLevel packet)) as [sealFunc|err|] eqn:Hseal.
  2,3: unfold packPacket; simpl; rewrite Hseal; by eexists _, _.
  specialize (Hp sealFunc eq_refl).
  pose proof (numbered_ok _ _ _ _ _ (Some swf) delay Hp ltac:(by intros ? [= <-])) as Hsw.
  cbv zeta in Hsw. cbn [fmap option_fmap option_map] in Hsw.
  assert (forall f, f ∈ List.filter (fun f => negb (isAckOrStopWaiting f)) (p_Frames packet) ->
    sent_frame_ok f /\ isAckOrStopWaiting f = false) as Hagain.
  { intros f. rewrite list_elem_of_In, filter_In, <- list_elem_of_In. intros [Hf Hn%negb_true_iff].
    rewrite Forall_forall in Hfs. by split; [apply Hfs|]. }
  destruct (packPacket_safe st crypto cp (Some swf) 0 (Some packet) delay rand (p_EncryptionLevel packet) sealFunc st
    (pk_controlFrames (pst_packer st)) (FStopWaiting (numbered (pst_packer st) 0 swf) ::
      List.filter (fun f => negb (isAckOrStopWaiting f)) (p_Frames packet))) as (st' & r & E & Hsafe); try done.
  - simpl. by rewrite Hseal.
  - by destruct (pst_packer st).
  - constructor; [by right|]. apply Forall_forall. intros f [Hf Hn]%Hagain. right. by destruct f.
  - exists st', r. split_and!; [done|done|]. constructor; [done|]. apply Forall_forall. by intros f [Hf _]%Hagain.
Qed.

Lemma framesWire_filter pn pnLen delay fs :
  Forall (Frame.frame_ok pn pnLen delay) fs ->
  framesWire (List.filter (fun f => negb (isAckOrStopWaiting f)) fs) <= framesWire fs.
Proof.
  induction 1 as [|f fs Hf _ IH]; [done|].
  destruct (Frame_Write_app _ _ _ _ [] Hf) as (_ & _ & Hpos). simpl. case_if; simpl; lia.
Qed.

Lemma elem_of_removelast {T} (x : T) fs : x ∈ removelast fs -> x ∈ fs.
Proof. intros Hx. rewrite <- (app_nil_r fs) in Hx. apply elem_of_removelast_app in Hx as [|[]%elem_of_nil]; done. Qed.

Lemma removelast_filter (f : Frame) (b : Frame -> bool) fs :
  f ∈ removelast (List.filter b fs) -> f ∈ removelast fs.
Proof.
  destruct fs as [|g fs _] using rev_ind; [done|]. rewrite removelast_last, List.filter_app.
  assert (f ∈ List.filter b fs -> f ∈ fs) as Hin.
  { rewrite !list_elem_of_In, filter_In. by intros []. }
  simpl. destruct (b g); [by rewrite removelast_last|]. rewrite app_nil_r. intros Hf.
  by apply Hin, elem_of_removelast.
Qed.

(** The two headers of a packet and of its retransmission differ in the length of the packet
    number only. *)
Lemma len_header_bytes p crypto cp level leastUnacked g leastUnacked0 :
  header_params p crypto cp level leastUnacked ->
  header_params (pk_set_generator p g) crypto cp level leastUnacked0 ->
  len (header_bytes (pk_perspective p) (packetHeader p crypto cp level leastUnacked)) <=
  len (header_bytes (pk_perspective p) (packetHeader (pk_set_generator p g) crypto cp level leastUnacked0)) + 5.
Proof.
  intros [_ _ _ _ P5 P6 P7] [_ _ _ _ Q5 Q6 Q7].
  destruct (lengthForPublicHeader_fits _ _ P5 ltac:(lia) P7) as [HP _].
  destruct (lengthForPublicHeader_fits _ _ Q5 ltac:(lia) Q7) as [HQ _].
  unfold header_bytes. rewrite !len_cons, !len_app.
  cbn [packetHeader ph_TruncateConnectionID ph_ConnectionID ph_VersionFlag ph_VersionNumber ph_ResetFlag
    ph_DiversificationNonce ph_PacketNumberLen ph_PacketNumber pk_set_generator pk_perspective pk_version
    pk_connectionID pk_packetNumberGenerator In] in *.
  destruct (hasPacketNumber _ _ _); rewrite ?len_le_bytes; lia.
Qed.

(** A packet of the handshake that was lost can be sent again as a whole: the bytes that
    packets leave free until the connection is forward-secure are enough for the STOP_WAITING
    frame and a longer packet number.  The peer gets the STOP_WAITING frame and the frames of
    the lost packet but for its ACK and STOP_WAITING frames. *)
Theorem retransmit_handshake_delivered st crypto cp swf packet delay rand sealFunc peer largestRcvd
    g leastUnacked0 pn0 pnLen0 delay0 :
  let p := pst_packer st in let level := p_EncryptionLevel packet in
  let again := List.filter (fun f => negb (isAckOrStopWaiting f)) (p_Frames packet) in
  (* the packet was packed before, with the generator [g] *)
  header_params (pk_set_generator p g) crypto cp level leastUnacked0 ->
  len (header_bytes (pk_perspective p) (packetHeader (pk_set_generator p g) crypto cp level leastUnacked0))
    + framesWire (p_Frames packet) <= MaxFrameAndPublicHeaderSize - NonForwardSecurePacketSizeReduction ->
  Forall (Frame.frame_ok pn0 pnLen0 delay0) (p_Frames packet) ->
  (forall f, f ∈ removelast (p_Frames packet) -> open_ended f = false) -> again <> [] ->
  (* it is packed again *)
  level <> EncryptionForwardSecure -> GetSealerWithEncryptionLevel crypto level = Ok sealFunc ->
  header_params p crypto cp level 0 -> arrives peer p sealFunc level 0 largestRcvd ->
  0 <= swf_LeastUnacked swf <= Peek (pk_packetNumberGenerator p) ->
  exists st' r,
    RetransmitNonForwardSecurePacket app st crypto cp (Some swf) packet delay rand = (st', r) /\
    delivered st st' peer largestRcvd level delay (FStopWaiting (numbered p 0 swf) :: again) rand r.
Proof.
  cbv zeta. intros Hp0 Hsize0 Hok0 Hopen0 Hne Hlevel Hseal Hp Ha Hlu.
  unfold RetransmitNonForwardSecurePacket. rewrite (proj2 (Z.eqb_neq _ _)) by done.
  set (again := List.filter _ _) in *.
  pose proof (numbered_ok _ _ _ _ _ (Some swf) delay Hp ltac:(by intros ? [= <-])) as Hsw.
  cbv zeta in Hsw. cbn [fmap option_fmap option_map] in Hsw.
  pose proof (stopWaiting_start (Some (numbered (pst_packer st) 0 swf)) _ _ _ Hsw) as (_ & Hn7 & _).
  apply (packPacket_frames st crypto cp (Some swf) 0 (Some packet) delay rand _ sealFunc st
    (pk_controlFrames (pst_packer st))); try done.
  - simpl. by rewrite Hseal.
  - by destruct (pst_packer st).
  - constructor; [done|]. apply Forall_forall. intros f Hf.
    rewrite list_elem_of_In in Hf. apply filter_In in Hf as [Hf Hn].
    rewrite Forall_forall in Hok0. rewrite <- list_elem_of_In in Hf. apply Hok0 in Hf. by destruct f.
  - intros f Hf. change (FStopWaiting ?s :: again) with ([FStopWaiting s] ++ again) in Hf.
    apply elem_of_removelast_app in Hf as [->%list_elem_of_singleton|Hf%removelast_filter]; [done|by apply Hopen0].
  - pose proof (framesWire_filter _ _ _ _ Hok0) as Hfilter. fold again in Hfilter.
    pose proof (len_header_bytes _ _ _ _ _ _ _ Hp Hp0). revert Hsize0. simpl in *.
    unfold NonForwardSecurePacketSizeReduction. lia.
  - destruct again; [done|]. simpl. lia.
Qed.

Lemma PackConnectionClose_spec st crypto cp ccf leastUnacked delay rand level sealFunc peer largestRcvd :
  let p := pst_packer st in
  header_params p crypto cp level leastUnacked -> arrives peer p sealFunc level leastUnacked largestRcvd ->
  GetSealer crypto = (level, sealFunc) -> is_u32 (ccf_ErrorCode ccf) ->
  len (header_bytes (pk_perspective p) (packetHeader p crypto cp level leastUnacked))
    + ConnectionCloseFrame_MinLength ccf <= MaxFrameAndPublicHeaderSize ->
  exists st' r,
    PackConnectionClose app st crypto cp ccf leastUnacked delay rand = (st', r) /\
    delivered (pst_set_packer st (pk_set_control p [FConnectionClose ccf])) st' peer largestRcvd level delay
      [FConnectionClose ccf] rand r.
Proof.
  cbv zeta. intros Hp Ha Hseal Hcode Hsize. unfold PackConnectionClose.
  destruct (GetLength_bytes _ _ (packetHeader_ok _ _ _ _ _ Hp)) as [_ Hn].
  apply (packPacket_frames _ crypto cp None leastUnacked None delay rand level sealFunc _ [FConnectionClose ccf]);
    try done.
  - simpl. by rewrite Hseal.
  - destruct Hp. by constructor.
  - destruct Ha. by constructor.
  - repeat constructor; [apply Hcode..|].
    revert Hsize. unfold ConnectionCloseFrame_MinLength, MaxFrameAndPublicHeaderSize. lia.
  - by intros f []%elem_of_nil.
  - revert Hsize. simpl. unfold wireLen. simpl. change (packetHeader (pk_set_control _ _)) with (packetHeader (pst_packer st)).
    lia.
  - simpl. lia.
Qed.

(** A reason that does not fit into a packet *)
Lemma PackConnectionClose_too_long st crypto cp ccf leastUnacked delay rand level sealFunc :
  let p := pst_packer st in
  header_params p crypto cp level leastUnacked -> GetSealer crypto = (level, sealFunc) ->
  MaxFrameAndPublicHeaderSize <
    len (header_bytes (pk_perspective p) (packetHeader p crypto cp level leastUnacked))
    + ConnectionCloseFrame_MinLength ccf ->
  exists err, PackConnectionClose app st crypto cp ccf leastUnacked delay rand =
    (pst_set_packer st (pk_set_control p [FConnectionClose ccf]), Err err).
Proof.
  cbv zeta. intros Hp Hseal Hsize. unfold PackConnectionClose, packPacket. cbn [chooseSealer]. rewrite Hseal.
  set (queued := pst_set_packer _ _).
  assert (header_params (pst_packer queued) crypto cp level leastUnacked) as Hp' by (destruct Hp; by constructor).
  pose proof (packetHeader_ok _ _ _ _ _ Hp') as Hhdr. destruct (GetLength_bytes _ _ Hhdr) as [-> _].
  cbn [payloadFrames pst_packer queued pst_set_packer pk_set_control pk_controlFrames]. rewrite andb_false_r.
  change (len [FConnectionClose ccf]) with 1. cbn [Z.eqb].
  set (hdr := packetHeader _ _ _ _ _) in *. unfold sealPacket. rewrite PublicHeader_Write_bytes by done. cbn [Datatypes.app writeFrames Frame_Write].
  unfold ConnectionCloseFrame_Write. case_if; [by eexists|].
  unfold WriteByte. autorewrite with quic_write quic_len. unfold ConnectionCloseFrame_MinLength in Hsize.
  change (pk_perspective (pk_set_control (pst_packer st) _)) with (pk_perspective (pst_packer st)).
  clearbody hdr. unfold MaxFrameAndPublicHeaderSize, MaxPacketSize in *.
  rewrite Z.gtb_ltb, (proj2 (Z.ltb_lt _ _)) by (clear -Hsize; change (Z.of_nat 4) with 4; change (Z.of_nat 2) with 2; lia).
  by eexists.
Qed.

Lemma PackConnectionClose_no_panic st crypto cp ccf leastUnacked delay rand level sealFunc :
  let p := pst_packer st in
  header_params p crypto cp level leastUnacked -> GetSealer crypto = (level, sealFunc) ->
  (PackConnectionClose app st crypto cp ccf leastUnacked delay rand).2 <> Panic.
Proof.
  cbv zeta. intros Hp Hseal. unfold PackConnectionClose, packPacket. cbn [chooseSealer]. rewrite Hseal.
  set (queued := pst_set_packer _ _).
  assert (header_params (pst_packer queued) crypto cp level leastUnacked) as Hp' by (destruct Hp; by constructor).
  pose proof (packetHeader_ok _ _ _ _ _ Hp') as Hhdr. destruct (GetLength_bytes _ _ Hhdr) as [-> _].
  cbn [payloadFrames pst_packer queued pst_set_packer pk_set_control pk_controlFrames]. rewrite andb_false_r.
  change (len [FConnectionClose ccf]) with 1. cbn [Z.eqb].
  unfold sealPacket. rewrite PublicHeader_Write_bytes by done. cbn [writeFrames Frame_Write].
  unfold ConnectionCloseFrame_Write. case_if; [done|]. case_if; [done|]. case_if; [done|].
  destruct (PNG_Pop _ _) as [g num]. by case_if.
Qed.

(** Closing a connection discards the queued control frames and packs a packet with the
    CONNECTION_CLOSE frame alone, which arrives if its reason fits into a packet. *)
Theorem pack_connection_close_delivered st crypto cp ccf leastUnacked delay rand level sealFunc peer largestRcvd :
  let p := pst_packer st in
  header_params p crypto cp level leastUnacked -> arrives peer p sealFunc level leastUnacked largestRcvd ->
  GetSealer crypto = (level, sealFunc) -> is_u32 (ccf_ErrorCode ccf) ->
  len (header_bytes (pk_perspective p) (packetHeader p crypto cp level leastUnacked))
    + ConnectionCloseFrame_MinLength ccf <= MaxFrameAndPublicHeaderSize ->
  exists st' r,
    PackConnectionClose app st crypto cp ccf leastUnacked delay rand = (st', r) /\
    delivered (pst_set_packer st (pk_set_control p [FConnectionClose ccf])) st' peer largestRcvd level delay
      [FConnectionClose ccf] rand r.
Proof. apply PackConnectionClose_spec. Qed.
End compose.

(** ** Witnesses: packets that are not encrypted *)

Definition plainSeal : Sealer := fun src _ _ => src ++ replicate 12 0.
#[local] Instance sampleCrypto : CryptoSetup unit :=
  {| CryptoOpen _ src _ _ := Ok (src, EncryptionForwardSecure);
     GetSealer _ := (EncryptionForwardSecure, plainSeal);
     GetSealerWithEncryptionLevel _ _ := Ok plainSeal;
     DiversificationNonce _ := replicate 32 0 |}.
Definition samplePeer (level : Z) : quicAEAD :=
  {| Open := fun src _ _ => Ok (take (length src - 12) src, level) |}.

Lemma plainSeal_seals level : seals plainSeal (samplePeer level) level.
Proof.
  split; intros src pn ad; unfold plainSeal.
  - rewrite len_app. reflexivity.
  - unfold Open, samplePeer. rewrite length_app, length_replicate, Nat.add_sub. by rewrite take_app_length.
Qed.

#[local] Existing Instance sampleMethods.
Definition samplePack : packState (F := flowControlManager) :=
  mkPackState (QueueControlFrameForNextPacket (newPacketPacker 42 PerspectiveServer 37) (FPing mkPingFrame))
    sampleFramer sampleMapWriting sampleFlow0.

Lemma samplePack_ok : pack_ok (sends_ok := within_windows sampleParams) (control_ok 0) samplePack.
Proof.
  constructor; [by repeat constructor| |apply sampleMapWriting_ok|by vm_compute|apply sampleFlow0_within].
  split; repeat constructor; done.
Qed.

Lemma samplePack_params level leastUnacked :
  0 <= leastUnacked <= 1 -> header_params (pst_packer samplePack) tt sampleParams level leastUnacked.
Proof. intros ?. constructor; simpl; unfold Peek; simpl; intros; first [lia | discriminate | reflexivity]. Qed.

Lemma samplePack_arrives level leastUnacked :
  0 <= leastUnacked <= 1 -> arrives (samplePeer level) (pst_packer samplePack) plainSeal level leastUnacked 0.
Proof. intros ?. constructor; [apply plainSeal_seals| |]; simpl; unfold Peek; simpl; lia. Qed.

Definition sampleControl : list Frame := [FWindowUpdate (mkWindowUpdateFrame 5 70000)].
Definition sampleStopWaiting : StopWaitingFrame := mkStopWaitingFrame 1 0 0.
Definition samplePacked := PackPacket noSteps samplePack tt sampleParams (Some sampleStopWaiting) sampleControl 1 0 (Ok (0, 0)).

Lemma pack_packet_delivered_witness :
  exists pkt, samplePacked.2 = Ok (Some pkt) /\ length (pkt_frames pkt) = 5%nat /\
    @receive (samplePeer EncryptionForwardSecure) PerspectiveServer 0 (pkt_raw pkt) =
    Ok (mkUnpackedPacket EncryptionForwardSecure (map (frame_received 0) (pkt_frames pkt))).
Proof.
  pose proof (flowControlManager_laws sampleParams sampleParams_ok) as Hlaws.
  destruct (pack_packet_delivered (sends_ok := within_windows sampleParams) noSteps (proj1 noSteps_ok)
    (or_introl (proj2 noSteps_ok)) samplePack tt sampleParams
    (Some sampleStopWaiting) sampleControl 1 0 (Ok (0, 0)) EncryptionForwardSecure plainSeal
    (samplePeer EncryptionForwardSecure) 0) as (st1 & fs & st' & r & E & [(taken & rest & ? & ? & ? & Efs & Ectl & Hroom & Ep & _) _ _] & _ & _ & Hd).
  - apply samplePack_ok.
  - by repeat constructor.
  - apply samplePack_params. lia.
  - apply samplePack_arrives. lia.
  - reflexivity.
  - intros f [= <-]. simpl. unfold Peek. simpl. lia.
  - assert (samplePacked.2 = r) as <- by (unfold samplePacked; by rewrite E).
    assert (fs <> [FStopWaiting (numbered (pst_packer samplePack) 1 sampleStopWaiting)]) as Hne.
    { rewrite Efs. destruct taken; [|done]. rewrite app_nil_r in Ectl. rewrite <- Ectl in Hroom.
      vm_compute in Hroom. discriminate. }
    specialize (Hd Hne). unfold delivered in Hd. rewrite andb_false_r in Hd. destruct Hd as (_ & raw & Hr & _ & Hrecv).
    rewrite Ep in Hrecv. eexists. split; [exact Hr|]. split; [|exact Hrecv].
    assert (match samplePacked.2 with Ok (Some p) => pkt_frames p | _ => [] end = fs) as <- by (by rewrite Hr).
    by vm_compute.
Defined.

Definition sampleHandshake : Packet :=
  mkPacket 1 [FStopWaiting (mkStopWaitingFrame 1 2 1); FStream (mkStreamFrame 1 false false 0 [1; 2; 3])]
    45 EncryptionSecure 0.

Lemma retransmit_handshake_delivered_witness :
  exists st' pkt,
    RetransmitNonForwardSecurePacket noSteps samplePack tt sampleParams (Some sampleStopWaiting) sampleHandshake 0 (Ok (0, 0))
      = (st', Ok (Some pkt)) /\
    @receive (samplePeer EncryptionSecure) PerspectiveServer 0 (pkt_raw pkt) =
    Ok (mkUnpackedPacket EncryptionSecure
          [FStopWaiting (mkStopWaitingFrame 1 0 0); FStream (mkStreamFrame 1 false false 0 [1; 2; 3])]).
Proof.
  destruct (retransmit_handshake_delivered noSteps samplePack tt sampleParams sampleStopWaiting sampleHandshake 0 (Ok (0, 0))
    plainSeal (samplePeer EncryptionSecure) 0 (newPacketNumberGenerator 500) 0 1 2 0) as (st' & r & E & Hd).
  - apply (samplePack_params _ 0). lia.
  - vm_compute. discriminate.
  - repeat constructor; simpl; try done; lia.
  - intros f Hf. apply list_elem_of_singleton in Hf as ->. reflexivity.
  - discriminate.
  - discriminate.
  - reflexivity.
  - apply samplePack_params. lia.
  - apply samplePack_arrives. lia.
  - simpl. unfold Peek. simpl. lia.
  - destruct Hd as (_ & raw & -> & _ & Hrecv). by eexists _, _.
Defined.

Definition sampleClose : ConnectionCloseFrame := mkConnectionCloseFrame PeerGoingAway [98; 121; 101].

Lemma pack_connection_close_delivered_witness :
  exists st' pkt,
    PackConnectionClose noSteps samplePack tt sampleParams sampleClose 1 0 (Ok (0, 0)) = (st', Ok (Some pkt)) /\
    @receive (samplePeer EncryptionForwardSecure) PerspectiveServer 0 (pkt_raw pkt) =
    Ok (mkUnpackedPacket EncryptionForwardSecure [FConnectionClose sampleClose]).
Proof.
  destruct (pack_connection_close_delivered noSteps samplePack tt sampleParams sampleClose 1 0 (Ok (0, 0))
    EncryptionForwardSecure plainSeal (samplePeer EncryptionForwardSecure) 0) as (st' & r & E & Hd).
  - apply samplePack_params. lia.
  - apply samplePack_arrives. lia.
  - reflexivity.
  - by vm_compute.
  - by vm_compute.
  - destruct Hd as (_ & raw & -> & _ & Hrecv). by eexists _, _.
Defined.
