(* ===== verification/Session.v ===== *)
(** * session.go: the run loop of a connection

    The session connects the components: it hands the frames of received packets to the
    streams, to flow control and to the handlers of ACK frames, composes packets from what
    these want to send, keeps one timer for all deadlines, and closes the connection.

    The states of the framer, the packer, the streams map and flow control are a [packState].
    Channels are lists.  What the connection (package net or PLUS) is told is logged in
    [ss_out]; [connWrite] is what a write returns.  The crypto setup is the interface
    [CryptoSetup]; congestion control is [SendAlgorithm].  A handler reads the clock once,
    [now].  What the goroutine of the crypto setup has sent on [aeadChanged], and whether it is
    ready to receive a diversification nonce, is part of the environment of an iteration, as
    are the steps of the application while a packet is packed.  [Panic] also stands for an operation on a channel that blocks for ever. *)

From Stdlib Require Ascii String.
From S2P Require Import Prelude Protocol Qerr Wire Frames AckFrame Frame ReceivedPackets PublicHeader PacketUnpacker.
From S2P Require Import StreamFrameSorter Handshake FlowControl RTTStats SendAlgorithm SentPackets.
From S2P Require Import PacketNumberGenerator StreamsMap Stream StreamFramer PacketPacker.

Definition errRstStreamOnInvalidStream : goerror := ErrNew "RST_STREAM received for unknown stream".
Definition errWindowUpdateOnClosedStream : goerror :=
  ErrNew "WINDOW_UPDATE received for an already closed stream".
Definition errSessionAlreadyClosed : goerror := ErrNew "cannot close session; it was already closed before".
Definition errCloseSessionForNewVersion : goerror :=
  ErrNew "closing session in order to recreate it with a new version".

(** ** Data *)

Record receivedPacket : Type := mkReceivedPacket {
  rp_remoteAddr : Z;
  rp_publicHeader : PublicHeader;
  rp_data : list Z;
  rp_rcvTime : Z;
  rp_feedbackData : option (list Z);
}.

Record closeError : Type := mkCloseError {
  ce_err : goerror;
  ce_remote : bool;
}.

(** What the connection and the crypto setup are told *)
Inductive output : Type :=
| Written (raw : list Z)
| RemoteAddr (addr : Z)
| SetNonce (nonce : list Z)
| PCFFeedback (data : list Z).

(** A [time.Timer]: the time it is set to, and whether its channel holds a value *)
Record timer : Type := mkTimer {
  tm_running : option Z;
  tm_C : bool;
}.

Record timing : Type := mkTiming {
  tg_handshakeComplete : bool;
  tg_nextAckScheduledTime : Z;
  tg_receivedTooManyUndecrytablePacketsTime : Z;
  tg_sessionCreationTime : Z;
  tg_lastNetworkActivityTime : Z;
  tg_timer : timer;
  tg_currentDeadline : Z;
  tg_timerRead : bool;
}.

Record channels : Type := mkChannels {
  ch_receivedPackets : list receivedPacket;
  ch_sendingScheduled : bool;
  ch_closeChan : list closeError;
  ch_closed : bool;
  ch_undecryptablePackets : list receivedPacket;
}.

Record handshakeEvent : Type := mkHandshakeEvent {
  hev_encLevel : Z;
  hev_err : option goerror;
}.

(** The channels of the handshake: how many encryption levels were received from
    [aeadChanged], what [handshakeChan] and [handshakeCompleteChan] hold, and whether these two
    are closed *)
Record handshakeChans : Type := mkHandshakeChans {
  hc_levelsRead : nat;
  hc_handshakeChan : list handshakeEvent;
  hc_handshakeCompleteChan : list goerror;
  hc_closed : bool;
}.

(** [if !s.timer.Stop() && !s.timerRead { <-s.timer.C }], then [s.timer.Reset] *)
Definition resetTimer (t : timer) (timerRead : bool) (deadline : Z) : res timer :=
  match tm_running t with
  | Some _ => Ok (mkTimer (Some deadline) (tm_C t))
  | None =>
      if timerRead then Ok (mkTimer (Some deadline) (tm_C t))
      else if tm_C t then Ok (mkTimer (Some deadline) false)
      else Panic
  end.

Definition MinTime (a b : Z) : Z := if b <? a then b else a.

(** [string(b)] *)
Definition stringOf (b : list Z) : string :=
  String.string_of_list_ascii (map (fun x => Ascii.ascii_of_N (Z.to_N x)) b).

Section session.
Context {C A : Type} `{CryptoSetup C} `{ConnectionParametersManager A} `{SendAlgorithm}.

(** The text of an error message, which [fmt] formats *)
Context (render : errmsg -> list Z).

(** What an operation finds around it: the clock, the connection parameters and the crypto
    setup as they are, the age of the packet that an ACK frame acknowledges, the order in which
    Go iterates over the flow controllers, the random bytes of the packet number generator, and
    the result of writing to the connection.  [e_app] is what the application does to the
    streams while the framer works.  [e_levels] are the encryption levels that the crypto setup
    has sent on [aeadChanged] so far, [e_complete] says whether it has closed this channel, and
    [e_receives] whether its goroutine comes to receive a diversification nonce, for which the
    channel has no buffer. *)
Record env : Type := mkEnv {
  e_now : Z;
  e_cp : A;
  e_crypto : C;
  e_delay : Z;
  e_order : list Z;
  e_rand : res (Z * Z);
  e_write : res unit;
  e_app : appSteps;
  e_levels : list Z;
  e_complete : bool;
  e_receives : bool;
}.

Record session : Type := mkSession {
  ss_perspective : Perspective;
  ss_usePLUS : bool;
  ss_connectionID : Z;
  ss_pack : packState (F := flowControlManager);
  ss_sph : sentPacketHandler;
  ss_rph : receivedPacketHandler;
  ss_lastRcvdPacketNumber : Z;
  ss_largestRcvdPacketNumber : Z;
  ss_time : timing;
  ss_ch : channels;
  ss_hs : handshakeChans;
  ss_out : list output;
}.

Definition set_pack (s : session) (st : packState) : session :=
  mkSession (ss_perspective s) (ss_usePLUS s) (ss_connectionID s) st (ss_sph s) (ss_rph s)
    (ss_lastRcvdPacketNumber s) (ss_largestRcvdPacketNumber s) (ss_time s) (ss_ch s) (ss_hs s) (ss_out s).
Definition set_sph (s : session) (h : sentPacketHandler) : session :=
  mkSession (ss_perspective s) (ss_usePLUS s) (ss_connectionID s) (ss_pack s) h (ss_rph s)
    (ss_lastRcvdPacketNumber s) (ss_largestRcvdPacketNumber s) (ss_time s) (ss_ch s) (ss_hs s) (ss_out s).
Definition set_rph (s : session) (h : receivedPacketHandler) : session :=
  mkSession (ss_perspective s) (ss_usePLUS s) (ss_connectionID s) (ss_pack s) (ss_sph s) h
    (ss_lastRcvdPacketNumber s) (ss_largestRcvdPacketNumber s) (ss_time s) (ss_ch s) (ss_hs s) (ss_out s).
Definition set_rcvd (s : session) (last largest : Z) : session :=
  mkSession (ss_perspective s) (ss_usePLUS s) (ss_connectionID s) (ss_pack s) (ss_sph s) (ss_rph s)
    last largest (ss_time s) (ss_ch s) (ss_hs s) (ss_out s).
Definition set_time (s : session) (t : timing) : session :=
  mkSession (ss_perspective s) (ss_usePLUS s) (ss_connectionID s) (ss_pack s) (ss_sph s) (ss_rph s)
    (ss_lastRcvdPacketNumber s) (ss_largestRcvdPacketNumber s) t (ss_ch s) (ss_hs s) (ss_out s).
Definition set_ch (s : session) (ch : channels) : session :=
  mkSession (ss_perspective s) (ss_usePLUS s) (ss_connectionID s) (ss_pack s) (ss_sph s) (ss_rph s)
    (ss_lastRcvdPacketNumber s) (ss_largestRcvdPacketNumber s) (ss_time s) ch (ss_hs s) (ss_out s).
Definition set_hs (s : session) (hs : handshakeChans) : session :=
  mkSession (ss_perspective s) (ss_usePLUS s) (ss_connectionID s) (ss_pack s) (ss_sph s) (ss_rph s)
    (ss_lastRcvdPacketNumber s) (ss_largestRcvdPacketNumber s) (ss_time s) (ss_ch s) hs (ss_out s).
Definition tell (s : session) (o : output) : session :=
  mkSession (ss_perspective s) (ss_usePLUS s) (ss_connectionID s) (ss_pack s) (ss_sph s) (ss_rph s)
    (ss_lastRcvdPacketNumber s) (ss_largestRcvdPacketNumber s) (ss_time s) (ss_ch s) (ss_hs s) (ss_out s ++ [o]).

(** *** The timer *)

Definition idleTimeout (e : env) (t : timing) : Z :=
  if tg_handshakeComplete t then GetIdleConnectionStateLifetime (e_cp e) else InitialIdleTimeout.

(** The first part of [maybeResetTimer] *)
Definition nextDeadline (e : env) (s : session) : Z :=
  let t := ss_time s in
  let d := tg_lastNetworkActivityTime t + idleTimeout e t in
  let d := if negb (tg_nextAckScheduledTime t =? 0) then MinTime d (tg_nextAckScheduledTime t) else d in
  let lossTime := GetAlarmTimeout (ss_sph s) in
  let d := if negb (lossTime =? 0) then MinTime d lossTime else d in
  let d :=
    if negb (tg_handshakeComplete t)
    then MinTime d (tg_sessionCreationTime t + MaxTimeForCryptoHandshake) else d in
  if negb (tg_receivedTooManyUndecrytablePacketsTime t =? 0)
  then MinTime d (tg_receivedTooManyUndecrytablePacketsTime t + PublicResetTimeout) else d.

Definition set_timer (t : timing) (tm : timer) (deadline : Z) (read : bool) : timing :=
  mkTiming (tg_handshakeComplete t) (tg_nextAckScheduledTime t) (tg_receivedTooManyUndecrytablePacketsTime t)
    (tg_sessionCreationTime t) (tg_lastNetworkActivityTime t) tm deadline read.
Definition set_nextAck (t : timing) (x : Z) : timing :=
  mkTiming (tg_handshakeComplete t) x (tg_receivedTooManyUndecrytablePacketsTime t)
    (tg_sessionCreationTime t) (tg_lastNetworkActivityTime t) (tg_timer t) (tg_currentDeadline t) (tg_timerRead t).
Definition set_tooMany (t : timing) (x : Z) : timing :=
  mkTiming (tg_handshakeComplete t) (tg_nextAckScheduledTime t) x
    (tg_sessionCreationTime t) (tg_lastNetworkActivityTime t) (tg_timer t) (tg_currentDeadline t) (tg_timerRead t).
Definition set_activity (t : timing) (x : Z) : timing :=
  mkTiming (tg_handshakeComplete t) (tg_nextAckScheduledTime t) (tg_receivedTooManyUndecrytablePacketsTime t)
    (tg_sessionCreationTime t) x (tg_timer t) (tg_currentDeadline t) (tg_timerRead t).
Definition set_complete (t : timing) : timing :=
  mkTiming true (tg_nextAckScheduledTime t) (tg_receivedTooManyUndecrytablePacketsTime t)
    (tg_sessionCreationTime t) (tg_lastNetworkActivityTime t) (tg_timer t) (tg_currentDeadline t) (tg_timerRead t).

Definition maybeResetTimer (e : env) (s : session) : res session :=
  let d := nextDeadline e s in
  let t := ss_time s in
  if d =? tg_currentDeadline t then Ok s
  else
    let! tm := resetTimer (tg_timer t) (tg_timerRead t) d in
    Ok (set_time s (set_timer t tm d false)).

Definition ackAlarmChanged (e : env) (s : session) (x : Z) : res session :=
  maybeResetTimer e (set_time s (set_nextAck (ss_time s) x)).

(** *** Channels *)

Definition scheduleSending (s : session) : session :=
  let ch := ss_ch s in
  set_ch s (mkChannels (ch_receivedPackets ch) true (ch_closeChan ch) (ch_closed ch) (ch_undecryptablePackets ch)).

Definition handlePacket (s : session) (p : receivedPacket) : session :=
  let ch := ss_ch s in
  if len (ch_receivedPackets ch) <? MaxSessionUnprocessedPackets
  then set_ch s (mkChannels (ch_receivedPackets ch ++ [p]) (ch_sendingScheduled ch) (ch_closeChan ch)
                   (ch_closed ch) (ch_undecryptablePackets ch))
  else s.

Definition set_undecryptable (s : session) (ps : list receivedPacket) : session :=
  let ch := ss_ch s in
  set_ch s (mkChannels (ch_receivedPackets ch) (ch_sendingScheduled ch) (ch_closeChan ch) (ch_closed ch) ps).

Definition tryQueueingUndecryptablePacket (e : env) (s : session) (p : receivedPacket) : res session :=
  if tg_handshakeComplete (ss_time s) then Ok s
  else if len (ch_undecryptablePackets (ss_ch s)) + 1 >? MaxUndecryptablePackets then
    if tg_receivedTooManyUndecrytablePacketsTime (ss_time s) =? 0
    then maybeResetTimer e (set_time s (set_tooMany (ss_time s) (e_now e)))
    else Ok s
  else Ok (set_undecryptable s (ch_undecryptablePackets (ss_ch s) ++ [p])).

Definition tryDecryptingQueuedPackets (s : session) : session :=
  set_undecryptable (fold_left handlePacket (ch_undecryptablePackets (ss_ch s)) s) [].

(** *** Streams *)

Definition queueControlFrame (s : session) (f : Frame) : session :=
  set_pack s (pst_set_packer (ss_pack s) (QueueControlFrameForNextPacket (pst_packer (ss_pack s)) f)).

Definition queuePLUSFeedbackFrame (s : session) (data : list Z) : session :=
  scheduleSending (queueControlFrame s (FPLUSFeedback (mkPLUSFeedbackFrame data))).

Definition queueResetStreamFrame (s : session) (id offset : Z) : session :=
  scheduleSending (queueControlFrame s (FRstStream (mkRstStreamFrame id 0 offset))).

(** The callbacks of a stream *)
Definition signalled (s : session) (sigs : list signal) : session :=
  fold_left (fun s sig =>
    match sig with
    | OnData => scheduleSending s
    | OnReset id offset => queueResetStreamFrame s id offset
    end) sigs s.

(** [session.newStream], on the flow controllers *)
Definition session_newStream (cp : A) (fc : flowControlManager) (id : Z) : flowControlManager * res stream :=
  (fcm_NewStream cp fc id (negb ((id =? 1) || (id =? 3))), Ok (newStream id)).

Definition set_streams (s : session) (m : streamsMap (S := stream)) (fc : flowControlManager) : session :=
  let st := ss_pack s in
  set_pack s (mkPackState (pst_packer st) (pst_framer st) m fc).

Definition session_GetOrOpenStream (e : env) (s : session) (id : Z) : session * res (option stream) :=
  let '(m, fc, r) :=
    SM_GetOrOpenStream s_streamID (session_newStream (e_cp e)) (e_cp e) (pst_streams (ss_pack s))
      (pst_fc (ss_pack s)) id in
  (set_streams s m fc, r).

Definition session_OpenStream (e : env) (s : session) : session * res stream :=
  let '(m, fc, r) :=
    SM_OpenStream s_streamID (session_newStream (e_cp e)) (e_cp e) (pst_streams (ss_pack s)) (pst_fc (ss_pack s)) in
  (set_streams s m fc, r).

Definition session_OpenStreamSync (e : env) (s : session) : session * res (option stream) :=
  let '(m, fc, r) :=
    SM_OpenStreamSync s_streamID (session_newStream (e_cp e)) (e_cp e) (pst_streams (ss_pack s)) (pst_fc (ss_pack s)) in
  (set_streams s m fc, r).

Definition session_AcceptStream (s : session) : session * res (option stream) :=
  let '(m, r) := SM_AcceptStream (pst_streams (ss_pack s)) in
  (set_streams s m (pst_fc (ss_pack s)), r).

(** The stream with this ID after an operation on it *)
Definition set_stream_state (s : session) (str : stream) : session :=
  set_streams s (putBack (pst_streams (ss_pack s)) str) (pst_fc (ss_pack s)).

(** [closeStreamsWithError] *)
Definition cancelStream (err : goerror) : streamLambda (S := stream) (W := unit) := fun st str =>
  ((putBack st.1 (Cancel str (Some err)), st.2), (true, None)).

Definition closeStreamsWithError (s : session) (err : goerror) : session :=
  set_streams s (Iterate (pst_streams (ss_pack s), tt) (cancelStream err)).1.1 (pst_fc (ss_pack s)).

(** The callback of [garbageCollectStreams] *)
Definition collectStream : streamLambda (S := stream) (W := flowControlManager) := fun st str =>
  let id := s_streamID str in
  if finished str then
    match SM_RemoveStream st.1 id with
    | (m, Ok _) => ((m, RemoveStream st.2 id), (true, None))
    | (m, Err e) => ((m, st.2), (false, Some e))
    | (m, Panic) => ((m, st.2), (false, None))
    end
  else (st, (true, None)).

Definition garbageCollectStreams (s : session) : session :=
  let '(m, fc) := (Iterate (pst_streams (ss_pack s), pst_fc (ss_pack s)) collectStream).1 in
  set_streams s m fc.

(** *** Closing *)

Definition registerClose (s : session) (err : option goerror) (remoteClose : bool) : session * res unit :=
  let ch := ss_ch s in
  if ch_closed ch then (s, Err errSessionAlreadyClosed)
  else
    let err := default (ErrorCodeErr PeerGoingAway) err in
    let s :=
      if decide (err = errCloseSessionForNewVersion)
      then
        closeStreamsWithError
          (set_streams s (SM_CloseWithError (pst_streams (ss_pack s)) (Some err)) (pst_fc (ss_pack s))) err
      else s in
    (set_ch s (mkChannels (ch_receivedPackets ch) (ch_sendingScheduled ch)
                 (ch_closeChan ch ++ [mkCloseError err remoteClose]) true (ch_undecryptablePackets ch)), Ok tt).

(** [session.close]; its result is not used *)
Definition session_close (s : session) (err : goerror) : session := (registerClose s (Some err) false).1.

Definition sendPublicReset (e : env) (s : session) (rejectedPacketNumber : Z) : session * res unit :=
  (tell s (Written (writePublicReset (ss_connectionID s) rejectedPacketNumber 0)), e_write e).

Definition sendConnectionClose (e : env) (s : session) (code : Z) (reason : list Z) : session * res unit :=
  match PackConnectionClose (FC := flowControlManager_methods (e_cp e)) (e_app e) (ss_pack s) (e_crypto e) (e_cp e) (mkConnectionCloseFrame code reason)
          (GetLeastUnacked (ss_sph s)) (e_delay e) (e_rand e) with
  | (st, Ok (Some packet)) => (tell (set_pack s st) (Written (pkt_raw packet)), e_write e)
  | (st, Ok None) => (set_pack s st, Err (ErrNew "Session BUG: expected packet not to be nil"))
  | (st, Err err) => (set_pack s st, Err err)
  | (st, Panic) => (set_pack s st, Panic)
  end.

Definition errorCode (err : goerror) : Z := match err with QuicError code _ => code | _ => 0 end.
Definition errorMessage (err : goerror) : errmsg := match err with QuicError _ msg => msg | _ => Msg "" end.

Definition handleCloseError (e : env) (s : session) (closeErr : closeError) : session * res unit :=
  let quicErr := ToQuicError (ce_err closeErr) in
  if decide (ce_err closeErr = errCloseSessionForNewVersion) then (s, Ok tt)
  else
    let s := set_streams s (SM_CloseWithError (pst_streams (ss_pack s)) (Some quicErr)) (pst_fc (ss_pack s)) in
    let s := closeStreamsWithError s quicErr in
    if ce_remote closeErr then (s, Ok tt)
    else if (errorCode quicErr =? DecryptionFailure) || bool_decide (quicErr = ErrHOLExperiment)
    then sendPublicReset e s (ss_lastRcvdPacketNumber s)
    else sendConnectionClose e s (errorCode quicErr) (render (errorMessage quicErr)).

(** *** Received packets *)

Definition handleStreamFrame (e : env) (s : session) (frame : StreamFrame) : session * res unit :=
  match session_GetOrOpenStream e s (sf_StreamID frame) with
  | (s, Ok None) => (s, Ok tt)
  | (s, Ok (Some str)) =>
      let '(str, fc, r) :=
        @AddStreamFrame _ (flowControlManager_methods (e_cp e)) str (pst_fc (ss_pack s)) frame in
      (set_streams s (putBack (pst_streams (ss_pack s)) str) fc, r)
  | (s, Err err) => (s, Err err)
  | (s, Panic) => (s, Panic)
  end.

Definition handleWindowUpdateFrame (e : env) (s : session) (frame : WindowUpdateFrame) : session * res unit :=
  let id := wuf_StreamID frame in
  let update (s : session) :=
    let '(fc, r) := UpdateWindow (pst_fc (ss_pack s)) id (wuf_ByteOffset frame) in
    (set_streams s (pst_streams (ss_pack s)) fc, let! _ := r in Ok tt) in
  if negb (id =? 0) then
    match session_GetOrOpenStream e s id with
    | (s, Ok None) => (s, Err errWindowUpdateOnClosedStream)
    | (s, Ok (Some _)) => update s
    | (s, Err err) => (s, Err err)
    | (s, Panic) => (s, Panic)
    end
  else update s.

Definition handleRstStreamFrame (e : env) (s : session) (frame : RstStreamFrame) : session * res unit :=
  match session_GetOrOpenStream e s (rsf_StreamID frame) with
  | (s, Ok None) => (s, Err errRstStreamOnInvalidStream)
  | (s, Ok (Some str)) =>
      let '(str, sigs) :=
        RegisterRemoteError str (Some (Errorf "RST_STREAM received with code %d" [rsf_ErrorCode frame])) in
      let s := signalled (set_stream_state s str) sigs in
      let '(fc, r) := ResetStream (pst_fc (ss_pack s)) (rsf_StreamID frame) (rsf_ByteOffset frame) in
      (set_streams s (pst_streams (ss_pack s)) fc, r)
  | (s, Err err) => (s, Err err)
  | (s, Panic) => (s, Panic)
  end.

Definition handleAckFrame (e : env) (s : session) (frame : AckFrame) : session * res unit :=
  let '(h, r) :=
    ReceivedAck (ss_sph s) frame (ss_lastRcvdPacketNumber s) (tg_lastNetworkActivityTime (ss_time s))
      (e_now e) (e_now e) (e_now e) (e_now e) in
  (set_sph s h, r).

Definition handleFrame (e : env) (s : session) (ff : Frame) : session * res unit :=
  match ff with
  | FStream frame => handleStreamFrame e s frame
  | FAck frame => handleAckFrame e s frame
  | FConnectionClose frame =>
      ((registerClose s (Some (QuicError (ccf_ErrorCode frame) (Msg (stringOf (ccf_ReasonPhrase frame))))) true).1, Ok tt)
  | FGoaway _ => (s, Err (ErrNew "unimplemented: handling GOAWAY frames"))
  | FStopWaiting frame => (set_rph s (Handler_ReceivedStopWaiting (ss_rph s) frame), Ok tt)
  | FRstStream frame => handleRstStreamFrame e s frame
  | FWindowUpdate frame => handleWindowUpdateFrame e s frame
  | FBlocked _ | FPing _ => (s, Ok tt)
  | FPLUSFeedback frame => (if ss_usePLUS s then tell s (PCFFeedback (pf_Data frame)) else s, Ok tt)
  end.

(** The errors that [handleFrames] passes over *)
Definition ignoredError (err : goerror) : bool :=
  bool_decide (err = ErrDuplicateOrOutOfOrderAck) || bool_decide (err = errRstStreamOnInvalidStream)
  || bool_decide (err = errWindowUpdateOnClosedStream).

Fixpoint handleFrames (e : env) (s : session) (fs : list Frame) : session * res unit :=
  match fs with
  | [] => (s, Ok tt)
  | ff :: fs =>
      match handleFrame e s ff with
      | (s, Ok _) => handleFrames e s fs
      | (s, Err err) => if ignoredError err then handleFrames e s fs else (s, Err err)
      | (s, Panic) => (s, Panic)
      end
  end.

Definition isDecryptionFailure (err : goerror) : bool :=
  match err with QuicError code _ => code =? DecryptionFailure | _ => false end.

(** [handlePacketImpl] up to unpacking: the packet number is inferred in place *)
Definition inferInPlace (e : env) (s : session) (p : receivedPacket) : receivedPacket :=
  mkReceivedPacket (rp_remoteAddr p) (inferPacketNumber (rp_publicHeader p) (ss_largestRcvdPacketNumber s))
    (rp_data p) (if rp_rcvTime p =? 0 then e_now e else rp_rcvTime p) (rp_feedbackData p).

(** The part of [handlePacketImpl] after a packet was unpacked *)
Definition handleUnpacked (e : env) (s : session) (p : receivedPacket) (packet : unpackedPacket)
    : session * res unit :=
  let pn := ph_PacketNumber (rp_publicHeader p) in
  let s := set_rcvd s pn (MaxPacketNumber (ss_largestRcvdPacketNumber s) pn) in
  let '(h, alarm, r) :=
    Handler_ReceivedPacket (ss_rph s) (e_now e) pn (unpackedPacket_IsRetransmittable packet) in
  let s := set_rph s h in
  match match alarm with Some t => ackAlarmChanged e s t | None => Ok s end with
  | Ok s =>
      match r with
      | Err err =>
          if bool_decide (err = ErrDuplicatePacket) || bool_decide (err = ErrPacketSmallerThanLastStopWaiting)
          then (s, Ok tt) else (s, Err err)
      | Ok _ =>
          let s :=
            match rp_feedbackData p with
            | Some d => if ss_usePLUS s then queuePLUSFeedbackFrame s d else s
            | None => s
            end in
          handleFrames e s (up_frames packet)
      | Panic => (s, Panic)
      end
  | Err err => (s, Err err)
  | Panic => (s, Panic)
  end.

(** The diversification nonce is handed to the goroutine of the crypto setup; the run loop is
    stuck if this does not come to receive it. *)
Definition handlePacketImpl (e : env) (s : session) (p : receivedPacket) : session * receivedPacket * res unit :=
  let p := inferInPlace e s p in
  let hdr := rp_publicHeader p in
  let hasNonce := is_client (ss_perspective s) && (len (ph_DiversificationNonce hdr) >? 0) in
  if hasNonce && negb (e_receives e) then (s, p, Panic)
  else
    let s := if hasNonce then tell s (SetNonce (ph_DiversificationNonce hdr)) else s in
    let s := set_time s (set_activity (ss_time s) (rp_rcvTime p)) in
    match @Unpack {| Open := CryptoOpen (e_crypto e) |} (ph_Raw hdr) hdr (rp_data p) with
    | Err err =>
        if isDecryptionFailure err then (s, p, Err err)
        else
          (if is_server (ss_perspective s) then tell s (RemoteAddr (rp_remoteAddr p)) else s, p, Err err)
    | Ok packet =>
        let s := if is_server (ss_perspective s) then tell s (RemoteAddr (rp_remoteAddr p)) else s in
        let '(s, r) := handleUnpacked e s p packet in
        (s, p, r)
    | Panic => (s, p, Panic)
    end.

(** *** Sending packets *)

Definition sendPackedPacket (e : env) (s : session) (packet : packedPacket) : session * res unit :=
  match SentPacket (ss_sph s)
          (mkPacket (pkt_number packet) (pkt_frames packet) (len (pkt_raw packet)) (pkt_encryptionLevel packet) 0)
          (e_now e) (e_now e) with
  | (h, Ok _) => (tell (set_sph s h) (Written (pkt_raw packet)), e_write e)
  | (h, r) => (set_sph s h, r)
  end.

Definition getWindowUpdateFrames (e : env) (s : session) : session * list WindowUpdateFrame :=
  let '(fc, updates) :=
    GetWindowUpdates (pst_fc (ss_pack s)) (e_now e) (SmoothedRTT (rttStats (ss_sph s))) (e_order e) in
  (set_streams s (pst_streams (ss_pack s)) fc,
   map (fun u => mkWindowUpdateFrame (wu_StreamID u) (wu_Offset u)) updates).

(** A frame of a packet that is sent again: to the framer, to the control frames, or dropped *)
Definition resendFrame (st : session * list Frame) (frame : Frame) : session * list Frame :=
  let '(s, controlFrames) := st in
  match frame with
  | FStream f =>
      let ps := ss_pack s in
      (set_pack s (mkPackState (pst_packer ps) (AddFrameForRetransmission (pst_framer ps) f)
                     (pst_streams ps) (pst_fc ps)), controlFrames)
  | FWindowUpdate f =>
      match GetReceiveWindow (pst_fc (ss_pack s)) (wuf_StreamID f) with
      | Ok currentOffset =>
          if wuf_ByteOffset f >=? currentOffset then (s, controlFrames ++ [frame]) else (s, controlFrames)
      | _ => (s, controlFrames)
      end
  | _ => (s, controlFrames ++ [frame])
  end.

(** The loop over the packets that are queued for retransmission.  Each round takes an
    environment; without one for the next packet the loop does not end, which is [Panic]. *)
Fixpoint resendPackets (es : list env) (s : session) (controlFrames : list Frame)
    : list env * session * res (list Frame) :=
  match DequeuePacketForRetransmission (ss_sph s) with
  | (_, None) => (es, s, Ok controlFrames)
  | (h, Some retransmitPacket) =>
      let s := set_sph s h in
      match es with
      | [] => ([], s, Panic)
      | e :: es =>
          if negb (p_EncryptionLevel retransmitPacket =? EncryptionForwardSecure) then
            let '(h, stopWaitingFrame) := GetStopWaitingFrame (ss_sph s) true in
            let s := set_sph s h in
            match RetransmitNonForwardSecurePacket (FC := flowControlManager_methods (e_cp e)) (e_app e) (ss_pack s)
                    (e_crypto e) (e_cp e) stopWaitingFrame retransmitPacket (e_delay e) (e_rand e) with
            | (st, Ok None) => resendPackets es (set_pack s st) controlFrames
            | (st, Ok (Some packet)) =>
                match sendPackedPacket e (set_pack s st) packet with
                | (s, Ok _) => resendPackets es s controlFrames
                | (s, Err err) => (es, s, Err err)
                | (s, Panic) => (es, s, Panic)
                end
            | (st, Err err) => (es, set_pack s st, Err err)
            | (st, Panic) => (es, set_pack s st, Panic)
            end
          else
            let '(s, controlFrames) :=
              fold_left resendFrame (GetFramesForRetransmission retransmitPacket) (s, controlFrames) in
            resendPackets es s controlFrames
      end
  end.

(** The rest of a round of [sendPacket]: [Ok true] when a packet was sent *)
Definition sendNewPacket (e : env) (s : session) (windowUpdateFrames : list WindowUpdateFrame)
    (controlFrames : list Frame) : session * res bool :=
  match GetAckFrame (ss_rph s) (e_now e) with
  | Ok (h, ack) =>
      let s := set_rph s h in
      let controlFrames := controlFrames ++ option_list (FAck <$> ack) in
      let hasRetransmission := HasFramesForRetransmission (pst_framer (ss_pack s)) in
      let '(h, stopWaitingFrame) :=
        if bool_decide (is_Some ack) || hasRetransmission
        then GetStopWaitingFrame (ss_sph s) hasRetransmission else (ss_sph s, None) in
      let s := set_sph s h in
      match PackPacket (FC := flowControlManager_methods (e_cp e)) (e_app e) (ss_pack s) (e_crypto e) (e_cp e)
              stopWaitingFrame controlFrames (GetLeastUnacked (ss_sph s)) (e_delay e) (e_rand e) with
      | (st, Ok None) => (set_pack s st, Ok false)
      | (st, Ok (Some packet)) =>
          let s := fold_left queueControlFrame (map FWindowUpdate windowUpdateFrames) (set_pack s st) in
          match sendPackedPacket e s packet with
          | (s, Ok _) => (set_time s (set_nextAck (ss_time s) 0), Ok true)
          | (s, Err err) => (s, Err err)
          | (s, Panic) => (s, Panic)
          end
      | (st, Err err) => (set_pack s st, Err err)
      | (st, Panic) => (set_pack s st, Panic)
      end
  | Err err => (s, Err err)
  | Panic => (s, Panic)
  end.

(** At most [rounds] rounds *)
Fixpoint sendPacket (rounds : nat) (es : list env) (s : session) : session * res unit :=
  if negb (SendingAllowed (ss_sph s)) then (s, Ok tt)
  else
    match rounds, es with
    | S rounds, e :: es =>
        let '(s, windowUpdateFrames) := getWindowUpdateFrames e s in
        match resendPackets es s (map FWindowUpdate windowUpdateFrames) with
        | (es, s, Ok controlFrames) =>
            match sendNewPacket e s windowUpdateFrames controlFrames with
            | (s, Ok true) => sendPacket rounds es s
            | (s, Ok false) => (s, Ok tt)
            | (s, Err err) => (s, Err err)
            | (s, Panic) => (s, Panic)
            end
        | (_, s, Err err) => (s, Err err)
        | (_, s, Panic) => (s, Panic)
        end
    | _, _ => (s, Panic)
    end.

(** *** The run loop *)

Inductive event : Type :=
| TimerFired
| SendingScheduled
| PacketReceived
| AeadChanged.
#[export] Instance event_eq_dec : EqDecision event.
Proof. solve_decision. Defined.

(** The capacities of [handshakeChan] and [handshakeCompleteChan] *)
Definition handshakeChanCap : Z := 3.
Definition handshakeCompleteChanCap : Z := 1.

(** [s.handshakeChan <- ev]: blocks if the channel is full, and panics if it is closed *)
Definition sendHandshakeEvent (s : session) (ev : handshakeEvent) : res session :=
  let hs := ss_hs s in
  if hc_closed hs || (len (hc_handshakeChan hs) >=? handshakeChanCap) then Panic
  else Ok (set_hs s (mkHandshakeChans (hc_levelsRead hs) (hc_handshakeChan hs ++ [ev])
                       (hc_handshakeCompleteChan hs) (hc_closed hs))).

(** [s.handshakeCompleteChan <- err] *)
Definition sendHandshakeError (s : session) (err : goerror) : res session :=
  let hs := ss_hs s in
  if hc_closed hs || (len (hc_handshakeCompleteChan hs) >=? handshakeCompleteChanCap) then Panic
  else Ok (set_hs s (mkHandshakeChans (hc_levelsRead hs) (hc_handshakeChan hs)
                       (hc_handshakeCompleteChan hs ++ [err]) (hc_closed hs))).

(** The case of an encryption level *)
Definition handleLevel (s : session) (level : Z) : res session :=
  let hs := ss_hs s in
  let s := set_hs s (mkHandshakeChans (S (hc_levelsRead hs)) (hc_handshakeChan hs)
                       (hc_handshakeCompleteChan hs) (hc_closed hs)) in
  let s :=
    if level =? EncryptionForwardSecure
    then set_pack s (pst_set_packer (ss_pack s) (SetForwardSecure (pst_packer (ss_pack s)))) else s in
  sendHandshakeEvent (tryDecryptingQueuedPackets s) (mkHandshakeEvent level None).

(** The case of the closed channel; closing a channel twice panics *)
Definition handleComplete (s : session) : res session :=
  let hs := ss_hs s in
  if hc_closed hs then Panic
  else Ok (set_hs (set_time s (set_complete (ss_time s)))
             (mkHandshakeChans (hc_levelsRead hs) (hc_handshakeChan hs) (hc_handshakeCompleteChan hs) true)).

(** A case of the [select]: [None] when it is not ready, else the session and whether the
    iteration ends here.  The crypto setup closes [aeadChanged] when the handshake is complete;
    then the case is disabled. *)
Definition handleEvent (e : env) (s : session) (ev : event) : option (res (session * bool)) :=
  let t := ss_time s in
  let ch := ss_ch s in
  match ev with
  | TimerFired =>
      if tm_C (tg_timer t)
      then Some (Ok (set_time s (set_timer t (mkTimer (tm_running (tg_timer t)) false) (tg_currentDeadline t) true),
                     false))
      else None
  | SendingScheduled =>
      if ch_sendingScheduled ch
      then Some (Ok (set_ch s (mkChannels (ch_receivedPackets ch) false (ch_closeChan ch) (ch_closed ch)
                                 (ch_undecryptablePackets ch)), false))
      else None
  | PacketReceived =>
      match ch_receivedPackets ch with
      | [] => None
      | p :: ps =>
          let s := set_ch s (mkChannels ps (ch_sendingScheduled ch) (ch_closeChan ch) (ch_closed ch)
                               (ch_undecryptablePackets ch)) in
          Some match handlePacketImpl e s p with
               | (s, p, Ok _) => Ok (s, false)
               | (s, p, Err err) =>
                   if isDecryptionFailure err
                   then let! s := tryQueueingUndecryptablePacket e s p in Ok (s, true)
                   else Ok (session_close s err, true)
               | (_, _, Panic) => Panic
               end
      end
  | AeadChanged =>
      if tg_handshakeComplete t then None
      else
        match e_levels e !! hc_levelsRead (ss_hs s) with
        | Some level => Some (let! s := handleLevel s level in Ok (s, false))
        | None => if e_complete e then Some (let! s := handleComplete s in Ok (s, false)) else None
        end
  end.

(** The part of an iteration after the [select] *)
Definition afterEvent (e : env) (rounds : nat) (es : list env) (s : session) : res session :=
  let now := e_now e in
  let s := if GetAlarmTimeout (ss_sph s) <? now then set_sph s (OnAlarm (ss_sph s) now now) else s in
  match sendPacket rounds es s with
  | (_, Panic) => Panic
  | (s, r) =>
      let s := match r with Err err => session_close s err | _ => s end in
      let t := ss_time s in
      let tooMany := tg_receivedTooManyUndecrytablePacketsTime t in
      let s :=
        if negb (tooMany =? 0) && (tooMany + PublicResetTimeout <? now)
           && negb (len (ch_undecryptablePackets (ss_ch s)) =? 0)
        then session_close s (QuicError DecryptionFailure (Msg "too many undecryptable packets received")) else s in
      let s :=
        if now - tg_lastNetworkActivityTime t >=? idleTimeout e t
        then session_close s (QuicError NetworkIdleTimeout (Msg "No recent network activity.")) else s in
      let s :=
        if negb (tg_handshakeComplete t) && (now - tg_sessionCreationTime t >=? MaxTimeForCryptoHandshake)
        then session_close s (QuicError NetworkIdleTimeout (Msg "Crypto handshake did not complete in time.")) else s in
      Ok (garbageCollectStreams s)
  end.

(** An iteration of [run] that is not its last *)
Definition iteration (e : env) (rounds : nat) (es : list env) (s : session) (ev : event) : option (res session) :=
  match ch_closeChan (ss_ch s) with
  | _ :: _ => None
  | [] =>
      match maybeResetTimer e s with
      | Ok s =>
          match handleEvent e s ev with
          | Some (Ok (s, true)) => Some (Ok s)
          | Some (Ok (s, false)) => Some (afterEvent e rounds es s)
          | Some (Err err) => Some (Err err)
          | Some Panic => Some Panic
          | None => None
          end
      | Err err => Some (Err err)
      | Panic => Some Panic
      end
  end.

(** The end of [run] *)
Definition endRun (e : env) (s : session) (closeErr : closeError) : res (session * res unit) :=
  let! s :=
    if negb (tg_handshakeComplete (ss_time s)) then
      let! s := sendHandshakeError s (ce_err closeErr) in
      sendHandshakeEvent s (mkHandshakeEvent 0 (Some (ce_err closeErr)))
    else Ok s in
  Ok (handleCloseError e s closeErr).

(** A session after [setup], with its packer *)
Definition setup (pers : Perspective) (usePLUS : bool) (connectionID version : Z) (e : env)
    (r : RTTStats) (c : SA_state) : session :=
  mkSession pers usePLUS connectionID
    (mkPackState (newPacketPacker connectionID pers version) newStreamFramer (newStreamsMap pers)
       (NewFlowControlManager (e_cp e)))
    (NewSentPacketHandler r c) NewReceivedPacketHandler 0 0
    (mkTiming false 0 0 (e_now e) (e_now e) (mkTimer (Some (e_now e)) false) 0 false)
    (mkChannels [] false [] false []) (mkHandshakeChans 0 [] [] false) [].

(** The crypto stream is opened; on the server it is accepted, too, so that the application
    does not see it. *)
Definition newSession (usePLUS : bool) (connectionID version : Z) (e : env) (r : RTTStats) (c : SA_state)
    : session :=
  let s := setup PerspectiveServer usePLUS connectionID version e r c in
  (session_AcceptStream (session_GetOrOpenStream e s 1).1).1.

Definition newClientSession (usePLUS : bool) (connectionID version : Z) (e : env) (r : RTTStats) (c : SA_state)
    : session :=
  (session_OpenStream e (setup PerspectiveClient usePLUS connectionID version e r c)).1.

(** ** Interleavings *)

(** What the application does to a stream, apart from reading *)
Inductive stream_op (str : stream) : stream -> list signal -> Prop :=
| op_Write p : stream_op str (stream_Write str p).1.1 (stream_Write str p).1.2
| op_Close : stream_op str (stream_Close str).1 (stream_Close str).2
| op_Reset err : stream_op str (stream_Reset str err).1 (stream_Reset str err).2.

(** A step of the timer, of the goroutine that reads from the network, of the application, or
    of those who wait for the handshake.  A stream that was removed from the map can still send its signals. *)
Inductive concurrent_step (s : session) : session -> Prop :=
| step_expire d :
    tm_running (tg_timer (ss_time s)) = Some d ->
    concurrent_step s (set_time s (set_timer (ss_time s) (mkTimer None true) (tg_currentDeadline (ss_time s))
                                     (tg_timerRead (ss_time s))))
| step_packet p : concurrent_step s (handlePacket s p)
| step_Close err : concurrent_step s (registerClose s err false).1
| step_OpenStream e s' r : session_OpenStream e s = (s', r) -> concurrent_step s s'
| step_OpenStreamSync e s' r : session_OpenStreamSync e s = (s', r) -> concurrent_step s s'
| step_AcceptStream s' r : session_AcceptStream s = (s', r) -> concurrent_step s s'
| step_stream id str str' sigs :
    sm_streams (pst_streams (ss_pack s)) !! id = Some str -> stream_op str str' sigs ->
    concurrent_step s (signalled (set_stream_state s str') sigs)
| step_read e id str r str' fc sigs r' :
    sm_streams (pst_streams (ss_pack s)) !! id = Some str ->
    @read_step _ (flowControlManager_methods (e_cp e)) (e_now e) str (pst_fc (ss_pack s)) r
      = Some (str', fc, sigs, r') ->
    concurrent_step s (signalled (set_streams s (putBack (pst_streams (ss_pack s)) str') fc) sigs)
| step_removed sigs : concurrent_step s (signalled s sigs)
| step_handshakeEvent ev evs :
    hc_handshakeChan (ss_hs s) = ev :: evs ->
    concurrent_step s (set_hs s (mkHandshakeChans (hc_levelsRead (ss_hs s)) evs
                                   (hc_handshakeCompleteChan (ss_hs s)) (hc_closed (ss_hs s))))
| step_handshakeError err errs :
    hc_handshakeCompleteChan (ss_hs s) = err :: errs ->
    concurrent_step s (set_hs s (mkHandshakeChans (hc_levelsRead (ss_hs s)) (hc_handshakeChan (ss_hs s))
                                   errs (hc_closed (ss_hs s)))).

Inductive session_step (s : session) : session -> Prop :=
| step_iteration e rounds es ev s' : iteration e rounds es s ev = Some (Ok s') -> session_step s s'
| step_concurrent s' : concurrent_step s s' -> session_step s s'.

Inductive session_reach : session -> Prop :=
| reach_server usePLUS id version e r c : session_reach (newSession usePLUS id version e r c)
| reach_client usePLUS id version e r c : session_reach (newClientSession usePLUS id version e r c)
| reach_step s s' : session_reach s -> session_step s s' -> session_reach s'.

(** ** The timer and closing *)

(** The timer is set to [currentDeadline], which is zero before its first use, or its value is
    in the channel, or it has been read; at most one close is registered. *)
Definition timer_ok (t : timing) : Prop :=
  match tm_running (tg_timer t) with
  | Some d =>
      tm_C (tg_timer t) = false /\ tg_timerRead t = false /\
      (d = tg_currentDeadline t \/ tg_currentDeadline t = 0)
  | None => tm_C (tg_timer t) = negb (tg_timerRead t)
  end.

Record loop_ok (s : session) : Prop := {
  lo_timer : timer_ok (ss_time s);
  lo_close : if ch_closed (ss_ch s) then len (ch_closeChan (ss_ch s)) <= 1 else ch_closeChan (ss_ch s) = [];
}.

Lemma loop_ok_same s s' :
  tg_timer (ss_time s') = tg_timer (ss_time s) -> tg_timerRead (ss_time s') = tg_timerRead (ss_time s) ->
  tg_currentDeadline (ss_time s') = tg_currentDeadline (ss_time s) ->
  ch_closed (ss_ch s') = ch_closed (ss_ch s) -> ch_closeChan (ss_ch s') = ch_closeChan (ss_ch s) ->
  loop_ok s -> loop_ok s'.
Proof.
  intros E1 E2 E3 E4 E5 [Ht Hc]. constructor; [unfold timer_ok|]; by rewrite ?E1, ?E2, ?E3, ?E4, ?E5.
Qed.

Ltac loop_done :=
  first [done | match goal with H : loop_ok ?s |- loop_ok ?s' => by apply (loop_ok_same s s') end].

Lemma set_streams_loop s m fc : loop_ok s -> loop_ok (set_streams s m fc).
Proof. intros Hs. loop_done. Qed.

Lemma resetTimer_ok t deadline :
  timer_ok t -> exists tm, resetTimer (tg_timer t) (tg_timerRead t) deadline = Ok tm /\
    tm = mkTimer (Some deadline) false.
Proof.
  unfold timer_ok, resetTimer. destruct (tm_running (tg_timer t)).
  - intros [-> _]. by eexists.
  - intros Hc. destruct (tg_timerRead t), (tm_C (tg_timer t)); try done; by eexists.
Qed.

Lemma maybeResetTimer_ok e s :
  loop_ok s -> exists s', maybeResetTimer e s = Ok s' /\ loop_ok s' /\
    tg_currentDeadline (ss_time s') = nextDeadline e s' /\ nextDeadline e s' = nextDeadline e s /\
    ((s' = s /\ tg_currentDeadline (ss_time s) = nextDeadline e s) \/
     tm_running (tg_timer (ss_time s')) = Some (nextDeadline e s')).
Proof.
  intros [Ht Hc]. unfold maybeResetTimer. destruct (Z.eqb_spec (nextDeadline e s) (tg_currentDeadline (ss_time s))) as [E|E].
  - exists s. split_and!; auto. by constructor.
  - destruct (resetTimer_ok _ (nextDeadline e s) Ht) as (tm & -> & ->). cbn [rbind]. eexists. split; [done|].
    split_and!; [constructor; [unfold timer_ok; simpl; auto|exact Hc]|done|done|by right].
Qed.

Lemma signalled_loop s sigs : loop_ok s -> loop_ok (signalled s sigs).
Proof.
  revert s. induction sigs as [|[|] sigs IH]; intros s Hs; [done| |]; simpl; apply IH;
    by apply (loop_ok_same s).
Qed.

Lemma registerClose_loop s err remote : loop_ok s -> loop_ok (registerClose s err remote).1.
Proof.
  intros [Ht Hc]. unfold registerClose. destruct (ch_closed (ss_ch s)) eqn:E; simpl; [constructor; [done|by rewrite E]|].
  rewrite Hc. case_decide; (constructor; simpl; [done|]); vm_compute; congruence.
Qed.

Lemma handleFrame_loop e s f : loop_ok s -> loop_ok (handleFrame e s f).1.
Proof.
  intros Hs. destruct f; simpl.
  - unfold handleStreamFrame, session_GetOrOpenStream.
    destruct (SM_GetOrOpenStream _ _ _ _ _ _) as [[m fc] [[str|]|err|]]; try (by apply (loop_ok_same s)).
    destruct (AddStreamFrame _ _ _) as [[str' fc'] r]. by apply (loop_ok_same s).
  - unfold handleAckFrame. destruct (ReceivedAck _ _ _ _ _ _ _ _). by apply (loop_ok_same s).
  - by apply (loop_ok_same s).
  - unfold handleRstStreamFrame, session_GetOrOpenStream.
    destruct (SM_GetOrOpenStream _ _ _ _ _ _) as [[m fc] [[str|]|err|]]; try (by apply (loop_ok_same s)).
    destruct (RegisterRemoteError _ _) as [str' sigs].
    match goal with |- context [signalled ?x sigs] =>
      assert (loop_ok (signalled x sigs)) as Hs' by (apply signalled_loop; by apply (loop_ok_same s)) end.
    destruct (ResetStream _ _ _) as [fc' r]. by eapply loop_ok_same; [..|exact Hs'].
  - by apply registerClose_loop.
  - done.
  - unfold handleWindowUpdateFrame, session_GetOrOpenStream. case_if.
    + destruct (SM_GetOrOpenStream _ _ _ _ _ _) as [[m fc] [[str|]|err|]]; try (by apply (loop_ok_same s)).
      destruct (UpdateWindow _ _ _) as [fc' r]. by apply (loop_ok_same s).
    + destruct (UpdateWindow _ _ _) as [fc' r]. by apply (loop_ok_same s).
  - done.
  - done.
  - case_if; [by apply (loop_ok_same s)|done].
Qed.

Lemma handleFrames_loop e s fs : loop_ok s -> loop_ok (handleFrames e s fs).1.
Proof.
  revert s. induction fs as [|f fs IH]; intros s Hs; [done|]. simpl.
  pose proof (handleFrame_loop e s f Hs) as Hf. destruct (handleFrame e s f) as [s' [u|err|]]; [by apply IH| |done].
  case_if; [by apply IH|done].
Qed.

Lemma handlePacketImpl_loop e s p : loop_ok s -> loop_ok (handlePacketImpl e s p).1.1.
Proof.
  intros Hs. unfold handlePacketImpl. set (p' := inferInPlace e s p).
  cbv zeta. destruct (_ && negb (e_receives e)); [done|].
  set (s1 := set_time _ _). assert (loop_ok s1) as H1'.
  { subst s1. case_if; by apply (loop_ok_same s). }
  clearbody s1. destruct (Unpack _ _ _) as [packet|err|]; [|repeat case_if; by apply (loop_ok_same s1)|done].
  unfold handleUnpacked. set (s2 := set_rcvd _ _ _).
  assert (loop_ok s2) as H2 by (subst s2; case_if; by apply (loop_ok_same s1)). clearbody s2.
  destruct (Handler_ReceivedPacket _ _ _ _) as [[h alarm] r].
  assert (exists s3, match alarm with Some t => ackAlarmChanged e (set_rph s2 h) t | None => Ok (set_rph s2 h) end
    = Ok s3 /\ loop_ok s3) as (s3 & -> & H3).
  { destruct alarm as [t|]; [|eexists; split; [done|]; by apply (loop_ok_same s2)].
    unfold ackAlarmChanged. destruct (maybeResetTimer_ok e (set_time (set_rph s2 h) (set_nextAck (ss_time (set_rph s2 h)) t)))
      as (s3 & -> & ? & _); [by apply (loop_ok_same s2)|]. by exists s3. }
  destruct r as [u|err|]; [|case_if; done|done].
  set (s4 := match rp_feedbackData p' with Some _ => _ | None => _ end).
  assert (loop_ok s4) as H4 by (subst s4; destruct (rp_feedbackData p'); [case_if|]; by apply (loop_ok_same s3)).
  pose proof (handleFrames_loop e s4 (up_frames packet) H4). by destruct (handleFrames _ _ _).
Qed.

(** *** What sending preserves *)

(** The operations of [sendPacket] on the handler of sent packets *)
Inductive sph_sends (h : sentPacketHandler) : sentPacketHandler -> Prop :=
| sends_packet p now alarmNow : sph_sends h (SentPacket h p now alarmNow).1
| sends_dequeue : sph_sends h (DequeuePacketForRetransmission h).1
| sends_stopWaiting force : sph_sends h (GetStopWaitingFrame h force).1.

(** [sendPacket] changes the states of the components, the log, and the time of the next ACK. *)
Record send_preserves (P : session -> Prop) : Prop := {
  sp_pack s st : P s -> P (set_pack s st);
  sp_sph s h : sph_sends (ss_sph s) h -> P s -> P (set_sph s h);
  sp_rph s h : P s -> P (set_rph s h);
  sp_tell s o : P s -> P (tell s o);
  sp_nextAck s x : P s -> P (set_time s (set_nextAck (ss_time s) x));
}.

Section preserves.
Context (P : session -> Prop) (HP : send_preserves P).

Lemma sendPackedPacket_preserves e s packet : P s -> P (sendPackedPacket e s packet).1.
Proof.
  intros Hs. unfold sendPackedPacket. set (p := mkPacket _ _ _ _ _).
  pose proof (sp_sph P HP s _ (sends_packet _ p (e_now e) (e_now e)) Hs) as H'.
  destruct (SentPacket _ p _ _) as [h [u|err|]]; [by apply (sp_tell P HP)|done|done].
Qed.

Lemma resendFrames_preserves fs s control : P s -> P (fold_left resendFrame fs (s, control)).1.
Proof.
  revert s control. induction fs as [|f fs IH]; intros s control Hs; [done|]. cbn [fold_left resendFrame].
  destruct f; try (by apply IH); [apply IH, (sp_pack P HP); done|].
  destruct (GetReceiveWindow _ _); [case_if|..]; by apply IH.
Qed.

Lemma resendPackets_preserves es s control : P s -> P (resendPackets es s control).1.2.
Proof.
  revert s control. induction es as [|e es IH]; intros s control Hs; simpl;
    pose proof (sp_sph P HP s _ (sends_dequeue _) Hs) as Hd;
    destruct (DequeuePacketForRetransmission _) as [h [p|]]; try done.
  set (s1 := set_sph s h) in *. cbn [fst] in Hd. fold s1 in Hd. case_if.
  - pose proof (sp_sph P HP s1 _ (sends_stopWaiting _ true) Hd) as Hw.
    change (ss_sph s1) with h in *. destruct (GetStopWaitingFrame h true) as [h' swf]. cbn [fst] in Hw.
    destruct (RetransmitNonForwardSecurePacket _ _ _ _ _ _ _ _) as [st [[packet|]|err|]];
      pose proof (sp_pack P HP _ st Hw) as Hst; try done; [|by apply IH].
    pose proof (sendPackedPacket_preserves e _ packet Hst) as Hp.
    destruct (sendPackedPacket e _ packet) as [s' [u|err|]]; [by apply IH|done|done].
  - pose proof (resendFrames_preserves (GetFramesForRetransmission p) s1 control Hd) as Hp.
    destruct (fold_left _ _ _) as [s' control']. by apply IH.
Qed.

Lemma queueControlFrames_preserves fs s : P s -> P (fold_left queueControlFrame fs s).
Proof. revert s. induction fs as [|f fs IH]; intros s Hs; [done|]. simpl. by apply IH, (sp_pack P HP). Qed.

Lemma sendNewPacket_preserves e s wufs control : P s -> P (sendNewPacket e s wufs control).1.
Proof.
  intros Hs. unfold sendNewPacket. destruct (GetAckFrame _ _) as [[h ack]|err|]; try done.
  pose proof (sp_rph P HP s h Hs) as Hr. set (s1 := set_rph s h) in *.
  destruct (if _ || _ then _ else _) as [h' swf] eqn:E.
  assert (P (set_sph s1 h')) as Hw.
  { destruct (_ || _); [|by injection E as <- _; apply (sp_pack P HP s1 (ss_pack s1))].
    pose proof (sp_sph P HP s1 _ (sends_stopWaiting _ (HasFramesForRetransmission (pst_framer (ss_pack s1)))) Hr) as Hw.
    by rewrite E in Hw. }
  destruct (PackPacket _ _ _ _ _ _ _ _ _) as [st [[packet|]|err|]];
    pose proof (sp_pack P HP _ st Hw) as Hst; try done.
  pose proof (queueControlFrames_preserves (map FWindowUpdate wufs) _ Hst) as Hq.
  pose proof (sendPackedPacket_preserves e _ packet Hq) as Hp.
  destruct (sendPackedPacket e _ packet) as [s' [u|err|]]; try done. by apply (sp_nextAck P HP).
Qed.

Lemma sendPacket_preserves rounds es s : P s -> P (sendPacket rounds es s).1.
Proof.
  revert es s. induction rounds as [|rounds IH]; intros es s Hs; simpl; case_if; try done.
  destruct es as [|e es]; [done|]. destruct (getWindowUpdateFrames e s) as [s1 wufs] eqn:E1.
  assert (P s1) as Hs1.
  { unfold getWindowUpdateFrames in E1. destruct (GetWindowUpdates _ _ _ _). injection E1 as <- _.
    by apply (sp_pack P HP). }
  pose proof (resendPackets_preserves es s1 (map FWindowUpdate wufs) Hs1) as Hs2.
  destruct (resendPackets es s1 _) as [[es' s2] [control|err|]]; try done. simpl in Hs2.
  pose proof (sendNewPacket_preserves e s2 wufs control Hs2) as Hs3.
  destruct (sendNewPacket e s2 wufs control) as [s3 [[|]|err|]]; try done. by apply IH.
Qed.
End preserves.

Lemma sendPacket_loop rounds es s : loop_ok s -> loop_ok (sendPacket rounds es s).1.
Proof. apply sendPacket_preserves. constructor; intros; loop_done. Qed.

Lemma tryDecrypting_loop s : loop_ok s -> loop_ok (tryDecryptingQueuedPackets s).
Proof.
  intros Hs. unfold tryDecryptingQueuedPackets. generalize (ch_undecryptablePackets (ss_ch s)) as ps.
  intros ps. revert s Hs. induction ps as [|p ps IH]; intros s Hs; [by apply (loop_ok_same s)|].
  simpl. apply IH. unfold handlePacket. case_if; [by apply (loop_ok_same s)|done].
Qed.

Lemma handleEvent_loop e s ev s' b : loop_ok s -> handleEvent e s ev = Some (Ok (s', b)) -> loop_ok s'.
Proof.
  intros Hs. unfold handleEvent. destruct ev.
  - case_if; [|done]. intros [= <- _]. destruct Hs as [Ht Hc]. constructor; [|done].
    unfold timer_ok in *. simpl in *. destruct (tm_running _); [destruct Ht as (? & _); congruence|done].
  - case_if; [|done]. intros [= <- _]. by apply (loop_ok_same s).
  - destruct (ch_receivedPackets (ss_ch s)) as [|p ps]; [done|]. intros [= E]. revert E.
    match goal with |- context [handlePacketImpl e ?x p] =>
      assert (loop_ok x) as Hx by (by apply (loop_ok_same s));
      pose proof (handlePacketImpl_loop e x p Hx) as Hp;
      destruct (handlePacketImpl e x p) as [[s1 p'] [u|err|]] end; [intros [= <- _]; done| |done].
    simpl in Hp. case_if; [|intros [= <- _]; by apply registerClose_loop].
    unfold tryQueueingUndecryptablePacket. repeat case_if; cbn [rbind].
    + by intros [= <- _].
    + destruct (maybeResetTimer_ok e (set_time s1 (set_tooMany (ss_time s1) (e_now e)))) as (s2 & -> & Hs2 & _);
        [by apply (loop_ok_same s1)|]. by intros [= <- _].
    + by intros [= <- _].
    + intros [= <- _]. by apply (loop_ok_same s1).
  - case_if; [done|]. destruct (e_levels e !! _) as [level|].
    + unfold handleLevel, sendHandshakeEvent. set (s1 := tryDecryptingQueuedPackets _).
      assert (loop_ok s1) as Hs1.
      { subst s1. apply tryDecrypting_loop. case_if; by apply (loop_ok_same s). }
      case_if; cbn [rbind]; [done|]. intros [= <- _]. by apply (loop_ok_same s1).
    + case_if; [|done]. unfold handleComplete. case_if; cbn [rbind]; [done|]. intros [= <- _]. by apply (loop_ok_same s).
Qed.

Lemma afterEvent_loop e rounds es s s' : loop_ok s -> afterEvent e rounds es s = Ok s' -> loop_ok s'.
Proof.
  intros Hs. unfold afterEvent. cbv zeta.
  set (s1 := if _ <? _ then _ else _). assert (loop_ok s1) as Hs1 by (subst s1; case_if; loop_done).
  pose proof (sendPacket_loop rounds es s1 Hs1) as Hs2.
  destruct (sendPacket rounds es s1) as [s2 [u|err|]]; [| |done]; intros [= <-]; simpl in Hs2.
  all: unfold garbageCollectStreams; destruct (Iterate _ _) as [[m fc] r]; simpl.
  all: repeat case_if; apply set_streams_loop; repeat apply registerClose_loop; done.
Qed.

Lemma concurrent_step_loop s s' : loop_ok s -> concurrent_step s s' -> loop_ok s'.
Proof.
  intros Hs Hstep.
  destruct Hstep as [d E|p|err|e s' r E|e s' r E|s' r E|id str str' sigs _ _|e id str rd str' fc sigs rd' _ _|sigs|ev evs _|err errs _].
  - destruct Hs as [Ht Hc]. constructor; [|done]. unfold timer_ok in *. rewrite E in Ht. simpl. by destruct Ht as (_ & -> & _).
  - unfold handlePacket. case_if; [by apply (loop_ok_same s)|done].
  - by apply registerClose_loop.
  - unfold session_OpenStream in E. destruct (SM_OpenStream _ _ _ _ _) as [[m fc] r']. injection E as <- _. loop_done.
  - unfold session_OpenStreamSync in E. destruct (SM_OpenStreamSync _ _ _ _ _) as [[m fc] r']. injection E as <- _. loop_done.
  - unfold session_AcceptStream in E. destruct (SM_AcceptStream _) as [m r']. injection E as <- _. loop_done.
  - apply signalled_loop. loop_done.
  - apply signalled_loop. loop_done.
  - by apply signalled_loop.
  - by apply (loop_ok_same s).
  - by apply (loop_ok_same s).
Qed.

Lemma iteration_loop e rounds es s ev s' :
  loop_ok s -> iteration e rounds es s ev = Some (Ok s') -> loop_ok s'.
Proof.
  intros Hs. unfold iteration. destruct (ch_closeChan _); [|done].
  destruct (maybeResetTimer_ok e s Hs) as (s1 & -> & Hs1 & _).
  destruct (handleEvent e s1 ev) as [[[s2 [|]]|err|]|] eqn:E2; try loop_done; pose proof (handleEvent_loop _ _ _ _ _ Hs1 E2).
  - by intros [= <-].
  - intros [= E]. by eapply afterEvent_loop.
Qed.

Lemma session_step_loop s s' : loop_ok s -> session_step s s' -> loop_ok s'.
Proof.
  intros Hs [e rounds es ev s0 E|s0 E]; [by eapply iteration_loop|by eapply concurrent_step_loop].
Qed.

Lemma session_reach_loop s : session_reach s -> loop_ok s.
Proof.
  induction 1 as [usePLUS id version e r c|usePLUS id version e r c|s s' _ IH Hstep].
  - unfold newSession, session_GetOrOpenStream, session_AcceptStream.
    destruct (SM_GetOrOpenStream _ _ _ _ _ _) as [[m fc] r']. simpl. destruct (SM_AcceptStream _).
    constructor; [unfold timer_ok; simpl; auto|done].
  - unfold newClientSession, session_OpenStream. destruct (SM_OpenStream _ _ _ _ _) as [[m fc] r'].
    constructor; [unfold timer_ok; simpl; auto|done].
  - by eapply session_step_loop.
Qed.

(** *** What only the handshake changes *)

Definition outer (s : session) : Perspective * handshakeChans * bool :=
  (ss_perspective s, ss_hs s, tg_handshakeComplete (ss_time s)).

Lemma signalled_outer s sigs : outer (signalled s sigs) = outer s.
Proof. revert s. induction sigs as [|[|] sigs IH]; intros s; [done| |]; simpl; by rewrite IH. Qed.

Lemma registerClose_outer s err remote : outer (registerClose s err remote).1 = outer s.
Proof. unfold registerClose. case_if; [done|]. by case_decide. Qed.

Lemma maybeResetTimer_outer e s s' : maybeResetTimer e s = Ok s' -> outer s' = outer s.
Proof.
  unfold maybeResetTimer. case_if; [by intros [= <-]|]. destruct (resetTimer _ _ _); cbn [rbind]; [|done..].
  by intros [= <-].
Qed.

Lemma handleFrame_outer e s f : outer (handleFrame e s f).1 = outer s.
Proof.
  destruct f; simpl; try done.
  - unfold handleStreamFrame, session_GetOrOpenStream.
    destruct (SM_GetOrOpenStream _ _ _ _ _ _) as [[m fc] [[str|]|err|]]; try done.
    by destruct (AddStreamFrame _ _ _) as [[str' fc'] r].
  - unfold handleAckFrame. by destruct (ReceivedAck _ _ _ _ _ _ _ _).
  - unfold handleRstStreamFrame, session_GetOrOpenStream.
    destruct (SM_GetOrOpenStream _ _ _ _ _ _) as [[m fc] [[str|]|err|]]; try done.
    destruct (RegisterRemoteError _ _) as [str' sigs]. destruct (ResetStream _ _ _) as [fc' r].
    match goal with |- context [signalled ?x sigs] => exact (signalled_outer x sigs) end.
  - apply registerClose_outer.
  - unfold handleWindowUpdateFrame, session_GetOrOpenStream. case_if.
    + destruct (SM_GetOrOpenStream _ _ _ _ _ _) as [[m fc] [[str|]|err|]]; try done.
      by destruct (UpdateWindow _ _ _) as [fc' r].
    + by destruct (UpdateWindow _ _ _) as [fc' r].
  - by case_if.
Qed.

Lemma handleFrames_outer e s fs : outer (handleFrames e s fs).1 = outer s.
Proof.
  revert s. induction fs as [|f fs IH]; intros s; [done|]. simpl. pose proof (handleFrame_outer e s f) as Hf.
  destruct (handleFrame e s f) as [s' [u|err|]]; [by rewrite IH| |done]. case_if; [by rewrite IH|done].
Qed.

Lemma handlePacketImpl_outer e s p : outer (handlePacketImpl e s p).1.1 = outer s.
Proof.
  unfold handlePacketImpl. set (p' := inferInPlace e s p). cbv zeta. destruct (_ && negb (e_receives e)); [done|].
  set (s1 := set_time _ _). assert (outer s1 = outer s) as <- by (subst s1; by case_if).
  clearbody s1. destruct (Unpack _ _ _) as [packet|err|]; [|by repeat case_if|done].
  unfold handleUnpacked. set (s2 := set_rcvd _ _ _). assert (outer s2 = outer s1) as <- by (subst s2; by case_if).
  clearbody s2. destruct (Handler_ReceivedPacket _ _ _ _) as [[h alarm] r].
  destruct (match alarm with Some t => _ | None => _ end) as [s3|err|] eqn:E3; [|done..].
  assert (outer s3 = outer s2) as <-.
  { destruct alarm as [t|]; [|by injection E3 as <-]. by apply maybeResetTimer_outer in E3. }
  destruct r as [u|err|]; [|case_if; done|done].
  set (s4 := match rp_feedbackData p' with Some _ => _ | None => _ end).
  assert (outer s4 = outer s3) as <- by (subst s4; destruct (rp_feedbackData p'); [case_if|]; done).
  pose proof (handleFrames_outer e s4 (up_frames packet)). by destruct (handleFrames _ _ _).
Qed.

Lemma handlePackets_outer ps s : outer (fold_left handlePacket ps s) = outer s.
Proof.
  revert s. induction ps as [|p ps IH]; intros s; [done|]. simpl. rewrite IH. unfold handlePacket. by case_if.
Qed.

Lemma tryDecrypting_outer s : outer (tryDecryptingQueuedPackets s) = outer s.
Proof. exact (handlePackets_outer (ch_undecryptablePackets (ss_ch s)) s). Qed.

Lemma handleEvent_outer e s ev s' b :
  ev <> AeadChanged -> handleEvent e s ev = Some (Ok (s', b)) -> outer s' = outer s.
Proof.
  intros Hev. unfold handleEvent. destruct ev; [case_if; [|done]; by intros [= <- _]..| |done].
  destruct (ch_receivedPackets (ss_ch s)) as [|p ps]; [done|]. intros [= E]. revert E. set (s0 := set_ch s _).
  pose proof (handlePacketImpl_outer e s0 p) as Hp. change (outer s0) with (outer s) in Hp.
  destruct (handlePacketImpl e s0 p) as [[s1 p'] [u|err|]]; [by intros [= <- _]| |done]. simpl in Hp.
  case_if; [|intros [= <- _]; unfold session_close; by rewrite registerClose_outer].
  unfold tryQueueingUndecryptablePacket. repeat case_if; cbn [rbind]; try (by intros [= <- _]).
  destruct (maybeResetTimer _ _) as [s2|err2|] eqn:E2; [|done..]. apply maybeResetTimer_outer in E2.
  intros [= <- _]. rewrite <- Hp. exact E2.
Qed.

Lemma sendPacket_outer rounds es s : outer (sendPacket rounds es s).1 = outer s.
Proof. apply (sendPacket_preserves (fun s' => outer s' = outer s)); [|done]. by constructor. Qed.

Lemma afterEvent_outer e rounds es s s' : afterEvent e rounds es s = Ok s' -> outer s' = outer s.
Proof.
  unfold afterEvent. cbv zeta. set (s1 := if _ <? _ then _ else _).
  assert (outer s1 = outer s) as <- by (subst s1; by case_if).
  pose proof (sendPacket_outer rounds es s1) as Hs2.
  assert (forall (b : bool) s err, outer (if b then session_close s err else s) = outer s) as Hc.
  { intros b s0 err. destruct b; [apply registerClose_outer|done]. }
  assert (forall s, outer (garbageCollectStreams s) = outer s) as Hg.
  { intros s0. unfold garbageCollectStreams. by destruct (Iterate _ _) as [[m fc] r]. }
  destruct (sendPacket rounds es s1) as [s2 [u|err|]]; [| |done]; intros [= <-]; simpl in Hs2; rewrite Hg, !Hc; [done|].
  unfold session_close. by rewrite registerClose_outer.
Qed.

(** C23: in every interleaving, the run loop is never stuck draining its timer, and when it
    goes to wait the timer is set to the earliest of the deadlines (idle timeout, handshake
    timeout, ACK, loss alarm, undecryptable packets), unless it has expired for this very
    deadline before. *)
Theorem run_loop_timer_set s e :
  session_reach s -> nextDeadline e s <> 0 ->
  exists s', maybeResetTimer e s = Ok s' /\ nextDeadline e s' = nextDeadline e s /\
    (tm_running (tg_timer (ss_time s')) = Some (nextDeadline e s) \/
     (s' = s /\ tg_currentDeadline (ss_time s) = nextDeadline e s /\ tm_running (tg_timer (ss_time s)) = None)).
Proof.
  intros Hs%session_reach_loop Hd. destruct (maybeResetTimer_ok e s Hs) as (s' & E & [Ht _] & E1 & E2 & E3).
  exists s'. split_and!; [done|done|]. destruct E3 as [[-> E3]|E3]; [|left; congruence].
  unfold timer_ok in Ht. destruct (tm_running _) as [d|]; [left|by right].
  destruct Ht as (_ & _ & [-> | Hz]); congruence.
Qed.

Lemma signalled_closed s sigs :
  ch_closed (ss_ch (signalled s sigs)) = ch_closed (ss_ch s) /\
  ch_closeChan (ss_ch (signalled s sigs)) = ch_closeChan (ss_ch s).
Proof. revert s. induction sigs as [|[|] sigs IH]; intros s; [done| |]; simpl; rewrite !(proj1 (IH _)), !(proj2 (IH _)); done. Qed.

Lemma concurrent_closed s s' :
  ch_closed (ss_ch s) = true -> concurrent_step s s' ->
  ch_closed (ss_ch s') = true /\ ch_closeChan (ss_ch s') = ch_closeChan (ss_ch s).
Proof.
  intros Hc Hstep.
  destruct Hstep as [d E|p|err|e s' r E|e s' r E|s' r E|id str str' sigs _ _|e id str rd str' fc sigs rd' _ _|sigs|ev evs _|err errs _]; try done.
  - unfold handlePacket. by case_if.
  - unfold registerClose. by rewrite Hc.
  - unfold session_OpenStream in E. destruct (SM_OpenStream _ _ _ _ _) as [[m fc] r']. by injection E as <- _.
  - unfold session_OpenStreamSync in E. destruct (SM_OpenStreamSync _ _ _ _ _) as [[m fc] r']. by injection E as <- _.
  - unfold session_AcceptStream in E. destruct (SM_AcceptStream _) as [m r']. by injection E as <- _.
  - by rewrite !(proj1 (signalled_closed _ _)), !(proj2 (signalled_closed _ _)).
  - by rewrite !(proj1 (signalled_closed _ _)), !(proj2 (signalled_closed _ _)).
  - by rewrite !(proj1 (signalled_closed _ _)), !(proj2 (signalled_closed _ _)).
Qed.

Lemma closed_step s s' x :
  ch_closed (ss_ch s) = true -> ch_closeChan (ss_ch s) = [x] -> session_step s s' ->
  ch_closed (ss_ch s') = true /\ ch_closeChan (ss_ch s') = [x].
Proof.
  intros Hc Hx [e rounds es ev s0 E|s0 E].
  - unfold iteration in E. by rewrite Hx in E.
  - rewrite <- Hx. by apply concurrent_closed.
Qed.

(** A session is closed once.  The first error, of the application, of the peer or of
    the session itself, is put into the channel without blocking, and whatever happens until
    the run loop takes it, later errors change nothing. *)
Theorem session_closes_once s err remote :
  session_reach s ->
  let e := default (ErrorCodeErr PeerGoingAway) err in
  if ch_closed (ss_ch s)
  then registerClose s err remote = (s, Err errSessionAlreadyClosed) /\ len (ch_closeChan (ss_ch s)) <= 1
  else
    ch_closeChan (ss_ch s) = [] /\ exists s', registerClose s err remote = (s', Ok tt) /\
      forall s'', rtc session_step s' s'' ->
        ch_closeChan (ss_ch s'') = [mkCloseError e remote] /\
        (forall err' remote', registerClose s'' err' remote' = (s'', Err errSessionAlreadyClosed)).
Proof.
  intros [_ Hc]%session_reach_loop. unfold registerClose. destruct (ch_closed (ss_ch s)) eqn:E; [done|].
  split; [done|]. eexists. split; [reflexivity|]. rewrite Hc. cbn [app]. intros s'' Hr.
  match type of Hr with rtc _ ?s' _ =>
    assert (ch_closed (ss_ch s') = true /\ ch_closeChan (ss_ch s') =
      [mkCloseError (default (ErrorCodeErr PeerGoingAway) err) remote]) as H0' by done end.
  revert H0'. induction Hr as [s0|s0 s1 s2 Hstep _ IH]; intros [H1' H2].
  - rewrite H1'. done.
  - apply IH. by eapply closed_step.
Qed.

(** ** What closing does *)

Lemma cancelStreams err ids m :
  NoDup ids -> (forall id, id ∈ ids -> exists str, sm_streams m !! id = Some str /\ s_streamID str = id) ->
  let m' := (iterateOver ids (m, tt) (cancelStream err)).1.1 in
  sm_openStreams m' = sm_openStreams m /\ sm_closeErr m' = sm_closeErr m /\
  forall id, sm_streams m' !! id =
    (if decide (id ∈ ids) then (fun str => Cancel str (Some err)) <$> sm_streams m !! id else sm_streams m !! id).
Proof.
  revert m. induction ids as [|i ids IH]; intros m Hnd Hin; simpl.
  { by split_and!. }
  apply NoDup_cons in Hnd as [Hi Hnd]. destruct (Hin i ltac:(by left)) as (str & Hs & Hid).
  assert (s_streamID (Cancel str (Some err)) = i) as Ec by (unfold Cancel, setErr; destruct (s_err _); exact Hid).
  unfold iterateFunc. simpl. rewrite Hs. simpl.
  destruct (IH (putBack m (Cancel str (Some err))) Hnd) as (E1 & E2 & E3).
  { intros id Hid'. destruct (Hin id ltac:(by right)) as (str' & Hs' & Hid''). exists str'.
    simpl. split; [|done]. rewrite lookup_insert_ne; [done|]. rewrite Ec. by intros <-. }
  split_and!; [done|done|]. intros id. rewrite E3. simpl.
  rewrite Ec. destruct (decide (id = i)) as [-> | Hne].
  - destruct (decide (i ∈ ids)); [done|]. destruct (decide (i ∈ i :: ids)) as [|Hn]; [|destruct Hn; by left].
    by rewrite lookup_insert_eq, Hs.
  - rewrite lookup_insert_ne by done. destruct (decide (id ∈ ids)), (decide (id ∈ i :: ids)); set_solver.
Qed.

Lemma closeStreamsWithError_spec s err :
  sm_ok s_streamID (pst_streams (ss_pack s)) ->
  let m' := pst_streams (ss_pack (closeStreamsWithError s err)) in
  sm_closeErr m' = sm_closeErr (pst_streams (ss_pack s)) /\
  forall id, sm_streams m' !! id = (fun str => Cancel str (Some err)) <$> sm_streams (pst_streams (ss_pack s)) !! id.
Proof.
  intros Hok. cbv zeta. unfold closeStreamsWithError, Iterate. simpl.
  set (m := pst_streams (ss_pack s)) in *.
  destruct (cancelStreams err (sm_openStreams m) m) as (_ & E2 & E3).
  - apply (ok_nodup _ _ Hok).
  - intros id Hid. apply (ok_open _ _ Hok) in Hid as [str Hs]. exists str. split; [done|]. by apply (ok_id _ _ Hok).
  - split; [done|]. intros id. rewrite E3. destruct (decide _) as [|Hn]; [done|].
    destruct (sm_streams m !! id) eqn:E; [|done]. destruct Hn. apply (ok_open _ _ Hok). by eexists.
Qed.

(** C24: what closing does.  When the session is only closed to be created again with another
    version, nothing more is done.  Otherwise every open stream is cancelled with the error, and
    opening streams fails with it.  The peer is told nothing if it closed the connection
    itself; it gets a public reset with the last packet number if packets could not be
    decrypted; in all other cases it gets a CONNECTION_CLOSE frame with the error, unless the
    reason is too long for a packet: then nothing is sent. *)
Theorem close_error_outcome e s ce level sealFunc peer largestRcvd :
  let q := ToQuicError (ce_err ce) in
  let p := pst_packer (ss_pack s) in
  let leastUnacked := GetLeastUnacked (ss_sph s) in
  let ccf := mkConnectionCloseFrame (errorCode q) (render (errorMessage q)) in
  sm_ok s_streamID (pst_streams (ss_pack s)) ->
  header_params p (e_crypto e) (e_cp e) level leastUnacked ->
  arrives peer p sealFunc level leastUnacked largestRcvd -> GetSealer (e_crypto e) = (level, sealFunc) ->
  is_u32 (errorCode q) ->
  if decide (ce_err ce = errCloseSessionForNewVersion) then handleCloseError e s ce = (s, Ok tt)
  else exists s' r written, handleCloseError e s ce = (s', r) /\
    ss_out s' = ss_out s ++ written /\
    sm_closeErr (pst_streams (ss_pack s')) = Some q /\
    (forall id, sm_streams (pst_streams (ss_pack s')) !! id =
       (fun str => Cancel str (Some q)) <$> sm_streams (pst_streams (ss_pack s)) !! id) /\
    if ce_remote ce then written = [] /\ r = Ok tt
    else if (errorCode q =? DecryptionFailure) || bool_decide (q = ErrHOLExperiment)
    then written = [Written (writePublicReset (ss_connectionID s) (ss_lastRcvdPacketNumber s) 0)] /\ r = e_write e
    else if len (header_bytes (pk_perspective p) (packetHeader p (e_crypto e) (e_cp e) level leastUnacked))
              + ConnectionCloseFrame_MinLength ccf <=? MaxFrameAndPublicHeaderSize
    then r = e_write e /\ exists raw, written = [Written raw] /\
      @receive peer (pk_perspective p) largestRcvd raw = Ok (mkUnpackedPacket level [FConnectionClose ccf])
    else written = [] /\ exists err, r = Err err.
Proof.
  cbv zeta. intros Hok Hp Ha Hseal Hcode. unfold handleCloseError. case_decide; [done|].
  set (q := ToQuicError (ce_err ce)) in *.
  set (s1 := set_streams s _ _). assert (sm_ok s_streamID (pst_streams (ss_pack s1))) as Hok1.
  { subst s1. simpl. destruct Hok. by constructor. }
  destruct (closeStreamsWithError_spec s1 q Hok1) as [E1 E2]. set (s2 := closeStreamsWithError s1 q) in *.
  destruct (ce_remote ce).
  { exists s2, (Ok tt), []. rewrite app_nil_r. by split_and!. }
  destruct (_ || _).
  { eexists _, _, _. split; [reflexivity|]. simpl. by split_and!. }
  unfold sendConnectionClose. change (GetLeastUnacked (ss_sph s2)) with (GetLeastUnacked (ss_sph s)).
  set (ccf := mkConnectionCloseFrame _ _). destruct (Z.leb_spec
    (len (header_bytes (pk_perspective (pst_packer (ss_pack s))) (packetHeader (pst_packer (ss_pack s)) (e_crypto e)
       (e_cp e) level (GetLeastUnacked (ss_sph s)))) + ConnectionCloseFrame_MinLength ccf) MaxFrameAndPublicHeaderSize) as [Hsize|Hsize].
  - destruct (PackConnectionClose_spec (H1 := flowControlManager_methods (e_cp e)) (e_app e) (ss_pack s2) (e_crypto e) (e_cp e)
      ccf (GetLeastUnacked (ss_sph s)) (e_delay e) (e_rand e) level sealFunc peer largestRcvd Hp Ha Hseal Hcode Hsize)
      as (st & r & Epack & Hd).
    rewrite Epack. destruct Hd as (-> & raw & -> & _ & Hrecv). eexists _, _, _. split; [reflexivity|]. simpl.
    split_and!; [done|done|exact E2|done|]. by exists raw.
  - destruct (PackConnectionClose_too_long (H1 := flowControlManager_methods (e_cp e)) (e_app e) (ss_pack s2) (e_crypto e)
      (e_cp e) ccf (GetLeastUnacked (ss_sph s)) (e_delay e) (e_rand e) level sealFunc Hp Hseal Hsize) as (err & ->).
    eexists _, _, []. split; [reflexivity|]. rewrite app_nil_r. simpl. split_and!; [done|done|exact E2|done|by exists err].
Qed.

(** ** What the run loop does not do *)

Lemma garbageCollectStreams_same s :
  exists m fc, garbageCollectStreams s = set_streams s m fc.
Proof. unfold garbageCollectStreams. destruct (Iterate _ _).1 as [m fc]. by eexists _, _. Qed.

(** C39: the loop can go to sleep for ever.  When the timer expires for an ACK that cannot
    be sent because the congestion window is full, the ACK's deadline remains the earliest, so
    that [maybeResetTimer] leaves the timer as it is.  Then neither the loss alarm nor the idle
    timeout, however late it is, wakes the loop up. *)
Theorem expired_ack_stops_timer e rounds es s :
  let t := ss_time s in
  ch_closeChan (ss_ch s) = [] -> ch_receivedPackets (ss_ch s) = [] -> ch_sendingScheduled (ss_ch s) = false ->
  tg_handshakeComplete t = true -> tg_receivedTooManyUndecrytablePacketsTime t = 0 ->
  tg_nextAckScheduledTime t <> 0 -> tg_currentDeadline t = tg_nextAckScheduledTime t ->
  tg_timer t = mkTimer None true -> SendingAllowed (ss_sph s) = false ->
  tg_nextAckScheduledTime t <= e_now e <= GetAlarmTimeout (ss_sph s) ->
  e_now e < tg_lastNetworkActivityTime t + GetIdleConnectionStateLifetime (e_cp e) ->
  exists s', iteration e rounds es s TimerFired = Some (Ok s') /\
    forall e' rounds' es' ev, e_cp e' = e_cp e -> ev ∈ [TimerFired; SendingScheduled; PacketReceived] ->
      iteration e' rounds' es' s' ev = None.
Proof.
  cbv zeta. intros Hcl Hrp Hss Hhc Htm Hne Hcur Htimer Hcwnd Hnow Hidle.
  assert (forall e' s', e_cp e' = e_cp e -> ss_sph s' = ss_sph s ->
    tg_handshakeComplete (ss_time s') = true -> tg_receivedTooManyUndecrytablePacketsTime (ss_time s') = 0 ->
    tg_nextAckScheduledTime (ss_time s') = tg_nextAckScheduledTime (ss_time s) ->
    tg_lastNetworkActivityTime (ss_time s') = tg_lastNetworkActivityTime (ss_time s) ->
    tg_currentDeadline (ss_time s') = tg_nextAckScheduledTime (ss_time s) -> maybeResetTimer e' s' = Ok s') as Hreset.
  { intros e' s' Ecp E1 E2 E3 E4 E5 E6. unfold maybeResetTimer, nextDeadline, idleTimeout, MinTime.
    rewrite E1, E2, E3, E4, E5, E6, Ecp. simpl. repeat case_if; try done; lia. }
  unfold iteration at 1. rewrite Hcl, (Hreset e s) by done. unfold handleEvent. rewrite Htimer. cbn [tm_C].
  set (s1 := set_time s _). unfold afterEvent. cbv zeta. change (ss_sph s1) with (ss_sph s).
  replace (GetAlarmTimeout (ss_sph s) <? e_now e) with false by lia.
  assert (sendPacket rounds es s1 = (s1, Ok tt)) as ->.
  { destruct rounds; simpl; by rewrite Hcwnd. }
  unfold idleTimeout. cbn [ss_time s1 set_time set_timer tg_receivedTooManyUndecrytablePacketsTime
    tg_lastNetworkActivityTime tg_handshakeComplete]. rewrite Htm, Hhc. cbn [negb Z.eqb andb].
  replace (_ >=? _) with false by lia. eexists. split; [reflexivity|].
  destruct (garbageCollectStreams_same s1) as (m & fc & ->). intros e' rounds' es' ev Ecp Hev.
  unfold iteration. change (ch_closeChan _) with (ch_closeChan (ss_ch s)). rewrite Hcl, Hreset by done.
  unfold handleEvent. cbn. rewrite Hss, Hrp.
  repeat (apply elem_of_cons in Hev as [-> | Hev]; [done|]). by apply elem_of_nil in Hev.
Qed.

Lemma updateAlarm_rtoCount h now : rtoCount (updateLossDetectionAlarm h now) = rtoCount h.
Proof. unfold updateLossDetectionAlarm. by repeat case_if. Qed.

Lemma sph_sends_rtoCount h h' : sph_sends h h' -> rtoCount h' = rtoCount h.
Proof.
  intros [p now alarmNow| |force].
  - unfold SentPacket. repeat case_if; try done. destruct (OnPacketSent _ _ _ _ _ _). cbn [fst].
    by rewrite updateAlarm_rtoCount.
  - unfold DequeuePacketForRetransmission. by destruct (last _).
  - unfold GetStopWaitingFrame. by destruct (swm_GetStopWaitingFrame _ _).
Qed.

(** Without packets in flight no alarm is set, and its time is zero, which is before
    every time.  So every iteration of the loop counts as a retransmission timeout, and doubles
    the timeout of the packets that are sent later. *)
Theorem idle_iterations_back_off e rounds es s s' :
  GetAlarmTimeout (ss_sph s) = 0 -> lossTime (ss_sph s) = 0 -> packetHistory (ss_sph s) = [] -> 0 < e_now e ->
  afterEvent e rounds es s = Ok s' ->
  rtoCount (ss_sph s') = u32 (rtoCount (ss_sph s) + 1).
Proof.
  intros Ha Hl Hh Hnow. unfold afterEvent. cbv zeta. rewrite Ha. replace (0 <? e_now e) with true by lia.
  set (s1 := set_sph s _). set (n := u32 _).
  pose proof (sendPacket_preserves (fun s => rtoCount (ss_sph s) = n)) as Hp. specialize (Hp ltac:(constructor;
    [done|intros s0 h Hs0; simpl; by rewrite (sph_sends_rtoCount _ _ Hs0)|done|done|done]) rounds es s1).
  assert (rtoCount (ss_sph s1) = n) as H1'.
  { subst s1 n. cbn [set_sph ss_sph]. unfold OnAlarm. rewrite Hl. cbn [Z.eqb negb].
    rewrite updateAlarm_rtoCount. unfold retransmitOldestTwoPackets, retransmitOldest. by rewrite !Hh. }
  specialize (Hp H1'). destruct (sendPacket rounds es s1) as [s2 [u|err|]]; [| |done]; intros [= <-]; simpl in Hp.
  all: match goal with |- context [garbageCollectStreams ?x] =>
    destruct (garbageCollectStreams_same x) as (m & fc & ->) end; cbn [set_streams set_pack ss_sph].
  all: assert (forall s err, ss_sph (session_close s err) = ss_sph s) as Hc
    by (intros s0 err0; unfold session_close, registerClose; repeat (case_if || case_decide); done).
  all: repeat case_if; rewrite ?Hc; done.
Qed.

(** A lost WINDOW_UPDATE frame of the connection is not sent again.  The loop over the
    queued packets asks flow control for the receive window of the frame's stream, and stream 0,
    the connection, has no flow controller, so that the frame is dropped like an outdated one. *)
Theorem connection_window_update_not_resent e es s h p offset control :
  DequeuePacketForRetransmission (ss_sph s) = (h, Some p) ->
  p_EncryptionLevel p = EncryptionForwardSecure ->
  p_Frames p = [FWindowUpdate (mkWindowUpdateFrame 0 offset)] ->
  streamFlowController (pst_fc (ss_pack s)) !! 0 = None ->
  resendPackets (e :: es) s control = resendPackets es (set_sph s h) control.
Proof.
  intros Ed Elevel Ef E0. cbn [resendPackets]. rewrite Ed, Elevel. cbn [Z.eqb negb].
  unfold GetFramesForRetransmission. rewrite Ef. simpl. unfold GetReceiveWindow.
  cbn [wuf_StreamID set_sph ss_pack]. by rewrite E0.
Qed.

(** The time at which too many undecryptable packets were received is never cleared.
    It stays the earliest deadline, also after the packets were decrypted and the handshake is
    complete: once the timer has expired for it, no later deadline sets the timer again. *)
Theorem undecryptable_time_stops_timer e rounds es s :
  let t := ss_time s in
  let d := tg_receivedTooManyUndecrytablePacketsTime t + PublicResetTimeout in
  tg_receivedTooManyUndecrytablePacketsTime t <> 0 -> tg_handshakeComplete t = true ->
  tg_currentDeadline t = d -> tg_timer t = mkTimer None false ->
  d <= tg_lastNetworkActivityTime t + GetIdleConnectionStateLifetime (e_cp e) ->
  (tg_nextAckScheduledTime t <> 0 -> d <= tg_nextAckScheduledTime t) ->
  (GetAlarmTimeout (ss_sph s) <> 0 -> d <= GetAlarmTimeout (ss_sph s)) ->
  maybeResetTimer e s = Ok s /\ iteration e rounds es s TimerFired = None.
Proof.
  cbv zeta. intros Hne Hhc Hcur Htimer Hidle Hack Halarm.
  assert (maybeResetTimer e s = Ok s) as E.
  { unfold maybeResetTimer, nextDeadline, idleTimeout, MinTime. rewrite Hhc, Hcur.
    cbn [negb]. repeat case_if; try done; lia. }
  split; [done|]. unfold iteration. destruct (ch_closeChan _); [|done]. rewrite E. unfold handleEvent. by rewrite Htimer.
Qed.

End session.
