(* ===== verification/SessionSafety.v ===== *)
(** * The session as a whole: no input makes it fail

    The run loop of session.go with all its components.  The invariant [safe_ok] says what the
    components rely on of each other; it holds whatever the peer sends, in every interleaving
    with the application. *)

From S2P Require Import Prelude Protocol Qerr Wire Frames AckFrame Frame ReceivedPackets PublicHeader PacketUnpacker.
From S2P Require Import StreamFrameSorter Handshake FlowControl RTTStats SendAlgorithm SentPackets.
From S2P Require Import PacketNumberGenerator StreamsMap Stream StreamFramer PacketPacker Session.

(** ** Flow control *)

(** What a controller keeps even if the peer violates its window *)
Record ctl_ok (c : flowController) : Prop := {
  cl_read : 0 <= fc_bytesRead c < 2 ^ 62;
  cl_window : 0 <= fc_receiveWindow c < 2 ^ 63;
  cl_inc : 0 <= fc_receiveWindowIncrement c <= fc_maxReceiveWindowIncrement c;
  cl_max : fc_maxReceiveWindowIncrement c < 2 ^ 32;
}.

(** The controllers are those of the streams [ids]. *)
Record fcm_safe (ids : gset Z) (f : flowControlManager) : Prop := {
  fs_streams id c : streamFlowController f !! id = Some c -> ctl_ok c;
  fs_conn : ctl_ok (connFlowController f);
  fs_dom : dom (streamFlowController f) = ids;
}.

Lemma fcm_safe_stream ids f id c :
  fcm_safe ids f -> id ∈ ids -> ctl_ok c -> fcm_safe ids (set_stream f id c).
Proof.
  intros [Hs Hc Hd] Hid Hok. constructor; simpl; [by apply streams_insert|done|].
  rewrite dom_insert_L, Hd. set_solver.
Qed.
Lemma fcm_safe_conn ids f c : fcm_safe ids f -> ctl_ok c -> fcm_safe ids (set_conn f c).
Proof. intros [Hs Hc Hd] Hok. by constructor. Qed.

Lemma fcm_safe_lookup ids f id :
  fcm_safe ids f -> id ∈ ids -> exists c, streamFlowController f !! id = Some c /\ ctl_ok c.
Proof.
  intros [Hs _ Hd] Hid. rewrite <- Hd in Hid. apply elem_of_dom in Hid as [c Hc]. exists c. eauto.
Qed.
Lemma fcm_safe_elem ids f id c : fcm_safe ids f -> streamFlowController f !! id = Some c -> id ∈ ids.
Proof. intros [_ _ <-] Hc. apply elem_of_dom. by eexists. Qed.

Create HintDb safety.
#[local] Hint Resolve fcm_safe_stream fcm_safe_conn fcm_safe_elem fs_conn : safety.

Lemma checkReceived_safe ids f id off c inc :
  fcm_safe ids f -> id ∈ ids -> ctl_ok c ->
  let '(f', r) := checkReceived f id off c inc in
  fcm_safe ids f' /\ match r with
    | Ok _ => fc_highestReceived c <= fc_receiveWindow c
    | Err e => exists msg, e = QuicError FlowControlReceivedTooMuchData msg
    | Panic => False
    end.
Proof.
  intros Hf Hid Hc. unfold checkReceived, CheckFlowControlViolation. case_if.
  { split; [by apply fcm_safe_stream|by eexists]. }
  assert (ctl_ok (IncrementHighestReceived (connFlowController f) inc)) as Hconn
    by (destruct (fs_conn _ _ Hf); by constructor).
  case_if; [case_if|]; (split; [|by eexists || lia]); eauto with safety.
Qed.

Lemma set_highest_ok c x : ctl_ok c -> ctl_ok (set_highestReceived c x).
Proof. intros []. by constructor. Qed.

Lemma fc_UpdateHighestReceived_safe c off :
  ctl_ok c -> let '(c', inc, err) := fc_UpdateHighestReceived c off in
  ctl_ok c' /\ off <= fc_highestReceived c' /\ fc_receiveWindow c' = fc_receiveWindow c.
Proof.
  intros Hc. unfold fc_UpdateHighestReceived. repeat case_if; (split; [|simpl; lia]); [done| |done].
  by apply set_highest_ok.
Qed.

Lemma UpdateHighestReceived_safe ids f id off :
  fcm_safe ids f -> id ∈ ids ->
  let '(f', r) := UpdateHighestReceived f id off in
  fcm_safe ids f' /\ match r with
    | Ok _ => off < 2 ^ 63
    | Err e => exists msg, e = QuicError FlowControlReceivedTooMuchData msg
    | Panic => False
    end.
Proof.
  intros Hf Hid. unfold UpdateHighestReceived. destruct (fcm_safe_lookup _ _ _ Hf Hid) as (c & -> & Hc).
  pose proof (fc_UpdateHighestReceived_safe c off Hc) as Hu.
  destruct (fc_UpdateHighestReceived c off) as [[c' inc] err]. destruct Hu as (Hc' & Hoff & Hw).
  pose proof (checkReceived_safe ids f id off c' inc Hf Hid Hc') as Hk.
  destruct (checkReceived _ _ _ _ _) as [f' [u|e|]]; [|done|done]. destruct Hk. split; [done|].
  destruct Hc. lia.
Qed.

Lemma ResetStream_safe ids f id off :
  fcm_safe ids f -> id ∈ ids ->
  let '(f', r) := ResetStream f id off in
  fcm_safe ids f' /\ match r with
    | Ok _ => True
    | Err e => e = ErrorCodeErr StreamDataAfterTermination \/ exists msg, e = QuicError FlowControlReceivedTooMuchData msg
    | Panic => False
    end.
Proof.
  intros Hf Hid. unfold ResetStream. destruct (fcm_safe_lookup _ _ _ Hf Hid) as (c & -> & Hc).
  pose proof (fc_UpdateHighestReceived_safe c off Hc) as Hu.
  destruct (fc_UpdateHighestReceived c off) as [[c' inc] [err|]]; [split; [done|by left]|]. destruct Hu as (Hc' & _).
  pose proof (checkReceived_safe ids f id off c' inc Hf Hid Hc') as Hk.
  destruct (checkReceived _ _ _ _ _) as [f' [u|e|]]; [|by destruct Hk; auto|done]. by destruct Hk.
Qed.

Lemma UpdateWindow_safe ids f id off :
  fcm_safe ids f -> id = 0 \/ id ∈ ids ->
  exists b, (UpdateWindow f id off).2 = Ok b /\ fcm_safe ids (UpdateWindow f id off).1.
Proof.
  intros Hf Hid. unfold UpdateWindow, UpdateSendWindow.
  assert (forall c x, ctl_ok c -> ctl_ok (set_sendWindow c x)) as Hset by (intros c x []; by constructor).
  case_if.
  - case_if; (eexists; split; [done|]); simpl; eauto using fs_conn with safety.
  - destruct Hid as [|Hid]; [done|]. destruct (fcm_safe_lookup _ _ _ Hf Hid) as (c & -> & Hc).
    case_if; (eexists; split; [done|]); simpl; auto with safety.
Qed.

Lemma fcm_safe_NewStream {A} `{ConnectionParametersLaws A ok} (cp : A) ids f id b :
  ok cp -> fcm_safe ids f -> fcm_safe ({[id]} ∪ ids) (fcm_NewStream cp f id b).
Proof.
  intros Hcp [Hs Hc Hd]. unfold fcm_NewStream. destruct (streamFlowController f !! id) as [c|] eqn:E.
  - constructor; [done|done|]. assert (id ∈ ids) by (rewrite <- Hd; apply elem_of_dom; by eexists). set_solver.
  - destruct (receive_window_bounds cp Hcp) as (? & ? & ? & ?).
    constructor; simpl; [|done|by rewrite dom_insert_L, Hd]. apply streams_insert; [done|].
    unfold newFlowController. case_if; constructor; simpl; lia.
Qed.

Lemma fcm_safe_remove ids f id : fcm_safe ids f -> fcm_safe (ids ∖ {[id]}) (RemoveStream f id).
Proof.
  intros [Hs Hc Hd]. constructor; simpl; [|done|by rewrite dom_delete_L, Hd].
  intros j c [_ Hj]%lookup_delete_Some. eauto.
Qed.

Lemma MaybeUpdateWindow_safe c now rtt :
  ctl_ok c -> let '(c', _, _, offset) := MaybeUpdateWindow c now rtt in ctl_ok c' /\ is_u64 offset.
Proof.
  intros Hc. pose proof Hc as []. unfold MaybeUpdateWindow. case_if; [|split; [done|unfold is_u64; lia]].
  assert (exists inc, maybeAdjustWindowIncrement c now rtt = set_receiveWindowIncrement c inc /\
    0 <= inc <= fc_maxReceiveWindowIncrement c) as (inc & -> & Hinc).
  { unfold maybeAdjustWindowIncrement. rewrite MinByteCount_min, (u64_small (_ * _)) by (unfold_width; lia).
    assert (c = set_receiveWindowIncrement c (fc_receiveWindowIncrement c)) as E by by destruct c.
    repeat case_if; eexists; (split; [first [exact E|reflexivity]|lia]). }
  cbn. rewrite u64_small by (unfold_width; lia). split; [constructor; simpl; lia|unfold is_u64; lia].
Qed.

Definition updates_ok (us : list WindowUpdate) : Prop :=
  Forall (fun u => is_u32 (wu_StreamID u) /\ is_u64 (wu_Offset u)) us.

Lemma streamWindowUpdates_safe ids f now rtt order acc :
  fcm_safe ids f -> (forall id, id ∈ ids -> is_u32 id) -> updates_ok acc ->
  let '(f', us) := streamWindowUpdates f now rtt order acc in fcm_safe ids f' /\ updates_ok us.
Proof.
  intros Hf Hids Hacc. revert f acc Hf Hacc. induction order as [|i order IH]; intros f acc Hf Hacc; [done|]. simpl.
  destruct (streamFlowController f !! i) as [c|] eqn:Ec; [|by apply IH].
  pose proof (MaybeUpdateWindow_safe c now rtt (fs_streams _ _ Hf _ _ Ec)) as Hu.
  destruct (MaybeUpdateWindow c now rtt) as [[[c' nec] inc] off]. destruct Hu as [Hc' Hoff].
  assert (i ∈ ids) as Hi by eauto with safety.
  assert (fcm_safe ids (set_stream f i c')) as Hf' by eauto with safety.
  destruct nec; [|by apply IH]. apply IH; [|apply Forall_app; split; [done|apply Forall_singleton; auto]].
  case_if; [|done]. apply fcm_safe_conn; [done|].
  pose proof (fs_conn _ _ Hf) as Hconn. pose proof Hconn as []. unfold EnsureMinimumWindowIncrement.
  case_if; [|done]. rewrite MinByteCount_min. constructor; simpl; lia.
Qed.

Lemma GetWindowUpdates_safe ids f now rtt order :
  fcm_safe ids f -> (forall id, id ∈ ids -> is_u32 id) ->
  let '(f', us) := GetWindowUpdates f now rtt order in fcm_safe ids f' /\ updates_ok us.
Proof.
  intros Hf Hids. unfold GetWindowUpdates.
  pose proof (streamWindowUpdates_safe ids f now rtt order [] Hf Hids ltac:(constructor)) as Hs.
  destruct (streamWindowUpdates _ _ _ _ _) as [f1 us]. destruct Hs as [Hf1 Hus].
  pose proof (MaybeUpdateWindow_safe (connFlowController f1) now rtt (fs_conn _ _ Hf1)) as Hu.
  destruct (MaybeUpdateWindow _ _ _) as [[[c' nec] inc] off]. destruct Hu as [Hc' Hoff].
  destruct nec; (split; [eauto with safety|]); [|done].
  apply Forall_app. split; [done|]. by apply Forall_singleton.
Qed.

(** Sending changes nothing of this, whatever the connection parameters are. *)
Lemma fcm_safe_sent {A} `{ConnectionParametersManager A} (cp : A) ids :
  forall f id n, fcm_safe ids f -> fcm_safe ids (@FlowAddBytesSent _ (flowControlManager_methods cp) f id n).1.
Proof.
  intros f id n Hf. simpl. unfold AddBytesSent. destruct (streamFlowController f !! id) as [c|] eqn:Ec; [|done].
  assert (forall c n, ctl_ok c -> ctl_ok (fc_AddBytesSent c n)) as Hset by (intros c0 n0 []; by constructor).
  assert (fcm_safe ids (set_stream f id (fc_AddBytesSent c n))) as Hf'.
  { apply fcm_safe_stream; [done|by eapply fcm_safe_elem|]. apply Hset. by apply (fs_streams _ _ Hf id). }
  case_if; [|done]. apply fcm_safe_conn; [done|]. apply Hset, (fs_conn _ _ Hf).
Qed.

#[export] Instance fcm_safe_laws {A} `{ConnectionParametersManager A} (cp : A) ids :
  @FlowControlLaws flowControlManager (flowControlManager_methods cp) (fcm_safe ids).
Proof.
  pose proof (fcm_safe_sent cp ids). constructor; simpl; [|by auto..]. apply SendWindowSize_nonneg.
Qed.

(** ** Streams *)

(** The errors for which a session is closed when a frame of the peer is handled *)
Definition peerError (e : goerror) : bool :=
  match e with
  | QuicError code _ => (code =? InvalidStreamID) || (code =? FlowControlReceivedTooMuchData)
  | _ => false
  end
  || bool_decide (e ∈ [ErrorCodeErr TooManyOpenStreams; ErrorCodeErr StreamDataAfterTermination;
       errTooManyGapsInReceivedStreamData; errAckForUnsentPacket; ErrAckForSkippedPacket;
       errInvalidPacketNumber; errTooManyOutstandingReceivedAckRanges; errTooManyOutstandingReceivedPackets;
       ErrNew "unimplemented: handling GOAWAY frames"]).

Record stream_safe (str : stream) : Prop := {
  ts_sendable : sendable str;
  ts_gaps : gaps_ok 0 (gaps (s_frameQueue str));
}.

Lemma stream_safe_same str str' :
  s_streamID str' = s_streamID str -> s_writeOffset str' = s_writeOffset str ->
  s_dataForWriting str' = s_dataForWriting str -> gaps (s_frameQueue str') = gaps (s_frameQueue str) ->
  stream_safe str -> stream_safe str'.
Proof.
  intros E1 E2 E3 E4 [Hs Hg]. constructor; [|by rewrite E4]. unfold sendable, pending in *. by rewrite E1, E2, E3.
Qed.

Lemma newStream_safe id : is_u32 id -> stream_safe (newStream id).
Proof. intros Hid. constructor; [by apply newStream_sendable|]. simpl. done. Qed.

Definition signals_ok (sigs : list signal) : Prop :=
  Forall (fun sig => match sig with OnData => True | OnReset id offset => is_u32 id /\ is_u64 offset end) sigs.

Lemma maybeSendReset_safe str :
  stream_safe str -> stream_safe (maybeSendReset str).1 /\ signals_ok (maybeSendReset str).2 /\
  s_streamID (maybeSendReset str).1 = s_streamID str.
Proof.
  intros Hs. unfold maybeSendReset. case_if; [|split_and!; [done|constructor|done]].
  split_and!; [by apply (stream_safe_same str)| |done]. apply Forall_singleton.
  destruct Hs as [(? & ? & ? & _) _]. pose proof (len_nonneg (pending str)). split; [done|unfold is_u64; lia].
Qed.

Lemma RegisterRemoteError_safe str err :
  stream_safe str -> let '(str', sigs) := RegisterRemoteError str err in
  stream_safe str' /\ signals_ok sigs /\ s_streamID str' = s_streamID str.
Proof.
  intros Hs. unfold RegisterRemoteError. case_if; [split_and!; [done|constructor|done]|].
  set (str1 := setErr _ _). assert (stream_safe str1 /\ s_streamID str1 = s_streamID str) as [H1 E1].
  { subst str1. unfold setErr. simpl. destruct (s_err str); (split; [by apply (stream_safe_same str)|done]). }
  pose proof (maybeSendReset_safe str1 H1) as Hm. rewrite E1 in Hm. by destruct (maybeSendReset str1).
Qed.

(** The streams of a session, and their flow control *)
Record streams_ok (m : streamsMap (S := stream)) (fc : flowControlManager) : Prop := {
  sk_map : sm_ok s_streamID m;
  sk_stream id str : sm_streams m !! id = Some str -> stream_safe str;
  sk_fc : exists ids, fcm_safe ids fc /\ (forall id, id ∈ ids -> is_u32 id) /\
    forall id, is_Some (sm_streams m !! id) -> id ∈ ids;
}.

Lemma streams_ok_put m fc str :
  streams_ok m fc -> is_Some (sm_streams m !! s_streamID str) -> stream_safe str -> streams_ok (putBack m str) fc.
Proof.
  intros [Hm Hs (ids & Hf & Hu & Hd)] Hin Hsafe.
  assert (only_streams s_streamID m (putBack m str)) as Hos.
  { split; [|intros id x|done]; simpl.
    - intros id. rewrite lookup_insert_is_Some'. split; [intros [<-|]; done|by right].
    - rewrite lookup_insert_Some. intros [[<- <-]|[_ Hx]]; [done|by apply (ok_id _ _ Hm)]. }
  constructor.
  - by eapply only_streams_ok.
  - intros id x. simpl. rewrite lookup_insert_Some. intros [[_ <-]|[_ Hx]]; [done|by eapply Hs].
  - exists ids. split_and!; [done|done|]. intros id Hid. apply Hd. by apply (os_dom _ _ _ Hos).
Qed.

Lemma streams_ok_fc m fc ids fc' :
  streams_ok m fc -> fcm_safe ids fc -> fcm_safe ids fc' -> streams_ok m fc'.
Proof.
  intros [Hm Hs (ids' & Hf & Hu & Hd)] H1 H2. constructor; [done|done|].
  assert (ids' = ids) as -> by (rewrite <- (fs_dom _ _ Hf); apply (fs_dom _ _ H1)). by exists ids.
Qed.

Section streams.
Context {A : Type} {ok : A -> Prop} `{ConnectionParametersLaws A ok} (cp : A).
Hypothesis Hcp : ok cp.

Lemma AddStreamFrame_safe ids str fc f :
  stream_safe str -> fcm_safe ids fc -> s_streamID str ∈ ids -> StreamFrame_wf f ->
  let '(str', fc', r) := @AddStreamFrame _ (flowControlManager_methods cp) str fc f in
  stream_safe str' /\ fcm_safe ids fc' /\ s_streamID str' = s_streamID str /\
  match r with Ok _ => True | Err e => peerError e = true | Panic => False end.
Proof.
  intros Hs Hf Hid (_ & Ho & _ & Hne & Hlt). unfold AddStreamFrame. simpl FlowUpdateHighestReceived.
  pose proof (UpdateHighestReceived_safe ids fc (s_streamID str) (u64 (sf_Offset f + StreamFrame_DataLen f)) Hf Hid) as Hu.
  destruct (UpdateHighestReceived _ _ _) as [fc' [u|e|]]; [|by destruct Hu as [? (msg & ->)]; split_and!|by destruct Hu].
  destruct Hu as [Hf' Hmax]. unfold StreamFrame_DataLen in Hmax. unfold is_u64 in Ho.
  rewrite u64_small in Hmax by (pose proof (len_nonneg (sf_Data f)); unfold_width; lia).
  destruct (Push_safe (s_frameQueue str) f) as [Hg Hr];
    [apply Hs|lia|unfold MaxByteCount, StreamFrame_DataLen; lia|done|].
  destruct (Push (s_frameQueue str) f) as [q r]. simpl in Hg, Hr.
  assert (stream_safe (s_set_read str (s_readPosInFrame str) (s_readOffset str) (s_finishedReading str) q)) as Hs'
    by (destruct Hs; by constructor).
  destruct Hr as [-> | [-> | ->]]; [by split_and!|by rewrite decide_True|].
  rewrite decide_False by done. by split_and!.
Qed.

(** Opening streams *)
Record opens (m : streamsMap (S := stream)) (fc : flowControlManager) : Prop := {
  on_stream id str : sm_streams m !! id = Some str -> stream_safe str;
  on_fc : exists ids, fcm_safe ids fc /\ (forall id, id ∈ ids -> is_u32 id) /\
    forall id, is_Some (sm_streams m !! id) -> id ∈ ids;
}.

Lemma opens_put m m' fc id :
  opens m fc -> is_u32 id -> sm_streams m' = sm_streams m ->
  opens (putStream s_streamID m' (newStream id)).1 (fcm_NewStream cp fc id (negb ((id =? 1) || (id =? 3)))).
Proof.
  intros [Hs (ids & Hf & Hu & Hd)] Hid E.
  assert (exists ids', fcm_safe ids' (fcm_NewStream cp fc id (negb ((id =? 1) || (id =? 3)))) /\
    ids' = {[id]} ∪ ids) as (ids' & Hf' & ->) by (eexists; split; [by apply fcm_safe_NewStream|done]).
  assert (forall x, x ∈ {[id]} ∪ ids -> is_u32 x) as Hu'.
  { intros x [Hx|Hx]%elem_of_union; [by apply elem_of_singleton in Hx as ->|by apply Hu]. }
  unfold putStream. rewrite E. simpl. destruct (sm_streams m !! id) eqn:El; simpl.
  - constructor; [by rewrite E|]. exists ({[id]} ∪ ids). split_and!; [done|done|]. rewrite E. set_solver.
  - constructor; simpl.
    + intros x str. rewrite lookup_insert_Some. intros [[_ <-]|[_ Hx]]; [by apply newStream_safe|by eapply Hs].
    + exists ({[id]} ∪ ids). split_and!; [done|done|]. intros x. rewrite lookup_insert_is_Some'. set_solver.
Qed.

Lemma openRemoteStream_opens m fc id :
  opens m fc -> is_u32 id ->
  let '(m', fc', r) := openRemoteStream s_streamID (session_newStream cp) cp m fc id in
  opens m' fc' /\ match r with Err e => peerError e = true | _ => True end.
Proof.
  intros Ho Hid. unfold openRemoteStream. case_if; [done|]. case_if; [done|]. simpl.
  split; [|done]. apply (opens_put m); [done|done|]. by repeat case_if.
Qed.

Lemma openRemoteStreams_opens fuel m fc sid id :
  opens m fc -> is_u32 sid ->
  let '(m', fc', r) := openRemoteStreams s_streamID (session_newStream cp) fuel cp m fc sid id in
  opens m' fc' /\ match r with Err e => peerError e = true | _ => True end.
Proof.
  revert m fc sid. induction fuel as [|fuel IH]; intros m fc sid Ho Hsid; simpl; case_if; try done.
  pose proof (openRemoteStream_opens m fc sid Ho Hsid) as Hone.
  destruct (openRemoteStream _ _ _ _ _ _) as [[m1 fc1] [str|e|]]; [|done|done].
  apply IH; [by destruct Hone|apply u32_range].
Qed.

Lemma GetOrOpenStream_safe m fc id :
  streams_ok m fc -> is_u32 id ->
  let '(m', fc', r) := SM_GetOrOpenStream s_streamID (session_newStream cp) cp m fc id in
  streams_ok m' fc' /\
  match r with
  | Ok (Some str) => sm_streams m' !! id = Some str /\ s_streamID str = id
  | Ok None => True
  | Err e => peerError e = true
  | Panic => False
  end.
Proof.
  intros Hok Hid. destruct (SM_GetOrOpenStream _ _ _ _ _ _) as [[m' fc'] r] eqn:E.
  pose proof (GetOrOpenStream_spec s_streamID (session_newStream cp) ltac:(done) cp m fc id m' fc' r
    (sk_map _ _ Hok) Hid E) as [Hm' Hspec].
  assert (opens m fc) as Ho by (by destruct Hok; constructor).
  assert (opens m' fc' /\ match r with Err e => peerError e = true | _ => True end) as [Ho' Hr].
  { revert E. unfold SM_GetOrOpenStream. destruct (sm_streams m !! id); [by intros [= <- <- <-]|].
    case_if; [by intros [= <- <- <-]|]. case_if; [by intros [= <- <- <-]|]. case_if; [by intros [= <- <- <-]|].
    match goal with |- context [openRemoteStreams _ _ ?fuel _ _ _ ?sid _] =>
      pose proof (openRemoteStreams_opens fuel m fc sid id Ho) as Hopen;
      assert (is_u32 sid) as Hsid by (case_if; [done|apply u32_range]) end.
    specialize (Hopen Hsid). destruct (openRemoteStreams _ _ _ _ _ _ _ _) as [[m1 fc1] [u|e|]]; by intros [= <- <- <-]. }
  split; [by destruct Ho'; constructor|].
  destruct (sm_streams m !! id) as [str|] eqn:El.
  { destruct Hspec as [-> ->]. split; [done|]. by apply (ok_id _ _ Hm'). }
  destruct (id <=? _); [by destruct Hspec as [_ ->]|].
  destruct (_ =? own_parity _); [by destruct Hspec as (_ & msg & ->)|].
  destruct Hspec as [Hup Hsome]. destruct r as [o|e|]; [|done|done].
  destruct (Hsome o eq_refl) as (str & -> & Hs). split; [done|]. by apply (ok_id _ _ Hm').
Qed.
End streams.

(** ** The invariant *)

Section safety.
Context {C A : Type} `{CryptoSetup C} {ok : A -> Prop} `{ConnectionParametersLaws A ok}.
Context `{SA : SendAlgorithm, Laws : !SendAlgorithmLaws SA}.
Context (pers : Perspective).

(** The packets that were sent, and the next packet number *)
Record sending_ok (h : sentPacketHandler) (g : packetNumberGenerator) : Prop := {
  sd_packets : exists sent dequeued acks, sph_ok h sent dequeued acks /\
    Forall (fun p => Forall sent_frame_ok (p_Frames p)) sent;
  sd_stopWaiting : sw_ok h;
  sd_next : Peek g = lastSentPacketNumber h + 1;
  sd_skip : png_nextToSkip g = 0;
}.

(** A packet as the server or the client hands it to the session *)
Record packet_ok (p : receivedPacket) : Prop := {
  pa_data : bytes_ok (rp_data p);
  pa_number : is_u64 (ph_PacketNumber (rp_publicHeader p));
  pa_len : 0 <= ph_PacketNumberLen (rp_publicHeader p) <= 8;
  pa_feedback d : rp_feedbackData p = Some d -> len d <= 255;
}.

Record parts_ok (st : packState (F := flowControlManager)) (h : sentPacketHandler)
    (r : receivedPacketHandler) (ch : channels) : Prop := {
  so_streams : streams_ok (pst_streams st) (pst_fc st);
  so_framer : framer_ok (pst_framer st);
  so_control : Forall queueable (pk_controlFrames (pst_packer st));
  so_packer : 0 < pk_connectionID (pst_packer st) < 2 ^ 64 /\ 0 <= pk_version (pst_packer st) < 1000 /\
    pk_perspective (pst_packer st) = pers;
  so_sending : sending_ok h (pk_packetNumberGenerator (pst_packer st));
  so_received : exists R, handler_inv r R;
  so_packets : Forall packet_ok (ch_receivedPackets ch ++ ch_undecryptablePackets ch);
}.

Definition safe_ok (s : session) : Prop :=
  parts_ok (ss_pack s) (ss_sph s) (ss_rph s) (ss_ch s).

(** The environment of an operation: the crypto setup sends at most two encryption levels. *)
Record env_ok (e : env (C := C) (A := A)) : Prop := {
  eo_now : 0 < e_now e;
  eo_cp : ok (e_cp e);
  eo_truncate : TruncateConnectionID (e_cp e) = true -> pers = PerspectiveServer;
  eo_nonce sealFunc : pers = PerspectiveServer ->
    GetSealer (e_crypto e) = (EncryptionSecure, sealFunc) \/
    GetSealerWithEncryptionLevel (e_crypto e) EncryptionSecure = Ok sealFunc ->
    len (DiversificationNonce (e_crypto e)) = 32;
  eo_open : quicAEADLaws {| Open := CryptoOpen (e_crypto e) |};
  eo_sealer level : GetSealerWithEncryptionLevel (e_crypto e) level <> Panic;
  eo_write : e_write e <> Panic;
  eo_app : app_ok (e_app e);
  eo_levels : len (e_levels e) <= 2;
}.

(** *** Updates of parts of the session *)

Lemma safe_streams s m fc : safe_ok s -> streams_ok m fc -> safe_ok (set_streams s m fc).
Proof. intros [? ? ? ? ? ? ?] Hm. by constructor. Qed.

Lemma safe_control s f : safe_ok s -> queueable f -> safe_ok (queueControlFrame s f).
Proof. intros [? ? ? ? ? ? ?] Hf. constructor; try done. simpl. apply Forall_app. by split; [|constructor]. Qed.

Lemma safe_schedule s : safe_ok s -> safe_ok (scheduleSending s).
Proof. intros [? ? ? ? ? ? ?]. by constructor. Qed.

Lemma safe_rph s r R : safe_ok s -> handler_inv r R -> safe_ok (set_rph s r).
Proof. intros [? ? ? ? ? ? ?] Hr. constructor; try done. by exists R. Qed.

Lemma safe_sph s h : safe_ok s -> sending_ok h (pk_packetNumberGenerator (pst_packer (ss_pack s))) -> safe_ok (set_sph s h).
Proof. intros [? ? ? ? ? ? ?] Hh. by constructor. Qed.

Lemma Cancel_safe str err : stream_safe str -> stream_safe (Cancel str err) /\ s_streamID (Cancel str err) = s_streamID str.
Proof.
  intros Hs. unfold Cancel, setErr. simpl. destruct (s_err str); (split; [by apply (stream_safe_same str)|done]).
Qed.

Lemma cancelStreams_ok err ids m fc :
  streams_ok m fc -> streams_ok (iterateOver ids (m, tt) (cancelStream err)).1.1 fc.
Proof.
  revert m. induction ids as [|id ids IH]; intros m Hm; [done|]. simpl. unfold iterateFunc. simpl.
  destruct (sm_streams m !! id) as [str|] eqn:E; [|done]. simpl. apply IH.
  destruct (Cancel_safe str (Some err) (sk_stream _ _ Hm _ _ E)) as [Hs Hid].
  apply streams_ok_put; [done| |done]. rewrite Hid, (ok_id _ _ (sk_map _ _ Hm) _ _ E). by eexists.
Qed.

Lemma safe_close s err remote : safe_ok s -> safe_ok (registerClose s err remote).1.
Proof.
  intros Hs. unfold registerClose. case_if; [done|]. set (e := default _ err).
  set (s1 := if decide _ then _ else s).
  assert (safe_ok s1 /\ ss_ch s1 = ss_ch s) as [Hs1 E].
  { subst s1. case_decide; [|done]. split; [|done].
    assert (streams_ok (SM_CloseWithError (pst_streams (ss_pack s)) (Some e)) (pst_fc (ss_pack s))).
    { destruct (so_streams _ _ _ _ Hs) as [Hm Hst Hf]. constructor; [destruct Hm; by constructor|done|done]. }
    apply safe_streams; [by apply safe_streams|]. by apply cancelStreams_ok. }
  destruct Hs1 as [? ? ? ? ? ? Hp]. constructor; try done. simpl. by rewrite E in Hp.
Qed.

Lemma safe_signalled s sigs : safe_ok s -> signals_ok sigs -> safe_ok (signalled s sigs).
Proof.
  intros Hs Hsig. revert s Hs. induction Hsig as [|[|id off] sigs Hone _ IH]; intros s Hs; [done| |]; simpl; apply IH.
  - by apply safe_schedule.
  - apply safe_schedule, safe_control; [done|]. simpl. split; [apply Hone|split; [done|apply Hone]].
Qed.

(** ** Receiving *)

Lemma session_GetOrOpenStream_safe e s id :
  env_ok e -> safe_ok s -> is_u32 id ->
  let '(s', r) := session_GetOrOpenStream e s id in
  safe_ok s' /\ ss_rph s' = ss_rph s /\
  match r with
  | Ok (Some str) => sm_streams (pst_streams (ss_pack s')) !! id = Some str /\ s_streamID str = id
  | Ok None => True
  | Err e => peerError e = true
  | Panic => False
  end.
Proof.
  intros He Hs Hid. unfold session_GetOrOpenStream.
  pose proof (GetOrOpenStream_safe (e_cp e) (eo_cp _ He) _ _ id (so_streams _ _ _ _ Hs) Hid) as Hg.
  destruct (SM_GetOrOpenStream _ _ _ _ _ _) as [[m fc] r]. destruct Hg as [Hok Hr].
  split_and!; [by apply safe_streams|done|done].
Qed.

Definition handled (s : session) (sr : session * res unit) : Prop :=
  safe_ok sr.1 /\ ss_rph sr.1 = ss_rph s /\
  match sr.2 with Ok _ => True | Err e => peerError e = true \/ ignoredError e = true | Panic => False end.

Lemma handleStreamFrame_safe e s f :
  env_ok e -> safe_ok s -> StreamFrame_wf f -> handled s (handleStreamFrame e s f).
Proof.
  intros He Hs Hf. unfold handleStreamFrame.
  pose proof (session_GetOrOpenStream_safe e s (sf_StreamID f) He Hs ltac:(apply Hf)) as Hg.
  destruct (session_GetOrOpenStream e s (sf_StreamID f)) as [s1 [[str|]|err|]]; destruct Hg as (Hs1 & E & Hr);
    try (split_and!; simpl; auto; done).
  destruct Hr as [Hin Hid]. pose proof (so_streams _ _ _ _ Hs1) as Hst.
  pose proof Hst as [_ Hsafe (ids & Hfc & Hu & Hd)].
  pose proof (AddStreamFrame_safe (e_cp e) ids str (pst_fc (ss_pack s1)) f (Hsafe _ _ Hin) Hfc
    ltac:(apply Hd; rewrite Hid; by eexists) Hf) as Ha.
  destruct (AddStreamFrame _ _ _) as [[str' fc'] r]. destruct Ha as (Hs' & Hfc' & Hid' & Hr).
  split_and!; [|done|simpl; destruct r; auto]. apply safe_streams; [done|].
  apply streams_ok_put; [by eapply streams_ok_fc| |done]. rewrite Hid', Hid. by eexists.
Qed.

Lemma handleWindowUpdateFrame_safe e s f :
  env_ok e -> safe_ok s -> is_u32 (wuf_StreamID f) -> handled s (handleWindowUpdateFrame e s f).
Proof.
  intros He Hs Hf. unfold handleWindowUpdateFrame.
  assert (forall s1, safe_ok s1 -> ss_rph s1 = ss_rph s ->
    (wuf_StreamID f = 0 \/ is_Some (sm_streams (pst_streams (ss_pack s1)) !! wuf_StreamID f)) ->
    handled s (let '(fc, r) := UpdateWindow (pst_fc (ss_pack s1)) (wuf_StreamID f) (wuf_ByteOffset f) in
      (set_streams s1 (pst_streams (ss_pack s1)) fc, let! _ := r in Ok tt))) as Hup.
  { intros s1 Hs1 E Hin. pose proof (so_streams _ _ _ _ Hs1) as Hst. pose proof Hst as [_ _ (ids & Hfc & _ & Hd)].
    destruct (UpdateWindow_safe ids (pst_fc (ss_pack s1)) (wuf_StreamID f) (wuf_ByteOffset f) Hfc) as (b & Eb & Hfc').
    { destruct Hin as [|Hin]; [by left|right; by apply Hd]. }
    destruct (UpdateWindow _ _ _) as [fc r]. simpl in Eb, Hfc'. subst r.
    split_and!; [|done|done]. apply safe_streams; [done|]. by eapply streams_ok_fc. }
  case_if; [|apply Hup; auto].
  pose proof (session_GetOrOpenStream_safe e s (wuf_StreamID f) He Hs Hf) as Hg.
  destruct (session_GetOrOpenStream e s (wuf_StreamID f)) as [s1 [[str|]|err|]]; destruct Hg as (Hs1 & E & Hr);
    try (split_and!; simpl; auto; done).
  apply Hup; [done|done|]. right. destruct Hr as [-> _]. by eexists.
Qed.

Lemma signalled_rph s sigs : ss_rph (signalled s sigs) = ss_rph s.
Proof. revert s. induction sigs as [|[|] sigs IH]; intros s; [done| |]; simpl; by rewrite IH. Qed.
Lemma signalled_streams s sigs :
  pst_streams (ss_pack (signalled s sigs)) = pst_streams (ss_pack s) /\ pst_fc (ss_pack (signalled s sigs)) = pst_fc (ss_pack s).
Proof. revert s. induction sigs as [|[|] sigs IH]; intros s; [done| |]; simpl; rewrite !(proj1 (IH _)), !(proj2 (IH _)); done. Qed.

Lemma handleRstStreamFrame_safe e s f :
  env_ok e -> safe_ok s -> is_u32 (rsf_StreamID f) -> handled s (handleRstStreamFrame e s f).
Proof.
  intros He Hs Hf. unfold handleRstStreamFrame.
  pose proof (session_GetOrOpenStream_safe e s (rsf_StreamID f) He Hs Hf) as Hg.
  destruct (session_GetOrOpenStream e s (rsf_StreamID f)) as [s1 [[str|]|err|]]; destruct Hg as (Hs1 & E & Hr);
    try (split_and!; simpl; auto; done).
  destruct Hr as [Hin Hid]. pose proof (so_streams _ _ _ _ Hs1) as Hst.
  pose proof (RegisterRemoteError_safe str (Some (Errorf "RST_STREAM received with code %d" [rsf_ErrorCode f]))
    (sk_stream _ _ Hst _ _ Hin)) as Hreg.
  destruct (RegisterRemoteError _ _) as [str' sigs]. destruct Hreg as (Hs' & Hsigs & Hid').
  assert (streams_ok (putBack (pst_streams (ss_pack s1)) str') (pst_fc (ss_pack s1))) as Hput.
  { apply streams_ok_put; [done| |done]. rewrite Hid', Hid. by eexists. }
  set (s2 := signalled _ sigs).
  assert (safe_ok s2) as Hs2 by (apply safe_signalled; [by apply safe_streams|done]).
  destruct (signalled_streams (set_stream_state s1 str') sigs) as [E1 E2]. fold s2 in E1, E2. rewrite E1, E2. simpl.
  pose proof Hst as [_ _ (ids & Hfc & _ & Hd)].
  pose proof (ResetStream_safe ids (pst_fc (ss_pack s1)) (rsf_StreamID f) (rsf_ByteOffset f) Hfc
    ltac:(apply Hd; by eexists)) as Hreset.
  destruct (ResetStream _ _ _) as [fc r]. destruct Hreset as [Hfc' Hr].
  split_and!; simpl; [|by subst s2; rewrite signalled_rph|].
  - apply safe_streams; [done|]. by eapply streams_ok_fc.
  - destruct r as [u|err|]; [done| |done]. left. by destruct Hr as [-> | (msg & ->)].
Qed.

Lemma sending_ok_ack h g ack withPN rcvTime t1 t2 t3 t4 :
  sending_ok h g -> AckFrame_accepted ack ->
  let '(h', r) := ReceivedAck h ack withPN rcvTime t1 t2 t3 t4 in
  sending_ok h' g /\
  match r with Ok _ => True | Err e => peerError e = true \/ ignoredError e = true | Panic => False end.
Proof.
  intros [(sent & dq & acks & Hok & Hf) Hsw Hn Hsk] Hack.
  destruct (ReceivedAck h ack withPN rcvTime t1 t2 t3 t4) as [h' r] eqn:E.
  pose proof (ReceivedAck_outcome h ack withPN rcvTime t1 t2 t3 t4 ltac:(by destruct Hok) Hack) as Ho. rewrite E in Ho.
  assert (lastSentPacketNumber h' = lastSentPacketNumber h) as El.
  { destruct r as [u|e|]; [|by destruct Ho as [(_ & _ & ->)|[(_ & _ & ->)|(_ & _ & _ & ->)]]|done].
    by destruct Ho as (_ & _ & [(_ & ->)|(_ & [])]). }
  split.
  - constructor; [|by eapply ReceivedAck_sw|by rewrite El|done].
    exists sent, dq, (ack :: acks). split; [by eapply ReceivedAck_ok|done].
  - destruct r as [u|e|]; [done| |done]. by destruct Ho as [(_ & -> & _)|[(_ & -> & _)|(_ & _ & -> & _)]]; auto.
Qed.

(** The packet that is handled has been recorded. *)
Definition recorded (s : session) (pn : Z) : Prop :=
  exists R, handler_inv (ss_rph s) R /\ pn ∈ receivedPacketNumbers (ReceivedPackets.packetHistory (ss_rph s)).

Lemma stop_waiting_recorded s f pn :
  recorded s pn -> 0 <= swf_LeastUnacked f <= pn ->
  recorded (set_rph s (Handler_ReceivedStopWaiting (ss_rph s) f)) pn.
Proof.
  intros (R & Hr & Hpn) Hf. exists R. split; [by eapply handler_inv_stop|]. simpl.
  unfold Handler_ReceivedStopWaiting. case_if; [done|]. simpl.
  destruct (DeleteBelow_ok (ReceivedPackets.packetHistory (ss_rph s)) (swf_LeastUnacked f) (inv_history _ _ Hr))
    as (_ & _ & Hset). apply Hset. split; [done|lia].
Qed.

Lemma handleFrame_safe e s hdr level f :
  env_ok e -> safe_ok s -> recorded s (ph_PacketNumber hdr) -> frame_accepted hdr level f ->
  let '(s', r) := handleFrame e s f in
  safe_ok s' /\ recorded s' (ph_PacketNumber hdr) /\
  match r with Ok _ => True | Err e => peerError e = true \/ ignoredError e = true | Panic => False end.
Proof.
  intros He Hs Hrec Hf.
  assert (forall sr, handled s sr -> let '(s', r) := sr in safe_ok s' /\ recorded s' (ph_PacketNumber hdr) /\
    match r with Ok _ => True | Err e => peerError e = true \/ ignoredError e = true | Panic => False end) as Hh.
  { intros [s' r] (H1' & H2' & H3'). split_and!; [done| |done]. unfold recorded. simpl in H2'. by rewrite H2'. }
  destruct f as [f|f|f|f|f|f|f|f|f|f]; simpl in Hf; cbn [handleFrame].
  - apply Hh. eapply handleStreamFrame_safe; [done|done|apply Hf].
  - apply Hh. unfold handleAckFrame.
    pose proof (sending_ok_ack (ss_sph s) _ f (ss_lastRcvdPacketNumber s) (tg_lastNetworkActivityTime (ss_time s))
      (e_now e) (e_now e) (e_now e) (e_now e) (so_sending _ _ _ _ Hs) Hf) as Ha.
    destruct (ReceivedAck _ _ _ _ _ _ _ _) as [h r]. destruct Ha. split_and!; [by apply safe_sph|done|done].
  - split_and!; [|by apply stop_waiting_recorded|done].
    destruct (stop_waiting_recorded s f (ph_PacketNumber hdr) Hrec Hf) as (R & Hr & _). by eapply safe_rph.
  - apply Hh. eapply handleRstStreamFrame_safe; [done|done|apply Hf].
  - apply (Hh ((registerClose s _ true).1, Ok tt)). split_and!; [by apply safe_close| |done]. unfold registerClose. simpl. case_if; [done|]. by repeat case_decide.
  - by split_and!; [| |left].
  - apply Hh. eapply handleWindowUpdateFrame_safe; [done|done|apply Hf].
  - done.
  - done.
  - by case_if.
Qed.

Lemma handleFrames_safe e s hdr level fs :
  env_ok e -> safe_ok s -> recorded s (ph_PacketNumber hdr) -> Forall (frame_accepted hdr level) fs ->
  let '(s', r) := handleFrames e s fs in
  safe_ok s' /\ match r with Ok _ => True | Err e => peerError e = true | Panic => False end.
Proof.
  intros He Hs Hrec Hfs. revert s Hs Hrec. induction Hfs as [|f fs Hf _ IH]; intros s Hs Hrec; [done|]. simpl.
  pose proof (handleFrame_safe e s hdr level f He Hs Hrec Hf) as Hone.
  destruct (handleFrame e s f) as [s1 [u|err|]]; destruct Hone as (Hs1 & Hrec1 & Hr); [by apply IH| |done].
  case_if; [by apply IH|]. by destruct Hr.
Qed.

Lemma maybeResetTimer_time (e : env (C := C) (A := A)) s s' : maybeResetTimer e s = Ok s' -> exists t, s' = set_time s t.
Proof.
  unfold maybeResetTimer. case_if; [intros [= <-]; exists (ss_time s); by destruct s|].
  destruct (resetTimer _ _ _); [|done|done]. intros [= <-]. by eexists.
Qed.

Lemma handleUnpacked_safe e s p packet :
  let pn := ph_PacketNumber (rp_publicHeader p) in
  env_ok e -> loop_ok s -> safe_ok s -> packet_ok p -> 0 <= pn < 2 ^ 48 ->
  Forall (frame_accepted (rp_publicHeader p) (up_encryptionLevel packet)) (up_frames packet) ->
  let '(s', r) := handleUnpacked e s p packet in
  safe_ok s' /\ match r with Ok _ => True | Err e => peerError e = true | Panic => False end.
Proof.
  cbv zeta. intros He Hloop Hs Hp Hpn Hfs. unfold handleUnpacked. set (pn := ph_PacketNumber _) in *.
  set (s1 := set_rcvd s pn _). assert (safe_ok s1) as Hs1 by exact Hs.
  assert (loop_ok s1) as Hloop1 by (by apply (loop_ok_same s)). clearbody s1.
  destruct (so_received _ _ _ _ Hs1) as [R HR].
  set (instigate := unpackedPacket_IsRetransmittable packet).
  pose proof (Handler_ReceivedPacket_result (ss_rph s1) R (e_now e) pn instigate HR Hpn) as Hresult.
  destruct (Handler_ReceivedPacket (ss_rph s1) (e_now e) pn instigate) as [[h alarm] r] eqn:Er.
  destruct r as [[]|err|]; [| |done].
  - pose proof (handler_inv_packet _ _ _ _ _ _ _ HR (eo_now _ He) Hpn Er) as HR'.
    set (s2 := set_rph s1 h). assert (safe_ok s2) as Hs2 by (by eapply safe_rph).
    assert (exists s3, match alarm with Some t => ackAlarmChanged e s2 t | None => Ok s2 end = Ok s3 /\
      safe_ok s3 /\ ss_rph s3 = h) as (s3 & -> & Hs3 & Eh).
    { destruct alarm as [t|]; [|by exists s2]. unfold ackAlarmChanged.
      destruct (maybeResetTimer_ok e (set_time s2 (set_nextAck (ss_time s2) t))) as (s3 & E3 & _);
        [by apply (loop_ok_same s1)|]. exists s3. apply maybeResetTimer_time in E3 as E4. destruct E4 as [t' ->].
      split_and!; [done|exact Hs2|done]. }
    set (s4 := match rp_feedbackData p with Some _ => _ | None => _ end).
    assert (safe_ok s4 /\ ss_rph s4 = h) as [Hs4 Eh4].
    { subst s4. destruct (rp_feedbackData p) as [d|] eqn:Ed; [|done]. case_if; [|done].
      split; [|done]. apply safe_schedule, safe_control; [done|]. by eapply pa_feedback. }
    apply (handleFrames_safe e s4 (rp_publicHeader p) (up_encryptionLevel packet)); [done|done| |done].
    exists ({[pn]} ∪ R). rewrite Eh4. by split.
  - destruct (Handler_ReceivedPacket_rejected _ _ _ _ _ _ _ _ HR Hpn Er) as [-> ->].
    assert (safe_ok (set_rph s1 (ss_rph s1))) as Hs2 by (by eapply safe_rph).
    destruct (bool_decide _ || bool_decide _) eqn:Eb; [done|]. split; [done|].
    apply orb_false_iff in Eb as [E1%bool_decide_eq_false E2%bool_decide_eq_false].
    repeat (apply elem_of_cons in Hresult as [-> | Hresult]; [done|]). by apply elem_of_nil in Hresult.
Qed.

Lemma InferPacketNumber_u64 l last pn : is_u64 (InferPacketNumber l last pn).
Proof.
  unfold InferPacketNumber. unfold closestTo at 1. case_if; [apply u64_range|].
  unfold closestTo. case_if; apply u64_range.
Qed.

(** The goroutine of a client's crypto setup does not come to receive the diversification nonce
    of this packet. *)
Definition nonce_stuck (e : env (C := C) (A := A)) (s : session) (p : receivedPacket) : bool :=
  is_client (ss_perspective s) && (len (ph_DiversificationNonce (rp_publicHeader p)) >? 0) && negb (e_receives e).

(** A packet from the network: the session stays in order, and there is no panic; an error is
    that of unpacking, or one that the peer has caused. *)
Lemma handlePacketImpl_safe e s p :
  let pn := InferPacketNumber (ph_PacketNumberLen (rp_publicHeader p)) (ss_largestRcvdPacketNumber s)
              (ph_PacketNumber (rp_publicHeader p)) in
  env_ok e -> loop_ok s -> safe_ok s -> packet_ok p -> pn < 2 ^ 48 -> nonce_stuck e s p = false ->
  let '(s', p', r) := handlePacketImpl e s p in
  safe_ok s' /\ packet_ok p' /\
  match r with
  | Ok _ => True
  | Err err => peerError err = true \/
      @Unpack {| Open := CryptoOpen (e_crypto e) |} (ph_Raw (rp_publicHeader p)) (rp_publicHeader p') (rp_data p) = Err err
  | Panic => False
  end.
Proof.
  cbv zeta. intros He Hloop Hs Hp Hpn Hnonce. unfold handlePacketImpl. cbv zeta.
  change (_ && negb (e_receives e)) with (nonce_stuck e s p). rewrite Hnonce.
  set (p' := inferInPlace e s p). pose proof (InferPacketNumber_u64 (ph_PacketNumberLen (rp_publicHeader p))
    (ss_largestRcvdPacketNumber s) (ph_PacketNumber (rp_publicHeader p))) as Hu.
  assert (packet_ok p') as Hp'.
  { destruct Hp as [P1 P2 P3 P4]. constructor; [done|exact Hu|done|done]. }
  set (s1 := set_time _ _). assert (safe_ok s1) as Hs1 by (subst s1; by case_if).
  assert (loop_ok s1) as Hloop1 by (subst s1; case_if; by apply (loop_ok_same s)).
  pose proof (Unpack_accepted (quicAEADLaws0 := eo_open _ He) (ph_Raw (rp_publicHeader p)) (rp_publicHeader p') (rp_data p)
    (pa_data _ Hp) Hu (pa_len _ Hp)) as Hun.
  change (ph_Raw (rp_publicHeader p')) with (ph_Raw (rp_publicHeader p)). change (rp_data p') with (rp_data p).
  destruct (Unpack _ _ _) as [packet|err|] eqn:Eun; [| |done].
  - set (s2 := if is_server _ then _ else _). assert (safe_ok s2) as Hs2 by (subst s2; by case_if).
    assert (loop_ok s2) as Hloop2 by (subst s2; case_if; by apply (loop_ok_same s1)).
    pose proof (handleUnpacked_safe e s2 p' packet He Hloop2 Hs2 Hp' (conj (proj1 Hu) Hpn) Hun) as Hh.
    destruct (handleUnpacked e s2 p' packet) as [s3 r]. destruct Hh as [Hs3 Hr]. split_and!; [done|done|].
    destruct r; auto.
  - case_if.
    + split; [done|]. split; [done|]. right. exact Eun.
    + split; [by case_if|]. split; [done|]. right. exact Eun.
Qed.

(** ** Events *)

Lemma collect_ok ids m fc :
  streams_ok m fc ->
  let '(m', fc') := (iterateOver ids (m, fc) collectStream).1 in streams_ok m' fc'.
Proof.
  revert m fc. induction ids as [|id ids IH]; intros m fc Hok; [done|]. simpl. unfold iterateFunc. simpl.
  destruct (sm_streams m !! id) as [str|] eqn:E; [|done]. unfold collectStream. simpl.
  rewrite (ok_id _ _ (sk_map _ _ Hok) _ _ E). case_if; [|by apply IH].
  destruct (RemoveStream_spec s_streamID m id (sk_map _ _ Hok) ltac:(by eexists))
    as (m1 & l1 & l2 & -> & Hm1 & Es & _). apply IH.
  destruct Hok as [_ Hst (ids0 & Hf & Hu & Hd)]. constructor; [done| |].
  - intros x str'. rewrite Es. intros [_ Hx]%lookup_delete_Some. by eapply Hst.
  - exists (ids0 ∖ {[id]}). split_and!; [by apply fcm_safe_remove|set_solver|].
    intros x. rewrite Es, lookup_delete_is_Some. intros [Hne Hx]. specialize (Hd x Hx). set_solver.
Qed.

Lemma garbageCollectStreams_safe s : safe_ok s -> safe_ok (garbageCollectStreams s).
Proof.
  intros Hs. unfold garbageCollectStreams, Iterate.
  pose proof (collect_ok (sm_openStreams (pst_streams (ss_pack s))) _ _ (so_streams _ _ _ _ Hs)) as Hc.
  destruct (iterateOver _ _ _) as [[m fc] err]. by apply safe_streams.
Qed.

Lemma safe_ch s ch :
  safe_ok s -> Forall packet_ok (ch_receivedPackets ch ++ ch_undecryptablePackets ch) -> safe_ok (set_ch s ch).
Proof. intros [? ? ? ? ? ? ?] Hp. by constructor. Qed.

Lemma handlePacket_safe s p : safe_ok s -> packet_ok p -> safe_ok (handlePacket s p).
Proof.
  intros Hs Hp. unfold handlePacket. case_if; [|done]. apply safe_ch; [done|]. simpl.
  pose proof (so_packets _ _ _ _ Hs) as [H1' H2']%Forall_app.
  apply Forall_app. split; [|done]. apply Forall_app. by split; [|apply Forall_singleton].
Qed.

Lemma tryDecryptingQueuedPackets_safe s : safe_ok s -> safe_ok (tryDecryptingQueuedPackets s).
Proof.
  intros Hs. unfold tryDecryptingQueuedPackets. pose proof (so_packets _ _ _ _ Hs) as [_ Hps]%Forall_app.
  assert (forall s', safe_ok s' -> safe_ok (set_undecryptable s' [])) as Hclear.
  { intros s' Hs'. apply safe_ch; [done|]. simpl. rewrite app_nil_r.
    by pose proof (so_packets _ _ _ _ Hs') as [? _]%Forall_app. }
  apply Hclear. revert Hs Hps. generalize (ch_undecryptablePackets (ss_ch s)) as ps. intros ps Hs Hps.
  revert s Hs. induction Hps as [|p ps Hp _ IH]; intros s Hs; [done|]. simpl. apply IH. by apply handlePacket_safe.
Qed.

(** The packet numbers of the wire are below 2^48, and so is the one that is inferred. *)
Definition number_fits (s : session) : Prop :=
  match ch_receivedPackets (ss_ch s) with
  | [] => True
  | p :: _ => InferPacketNumber (ph_PacketNumberLen (rp_publicHeader p)) (ss_largestRcvdPacketNumber s)
                (ph_PacketNumber (rp_publicHeader p)) < 2 ^ 48
  end.

Lemma maybeResetTimer_safe (e : env (C := C) (A := A)) s :
  loop_ok s -> safe_ok s -> exists s', maybeResetTimer e s = Ok s' /\ safe_ok s'.
Proof.
  intros Hl Hs. destruct (maybeResetTimer_ok e s Hl) as (s' & E & _). exists s'. split; [done|].
  apply maybeResetTimer_time in E as [t ->]. exact Hs.
Qed.

(** The event is a packet whose nonce nobody receives. *)
Definition event_stuck (e : env (C := C) (A := A)) (s : session) (ev : event) : bool :=
  match ev, ch_receivedPackets (ss_ch s) with
  | PacketReceived, p :: _ => nonce_stuck e s p
  | _, _ => false
  end.

(** The channels of the handshake have room. *)
Record hs_ok (s : session) : Prop := {
  ho_perspective : ss_perspective s = pers;
  ho_levels : (hc_levelsRead (ss_hs s) <= 2)%nat;
  ho_events : (length (hc_handshakeChan (ss_hs s)) <= hc_levelsRead (ss_hs s))%nat;
  ho_errors : hc_handshakeCompleteChan (ss_hs s) = [];
  ho_closed : hc_closed (ss_hs s) = tg_handshakeComplete (ss_time s);
}.

Lemma hs_ok_outer s s' : outer s' = outer s -> hs_ok s -> hs_ok s'.
Proof.
  unfold outer. intros E [H1' H2' H3' H4' H5']. injection E as E1 E2 E3. constructor; rewrite ?E1, ?E2, ?E3; done.
Qed.

Lemma handleEvent_hs e s ev s' b :
  env_ok e -> hs_ok s -> handleEvent e s ev = Some (Ok (s', b)) -> hs_ok s'.
Proof.
  intros He Hs E. destruct (decide (ev = AeadChanged)) as [-> | Hev].
  2: { eapply hs_ok_outer; [|exact Hs]. by eapply handleEvent_outer. }
  destruct Hs as [H1' H2' H3' H4' H5']. unfold handleEvent in E.
  destruct (tg_handshakeComplete (ss_time s)) eqn:Hc; [done|]. destruct (e_levels e !! _) as [level|] eqn:El.
  - apply lookup_lt_Some in El. pose proof (eo_levels _ He). unfold len in *. unfold handleLevel, sendHandshakeEvent in E.
    set (s1 := tryDecryptingQueuedPackets _) in E.
    assert (outer s1 = (ss_perspective s, mkHandshakeChans (S (hc_levelsRead (ss_hs s))) (hc_handshakeChan (ss_hs s))
      (hc_handshakeCompleteChan (ss_hs s)) (hc_closed (ss_hs s)), false)) as Eo.
    { subst s1. rewrite tryDecrypting_outer. unfold outer. rewrite <- Hc. by case_if. }
    unfold outer in Eo. injection Eo as E1 E2 E3. destruct (_ || _); cbn [rbind] in E; [done|]. injection E as <- _.
    constructor; cbn [set_hs ss_perspective ss_hs ss_time hc_levelsRead hc_handshakeChan hc_handshakeCompleteChan hc_closed];
      rewrite ?E1, ?E2, ?E3; simpl; try done; try congruence; [lia|]. rewrite length_app. simpl. lia.
  - case_if; [|done]. unfold handleComplete in E. case_if; cbn [rbind] in E; [done|]. injection E as <- _. by constructor.
Qed.

Lemma handleLevel_safe e s level :
  env_ok e -> safe_ok s -> hs_ok s -> tg_handshakeComplete (ss_time s) = false ->
  e_levels e !! hc_levelsRead (ss_hs s) = Some level -> exists s', handleLevel s level = Ok s' /\ safe_ok s'.
Proof.
  intros He Hs [_ _ Hev _ Hcl] Hc El%lookup_lt_Some. pose proof (eo_levels _ He). unfold handleLevel, sendHandshakeEvent.
  set (s1 := tryDecryptingQueuedPackets _). assert (safe_ok s1) as Hs1.
  { subst s1. apply tryDecryptingQueuedPackets_safe. case_if; [|done]. destruct Hs. by constructor. }
  assert (ss_hs s1 = mkHandshakeChans (S (hc_levelsRead (ss_hs s))) (hc_handshakeChan (ss_hs s))
    (hc_handshakeCompleteChan (ss_hs s)) (hc_closed (ss_hs s))) as ->.
  { subst s1. etrans; [exact (f_equal (fun o => o.1.2) (tryDecrypting_outer _))|]. by case_if. }
  cbn [hc_closed hc_handshakeChan]. rewrite Hcl, Hc. unfold len, handshakeChanCap in *.
  rewrite Z.geb_leb, (proj2 (Z.leb_gt _ _)) by lia. cbn [orb]. by eexists.
Qed.

Lemma handleEvent_safe e s ev :
  env_ok e -> loop_ok s -> safe_ok s -> hs_ok s -> number_fits s -> event_stuck e s ev = false ->
  match handleEvent e s ev with
  | None => True
  | Some r => exists s' b, r = Ok (s', b) /\ safe_ok s'
  end.
Proof.
  intros He Hl Hs Hhs Hn Hst. unfold handleEvent. destruct ev.
  - case_if; [|done]. by eexists _, _.
  - case_if; [|done]. eexists _, _. split; [done|]. apply safe_ch; [done|apply Hs].
  - unfold number_fits in Hn. unfold event_stuck in Hst. pose proof (so_packets _ _ _ _ Hs) as Hps.
    destruct (ch_receivedPackets (ss_ch s)) as [|p ps]; [done|]. inversion_clear Hps as [|? ? Hp Hps'].
    set (s1 := set_ch s _). assert (safe_ok s1) as Hs1 by (by apply safe_ch).
    assert (loop_ok s1) as Hl1 by (by apply (loop_ok_same s)).
    pose proof (handlePacketImpl_safe e s1 p He Hl1 Hs1 Hp Hn Hst) as Hh. pose proof (handlePacketImpl_loop e s1 p Hl1) as Hl2.
    destruct (handlePacketImpl e s1 p) as [[s2 p'] r]. destruct Hh as (Hs2 & Hp' & Hr). simpl in Hl2.
    destruct r as [u|err|]; [by eexists _, _| |done].
    case_if; [|eexists _, _; split; [done|by apply safe_close]].
    unfold tryQueueingUndecryptablePacket. repeat case_if; cbn [rbind].
    + by eexists _, _.
    + destruct (maybeResetTimer_safe e (set_time s2 (set_tooMany (ss_time s2) (e_now e)))) as (s3 & -> & Hs3);
        [by apply (loop_ok_same s2)|exact Hs2|]. by eexists _, _.
    + by eexists _, _.
    + eexists _, _. split; [done|]. apply safe_ch; [done|]. simpl.
      rewrite app_assoc. apply Forall_app. split; [apply Hs2|by apply Forall_singleton].
  - destruct (tg_handshakeComplete (ss_time s)) eqn:Hc; [done|]. destruct (e_levels e !! _) as [level|] eqn:El.
    + destruct (handleLevel_safe e s level He Hs Hhs Hc El) as (s' & -> & Hs'). by eexists _, _.
    + case_if; [|done]. unfold handleComplete. rewrite (ho_closed _ Hhs), Hc. by eexists _, _.
Qed.
End safety.
