(* ===== verification/SessionSend.v ===== *)
(** * The session as a whole: sending

    The second half of an iteration of the run loop: [sendPacket] ends after a bounded number
    of rounds, and neither it nor anything else in an iteration panics. *)

From S2P Require Import Prelude Protocol Qerr Wire Frames AckFrame Frame ReceivedPackets PublicHeader PacketUnpacker.
From S2P Require Import StreamFrameSorter Handshake FlowControl RTTStats SendAlgorithm SentPackets.
From S2P Require Import PacketNumberGenerator StreamsMap Stream StreamFramer PacketPacker Session SessionSafety.

Section sending.
Context {C A : Type} `{CryptoSetup C} {ok : A -> Prop} `{ConnectionParametersLaws A ok}.
Context `{SA : SendAlgorithm, Laws : !SendAlgorithmLaws SA}.
Context (pers : Perspective).

#[local] Abbreviation env_ok := (env_ok (ok := ok) pers).
#[local] Abbreviation safe_ok := (safe_ok pers).
#[local] Abbreviation hs_ok := (hs_ok pers).

Definition generator (s : session) : packetNumberGenerator := pk_packetNumberGenerator (pst_packer (ss_pack s)).

(** The number of packets that are tracked *)
Definition tracked (h : sentPacketHandler) : Z := len (retransmissionQueue h) + len (SentPackets.packetHistory h).

(** A session that can send.  Packets that are sent are added to the history, so that
    [K] does not change while packets are sent. *)
Record ready (K : Z) (s : session) : Prop := {
  rd_safe : safe_ok s;
  rd_few : len (sm_openStreams (pst_streams (ss_pack s))) <= 2 ^ 31;
  rd_number : Peek (generator s) = K + len (SentPackets.packetHistory (ss_sph s));
  rd_bound : K + MaxTrackedSentPackets < 2 ^ 46;
}.

Lemma tracked_bound K s : ready K s -> 0 <= tracked (ss_sph s) <= MaxTrackedSentPackets.
Proof.
  intros [Hs _ _ _]. destruct (so_sending _ _ _ _ _ Hs) as [(sent & dq & acks & Hok & _) _ _ _].
  pose proof (sok_tracked _ _ _ _ Hok). unfold tracked.
  pose proof (len_nonneg (retransmissionQueue (ss_sph s))). pose proof (len_nonneg (SentPackets.packetHistory (ss_sph s))). lia.
Qed.

Lemma ready_number K s : ready K s -> 0 < Peek (generator s) < 2 ^ 46.
Proof.
  intros Hr. pose proof (tracked_bound _ _ Hr) as Ht. unfold tracked in Ht.
  destruct Hr as [Hs _ Hn Hb]. destruct (so_sending _ _ _ _ _ Hs) as [(sent & dq & acks & Hok & _) _ Hx _].
  pose proof (sok_last _ _ _ _ Hok). unfold generator in *. rewrite Hx in *.
  pose proof (len_nonneg (retransmissionQueue (ss_sph s))). lia.
Qed.

Lemma ready_header e K s level sealFunc leastUnacked :
  env_ok e -> ready K s ->
  GetSealer (e_crypto e) = (level, sealFunc) \/ GetSealerWithEncryptionLevel (e_crypto e) level = Ok sealFunc ->
  0 <= leastUnacked <= Peek (generator s) ->
  header_params (pst_packer (ss_pack s)) (e_crypto e) (e_cp e) level leastUnacked.
Proof.
  intros He Hr Hseal Hl. pose proof (ready_number _ _ Hr) as Hn. destruct (so_packer _ _ _ _ _ (rd_safe _ _ Hr)) as (Hid & Hv & Hp).
  unfold generator in *. constructor; try done; try lia.
  - intros Ht. rewrite Hp. by apply (eo_truncate _ _ He).
  - intros Hserver ->. eapply (eo_nonce _ _ He); [by rewrite <- Hp|exact Hseal].
Qed.

(** A session whose packer, framer, streams or flow control have changed *)
Lemma ready_pack K s st :
  ready K s -> streams_ok (pst_streams st) (pst_fc st) -> framer_ok (pst_framer st) ->
  Forall queueable (pk_controlFrames (pst_packer st)) ->
  pst_packer st = pk_set_control (pst_packer (ss_pack s)) (pk_controlFrames (pst_packer st)) ->
  sm_openStreams (pst_streams st) = sm_openStreams (pst_streams (ss_pack s)) -> ready K (set_pack s st).
Proof.
  intros [Hs Hf Hn Hb] H1' H2' H3' Ep Eo. destruct Hs as [? ? ? ? ? ? ?].
  constructor; [|simpl; by rewrite Eo| |done].
  - constructor; try done; simpl; rewrite Ep; done.
  - unfold generator in *. simpl. rewrite Ep. exact Hn.
Qed.

(** A session whose handler of sent packets has changed, without sending *)
Lemma ready_sph K s h :
  ready K s -> sending_ok h (generator s) ->
  len (SentPackets.packetHistory h) = len (SentPackets.packetHistory (ss_sph s)) -> ready K (set_sph s h).
Proof.
  intros [Hs Hf Hn Hb] Hh Eh. constructor; try done; [by apply safe_sph|]. simpl. rewrite Eh. exact Hn.
Qed.

(** ** Sending one packet *)

Lemma SentPacket_sending h g g' packet now :
  sending_ok h g -> tracked h < MaxTrackedSentPackets -> p_PacketNumber packet = Peek g -> Peek g < 2 ^ 62 ->
  0 < p_Length packet <= MaxPacketSize -> Forall sent_frame_ok (p_Frames packet) ->
  Peek g' = Peek g + 1 -> png_nextToSkip g' = 0 ->
  exists h', SentPacket h packet now now = (h', Ok tt) /\ sending_ok h' g' /\
    len (SentPackets.packetHistory h') = len (SentPackets.packetHistory h) + 1 /\
    retransmissionQueue h' = retransmissionQueue h.
Proof.
  intros [(sent & dq & acks & Hok & Hf) Hsw Hn Hsk] Ht Epn Hmax Hlen Hfs En Es.
  assert (exists h', SentPacket h packet now now = (h', Ok tt) /\
    len (SentPackets.packetHistory h') = len (SentPackets.packetHistory h) + 1 /\
    retransmissionQueue h' = retransmissionQueue h) as (h' & E & Eh & Eq).
  { unfold SentPacket. unfold tracked, MaxTrackedSentPackets, DefaultMaxCongestionWindow in *.
    pose proof (len_nonneg (retransmissionQueue h)). pose proof (len_nonneg (SentPackets.packetHistory h)).
    rewrite (proj2 (Z.leb_gt _ _)) by lia. rewrite u64_small by (unfold_width; lia).
    rewrite Z.gtb_ltb, (proj2 (Z.ltb_ge _ _)) by lia. cbn [p_Length].
    rewrite (proj2 (Z.eqb_neq _ 0)) by lia. destruct (OnPacketSent _ _ _ _ _ _) as [c b].
    match goal with |- context [updateLossDetectionAlarm ?x now] =>
      destruct (updateLossDetectionAlarm_spec x now) as [al ->] end.
    eexists. split; [reflexivity|]. split; [cbn; by rewrite len_app|done]. }
  exists h'. split_and!; try done. pose proof (sok_last _ _ _ _ Hok).
  assert (p_PacketNumber packet = lastSentPacketNumber h + 1) as Enext by lia.
  destruct (sw_ok_sent _ _ _ _ _ Hsw Enext E) as [Hsw' El]. constructor; [|done|rewrite El; lia|done].
  eexists _, dq, acks. split; [apply (SentPacket_ok h sent dq acks packet now now h' (Ok tt)); [done|lia|done|exact E]|]. cbn.
  apply Forall_app. split; [done|]. by apply Forall_singleton.
Qed.

(** The generator after the next packet number *)
Lemma Pop_next h g rand :
  sending_ok h g -> Peek g < 2 ^ 62 ->
  Peek (PNG_Pop g rand).1 = Peek g + 1 /\ png_nextToSkip (PNG_Pop g rand).1 = 0.
Proof.
  intros [(sent & dq & acks & Hok & _) _ Hn Hs] Hmax. pose proof (sok_last _ _ _ _ Hok). unfold Peek in *.
  by rewrite pop_no_skip by (done || lia).
Qed.

Definition pop_number (s : session) (rand : res (Z * Z)) : session :=
  let p := pst_packer (ss_pack s) in
  set_pack s (pst_set_packer (ss_pack s) (pk_set_generator p (PNG_Pop (pk_packetNumberGenerator p) rand).1)).

Lemma sendPackedPacket_ready e K s rand raw fs level :
  env_ok e -> ready K s -> tracked (ss_sph s) < MaxTrackedSentPackets ->
  Forall sent_frame_ok fs -> 0 < len raw <= MaxPacketSize ->
  exists s', sendPackedPacket e (pop_number s rand) (mkPackedPacket (Peek (generator s)) raw fs level) = (s', e_write e) /\
    ready K s' /\ retransmissionQueue (ss_sph s') = retransmissionQueue (ss_sph s) /\
    len (SentPackets.packetHistory (ss_sph s')) = len (SentPackets.packetHistory (ss_sph s)) + 1.
Proof.
  intros He Hr Ht Hfs Hraw. pose proof (ready_number _ _ Hr) as Hpn. destruct Hr as [Hs Hf Hn Hb].
  pose proof (so_sending _ _ _ _ _ Hs) as Hsend. fold (generator s) in Hsend.
  destruct (Pop_next _ _ rand Hsend ltac:(lia)) as [Hg Hsk].
  unfold sendPackedPacket. simpl pkt_number.
  destruct (SentPacket_sending (ss_sph s) (generator s) (PNG_Pop (generator s) rand).1
    (mkPacket (Peek (generator s)) fs (len raw) level 0) (e_now e)) as (h' & E & Hh' & Eh & Eq); try done; [lia|].
  cbn [pkt_frames pkt_raw pkt_encryptionLevel]. change (ss_sph (pop_number s rand)) with (ss_sph s). rewrite E.
  eexists. split; [reflexivity|]. split_and!; [|done|done]. destruct Hs.
  constructor; [by constructor|done|simpl; unfold generator in *; simpl; lia|done].
Qed.

(** ** Packing *)

Lemma popped_safe app str str' fs :
  app_ok app -> popped app str str' fs -> stream_safe str -> sendable str' -> stream_safe str'.
Proof.
  intros Happ Hp [Hse0 Hg] Hse. constructor; [done|]. assert (s_frameQueue str' = s_frameQueue str) as ->; [|exact Hg].
  destruct (Happ str) as (Hturn & _). destruct (applied_fields _ _ Hturn) as (_ & _ & E1 & Hse1 & _).
  destruct Hp as [[(_ & _ & E & _)%applied_fields _]|(n & f & Hn & E & _)]; [done|].
  apply (takeFrame_spec app Happ) in E as (_ & _ & E2 & _); [congruence|by apply Hse1|done].
Qed.

Lemma ready_pack_ok K s :
  ready K s ->
  exists ids, fcm_safe ids (pst_fc (ss_pack s)) /\ pack_ok (sends_ok := fcm_safe ids) queueable (ss_pack s).
Proof.
  intros Hr. pose proof (rd_safe _ _ Hr) as Hs. pose proof (so_streams _ _ _ _ _ Hs) as [Hm Hst (ids & Hf & _)].
  exists ids. split; [done|]. constructor; [apply Hs|apply Hs| |apply Hr|done].
  constructor; [done|]. intros id str Hid. by apply (Hst id).
Qed.

(** The packer takes frames from the queues and from the streams. *)
Lemma composed_ready app K ids s control st1 swf maxSize fs :
  let p := pst_packer (ss_pack s) in
  app_ok app -> ready K s -> Forall queueable control -> fcm_safe ids (pst_fc (ss_pack s)) ->
  composed (sends_ok := fcm_safe ids) app
    (pst_set_packer (ss_pack s) (pk_set_control p (pk_controlFrames p ++ control))) st1 swf maxSize fs ->
  pack_ok (sends_ok := fcm_safe ids) queueable st1 -> ready K (set_pack s st1).
Proof.
  cbv zeta. intros Happ Hr Hc Hfc [(taken & rest & blocked & sfs & framer & _ & Econtrol & _ & Ep & Ef & Hpop & _) _ _] Hst1.
  simpl in *. pose proof (rd_safe _ _ Hr) as Hs. pose proof (so_streams _ _ _ _ _ Hs) as Hok.
  destruct Hpop as [[[Hm' Hse] Eo] Hfc' [Hq Hb] _ _ (again & new & _ & _ & Hpp)].
  apply ready_pack; [done| | | |by rewrite Ep|done].
  - pose proof Hok as [Hm Hst (ids' & Hf & Hu & Hd)].
    assert (ids' = ids) as -> by (rewrite <- (fs_dom _ _ Hf); apply (fs_dom _ _ Hfc)).
    assert (forall id, is_Some (sm_streams (pst_streams st1) !! id) -> is_Some (sm_streams (pst_streams (ss_pack s)) !! id)) as Hin.
    { intros id Hid. apply (ok_open _ _ Hm). rewrite <- Eo. by apply (ok_open _ _ Hm'). }
    constructor; [done| |exists ids; split_and!; auto].
    intros id str' Hid. destruct (Hin id ltac:(by eexists)) as [str Hstr].
    destruct (Hpp id str Hstr) as (str'' & E & Hp). rewrite Hid in E. injection E as <-.
    eapply popped_safe; [exact Happ|exact Hp|by apply (Hst id)|by apply (Hse id)].
  - rewrite Ef. by constructor.
  - apply Hst1.
Qed.

(** What packing a packet and sending it leaves *)
Definition sent_ready (K : Z) (s : session) (sr : session * res bool) : Prop :=
  ready K sr.1 /\ retransmissionQueue (ss_sph sr.1) = retransmissionQueue (ss_sph s) /\
  match sr.2 with
  | Ok true => len (SentPackets.packetHistory (ss_sph sr.1)) = len (SentPackets.packetHistory (ss_sph s)) + 1
  | Ok false | Err _ => True
  | Panic => False
  end.


Lemma queueControlFrames_eq fs s :
  fold_left queueControlFrame fs s =
  set_pack s (pst_set_packer (ss_pack s)
    (pk_set_control (pst_packer (ss_pack s)) (pk_controlFrames (pst_packer (ss_pack s)) ++ fs))).
Proof.
  revert s. induction fs as [|f fs IH]; intros s; simpl.
  - rewrite app_nil_r. destruct s as [? ? ? [[? ? ? ? ? ?] ? ? ?] ? ? ? ? ? ? ? ?]. done.
  - rewrite IH. simpl. by rewrite <- app_assoc.
Qed.

Lemma ready_control K s fs :
  ready K s -> Forall queueable fs -> ready K (fold_left queueControlFrame fs s).
Proof.
  intros Hr Hfs. rewrite queueControlFrames_eq. pose proof (rd_safe _ _ Hr) as Hs.
  apply ready_pack; try done; [apply Hs..|]. simpl. apply Forall_app. by split; [apply Hs|].
Qed.

Definition window_updates_ok (us : list WindowUpdateFrame) : Prop :=
  Forall (fun u => is_u32 (wuf_StreamID u) /\ is_u64 (wuf_ByteOffset u)) us.

Lemma window_updates_control us : window_updates_ok us -> Forall queueable (map FWindowUpdate us).
Proof. intros Hus. apply Forall_map. eapply Forall_impl; [exact Hus|]. by intros u Hu. Qed.


(** A STOP_WAITING frame is between the least unacked packet and the next packet. *)
Lemma stop_waiting_sending h g force :
  sending_ok h g ->
  let '(h', swf) := GetStopWaitingFrame h force in
  sending_ok h' g /\ SentPackets.packetHistory h' = SentPackets.packetHistory h /\
  retransmissionQueue h' = retransmissionQueue h /\
  (forall f, swf = Some f -> GetLeastUnacked h' <= swf_LeastUnacked f <= Peek g) /\
  (force = true -> 0 < nextLeastUnacked (sph_stopWaitingManager h) -> swf <> None).
Proof.
  intros [(sent & dq & acks & Hok & Hf) Hsw Hn Hsk]. pose proof (GetStopWaitingFrame_sw h force Hsw) as Hg.
  destruct (GetStopWaitingFrame h force) as [h' swf] eqn:E. destruct Hg as (Hsw' & Eh & El & En & Hs & Hforce).
  pose proof (GetStopWaitingFrame_ok _ _ _ _ _ _ _ Hok E) as Hok'.
  assert (retransmissionQueue h' = retransmissionQueue h) as Eq.
  { unfold GetStopWaitingFrame in E. destruct (swm_GetStopWaitingFrame _ _). by injection E as <- _. }
  split_and!; try done.
  - constructor; [by exists sent, dq, acks|done|by rewrite El|done].
  - intros f Hf'. destruct (Hs f Hf') as [Ef Hpos]. rewrite Ef, <- En in Hpos.
    destruct (sw_leastUnacked _ _ _ _ Hok' Hsw' Hpos) as [_ Hb]. rewrite Hn, <- El. lia.
Qed.

Lemma sending_leastUnacked h g : sending_ok h g -> 0 <= GetLeastUnacked h <= Peek g.
Proof. intros [(sent & dq & acks & Hok & _) _ -> _]. pose proof (GetLeastUnacked_range _ _ _ _ Hok). lia. Qed.

Lemma packed_ready e K ids s control swf maxSize fs st1 st' level r wufs :
  let p := pst_packer (ss_pack s) in
  env_ok e -> ready K s -> tracked (ss_sph s) < MaxTrackedSentPackets -> window_updates_ok wufs ->
  Forall queueable control -> fcm_safe ids (pst_fc (ss_pack s)) ->
  composed (sends_ok := fcm_safe ids) (e_app e)
    (pst_set_packer (ss_pack s) (pk_set_control p (pk_controlFrames p ++ control))) st1 swf maxSize fs ->
  pack_ok (sends_ok := fcm_safe ids) queueable st1 -> Forall sent_frame_ok fs ->
  packed_safe st1 st' level fs (e_rand e) r ->
  sent_ready K s
    match r with
    | Ok None => (set_pack s st', Ok false)
    | Ok (Some packet) =>
        match sendPackedPacket e (fold_left queueControlFrame (map FWindowUpdate wufs) (set_pack s st')) packet with
        | (s, Ok _) => (set_time s (set_nextAck (ss_time s) 0), Ok true)
        | (s, Err err) => (s, Err err)
        | (s, Panic) => (s, Panic)
        end
    | Err err => (set_pack s st', Err err)
    | Panic => (set_pack s st', Panic)
    end.
Proof.
  cbv zeta. intros He Hr Ht Hwu Hc Hfc Hcomp Hst1 Hfs Hsafe.
  pose proof (composed_ready _ _ _ _ _ _ _ _ _ (eo_app _ _ He) Hr Hc Hfc Hcomp Hst1) as Hr1.
  destruct Hsafe as [(-> & [-> | [-> | [-> | ->]]])|(-> & raw & -> & Hraw)]; try (split_and!; done).
  set (s1 := set_pack s st1) in *. set (rand := e_rand e).
  pose proof (ready_control _ _ _ Hr1 (window_updates_control _ Hwu)) as Hr2.
  set (s2 := fold_left queueControlFrame (map FWindowUpdate wufs) s1) in *.
  assert (fold_left queueControlFrame (map FWindowUpdate wufs) (set_pack s (pst_set_packer st1
    (pk_set_generator (pst_packer st1) (PNG_Pop (pk_packetNumberGenerator (pst_packer st1)) rand).1)))
    = pop_number s2 rand) as -> by (subst s2; rewrite !queueControlFrames_eq; done).
  assert (Peek (pk_packetNumberGenerator (pst_packer st1)) = Peek (generator s2)) as ->
    by (subst s2; by rewrite queueControlFrames_eq).
  assert (ss_sph s2 = ss_sph s) as Eh by (subst s2; by rewrite queueControlFrames_eq).
  destruct (sendPackedPacket_ready e K s2 rand raw fs level He Hr2 ltac:(by rewrite Eh) Hfs Hraw)
    as (s' & -> & Hr' & Eq & Ehist). rewrite Eh in *.
  pose proof (eo_write _ _ He). destruct (e_write e) as [u|err|]; [|split_and!; done|done].
  split_and!; [|done|done]. destruct Hr'. by constructor.
Qed.

Lemma sendNewPacket_ready e K s wufs control :
  env_ok e -> ready K s -> tracked (ss_sph s) < MaxTrackedSentPackets -> window_updates_ok wufs ->
  Forall queueable control -> sent_ready K s (sendNewPacket e s wufs control).
Proof.
  intros He Hr Ht Hwu Hc. unfold sendNewPacket. pose proof (rd_safe _ _ Hr) as Hs.
  destruct (so_received _ _ _ _ _ Hs) as [R HR].
  destruct (GetAckFrame_total (ss_rph s) R (e_now e) HR) as (h & ack & Ea & HR'). rewrite Ea.
  assert (ready K (set_rph s h)) as Hr1.
  { destruct Hr. constructor; try done. by eapply safe_rph. }
  set (s1 := set_rph s h) in *.
  assert (Forall queueable (control ++ option_list (FAck <$> ack))) as Hc1.
  { apply Forall_app. split; [done|]. destruct ack as [ack|]; [|constructor]. apply Forall_singleton.
    by destruct (GetAckFrame_wf _ _ _ _ _ HR Ea) as [Hwf _]. }
  set (control1 := control ++ _) in *. cbv zeta.
  match goal with |- context [if ?b then GetStopWaitingFrame ?x ?force else ?y] =>
    assert (let '(h', swf) := if b then GetStopWaitingFrame x force else y in
      sending_ok h' (generator s) /\ SentPackets.packetHistory h' = SentPackets.packetHistory (ss_sph s) /\
      retransmissionQueue h' = retransmissionQueue (ss_sph s) /\
      (forall f, swf = Some f -> GetLeastUnacked h' <= swf_LeastUnacked f <= Peek (generator s))) as Hsw;
    [destruct b|destruct (if b then GetStopWaitingFrame x force else y) as [h' swf]] end.
  { pose proof (stop_waiting_sending (ss_sph s) (generator s) (HasFramesForRetransmission (pst_framer (ss_pack s1)))
      (so_sending _ _ _ _ _ Hs)) as Hsw. change (ss_sph s1) with (ss_sph s).
    destruct (GetStopWaitingFrame _ _). by destruct Hsw as (? & ? & ? & ? & _). }
  { split_and!; [apply Hs|done..]. }
  destruct Hsw as (Hsend & Eh & Eq & Hswf).
  assert (ready K (set_sph s1 h')) as Hr2 by (apply ready_sph; [done|done|by rewrite Eh]).
  set (s2 := set_sph s1 h') in *. change (ss_sph s2) with h' in *.
  destruct (ready_pack_ok K s2 Hr2) as (ids & Hfc & Hpo).
  pose proof (PackPacket_safe (HF := fcm_safe_laws (e_cp e) ids) (e_app e) (eo_app _ _ He)
    (or_intror (fcm_safe_sent (e_cp e) ids)) (ss_pack s2) (e_crypto e) (e_cp e) swf control1
    (GetLeastUnacked h') (e_delay e) (e_rand e)) as Hpack.
  destruct (GetSealer (e_crypto e)) as [level sealFunc] eqn:Eseal.
  destruct Hpack as (st1 & fs & st' & r & -> & Hcomp & Hst1 & Hfs & Hsafe); try done.
  { eapply ready_header; [done|exact Hr2|by left|]. by apply sending_leastUnacked. }
  assert (tracked h' < MaxTrackedSentPackets) as Ht2 by (unfold tracked in *; by rewrite Eh, Eq).
  destruct (packed_ready e K ids s2 control1 _ _ fs st1 st' level r wufs He Hr2 Ht2 Hwu Hc1 Hfc Hcomp Hst1 Hfs Hsafe)
    as (Hp1 & Hp2 & Hp3).
  cbv zeta. destruct r as [[packet|]|err|]; [|done..].
  destruct (sendPackedPacket _ _ _) as [s3 [u|err|]]; unfold sent_ready; simpl in *; [|by rewrite Hp2, Eq..|done].
  by rewrite Hp2, Hp3, Eq, Eh.
Qed.


(** ** Retransmissions *)

(** A packet that is queued has been sent, and the next STOP_WAITING is above it. *)
Lemma dequeue_sending h g :
  sending_ok h g ->
  match DequeuePacketForRetransmission h with
  | (h', Some p) =>
      sending_ok h' g /\ SentPackets.packetHistory h' = SentPackets.packetHistory h /\
      len (retransmissionQueue h) = len (retransmissionQueue h') + 1 /\ Forall sent_frame_ok (p_Frames p) /\
      0 < nextLeastUnacked (sph_stopWaitingManager h')
  | (_, None) => retransmissionQueue h = []
  end.
Proof.
  intros [(sent & dq & acks & Hok & Hf) Hsw Hn Hsk].
  destruct (DequeuePacketForRetransmission h) as [h' [p|]] eqn:E.
  2: { unfold DequeuePacketForRetransmission in E. destruct (last (retransmissionQueue h)) eqn:El; [done|].
       by apply last_None in El. }
  pose proof (Dequeue_ok _ _ _ _ _ _ Hok E) as Hok'. pose proof (Dequeue_sw h Hsw) as Hsw'. rewrite E in Hsw'. simpl in Hsw'.
  unfold DequeuePacketForRetransmission in E. destruct (last (retransmissionQueue h)) as [q|] eqn:El; [|done].
  injection E as E ->. apply last_Some in El as [queue El].
  assert (p ∈ sent) as Hp by (eapply history_sent; [apply Hok|]; rewrite El; set_solver).
  assert (0 < p_PacketNumber p <= lastSentPacketNumber h) as Hpn.
  { pose proof (sok_sent _ _ _ _ Hok) as Hs. rewrite Forall_forall in Hs. by apply Hs. }
  assert (p_PacketNumber p ∉ numbers (SentPackets.packetHistory h)) as Hnin.
  { intros Hin. pose proof (before_NoDup _ (sok_sorted _ _ _ _ Hok)) as Hnd.
    destruct (sok_accounted _ _ _ _ Hok) as (acked & Hperm & _). unfold numbers in *.
    rewrite Hperm, map_app in Hnd. apply NoDup_app in Hnd as (_ & Hd & _). apply (Hd _ Hin).
    rewrite El, !map_app. set_solver. }
  destruct (sw_covers _ Hsw (p_PacketNumber p) Hpn) as [|Hlt]; [done|].
  rewrite El in E. rewrite length_app, Nat.add_sub, take_app_length in E. subst h'. split_and!; [|done| | |simpl; lia].
  - constructor; [by exists sent, (p :: dq), acks|done|done|done].
  - rewrite El, len_app. reflexivity.
  - rewrite Forall_forall in Hf. by apply Hf.
Qed.

Definition resendable (f : Frame) : Prop :=
  match f with FStream f => StreamFrame_wf f | f => queueable f end.

Lemma framesForRetransmission_resendable fs :
  Forall sent_frame_ok fs -> Forall resendable (framesForRetransmission fs).
Proof.
  induction 1 as [|f fs Hf _ IH]; [constructor|]. destruct f; simpl in *; try done; constructor; try done;
    [apply Hf|intros delay _; exact Hf..].
Qed.

Lemma resendFrames_ready K fs s control :
  ready K s -> Forall queueable control -> Forall resendable fs ->
  let '(s', control') := fold_left resendFrame fs (s, control) in
  ready K s' /\ ss_sph s' = ss_sph s /\ Forall queueable control'.
Proof.
  intros Hr Hc Hfs. revert s control Hr Hc. induction Hfs as [|f fs Hf _ IH]; intros s control Hr Hc; [done|].
  assert (forall g, queueable g -> Forall queueable (control ++ [g])) as Hsnoc
    by (intros g Hg; apply Forall_app; by split; [|apply Forall_singleton]).
  cbn [fold_left]. destruct f; cbn [resendFrame]; try (by apply IH; auto).
  - set (s1 := set_pack s _). assert (ready K s1) as Hr1.
    { pose proof (rd_safe _ _ Hr) as Hs. apply ready_pack; try done; [apply Hs| |apply Hs|by destruct (pst_packer (ss_pack s))].
      destruct (so_framer _ _ _ _ _ Hs). constructor; [|done]. simpl. apply Forall_app. by split; [|apply Forall_singleton]. }
    by apply (IH s1).
  - destruct (GetReceiveWindow _ _); [case_if|..]; by apply IH; auto.
Qed.

Lemma retransmit_ready e K s swf p :
  env_ok e -> ready K s -> tracked (ss_sph s) < MaxTrackedSentPackets -> Forall sent_frame_ok (p_Frames p) ->
  p_EncryptionLevel p <> EncryptionForwardSecure -> 0 <= swf_LeastUnacked swf <= Peek (generator s) ->
  let '(st, r) := RetransmitNonForwardSecurePacket (FC := flowControlManager_methods (e_cp e)) (e_app e) (ss_pack s)
    (e_crypto e) (e_cp e) (Some swf) p (e_delay e) (e_rand e) in
  match r with
  | Ok None | Err _ => set_pack s st = s
  | Ok (Some packet) =>
      exists s', sendPackedPacket e (set_pack s st) packet = (s', e_write e) /\ ready K s' /\
        retransmissionQueue (ss_sph s') = retransmissionQueue (ss_sph s) /\
        len (SentPackets.packetHistory (ss_sph s')) = len (SentPackets.packetHistory (ss_sph s)) + 1
  | Panic => False
  end.
Proof.
  intros He Hr Ht Hfs Hlevel Hswf. assert (set_pack s (ss_pack s) = s) as Es by (by destruct s).
  pose proof (ready_number _ _ Hr).
  destruct (RetransmitNonForwardSecurePacket_safe (H1 := flowControlManager_methods (e_cp e)) (e_app e) (ss_pack s) (e_crypto e) (e_cp e) swf p (e_delay e) (e_rand e)
    Hfs Hlevel) as (st & r & -> & Hr'); [intros sl El; eapply ready_header; [done|done|by right|lia]|done|].
  pose proof (eo_sealer _ _ He (p_EncryptionLevel p)).
  destruct (GetSealerWithEncryptionLevel _ _) as [sl|err|]; [|by destruct Hr' as [-> ->]|done].
  destruct Hr' as [[(-> & [-> | [-> | [-> | ->]]])|(-> & raw & -> & Hraw)] Hsent]; try done.
  destruct (sendPackedPacket_ready e K s (e_rand e) raw _ (p_EncryptionLevel p) He Hr Ht Hsent Hraw) as (s' & E & Hs').
  exists s'. split; [exact E|done].
Qed.

Lemma resendPackets_ready K es s control :
  Forall env_ok es -> ready K s -> Forall queueable control ->
  len (retransmissionQueue (ss_sph s)) <= len es ->
  let '(es', s', r) := resendPackets es s control in
  ready K s' /\ tracked (ss_sph s') <= tracked (ss_sph s) /\
  len (SentPackets.packetHistory (ss_sph s)) <= len (SentPackets.packetHistory (ss_sph s')) /\
  match r with
  | Ok control' => Forall queueable control' /\ retransmissionQueue (ss_sph s') = [] /\ Forall env_ok es' /\
      len es <= len es' + len (retransmissionQueue (ss_sph s))
  | Err _ => True
  | Panic => False
  end.
Proof.
  intros Hes. revert s control. induction Hes as [|e es He Hes IH]; intros s control Hr Hc Hlen; cbn [resendPackets].
  - assert (retransmissionQueue (ss_sph s) = []) as E.
    { destruct (retransmissionQueue (ss_sph s)) as [|q qs]; [done|]. rewrite len_cons in Hlen. pose proof (len_nonneg qs).
      change (len (@nil (env (C := C) (A := A)))) with 0 in Hlen. lia. }
    unfold DequeuePacketForRetransmission. rewrite E. simpl. split_and!; try done; lia.
  - pose proof (dequeue_sending (ss_sph s) (generator s) (so_sending _ _ _ _ _ (rd_safe _ _ Hr))) as Hd.
    destruct (DequeuePacketForRetransmission (ss_sph s)) as [h [p|]].
    2: { split_and!; try done; [lia..|by constructor|]. pose proof (len_nonneg (retransmissionQueue (ss_sph s))). lia. }
    destruct Hd as (Hh & Ehist & Eq & Hframes & Hnext).
    assert (ready K (set_sph s h)) as Hr1 by (apply ready_sph; [done|done|by rewrite Ehist]).
    set (s1 := set_sph s h) in *. rewrite len_cons in Hlen.
    assert (tracked h = tracked (ss_sph s) - 1) as Etr by (unfold tracked; rewrite Eq, Ehist; lia).
    assert (forall s2 control2, ready K s2 -> Forall queueable control2 ->
      len (retransmissionQueue (ss_sph s2)) <= len (retransmissionQueue h) ->
      tracked (ss_sph s2) <= tracked (ss_sph s) ->
      len (SentPackets.packetHistory (ss_sph s)) <= len (SentPackets.packetHistory (ss_sph s2)) ->
      let '(es', s', r) := resendPackets es s2 control2 in
      ready K s' /\ tracked (ss_sph s') <= tracked (ss_sph s) /\
      len (SentPackets.packetHistory (ss_sph s)) <= len (SentPackets.packetHistory (ss_sph s')) /\
      match r with
      | Ok control' => Forall queueable control' /\ retransmissionQueue (ss_sph s') = [] /\ Forall env_ok es' /\
          len (e :: es) <= len es' + len (retransmissionQueue (ss_sph s))
      | Err _ => True
      | Panic => False
      end) as Hrest.
    { intros s2 control2 Hr2 Hc2 Hq Ht2 Hh2. specialize (IH s2 control2 Hr2 Hc2 ltac:(lia)).
      destruct (resendPackets es s2 control2) as [[es' s'] r]. destruct IH as (? & ? & ? & Hres).
      split_and!; [done|lia|lia|]. destruct r; [|done|done]. destruct Hres as (? & ? & ? & ?).
      rewrite len_cons. split_and!; (done || lia). }
    case_if.
    + pose proof (stop_waiting_sending h (generator s) true Hh) as Hw. change (ss_sph s1) with h.
      destruct (GetStopWaitingFrame h true) as [h' swf]. destruct Hw as (Hh' & Ehist' & Eq' & Hswf & Hsome).
      destruct swf as [swf|]; [|by destruct (Hsome eq_refl Hnext)].
      assert (ready K (set_sph s1 h')) as Hr2 by (apply ready_sph; [done|done|by rewrite Ehist']).
      pose proof (tracked_bound _ _ Hr). assert (tracked h' = tracked h) as Etr' by (unfold tracked; by rewrite Ehist', Eq').
      pose proof (retransmit_ready e K (set_sph s1 h') swf p He Hr2 ltac:(simpl; lia) Hframes ltac:(lia)) as Hre.
      specialize (Hre ltac:(specialize (Hswf swf eq_refl); pose proof (sending_leastUnacked _ _ Hh'); unfold generator in *; simpl; lia)).
      destruct (RetransmitNonForwardSecurePacket _ _ _ _ _ _ _ _) as [st [[packet|]|err|]]; [| | |done].
      * destruct Hre as (s2 & -> & Hr3 & Eq3 & Ehist3). simpl in Eq3, Ehist3.
        assert (tracked (ss_sph s2) = tracked h' + 1) as Etr2 by (unfold tracked; rewrite Eq3, Ehist3; lia).
        rewrite Ehist', Ehist in Ehist3. rewrite Eq' in Eq3.
        pose proof (eo_write _ _ He). destruct (e_write e) as [u|err|]; [|split_and!; (done || lia)|done].
        apply Hrest; try done; rewrite ?Eq3; lia.
      * rewrite Hre. apply Hrest; try done; simpl; rewrite ?Eq', ?Ehist', ?Ehist; lia.
      * rewrite Hre. split_and!; simpl; try done; rewrite ?Ehist', ?Ehist; lia.
    + pose proof (resendFrames_ready K _ s1 control Hr1 Hc (framesForRetransmission_resendable _ Hframes)) as Hf.
      unfold GetFramesForRetransmission. destruct (fold_left _ _ _) as [s2 control2]. destruct Hf as (Hr2 & E2 & Hc2).
      apply Hrest; try done; rewrite E2; simpl; [lia|lia|by rewrite Ehist].
Qed.


(** ** The loop *)

Lemma getWindowUpdateFrames_ready (e : env (C := C) (A := A)) K s :
  ready K s ->
  let '(s', wufs) := getWindowUpdateFrames e s in
  ready K s' /\ ss_sph s' = ss_sph s /\ window_updates_ok wufs.
Proof.
  intros Hr. unfold getWindowUpdateFrames. pose proof (rd_safe _ _ Hr) as Hs.
  pose proof (so_streams _ _ _ _ _ Hs) as Hok. pose proof Hok as [_ _ (ids & Hf & Hu & _)].
  pose proof (GetWindowUpdates_safe ids (pst_fc (ss_pack s)) (e_now e) (SmoothedRTT (rttStats (ss_sph s))) (e_order e) Hf Hu) as Hw.
  destruct (GetWindowUpdates _ _ _ _) as [fc us]. destruct Hw as [Hf' Hus]. split_and!; [|done|].
  - apply ready_pack; try done; simpl; [by eapply streams_ok_fc|apply Hs|apply Hs|by destruct (pst_packer (ss_pack s))].
  - apply Forall_map. exact Hus.
Qed.

(** Each round but the last one sends a packet, and there is room for so many. *)
Lemma sendPacket_ready K rounds es s :
  Forall env_ok es -> ready K s ->
  MaxTrackedSentPackets - len (SentPackets.packetHistory (ss_sph s)) <= Z.of_nat rounds ->
  Z.of_nat rounds + len (retransmissionQueue (ss_sph s)) <= len es ->
  let '(s', r) := sendPacket rounds es s in ready K s' /\ r <> Panic.
Proof.
  revert es s. induction rounds as [|rounds IH]; intros es s Hes Hr Hrounds Hlen; pose proof (tracked_bound _ _ Hr) as Ht;
    cbn [sendPacket]; destruct (SendingAllowed (ss_sph s)) eqn:Ea; cbn [negb]; try done.
  all: assert (tracked (ss_sph s) < MaxTrackedSentPackets) as Hroom.
  1, 3: unfold SendingAllowed in Ea; apply negb_true_iff, orb_false_iff in Ea as [_ Ea]; fold (tracked (ss_sph s)) in Ea;
    unfold MaxTrackedSentPackets, DefaultMaxCongestionWindow in *; rewrite u64_small in Ea by (unfold_width; lia); lia.
  { unfold tracked in *. pose proof (len_nonneg (retransmissionQueue (ss_sph s))). lia. }
  destruct es as [|e es].
  { change (len (@nil (env (C := C) (A := A)))) with 0 in Hlen. pose proof (len_nonneg (retransmissionQueue (ss_sph s))). lia. }
  rewrite len_cons in Hlen. apply Forall_cons in Hes as [He Hes].
  pose proof (getWindowUpdateFrames_ready e K s Hr) as Hw. destruct (getWindowUpdateFrames e s) as [s1 wufs].
  destruct Hw as (Hr1 & E1 & Hwu).
  pose proof (resendPackets_ready K es s1 _ Hes Hr1 (window_updates_control _ Hwu) ltac:(rewrite E1; lia)) as Hre.
  destruct (resendPackets es s1 _) as [[es' s2] [control|err|]]; destruct Hre as (Hr2 & Ht2 & Hh2 & Hres); [|done|done].
  destruct Hres as (Hc & Hq & Hes' & Hlen'). rewrite E1 in *.
  pose proof (sendNewPacket_ready e K s2 wufs control He Hr2 ltac:(lia) Hwu Hc) as Hn.
  destruct (sendNewPacket e s2 wufs control) as [s3 [[|]|err|]]; destruct Hn as (Hr3 & Eq3 & Hh3); simpl in *; try done.
  apply IH; try done; [lia|]. rewrite Eq3, Hq. change (len (@nil Packet)) with 0. lia.
Qed.

Lemma OnAlarm_sending h g now alarmNow : sending_ok h g -> sending_ok (OnAlarm h now alarmNow) g.
Proof.
  intros [(sent & dq & acks & Hok & Hf) Hsw Hn Hsk].
  assert (lastSentPacketNumber (OnAlarm h now alarmNow) = lastSentPacketNumber h) as El.
  { unfold OnAlarm. set (h1 := if negb _ then _ else _).
    destruct (updateLossDetectionAlarm_spec h1 alarmNow) as [al ->]. subst h1. case_if.
    - destruct (detectLostPackets_spec h now ltac:(by destruct Hok)) as (_ & Hun & _). apply Hun.
    - unfold retransmitOldestTwoPackets, retransmitOldest. destruct (SentPackets.packetHistory h) as [|p ps] eqn:E; [by rewrite E|].
      by destruct (SentPackets.packetHistory (queueRTO h p)). }
  constructor; [|by eapply OnAlarm_sw|by rewrite El|done]. exists sent, dq, acks. split; [by apply OnAlarm_ok|done].
Qed.

(** Enough rounds of [sendPacket] and environments for them *)
Definition enough (rounds : nat) (es : list (env (C := C) (A := A))) : Prop :=
  MaxTrackedSentPackets <= Z.of_nat rounds /\ Z.of_nat rounds + MaxTrackedSentPackets <= len es.

(** The sizes that a session keeps within when it sends *)
Record small (s : session) : Prop := {
  sl_streams : len (sm_openStreams (pst_streams (ss_pack s))) <= 2 ^ 31;
  sl_number : Peek (generator s) + MaxTrackedSentPackets < 2 ^ 46;
}.

Lemma session_close_safe (b : bool) s err : safe_ok s -> safe_ok (if b then session_close s err else s).
Proof. intros Hs. destruct b; [|done]. by apply safe_close. Qed.

Lemma afterEvent_safe e rounds es s :
  Forall env_ok es -> enough rounds es -> safe_ok s -> small s ->
  exists s', afterEvent e rounds es s = Ok s' /\ safe_ok s'.
Proof.
  intros Hes [Hrounds Hlen] Hs [Hst Hn]. unfold afterEvent. cbv zeta.
  set (s1 := if _ <? _ then _ else s).
  assert (safe_ok s1 /\ ss_pack s1 = ss_pack s /\ ss_rph s1 = ss_rph s) as (Hs1 & Ep & Er).
  { subst s1. case_if; [|done]. split_and!; [|done|done]. apply safe_sph; [done|]. apply OnAlarm_sending, Hs. }
  pose proof (len_nonneg (SentPackets.packetHistory (ss_sph s1))) as Hpos.
  assert (ready (Peek (generator s1) - len (SentPackets.packetHistory (ss_sph s1))) s1) as Hr.
  { constructor; unfold generator in *; rewrite ?Ep, ?Er; (done || lia). }
  pose proof (tracked_bound _ _ Hr) as Ht. unfold tracked in Ht.
  pose proof (sendPacket_ready _ rounds es s1 Hes Hr ltac:(lia) ltac:(lia)) as Hsend.
  destruct (sendPacket rounds es s1) as [s2 r]. destruct Hsend as [Hr2 Hnp]. pose proof (rd_safe _ _ Hr2) as Hs2.
  assert (safe_ok (match r with Err err => session_close s2 err | _ => s2 end)) as Hs3
    by (destruct r; [done|by apply safe_close|done]).
  destruct r as [u|err|]; [| |done]; (eexists; split; [reflexivity|]);
    apply garbageCollectStreams_safe; by repeat apply session_close_safe.
Qed.

(** An iteration does not fail, unless the run loop is stuck with a nonce. *)
Lemma iteration_safe e rounds es s ev :
  env_ok e -> Forall env_ok es -> enough rounds es -> loop_ok s -> safe_ok s -> hs_ok s -> number_fits s ->
  (forall s' b, maybeResetTimer e s = Ok s' -> forall s'', handleEvent e s' ev = Some (Ok (s'', b)) -> small s'') ->
  match iteration e rounds es s ev with
  | None => True
  | Some r => if event_stuck e s ev then r = Panic else exists s', r = Ok s' /\ safe_ok s'
  end.
Proof.
  intros He Hes Hen Hl Hs Hhs Hn Hsmall. unfold iteration. destruct (ch_closeChan (ss_ch s)); [|done].
  destruct (maybeResetTimer_ok e s Hl) as (s1 & E1 & Hl1 & _). rewrite E1.
  apply maybeResetTimer_outer in E1 as Eo. apply maybeResetTimer_time in E1 as E2. destruct E2 as [t ->].
  destruct (event_stuck e s ev) eqn:Est.
  - unfold event_stuck in Est. destruct ev; try done. unfold handleEvent. cbn [ss_ch set_time].
    destruct (ch_receivedPackets (ss_ch s)) as [|p ps]; [done|]. unfold handlePacketImpl. cbv zeta.
    change (_ && negb (e_receives e)) with (nonce_stuck e s p). by rewrite Est.
  - pose proof (handleEvent_safe pers e (set_time s t) ev He Hl1 Hs (hs_ok_outer _ _ _ Eo Hhs) Hn Est) as Hev.
    destruct (handleEvent e (set_time s t) ev) as [r|] eqn:Ee; [|done].
    destruct Hev as (s2 & b & -> & Hs2). destruct b; [by exists s2|].
    eapply afterEvent_safe; [done|done|done|by eapply Hsmall].
Qed.

Lemma iteration_hs (e : env (C := C) (A := A)) rounds es s ev s' :
  env_ok e -> hs_ok s -> iteration e rounds es s ev = Some (Ok s') -> hs_ok s'.
Proof.
  intros He Hs E. unfold iteration in E. destruct (ch_closeChan (ss_ch s)); [|done].
  destruct (maybeResetTimer e s) as [s1|err|] eqn:E1; [|done..].
  apply maybeResetTimer_outer in E1. apply (hs_ok_outer _ _ _ E1) in Hs.
  destruct (handleEvent e s1 ev) as [[[s2 [|]]|err|]|] eqn:E2; try done.
  - injection E as <-. by eapply handleEvent_hs.
  - injection E as E. apply afterEvent_outer in E. eapply hs_ok_outer; [exact E|]. by eapply handleEvent_hs.
Qed.

End sending.
