(* ===== verification/SessionRun.v ===== *)
(** * The session as a whole: every interleaving

    Runs of the session: iterations of the run loop, in any order of events, and between them
    steps of the timer, of the network and of the application.  [safe_ok] is an invariant, and
    no iteration of a run fails. *)

From S2P Require Import Prelude Protocol Qerr Wire Frames AckFrame Frame ReceivedPackets PublicHeader PacketUnpacker.
From S2P Require Import StreamFrameSorter Handshake FlowControl RTTStats SendAlgorithm SentPackets.
From S2P Require Import PacketNumberGenerator StreamsMap Stream StreamFramer PacketPacker Session SessionSafety SessionSend.

Section run.
Context {C A : Type} `{CryptoSetup C} {ok : A -> Prop} `{ConnectionParametersLaws A ok}.
Context `{SA : SendAlgorithm, Laws : !SendAlgorithmLaws SA}.
Context (pers : Perspective).

#[local] Abbreviation env_ok := (env_ok (ok := ok) pers).
#[local] Abbreviation safe_ok := (safe_ok pers).
#[local] Abbreviation hs_ok := (hs_ok pers).

(** ** The application *)

(** The application has read less than 2^62 bytes. *)
Definition read_small (fc : flowControlManager) : Prop :=
  fc_bytesRead (connFlowController fc) < 2 ^ 62 /\
  forall id c, streamFlowController fc !! id = Some c -> fc_bytesRead c < 2 ^ 62.

(** Steps that interleave with the run loop.  Data, offsets and stream IDs stay within their
    types. *)
Inductive outside_step (s : session) : session -> Prop :=
| out_expire d :
    tm_running (tg_timer (ss_time s)) = Some d ->
    outside_step s (set_time s (set_timer (ss_time s) (mkTimer None true) (tg_currentDeadline (ss_time s))
                                  (tg_timerRead (ss_time s))))
| out_packet p : packet_ok p -> outside_step s (handlePacket s p)
| out_Close err : outside_step s (registerClose s err false).1
| out_OpenStream e s' r :
    ok (e_cp e) -> sm_nextStream (pst_streams (ss_pack s)) + 2 < 2 ^ 32 ->
    session_OpenStream (C := C) e s = (s', r) -> outside_step s s'
| out_OpenStreamSync e s' r :
    ok (e_cp e) -> sm_nextStream (pst_streams (ss_pack s)) + 2 < 2 ^ 32 ->
    session_OpenStreamSync (C := C) e s = (s', r) -> outside_step s s'
| out_AcceptStream s' r : session_AcceptStream s = (s', r) -> outside_step s s'
| out_Write id str p :
    sm_streams (pst_streams (ss_pack s)) !! id = Some str -> bytes_ok p -> s_writeOffset str + len p < 2 ^ 64 ->
    outside_step s (signalled (set_stream_state s (stream_Write str p).1.1) (stream_Write str p).1.2)
| out_CloseStream id str :
    sm_streams (pst_streams (ss_pack s)) !! id = Some str ->
    outside_step s (signalled (set_stream_state s (stream_Close str).1) (stream_Close str).2)
| out_Reset id str err :
    sm_streams (pst_streams (ss_pack s)) !! id = Some str ->
    outside_step s (signalled (set_stream_state s (stream_Reset str err).1) (stream_Reset str err).2)
| out_read (e : env (C := C) (A := A)) id str r str' fc sigs r' :
    sm_streams (pst_streams (ss_pack s)) !! id = Some str ->
    @read_step _ (flowControlManager_methods (e_cp e)) (e_now e) str (pst_fc (ss_pack s)) r
      = Some (str', fc, sigs, r') -> read_small fc ->
    outside_step s (signalled (set_streams s (putBack (pst_streams (ss_pack s)) str') fc) sigs)
| out_removed sigs : signals_ok sigs -> outside_step s (signalled s sigs)
| out_handshakeEvent ev evs :
    hc_handshakeChan (ss_hs s) = ev :: evs ->
    outside_step s (set_hs s (mkHandshakeChans (hc_levelsRead (ss_hs s)) evs
                                (hc_handshakeCompleteChan (ss_hs s)) (hc_closed (ss_hs s)))).

Lemma outside_concurrent s s' : outside_step s s' -> concurrent_step (C := C) (A := A) s s'.
Proof.
  intros Hstep. destruct Hstep as [d E|p Hp|err|e s' r Hcp Hn E|e s' r Hcp Hn E|s' r E|id str p E Hp Ho|id str E|id str err E
    |e id str rd str' fc sigs rd' E Er Hsm|sigs Hsig|ev evs E].
  - by eapply step_expire.
  - apply step_packet.
  - apply step_Close.
  - by eapply step_OpenStream.
  - by eapply step_OpenStreamSync.
  - by eapply step_AcceptStream.
  - eapply step_stream; [exact E|apply op_Write].
  - eapply step_stream; [exact E|apply op_Close].
  - eapply step_stream; [exact E|apply op_Reset].
  - by eapply step_read.
  - apply step_removed.
  - by eapply step_handshakeEvent.
Qed.

Lemma opened_ok m fc cp m' fc' r :
  ok cp -> streams_ok m fc -> sm_nextStream m + 2 < 2 ^ 32 ->
  openStreamImpl s_streamID (session_newStream cp) cp m fc = (m', fc', r) -> streams_ok m' fc'.
Proof.
  intros Hcp Hok Hn E. pose proof (openStreamImpl_spec s_streamID (session_newStream cp) ltac:(done) cp m fc m' fc' r
    (sk_map _ _ Hok) Hn E) as [Hm' _].
  assert (opens m fc) as Ho by (by destruct Hok; constructor).
  assert (opens m' fc') as [? ?]; [|by constructor]. revert E. unfold openStreamImpl. case_if; [by intros [= <- <- _]|]. simpl.
  intros [= <- <- _]. apply (opens_put (ok := ok) cp Hcp m); [done| |by case_if].
  destruct (ok_next _ _ (sk_map _ _ Hok)). unfold is_u32. lia.
Qed.

Lemma accepted_ok m fc m' r : streams_ok m fc -> SM_AcceptStream m = (m', r) -> streams_ok m' fc.
Proof.
  intros Hok. unfold SM_AcceptStream. destruct (sm_closeErr m); [by intros [= <- _]|].
  destruct (sm_streams m !! _); intros [= <- _]; [|done]. destruct Hok as [Hm ? ?]. constructor; [|done|done].
  destruct Hm. by constructor.
Qed.

(** An operation on a stream *)
Lemma stream_op_safe s id str str' sigs fc :
  safe_ok s -> sm_streams (pst_streams (ss_pack s)) !! id = Some str ->
  s_streamID str' = s_streamID str -> stream_safe str' -> signals_ok sigs ->
  streams_ok (pst_streams (ss_pack s)) fc ->
  safe_ok (signalled (set_streams s (putBack (pst_streams (ss_pack s)) str') fc) sigs).
Proof.
  intros Hs E Eid Hstr Hsig Hfc. apply safe_signalled; [|done]. apply safe_streams; [done|].
  apply streams_ok_put; [done| |done]. rewrite Eid, (ok_id _ _ (sk_map _ _ Hfc) _ _ E). by eexists.
Qed.

Lemma Write_safe str p :
  stream_safe str -> bytes_ok p -> s_writeOffset str + len p < 2 ^ 64 ->
  stream_safe (stream_Write str p).1.1 /\ signals_ok (stream_Write str p).1.2 /\
  s_streamID (stream_Write str p).1.1 = s_streamID str.
Proof.
  intros Hs Hp Ho. unfold stream_Write. case_if; [split_and!; [done|constructor|done]|].
  destruct (s_err str); [split_and!; [done|constructor|done]|].
  case_if; [split_and!; [done|constructor|done]|]. split_and!; [|by apply Forall_singleton|done].
  destruct Hs as [(? & ? & _ & _ & _) Hg]. constructor; [|done].
  unfold sendable, pending. simpl. split_and!; try done. intros [= ->]. done.
Qed.

Lemma Reset_safe str err :
  stream_safe str -> stream_safe (stream_Reset str err).1 /\ signals_ok (stream_Reset str err).2 /\
  s_streamID (stream_Reset str err).1 = s_streamID str.
Proof.
  intros Hs. unfold stream_Reset. case_if; [split_and!; [done|constructor|done]|].
  set (str1 := setErr _ _). assert (stream_safe str1 /\ s_streamID str1 = s_streamID str) as [H1' <-].
  { subst str1. unfold setErr. simpl. destruct (s_err str); (split; [by apply (stream_safe_same str)|done]). }
  by apply maybeSendReset_safe.
Qed.

Lemma AddBytesRead_safe ids fc now id n :
  fcm_safe ids fc -> read_small (AddBytesRead fc now id n).1 -> fcm_safe ids (AddBytesRead fc now id n).1.
Proof.
  intros Hf. unfold AddBytesRead. destruct (streamFlowController fc !! id) as [c|] eqn:Ec; [|done].
  assert (forall c, ctl_ok c -> fc_bytesRead (fc_AddBytesRead c now n) < 2 ^ 62 -> ctl_ok (fc_AddBytesRead c now n)) as Hadd.
  { intros c0 [] Hr. unfold fc_AddBytesRead in *. constructor; case_if; simpl in *; try done.
    all: split; [apply u64_range|done]. }
  pose proof (fs_streams _ _ Hf _ _ Ec) as Hc. pose proof (fcm_safe_elem _ _ _ _ Hf Ec) as Hid.
  case_if; simpl; intros [Hconn Hst].
  - assert (fcm_safe ids (set_stream fc id (fc_AddBytesRead c now n))) as Hf'.
    { apply fcm_safe_stream; [done|done|]. apply Hadd; [done|]. apply (Hst id). simpl. by rewrite lookup_insert_eq. }
    apply fcm_safe_conn; [done|]. apply Hadd; [apply Hf|done].
  - apply fcm_safe_stream; [done|done|]. apply Hadd; [done|]. apply (Hst id). simpl. by rewrite lookup_insert_eq.
Qed.

Lemma read_step_safe (cp : A) ids now str fc r str' fc' sigs r' :
  stream_safe str -> fcm_safe ids fc ->
  @read_step _ (flowControlManager_methods cp) now str fc r = Some (str', fc', sigs, r') -> read_small fc' ->
  stream_safe str' /\ s_streamID str' = s_streamID str /\ signals_ok sigs /\ fcm_safe ids fc'.
Proof.
  intros Hs Hf E Hsm. destruct r as [want got|want got f|want got f|got err|]; simpl in E; try done.
  - assert (exists str1 r1, readHead str want got = Some (str1, r1) /\ str' = str1 /\ fc' = fc /\ sigs = []) as
      (str1 & r1 & E1 & -> & -> & ->) by (destruct (readHead str want got) as [[str1 r1]|]; [injection E as <- <- <- _; by eexists _, _|done]).
    assert (stream_safe str1 /\ s_streamID str1 = s_streamID str) as [? ?]; [|by split_and!; [..|constructor|]].
    unfold readHead in E1. case_if; [by injection E1 as <- _|].
    case_if; [destruct (s_err str); [by injection E1 as <- _|destruct (Head _); by injection E1 as <- _]|].
    destruct (Head _) as [f|]; [|done]. injection E1 as <- _. split; [by apply (stream_safe_same str)|done].
  - injection E as E. unfold readCopy in E. cbv zeta in E.
    case_if; [injection E as <- <- <- _; by split_and!; [..|constructor|]|].
    case_if; [injection E as <- <- <- _; by split_and!; [..|constructor|]|].
    destruct (sliceFrom _ _) as [d|err|]; [|injection E as <- <- <- _; by split_and!; [..|constructor|]..].
    injection E as <- <- <- _. split_and!; [by apply (stream_safe_same str)|done|by apply Forall_singleton|].
    simpl in Hsm |- *. case_if; [done|]. by apply AddBytesRead_safe.
  - unfold readPop in E. injection E as <- <- <- _.
    split_and!; [|done|constructor|done]. apply (stream_safe_same str); try done. simpl.
    unfold Pop. by destruct (Head _).
Qed.

Lemma outside_safe s s' : safe_ok s -> outside_step s s' -> safe_ok s'.
Proof.
  intros Hs Hstep. pose proof (so_streams _ _ _ _ _ Hs) as Hok.
  destruct Hstep as [d E|p Hp|err|e s' r Hcp Hn E|e s' r Hcp Hn E|s' r E|id str p E Hp Ho|id str E|id str err E
    |e id str rd str' fc sigs rd' E Er Hsm|sigs Hsig|ev evs E].
  - exact Hs.
  - by apply handlePacket_safe.
  - by apply safe_close.
  - unfold session_OpenStream, SM_OpenStream in E. destruct (sm_closeErr _); [injection E as <- _; by apply safe_streams|].
    destruct (openStreamImpl _ _ _ _ _) as [[m fc] r'] eqn:Eo. injection E as <- _. apply safe_streams; [done|].
    by eapply opened_ok.
  - unfold session_OpenStreamSync, SM_OpenStreamSync in E. destruct (sm_closeErr _); [injection E as <- _; by apply safe_streams|].
    destruct (openStreamImpl _ _ _ _ _) as [[m fc] r'] eqn:Eo. apply opened_ok in Eo; [|done..].
    destruct r' as [str|err|]; [|case_decide|]; injection E as <- _; by apply safe_streams.
  - unfold session_AcceptStream in E. destruct (SM_AcceptStream _) as [m r'] eqn:Ea. injection E as <- _.
    apply safe_streams; [done|]. by eapply accepted_ok.
  - destruct (Write_safe str p (sk_stream _ _ Hok _ _ E) Hp Ho) as (? & ? & ?). by eapply stream_op_safe.
  - eapply stream_op_safe; [done|exact E|done| |by apply Forall_singleton|done].
    apply (stream_safe_same str); try done. by apply (sk_stream _ _ Hok id).
  - destruct (Reset_safe str err (sk_stream _ _ Hok _ _ E)) as (? & ? & ?). by eapply stream_op_safe.
  - pose proof Hok as [_ Hst (ids & Hf & _)].
    destruct (read_step_safe (e_cp e) ids _ _ _ _ _ _ _ _ (Hst _ _ E) Hf Er Hsm) as (? & ? & ? & ?).
    eapply stream_op_safe; [done|exact E|done|done|done|by eapply streams_ok_fc].
  - by apply safe_signalled.
  - exact Hs.
Qed.

Lemma outside_hs s s' : hs_ok s -> outside_step s s' -> hs_ok s'.
Proof.
  intros Hs Hstep. assert (forall s', outer s' = outer s -> hs_ok s') as Hsame by (intros s1 E1; by eapply hs_ok_outer).
  assert (forall m fc sigs, hs_ok (signalled (set_streams s m fc) sigs)) as Hsig
    by (intros m fc sigs; apply Hsame; by rewrite signalled_outer).
  destruct Hstep as [d E|p Hp|err|e s' r Hcp Hn E|e s' r Hcp Hn E|s' r E|id str p E Hp Ho|id str E|id str err E
    |e id str rd str' fc sigs rd' E Er Hsm|sigs Hsig'|ev evs E]; try (apply Hsig).
  - by apply Hsame.
  - apply Hsame. unfold handlePacket. by case_if.
  - apply Hsame, registerClose_outer.
  - unfold session_OpenStream in E. destruct (SM_OpenStream _ _ _ _ _) as [[m fc] r']. injection E as <- _. by apply Hsame.
  - unfold session_OpenStreamSync in E. destruct (SM_OpenStreamSync _ _ _ _ _) as [[m fc] r']. injection E as <- _. by apply Hsame.
  - unfold session_AcceptStream in E. destruct (SM_AcceptStream _) as [m r']. injection E as <- _. by apply Hsame.
  - apply Hsame, signalled_outer.
  - destruct Hs as [H1' H2' H3' H4' H5']. rewrite E in H3'. constructor; try done. simpl in *. lia.
Qed.

(** ** New sessions *)

Lemma NewFlowControlManager_safe cp : ok cp -> fcm_safe ∅ (NewFlowControlManager cp).
Proof.
  intros Hcp. destruct (receive_window_bounds cp Hcp) as (? & ? & ? & ?).
  constructor; simpl; [by intros id c []%lookup_empty_Some| |by rewrite dom_empty_L].
  unfold newFlowController. simpl. constructor; simpl; lia.
Qed.

Lemma setup_safe usePLUS id version e r c :
  env_ok e -> 0 < id < 2 ^ 64 -> 0 <= version < 1000 -> SA_ok c -> safe_ok (setup pers usePLUS id version e r c).
Proof.
  intros He Hid Hv Hc. assert (sm_streams (newStreamsMap (S := stream) pers) = ∅) as Estreams by (by destruct pers). constructor; simpl.
  - constructor; [apply newStreamsMap_ok|intros x str; by rewrite Estreams, lookup_empty|].
    exists ∅. split_and!; [by apply NewFlowControlManager_safe, He|set_solver|].
    intros x. rewrite Estreams, lookup_empty. by intros [].
  - by repeat constructor.
  - constructor.
  - done.
  - constructor; [|apply sw_ok_new|done|done]. exists [], [], []. split; [|constructor].
    apply SPH_reach_ok. by constructor.
  - exists ∅. apply handler_reach_inv. constructor.
  - constructor.
Qed.

Lemma newSession_safe usePLUS id version e r c :
  pers = PerspectiveServer -> env_ok e -> 0 < id < 2 ^ 64 -> 0 <= version < 1000 -> SA_ok c ->
  safe_ok (newSession usePLUS id version e r c).
Proof.
  intros Hp He Hid Hv Hc. unfold newSession. pose proof (setup_safe usePLUS id version e r c He Hid Hv Hc) as Hs.
  rewrite Hp in *. set (s := setup _ _ _ _ _ _ _) in *.
  pose proof (session_GetOrOpenStream_safe PerspectiveServer e s 1 He Hs ltac:(done)) as Hg.
  destruct (session_GetOrOpenStream e s 1) as [s1 r1]. destruct Hg as [Hs1 _]. cbn [fst].
  unfold session_AcceptStream. destruct (SM_AcceptStream _) as [m r'] eqn:Ea.
  apply safe_streams; [done|]. eapply accepted_ok; [apply Hs1|exact Ea].
Qed.

Lemma newClientSession_safe usePLUS id version e r c :
  pers = PerspectiveClient -> env_ok e -> 0 < id < 2 ^ 64 -> 0 <= version < 1000 -> SA_ok c ->
  safe_ok (newClientSession usePLUS id version e r c).
Proof.
  intros Hp He Hid Hv Hc. unfold newClientSession. pose proof (setup_safe usePLUS id version e r c He Hid Hv Hc) as Hs.
  rewrite Hp in *. set (s := setup _ _ _ _ _ _ _) in *. unfold session_OpenStream, SM_OpenStream. simpl.
  destruct (openStreamImpl _ _ _ _ _) as [[m fc] r1] eqn:Eo. apply safe_streams; [done|].
  eapply opened_ok; [apply He|apply Hs|simpl; lia|exact Eo].
Qed.

(** ** Runs *)

(** The packet numbers of the peer, and the sizes of the session, stay within their ranges
    when this event is handled. *)
Definition step_fits (e : env (C := C) (A := A)) (s : session) (ev : event) : Prop :=
  number_fits s /\
  forall s1 s2 b, maybeResetTimer e s = Ok s1 -> handleEvent e s1 ev = Some (Ok (s2, b)) -> small s2.

Lemma sendingScheduled_fits e s : number_fits s -> small s -> step_fits e s SendingScheduled.
Proof.
  intros Hn [Hst Hp]. split; [done|]. intros s1 s2 b [t ->]%maybeResetTimer_time E. simpl in E.
  destruct (ch_sendingScheduled (ss_ch s)); [|done]. injection E as <- _. by constructor.
Qed.

Inductive session_run : session -> Prop :=
| run_server usePLUS id version e r c :
    pers = PerspectiveServer -> env_ok e -> 0 < id < 2 ^ 64 -> 0 <= version < 1000 -> SA_ok c ->
    session_run (newSession usePLUS id version e r c)
| run_client usePLUS id version e r c :
    pers = PerspectiveClient -> env_ok e -> 0 < id < 2 ^ 64 -> 0 <= version < 1000 -> SA_ok c ->
    session_run (newClientSession usePLUS id version e r c)
| run_outside s s' : session_run s -> outside_step s s' -> session_run s'
| run_iteration e rounds es ev s s' :
    session_run s -> env_ok e -> Forall env_ok es -> enough rounds es -> step_fits e s ev ->
    iteration e rounds es s ev = Some (Ok s') -> session_run s'.

Lemma session_run_reach s : session_run s -> session_reach (C := C) (A := A) s.
Proof.
  induction 1 as [usePLUS id version e r c Hp He Hid Hv Hc|usePLUS id version e r c Hp He Hid Hv Hc|s s' _ IH Hstep
    |e rounds es ev s s' _ IH He Hes Hen Hfit E].
  - apply reach_server.
  - apply reach_client.
  - eapply reach_step; [exact IH|]. by apply step_concurrent, outside_concurrent.
  - eapply reach_step; [exact IH|]. by eapply step_iteration.
Qed.

Lemma iteration_run_safe e rounds es s ev :
  env_ok e -> Forall env_ok es -> enough rounds es -> loop_ok s -> safe_ok s -> hs_ok s -> step_fits e s ev ->
  match iteration e rounds es s ev with
  | None => True
  | Some r => if event_stuck e s ev then r = Panic else exists s', r = Ok s' /\ safe_ok s'
  end.
Proof.
  intros He Hes Hen Hl Hs Hhs [Hn Hsmall]. apply (iteration_safe pers); try done. intros s1 b E1 s2 E2. by eapply Hsmall.
Qed.

Lemma newSession_hs usePLUS id version e r c :
  pers = PerspectiveServer -> hs_ok (newSession (C := C) (A := A) usePLUS id version e r c).
Proof.
  intros ->. unfold newSession, session_GetOrOpenStream, session_AcceptStream.
  destruct (SM_GetOrOpenStream _ _ _ _ _ _) as [[m fc] r']. simpl. destruct (SM_AcceptStream _).
  constructor; simpl; done || lia.
Qed.

Lemma newClientSession_hs usePLUS id version e r c :
  pers = PerspectiveClient -> hs_ok (newClientSession (C := C) (A := A) usePLUS id version e r c).
Proof.
  intros ->. unfold newClientSession, session_OpenStream. destruct (SM_OpenStream _ _ _ _ _) as [[m fc] r'].
  constructor; simpl; done || lia.
Qed.

Lemma session_run_safe s : session_run s -> loop_ok s /\ safe_ok s /\ hs_ok s.
Proof.
  intros Hrun. split; [by eapply session_reach_loop, session_run_reach|].
  induction Hrun as [usePLUS id version e r c Hp He Hid Hv Hc|usePLUS id version e r c Hp He Hid Hv Hc|s s' _ [IH1 IH2] Hstep
    |e rounds es ev s s' Hrun [IH1 IH2] He Hes Hen Hfit E].
  - by split; [apply newSession_safe|apply newSession_hs].
  - by split; [apply newClientSession_safe|apply newClientSession_hs].
  - by split; [eapply outside_safe|eapply outside_hs].
  - pose proof (session_reach_loop _ (session_run_reach _ Hrun)) as Hl. split; [|by eapply iteration_hs].
    pose proof (iteration_run_safe e rounds es s ev He Hes Hen Hl IH1 IH2 Hfit) as Hi. rewrite E in Hi.
    case_if; [done|]. by destruct Hi as (s0 & [= <-] & ?).
Qed.

(** *** The end of a run *)

Context (render : errmsg -> list Z).

Lemma closeStreams_packer s err : pst_packer (ss_pack (closeStreamsWithError s err)) = pst_packer (ss_pack s).
Proof. done. Qed.

Lemma handleCloseError_no_panic e s ce : env_ok e -> safe_ok s -> small s -> (handleCloseError render e s ce).2 <> Panic.
Proof.
  intros He Hs [Hst Hn]. unfold handleCloseError. case_decide; [done|]. set (s1 := set_streams s _ _).
  set (s2 := closeStreamsWithError s1 _). case_if; [done|]. case_if; [apply He|]. unfold sendConnectionClose.
  destruct (GetSealer (e_crypto e)) as [level sealFunc] eqn:Eseal.
  assert (header_params (pst_packer (ss_pack s2)) (e_crypto e) (e_cp e) level (GetLeastUnacked (ss_sph s2))) as Hp.
  { change (header_params (pst_packer (ss_pack s)) (e_crypto e) (e_cp e) level (GetLeastUnacked (ss_sph s))).
    pose proof (len_nonneg (SentPackets.packetHistory (ss_sph s))).
    eapply (ready_header pers e (Peek (generator s) - len (SentPackets.packetHistory (ss_sph s)))); [done| |by left|].
    - constructor; (done || lia).
    - apply sending_leastUnacked, Hs. }
  match goal with |- context [PackConnectionClose ?a ?b ?c ?d ?ccf ?lu ?dl ?rn] =>
    pose proof (PackConnectionClose_no_panic (H1 := flowControlManager_methods (e_cp e)) a b c d ccf lu dl rn level sealFunc
      Hp Eseal) as Hnp; destruct (PackConnectionClose a b c d ccf lu dl rn) as [st [[packet|]|err|]] end; try done. apply He.
Qed.

Lemma endRun_ends e s ce :
  env_ok e -> safe_ok s -> hs_ok s -> small s ->
  exists s' r, endRun render e s ce = Ok (s', r) /\ r <> Panic.
Proof.
  intros He Hs [_ Hl Hev Herr Hcl] Hsm. unfold endRun, sendHandshakeError, sendHandshakeEvent.
  assert (forall s', safe_ok s' -> small s' -> exists s'' r, Ok (handleCloseError render e s' ce) = Ok (s'', r) /\ r <> Panic) as Hend.
  { intros s' Hs' Hsm'. pose proof (handleCloseError_no_panic e s' ce He Hs' Hsm').
    destruct (handleCloseError render e s' ce) as [s'' r]. by exists s'', r. }
  rewrite Herr, Hcl. destruct (tg_handshakeComplete (ss_time s)); cbn [negb rbind]; [by apply Hend|].
  change (len (@nil goerror) >=? handshakeCompleteChanCap) with false. cbn [orb rbind ss_hs set_hs hc_closed hc_handshakeChan].
  unfold len, handshakeChanCap. rewrite Z.geb_leb, (proj2 (Z.leb_gt _ _)) by lia. cbn [rbind].
  apply Hend; [exact Hs|]. by destruct Hsm.
Qed.

Lemma iteration_succeeds s e rounds es ev :
  session_run s -> env_ok e -> Forall env_ok es -> enough rounds es -> step_fits e s ev ->
  match ch_closeChan (ss_ch s) with
  | [] =>
      exists s1, maybeResetTimer e s = Ok s1 /\
      match handleEvent e s1 ev with
      | None => iteration e rounds es s ev = None
      | Some _ =>
          if event_stuck e s ev then iteration e rounds es s ev = Some Panic
          else exists s', iteration e rounds es s ev = Some (Ok s') /\ session_run s'
      end
  | ce :: _ => small s -> exists s' r, endRun render e s ce = Ok (s', r) /\ r <> Panic
  end.
Proof.
  intros Hrun He Hes Hen Hfit. destruct (session_run_safe s Hrun) as (Hl & Hs & Hhs).
  destruct (ch_closeChan (ss_ch s)) as [|ce ces] eqn:Hcl; [|by apply endRun_ends].
  pose proof (iteration_run_safe e rounds es s ev He Hes Hen Hl Hs Hhs Hfit) as Hi.
  destruct (iteration e rounds es s ev) as [r|] eqn:E; unfold iteration in E; rewrite Hcl in E;
    destruct (maybeResetTimer_ok e s Hl) as (s1 & E1 & _); rewrite E1 in E; exists s1; (split; [exact E1|]).
  - destruct (handleEvent e s1 ev) as [r'|] eqn:Ee; [|done]. destruct (event_stuck e s ev); [by rewrite Hi|].
    destruct Hi as (s' & -> & _). exists s'. split; [done|]. eapply (run_iteration e rounds es ev s); try done.
    unfold iteration. by rewrite Hcl, E1, Ee.
  - destruct (handleEvent e s1 ev) as [[[s2 [|]]|err|]|]; done.
Qed.

(** C1: in every run, whatever the peer sends and however the application, the network and
    the timer interleave, also with the framer at work, an iteration of the run loop succeeds:
    the timer is never drained in vain, handling the event neither panics nor blocks,
    [sendPacket] comes to its end within [MaxTrackedSentPackets] rounds, each with at most one
    environment per packet to send again, and when the session is closed the run ends without
    blocking.  The loop waits only if no event is ready.  The one exception is a client that
    gets a diversification nonce when the goroutine of its crypto setup does not come to
    receive it: then the loop blocks.  [step_fits] and [small] bound the sizes: packet numbers of the peer
    below 2^48, own ones below 2^46, and at most 2^31 open streams. *)
Theorem session_never_fails s e rounds es ev :
  session_run s -> env_ok e -> Forall env_ok es -> enough rounds es -> step_fits e s ev ->
  match ch_closeChan (ss_ch s) with
  | [] =>
      exists s1, maybeResetTimer e s = Ok s1 /\
      match handleEvent e s1 ev with
      | None => iteration e rounds es s ev = None
      | Some _ =>
          if event_stuck e s ev then iteration e rounds es s ev = Some Panic
          else exists s', iteration e rounds es s ev = Some (Ok s') /\ session_run s'
      end
  | ce :: _ => small s -> exists s' r, endRun render e s ce = Ok (s', r) /\ r <> Panic
  end.
Proof. apply iteration_succeeds. Qed.

(** A packet from the network never makes the session panic, in any state of any run.
    The errors that close the connection are those of unpacking the packet, and those of a fixed
    list of violations by the peer. *)
Theorem received_packet_handled s e p :
  let pn := InferPacketNumber (ph_PacketNumberLen (rp_publicHeader p)) (ss_largestRcvdPacketNumber s)
              (ph_PacketNumber (rp_publicHeader p)) in
  session_run s -> env_ok e -> packet_ok p -> pn < 2 ^ 48 -> nonce_stuck e s p = false ->
  let '(s', p', r) := handlePacketImpl e s p in
  ph_PacketNumber (rp_publicHeader p') = pn /\
  match r with
  | Ok _ => True
  | Err err => peerError err = true \/
      @Unpack {| Open := CryptoOpen (e_crypto e) |} (ph_Raw (rp_publicHeader p)) (rp_publicHeader p') (rp_data p) = Err err
  | Panic => False
  end.
Proof.
  cbv zeta. intros Hrun He Hp Hpn Hst. destruct (session_run_safe s Hrun) as (Hl & Hs & _).
  pose proof (handlePacketImpl_safe pers e s p He Hl Hs Hp Hpn Hst) as Hh.
  assert ((handlePacketImpl e s p).1.2 = inferInPlace e s p) as E2.
  { unfold handlePacketImpl. cbv zeta. destruct (_ && negb (e_receives e)); [done|]. destruct (Unpack _ _ _) as [packet|err|]; [by destruct (handleUnpacked _ _ _ _)|by case_if|done]. }
  destruct (handlePacketImpl e s p) as [[s' p'] r]. simpl in E2. subst p'. destruct Hh as (_ & _ & Hr). by split.
Qed.
End run.
