(* ===== verification/SessionSamples.v ===== *)
(** * Runs of the session

    Concrete runs of the run loop, from a new session, that reach the states of the theorems of
    Session.v: packets that are not encrypted, and a congestion window of a fixed size. *)

From S2P Require Import Prelude Protocol Qerr Wire Frames AckFrame Frame ReceivedPackets PublicHeader PacketUnpacker.
From S2P Require Import StreamFrameSorter Handshake FlowControl RTTStats SendAlgorithm SentPackets.
From S2P Require Import PacketNumberGenerator StreamsMap Stream StreamFramer PacketPacker Session SessionSafety SessionSend SessionRun.

(** ** An environment *)

(** The crypto setup has its keys or not. *)
#[local] Instance runCrypto : CryptoSetup bool :=
  {| CryptoOpen (keys : bool) src _ _ :=
       if keys then Ok (src, EncryptionForwardSecure) else Err (QuicError DecryptionFailure (Msg ""));
     GetSealer _ := (EncryptionForwardSecure, plainSeal);
     GetSealerWithEncryptionLevel _ _ := Ok plainSeal;
     DiversificationNonce _ := replicate 32 0 |}.

(** A congestion window that does not change *)
Definition fixedWindow : SendAlgorithm :=
  {| SA_state := Z;
     OnPacketSent c _ _ _ _ r := (c, r);
     GetCongestionWindow c := c;
     MaybeExitSlowStart c _ := c;
     OnPacketAcked c _ _ _ _ _ := c;
     OnPacketLost c _ _ _ := c;
     OnRetransmissionTimeout c _ := c;
     RetransmissionDelay _ rtt := SmoothedRTT rtt + 4 * MeanDeviation rtt |}.
#[local] Existing Instance fixedWindow.
#[local] Instance fixedWindowLaws : SendAlgorithmLaws fixedWindow.
Proof. refine {| SA_ok _ := True |}; try done. intros c rtt _ ? ? ?. simpl. lia. Defined.

(** With its keys, the crypto setup has also sent both encryption levels and closed the channel. *)
Definition runEnv (keys : bool) (now : Z) : env :=
  mkEnv now sampleParams keys 0 [1] (Ok (0, 0)) (Ok tt) noSteps
    (if keys then [EncryptionSecure; EncryptionForwardSecure] else []) keys true.

Definition ms (n : Z) : Z := n * Millisecond.

Definition pingPacket (pn : Z) (feedback : option (list Z)) : receivedPacket :=
  mkReceivedPacket 7 (mkPublicHeader [] 42 false false false 6 pn 0 [] []) [0x07] 0 feedback.

(** A step of a run: an event of the loop, a packet from the network, or the timer's expiry *)
Inductive run_op : Type :=
| Loop (keys : bool) (now : Z) (ev : event)
| Arrive (p : receivedPacket)
| Expire.

Definition run_op_step (s : session) (o : run_op) : option session :=
  match o with
  | Loop keys now ev =>
      match iteration (runEnv keys now) 4 (replicate 8 (runEnv keys now)) s ev with
      | Some (Ok s) => Some s
      | _ => None
      end
  | Arrive p => Some (handlePacket s p)
  | Expire =>
      match tm_running (tg_timer (ss_time s)) with
      | Some _ => Some (set_time s (set_timer (ss_time s) (mkTimer None true) (tg_currentDeadline (ss_time s))
                                      (tg_timerRead (ss_time s))))
      | None => None
      end
  end.

Fixpoint run_ops (s : session) (os : list run_op) : option session :=
  match os with
  | [] => Some s
  | o :: os => match run_op_step s o with Some s => run_ops s os | None => None end
  end.

Lemma run_ops_reach s os s' :
  session_reach (C := bool) (A := connectionParametersManager) s -> run_ops s os = Some s' ->
  session_reach (C := bool) (A := connectionParametersManager) s'.
Proof.
  revert s. induction os as [|o os IH]; intros s Hs E; [by injection E as <-|]. simpl in E.
  destruct (run_op_step s o) as [s1|] eqn:E1; [|done]. apply (IH s1); [|done].
  eapply reach_step; [exact Hs|]. destruct o as [keys now ev|p|]; simpl in E1.
  - destruct (iteration _ _ _ _ _) as [[s2|err|]|] eqn:E2; try done. injection E1 as <-. by eapply step_iteration.
  - injection E1 as <-. apply step_concurrent, step_packet.
  - destruct (tm_running _) as [d|] eqn:E2; [|done]. injection E1 as <-. by eapply step_concurrent, step_expire.
Qed.

Definition session0 (window : Z) : session := newSession true 42 Version36 (runEnv true (ms 1)) NewRTTStats window.

Lemma session0_reach window : session_reach (C := bool) (A := connectionParametersManager) (session0 window).
Proof. apply reach_server. Qed.

(** The first packet is answered, which fills the window; an ACK is due for the second one. *)
Definition ackRun : list run_op :=
  [Arrive (pingPacket 1 (Some [1; 2; 3])); Loop true (ms 2) PacketReceived; Loop true (ms 3) SendingScheduled;
   Arrive (pingPacket 2 None); Loop true (ms 4) PacketReceived; Loop true (ms 5) AeadChanged;
   Loop true (ms 5) AeadChanged; Loop true (ms 5) AeadChanged; Expire].

Definition ackState : session := default (session0 10) (run_ops (session0 10) ackRun).

Lemma ackState_reach : session_reach (C := bool) (A := connectionParametersManager) ackState.
Proof. apply (run_ops_reach (session0 10) ackRun); [apply session0_reach|]. by vm_compute. Qed.

(** Eleven packets arrive before the keys; then they are decrypted, the handshake completes, and
    the timer expires for the public reset that is not needed any more. *)
Definition undecryptableRun : list run_op :=
  flat_map (fun i => [Arrive (pingPacket (Z.of_nat i) None); Loop false (ms (1 + Z.of_nat i)) PacketReceived]) (seq 1 11)
  ++ [Loop true (ms 20) AeadChanged]
  ++ map (fun i => Loop true (ms (20 + Z.of_nat i)) PacketReceived) (seq 1 10)
  ++ [Loop true (ms 40) AeadChanged; Expire; Loop true (ms 56) TimerFired;
      Loop true (ms 57) AeadChanged; Expire; Loop true (ms 513) TimerFired].

Definition undecryptableState : session := default (session0 10000) (run_ops (session0 10000) undecryptableRun).

Lemma undecryptableState_reach : session_reach (C := bool) (A := connectionParametersManager) undecryptableState.
Proof. apply (run_ops_reach (session0 10000) undecryptableRun); [apply session0_reach|]. by vm_compute. Qed.


(** ** The witnesses *)

Lemma run_loop_timer_set_witness :
  exists s', maybeResetTimer (runEnv true (ms 30)) ackState = Ok s' /\ nextDeadline (runEnv true (ms 30)) s' = ms 29.
Proof.
  assert (nextDeadline (runEnv true (ms 30)) ackState = ms 29) as Ed by (by vm_compute).
  destruct (run_loop_timer_set ackState (runEnv true (ms 30)) ackState_reach) as (s' & E & Es & _);
    [rewrite Ed; discriminate|]. exists s'. split; [exact E|]. by rewrite Es.
Defined.

Lemma session_closes_once_witness :
  exists s', registerClose (session0 10) None false = (s', Ok tt) /\
    ch_closeChan (ss_ch s') = [mkCloseError (ErrorCodeErr PeerGoingAway) false].
Proof.
  destruct (session_closes_once (C := bool) (A := connectionParametersManager) (session0 10) None false (session0_reach 10))
    as (_ & s' & E & Hs). exists s'. split; [exact E|]. by apply (Hs s' (rtc_refl _ _)).
Defined.

Lemma expired_ack_stops_timer_witness :
  exists s', iteration (runEnv true (ms 30)) 4 [] ackState TimerFired = Some (Ok s') /\
    forall now rounds es ev, ev ∈ [TimerFired; SendingScheduled; PacketReceived] ->
      iteration (runEnv true now) rounds es s' ev = None.
Proof.
  destruct (expired_ack_stops_timer (runEnv true (ms 30)) 4 [] ackState) as (s' & E & Hs);
    [by vm_compute..|vm_compute; split; discriminate|vm_compute; reflexivity|].
  exists s'. split; [exact E|]. intros now rounds es ev Hev. by apply Hs.
Defined.

Lemma idle_iterations_back_off_witness :
  exists s', afterEvent (runEnv true (ms 2)) 4 (replicate 8 (runEnv true (ms 2))) (session0 10) = Ok s' /\
    rtoCount (ss_sph s') = 1.
Proof.
  destruct (afterEvent (runEnv true (ms 2)) 4 (replicate 8 (runEnv true (ms 2))) (session0 10)) as [s'|err|] eqn:E;
    [|vm_compute in E; discriminate..].
  exists s'. split; [reflexivity|].
  rewrite (idle_iterations_back_off (runEnv true (ms 2)) 4 (replicate 8 (runEnv true (ms 2))) (session0 10) s');
    [by vm_compute|vm_compute; reflexivity..|exact E].
Defined.

(** A packet with a WINDOW_UPDATE frame of the connection, which is lost *)
Definition lostWindowUpdate : sentPacketHandler :=
  let h := (SentPacket (ss_sph (session0 10000))
    (mkPacket 1 [FWindowUpdate (mkWindowUpdateFrame 0 70000)] 100 EncryptionForwardSecure 0) (ms 2) (ms 2)).1 in
  OnAlarm h (ms 1000) (ms 1000).

Lemma connection_window_update_not_resent_witness :
  len (retransmissionQueue lostWindowUpdate) = 1 /\
  exists s', resendPackets [runEnv true (ms 1001)] (set_sph (session0 10000) lostWindowUpdate) [] = ([], s', Ok []) /\
    retransmissionQueue (ss_sph s') = [].
Proof.
  split; [by vm_compute|].
  destruct (DequeuePacketForRetransmission lostWindowUpdate) as [h [p|]] eqn:E; [|vm_compute in E; discriminate].
  rewrite (connection_window_update_not_resent (runEnv true (ms 1001)) [] (set_sph (session0 10000) lostWindowUpdate) h p 70000 []);
    [|exact E|vm_compute in E; injection E as _ <-; reflexivity..|by vm_compute].
  exists (set_sph (set_sph (session0 10000) lostWindowUpdate) h). vm_compute in E. injection E as <- _.
  split; vm_compute; reflexivity.
Defined.

Lemma undecryptable_time_stops_timer_witness :
  ch_undecryptablePackets (ss_ch undecryptableState) = [] /\
  forall now, iteration (runEnv true now) 4 [] undecryptableState TimerFired = None.
Proof.
  split; [by vm_compute|]. intros now.
  apply (undecryptable_time_stops_timer (runEnv true now) 4 [] undecryptableState);
    [vm_compute; discriminate|by vm_compute..|vm_compute; discriminate|vm_compute; intros Hn; by destruct Hn|].
  intros _. vm_compute. discriminate.
Defined.

Lemma session0_packer window : pst_packer (ss_pack (session0 window)) = newPacketPacker 42 PerspectiveServer Version36.
Proof. reflexivity. Qed.

Lemma session0_params level :
  header_params (pst_packer (ss_pack (session0 10))) true sampleParams level 1.
Proof.
  rewrite session0_packer. constructor; simpl; unfold Peek, Version36; simpl; intros; first [lia | discriminate | reflexivity].
Qed.

Lemma session0_arrives level :
  arrives (samplePeer level) (pst_packer (ss_pack (session0 10))) plainSeal level 1 0.
Proof. rewrite session0_packer. constructor; [apply plainSeal_seals| |]; simpl; unfold Peek; simpl; lia. Qed.

Lemma runEnv_ok now : 0 < now -> env_ok (ok := params_ok) PerspectiveServer (runEnv true now).
Proof. intros Hnow. by constructor. Qed.

Lemma session0_run window : session_run (C := bool) (ok := params_ok) PerspectiveServer (session0 window).
Proof. by apply run_server. Qed.

Lemma session0_small window : small (session0 window).
Proof.
  constructor; by vm_compute.
Qed.

Lemma small_schedule s : small s -> small (scheduleSending s).
Proof. intros [? ?]. by constructor. Qed.

Lemma session0_map window : sm_ok s_streamID (pst_streams (ss_pack (session0 window))).
Proof. apply (session_run_safe _ _ (session0_run window)). Qed.

Lemma close_error_outcome_witness :
  exists s' r raw,
    handleCloseError (fun _ => [98; 121; 101]) (runEnv true (ms 2)) (session0 10)
      (mkCloseError (ErrorCodeErr PeerGoingAway) false) = (s', r) /\
    ss_out s' = [Written raw] /\
    @receive (samplePeer EncryptionForwardSecure) PerspectiveServer 0 raw =
    Ok (mkUnpackedPacket EncryptionForwardSecure [FConnectionClose (mkConnectionCloseFrame PeerGoingAway [98; 121; 101])]).
Proof.
  pose proof (close_error_outcome (fun _ => [98; 121; 101]) (runEnv true (ms 2)) (session0 10)
    (mkCloseError (ErrorCodeErr PeerGoingAway) false) EncryptionForwardSecure plainSeal
    (samplePeer EncryptionForwardSecure) 0 (session0_map 10) (session0_params _) (session0_arrives _) eq_refl
    ltac:(by vm_compute)) as Hc.
  rewrite decide_False in Hc by discriminate. destruct Hc as (s' & r & written & E & Eo & _ & _ & Hw).
  cbn [ce_remote ce_err] in Hw.
  match type of Hw with if ?a then _ else if ?b then _ else _ =>
    replace a with false in Hw by (by vm_compute); replace b with true in Hw by (by vm_compute) end.
  destruct Hw as (_ & raw & -> & Hrecv). exists s', r, raw. by split_and!.
Defined.

Lemma session_never_fails_witness :
  let es := replicate 4000 (runEnv true (ms 3)) in
  exists s', iteration (runEnv true (ms 2)) 2000 es (scheduleSending (session0 10)) SendingScheduled = Some (Ok s') /\
    session_run (C := bool) (ok := params_ok) PerspectiveServer s'.
Proof.
  cbv zeta.
  destruct (session_never_fails (ok := params_ok) PerspectiveServer (fun _ => []) (scheduleSending (session0 10)) (runEnv true (ms 2)) 2000
    (replicate 4000 (runEnv true (ms 3))) SendingScheduled) as (s1 & E1 & Hs).
  - apply (run_outside _ (session0 10)); [apply session0_run|]. apply (out_removed _ [OnData]). by constructor.
  - by apply runEnv_ok.
  - apply Forall_replicate. by apply runEnv_ok.
  - split; [by vm_compute|]. unfold len. rewrite length_replicate. by vm_compute.
  - apply sendingScheduled_fits; [exact I|]. apply small_schedule, session0_small.
  - apply maybeResetTimer_time in E1 as [t ->]. destruct Hs as (s' & E & Hs'). exists s'. by split.
Defined.

Lemma received_packet_handled_witness :
  let '(_, p', r) := handlePacketImpl (runEnv true (ms 2)) (session0 10) (pingPacket 1 (Some [1; 2; 3])) in
  ph_PacketNumber (rp_publicHeader p') = 1 /\ r <> Panic.
Proof.
  pose proof (received_packet_handled (ok := params_ok) PerspectiveServer (session0 10) (runEnv true (ms 2))
    (pingPacket 1 (Some [1; 2; 3])) (session0_run 10) (runEnv_ok (ms 2) ltac:(done))) as Hh.
  destruct (handlePacketImpl _ _ _) as [[s' p'] r]. destruct Hh as [E Hr]; [|by vm_compute|done|].
  - constructor; [by repeat constructor|by vm_compute|by vm_compute|]. intros d [= <-]. by vm_compute.
  - split; [|destruct r; [discriminate..|destruct Hr]]. rewrite E. change (ss_largestRcvdPacketNumber (session0 10)) with 0. vm_compute. reflexivity.
Defined.
