(* ===== verification/CertDict.v ===== *)
(** * crypto/cert_dict.go: the dictionary of the certificate compression *)

From S2P Require Import Prelude.

Definition certDictZlib : list Z := [
  4; 2; 48; 0; 48; 29; 6; 3; 85; 29; 37; 4; 22; 48; 20; 6; 8; 43; 6; 1; 5; 5; 7; 3;
  1; 6; 8; 43; 6; 1; 5; 5; 7; 3; 2; 48; 95; 6; 9; 96; 134; 72; 1; 134; 248; 66; 4; 1;
  6; 6; 11; 96; 134; 72; 1; 134; 253; 109; 1; 7; 23; 1; 48; 51; 32; 69; 120; 116; 101; 110; 100; 101;
  100; 32; 86; 97; 108; 105; 100; 97; 116; 105; 111; 110; 32; 83; 32; 76; 105; 109; 105; 116; 101; 100; 49; 52;
  32; 83; 83; 76; 32; 67; 65; 48; 30; 23; 13; 49; 50; 32; 83; 101; 99; 117; 114; 101; 32; 83; 101; 114;
  118; 101; 114; 32; 67; 65; 48; 45; 97; 105; 97; 46; 118; 101; 114; 105; 115; 105; 103; 110; 46; 99; 111; 109;
  47; 69; 45; 99; 114; 108; 46; 118; 101; 114; 105; 115; 105; 103; 110; 46; 99; 111; 109; 47; 69; 46; 99; 101;
  114; 48; 13; 6; 9; 42; 134; 72; 134; 247; 13; 1; 1; 5; 5; 0; 3; 130; 1; 1; 0; 74; 46; 99;
  111; 109; 47; 114; 101; 115; 111; 117; 114; 99; 101; 115; 47; 99; 112; 115; 32; 40; 99; 41; 48; 48; 9; 6;
  3; 85; 29; 19; 4; 2; 48; 0; 48; 29; 48; 13; 6; 9; 42; 134; 72; 134; 247; 13; 1; 1; 5; 5;
  0; 3; 130; 1; 1; 0; 123; 48; 29; 6; 3; 85; 29; 14; 48; 130; 1; 34; 48; 13; 6; 9; 42; 134;
  72; 134; 247; 13; 1; 1; 1; 5; 0; 3; 130; 1; 15; 0; 48; 130; 1; 10; 2; 130; 1; 1; 0; 210;
  111; 100; 111; 99; 97; 46; 99; 111; 109; 47; 67; 46; 99; 114; 108; 48; 29; 6; 3; 85; 29; 14; 4; 22;
  4; 20; 180; 46; 103; 108; 111; 98; 97; 108; 115; 105; 103; 110; 46; 99; 111; 109; 47; 114; 48; 11; 6; 3;
  85; 29; 15; 4; 4; 3; 2; 1; 48; 13; 6; 9; 42; 134; 72; 134; 247; 13; 1; 1; 5; 5; 0; 48;
  129; 202; 49; 11; 48; 9; 6; 3; 85; 4; 6; 19; 2; 85; 83; 49; 16; 48; 14; 6; 3; 85; 4; 8;
  19; 7; 65; 114; 105; 122; 111; 110; 97; 49; 19; 48; 17; 6; 3; 85; 4; 7; 19; 10; 83; 99; 111; 116;
  116; 115; 100; 97; 108; 101; 49; 26; 48; 24; 6; 3; 85; 4; 10; 19; 17; 71; 111; 68; 97; 100; 100; 121;
  46; 99; 111; 109; 44; 32; 73; 110; 99; 46; 49; 51; 48; 49; 6; 3; 85; 4; 11; 19; 42; 104; 116; 116;
  112; 58; 47; 47; 99; 101; 114; 116; 105; 102; 105; 99; 97; 116; 101; 115; 46; 103; 111; 100; 97; 100; 100; 121;
  46; 99; 111; 109; 47; 114; 101; 112; 111; 115; 105; 116; 111; 114; 121; 49; 48; 48; 46; 6; 3; 85; 4; 3;
  19; 39; 71; 111; 32; 68; 97; 100; 100; 121; 32; 83; 101; 99; 117; 114; 101; 32; 67; 101; 114; 116; 105; 102;
  105; 99; 97; 116; 105; 111; 110; 32; 65; 117; 116; 104; 111; 114; 105; 116; 121; 49; 17; 48; 15; 6; 3; 85;
  4; 5; 19; 8; 48; 55; 57; 54; 57; 50; 56; 55; 48; 30; 23; 13; 49; 49; 48; 14; 6; 3; 85; 29;
  15; 1; 1; 255; 4; 4; 3; 2; 5; 160; 48; 12; 6; 3; 85; 29; 19; 1; 1; 255; 4; 2; 48; 0;
  48; 29; 48; 15; 6; 3; 85; 29; 19; 1; 1; 255; 4; 5; 48; 3; 1; 1; 0; 48; 29; 6; 3; 85;
  29; 37; 4; 22; 48; 20; 6; 8; 43; 6; 1; 5; 5; 7; 3; 1; 6; 8; 43; 6; 1; 5; 5; 7;
  3; 2; 48; 14; 6; 3; 85; 29; 15; 1; 1; 255; 4; 4; 3; 2; 5; 160; 48; 51; 6; 3; 85; 29;
  31; 4; 44; 48; 42; 48; 40; 160; 38; 160; 36; 134; 34; 104; 116; 116; 112; 58; 47; 47; 99; 114; 108; 46;
  103; 111; 100; 97; 100; 100; 121; 46; 99; 111; 109; 47; 103; 100; 115; 49; 45; 50; 48; 42; 48; 40; 6; 8;
  43; 6; 1; 5; 5; 7; 2; 1; 22; 28; 104; 116; 116; 112; 115; 58; 47; 47; 119; 119; 119; 46; 118; 101;
  114; 105; 115; 105; 103; 110; 46; 99; 111; 109; 47; 99; 112; 115; 48; 52; 48; 48; 48; 48; 48; 48; 90; 23;
  13; 49; 51; 48; 53; 48; 57; 6; 8; 43; 6; 1; 5; 5; 7; 48; 2; 134; 45; 104; 116; 116; 112; 58;
  47; 47; 115; 48; 57; 48; 55; 6; 8; 43; 6; 1; 5; 5; 7; 2; 48; 68; 6; 3; 85; 29; 32; 4;
  61; 48; 59; 48; 57; 6; 11; 96; 134; 72; 1; 134; 248; 69; 1; 7; 23; 6; 49; 11; 48; 9; 6; 3;
  85; 4; 6; 19; 2; 71; 66; 49; 27; 83; 49; 23; 48; 21; 6; 3; 85; 4; 10; 19; 14; 86; 101; 114;
  105; 83; 105; 103; 110; 44; 32; 73; 110; 99; 46; 49; 31; 48; 29; 6; 3; 85; 4; 11; 19; 22; 86; 101;
  114; 105; 83; 105; 103; 110; 32; 84; 114; 117; 115; 116; 32; 78; 101; 116; 119; 111; 114; 107; 49; 59; 48; 57;
  6; 3; 85; 4; 11; 19; 50; 84; 101; 114; 109; 115; 32; 111; 102; 32; 117; 115; 101; 32; 97; 116; 32; 104;
  116; 116; 112; 115; 58; 47; 47; 119; 119; 119; 46; 118; 101; 114; 105; 115; 105; 103; 110; 46; 99; 111; 109; 47;
  114; 112; 97; 32; 40; 99; 41; 48; 49; 16; 48; 14; 6; 3; 85; 4; 7; 19; 7; 83; 49; 19; 48; 17;
  6; 3; 85; 4; 11; 19; 10; 71; 49; 19; 48; 17; 6; 11; 43; 6; 1; 4; 1; 130; 55; 60; 2; 1;
  3; 19; 2; 85; 49; 22; 48; 20; 6; 3; 85; 4; 3; 20; 49; 25; 48; 23; 6; 3; 85; 4; 3; 19;
  49; 29; 48; 27; 6; 3; 85; 4; 15; 19; 20; 80; 114; 105; 118; 97; 116; 101; 32; 79; 114; 103; 97; 110;
  105; 122; 97; 116; 105; 111; 110; 49; 18; 49; 33; 48; 31; 6; 3; 85; 4; 11; 19; 24; 68; 111; 109; 97;
  105; 110; 32; 67; 111; 110; 116; 114; 111; 108; 32; 86; 97; 108; 105; 100; 97; 116; 101; 100; 49; 20; 49; 49;
  48; 47; 6; 3; 85; 4; 11; 19; 40; 83; 101; 101; 32; 119; 119; 119; 46; 114; 58; 47; 47; 115; 101; 99;
  117; 114; 101; 46; 103; 71; 108; 111; 98; 97; 108; 83; 105; 103; 110; 49; 83; 101; 114; 118; 101; 114; 67; 65;
  46; 99; 114; 108; 86; 101; 114; 105; 83; 105; 103; 110; 32; 67; 108; 97; 115; 115; 32; 51; 32; 69; 99; 114;
  108; 46; 103; 101; 111; 116; 114; 117; 115; 116; 46; 99; 111; 109; 47; 99; 114; 108; 115; 47; 115; 100; 49; 26;
  48; 24; 6; 3; 85; 4; 10; 104; 116; 116; 112; 58; 47; 47; 69; 86; 73; 110; 116; 108; 45; 99; 99; 114;
  116; 46; 103; 119; 119; 119; 46; 103; 105; 99; 101; 114; 116; 46; 99; 111; 109; 47; 49; 111; 99; 115; 112; 46;
  118; 101; 114; 105; 115; 105; 103; 110; 46; 99; 111; 109; 48; 57; 114; 97; 112; 105; 100; 115; 115; 108; 46; 99;
  111; 115; 46; 103; 111; 100; 97; 100; 100; 121; 46; 99; 111; 109; 47; 114; 101; 112; 111; 115; 105; 116; 111; 114;
  121; 47; 48; 129; 128; 6; 8; 43; 6; 1; 5; 5; 7; 1; 1; 4; 116; 48; 114; 48; 36; 6; 8; 43;
  6; 1; 5; 5; 7; 48; 1; 134; 24; 104; 116; 116; 112; 58; 47; 47; 111; 99; 115; 112; 46; 103; 111; 100;
  97; 100; 100; 121; 46; 99; 111; 109; 47; 48; 74; 6; 8; 43; 6; 1; 5; 5; 7; 48; 2; 134; 62; 104;
  116; 116; 112; 58; 47; 47; 99; 101; 114; 116; 105; 102; 105; 99; 97; 116; 101; 115; 46; 103; 111; 100; 97; 100;
  100; 121; 46; 99; 111; 109; 47; 114; 101; 112; 111; 115; 105; 116; 111; 114; 121; 47; 103; 100; 95; 105; 110; 116;
  101; 114; 109; 101; 100; 105; 97; 116; 101; 46; 99; 114; 116; 48; 31; 6; 3; 85; 29; 35; 4; 24; 48; 22;
  128; 20; 253; 172; 97; 50; 147; 108; 69; 214; 226; 238; 133; 95; 154; 186; 231; 118; 153; 104; 204; 231; 48; 39;
  134; 41; 104; 116; 116; 112; 58; 47; 47; 99; 134; 48; 104; 116; 116; 112; 58; 47; 47; 115].
