(* ===== verification/Crypto.v ===== *)
(** * Package crypto: packet protection, key exchange and tokens

    The AEADs of the connection (null_aead.go, aesgcm_aead.go, nonce.go), the keys derived
    for them (key_derivation.go), the key exchange (curve_25519.go) and the source address
    tokens (source_address_token.go).  The primitives are parameters, each a class with the
    laws that its documentation gives: the FNV-128a hash and AES-GCM with 12-byte tags of
    the author's packages, HKDF and Curve25519 of golang.org/x/crypto, and AES-GCM of the
    standard library for the tokens.  Random bytes and the clock are arguments. *)

From S2P Require Import Prelude Protocol Wire.

(** [[]byte(s)] *)
Definition bytes_of (s : string) : list Z :=
  map (fun c => Z.of_nat (Ascii.nat_of_ascii c)) (String.list_ascii_of_string s).

(** The slices of [binary.BigEndian.PutUint32] *)
Definition be_bytes (n : nat) (i : Z) : list Z := rev (le_bytes n i).

(** Literal byte strings *)
Lemma bytes_ok_check l : forallb (fun b => (0 <=? b) && (b <? 256)) l = true -> bytes_ok l.
Proof.
  intros Hl. apply Forall_forall. intros b Hb. rewrite forallb_forall in Hl.
  specialize (Hl b ltac:(by apply list_elem_of_In)). to_prop. unfold is_u8. lia.
Qed.

(** What [rand.Read] does with a buffer: it fills it, or fails. *)
Definition randomness : Type := res (list Z).
Definition random_ok (n : Z) (r : randomness) : Prop :=
  match r with Ok l => bytes_ok l /\ len l = n | Err _ => True | Panic => False end.

(** ** crypto/nonce.go *)

Definition makeNonce (iv : list Z) (packetNumber : Z) : list Z :=
  take 4 (iv ++ replicate 4 0) ++ le_bytes 8 (u64 packetNumber).

(** ** crypto/null_aead.go *)

(** [fnv128a.New] and [Sum128] of the bytes written *)
Class Fnv128a : Type := { Sum128 : list Z -> Z * Z }.
Class Fnv128aLaws (F : Fnv128a) : Prop := {
  Sum128_u64 l : is_u64 (Sum128 l).1 /\ is_u64 (Sum128 l).2;
}.

Record nullAEAD : Type := mkNullAEAD {
  na_perspective : Perspective;
  na_version : Z;
}.

Definition NewNullAEAD (p : Perspective) (v : Z) : nullAEAD := mkNullAEAD p v.

Definition nullAEAD_Open `{Fn : Fnv128a} (n : nullAEAD) (src : list Z) (packetNumber : Z)
    (associatedData : list Z) : res (list Z) :=
  if len src <? 12
  then Err (ErrNew "NullAEAD: ciphertext cannot be less than 12 bytes long")
  else
    let hash := associatedData ++ drop 12 src in
    let hash :=
      if na_version n >=? Version37 then
        hash ++ (if is_server (na_perspective n) then bytes_of "Client" else bytes_of "Server")
      else hash in
    let '(testHigh, testLow) := Sum128 hash in
    let low := le_value (take 8 src) in
    let high := le_value (take 4 (drop 8 src)) in
    if negb (u32 (Z.land testHigh 0xffffffff) =? high) || negb (testLow =? low)
    then Err (ErrNew "NullAEAD: failed to authenticate received data")
    else Ok (drop 12 src).

Definition nullAEAD_Seal `{Fn : Fnv128a} (n : nullAEAD) (src : list Z) (packetNumber : Z)
    (associatedData : list Z) : list Z :=
  let hash := associatedData ++ src in
  let hash :=
    if na_version n >=? Version37 then
      hash ++ (if is_server (na_perspective n) then bytes_of "Server" else bytes_of "Client")
    else hash in
  let '(high, low) := Sum128 hash in
  le_bytes 8 low ++ le_bytes 4 (u32 high) ++ src.

(** ** crypto/aesgcm_aead.go *)

(** Package aes12: [NewGCM] of the [NewCipher] of a key, and the AEAD it returns *)
Class Aes12 : Type := {
  aes12_AEAD : Type;
  aes12_New : list Z -> res aes12_AEAD;
  aes12_Seal : aes12_AEAD -> list Z -> list Z -> list Z -> list Z;
  aes12_Open : aes12_AEAD -> list Z -> list Z -> list Z -> res (list Z);
}.
Class Aes12Laws (A : Aes12) : Prop := {
  aes12_New_ok key : len key = 16 -> exists g, aes12_New key = Ok g;
  aes12_Open_Seal g nonce plaintext ad :
    len nonce = 12 -> bytes_ok plaintext ->
    aes12_Open g nonce (aes12_Seal g nonce plaintext ad) ad = Ok plaintext;
  aes12_Seal_len g nonce plaintext ad :
    len nonce = 12 -> len (aes12_Seal g nonce plaintext ad) = len plaintext + 12;
  aes12_Seal_bytes g nonce plaintext ad :
    len nonce = 12 -> bytes_ok plaintext -> bytes_ok (aes12_Seal g nonce plaintext ad);
  aes12_Open_safe g nonce ciphertext ad :
    len nonce = 12 -> bytes_ok ciphertext -> safe (aes12_Open g nonce ciphertext ad) bytes_ok;
}.

Record aeadAESGCM `{Ae : Aes12} : Type := mkAeadAESGCM {
  ag_otherIV : list Z;
  ag_myIV : list Z;
  ag_encrypter : aes12_AEAD;
  ag_decrypter : aes12_AEAD;
}.

Definition NewAEADAESGCM `{Ae : Aes12} (otherKey myKey otherIV myIV : list Z) : res aeadAESGCM :=
  if negb (len myKey =? 16) || negb (len otherKey =? 16) || negb (len myIV =? 4) || negb (len otherIV =? 4)
  then Err (ErrNew "AES-GCM: expected 16-byte keys and 4-byte IVs")
  else
    let! encrypter := aes12_New myKey in
    let! decrypter := aes12_New otherKey in
    Ok (mkAeadAESGCM _ otherIV myIV encrypter decrypter).

Definition aeadAESGCM_Open `{Ae : Aes12} (aead : aeadAESGCM) (src : list Z) (packetNumber : Z)
    (associatedData : list Z) : res (list Z) :=
  aes12_Open (ag_decrypter aead) (makeNonce (ag_otherIV aead) packetNumber) src associatedData.

Definition aeadAESGCM_Seal `{Ae : Aes12} (aead : aeadAESGCM) (src : list Z) (packetNumber : Z)
    (associatedData : list Z) : list Z :=
  aes12_Seal (ag_encrypter aead) (makeNonce (ag_myIV aead) packetNumber) src associatedData.

(** ** crypto/key_derivation.go *)

(** [hkdf.New(sha256.New, secret, salt, info)]: the 255 blocks of output that the reader
    gives, one after the other *)
Class Hkdf : Type := { hkdf_New : list Z -> list Z -> list Z -> list Z }.
Class HkdfLaws (K : Hkdf) : Prop := {
  hkdf_len secret salt info : len (hkdf_New secret salt info) = 255 * 32;
}.

(** [io.ReadFull] of [n] bytes from the reader *)
Definition hkdf_Read (r : list Z) (n : Z) : res (list Z * list Z) :=
  if n <=? len r then Ok (take (Z.to_nat n) r, drop (Z.to_nat n) r)
  else Err (ErrNew "hkdf: entropy limit reached").

Definition diversify `{Hk : Hkdf} (key iv divNonce : list Z) : res (list Z * list Z) :=
  let secret := key ++ iv in
  let r := hkdf_New secret divNonce (bytes_of "QUIC key diversification") in
  let! (key, r) := hkdf_Read r (len key) in
  let! (iv, r) := hkdf_Read r (len iv) in
  Ok (key, iv).

(** The keys and IVs: other's key, own key, other's IV, own IV *)
Definition deriveKeys `{Hk : Hkdf} (forwardSecure : bool) (sharedSecret nonces : list Z) (connID : Z)
    (chlo scfg cert divNonce : list Z) (keyLen : Z) (swap : bool)
    : res (list Z * list Z * list Z * list Z) :=
  let info :=
    (if forwardSecure then bytes_of "QUIC forward secure key expansion" ++ [0]
     else bytes_of "QUIC key expansion" ++ [0]) in
  let info := WriteUint64 info (u64 connID) in
  let info := info ++ chlo ++ scfg ++ cert in
  let r := hkdf_New sharedSecret nonces info in
  let! (s, r) := hkdf_Read r (2 * keyLen + 2 * 4) in
  let key1 := take (Z.to_nat keyLen) s in
  let key2 := take (Z.to_nat keyLen) (drop (Z.to_nat keyLen) s) in
  let iv1 := take 4 (drop (Z.to_nat (2 * keyLen)) s) in
  let iv2 := drop (Z.to_nat (2 * keyLen + 4)) s in
  let! (key2, iv2) :=
    (if negb forwardSecure then diversify key2 iv2 divNonce else Ok (key2, iv2)) in
  if swap then Ok (key2, key1, iv2, iv1) else Ok (key1, key2, iv1, iv2).

Definition DeriveKeysAESGCM `{Hk : Hkdf, Ae : Aes12} (forwardSecure : bool) (sharedSecret nonces : list Z)
    (connID : Z) (chlo scfg cert divNonce : list Z) (pers : Perspective) : res aeadAESGCM :=
  let swap := is_client pers in
  let! (otherKey, myKey, otherIV, myIV) :=
    deriveKeys forwardSecure sharedSecret nonces connID chlo scfg cert divNonce 16 swap in
  NewAEADAESGCM otherKey myKey otherIV myIV.

(** ** crypto/curve_25519.go *)

(** Package curve25519, on 32-byte scalars and points *)
Class Curve25519 : Type := {
  ScalarMult : list Z -> list Z -> list Z;
  ScalarBaseMult : list Z -> list Z;
}.
Class Curve25519Laws (K : Curve25519) : Prop := {
  ScalarMult_bytes n p : len n = 32 -> len p = 32 -> bytes_ok (ScalarMult n p) /\ len (ScalarMult n p) = 32;
  ScalarBaseMult_bytes n : len n = 32 -> bytes_ok (ScalarBaseMult n) /\ len (ScalarBaseMult n) = 32;
  ScalarMult_comm a b : len a = 32 -> len b = 32 ->
    ScalarMult a (ScalarBaseMult b) = ScalarMult b (ScalarBaseMult a);
}.

Record curve25519KEX : Type := mkCurve25519KEX {
  kx_secret : list Z;
  kx_public : list Z;
}.

Definition NewCurve25519KEX `{Cu : Curve25519} (rand : randomness) : res curve25519KEX :=
  match rand with
  | Ok secret =>
      let secret := alter (fun b => Z.land b 248) 0%nat secret in
      let secret := alter (fun b => Z.land b 127) 31%nat secret in
      let secret := alter (fun b => Z.lor b 64) 31%nat secret in
      Ok (mkCurve25519KEX secret (ScalarBaseMult secret))
  | Err _ => Err (ErrNew "Curve25519: could not create private key")
  | Panic => Panic
  end.

Definition PublicKey (c : curve25519KEX) : list Z := kx_public c.

Definition CalculateSharedKey `{Cu : Curve25519} (c : curve25519KEX) (otherPublic : list Z) : res (list Z) :=
  if negb (len otherPublic =? 32) then Err (ErrNew "Curve25519: expected public key of 32 byte")
  else Ok (ScalarMult (kx_secret c) otherPublic).

(** ** crypto/source_address_token.go *)

Definition STKExpiryTimeSec : Z := 24 * 60 * 60.
Definition stkKeySize : Z := 16.
Definition stkNonceSize : Z := 16.

Record sourceAddressToken : Type := mkSourceAddressToken {
  st_sourceAddr : list Z;
  st_timestamp : Z;
}.

Definition serialize (t : sourceAddressToken) : list Z :=
  le_bytes 8 (st_timestamp t) ++ st_sourceAddr t.

Definition parseToken (data : list Z) : res sourceAddressToken :=
  if negb (len data =? 8 + 4) && negb (len data =? 8 + 16)
  then Err (Errorf "invalid STK length: %d" [len data])
  else Ok (mkSourceAddressToken (drop 8 data) (le_value (take 8 data))).

(** [aes.NewCipher] and [cipher.NewGCMWithNonceSize] of the standard library for a nonce of
    16 bytes *)
Class StkGCM : Type := {
  gcm_AEAD : Type;
  gcm_New : list Z -> res gcm_AEAD;
  gcm_Seal : gcm_AEAD -> list Z -> list Z -> list Z;
  gcm_Open : gcm_AEAD -> list Z -> list Z -> res (list Z);
}.
Class StkGCMLaws (G : StkGCM) : Prop := {
  gcm_New_ok key : len key = stkKeySize -> exists g, gcm_New key = Ok g;
  gcm_Open_Seal g nonce plaintext :
    len nonce = stkNonceSize -> bytes_ok plaintext ->
    gcm_Open g nonce (gcm_Seal g nonce plaintext) = Ok plaintext;
  gcm_Seal_bytes g nonce plaintext : len nonce = stkNonceSize -> bytes_ok plaintext ->
    bytes_ok (gcm_Seal g nonce plaintext) /\ len (gcm_Seal g nonce plaintext) = len plaintext + 16;
  gcm_Open_safe g nonce ciphertext :
    len nonce = stkNonceSize -> bytes_ok ciphertext -> safe (gcm_Open g nonce ciphertext) bytes_ok;
}.

Definition deriveKey `{Hk : Hkdf} (secret : list Z) : res (list Z) :=
  let r := hkdf_New secret [] (bytes_of "QUIC source address token key") in
  let! (key, r) := hkdf_Read r stkKeySize in
  Ok key.

(** An [stkSource] is its AEAD. *)
Definition NewStkSource `{Hk : Hkdf, Gc : StkGCM} (secret : list Z) : res gcm_AEAD :=
  let! key := deriveKey secret in
  gcm_New key.

Definition encryptToken `{Gc : StkGCM} (aead : gcm_AEAD) (token : sourceAddressToken) (rand : randomness)
    : res (list Z) :=
  let! nonce := rand in
  Ok (nonce ++ gcm_Seal aead nonce (serialize token)).

(** [now] is the Unix time in seconds. *)
Definition NewToken `{Gc : StkGCM} (s : gcm_AEAD) (sourceAddr : list Z) (now : Z) (rand : randomness)
    : res (list Z) :=
  encryptToken s (mkSourceAddressToken sourceAddr (u64 now)) rand.

Definition VerifyToken `{Gc : StkGCM} (s : gcm_AEAD) (sourceAddr data : list Z) (now : Z) : res unit :=
  if len data <? stkNonceSize then Err (ErrNew "STK too short")
  else
    let nonce := take (Z.to_nat stkNonceSize) data in
    let! res := gcm_Open s nonce (drop (Z.to_nat stkNonceSize) data) in
    let! token := parseToken res in
    if negb (bool_decide (st_sourceAddr token = sourceAddr))
    then Err (ErrNew "invalid source address in STK")
    else if now >? i64 (i64 (st_timestamp token) + STKExpiryTimeSec)
    then Err (ErrNew "STK expired")
    else Ok tt.

(** ** Nonces *)

Lemma len_makeNonce iv pn : len (makeNonce iv pn) = 12.
Proof.
  unfold makeNonce. rewrite len_app, len_le_bytes. unfold len.
  rewrite length_take, length_app, length_replicate. lia.
Qed.

(** Two packets of a connection never use the same nonce: it determines the packet number. *)
Lemma makeNonce_inj iv a b : is_u64 a -> is_u64 b -> makeNonce iv a = makeNonce iv b -> a = b.
Proof.
  unfold makeNonce. intros Ha Hb E%app_inv_head.
  apply (f_equal le_value) in E. rewrite !le_value_bytes in E. calc.
  rewrite !u64_small, !Z.mod_small in E by assumption. exact E.
Qed.

(** ** The null AEAD *)

Definition peer_of (p : Perspective) : Perspective :=
  match p with PerspectiveServer => PerspectiveClient | PerspectiveClient => PerspectiveServer end.

Section null_aead.
Context `{F : Fnv128a, L : !Fnv128aLaws F}.

Lemma nullAEAD_Open_Seal p v src pn ad :
  nullAEAD_Open (NewNullAEAD (peer_of p) v) (nullAEAD_Seal (NewNullAEAD p v) src pn ad) pn ad = Ok src.
Proof.
  unfold nullAEAD_Open, nullAEAD_Seal, NewNullAEAD. cbn [na_version na_perspective].
  match goal with |- context [let '(h, l) := Sum128 ?x in le_bytes 8 _ ++ _] => set (data := x) end.
  destruct (Sum128 data) as [high low] eqn:E. destruct (Sum128_u64 data) as [_ Hl].
  rewrite E in Hl. cbn [snd] in Hl.
  rewrite !len_app, !len_le_bytes, (proj2 (Z.ltb_ge _ _)) by (pose proof (len_nonneg src); lia).
  set (sealed := le_bytes 8 low ++ le_bytes 4 (u32 high) ++ src).
  assert (take 8 sealed = le_bytes 8 low) as -> by by apply take_app_length'; rewrite length_le_bytes.
  assert (drop 8 sealed = le_bytes 4 (u32 high) ++ src) as -> by by apply drop_app_length'; rewrite length_le_bytes.
  rewrite (take_app_length' (le_bytes 4 (u32 high))) by by rewrite length_le_bytes.
  assert (drop 12 sealed = src) as ->
    by (subst sealed; rewrite app_assoc; by apply drop_app_length'; rewrite length_app, !length_le_bytes).
  replace (if v >=? Version37 then _ else ad ++ src) with data by (subst data; by destruct p).
  rewrite E, !le_value_bytes, (Z.mod_small low) by exact Hl. calc. change (8 * Z.of_nat 4) with 32.
  change 4294967295 with (Z.ones 32). rewrite Z.land_ones by lia.
  rewrite !(Z.mod_small (u32 high)) by apply u32_range. unfold u32. rewrite Z.mod_mod by lia.
  by rewrite !Z.eqb_refl.
Qed.

Lemma nullAEAD_Seal_bytes n src pn ad :
  len (nullAEAD_Seal n src pn ad) = len src + 12 /\
  (bytes_ok src -> bytes_ok (nullAEAD_Seal n src pn ad)).
Proof.
  unfold nullAEAD_Seal. destruct (Sum128 _). split.
  - rewrite !len_app, !len_le_bytes. lia.
  - intros. rewrite !bytes_ok_app. auto with quic.
Qed.

Lemma nullAEAD_Open_safe n src pn ad :
  bytes_ok src -> safe (nullAEAD_Open n src pn ad) bytes_ok.
Proof.
  intros Hs. unfold nullAEAD_Open. destruct (_ <? _); [done|]. destruct (Sum128 _).
  destruct (_ || _); [done|]. by apply Forall_drop.
Qed.
End null_aead.

(** ** Key derivation *)

Section keys.
Context `{K : Hkdf, KL : !HkdfLaws K} `{A : Aes12, AL : !Aes12Laws A}.

Lemma hkdf_Read_ok r n : 0 <= n <= len r ->
  exists l r', hkdf_Read r n = Ok (l, r') /\ len l = n /\ len r' = len r - n.
Proof.
  intros Hn. unfold hkdf_Read. rewrite (proj2 (Z.leb_le _ _)) by lia.
  eexists _, _. split; [reflexivity|]. by rewrite len_take, len_drop.
Qed.

Lemma diversify_ok key iv divNonce :
  len key = 16 -> len iv = 4 ->
  exists key' iv', diversify key iv divNonce = Ok (key', iv') /\ len key' = 16 /\ len iv' = 4.
Proof.
  intros Hk Hi. unfold diversify. rewrite Hk, Hi.
  destruct (hkdf_Read_ok (hkdf_New (key ++ iv) divNonce (bytes_of "QUIC key diversification")) 16)
    as (k' & r & -> & Hk' & Hr); [rewrite hkdf_len; lia|]. cbn [rbind].
  destruct (hkdf_Read_ok r 4) as (i' & r' & -> & Hi' & _); [rewrite Hr, hkdf_len; lia|]. cbn [rbind]. eauto.
Qed.

(** The two sides derive the same four values, with the roles of the keys exchanged. *)
Lemma deriveKeys_mirrored fs secret nonces connID chlo scfg cert divNonce :
  exists clientKey serverKey clientIV serverIV,
    len clientKey = 16 /\ len serverKey = 16 /\ len clientIV = 4 /\ len serverIV = 4 /\
    deriveKeys fs secret nonces connID chlo scfg cert divNonce 16 false =
      Ok (clientKey, serverKey, clientIV, serverIV) /\
    deriveKeys fs secret nonces connID chlo scfg cert divNonce 16 true =
      Ok (serverKey, clientKey, serverIV, clientIV).
Proof.
  unfold deriveKeys. cbv zeta. set (r := hkdf_New secret nonces _).
  destruct (hkdf_Read_ok r (2 * 16 + 2 * 4)) as (s & r' & -> & Hs & _); [unfold r; rewrite hkdf_len; lia|].
  cbn [rbind]. calc_nat. set (key1 := take 16 s). set (key2 := take 16 (drop 16 s)).
  set (iv1 := take 4 (drop 32 s)). set (iv2 := drop 36 s).
  assert (len key1 = 16 /\ len key2 = 16 /\ len iv1 = 4 /\ len iv2 = 4) as (H1 & H2 & H3 & H4).
  { unfold key1, key2, iv1, iv2, len in *. rewrite ?length_take, ?length_drop. lia. }
  destruct fs; cbn [negb rbind].
  - exists key1, key2, iv1, iv2. done.
  - destruct (diversify_ok key2 iv2 divNonce H2 H4) as (k & i & -> & Hk & Hi). cbn [rbind].
    exists key1, k, iv1, i. done.
Qed.

Lemma NewAEADAESGCM_ok k1 k2 i1 i2 :
  len k1 = 16 -> len k2 = 16 -> len i1 = 4 -> len i2 = 4 ->
  exists g1 g2, aes12_New k1 = Ok g1 /\ aes12_New k2 = Ok g2 /\
    NewAEADAESGCM k1 k2 i1 i2 = Ok (mkAeadAESGCM _ i1 i2 g2 g1).
Proof.
  intros H1 H2 H3 H4. destruct (aes12_New_ok k1 H1) as [g1 E1]. destruct (aes12_New_ok k2 H2) as [g2 E2].
  exists g1, g2. split; [done|]. split; [done|]. unfold NewAEADAESGCM.
  rewrite H1, H2, H3, H4, E1, E2. done.
Qed.

(** [a] and [b] protect the two directions of one connection: each opens what the other
    seals. *)
Definition paired (a b : aeadAESGCM) : Prop :=
  ag_otherIV a = ag_myIV b /\ ag_myIV a = ag_otherIV b /\
  ag_decrypter a = ag_encrypter b /\ ag_encrypter a = ag_decrypter b.

Lemma paired_sym a b : paired a b -> paired b a.
Proof. unfold paired. intuition. Qed.

Lemma paired_open a b src pn ad :
  paired a b -> bytes_ok src -> aeadAESGCM_Open b (aeadAESGCM_Seal a src pn ad) pn ad = Ok src.
Proof.
  intros (E1 & E2 & E3 & E4) Hsrc. unfold aeadAESGCM_Open, aeadAESGCM_Seal.
  rewrite E2, E4. by apply aes12_Open_Seal; [apply len_makeNonce|].
Qed.

Lemma derived_paired fs secret nonces connID chlo scfg cert divNonce :
  exists server client,
    DeriveKeysAESGCM fs secret nonces connID chlo scfg cert divNonce PerspectiveServer = Ok server /\
    DeriveKeysAESGCM fs secret nonces connID chlo scfg cert divNonce PerspectiveClient = Ok client /\
    paired client server.
Proof.
  destruct (deriveKeys_mirrored fs secret nonces connID chlo scfg cert divNonce)
    as (k1 & k2 & i1 & i2 & H1 & H2 & H3 & H4 & Es & Ec).
  unfold DeriveKeysAESGCM. cbn [is_client is_server negb]. rewrite Es, Ec. cbn [rbind].
  destruct (NewAEADAESGCM_ok k1 k2 i1 i2 H1 H2 H3 H4) as (g1 & g2 & E1 & E2 & ->).
  destruct (NewAEADAESGCM_ok k2 k1 i2 i1 H2 H1 H4 H3) as (g2' & g1' & E2' & E1' & ->).
  eexists _, _. do 2 (split; [reflexivity|]). unfold paired. cbn. split_and!; congruence.
Qed.

(** Keys derived from the same secrets, hello, server config, certificate and nonces are
    always available, and what one side seals for a packet number the other side opens. *)
Theorem derived_keys_interoperate fs secret nonces connID chlo scfg cert divNonce :
  exists server client,
    DeriveKeysAESGCM fs secret nonces connID chlo scfg cert divNonce PerspectiveServer = Ok server /\
    DeriveKeysAESGCM fs secret nonces connID chlo scfg cert divNonce PerspectiveClient = Ok client /\
    forall src pn ad, bytes_ok src ->
      aeadAESGCM_Open server (aeadAESGCM_Seal client src pn ad) pn ad = Ok src /\
      aeadAESGCM_Open client (aeadAESGCM_Seal server src pn ad) pn ad = Ok src.
Proof.
  destruct (derived_paired fs secret nonces connID chlo scfg cert divNonce) as (s & c & Es & Ec & Hp).
  exists s, c. do 2 (split; [done|]). intros src pn ad Hsrc.
  split; apply paired_open; try done. by apply paired_sym.
Qed.
End keys.

(** ** Key exchange *)

Section kex.
Context `{K : Curve25519, L : !Curve25519Laws K}.

Definition kex_ok (c : curve25519KEX) : Prop :=
  len (kx_secret c) = 32 /\ kx_public c = ScalarBaseMult (kx_secret c).

Lemma NewCurve25519KEX_ok rand :
  random_ok 32 rand -> safe (NewCurve25519KEX rand) kex_ok.
Proof.
  destruct rand as [s|e|]; [|done|done]. intros [_ Hs]. cbn. split; [|done]. cbn.
  unfold len in *. by rewrite !length_alter.
Qed.

(** The two parties of an exchange compute the same shared key. *)
Lemma shared_key_agrees a b :
  kex_ok a -> kex_ok b ->
  exists key, CalculateSharedKey a (PublicKey b) = Ok key /\ CalculateSharedKey b (PublicKey a) = Ok key /\
    bytes_ok key /\ len key = 32.
Proof.
  intros [Ha Pa] [Hb Pb]. unfold CalculateSharedKey, PublicKey. rewrite Pa, Pb.
  destruct (ScalarBaseMult_bytes _ Ha) as [_ HA]. destruct (ScalarBaseMult_bytes _ Hb) as [_ HB].
  rewrite HA, HB. cbn [Z.eqb Pos.eqb negb].
  exists (ScalarMult (kx_secret a) (ScalarBaseMult (kx_secret b))). split; [done|].
  rewrite ScalarMult_comm by done. split; [done|]. by apply ScalarMult_bytes.
Qed.

Lemma len_PublicKey c : kex_ok c -> len (PublicKey c) = 32 /\ bytes_ok (PublicKey c).
Proof. intros [Hs E]. unfold PublicKey. rewrite E. destruct (ScalarBaseMult_bytes _ Hs). done. Qed.
End kex.

(** ** Source address tokens *)

Section tokens.
Context `{G : StkGCM, L : !StkGCMLaws G}.

Lemma parseToken_serialize addr t :
  0 <= t < 2 ^ 64 -> len addr = 4 \/ len addr = 16 ->
  parseToken (serialize (mkSourceAddressToken addr t)) = Ok (mkSourceAddressToken addr t).
Proof.
  intros Ht Ha. unfold parseToken, serialize. cbn [st_timestamp st_sourceAddr].
  rewrite len_app, len_le_bytes.
  rewrite (drop_app_length' (le_bytes 8 t)), (take_app_length' (le_bytes 8 t)) by by rewrite length_le_bytes.
  rewrite le_value_bytes. calc. rewrite Z.mod_small by lia.
  destruct Ha as [-> | ->]; done.
Qed.

(** Verifying a token that the server has made at time [t] for [addr], in full. *)
Lemma serialize_bytes addr t : bytes_ok addr -> bytes_ok (serialize (mkSourceAddressToken addr t)).
Proof. intros Ha. unfold serialize. apply bytes_ok_app. split; [apply le_bytes_ok|done]. Qed.

Lemma VerifyToken_NewToken s addr addr' t t' nonce token :
  0 <= t < 2 ^ 62 -> len nonce = 16 -> bytes_ok addr -> len addr = 4 \/ len addr = 16 ->
  NewToken s addr t (Ok nonce) = Ok token ->
  VerifyToken s addr' token t' =
    if decide (addr = addr') then
      if t' >? t + STKExpiryTimeSec then Err (ErrNew "STK expired") else Ok tt
    else Err (ErrNew "invalid source address in STK").
Proof.
  intros Ht Hn Hb Ha E. unfold NewToken, encryptToken in E. cbn [rbind] in E. injection E as <-.
  rewrite u64_small by (unfold_width; lia).
  unfold VerifyToken. rewrite len_app, Hn. unfold stkNonceSize.
  match goal with |- context [gcm_Seal _ _ ?x] =>
    pose proof (len_nonneg (gcm_Seal s nonce x)) end.
  rewrite (proj2 (Z.ltb_ge _ _)) by lia.
  rewrite <- Hn, take_len_app, drop_len_app, gcm_Open_Seal by (done || by apply serialize_bytes). cbn [rbind].
  rewrite parseToken_serialize by (done || lia). cbn [rbind st_sourceAddr st_timestamp].
  unfold STKExpiryTimeSec in *. rewrite (i64_small t), i64_small by lia.
  case_decide; [rewrite bool_decide_true by done|rewrite bool_decide_false by done]; cbn [negb]; [|done].
  done.
Qed.

(** A token that [NewToken] makes for an IP address is accepted from that address for a day
    and from no other address; a token made for an address of any other length, such as the
    textual form of a non-UDP address, is never accepted. *)
Theorem source_address_token_bound s addr addr' t t' nonce token :
  0 <= t < 2 ^ 62 -> len nonce = 16 -> bytes_ok addr ->
  NewToken s addr t (Ok nonce) = Ok token ->
  VerifyToken s addr' token t' = Ok tt <->
    (len addr = 4 \/ len addr = 16) /\ addr' = addr /\ t' <= t + STKExpiryTimeSec.
Proof.
  intros Ht Hn Hb E. destruct (decide (len addr = 4 \/ len addr = 16)) as [Ha|Ha].
  - rewrite (VerifyToken_NewToken s addr addr' t t' nonce token) by done.
    rewrite Z.gtb_ltb. case_decide; [case_if|]; intuition (congruence || lia).
  - unfold NewToken, encryptToken in E. cbn [rbind] in E. injection E as <-.
    unfold VerifyToken. rewrite len_app, Hn. unfold stkNonceSize.
    match goal with |- context [gcm_Seal _ _ ?x] => pose proof (len_nonneg (gcm_Seal s nonce x)) end.
    rewrite (proj2 (Z.ltb_ge _ _)) by lia.
    rewrite <- Hn, take_len_app, drop_len_app, gcm_Open_Seal by (done || by apply serialize_bytes). cbn [rbind].
    unfold parseToken, serialize. cbn [st_timestamp st_sourceAddr]. rewrite len_app, len_le_bytes.
    rewrite !(proj2 (Z.eqb_neq _ _)) by lia. cbn [negb andb rbind]. intuition congruence.
Qed.

Lemma NewToken_bytes s addr t nonce token :
  bytes_ok nonce -> len nonce = 16 -> bytes_ok addr -> NewToken s addr t (Ok nonce) = Ok token ->
  bytes_ok token /\ len token = 40 + len addr.
Proof.
  intros Hb Hn Ha E. unfold NewToken, encryptToken in E. cbn [rbind] in E. injection E as <-.
  destruct (gcm_Seal_bytes s nonce (serialize (mkSourceAddressToken addr (u64 t))) Hn (serialize_bytes _ _ Ha)) as [H1 H2].
  rewrite bytes_ok_app, len_app, H2. unfold serialize. cbn [st_timestamp st_sourceAddr].
  rewrite len_app, len_le_bytes. split; [done|lia].
Qed.

Lemma VerifyToken_safe s addr data t : bytes_ok data -> safe (VerifyToken s addr data t) (fun _ => True).
Proof.
  intros Hb. unfold VerifyToken. destruct (Z.ltb_spec (len data) stkNonceSize) as [|Hl]; [done|].
  eapply safe_bind; [apply gcm_Open_safe; [apply len_take; unfold stkNonceSize in *; lia|by apply Forall_drop]|].
  intros r _. eapply (safe_bind _ _ (fun _ => True)); [unfold parseToken; by destruct (_ && _)|].
  intros tk _. destruct (negb _); [done|]. by destruct (_ >? _).
Qed.
End tokens.

(** ** Concrete primitives

    Instances of the classes on which the theorems can be evaluated: an AEAD that appends an
    empty tag, a constant key stream, an exchange that adds its scalars byte by byte, and a
    hash that is zero. *)

Definition plainFnv : Fnv128a := {| Sum128 _ := (0, 0) |}.
#[export] Instance plainFnv_laws : Fnv128aLaws plainFnv.
Proof. constructor. intros l. cbn. unfold is_u64. lia. Qed.

Definition stripTag (n : nat) (c : list Z) : res (list Z) :=
  if (n <=? length c)%nat then Ok (take (length c - n) c) else Err (ErrNew "message authentication failed").

Lemma stripTag_app n p t : length t = n -> stripTag n (p ++ t) = Ok p.
Proof.
  intros Ht. unfold stripTag. rewrite length_app, Ht.
  rewrite (proj2 (Nat.leb_le _ _)) by lia. replace (length p + n - n)%nat with (length p) by lia.
  by rewrite take_app_length.
Qed.

Lemma stripTag_safe n c : bytes_ok c -> safe (stripTag n c) bytes_ok.
Proof. intros. unfold stripTag. destruct (_ <=? _)%nat; [by apply Forall_take|done]. Qed.

Lemma bytes_ok_zeros n : bytes_ok (replicate n 0).
Proof. induction n; constructor; [by split|done]. Qed.

Definition plainAes : Aes12 := {|
  aes12_AEAD := list Z;
  aes12_New key := if len key =? 16 then Ok key else Err (ErrNew "invalid key size");
  aes12_Seal g nonce plaintext ad := plaintext ++ replicate 12 0;
  aes12_Open g nonce ciphertext ad := stripTag 12 ciphertext;
|}.
#[export] Instance plainAes_laws : Aes12Laws plainAes.
Proof.
  constructor; cbn.
  - intros key ->. by exists key.
  - intros. by apply stripTag_app.
  - intros. by rewrite len_app.
  - intros. apply bytes_ok_app. split; [done|apply (bytes_ok_zeros 12)].
  - intros. by apply stripTag_safe.
Qed.

Definition plainHkdf : Hkdf := {| hkdf_New secret salt info := replicate (Z.to_nat (255 * 32)) 7 |}.
#[export] Instance plainHkdf_laws : HkdfLaws plainHkdf.
Proof. constructor. intros. cbn -[replicate]. unfold len. by rewrite length_replicate. Qed.

Definition sumCurve : Curve25519 := {|
  ScalarMult n p := zip_with (fun a b => u8 (a + b)) n p;
  ScalarBaseMult n := map u8 n;
|}.
#[export] Instance sumCurve_laws : Curve25519Laws sumCurve.
Proof.
  constructor; cbn.
  - intros n p Hn Hp. split.
    + apply Forall_lookup. intros i x Hx. apply lookup_zip_with_Some in Hx as (a & b & -> & _).
      apply u8_range.
    + unfold len in *. rewrite length_zip_with. lia.
  - intros n Hn. split; [|unfold len in *; by rewrite length_map].
    apply Forall_lookup. intros i x Hx. apply list_lookup_fmap_Some in Hx as (a & -> & _). apply u8_range.
  - intros a b Ha Hb. assert (length a = length b) as E by (unfold len in *; lia).
    clear Ha Hb. revert b E; induction a as [|x a IH]; intros [|y b] E; try done.
    cbn in *. f_equal; [|apply IH; lia]. unfold u8. rewrite !Zplus_mod_idemp_r. f_equal. lia.
Qed.

Definition plainGCM : StkGCM := {|
  gcm_AEAD := list Z;
  gcm_New key := Ok key;
  gcm_Seal g nonce plaintext := plaintext ++ replicate 16 0;
  gcm_Open g nonce ciphertext := stripTag 16 ciphertext;
|}.
#[export] Instance plainGCM_laws : StkGCMLaws plainGCM.
Proof.
  constructor; cbn.
  - eauto.
  - intros. by apply stripTag_app.
  - intros. rewrite len_app. split; [|done]. apply bytes_ok_app. split; [done|apply (bytes_ok_zeros 16)].
  - intros. by apply stripTag_safe.
Qed.

Lemma source_address_token_bound_witness :
  VerifyToken (Gc := plainGCM) [1] [10; 0; 0; 1]
    (replicate 16 9 ++ serialize (mkSourceAddressToken [10; 0; 0; 1] 1000) ++ replicate 16 0) 5000 = Ok tt.
Proof.
  apply (source_address_token_bound (G := plainGCM) [1] [10; 0; 0; 1] [10; 0; 0; 1] 1000 5000 (replicate 16 9)).
  - lia.
  - reflexivity.
  - repeat constructor; (discriminate || lia).
  - reflexivity.
  - split; [by left|]. split; [done|]. unfold STKExpiryTimeSec. lia.
Defined.

Lemma derived_keys_interoperate_witness :
  exists server client,
    DeriveKeysAESGCM (Hk := plainHkdf) (Ae := plainAes) true [1] [2] 7 [3] [4] [5] [] PerspectiveServer = Ok server /\
    DeriveKeysAESGCM (Hk := plainHkdf) (Ae := plainAes) true [1] [2] 7 [3] [4] [5] [] PerspectiveClient = Ok client /\
    aeadAESGCM_Open server (aeadAESGCM_Seal client [8; 9] 1 [6]) 1 [6] = Ok [8; 9].
Proof.
  destruct (derived_keys_interoperate (K := plainHkdf) (A := plainAes) true [1] [2] 7 [3] [4] [5] [])
    as (s & c & Es & Ec & Ho).
  exists s, c. split; [exact Es|]. split; [exact Ec|].
  apply Ho. repeat constructor; (discriminate || lia).
Defined.
