(* ===== verification/GoStrings.v ===== *)
(** * The standard library on strings

    What package h2quic uses of strings, strconv, unicode/utf8, net and net/textproto: a string
    is the list of its bytes.  Runes are decoded as [range] over a string does. *)

From S2P Require Import Prelude Crypto.

(** ** Runes *)

Definition RuneSelf : Z := 128.
Definition RuneError : Z := 65533.

Definition cont (b : Z) : bool := (128 <=? b) && (b <? 192).

(** The rune at the front of a string that is not empty, and its width.  The first byte gives
    the length of the encoding and the range of the second byte; an invalid encoding is
    [RuneError] of width 1. *)
Definition DecodeRune (s : list Z) : Z * nat :=
  match s with
  | [] => (RuneError, 0%nat)
  | b0 :: s =>
      if b0 <? RuneSelf then (b0, 1%nat)
      else if (b0 <? 194) || (244 <? b0) then (RuneError, 1%nat)
      else match s with
      | [] => (RuneError, 1%nat)
      | b1 :: s =>
          let lo := if b0 =? 224 then 160 else if b0 =? 240 then 144 else 128 in
          let hi := if b0 =? 237 then 160 else if b0 =? 244 then 144 else 192 in
          if negb ((lo <=? b1) && (b1 <? hi)) then (RuneError, 1%nat)
          else if b0 <? 224 then ((b0 - 192) * 64 + (b1 - 128), 2%nat)
          else match s with
          | [] => (RuneError, 1%nat)
          | b2 :: s =>
              if negb (cont b2) then (RuneError, 1%nat)
              else if b0 <? 240 then (((b0 - 224) * 64 + (b1 - 128)) * 64 + (b2 - 128), 3%nat)
              else match s with
              | [] => (RuneError, 1%nat)
              | b3 :: _ =>
                  if negb (cont b3) then (RuneError, 1%nat)
                  else ((((b0 - 240) * 64 + (b1 - 128)) * 64 + (b2 - 128)) * 64 + (b3 - 128), 4%nat)
              end
          end
      end
  end.

(** The runes of [for _, r := range s].  Every rune takes a byte, so [fuel] as large as the
    string is enough. *)
Fixpoint runes_from (fuel : nat) (s : list Z) : list Z :=
  match fuel, s with
  | S fuel, _ :: _ => let (r, w) := DecodeRune s in r :: runes_from fuel (drop w s)
  | _, _ => []
  end.
Definition runes (s : list Z) : list Z := runes_from (length s) s.

(** ** Package strings *)

(** [strings.IndexByte] and [strings.LastIndexByte] *)
Fixpoint byteIndex (s : list Z) (c : Z) : option nat :=
  match s with
  | [] => None
  | b :: s => if b =? c then Some 0%nat else S <$> byteIndex s c
  end.
Fixpoint lastIndex (s : list Z) (c : Z) : option nat :=
  match s with
  | [] => None
  | b :: s =>
      match lastIndex s c with
      | Some i => Some (S i)
      | None => if b =? c then Some 0%nat else None
      end
  end.
Definition contains (s : list Z) (c : Z) : bool := existsb (fun b => b =? c) s.

(** [strings.Split] with a separator of one byte, and [strings.Join] *)
Fixpoint splitOn (c : Z) (s : list Z) : list (list Z) :=
  match s with
  | [] => [[]]
  | b :: s =>
      if b =? c then [] :: splitOn c s
      else match splitOn c s with
      | l :: ls => (b :: l) :: ls
      | [] => [[b]]
      end
  end.
Fixpoint joinWith (sep : list Z) (l : list (list Z)) : list Z :=
  match l with
  | [] => []
  | [s] => s
  | s :: l => s ++ sep ++ joinWith sep l
  end.

Definition HasPrefix (s prefix : list Z) : bool := bool_decide (take (length prefix) s = prefix).
Definition HasSuffix (s suffix : list Z) : bool :=
  bool_decide ((length suffix <= length s)%nat) && bool_decide (drop (length s - length suffix) s = suffix).
Definition TrimPrefix (s prefix : list Z) : list Z :=
  if HasPrefix s prefix then drop (length prefix) s else s.

(** [strings.ToLower]: the ASCII letters, or [unicodeLower] for a string that is not ASCII *)
Definition ToLower (unicodeLower : list Z -> list Z) (s : list Z) : list Z :=
  if forallb (fun c => c <? 128) s
  then map (fun c => if (65 <=? c) && (c <=? 90) then c + 32 else c) s
  else unicodeLower s.

(** Both ends of a string without the bytes of a set: [strings.TrimLeft] on the string and on
    its reverse *)
Fixpoint trimLeft (p : Z -> bool) (s : list Z) : list Z :=
  match s with
  | [] => []
  | b :: s' => if p b then trimLeft p s' else s
  end.
Definition trimBoth (p : Z -> bool) (s : list Z) : list Z := rev (trimLeft p (rev (trimLeft p s))).

(** [textproto.TrimString] *)
Definition isASCIISpace (b : Z) : bool := (b =? 32) || (b =? 9) || (b =? 10) || (b =? 13).
Definition TrimString (s : list Z) : list Z := trimBoth isASCIISpace s.

(** ** Package strconv, in base 10 *)

Fixpoint digits (fuel : nat) (n : Z) : list Z :=
  match fuel with
  | O => []
  | S fuel => if n <? 10 then [48 + n] else digits fuel (n / 10) ++ [48 + n mod 10]
  end.
(** An int64 has at most 19 digits. *)
Definition FormatInt (n : Z) : list Z := if n <? 0 then 45 :: digits 20 (- n) else digits 20 n.

Definition isDigit (b : Z) : bool := (48 <=? b) && (b <=? 57).
Definition digitsValue (s : list Z) : Z := fold_left (fun n b => n * 10 + (b - 48)) s 0.
Definition ParseInt (s : list Z) : res Z :=
  let '(neg, ds) :=
    match s with
    | b :: s' => if b =? 43 then (false, s') else if b =? 45 then (true, s') else (false, s)
    | [] => (false, [])
    end in
  if (len ds =? 0) || negb (forallb isDigit ds)
  then Err (Errorf "strconv.ParseInt: parsing %q: invalid syntax" s)
  else
    let n := if neg : bool then - digitsValue ds else digitsValue ds in
    if (n <? - 2 ^ 63) || (2 ^ 63 <=? n)
    then Err (Errorf "strconv.ParseInt: parsing %q: value out of range" s)
    else Ok n.

(** ** Package net *)

Definition missingPort (s : list Z) : goerror := Errorf "address %s: missing port in address" s.
Definition tooManyColons (s : list Z) : goerror := Errorf "address %s: too many colons in address" s.

Definition SplitHostPort (hostport : list Z) : res (list Z * list Z) :=
  match lastIndex hostport 58 with
  | None => Err (missingPort hostport)
  | Some i =>
      let! (host, j, k) :=
        if HasPrefix hostport [91] then
          match byteIndex hostport 93 with
          | None => Err (Errorf "address %s: missing ']' in address" hostport)
          | Some e =>
              if decide (S e = length hostport) then Err (missingPort hostport)
              else if decide (S e = i) then Ok (take (e - 1) (drop 1 hostport), 1%nat, S e)
              else match hostport !! S e with
              | Some b => if b =? 58 then Err (tooManyColons hostport) else Err (missingPort hostport)
              | None => Panic
              end
          end
        else
          let host := take i hostport in
          if contains host 58 then Err (tooManyColons hostport) else Ok (host, 0%nat, 0%nat) in
      if contains (drop j hostport) 91 then Err (Errorf "address %s: unexpected '[' in address" hostport)
      else if contains (drop k hostport) 93 then Err (Errorf "address %s: unexpected ']' in address" hostport)
      else Ok (host, drop (S i) hostport)
  end.

Definition JoinHostPort (host port : list Z) : list Z :=
  if contains host 58 then [91] ++ host ++ [93; 58] ++ port else host ++ [58] ++ port.

(** ** Lemmas *)

Lemma DecodeRune_low b s : b < RuneSelf -> DecodeRune (b :: s) = (b, 1%nat).
Proof. intros Hb. cbn. by rewrite (proj2 (Z.ltb_lt _ _)). Qed.

(** A byte outside ASCII starts a rune outside ASCII. *)
Lemma DecodeRune_high b s : RuneSelf <= b -> RuneSelf <= (DecodeRune (b :: s)).1 /\ (DecodeRune (b :: s)).2 <> 0%nat.
Proof.
  unfold RuneSelf. intros Hb. cbn [DecodeRune]. unfold RuneSelf, RuneError, cont.
  rewrite (proj2 (Z.ltb_ge _ _)) by lia.
  destruct ((b <? 194) || (244 <? b)) eqn:E0; [by split|].
  destruct s as [|b1 s]; [by split|]. case_if; [by split|]. case_if; [split; [cbn [fst]; repeat case_if; lia|done]|].
  destruct s as [|b2 s]; [by split|]. case_if; [by split|]. case_if; [split; [cbn [fst]; repeat case_if; lia|done]|].
  destruct s as [|b3 s]; [by split|]. case_if; [by split|]. split; [|done]. cbn [fst]. repeat case_if; lia.
Qed.

Lemma contains_In s c : contains s c = true <-> c ∈ s.
Proof.
  unfold contains. rewrite existsb_exists. split.
  - intros (b & Hb & ->%Z.eqb_eq). by apply list_elem_of_In.
  - intros Hc. exists c. by rewrite Z.eqb_refl, <- list_elem_of_In.
Qed.
Lemma contains_not s c : contains s c = false <-> c ∉ s.
Proof. rewrite <- contains_In. destruct (contains s c); split; congruence. Qed.

Lemma contains_app s t c : contains (s ++ t) c = contains s c || contains t c.
Proof. apply existsb_app. Qed.

Lemma lastIndex_None s c : c ∉ s -> lastIndex s c = None.
Proof.
  induction s as [|b s IH]; [done|]. rewrite not_elem_of_cons. intros [Hb Hs]. cbn. rewrite IH by done.
  by rewrite (proj2 (Z.eqb_neq _ _)).
Qed.
Lemma lastIndex_app s t c : c ∉ t -> lastIndex (s ++ c :: t) c = Some (length s).
Proof.
  intros Ht. induction s as [|b s IH]; cbn; [by rewrite lastIndex_None, Z.eqb_refl|]. by rewrite IH.
Qed.
Lemma byteIndex_app s t c : c ∉ s -> byteIndex (s ++ c :: t) c = Some (length s).
Proof.
  induction s as [|b s IH]; cbn; [by rewrite Z.eqb_refl|]. rewrite not_elem_of_cons. intros [Hb Hs].
  by rewrite (proj2 (Z.eqb_neq _ _)), IH.
Qed.

(** *** Splitting at a byte *)

Lemma splitOn_none c s : c ∉ s -> splitOn c s = [s].
Proof.
  induction s as [|b s IH]; [done|]. rewrite not_elem_of_cons. intros [Hb Hs]. cbn.
  by rewrite (proj2 (Z.eqb_neq _ _)), IH.
Qed.
Lemma splitOn_app c s t : c ∉ s -> splitOn c (s ++ c :: t) = s :: splitOn c t.
Proof.
  induction s as [|b s IH]; cbn; [by rewrite Z.eqb_refl|]. rewrite not_elem_of_cons. intros [Hb Hs].
  by rewrite (proj2 (Z.eqb_neq _ _)), IH.
Qed.
Lemma byteIndex_split c s :
  match byteIndex s c with
  | None => c ∉ s
  | Some i => s = take i s ++ c :: drop (S i) s /\ c ∉ take i s
  end.
Proof.
  induction s as [|b s IH]; cbn; [apply not_elem_of_nil|]. destruct (Z.eqb_spec b c) as [->|Hne].
  - split; [done|apply not_elem_of_nil].
  - destruct (byteIndex s c) as [i|]; cbn [fmap option_fmap option_map].
    + destruct IH as [Hs Hi]. split; [cbn; by rewrite <- Hs|]. cbn. rewrite not_elem_of_cons. naive_solver.
    + rewrite not_elem_of_cons. naive_solver.
Qed.

(** *** Host and port *)

Definition plain (s : list Z) : Prop := 91 ∉ s /\ 93 ∉ s.

Lemma HasPrefix_plain s : plain s -> HasPrefix s [91] = false.
Proof.
  intros [Hs _]. unfold HasPrefix. apply bool_decide_eq_false. destruct s as [|b s]; [done|]. cbn.
  intros [= ->]. apply Hs. left.
Qed.

Lemma SplitHostPort_none s : 58 ∉ s -> SplitHostPort s = Err (missingPort s).
Proof. intros Hs. unfold SplitHostPort. by rewrite lastIndex_None. Qed.

Lemma SplitHostPort_join host port :
  plain host -> plain port -> 58 ∉ host -> 58 ∉ port -> SplitHostPort (host ++ 58 :: port) = Ok (host, port).
Proof.
  intros [H1 H2] [P1 P2] Hh Hp. unfold SplitHostPort. rewrite lastIndex_app by done.
  assert (plain (host ++ 58 :: port)) as Hpl by (split; rewrite elem_of_app, elem_of_cons; naive_solver).
  rewrite HasPrefix_plain, take_app_length by done. rewrite (proj2 (contains_not host 58)) by done. cbn [rbind drop].
  destruct Hpl as [Hl Hr]. rewrite (proj2 (contains_not _ 91)), (proj2 (contains_not _ 93)) by done.
  replace (S (length host)) with (length host + 1)%nat by lia. by rewrite <- drop_drop, drop_app_length.
Qed.

Lemma SplitHostPort_colons s1 s2 s3 :
  plain (s1 ++ 58 :: s2 ++ 58 :: s3) -> 58 ∉ s3 ->
  SplitHostPort (s1 ++ 58 :: s2 ++ 58 :: s3) = Err (tooManyColons (s1 ++ 58 :: s2 ++ 58 :: s3)).
Proof.
  intros Hpl H3. unfold SplitHostPort. rewrite HasPrefix_plain by done.
  replace (s1 ++ 58 :: s2 ++ 58 :: s3) with ((s1 ++ 58 :: s2) ++ 58 :: s3) by by rewrite <- app_assoc.
  rewrite lastIndex_app, take_app_length by done.
  assert (contains (s1 ++ 58 :: s2) 58 = true) as -> by (apply contains_In; set_solver). done.
Qed.

Lemma SplitHostPort_bracket host port :
  plain host -> plain port -> 58 ∉ port -> SplitHostPort ([91] ++ host ++ [93; 58] ++ port) = Ok (host, port).
Proof.
  intros [H1 H2] [P1 P2] Hp. unfold SplitHostPort.
  assert (lastIndex ([91] ++ host ++ [93; 58] ++ port) 58 = Some (S (S (length host)))) as ->.
  { replace ([91] ++ host ++ [93; 58] ++ port) with (([91] ++ host ++ [93]) ++ 58 :: port) by by rewrite <- !app_assoc.
    rewrite lastIndex_app by done. f_equal. rewrite !length_app. cbn. lia. }
  change (HasPrefix ([91] ++ host ++ [93; 58] ++ port) [91]) with true. cbv iota.
  assert (byteIndex ([91] ++ host ++ [93; 58] ++ port) 93 = Some (S (length host))) as ->.
  { change ([91] ++ host ++ [93; 58] ++ port) with ((91 :: host) ++ 93 :: 58 :: port).
    rewrite byteIndex_app; [done|]. rewrite not_elem_of_cons. naive_solver. }
  rewrite decide_False by (cbn; rewrite !length_app; cbn; lia). rewrite decide_True by done. cbn [rbind].
  change (drop 1 ([91] ++ host ++ [93; 58] ++ port)) with (host ++ [93; 58] ++ port).
  rewrite (proj2 (contains_not _ 91)) by (rewrite !elem_of_app, !elem_of_cons, elem_of_nil; naive_solver).
  replace (S (S (length host))) with (1 + length host + 1)%nat by lia.
  rewrite <- !drop_drop. change (drop 1 ([91] ++ host ++ [93; 58] ++ port)) with (host ++ [93; 58] ++ port).
  rewrite drop_app_length. change (drop 1 ([93; 58] ++ port)) with (58 :: port).
  rewrite (proj2 (contains_not _ 93)) by (rewrite elem_of_cons; naive_solver).
  replace (S (1 + length host + 1)) with (1 + length host + 2)%nat by lia. rewrite <- !drop_drop.
  change (drop 1 ([91] ++ host ++ [93; 58] ++ port)) with (host ++ [93; 58] ++ port). rewrite drop_app_length.
  replace (S (length host) - 1)%nat with (length host) by lia. by rewrite take_app_length.
Qed.


(** *** Numbers *)

Lemma digitsValue_snoc l b : digitsValue (l ++ [b]) = digitsValue l * 10 + (b - 48).
Proof. unfold digitsValue. by rewrite fold_left_app. Qed.

Lemma digits_spec fuel n :
  0 <= n < 10 ^ Z.of_nat fuel ->
  digitsValue (digits fuel n) = n /\ Forall (fun b => isDigit b = true) (digits fuel n) /\ (fuel <> 0%nat -> digits fuel n <> []).
Proof.
  revert n. induction fuel as [|fuel IH]; intros n Hn; [cbn in Hn; split_and!; [cbn; lia|constructor|done]|].
  rewrite Nat2Z.inj_succ, Z.pow_succ_r in Hn by lia. cbn [digits]. case_if.
  - split_and!; [unfold digitsValue; cbn; lia| |done]. constructor; [|done]. unfold isDigit.
    apply andb_true_iff; split; apply Z.leb_le; lia.
  - destruct (IH (n / 10)) as (IH1 & IH2 & _); [split; [apply Z.div_pos; lia|apply Z.div_lt_upper_bound; lia]|].
    pose proof (Z.mod_pos_bound n 10 ltac:(lia)). split_and!.
    + rewrite digitsValue_snoc, IH1. pose proof (Z.div_mod n 10). lia.
    + apply Forall_app. split; [done|]. constructor; [|done]. unfold isDigit.
      apply andb_true_iff; split; apply Z.leb_le; lia.
    + intros _ E. by apply app_eq_nil in E as [_ ?].
Qed.

(** A number survives printing and parsing. *)
Lemma ParseInt_FormatInt n : - 2 ^ 63 <= n < 2 ^ 63 -> ParseInt (FormatInt n) = Ok n.
Proof.
  intros Hn. unfold FormatInt. case_if.
  - destruct (digits_spec 20 (- n)) as (Hv & Hd & Hne); [cbn in *; lia|]. specialize (Hne ltac:(done)).
    unfold ParseInt. change (45 =? 43) with false. change (45 =? 45) with true. cbv iota.
    assert (forallb isDigit (digits 20 (- n)) = true) as ->.
    { apply forallb_forall. intros b Hb. rewrite Forall_forall in Hd. apply Hd. by apply list_elem_of_In. }
    rewrite Hv. destruct (digits 20 (- n)) as [|d ds] eqn:E; [done|]. rewrite len_cons.
    rewrite (proj2 (Z.eqb_neq _ _)) by (pose proof (len_nonneg ds); lia). cbn [orb negb].
    rewrite Z.opp_involutive, (proj2 (Z.ltb_ge _ _)), (proj2 (Z.leb_gt _ _)) by lia. done.
  - destruct (digits_spec 20 n) as (Hv & Hd & Hne); [cbn in *; lia|]. specialize (Hne ltac:(done)).
    unfold ParseInt. destruct (digits 20 n) as [|d ds] eqn:E; [done|].
    pose proof (Forall_inv Hd) as Hd0. unfold isDigit in Hd0. to_prop.
    rewrite (proj2 (Z.eqb_neq d 43)), (proj2 (Z.eqb_neq d 45)) by lia.
    assert (forallb isDigit (d :: ds) = true) as ->.
    { apply forallb_forall. intros b Hb. rewrite Forall_forall in Hd. apply Hd. by apply list_elem_of_In. }
    rewrite Hv, len_cons, (proj2 (Z.eqb_neq _ _)) by (pose proof (len_nonneg ds); lia). cbn [orb negb].
    rewrite (proj2 (Z.ltb_ge _ _)), (proj2 (Z.leb_gt _ _)) by lia. done.
Qed.
