(* ===== verification/Certs.v ===== *)
(** * Package crypto: certificates

    The compression of certificate chains (cert_compression.go, cert_sets.go) and its cache
    (cert_cache.go).  Parameters: the common certificate sets and the LRU cache of other
    packages, and zlib. *)

From S2P Require Import Prelude Protocol Qerr Wire CertDict Crypto.

(** ** hash/fnv, 64 bits *)

Definition fnv64a_New : Z := 14695981039346656037.
Definition fnv64a_Write (h : Z) (data : list Z) : Z :=
  foldl (fun h c => u64 (Z.lxor h c * 1099511628211)) h data.

(** ** crypto/cert_sets.go *)

(** [certSets]: the sets of package certsets by their hash *)
Class CertSets : Type := { certSets : gmap Z (list (list Z)) }.

Fixpoint findCertInSet_loop (s : list (list Z)) (cert : list Z) (i : Z) : Z :=
  match s with
  | [] => -1
  | c :: s => if bool_decide (c = cert) then i else findCertInSet_loop s cert (i + 1)
  end.
Definition findCertInSet (s : list (list Z)) (cert : list Z) : Z := findCertInSet_loop s cert 0.

(** ** crypto/cert_compression.go *)

Definition entryCompressed : Z := 1.
Definition entryCached : Z := 2.
Definition entryCommon : Z := 3.

Record entry : Type := mkEntry {
  e_t : Z;
  e_h : Z;
  e_i : Z;
}.

Definition HashCert (cert : list Z) : Z := fnv64a_Write fnv64a_New cert.

Fixpoint splitHashes_loop (n : nat) (hashes : list Z) : list Z :=
  match n with
  | O => []
  | S n => le_value (take 8 hashes) :: splitHashes_loop n (drop 8 hashes)
  end.

Definition splitHashes (hashes : list Z) : res (list Z) :=
  if negb (len hashes mod 8 =? 0)
  then Err (ErrNew "expected a multiple of 8 bytes for CCS / CCRT hashes")
  else Ok (splitHashes_loop (Z.to_nat (len hashes / 8)) hashes).

(** [order] is the order in which the map is iterated over. *)
Definition getCommonCertificateHashes (order : list Z) : list Z :=
  concat (map (fun certSetHash => le_bytes 8 certSetHash) order).

Section compression.
Context `{CS : CertSets}.

(** The loop over the common sets *)
Fixpoint findCommon (setHashes : list Z) (cert : list Z) : option entry :=
  match setHashes with
  | [] => None
  | setHash :: setHashes =>
      match certSets !! setHash with
      | None => findCommon setHashes cert
      | Some set =>
          let pos := findCertInSet set cert in
          if pos >=? 0 then Some (mkEntry entryCommon setHash (u32 pos))
          else findCommon setHashes cert
      end
  end.

(** One iteration of [chainLoop] *)
Definition buildEntry (cachedHashes setHashes : list Z) (cert : list Z) (chainHash : Z) : entry :=
  if bool_decide (chainHash ∈ cachedHashes) then mkEntry entryCached chainHash 0
  else match findCommon setHashes cert with
  | Some e => e
  | None => mkEntry entryCompressed 0 0
  end.

Definition buildEntries (chain : list (list Z)) (chainHashes cachedHashes setHashes : list Z) : list entry :=
  zip_with (buildEntry cachedHashes setHashes) chain chainHashes.

(** The certificates that are not compressed, from the last to the first, then the dictionary *)
Definition buildZlibDictForEntries (entries : list entry) (chain : list (list Z)) : list Z :=
  concat (rev (zip_with (fun e cert => if e_t e =? entryCompressed then [] else cert) entries chain))
  ++ certDictZlib.

(** zlib with a preset dictionary: what the writer has written when it is closed, and the
    reader.  A [Read] returns at most what is left of the current chunk of decompressed bytes;
    after the last one it returns [gz_err], [io.EOF] when the checksum is right. *)
Record gzReader : Type := mkGzReader {
  gz_chunks : list (list Z);
  gz_err : goerror;
}.
Class Zlib : Type := {
  zlib_compress : list Z -> list Z -> list Z;
  zlib_NewReaderDict : list Z -> list Z -> res gzReader;
}.
Context `{ZL : Zlib}.

(** [gz.Read] into a buffer of [n] zero bytes: the number of bytes, the buffer, the error, the
    reader afterwards *)
Definition gz_Read (g : gzReader) (n : Z) : Z * list Z * option goerror * gzReader :=
  match gz_chunks g with
  | [] => (0, replicate (Z.to_nat n) 0, Some (gz_err g), g)
  | c :: cs =>
      let k := Z.min n (len c) in
      let rest := drop (Z.to_nat k) c in
      let g' := mkGzReader (match rest with [] => cs | _ => rest :: cs end) (gz_err g) in
      (k, take (Z.to_nat k) c ++ replicate (Z.to_nat (n - k)) 0,
       match gz_chunks g' with [] => Some (gz_err g) | _ => None end, g')
  end.

(** A bound on the reads that do not fail *)
Definition gz_left (g : gzReader) : nat := length (concat (gz_chunks g)) + length (gz_chunks g).

(** The loop that writes the entries; with the number of bytes to compress *)
Fixpoint writeEntries (entries : list entry) (chain : list (list Z)) (res : list Z)
    (totalUncompressedLen : Z) : list Z * Z :=
  match entries, chain with
  | e :: entries, cert :: chain =>
      let res := WriteByte res (e_t e) in
      if e_t e =? entryCached then
        writeEntries entries chain (WriteUint64 res (e_h e)) totalUncompressedLen
      else if e_t e =? entryCommon then
        writeEntries entries chain (WriteUint32 (WriteUint64 res (e_h e)) (e_i e)) totalUncompressedLen
      else writeEntries entries chain res (totalUncompressedLen + (4 + len cert))
  | _, _ => (res, totalUncompressedLen)
  end.

(** What is written to the compressor: the length and the bytes of each compressed certificate *)
Fixpoint compressedCerts (entries : list entry) (chain : list (list Z)) : list Z :=
  match entries, chain with
  | e :: entries, cert :: chain =>
      if negb (e_t e =? entryCompressed) then compressedCerts entries chain
      else
        let lenCert := len cert in
        [Z.land lenCert 0xff; Z.land (Z.shiftr lenCert 8) 0xff;
         Z.land (Z.shiftr lenCert 16) 0xff; Z.land (Z.shiftr lenCert 24) 0xff]
        ++ cert ++ compressedCerts entries chain
  | _, _ => []
  end.

Definition compressChain (chain : list (list Z)) (pCommonSetHashes pCachedHashes : list Z) : res (list Z) :=
  let! cachedHashes := splitHashes pCachedHashes in
  let! setHashes := splitHashes pCommonSetHashes in
  let chainHashes := map HashCert chain in
  let entries := buildEntries chain chainHashes cachedHashes setHashes in
  let '(res, totalUncompressedLen) := writeEntries entries chain [] 0 in
  let res := WriteByte res 0 in
  if totalUncompressedLen >? 0 then
    let res := WriteUint32 res (u32 totalUncompressedLen) in
    Ok (res ++ zlib_compress (buildZlibDictForEntries entries chain) (compressedCerts entries chain))
  else Ok res.

(** The loop over the entries of [decompressChain].  Reading past the end yields the byte 0.
    Every iteration consumes a byte, so [fuel] as large as the input is enough; running out of
    it counts as a panic. *)
Fixpoint readEntries (fuel : nat) (r : list Z) (chain : list (list Z)) (entries : list entry)
    : res (list Z * list (list Z) * list entry) :=
  match r with
  | [] => Ok ([], chain, entries)
  | entryTypeByte :: r =>
      if entryTypeByte =? 0 then Ok (r, chain, entries)
      else match fuel with
      | O => Panic
      | S fuel =>
          if entryTypeByte =? entryCached then Err (ErrNew "unexpected cached certificate")
          else if entryTypeByte =? entryCommon then
            let! (h, r) := ReadUint64 r in
            let! (i, r) := ReadUint32 r in
            match certSets !! h with
            | None => Err (ErrNew "unknown certSet")
            | Some certSet =>
                if i >=? u32 (len certSet) then Err (ErrNew "certificate not found in certSet")
                else match certSet !! Z.to_nat i with
                | None => Panic
                | Some cert =>
                    readEntries fuel r (chain ++ [cert]) (entries ++ [mkEntry entryCommon h i])
                end
            end
          else if entryTypeByte =? entryCompressed then
            readEntries fuel r (chain ++ [[]]) (entries ++ [mkEntry entryCompressed 0 0])
          else Err (ErrNew "unknown entryType")
      end
  end.

(** The inner loop that looks for the next entry to fill, from index [certIndex] on *)
Fixpoint nextCompressed (entries : list entry) (certIndex : nat) : option nat :=
  match entries with
  | [] => None
  | e :: entries =>
      if e_t e =? entryCompressed then Some certIndex else nextCompressed entries (S certIndex)
  end.

(** The loop over the decompressed certificates.  Every iteration uses up a byte or a chunk
    of the decompressed data, or ends. *)
Fixpoint readCerts (fuel : nat) (gz : gzReader) (entries : list entry) (chain : list (list Z))
    (totalLength uncompressedLength : Z) (certIndex : nat) : res (list (list Z)) :=
  if totalLength <? uncompressedLength then
    match fuel with
    | O => Panic
    | S fuel =>
        let '(_, lenBytes, err, gz) := gz_Read gz 4 in
        match err with
        | Some e => Err e
        | None =>
            let certLen := le_value lenBytes in
            let '(n, cert, err, gz) := gz_Read gz certLen in
            match (if negb (u32 n =? certLen) then err else None) with
            | Some e => Err e
            | None =>
                match nextCompressed (drop certIndex entries) certIndex with
                | None => Err (ErrNew "CertCompression BUG: no element to save uncompressed certificate")
                | Some i =>
                    readCerts fuel gz entries (<[i := cert]> chain)
                      (u32 (totalLength + u32 (4 + certLen))) uncompressedLength (S i)
                end
            end
        end
    end
  else Ok chain.

Definition decompressChain (data : list Z) : res (list (list Z)) :=
  let! (r, chain, entries) := readEntries (length data) data [] [] in
  if len entries =? 0 then Ok []
  else if existsb (fun e => e_t e =? entryCompressed) entries then
    let! (uncompressedLength, r) := ReadUint32 r in
    let zlibDict := buildZlibDictForEntries entries chain in
    let! gz := zlib_NewReaderDict zlibDict r in
    readCerts (S (gz_left gz)) gz entries chain 0 uncompressedLength 0
  else Ok chain.

(** *** Decompression ends *)

Lemma len_replicate {A} n (x : A) : len (replicate n x) = Z.of_nat n.
Proof. unfold len. by rewrite length_replicate. Qed.

Lemma gz_Read_left g n :
  0 < n -> let '(k, b, err, g') := gz_Read g n in
  0 <= k <= n /\ len b = n /\ (err = None -> (gz_left g' < gz_left g)%nat).
Proof.
  intros Hn. unfold gz_Read, gz_left. destruct (gz_chunks g) as [|c cs] eqn:E.
  { split_and!; [lia|lia| |done]. rewrite len_replicate. lia. }
  pose proof (len_nonneg c). cbn [gz_chunks].
  split_and!; [lia|lia| |].
  - rewrite len_app, len_take, len_replicate by lia. lia.
  - intros _. set (k := Z.to_nat _). assert (length c = 0 \/ 0 < k)%nat as Hk by (unfold k, len in *; lia).
    destruct (drop k c) as [|x rest] eqn:Ed; cbn [concat length]; rewrite !length_app; [lia|].
    assert (length (x :: rest) = length c - k)%nat as Hl by (rewrite <- Ed; apply length_drop).
    rewrite ?length_app. cbn [length] in *. lia.
Qed.

Lemma gz_Read_left_le g n :
  0 <= n -> let '(k, b, err, g') := gz_Read g n in
  0 <= k <= n /\ len b = n /\ (gz_left g' <= gz_left g)%nat.
Proof.
  intros Hn. unfold gz_Read, gz_left. destruct (gz_chunks g) as [|c cs] eqn:E.
  { split_and!; [lia|lia| |by rewrite E]. rewrite len_replicate. lia. }
  pose proof (len_nonneg c). cbn [gz_chunks].
  split_and!; [lia|lia| |].
  - rewrite len_app, len_take, len_replicate by lia. lia.
  - set (k := Z.to_nat _). pose proof (length_drop c k) as Hl.
    destruct (drop k c) as [|x rest]; cbn [concat length] in *; rewrite ?length_app in *; cbn [length] in *; lia.
Qed.

Definition gz_ok (g : gzReader) : Prop := Forall bytes_ok (gz_chunks g).

Lemma gz_Read_ok g n : gz_ok g -> bytes_ok (gz_Read g n).1.1.2 /\ gz_ok (gz_Read g n).2.
Proof.
  intros Hg. unfold gz_Read, gz_ok in *. destruct (gz_chunks g) as [|c cs] eqn:E; cbn.
  { rewrite E. split; [apply bytes_ok_zeros|constructor]. }
  apply Forall_cons in Hg as [Hc Hcs]. split.
  - apply bytes_ok_app. split; [by apply Forall_take|apply bytes_ok_zeros].
  - destruct (drop _ c) eqn:Ed; [done|]. constructor; [|done]. rewrite <- Ed. by apply Forall_drop.
Qed.

Lemma readCerts_safe fuel gz entries chain tl ul ci :
  (gz_left gz < fuel)%nat -> gz_ok gz ->
  safe (readCerts fuel gz entries chain tl ul ci) (fun c => length c = length chain).
Proof.
  revert gz chain tl ci; induction fuel as [|fuel IH]; intros gz chain tl ci Hf Hg; [lia|].
  cbn [readCerts]. destruct (tl <? ul); [|done].
  pose proof (gz_Read_left gz 4 ltac:(lia)) as H1. pose proof (gz_Read_ok gz 4 Hg) as H1'.
  destruct (gz_Read gz 4) as [[[k b] err] g1]. cbn in H1'.
  destruct H1 as (Hk & Hb & Hlt). destruct err as [e|]; [done|]. specialize (Hlt eq_refl).
  assert (0 <= le_value b) as Hv by (apply le_value_range, H1').
  pose proof (gz_Read_left_le g1 (le_value b) Hv) as H2. pose proof (gz_Read_ok g1 (le_value b) (proj2 H1')) as H2'.
  destruct (gz_Read g1 (le_value b)) as [[[n cert] err2] g2]. destruct H2 as (_ & _ & Hle). cbn in H2'.
  destruct (if negb (u32 n =? le_value b) then err2 else None); [done|].
  destruct (nextCompressed _ _); [|done].
  eapply safe_impl; [apply IH; [lia|apply H2']|]. intros c Hc. cbn in Hc. by rewrite length_insert in Hc.
Qed.

Definition sets_ok : Prop := forall h set, certSets !! h = Some set -> is_u64 h /\ len set < 2 ^ 32.

Lemma readEntries_safe fuel r chain entries :
  sets_ok -> bytes_ok r -> (length r <= fuel)%nat ->
  safe (readEntries fuel r chain entries) (fun x => bytes_ok x.1.1).
Proof.
  intros Hsets. revert r chain entries; induction fuel as [|fuel IH]; intros r chain entries Hr Hf.
  { destruct r; [constructor|cbn in Hf; lia]. }
  destruct r as [|b r]; [constructor|]. apply Forall_cons in Hr as [_ Hr]. cbn [length] in Hf.
  cbn [readEntries]. destruct (b =? 0); [done|]. destruct (b =? entryCached); [done|].
  destruct (b =? entryCommon).
  - eapply safe_bind; [by apply safe_ReadUint64|]. intros [h r1] (Hh & Hr1 & Hl1). cbn in *.
    eapply safe_bind; [by apply safe_ReadUint32|]. intros [i r2] (Hi & Hr2 & Hl2). cbn in *.
    destruct (certSets !! h) as [set|] eqn:Es; [|done]. destruct (Hsets _ _ Es) as [_ Hlen].
    pose proof (len_nonneg set). rewrite u32_small by (unfold_width; lia). rewrite Z.geb_leb.
    destruct (Z.leb_spec (len set) i); [done|].
    destruct (lookup_lt_is_Some_2 set (Z.to_nat i)) as [cert ->]; [unfold len in *; lia|].
    apply IH; [done|]. unfold len in *. lia.
  - destruct (b =? entryCompressed); [|done]. apply IH; [done|lia].
Qed.

(** Whatever a server sends, decompressing it ends without a panic. *)
Lemma decompressChain_safe data :
  sets_ok -> bytes_ok data -> (forall dict r, bytes_ok r -> safe (zlib_NewReaderDict dict r) gz_ok) ->
  safe (decompressChain data) (fun _ => True).
Proof.
  intros Hsets Hd Hz. unfold decompressChain.
  eapply safe_bind; [by apply readEntries_safe|]. intros [[r chain] entries] Hr. cbn in Hr.
  destruct (len entries =? 0); [done|]. destruct (existsb _ _); [|done].
  eapply safe_bind; [by apply safe_ReadUint32|]. intros [ul r'] (_ & Hr' & _). cbn in Hr'.
  eapply safe_bind; [by apply Hz|]. intros gz Hg. eapply safe_impl; [apply readCerts_safe; [lia|done]|done].
Qed.

(** *** Round trip *)

Lemma concat_concat {A} (gs : list (list (list A))) : length (concat (concat gs)) = length (concat (map (@concat _) gs)).
Proof. induction gs as [|g gs IH]; [done|]. cbn. by rewrite concat_app, !length_app, IH. Qed.

(** The entry chosen for a certificate when no certificate is cached *)
Definition entry_for (e : entry) (cert : list Z) : Prop :=
  e = mkEntry entryCompressed 0 0 \/
  exists h set i, e = mkEntry entryCommon h (Z.of_nat i) /\
    certSets !! h = Some set /\ set !! i = Some cert.

Lemma findCertInSet_loop_spec set cert k :
  findCertInSet_loop set cert k = -1 \/
  exists i, findCertInSet_loop set cert k = k + Z.of_nat i /\ set !! i = Some cert.
Proof.
  revert k; induction set as [|c set IH]; intros k; cbn; [by left|].
  case_bool_decide as Hc; [right; exists 0%nat; rewrite Hc; split; [lia|done]|].
  destruct (IH (k + 1)) as [-> | (i & -> & Hi)]; [by left|].
  right. exists (S i). split; [lia|done].
Qed.

Lemma findCommon_for setHashes cert e :
  sets_ok -> findCommon setHashes cert = Some e -> entry_for e cert.
Proof.
  intros Hsets. induction setHashes as [|h hs IH]; cbn; [done|].
  destruct (certSets !! h) as [set|] eqn:Es; [|done].
  unfold findCertInSet. destruct (findCertInSet_loop_spec set cert 0) as [-> | (i & -> & Hi)]; [done|].
  rewrite Z.geb_leb, (proj2 (Z.leb_le _ _)) by lia. intros [= <-]. right. exists h, set, i.
  apply lookup_lt_Some in Hi as Hlt. destruct (Hsets _ _ Es) as [_ Hlen].
  rewrite u32_small by (unfold_width; unfold len in *; lia). rewrite Z.add_0_l. done.
Qed.

Lemma buildEntries_for chain setHashes :
  sets_ok -> Forall2 entry_for (buildEntries chain (map HashCert chain) [] setHashes) chain.
Proof.
  intros Hsets. unfold buildEntries. induction chain as [|cert chain IH]; cbn; constructor; [|done].
  unfold buildEntry. rewrite bool_decide_false by by apply not_elem_of_nil.
  destruct (findCommon setHashes cert) eqn:E; [by eapply findCommon_for|by left].
Qed.

(** The chain before the compressed certificates are filled in *)
Definition blank (entries : list entry) (chain : list (list Z)) : list (list Z) :=
  zip_with (fun e cert => if e_t e =? entryCompressed then [] else cert) entries chain.

Definition entry_bytes (e : entry) : list Z :=
  if e_t e =? entryCompressed then [entryCompressed]
  else entryCommon :: le_bytes 8 (e_h e) ++ le_bytes 4 (e_i e).

Lemma writeEntries_bytes entries chain b n :
  Forall2 entry_for entries chain ->
  writeEntries entries chain b n =
    (b ++ concat (map entry_bytes entries), n + len (compressedCerts entries chain)).
Proof.
  intros HF. revert b n; induction HF as [|e cert es cs He HF IH]; intros b n; cbn [writeEntries].
  { by rewrite app_nil_r, Z.add_0_r. }
  destruct He as [-> | (h & set & i & -> & _)]; cbn [e_t e_h e_i].
  - change (entryCompressed =? entryCached) with false. change (entryCompressed =? entryCommon) with false.
    cbv iota. rewrite IH. cbn [map concat compressedCerts e_t].
    change (negb (entryCompressed =? entryCompressed)) with false. cbv iota. unfold WriteByte.
    unfold entry_bytes at 2. cbn [e_t]. rewrite <- app_assoc. f_equal.
    autorewrite with quic_len. lia.
  - change (entryCommon =? entryCached) with false. change (entryCommon =? entryCommon) with true.
    cbv iota. rewrite IH. cbn [map concat compressedCerts e_t].
    change (negb (entryCommon =? entryCompressed)) with true. cbv iota. f_equal.
    rewrite WriteUint32_le, WriteUint64_le. unfold WriteByte, entry_bytes at 2. cbn [e_t e_h e_i].
    change (entryCommon =? entryCompressed) with false. cbv iota. by rewrite <- !app_assoc.
Qed.

Lemma readEntries_written entries chain fuel rest c0 e0 :
  sets_ok -> Forall2 entry_for entries chain ->
  (length (concat (map entry_bytes entries)) < fuel)%nat ->
  readEntries fuel (concat (map entry_bytes entries) ++ 0 :: rest) c0 e0 =
    Ok (rest, c0 ++ blank entries chain, e0 ++ entries).
Proof.
  intros Hsets HF. revert fuel c0 e0; induction HF as [|e cert es cs He HF IH]; intros fuel c0 e0 Hf.
  { cbn. destruct fuel; cbn; by rewrite !app_nil_r. }
  destruct fuel as [|fuel]; [lia|]. cbn [map concat] in *. rewrite length_app in Hf.
  destruct He as [-> | (h & set & i & -> & Es & Hi)].
  - cbn -[readEntries le_bytes blank]. cbn [readEntries].
    change (entryCompressed =? 0) with false. change (entryCompressed =? entryCached) with false.
    change (entryCompressed =? entryCommon) with false. change (entryCompressed =? entryCompressed) with true.
    cbv iota. rewrite IH by (cbn in Hf; lia). by rewrite <- !app_assoc.
  - destruct (Hsets _ _ Es) as [Hh Hlen]. pose proof (lookup_lt_Some _ _ _ Hi) as Hlt.
    assert (entry_bytes (mkEntry entryCommon h (Z.of_nat i)) =
      entryCommon :: le_bytes 8 h ++ le_bytes 4 (Z.of_nat i)) as Eb by done.
    rewrite Eb in *. rewrite <- app_assoc, <- app_comm_cons, <- !app_assoc. cbn [readEntries].
    change (entryCommon =? 0) with false. change (entryCommon =? entryCached) with false.
    change (entryCommon =? entryCommon) with true. cbv iota.
    rewrite ReadUint64_le. cbn [rbind]. rewrite ReadUint32_le. cbn [rbind].
    rewrite (u64_small h) by done.
    rewrite Es, (u32_small (Z.of_nat i)), (u32_small (len set)) by (unfold_width; unfold len in *; lia).
    rewrite Z.geb_leb, (proj2 (Z.leb_gt _ _)) by (unfold len; lia). rewrite Nat2Z.id, Hi.
    rewrite IH by (cbn in Hf; lia). by rewrite <- !app_assoc.
Qed.

(** The pieces that the loop reads one by one: for every compressed certificate its length and
    its bytes *)
Fixpoint certReads (entries : list entry) (chain : list (list Z)) : list (list Z) :=
  match entries, chain with
  | e :: entries, cert :: chain =>
      if e_t e =? entryCompressed then le_bytes 4 (len cert) :: cert :: certReads entries chain
      else certReads entries chain
  | _, _ => []
  end.

(** No read is short: every chunk of the reader holds whole pieces. *)
Definition whole_reads (chunks pieces : list (list Z)) : Prop :=
  exists groups, chunks = map (@concat _) groups /\ Forall (fun g => g <> []) groups /\ concat groups = pieces.

Lemma gz_Read_whole chunks err p pieces :
  whole_reads chunks (p :: pieces) -> Forall (fun p => p <> []) (p :: pieces) ->
  exists chunks', whole_reads chunks' pieces /\ (pieces <> [] -> chunks' <> []) /\
    gz_Read (mkGzReader chunks err) (len p) =
      (len p, p, match chunks' with [] => Some err | _ => None end, mkGzReader chunks' err).
Proof.
  intros (groups & -> & Hg & Hc) [Hp Hps]%Forall_cons.
  destruct groups as [|[|p' ps] gs]; [done|by apply Forall_cons in Hg as [? _]|].
  apply Forall_cons in Hg as [_ Hg]. cbn in Hc. injection Hc as -> <-.
  exists (match concat ps with [] => map (@concat _) gs | _ => concat ps :: map (@concat _) gs end).
  assert (concat ps = [] -> ps = []) as Hps0.
  { destruct ps as [|q ps]; [done|]. cbn in *. apply Forall_cons in Hps as [Hq _]. by intros [-> _]%app_eq_nil. }
  split; [|split].
  - destruct (concat ps) as [|x l] eqn:E; [rewrite (Hps0 eq_refl); by exists gs|].
    exists (ps :: gs). cbn. rewrite E. split; [done|]. split; [|done]. constructor; [|done]. by intros ->.
  - destruct (concat ps) as [|x l] eqn:E; [rewrite (Hps0 eq_refl)|done]. by destruct gs.
  - unfold gz_Read. cbn [map concat gz_chunks gz_err].
    rewrite len_app, Z.min_l by (pose proof (len_nonneg (concat ps)); lia).
    rewrite take_len_app, drop_len_app, Z.sub_diag. cbn [Z.to_nat replicate]. by rewrite app_nil_r.
Qed.

Lemma readCerts_skip fuel gz entries chain tl ul ci e :
  entries !! ci = Some e -> e_t e <> entryCompressed ->
  readCerts fuel gz entries chain tl ul ci = readCerts fuel gz entries chain tl ul (S ci).
Proof.
  intros Hi He. destruct fuel as [|fuel]; [done|]. cbn [readCerts].
  replace (nextCompressed (drop ci entries) ci) with (nextCompressed (drop (S ci) entries) (S ci)); [done|].
  rewrite (drop_S _ _ _ Hi). cbn [nextCompressed]. by rewrite (proj2 (Z.eqb_neq _ _)).
Qed.

Lemma certReads_nonempty entries chain :
  Forall (fun cert => cert <> []) chain -> Forall (fun p => p <> []) (certReads entries chain).
Proof.
  intros Hne. revert entries. induction Hne as [|cert cs Hc _ IH]; intros [|e es]; cbn; [constructor..|].
  destruct (_ =? _); [|done]. by repeat constructor.
Qed.

Lemma cert_length_bytes (cert : list Z) :
  [Z.land (len cert) 0xff; Z.land (Z.shiftr (len cert) 8) 0xff;
   Z.land (Z.shiftr (len cert) 16) 0xff; Z.land (Z.shiftr (len cert) 24) 0xff] = le_bytes 4 (len cert).
Proof.
  cbn [le_bytes]. rewrite !land_255, !Z.shiftr_shiftr by lia. done.
Qed.

Lemma certReads_concat entries chain : concat (certReads entries chain) = compressedCerts entries chain.
Proof.
  revert chain. induction entries as [|e es IH]; intros [|cert cs]; cbn [certReads compressedCerts concat]; [done..|].
  destruct (e_t e =? entryCompressed); cbn [negb concat]; [|done]. by rewrite IH, cert_length_bytes.
Qed.

(** The loop fills the compressed entries with the certificates, in order. *)
Lemma readCerts_fill entries chain d cd fuel tl ul chunks err :
  Forall2 entry_for entries chain -> Forall (fun cert => cert <> []) chain -> length d = length cd ->
  0 <= tl -> tl + len (compressedCerts entries chain) = ul -> ul < 2 ^ 32 ->
  (length (compressedCerts entries chain) < fuel)%nat -> whole_reads chunks (certReads entries chain) ->
  readCerts fuel (mkGzReader chunks err) (d ++ entries) (cd ++ blank entries chain)
    tl ul (length d) = Ok (cd ++ chain).
Proof.
  intros HF. revert d cd fuel tl chunks; induction HF as [|e cert es cs He HF IH];
    intros d cd fuel tl chunks Hne Hl H0 Htl Hul Hf Hw.
  { cbn [compressedCerts] in *. rewrite len_nil in Htl. destruct fuel as [|fuel]; [cbn in Hf; lia|].
    cbn [readCerts]. by rewrite (proj2 (Z.ltb_ge _ _)) by lia. }
  pose proof (certReads_nonempty (e :: es) _ Hne) as Hpieces.
  apply Forall_cons in Hne as [Hc Hne]. unfold blank. cbn [zip_with].
  destruct He as [-> | (h & set & i & -> & _)]; cbn [e_t compressedCerts certReads] in *.
  - change (negb (entryCompressed =? entryCompressed)) with false in *.
    change (entryCompressed =? entryCompressed) with true in *. cbv iota in *.
    rewrite cert_length_bytes in *. autorewrite with quic_len in Htl.
    rewrite !length_app, length_le_bytes in Hf. destruct fuel as [|fuel]; [lia|]. cbn [readCerts].
    pose proof (len_nonneg (compressedCerts es cs)). pose proof (len_nonneg cert).
    rewrite (proj2 (Z.ltb_lt _ _)) by lia.
    destruct (gz_Read_whole _ err _ _ Hw Hpieces) as (chunks1 & Hw1 & Hne1 & E1).
    apply Forall_cons in Hpieces as [_ Hpieces].
    destruct (gz_Read_whole _ err _ _ Hw1 Hpieces) as (chunks2 & Hw2 & _ & E2).
    change (len (le_bytes 4 (len cert))) with 4 in E1. rewrite E1.
    destruct chunks1 as [|x l]; [by destruct Hne1|]. cbv iota.
    rewrite le_value_bytes. calc. rewrite Z.mod_small by lia. rewrite E2.
    rewrite u32_small by (unfold_width; lia). rewrite Z.eqb_refl. cbn [negb].
    cbv iota. rewrite drop_app_length. cbn [nextCompressed e_t].
    change (entryCompressed =? entryCompressed) with true. cbv iota.
    rewrite Hl, insert_app_r_alt, Nat.sub_diag by lia. cbn [list_insert insert].
    rewrite (u32_small (4 + len cert)), u32_small by (unfold_width; lia).
    specialize (IH (d ++ [mkEntry entryCompressed 0 0]) (cd ++ [cert]) fuel (tl + (4 + len cert)) chunks2 Hne).
    rewrite !length_app in IH. cbn [length] in IH. rewrite <- !app_assoc in IH.
    rewrite Hl, Nat.add_1_r in IH. apply IH; (lia || done).
  - change (negb (entryCommon =? entryCompressed)) with true in *.
    change (entryCommon =? entryCompressed) with false in *. cbv iota in *.
    rewrite (readCerts_skip _ _ _ _ _ _ _ (mkEntry entryCommon h (Z.of_nat i)))
      by (done || by rewrite lookup_app_r, Nat.sub_diag by lia).
    specialize (IH (d ++ [mkEntry entryCommon h (Z.of_nat i)]) (cd ++ [cert]) fuel tl chunks Hne).
    rewrite !length_app in IH. cbn [length] in IH. rewrite <- !app_assoc in IH.
    rewrite Nat.add_1_r in IH. apply IH; (lia || done).
Qed.

Lemma compressed_exists entries chain :
  Forall2 entry_for entries chain ->
  existsb (fun e => e_t e =? entryCompressed) entries = (len (compressedCerts entries chain) >? 0).
Proof.
  induction 1 as [|e cert es cs He HF IH]; [done|]. cbn [existsb compressedCerts].
  destruct He as [-> | (h & set & i & -> & _)]; cbn [e_t].
  - change (entryCompressed =? entryCompressed) with true. cbn [negb orb]. autorewrite with quic_len.
    pose proof (len_nonneg cert). pose proof (len_nonneg (compressedCerts es cs)).
    symmetry. rewrite Z.gtb_ltb. apply Z.ltb_lt. lia.
  - change (entryCommon =? entryCompressed) with false. cbn [negb orb]. done.
Qed.

(** The dictionary does not depend on the compressed certificates. *)
Lemma buildZlibDict_blank entries chain :
  buildZlibDictForEntries entries (blank entries chain) = buildZlibDictForEntries entries chain.
Proof.
  unfold buildZlibDictForEntries, blank. do 3 f_equal.
  revert chain; induction entries as [|e es IH]; intros [|cert cs]; cbn; [done..|].
  rewrite IH. by destruct (_ =? _).
Qed.

(** What the client's decompressor starts from, for a chain that the server has compressed *)
Lemma decompress_compressed chain ccs setHashes :
  sets_ok -> splitHashes ccs = Ok setHashes ->
  let entries := buildEntries chain (map HashCert chain) [] setHashes in
  let data := compressedCerts entries chain in
  let dict := buildZlibDictForEntries entries chain in
  Forall2 entry_for entries chain /\
  exists z, compressChain chain ccs [] = Ok z /\
  decompressChain z =
    if len entries =? 0 then Ok []
    else if len data >? 0 then
      let! gz := zlib_NewReaderDict dict (zlib_compress dict data) in
      readCerts (S (gz_left gz)) gz entries (blank entries chain) 0 (u32 (len data)) 0
    else Ok chain.
Proof.
  intros Hsets Hs. cbv zeta. set (entries := buildEntries _ _ _ _).
  assert (Forall2 entry_for entries chain) as HF by by apply buildEntries_for.
  split; [done|]. unfold compressChain. change (splitHashes []) with (@Ok (list Z) []).
  rewrite Hs. cbn [rbind]. fold entries. rewrite writeEntries_bytes by done. rewrite Z.add_0_l. cbn [app].
  set (data := compressedCerts entries chain).
  assert (forall tail, readEntries (length (WriteByte (concat (map entry_bytes entries)) 0 ++ tail))
    (WriteByte (concat (map entry_bytes entries)) 0 ++ tail) [] [] = Ok (tail, blank entries chain, entries)) as Hread.
  { intros tail. unfold WriteByte. rewrite <- app_assoc. cbn [app].
    rewrite (readEntries_written entries chain) by (done || (rewrite length_app; cbn; lia)). done. }
  pose proof (compressed_exists _ _ HF) as Hex. fold data in Hex.
  destruct (len data >? 0) eqn:Ed; eexists; (split; [reflexivity|]); unfold decompressChain.
  - rewrite WriteUint32_le, <- app_assoc, Hread. cbn [rbind]. destruct (len entries =? 0); [done|].
    rewrite Hex, ReadUint32_le. cbn [rbind]. rewrite buildZlibDict_blank.
    replace (u32 (u32 (len data))) with (u32 (len data)); [done|]. unfold u32. by rewrite Z.mod_mod by lia.
  - rewrite <- (app_nil_r (WriteByte _ _)), Hread. cbn [rbind]. destruct (len entries =? 0) eqn:El; [done|].
    rewrite Hex. f_equal. clear -Hex HF. induction HF as [|e cert es cs He HF IH]; [done|].
    cbn in Hex. apply orb_false_iff in Hex as [H1 H2]. unfold blank in *. cbn. rewrite H1. f_equal. by apply IH.
Qed.

Lemma certs_roundtrip chain ccs setHashes :
  sets_ok -> splitHashes ccs = Ok setHashes -> Forall (fun cert => cert <> []) chain ->
  let entries := buildEntries chain (map HashCert chain) [] setHashes in
  let data := compressedCerts entries chain in
  let dict := buildZlibDictForEntries entries chain in
  len data < 2 ^ 32 ->
  (data <> [] -> exists gz, zlib_NewReaderDict dict (zlib_compress dict data) = Ok gz /\
    whole_reads (gz_chunks gz) (certReads entries chain)) ->
  exists z, compressChain chain ccs [] = Ok z /\ decompressChain z = Ok chain.
Proof.
  intros Hsets Hs Hne entries data dict Hlen Hz.
  destruct (decompress_compressed chain ccs setHashes Hsets Hs) as (HF & z & Ez & Hd).
  fold entries in HF, Hd. fold data dict in Hd. exists z. split; [done|]. rewrite Hd.
  assert (length entries = length chain) as Hl by by eapply Forall2_length.
  destruct (Z.eqb_spec (len entries) 0) as [E|E]; [apply len_zero in E; rewrite E in Hl; by destruct chain|].
  rewrite Z.gtb_ltb. destruct (Z.ltb_spec 0 (len data)) as [Hp|Hp]; [|done].
  destruct Hz as ([chunks err] & -> & Hw); [intros E'; apply (f_equal len) in E'; rewrite len_nil in E'; lia|]. cbn [rbind gz_chunks] in *.
  rewrite u32_small by (unfold_width; lia). pose proof (len_nonneg data).
  refine (readCerts_fill entries chain [] [] _ 0 (len data) chunks err HF Hne eq_refl _ _ _ _ Hw); [lia|reflexivity|exact Hlen|].
  destruct Hw as (groups & -> & _ & Hg). unfold gz_left. cbn [gz_chunks].
  rewrite <- certReads_concat, <- Hg, concat_concat. lia.
Qed.

(** A reader that holds the data in one chunk *)
Lemma one_chunk entries chain : Forall (fun cert => cert <> []) chain -> compressedCerts entries chain <> [] ->
  whole_reads [compressedCerts entries chain] (certReads entries chain).
Proof.
  intros Hne Hd. exists [certReads entries chain]. cbn. rewrite app_nil_r, certReads_concat. split; [done|].
  split; [|done]. constructor; [|done]. intros E. by rewrite <- certReads_concat, E in Hd.
Qed.
End compression.

(** zlib that stores its input, read back in chunks of at most [k] bytes *)
Fixpoint chunks (fuel k : nat) (l : list Z) : list (list Z) :=
  match fuel, l with
  | S fuel, _ :: _ => take k l :: chunks fuel k (drop k l)
  | _, _ => []
  end.
Definition storedZlib (k : nat) : Zlib := {|
  zlib_compress dict data := data;
  zlib_NewReaderDict dict r := Ok (mkGzReader (chunks (length r) k r) EOF);
|}.
Definition sampleSets : CertSets := {| certSets := {[ 77 := [[1; 2; 3]; [4; 5]] ]} |}.

Lemma sampleSets_ok : sets_ok (CS := sampleSets).
Proof.
  intros h set Hs. cbn in Hs. apply lookup_singleton_Some in Hs as [<- <-]. by vm_compute.
Qed.

(** *** Theorems *)

Section certificates_theorems.
Context `{CS : CertSets, ZL : Zlib}.

(** C30: a chain compressed for a client that has announced common certificate sets and no cached
    certificates is recovered by the client, when no read of the decompressor is short: the
    chunks in which it returns the data hold whole lengths and whole certificates. *)
Theorem cert_chain_roundtrip chain ccs setHashes :
  sets_ok -> splitHashes ccs = Ok setHashes -> Forall (fun cert => cert <> []) chain ->
  let entries := buildEntries chain (map HashCert chain) [] setHashes in
  let data := compressedCerts entries chain in
  let dict := buildZlibDictForEntries entries chain in
  len data < 2 ^ 32 ->
  (data <> [] -> exists gz, zlib_NewReaderDict dict (zlib_compress dict data) = Ok gz /\
    whole_reads (gz_chunks gz) (certReads entries chain)) ->
  exists z, compressChain chain ccs [] = Ok z /\ decompressChain z = Ok chain.
Proof. exact (certs_roundtrip chain ccs setHashes). Qed.

Lemma gz_Read_chunk l rest cs err :
  rest <> [] ->
  gz_Read (mkGzReader ((l ++ rest) :: cs) err) (len l) = (len l, l, None, mkGzReader (rest :: cs) err).
Proof.
  intros Hr. unfold gz_Read. cbn [gz_chunks gz_err].
  rewrite len_app, Z.min_l by (pose proof (len_nonneg rest); lia).
  rewrite take_len_app, drop_len_app, Z.sub_diag. cbn [Z.to_nat replicate]. rewrite app_nil_r.
  by destruct rest.
Qed.

Lemma readCerts_short cert k fuel :
  0 < k < len cert -> len cert < 2 ^ 31 ->
  readCerts (S (S fuel))
    (mkGzReader [le_bytes 4 (len cert) ++ take (Z.to_nat k) cert; drop (Z.to_nat k) cert] EOF)
    [mkEntry entryCompressed 0 0] [[]] 0 (4 + len cert) 0 =
  Ok [take (Z.to_nat k) cert ++ replicate (Z.to_nat (len cert - k)) 0].
Proof.
  intros Hk Hlen. set (a := take (Z.to_nat k) cert). set (b := drop (Z.to_nat k) cert).
  assert (len a = k) as Ha by (apply len_take; lia).
  assert (a <> []) as Hne by (intros E; rewrite E, len_nil in Ha; lia).
  remember (S fuel) as f. cbn [readCerts]. rewrite (proj2 (Z.ltb_lt _ _)) by lia.
  change 4 with (len (le_bytes 4 (len cert))) at 1.
  rewrite gz_Read_chunk by done. rewrite le_value_bytes. calc. rewrite Z.mod_small by lia.
  unfold gz_Read. cbn [gz_chunks gz_err]. rewrite Ha, Z.min_r by lia.
  rewrite (take_ge a), (drop_ge a) by (unfold len in Ha; lia).
  assert (b <> []) as Hb.
  { intros E. assert (len b = len cert - k) as Hl by (apply len_drop; lia). rewrite E, len_nil in Hl. lia. }
  destruct b as [|y l'] eqn:Eb; [done|]. destruct (negb _); cbn [drop nextCompressed e_t];
    change (entryCompressed =? entryCompressed) with true; cbv iota;
    cbn [insert list_insert]; rewrite (u32_small (4 + len cert)), u32_small by (unfold_width; lia);
    subst f; cbn [readCerts]; by rewrite (proj2 (Z.ltb_ge _ _)) by lia.
Qed.

(** A read of the decompressor that returns fewer bytes than asked for is not continued: when
    the data of a single certificate comes in two chunks, the client gets a certificate whose
    second part is zero, and no error. *)
Theorem short_read_corrupts_certificate cert k :
  let data := le_bytes 4 (len cert) ++ cert in
  let dict := certDictZlib in
  sets_ok -> 0 < k < len cert -> len cert < 2 ^ 31 ->
  zlib_NewReaderDict dict (zlib_compress dict data) =
    Ok (mkGzReader [le_bytes 4 (len cert) ++ take (Z.to_nat k) cert; drop (Z.to_nat k) cert] EOF) ->
  exists z, compressChain [cert] [] [] = Ok z /\
    decompressChain z = Ok [take (Z.to_nat k) cert ++ replicate (Z.to_nat (len cert - k)) 0].
Proof.
  intros data dict Hsets Hk Hlen Hz.
  assert (buildEntries [cert] (map HashCert [cert]) [] [] = [mkEntry entryCompressed 0 0]) as Ee by done.
  assert (compressedCerts [mkEntry entryCompressed 0 0] [cert] = data) as Ed.
  { cbn [compressedCerts e_t]. change (negb (entryCompressed =? entryCompressed)) with false. cbv iota.
    by rewrite cert_length_bytes, app_nil_r. }
  assert (len data = 4 + len cert) as El by (unfold data; by rewrite len_app, len_le_bytes).
  destruct (decompress_compressed [cert] [] [] Hsets eq_refl) as (_ & z & Ez & Hd).
  exists z. split; [done|]. rewrite Hd, Ee, Ed, El. change (len [_] =? 0) with false. cbv iota.
  rewrite Z.gtb_ltb, (proj2 (Z.ltb_lt _ _)) by lia.
  change (buildZlibDictForEntries [mkEntry entryCompressed 0 0] [cert]) with dict. rewrite Hz. cbn [rbind].
  change (blank [mkEntry entryCompressed 0 0] [cert]) with [@nil Z].
  rewrite u32_small by (unfold_width; lia). apply readCerts_short; lia.
Qed.
End certificates_theorems.

Lemma cert_chain_roundtrip_witness :
  exists z, compressChain (CS := sampleSets) (ZL := storedZlib 7) [[7; 8; 9]; [4; 5]; [6; 7; 9]] (le_bytes 8 77) [] = Ok z /\
    decompressChain (CS := sampleSets) (ZL := storedZlib 7) z = Ok [[7; 8; 9]; [4; 5]; [6; 7; 9]].
Proof.
  apply (cert_chain_roundtrip (CS := sampleSets) (ZL := storedZlib 7) [[7; 8; 9]; [4; 5]; [6; 7; 9]] (le_bytes 8 77) [77]).
  - apply sampleSets_ok.
  - vm_compute. reflexivity.
  - repeat constructor; discriminate.
  - vm_compute. reflexivity.
  - intros _. exists (mkGzReader [[3; 0; 0; 0; 7; 8; 9]; [3; 0; 0; 0; 6; 7; 9]] EOF). split; [vm_compute; reflexivity|].
    exists [[[3; 0; 0; 0]; [7; 8; 9]]; [[3; 0; 0; 0]; [6; 7; 9]]]. split; [reflexivity|].
    split; [repeat constructor; discriminate|vm_compute; reflexivity].
Defined.

Lemma short_read_corrupts_certificate_witness :
  exists z, compressChain (CS := sampleSets) (ZL := storedZlib 6) [[7; 8; 9; 10]] [] [] = Ok z /\
    decompressChain (CS := sampleSets) (ZL := storedZlib 6) z = Ok [[7; 8; 0; 0]].
Proof.
  apply (short_read_corrupts_certificate (CS := sampleSets) (ZL := storedZlib 6) [7; 8; 9; 10] 2).
  - apply sampleSets_ok.
  - vm_compute. split; reflexivity.
  - vm_compute. reflexivity.
  - vm_compute. reflexivity.
Defined.

(** ** crypto/cert_cache.go *)

(** The LRU cache of package golang-lru *)
Class LruCache (C : Type) : Type := {
  lru_Get : C -> Z -> option (list Z) * C;
  lru_Add : C -> Z -> list Z -> C;
}.
Class LruCacheLaws (C : Type) `{LruCache C} : Prop := {
  lru_Get_Add c k v : (lru_Get (lru_Add c k v) k).1 = Some v;
  lru_Get_Get c k j : (lru_Get (lru_Get c k).2 j).1 = (lru_Get c j).1;
  lru_Get_evict c k v j w : j <> k -> (lru_Get (lru_Add c k v) j).1 = Some w -> (lru_Get c j).1 = Some w;
}.

Section cache.
Context `{CS : CertSets, ZL : Zlib} {C : Type} `{LC : LruCache C}.

Definition getCompressedCert (compressedCertsCache : C) (chain : list (list Z))
    (pCommonSetHashes pCachedHashes : list Z) : C * res (list Z) :=
  let hasher := foldl fnv64a_Write fnv64a_New chain in
  let hasher := fnv64a_Write hasher pCommonSetHashes in
  let hash := fnv64a_Write hasher pCachedHashes in
  match lru_Get compressedCertsCache hash with
  | (Some result, c) => (c, Ok result)
  | (None, c) =>
      match compressChain chain pCommonSetHashes pCachedHashes with
      | Ok result => (lru_Add c hash result, Ok result)
      | Err e => (c, Err e)
      | Panic => (c, Panic)
      end
  end.

(** The key of the cache does not separate the two lists of hashes: after a request with
    hashes of common sets, a request for the same chain with the same bytes as hashes of
    cached certificates gets the answer to the first one, whatever [compressChain] gives. *)
Theorem cert_cache_confuses_hashes `{LL : !LruCacheLaws C} c c' chain hashes z :
  getCompressedCert c chain hashes [] = (c', Ok z) ->
  exists c'', getCompressedCert c' chain [] hashes = (c'', Ok z).
Proof.
  unfold getCompressedCert. cbn [fnv64a_Write foldl].
  set (k := fnv64a_Write _ hashes). change (fnv64a_Write k []) with k.
  set (h := foldl fnv64a_Write fnv64a_New chain) in *. change (fnv64a_Write h []) with h. fold k.
  destruct (lru_Get c k) as [[r|] c1] eqn:E.
  - intros [= <- <-]. pose proof (lru_Get_Get c k k) as Hg. rewrite E in Hg. cbn in Hg.
    rewrite (surjective_pairing (lru_Get c1 k)), Hg. eauto.
  - destruct (compressChain chain hashes []) as [z'|e|]; [|done..]. intros [= <- <-].
    rewrite (surjective_pairing (lru_Get (lru_Add c1 k z') k)), lru_Get_Add. eauto.
Qed.

(** *** Requests in a row *)

(** A chain with the hashes of common sets and of cached certificates, what is sent for it,
    and the key of the cache for it *)
Definition certRequest : Type := list (list Z) * list Z * list Z.
Definition compressed (r : certRequest) : res (list Z) := compressChain r.1.1 r.1.2 r.2.
Definition cacheKey (r : certRequest) : Z :=
  fnv64a_Write (fnv64a_Write (foldl fnv64a_Write fnv64a_New r.1.1) r.1.2) r.2.

Fixpoint cachedRequests (c : C) (rs : list certRequest) : list (res (list Z)) :=
  match rs with
  | [] => []
  | r :: rs => let (c, z) := getCompressedCert c r.1.1 r.1.2 r.2 in z :: cachedRequests c rs
  end.

(** What is in the cache is the answer to every request with its key. *)
Definition cache_sound (all : list certRequest) (c : C) : Prop :=
  forall r z, r ∈ all -> (lru_Get c (cacheKey r)).1 = Some z -> compressed r = Ok z.

Lemma getCompressedCert_sound `{LL : !LruCacheLaws C} all c r :
  (forall q q', q ∈ all -> q' ∈ all -> cacheKey q = cacheKey q' -> compressed q = compressed q') ->
  r ∈ all -> cache_sound all c ->
  exists c', getCompressedCert c r.1.1 r.1.2 r.2 = (c', compressed r) /\ cache_sound all c'.
Proof.
  intros Hinj Hr Hc. unfold getCompressedCert. fold (cacheKey r) (compressed r).
  pose proof (lru_Get_Get c (cacheKey r)) as Hg. pose proof (Hc r) as Hcr.
  destruct (lru_Get c (cacheKey r)) as [[z|] c1] eqn:E; cbn [fst snd] in *.
  - exists c1. rewrite (Hcr z Hr eq_refl). split; [done|]. intros q y Hq. rewrite Hg. by apply Hc.
  - assert (cache_sound all c1) as Hc1 by (intros q y Hq; rewrite Hg; by apply Hc).
    destruct (compressed r) as [z|err|] eqn:Ez; [|by exists c1..].
    exists (lru_Add c1 (cacheKey r) z). split; [done|]. intros q y Hq Hy.
    destruct (decide (cacheKey q = cacheKey r)) as [Eq|Hne].
    + rewrite Eq, lru_Get_Add in Hy. injection Hy as <-. by rewrite (Hinj q r).
    + apply Hc1; [done|]. by eapply lru_Get_evict.
Qed.

Lemma cachedRequests_compressed `{LL : !LruCacheLaws C} all rs c :
  (forall q q', q ∈ all -> q' ∈ all -> cacheKey q = cacheKey q' -> compressed q = compressed q') ->
  (forall r, r ∈ rs -> r ∈ all) -> cache_sound all c -> cachedRequests c rs = map compressed rs.
Proof.
  intros Hinj. revert c. induction rs as [|r rs IH]; intros c Hin Hc; [done|]. cbn [cachedRequests map].
  destruct (getCompressedCert_sound all c r Hinj ltac:(apply Hin; left) Hc) as (c' & -> & Hc').
  f_equal. apply IH; [|done]. intros q Hq. apply Hin. by right.
Qed.

(** The bytes that are hashed, and how a request cuts them into certificates and hashes *)
Definition keyBytes (r : certRequest) : list Z := concat r.1.1 ++ r.1.2 ++ r.2.
Definition keyCut (r : certRequest) : list nat * nat := (map length r.1.1, length r.1.2).

Lemma fnv64a_Write_app h l k : fnv64a_Write (fnv64a_Write h l) k = fnv64a_Write h (l ++ k).
Proof. unfold fnv64a_Write. by rewrite foldl_app. Qed.

Lemma cacheKey_bytes r : cacheKey r = fnv64a_Write fnv64a_New (keyBytes r).
Proof.
  unfold cacheKey, keyBytes. rewrite !fnv64a_Write_app, <- !fnv64a_Write_app. do 2 f_equal.
  generalize fnv64a_New. induction r.1.1 as [|cert chain IH]; intros h; [done|]. cbn [foldl concat].
  by rewrite IH, fnv64a_Write_app.
Qed.

Lemma concat_cut (chain chain' : list (list Z)) l l' :
  map length chain = map length chain' -> concat chain ++ l = concat chain' ++ l' -> chain = chain' /\ l = l'.
Proof.
  revert chain'. induction chain as [|cert chain IH]; intros [|cert' chain']; cbn; [done..|].
  intros [= El Em] Ec. rewrite <- !app_assoc in Ec. apply app_inj_1 in Ec as [-> Ec]; [|done].
  by destruct (IH chain' Em Ec) as [-> ->].
Qed.

Lemma keyBytes_cut q q' : keyBytes q = keyBytes q' -> keyCut q = keyCut q' -> q = q'.
Proof.
  destruct q as [[chain common] cached], q' as [[chain' common'] cached']. unfold keyBytes, keyCut. cbn.
  intros Eb [= Em El]. apply concat_cut in Eb as [-> Eb]; [|done]. by apply app_inj_1 in Eb as [-> ->].
Qed.

(** C31: the cache does not change the answers: for every sequence of requests, whatever the
    cache evicts, the certificates are those that compressing each chain anew gives.  The
    hash does not collide on the bytes of these requests, and two requests with the same bytes
    cut them in the same way: the bytes alone do not tell where a certificate or a list of
    hashes ends. *)
Theorem cert_cache_transparent `{LL : !LruCacheLaws C} empty rs :
  (forall k, (lru_Get empty k).1 = None) ->
  (forall q q', q ∈ rs -> q' ∈ rs ->
    fnv64a_Write fnv64a_New (keyBytes q) = fnv64a_Write fnv64a_New (keyBytes q') -> keyBytes q = keyBytes q') ->
  (forall q q', q ∈ rs -> q' ∈ rs -> keyBytes q = keyBytes q' -> keyCut q = keyCut q') ->
  cachedRequests empty rs = map compressed rs.
Proof.
  intros He Hinj Hcut. apply (cachedRequests_compressed rs); [|done|].
  - intros q q' Hq Hq'. rewrite !cacheKey_bytes. intros E. f_equal. apply keyBytes_cut; eauto.
  - intros r z _. by rewrite He.
Qed.
End cache.

(** A cache of two entries, the latest first *)
Definition lru2_entry (c : list (Z * list Z)) (k : Z) : option (Z * list Z) := List.find (fun e => e.1 =? k) c.
Definition lru2_others (c : list (Z * list Z)) (k : Z) : list (Z * list Z) := List.filter (fun e => negb (e.1 =? k)) c.
#[local] Instance lru2 : LruCache (list (Z * list Z)) := {|
  lru_Get c k := match lru2_entry c k with Some e => (Some e.2, e :: lru2_others c k) | None => (None, c) end;
  lru_Add c k v := take 2 ((k, v) :: lru2_others c k);
|}.

Lemma lru2_entry_others c k j : j <> k -> lru2_entry (lru2_others c k) j = lru2_entry c j.
Proof.
  intros Hne. unfold lru2_entry, lru2_others. induction c as [|e c IH]; [done|]. cbn.
  destruct (Z.eqb_spec e.1 k), (Z.eqb_spec e.1 j); cbn; rewrite ?(proj2 (Z.eqb_eq _ _)), ?(proj2 (Z.eqb_neq _ _)) by done;
    (done || congruence).
Qed.

Lemma lru2_entry_take c n k e : lru2_entry (take n c) k = Some e -> lru2_entry c k = Some e.
Proof.
  unfold lru2_entry. revert n. induction c as [|f c IH]; intros [|n]; cbn; [done..|]. destruct (f.1 =? k); [done|]. apply IH.
Qed.

Lemma lru2_Get c k : (lru_Get c k).1 = snd <$> lru2_entry c k.
Proof. cbn. by destruct (lru2_entry c k). Qed.

#[local] Instance lru2_laws : LruCacheLaws (list (Z * list Z)).
Proof.
  constructor; intros *.
  - rewrite lru2_Get. cbn. by rewrite Z.eqb_refl.
  - rewrite !lru2_Get. cbn [lru_Get lru2]. destruct (lru2_entry c k) as [e|] eqn:E; [|done]. cbn [snd].
    pose proof (List.find_some _ _ E) as [_ Ek%Z.eqb_eq]. cbn [lru2_entry List.find].
    destruct (Z.eqb_spec e.1 j) as [<-|Hne]; [by rewrite Ek, E|]. fold (lru2_entry (lru2_others c k) j).
    rewrite lru2_entry_others by congruence. done.
  - intros Hne. rewrite !lru2_Get. cbn [lru_Add lru2].
    destruct (lru2_entry (take 2 _) j) as [e|] eqn:E; [|done]. apply lru2_entry_take in E.
    cbn [lru2_entry List.find fst] in E. rewrite (proj2 (Z.eqb_neq k j)) in E by done.
    fold (lru2_entry (lru2_others c k) j) in E. by rewrite lru2_entry_others in E by done; rewrite E.
Qed.

(** Three chains, of which the first is asked for again after it has been evicted *)
Lemma cert_cache_transparent_witness :
  cachedRequests (CS := sampleSets) (ZL := storedZlib 100) (C := list (Z * list Z)) []
    [([[7; 8]], [], []); ([[7]], le_bytes 8 77, []); ([[9]], [], []); ([[7; 8]], [], []); ([[9]], [], [1])] =
  map (compressed (CS := sampleSets) (ZL := storedZlib 100))
    [([[7; 8]], [], []); ([[7]], le_bytes 8 77, []); ([[9]], [], []); ([[7; 8]], [], []); ([[9]], [], [1])].
Proof.
  apply (cert_cache_transparent (CS := sampleSets) (ZL := storedZlib 100) (C := list (Z * list Z)) []).
  - reflexivity.
  - intros q q' Hq%list_elem_of_In Hq'%list_elem_of_In.
    destruct Hq as [<-|[<-|[<-|[<-|[<-|[]]]]]], Hq' as [<-|[<-|[<-|[<-|[<-|[]]]]]];
      vm_compute; intros E; (reflexivity || discriminate E).
  - intros q q' Hq%list_elem_of_In Hq'%list_elem_of_In.
    destruct Hq as [<-|[<-|[<-|[<-|[<-|[]]]]]], Hq' as [<-|[<-|[<-|[<-|[<-|[]]]]]];
      vm_compute; intros E; (reflexivity || discriminate E).
Defined.

(** A cache that never evicts *)
#[local] Instance mapCache : LruCache (gmap Z (list Z)) := {| lru_Get c k := (c !! k, c); lru_Add c k v := <[k := v]> c |}.
#[local] Instance mapCache_laws : LruCacheLaws (gmap Z (list Z)).
Proof. constructor; intros; [apply lookup_insert_eq|done|]. cbn in *. by rewrite lookup_insert_ne in * by done. Qed.

(** Here the answer for the cached certificate would be 10 bytes. *)
Lemma cert_cache_confuses_hashes_witness :
  (exists c'', getCompressedCert (CS := sampleSets) (ZL := storedZlib 100) (C := gmap Z (list Z))
    (getCompressedCert (CS := sampleSets) (ZL := storedZlib 100) (C := gmap Z (list Z)) ∅
       [[9]] (le_bytes 8 (HashCert [9])) []).1 [[9]] [] (le_bytes 8 (HashCert [9])) =
    (c'', Ok [1; 0; 5; 0; 0; 0; 1; 0; 0; 0; 9])) /\
  compressChain (CS := sampleSets) (ZL := storedZlib 100) [[9]] [] (le_bytes 8 (HashCert [9])) =
    Ok (2 :: le_bytes 8 (HashCert [9]) ++ [0]).
Proof.
  split; [|vm_compute; reflexivity].
  eapply (cert_cache_confuses_hashes (CS := sampleSets) (ZL := storedZlib 100) (C := gmap Z (list Z)) ∅).
  vm_compute. reflexivity.
Defined.
