(* ===== verification/CertManager.v ===== *)
(** * Package crypto: the server's certificate chain and the client's certificate manager

    [CertChain] and [CertManager] are the interfaces that the handshake uses; [certChain]
    (cert_chain.go, config_for_client_1.8.go) and [certManager] (cert_manager.go) implement
    them, with the proof of the server config of server_proof.go.  SHA-256, the signature
    schemes, X.509 and lower-casing beyond ASCII are the standard library's, as parameters. *)

From S2P Require Import Prelude Protocol Qerr Wire CertDict Crypto GoStrings Certs.

(** ** crypto/server_proof.go *)

(** Hashing, signing and verifying.  A key that is not RSA signs through its [Sign] method;
    a signature that is not RSA is a pair of integers in ASN.1. *)
Class Signatures : Type := {
  sha256 : list Z -> list Z;
  RSAPrivateKey : Type;
  SignerKey : Type;
  RSAPublicKey : Type;
  ECDSAPublicKey : Type;
  rsa_SignPSS : RSAPrivateKey -> list Z -> randomness -> res (list Z);
  signer_Sign : SignerKey -> list Z -> randomness -> res (list Z);
  rsa_VerifyPSS : RSAPublicKey -> list Z -> list Z -> bool;
  asn1_Unmarshal : list Z -> res (Z * Z * list Z);
  ecdsa_Verify : ECDSAPublicKey -> list Z -> Z -> Z -> bool;
}.

(** [cert.PrivateKey] by its dynamic type, and [cert.PublicKey] *)
Inductive privateKey `{Signatures} : Type :=
| PrivRSA (k : RSAPrivateKey)
| PrivSigner (k : SignerKey)
| PrivOther.
Inductive publicKey `{Signatures} : Type :=
| PubRSA (k : RSAPublicKey)
| PubECDSA (k : ECDSAPublicKey)
| PubOther.

(** The two keys of a certificate: what one signs the other verifies. *)
Definition key_pair `{Signatures} (priv : privateKey) (pub : publicKey) : Prop :=
  match priv, pub with
  | PrivRSA k, PubRSA p =>
      forall digest rand sig, rsa_SignPSS k digest rand = Ok sig -> rsa_VerifyPSS p digest sig = true
  | PrivSigner k, PubECDSA p =>
      forall digest rand sig, signer_Sign k digest rand = Ok sig ->
      exists r s, asn1_Unmarshal sig = Ok (r, s, []) /\ ecdsa_Verify p digest r s = true
  | _, _ => False
  end.

Definition signServerProof `{Signatures} (privKey : privateKey) (chlo serverConfigData : list Z)
    (rand : randomness) : res (list Z) :=
  let hash := bytes_of "QUIC CHLO and server config signature" ++ [0] in
  let chloHash := sha256 chlo in
  let hash := hash ++ [32; 0; 0; 0] in
  let hash := hash ++ chloHash in
  let hash := hash ++ serverConfigData in
  match privKey with
  | PrivOther => Err (ErrNew "expected PrivateKey to implement crypto.Signer")
  | PrivRSA key => rsa_SignPSS key (sha256 hash) rand
  | PrivSigner key => signer_Sign key (sha256 hash) rand
  end.

(** The type assertion of the public key panics when it is neither RSA nor ECDSA. *)
Definition verifyServerProof `{Signatures} (proof : list Z) (pubKey : publicKey)
    (chlo serverConfigData : list Z) : res bool :=
  let hash := bytes_of "QUIC CHLO and server config signature" ++ [0] in
  let chloHash := sha256 chlo in
  let hash := hash ++ [32; 0; 0; 0] in
  let hash := hash ++ chloHash in
  let hash := hash ++ serverConfigData in
  match pubKey with
  | PubRSA key => Ok (rsa_VerifyPSS key (sha256 hash) proof)
  | _ =>
      match asn1_Unmarshal proof with
      | Ok (r, s, []) =>
          match pubKey with
          | PubECDSA key => Ok (ecdsa_Verify key (sha256 hash) r s)
          | _ => Panic
          end
      | Panic => Panic
      | _ => Ok false
      end
  end.

(** ** crypto/cert_chain.go *)

Class CertChain (CC : Type) : Type := {
  SignServerProof : CC -> list Z -> list Z -> list Z -> randomness -> res (list Z);
  GetCertsCompressed : CC -> list Z -> list Z -> list Z -> res (list Z);
  GetLeafCert : CC -> list Z -> res (list Z);
}.

(** [tls.Certificate] and the fields of [tls.Config] that are used.  A callback is [None] when
    it is not set; a name is its bytes.  [cfg_NameToCertificate] is [None] for a nil map. *)
Record tlsCertificate `{Signatures} : Type := mkTlsCertificate {
  tc_Certificate : list (list Z);
  tc_PrivateKey : privateKey;
}.
Record certConfig `{Signatures} : Type := mkCertConfig {
  cfg_GetCertificate : option (list Z -> res (option tlsCertificate));
  cfg_Certificates : list tlsCertificate;
  cfg_NameToCertificate : option (gmap (list Z) tlsCertificate);
}.
(** The configuration with [GetConfigForClient], which can return a nil configuration *)
Record tlsConfig `{Signatures} : Type := mkTlsConfig {
  tls_GetConfigForClient : option (list Z -> res (option certConfig));
  tls_config : certConfig;
}.

Definition errNoMatchingCertificate : goerror := ErrNew "no matching certificate found".

(** [strings.Split(s, ".")] and [strings.Join(labels, ".")] *)
Definition splitDots (s : list Z) : list (list Z) := splitOn 46 s.
Definition joinDots (labels : list (list Z)) : list Z := joinWith [46] labels.

(** The loop that removes trailing dots, on the reversed name *)
Definition trimDots (name : list Z) : list Z := trimLeft (fun c => c =? 46) name.

(** The loop that replaces the labels with wildcards; [stars] are those already replaced. *)
Fixpoint tryWildcards {V} (names : gmap (list Z) V) (stars labels : list (list Z)) : option V :=
  match labels with
  | [] => None
  | _ :: labels =>
      let stars := stars ++ [bytes_of "*"] in
      match names !! joinDots (stars ++ labels) with
      | Some cert => Some cert
      | None => tryWildcards names stars labels
      end
  end.

Section certChain.
Context `{Sg : Signatures, CS : CertSets, ZL : Zlib} {LRU : Type} `{LC : LruCache LRU}.
Context (unicodeLower : list Z -> list Z).

Definition maybeGetConfigForClient (c : tlsConfig) (sni : list Z) : res (option certConfig) :=
  match tls_GetConfigForClient c with
  | None => Ok (Some (tls_config c))
  | Some f => f sni
  end.

(** The certificate by name, then by wildcard, then the first one *)
Definition certByName (c : certConfig) (sni : list Z) : res tlsCertificate :=
  match cfg_Certificates c with
  | [] => Err errNoMatchingCertificate
  | first :: others =>
      match others, cfg_NameToCertificate c with
      | [], _ => Ok first
      | _, None => Ok first
      | _, Some names =>
          let name := rev (trimDots (rev (ToLower unicodeLower sni))) in
          match names !! name with
          | Some cert => Ok cert
          | None =>
              match tryWildcards names [] (splitDots name) with
              | Some cert => Ok cert
              | None => Ok first
              end
          end
      end
  end.

Definition getCertForSNI (cc : tlsConfig) (sni : list Z) : res tlsCertificate :=
  let! c := maybeGetConfigForClient cc sni in
  match c with
  | None => Panic
  | Some c =>
      match cfg_GetCertificate c with
      | Some f =>
          match f sni with
          | Ok (Some cert) => Ok cert
          | Ok None => certByName c sni
          | Err e => Err e
          | Panic => Panic
          end
      | None => certByName c sni
      end
  end.

(** A [certChain] is its configuration; the cache of compressed chains is global. *)
Definition certChain_SignServerProof (c : tlsConfig) (sni chlo serverConfigData : list Z)
    (rand : randomness) : res (list Z) :=
  let! cert := getCertForSNI c sni in
  signServerProof (tc_PrivateKey cert) chlo serverConfigData rand.

Definition certChain_GetCertsCompressed (cache : LRU) (c : tlsConfig)
    (sni pCommonSetHashes pCachedHashes : list Z) : LRU * res (list Z) :=
  match getCertForSNI c sni with
  | Ok cert => getCompressedCert cache (tc_Certificate cert) pCommonSetHashes pCachedHashes
  | Err e => (cache, Err e)
  | Panic => (cache, Panic)
  end.

Definition certChain_GetLeafCert (c : tlsConfig) (sni : list Z) : res (list Z) :=
  let! cert := getCertForSNI c sni in
  match tc_Certificate cert with
  | [] => Panic
  | leaf :: _ => Ok leaf
  end.

(** What the chain answers while the cache is [cache] *)
#[local] Instance certChain_interface : CertChain (tlsConfig * LRU) := {|
  SignServerProof c := certChain_SignServerProof c.1;
  GetCertsCompressed c sni common cached := (certChain_GetCertsCompressed c.2 c.1 sni common cached).2;
  GetLeafCert c := certChain_GetLeafCert c.1;
|}.
End certChain.

(** ** crypto/cert_manager.go *)

Class CertManager (M : Type) : Type := {
  SetData : M -> list Z -> res M;
  GetCommonCertificateHashes : M -> list Z;
  ManagerLeafCert : M -> option (list Z);
  GetLeafCertHash : M -> res Z;
  VerifyServerProof : M -> list Z -> list Z -> list Z -> res bool;
  Verify : M -> list Z -> res unit;
}.

(** [x509.Certificate]: parsing, the bytes it was parsed from, its public key, and the
    verification of a chain with the given options *)
Class X509 {Sg : Signatures} : Type := {
  Certificate : Type;
  CertPool : Type;
  ParseCertificate : list Z -> res Certificate;
  Raw : Certificate -> list Z;
  PublicKey_of : Certificate -> publicKey;
  cert_Verify : Certificate -> option CertPool -> list Z -> option Z -> list Certificate -> res unit;
}.
Class X509Laws {Sg : Signatures} (X : X509) : Prop := {
  ParseCertificate_Raw data cert : ParseCertificate data = Ok cert -> Raw cert = data;
  ParseCertificate_safe data : ParseCertificate data <> Panic;
}.

(** The client's [tls.Config] *)
Record clientTLS {Sg : Signatures} {X : X509} : Type := mkClientTLS {
  ct_InsecureSkipVerify : bool;
  ct_RootCAs : option CertPool;
  ct_ServerName : list Z;
  ct_Time : option Z;
}.

Section certManager.
Context {Sg : Signatures} {X : X509} `{CS : CertSets, ZL : Zlib}.

Record certManager : Type := mkCertManager {
  cm_chain : list Certificate;
  cm_config : option clientTLS;
}.

Definition errNoCertificateChain : goerror := ErrNew "CertManager BUG: No certicifate chain loaded".

Definition NewCertManager (tlsConfig : option clientTLS) : certManager := mkCertManager [] tlsConfig.

Fixpoint parseChain (byteChain : list (list Z)) : res (list Certificate) :=
  match byteChain with
  | [] => Ok []
  | data :: byteChain =>
      let! cert := ParseCertificate data in
      let! chain := parseChain byteChain in
      Ok (cert :: chain)
  end.

Definition certManager_SetData (c : certManager) (data : list Z) : res certManager :=
  match decompressChain data with
  | Ok byteChain =>
      let! chain := parseChain byteChain in
      Ok (mkCertManager chain (cm_config c))
  | Err _ => Err (QuicError InvalidCryptoMessageParameter (Msg "Certificate data invalid"))
  | Panic => Panic
  end.

Definition certManager_GetLeafCert (c : certManager) : option (list Z) :=
  match cm_chain c with
  | [] => None
  | leaf :: _ => Some (Raw leaf)
  end.

Definition certManager_GetLeafCertHash (c : certManager) : res Z :=
  match certManager_GetLeafCert c with
  | None => Err errNoCertificateChain
  | Some leafCert => Ok (fnv64a_Write fnv64a_New leafCert)
  end.

Definition certManager_VerifyServerProof (c : certManager) (proof chlo serverConfigData : list Z) : res bool :=
  match cm_chain c with
  | [] => Ok false
  | leaf :: _ => verifyServerProof proof (PublicKey_of leaf) chlo serverConfigData
  end.

(** [now] is the current time. *)
Definition certManager_Verify (now : Z) (c : certManager) (hostname : list Z) : res unit :=
  match cm_chain c with
  | [] => Err errNoCertificateChain
  | leafCert :: others =>
      match cm_config c with
      | Some config =>
          if ct_InsecureSkipVerify config then Ok tt
          else cert_Verify leafCert (ct_RootCAs config) (ct_ServerName config)
                 (Some (default now (ct_Time config))) others
      | None => cert_Verify leafCert None hostname None others
      end
  end.

(** [order] is the order of the iteration over the certificate sets. *)
Definition certManager_interface (now : Z) (order : list Z) : CertManager certManager := {|
  SetData := certManager_SetData;
  GetCommonCertificateHashes _ := getCommonCertificateHashes order;
  ManagerLeafCert := certManager_GetLeafCert;
  GetLeafCertHash := certManager_GetLeafCertHash;
  VerifyServerProof := certManager_VerifyServerProof;
  Verify := certManager_Verify now;
|}.
End certManager.

(** ** The exchange of the certificate

    What the handshake relies on: the chain that a server sends for [host] is accepted by the
    client's manager, which then has its leaf certificate and verifies the server's proofs. *)
Class CertExchange {CC M : Type} `{CertChain CC, CertManager M} (cc : CC) (m : M) (host : list Z) : Prop := {
  cert_delivered : exists leaf crt m',
    GetLeafCert cc host = Ok leaf /\ leaf <> [] /\
    GetCertsCompressed cc host (GetCommonCertificateHashes m) [] = Ok crt /\
    bytes_ok crt /\ len crt <= CryptoParameterMaxLength /\
    SetData m crt = Ok m' /\ ManagerLeafCert m' = Some leaf /\
    GetLeafCertHash m' = Ok (HashCert leaf) /\ Verify m' host = Ok tt /\
    GetCommonCertificateHashes m' = GetCommonCertificateHashes m /\
    forall chlo scfg rand proof, SignServerProof cc host chlo scfg rand = Ok proof ->
      VerifyServerProof m' proof chlo scfg = Ok true;
}.

Section exchange.
Context {Sg : Signatures} {X : X509} {XL : X509Laws X} `{CS : CertSets, ZL : Zlib}.
Context {LRU : Type} `{LC : LruCache LRU} (unicodeLower : list Z -> list Z).

(** A proof that the server signs with the key of its certificate is verified by a client
    that hashes the same hello and server config. *)
Theorem server_proof_verifies priv pub chlo scfg rand proof :
  key_pair priv pub -> signServerProof priv chlo scfg rand = Ok proof ->
  verifyServerProof proof pub chlo scfg = Ok true.
Proof.
  intros Hk Hs. unfold signServerProof, verifyServerProof in *. cbv zeta in *.
  destruct priv as [k|k|], pub as [p|p|]; try done; cbn in Hk.
  - by rewrite (Hk _ _ _ Hs).
  - destruct (Hk _ _ _ Hs) as (r & s & -> & ->). done.
Qed.

Lemma splitHashes_loop_concat order :
  Forall is_u64 order ->
  splitHashes_loop (length order) (getCommonCertificateHashes order) = order.
Proof.
  unfold getCommonCertificateHashes.
  induction 1 as [|h hs Hh Hhs IH]; [done|]. cbn [length map concat splitHashes_loop].
  rewrite (take_app_length' (le_bytes 8 h)), (drop_app_length' (le_bytes 8 h)) by by rewrite length_le_bytes.
  rewrite IH, le_value_bytes. calc. by rewrite Z.mod_small by done.
Qed.

Lemma splitHashes_common order :
  Forall is_u64 order -> splitHashes (getCommonCertificateHashes order) = Ok order.
Proof.
  intros Ho. assert (len (getCommonCertificateHashes order) = len order * 8) as Hl.
  { unfold getCommonCertificateHashes. clear Ho. induction order as [|h hs IH]; [done|].
    cbn [map concat]. autorewrite with quic_len. rewrite IH. lia. }
  unfold splitHashes. rewrite Hl, Z.mod_mul, Z.div_mul by lia. cbn [Z.eqb negb].
  unfold len. rewrite Nat2Z.id. by rewrite splitHashes_loop_concat.
Qed.

Lemma parseChain_head chain certs :
  parseChain chain = Ok certs ->
  certManager_GetLeafCert (mkCertManager certs None) = head chain.
Proof.
  destruct chain as [|d ds]; cbn; [by intros [= <-]|].
  intros H. inv_ok. cbn. f_equal. by apply ParseCertificate_Raw.
Qed.

Section instance.
Context (now : Z) (order : list Z) (cache : LRU) (cc : tlsConfig) (host : list Z).
Context (cert : tlsCertificate) (leaf : list Z) (others : list (list Z)) (certs : list Certificate).
Context (config : option clientTLS).

(** The server has a certificate for the host whose chain fits a handshake parameter; its
    certificates parse, and the client accepts the chain for the host. *)
Record exchange_ok : Prop := {
  xo_cert : getCertForSNI unicodeLower cc host = Ok cert;
  xo_chain : tc_Certificate cert = leaf :: others;
  xo_nonempty : Forall (fun c => c <> []) (leaf :: others);
  xo_parse : parseChain (leaf :: others) = Ok certs;
  xo_keys : exists c cs, certs = c :: cs /\ key_pair (tc_PrivateKey cert) (PublicKey_of c);
  xo_sets : sets_ok;
  xo_order : Forall is_u64 order;
  xo_cold : forall k, (lru_Get cache k).1 = None;
  xo_zlib : let entries := buildEntries (leaf :: others) (map HashCert (leaf :: others)) [] order in
    let data := compressedCerts entries (leaf :: others) in
    let dict := buildZlibDictForEntries entries (leaf :: others) in
    len data < 2 ^ 32 /\ zlib_NewReaderDict dict (zlib_compress dict data) = Ok (mkGzReader [data] EOF);
  xo_verify : certManager_Verify now (mkCertManager certs config) host = Ok tt;
  xo_size : forall crt, compressChain (leaf :: others) (getCommonCertificateHashes order) [] = Ok crt ->
    bytes_ok crt /\ len crt <= CryptoParameterMaxLength;
}.

(** The implementations deliver what the handshake relies on. *)
Lemma certManager_exchange :
  exchange_ok ->
  @CertExchange _ _ (certChain_interface (LRU := LRU) unicodeLower) (certManager_interface now order)
    (cc, cache) (NewCertManager config) host.
Proof.
  intros []. constructor. destruct xo_zlib0 as [Hlen Hz]. destruct xo_keys0 as (c & cs & -> & Hkeys).
  destruct (certs_roundtrip (leaf :: others) (getCommonCertificateHashes order) order
    xo_sets0 (splitHashes_common _ xo_order0) xo_nonempty0 Hlen) as (crt & Ez & Ed).
  { intros Hd. eexists. split; [exact Hz|]. by apply one_chunk. }
  destruct (xo_size0 _ Ez) as [Hb Hl].
  exists leaf, crt, (mkCertManager (c :: cs) config). cbn.
  assert (Raw c = leaf) as Hraw by (pose proof (parseChain_head _ _ xo_parse0) as E; by injection E).
  unfold certChain_GetLeafCert, certChain_GetCertsCompressed, certManager_SetData,
    certManager_GetLeafCertHash, certManager_GetLeafCert, certChain_SignServerProof. cbn [cm_chain fst snd].
  rewrite xo_cert0. cbn [rbind]. rewrite xo_chain0, Ed, xo_parse0, Hraw. cbn [rbind].
  unfold getCompressedCert. rewrite (surjective_pairing (lru_Get cache _)), xo_cold0, Ez.
  split_and!; try done; [by apply Forall_cons in xo_nonempty0 as [? _]|].
  intros chlo scfg rand proof Hs. unfold certManager_VerifyServerProof. cbn [cm_chain].
  by eapply server_proof_verifies.
Qed.
End instance.
End exchange.

(** ** The choice of the certificate *)

(** The name whose first [S i] labels are wildcards *)
Definition wildcard_name (labels : list (list Z)) (i : nat) : list Z :=
  joinDots (replicate (S i) (bytes_of "*") ++ drop (S i) labels).

Lemma tryWildcards_first {V} (names : gmap (list Z) V) k labels cert :
  tryWildcards names (replicate k (bytes_of "*")) labels = Some cert ->
  exists i, (i < length labels)%nat /\
    names !! joinDots (replicate (S (k + i)) (bytes_of "*") ++ drop (S i) labels) = Some cert /\
    forall j, (j < i)%nat -> names !! joinDots (replicate (S (k + j)) (bytes_of "*") ++ drop (S j) labels) = None.
Proof.
  revert k; induction labels as [|l ls IH]; intros k; cbn [tryWildcards]; [done|].
  assert (replicate k (bytes_of "*") ++ [bytes_of "*"] = replicate (S k) (bytes_of "*")) as E
    by by rewrite <- replicate_cons_app.
  rewrite E. destruct (names !! joinDots (replicate (S k) (bytes_of "*") ++ ls)) eqn:En.
  - intros [= ->]. exists 0%nat. rewrite Nat.add_0_r. split; [cbn; lia|]. split; [done|lia].
  - intros (i & Hi & Hn & Hb)%IH. exists (S i). rewrite <- plus_n_Sm. split; [cbn; lia|].
    split; [done|]. intros [|j] Hj; [by rewrite Nat.add_0_r|]. rewrite <- plus_n_Sm. apply Hb. lia.
Qed.

(** For a configuration with several named certificates, the server answers with the one for
    the exact name in lower case and without trailing dots, else with the one for the most
    specific wildcard, else with its first certificate. *)
Theorem certificate_for_name unicodeLower `{Sg : Signatures} (c : certConfig) first second others names sni cert :
  cfg_Certificates c = first :: second :: others -> cfg_NameToCertificate c = Some names ->
  let name := rev (trimDots (rev (ToLower unicodeLower sni))) in
  let labels := splitDots name in
  certByName unicodeLower c sni = Ok cert ->
  names !! name = Some cert \/
  names !! name = None /\
    ((exists i, (i < length labels)%nat /\ names !! wildcard_name labels i = Some cert /\
        forall j, (j < i)%nat -> names !! wildcard_name labels j = None) \/
     cert = first).
Proof.
  intros Ec En name labels. unfold certByName. rewrite Ec, En. cbv zeta. fold name.
  destruct (names !! name) as [exact|] eqn:E; [intros [= ->]; by left|].
  intros Hc. right. split; [done|].
  destruct (tryWildcards names [] (splitDots name)) as [w|] eqn:Ew; injection Hc as ->; [left|by right].
  apply (tryWildcards_first names 0) in Ew. exact Ew.
Qed.
