(* ===== verification/ServerConfig.v ===== *)
(** * Package handshake: server configs and ephemeral keys

    The server config as the server writes it (server_config.go) and as the client parses it
    (server_config_client.go), and the cache of the ephemeral key (ephermal_cache.go).  Times
    are nanoseconds since the Unix epoch. *)

From S2P Require Import Prelude Protocol Qerr Wire Handshake Crypto CertDict Certs CertManager.

(** [t.Unix()] *)
Definition Unix (now : Z) : Z := now / Second.

(** utils/minmax.go *)
Definition MinUint64 (a b : Z) : Z := if a <? b then a else b.

(** ** handshake/server_config.go *)

Section server_config.
Context `{Cu : Curve25519, Hk : Hkdf, Gc : StkGCM} {CC : Type} `{CH : CertChain CC}.

Record ServerConfig : Type := mkServerConfig {
  scfg_kex : curve25519KEX;
  scfg_certChain : CC;
  scfg_ID : list Z;
  scfg_obit : list Z;
  scfg_stkSource : gcm_AEAD;
}.

(** The random bytes of the config ID, the token secret and the orbit *)
Definition NewServerConfig (kex : curve25519KEX) (certChain : CC) (rand1 rand2 rand3 : randomness)
    : res ServerConfig :=
  let! id := rand1 in
  let! stkSecret := rand2 in
  let! obit := rand3 in
  let! stkSource := NewStkSource stkSecret in
  Ok (mkServerConfig kex certChain id obit stkSource).

Definition ServerConfig_Get (s : ServerConfig) : list Z :=
  let msg := mkHandshakeMessage TagSCFG
    (<[TagSCID := scfg_ID s]>
     (<[TagKEXS := bytes_of "C255"]>
     (<[TagAEAD := bytes_of "AESG"]>
     (<[TagPUBS := [0x20; 0x00; 0x00] ++ PublicKey (scfg_kex s)]>
     (<[TagOBIT := scfg_obit s]>
     (<[TagEXPY := [0xff; 0xff; 0xff; 0xff; 0xff; 0xff; 0xff; 0xff]]> ∅)))))) in
  HandshakeMessage_Write msg [].

Definition ServerConfig_Sign (s : ServerConfig) (sni chlo : list Z) (rand : randomness) : res (list Z) :=
  SignServerProof (scfg_certChain s) sni chlo (ServerConfig_Get s) rand.

Definition ServerConfig_GetCertsCompressed (s : ServerConfig)
    (sni commonSetHashes compressedHashes : list Z) : res (list Z) :=
  GetCertsCompressed (scfg_certChain s) sni commonSetHashes compressedHashes.
End server_config.
Arguments ServerConfig {Gc} CC.

(** ** handshake/server_config_client.go *)

Record serverConfigClient : Type := mkServerConfigClient {
  scc_raw : list Z;
  scc_ID : list Z;
  scc_obit : list Z;
  scc_expiry : Z;
  scc_kex : curve25519KEX;
  scc_sharedSecret : list Z;
}.

Definition errMessageNotServerConfig : goerror := ErrNew "ServerConfig must have TagSCFG".

(** The loop over groups of four bytes: the index of the first one that is [tag], from [i] on *)
Fixpoint findTag4 (n : nat) (l tag : list Z) (i : Z) : Z :=
  match n with
  | O => -1
  | S n => if bool_decide (take 4 l = tag) then i else findTag4 n (drop 4 l) tag (i + 1)
  end.

(** The loop over the public values, each with a 3-byte length.  Every iteration consumes at
    least 3 bytes, so [fuel] as large as the value is enough; running out of it counts as a
    panic. *)
Fixpoint readPubs (fuel : nat) (pubs : list Z) : res (list (list Z)) :=
  if 3 <? len pubs then
    match fuel with
    | O => Panic
    | S fuel =>
        let last_len := le_value (take 3 pubs) in
        if last_len =? 0 then Err (QuicError CryptoInvalidValueLength (Msg "PUBS"))
        else if 3 + last_len >? len pubs then Err (QuicError CryptoInvalidValueLength (Msg "PUBS"))
        else
          let! rest := readPubs fuel (drop (Z.to_nat (3 + last_len)) pubs) in
          Ok (take (Z.to_nat last_len) (drop 3 pubs) :: rest)
    end
  else Ok [].

Section client_config.
Context `{Cu : Curve25519}.

Definition parseValues (raw : list Z) (tagMap : gmap Z (list Z)) (rand : randomness) : res serverConfigClient :=
  match tagMap !! TagSCID with
  | None => Err (QuicError CryptoMessageParameterNotFound (Msg "SCID"))
  | Some scfgID =>
  if negb (len scfgID =? 16) then Err (QuicError CryptoInvalidValueLength (Msg "SCID")) else
  match tagMap !! TagKEXS with
  | None => Err (QuicError CryptoMessageParameterNotFound (Msg "KEXS"))
  | Some kexs =>
  if negb (len kexs mod 4 =? 0) then Err (QuicError CryptoInvalidValueLength (Msg "KEXS")) else
  let c255Foundat := findTag4 (Z.to_nat (len kexs / 4)) kexs (bytes_of "C255") 0 in
  if c255Foundat <? 0
  then Err (QuicError CryptoNoSupport (Msg "KEXS: Could not find C255, other key exchanges are not supported")) else
  match tagMap !! TagAEAD with
  | None => Err (QuicError CryptoMessageParameterNotFound (Msg "AEAD"))
  | Some aead =>
  if negb (len aead mod 4 =? 0) then Err (QuicError CryptoInvalidValueLength (Msg "AEAD")) else
  if findTag4 (Z.to_nat (len aead / 4)) aead (bytes_of "AESG") 0 <? 0
  then Err (QuicError CryptoNoSupport (Msg "AEAD")) else
  match tagMap !! TagPUBS with
  | None => Err (QuicError CryptoMessageParameterNotFound (Msg "PUBS"))
  | Some pubs =>
  let! pubs_kexs := readPubs (length pubs) pubs in
  match pubs_kexs !! Z.to_nat c255Foundat with
  | None => Err (QuicError CryptoMessageParameterNotFound (Msg "KEXS not in PUBS"))
  | Some pub =>
  if negb (len pub =? 32) then Err (QuicError CryptoInvalidValueLength (Msg "PUBS")) else
  let! kex := NewCurve25519KEX rand in
  let! sharedSecret := CalculateSharedKey kex pub in
  match tagMap !! TagOBIT with
  | None => Err (QuicError CryptoMessageParameterNotFound (Msg "OBIT"))
  | Some obit =>
  if negb (len obit =? 8) then Err (QuicError CryptoInvalidValueLength (Msg "OBIT")) else
  match tagMap !! TagEXPY with
  | None => Err (QuicError CryptoMessageParameterNotFound (Msg "EXPY"))
  | Some expy =>
  if negb (len expy =? 8) then Err (QuicError CryptoInvalidValueLength (Msg "EXPY")) else
  let expyTimestamp := MinUint64 (le_value expy) ((2 ^ 63 - 1) / 2) in
  Ok (mkServerConfigClient raw scfgID obit expyTimestamp kex sharedSecret)
  end end end end end end end.

Definition parseServerConfig (data : list Z) (rand : randomness) : res serverConfigClient :=
  let! (message, _) := ParseHandshakeMessage data in
  if negb (hm_Tag message =? TagSCFG) then Err errMessageNotServerConfig
  else parseValues data (hm_Data message) rand.

(** The expiry is a number of seconds. *)
Definition IsExpired (s : serverConfigClient) (now : Z) : bool := scc_expiry s * Second <? now.

Definition serverConfigClient_Get (s : serverConfigClient) : list Z := scc_raw s.
End client_config.

(** ** handshake/ephermal_cache.go *)

Definition EphermalKeyLifetime : Z := Minute.

Record kexCache : Type := mkKexCache {
  kexCurrent : option curve25519KEX;
  kexCurrentTime : Z;
}.

Section ephermal.
Context `{Cu : Curve25519}.

(** The part under the read lock *)
Definition getEphermalKEX_read (g : kexCache) (now : Z) : option curve25519KEX :=
  match kexCurrent g with
  | Some res => if now - kexCurrentTime g <? EphermalKeyLifetime then Some res else None
  | None => None
  end.

(** The part under the write lock: [now] when the age is checked, [now'] when the new key is
    stored *)
Definition getEphermalKEX_update (g : kexCache) (now now' : Z) (rand : randomness)
    : kexCache * option curve25519KEX :=
  if match kexCurrent g with
     | None => true
     | Some _ => now - kexCurrentTime g >? EphermalKeyLifetime
     end then
    match NewCurve25519KEX rand with
    | Ok kex => (mkKexCache (Some kex) now', Some kex)
    | _ => (g, kexCurrent g)
    end
  else (g, kexCurrent g).

(** A call that is not interleaved with another one *)
Definition getEphermalKEX (g : kexCache) (t1 t2 t3 : Z) (rand : randomness) : kexCache * option curve25519KEX :=
  match getEphermalKEX_read g t1 with
  | Some res => (g, Some res)
  | None => getEphermalKEX_update g t2 t3 rand
  end.
End ephermal.

(** ** Handshake messages from the network *)

Lemma parsePairs_safe n index dataStart r m :
  bytes_ok index -> bytes_ok r -> map_Forall (fun _ v => bytes_ok v) m ->
  safe (parsePairs n index dataStart r m)
    (fun x => map_Forall (fun _ v => bytes_ok v) x.1 /\ bytes_ok x.2 /\ exists k, x.2 = drop k r).
Proof.
  revert index dataStart r m; induction n as [|n IH]; intros index dataStart r m Hi Hr Hm; cbn [parsePairs].
  { split; [done|]. split; [done|]. by exists 0%nat. }
  pose proof (u32_range (le_value (take 4 (drop 4 index)) - dataStart)) as Hu.
  destruct (_ >? _); [done|]. unfold ReadFull. destruct (_ <=? _); [|by destruct r; cbn]. cbn [rbind].
  eapply safe_impl; [apply IH; [by apply Forall_drop|by apply Forall_drop|]|].
  - apply map_Forall_insert_2; [by apply Forall_take|done].
  - intros [m' r'] (H1 & H2 & k & E). cbn in *. split; [done|]. split; [done|].
    eexists. by rewrite E, drop_drop.
Qed.

(** Parsing ends without a panic, with byte strings as values and a suffix of the input left. *)
Lemma ParseHandshakeMessage_safe r :
  bytes_ok r ->
  safe (ParseHandshakeMessage r) (fun x => map_Forall (fun _ v => bytes_ok v) (hm_Data x.1) /\
    bytes_ok x.2 /\ exists k, (8 <= k)%nat /\ x.2 = drop k r /\ (8 <= length r)%nat).
Proof.
  intros Hr. unfold ParseHandshakeMessage, ReadFull at 1.
  destruct (Z.leb_spec 4 (len r)) as [H4|]; [|by destruct r; cbn]. cbn [rbind].
  unfold ReadFull at 1. destruct (Z.leb_spec 4 (len (drop (Z.to_nat 4) r))) as [H8|]; [|by destruct (drop _ r); cbn].
  rewrite len_drop in H8 by lia. cbn [rbind]. destruct (_ >? _); [done|].
  unfold ReadFull. destruct (_ <=? _); [|by destruct (drop _ (drop _ r)); cbn]. cbn [rbind].
  eapply safe_bind.
  { apply parsePairs_safe; [by apply Forall_take, Forall_drop, Forall_drop|by do 3 apply Forall_drop|
      apply map_Forall_empty]. }
  intros [m r'] (Hm & Hr' & k & E). cbn in *. split; [done|]. split; [done|]. subst r'. rewrite !drop_drop.
  eexists. split; [|split; [reflexivity|unfold len in *; lia]]. change (Z.to_nat 4) with 4%nat. lia.
Qed.

(** ** Server configs *)

Lemma size_insert_le (t : Z) (v : list Z) (m : gmap Z (list Z)) :
  (size (<[t := v]> m) <= S (size m))%nat.
Proof.
  destruct (m !! t) eqn:E.
  - rewrite map_size_insert_Some by by rewrite E. lia.
  - rewrite map_size_insert_None by done. lia.
Qed.

(** Counts the parameters that are inserted into a map. *)
Ltac params_size :=
  repeat (eapply Nat.le_trans; [apply size_insert_le|apply le_n_S]).

Section configs.
Context `{Cu : Curve25519, CuL : !Curve25519Laws Cu} `{Gc : StkGCM} {CC : Type}.

Lemma readPubs_safe fuel pubs :
  bytes_ok pubs -> (length pubs <= fuel)%nat -> safe (readPubs fuel pubs) (Forall bytes_ok).
Proof.
  revert pubs; induction fuel as [|fuel IH]; intros pubs Hb Hf.
  { assert (pubs = []) as -> by (destruct pubs; [done|cbn in Hf; lia]). cbn. constructor. }
  cbn [readPubs]. destruct (Z.ltb_spec 3 (len pubs)) as [H3|]; [|constructor].
  assert (0 <= le_value (take 3 pubs)) as Hv by (apply le_value_range; by apply Forall_take).
  destruct (Z.eqb_spec (le_value (take 3 pubs)) 0); [done|].
  destruct (_ >? _); [done|].
  eapply safe_bind; [apply IH; [by apply Forall_drop|rewrite length_drop; lia]|].
  intros rest Hrest. constructor; [by apply Forall_take, Forall_drop|done].
Qed.

Lemma findTag4_range n l tag i : 0 <= i -> findTag4 n l tag i = -1 \/ i <= findTag4 n l tag i.
Proof.
  revert l i; induction n as [|n IH]; intros l i Hi; cbn; [by left|].
  destruct (bool_decide _); [lia|]. destruct (IH (drop 4 l) (i + 1)); lia.
Qed.

(** What the client relies on after parsing a server config *)
Record client_config_ok (raw : list Z) (c : serverConfigClient) : Prop := {
  cco_raw : scc_raw c = raw;
  cco_ID : len (scc_ID c) = 16 /\ bytes_ok (scc_ID c);
  cco_obit : len (scc_obit c) = 8 /\ bytes_ok (scc_obit c);
  cco_kex : kex_ok (scc_kex c);
  cco_secret : len (scc_sharedSecret c) = 32;
  cco_expiry : 0 <= scc_expiry c <= (2 ^ 63 - 1) / 2;
}.

Lemma parseValues_safe raw tagMap rand :
  map_Forall (fun _ v => bytes_ok v) tagMap -> random_ok 32 rand ->
  safe (parseValues raw tagMap rand) (client_config_ok raw).
Proof.
  intros Hm Hrand. unfold parseValues.
  destruct (tagMap !! TagSCID) as [scid|] eqn:E1; [|done].
  destruct (Z.eqb_spec (len scid) 16) as [L1|]; [|done]. cbn [negb].
  destruct (tagMap !! TagKEXS) as [kexs|] eqn:E2; [|done].
  destruct (negb _); [done|].
  destruct (Z.ltb_spec (findTag4 (Z.to_nat (len kexs / 4)) kexs (bytes_of "C255") 0) 0); [done|].
  destruct (tagMap !! TagAEAD) as [aead|] eqn:E3; [|done].
  destruct (negb _); [done|]. destruct (_ <? _); [done|].
  destruct (tagMap !! TagPUBS) as [pubs|] eqn:E4; [|done].
  eapply safe_bind; [apply readPubs_safe; [by eapply Hm|done]|]. intros pubs_kexs _.
  destruct (pubs_kexs !! _) as [pub|]; [|done].
  destruct (Z.eqb_spec (len pub) 32) as [L4|]; [|done]. cbn [negb].
  eapply safe_bind; [by apply NewCurve25519KEX_ok|]. intros kex Hk.
  unfold CalculateSharedKey. rewrite L4. cbn [Z.eqb Pos.eqb negb rbind].
  destruct (tagMap !! TagOBIT) as [obit|] eqn:E5; [|done].
  destruct (Z.eqb_spec (len obit) 8) as [L5|]; [|done]. cbn [negb].
  destruct (tagMap !! TagEXPY) as [expy|] eqn:E6; [|done].
  destruct (Z.eqb_spec (len expy) 8) as [L6|]; [|done]. cbn [negb].
  constructor; cbn; try done; [by split; [|eapply Hm]..| |].
  - apply ScalarMult_bytes; [apply Hk|done].
  - pose proof (le_value_range expy (Hm _ _ E6)). unfold MinUint64.
    assert ((2 ^ 63 - 1) / 2 = 4611686018427387903) as -> by done. case_if; lia.
Qed.

Lemma parseServerConfig_safe data rand :
  bytes_ok data -> random_ok 32 rand -> safe (parseServerConfig data rand) (client_config_ok data).
Proof.
  intros Hd Hr. unfold parseServerConfig. eapply safe_bind; [by apply ParseHandshakeMessage_safe|].
  intros [msg r] (Hm & _). destruct (negb _); [done|]. by apply parseValues_safe.
Qed.

Record config_ok (s : ServerConfig CC) : Prop := {
  so_kex : kex_ok (scfg_kex s);
  so_ID : len (scfg_ID s) = 16 /\ bytes_ok (scfg_ID s);
  so_obit : len (scfg_obit s) = 8 /\ bytes_ok (scfg_obit s);
}.

Definition param_ok (t : Z) (v : list Z) : Prop :=
  is_u32 t /\ bytes_ok v /\ len v <= CryptoParameterMaxLength.

(** A message all of whose values are short byte strings *)
Lemma message_wf tag data :
  is_u32 tag -> (size data <= 128)%nat ->
  map_Forall param_ok data ->
  HandshakeMessage_wf (mkHandshakeMessage tag data).
Proof. intros Ht Hs Hd. constructor; cbn; [done|unfold CryptoMaxParams; lia|]. exact Hd. Qed.

Lemma bytes_of_ok s : bytes_ok (bytes_of s).
Proof.
  apply Forall_lookup. intros i x Hx. apply list_lookup_fmap_Some in Hx as (c & -> & _).
  pose proof (Ascii.nat_ascii_bounded c). unfold is_u8. lia.
Qed.

Lemma param_insert t v (m : gmap Z (list Z)) :
  is_u32 t -> bytes_ok v /\ len v <= CryptoParameterMaxLength -> map_Forall param_ok m ->
  map_Forall param_ok (<[t := v]> m).
Proof. intros. by apply map_Forall_insert_2. Qed.

Lemma readPubs_one key :
  len key = 32 -> readPubs (length ([0x20; 0x00; 0x00] ++ key)) ([0x20; 0x00; 0x00] ++ key) = Ok [key].
Proof.
  intros Hk. cbn [app length]. generalize (S (S (length key))). intros f. cbn [readPubs]. rewrite !len_cons, Hk. rewrite (proj2 (Z.ltb_lt _ _)) by lia.
  change (take 3 (32 :: 0 :: 0 :: key)) with [32; 0; 0]. change (le_value [32; 0; 0]) with 32.
  change (32 =? 0) with false. cbv iota. rewrite Z.gtb_ltb, (proj2 (Z.ltb_ge _ _)) by lia.
  change (Z.to_nat (3 + 32)) with 35%nat. cbn [drop]. rewrite (drop_ge key) by (unfold len in Hk; lia).
  change (Z.to_nat 32) with 32%nat. rewrite drop_0, take_ge by (unfold len in Hk; lia). by destruct f.
Qed.

Lemma ServerConfig_Get_parsed s :
  config_ok s ->
  exists data, ParseHandshakeMessage (ServerConfig_Get s) = Ok (mkHandshakeMessage TagSCFG data, []) /\
    data !! TagSCID = Some (scfg_ID s) /\ data !! TagKEXS = Some (bytes_of "C255") /\
    data !! TagAEAD = Some (bytes_of "AESG") /\
    data !! TagPUBS = Some ([0x20; 0x00; 0x00] ++ PublicKey (scfg_kex s)) /\
    data !! TagOBIT = Some (scfg_obit s) /\ data !! TagEXPY = Some (replicate 8 0xff).
Proof.
  intros [Hk [L1 B1] [L2 B2]]. destruct (len_PublicKey _ Hk) as [Lp Bp]. unfold ServerConfig_Get.
  rewrite <- (app_nil_r (HandshakeMessage_Write _ _)). rewrite message_roundtrip.
  - eexists. split; [reflexivity|].
    split_and!; repeat (rewrite lookup_insert_eq || rewrite lookup_insert_ne by discriminate); reflexivity.
  - apply message_wf; [by vm_compute|params_size; rewrite map_size_empty; lia|].
    repeat (apply param_insert; [by vm_compute| |]); [..|apply map_Forall_empty];
      rewrite ?len_app; (split; [|unfold CryptoParameterMaxLength; rewrite ?L1, ?L2, ?Lp; (done || by vm_compute)]).
    all: first [done|apply bytes_of_ok|by apply bytes_ok_check|apply bytes_ok_app; split; [by apply bytes_ok_check|done]].
Qed.

(** The client recovers the config that the server has sent, with the secret that the server
    computes from the client's public key, and does not take it for expired. *)
Theorem server_config_roundtrip s rand now :
  config_ok s -> random_ok 32 (Ok rand) -> now < 2 ^ 63 ->
  exists c, parseServerConfig (ServerConfig_Get s) (Ok rand) = Ok c /\
    scc_raw c = ServerConfig_Get s /\ scc_ID c = scfg_ID s /\ scc_obit c = scfg_obit s /\
    kex_ok (scc_kex c) /\ len (scc_sharedSecret c) = 32 /\
    CalculateSharedKey (scfg_kex s) (PublicKey (scc_kex c)) = Ok (scc_sharedSecret c) /\
    IsExpired c now = false.
Proof.
  intros Hs Hr Hnow. destruct (ServerConfig_Get_parsed s Hs) as (data & Ep & E1 & E2 & E3 & E4 & E5 & E6).
  destruct Hs as [Hk [L1 B1] [L2 B2]]. destruct (len_PublicKey _ Hk) as [Lp Bp].
  pose proof (NewCurve25519KEX_ok _ Hr) as Hn. destruct (NewCurve25519KEX (Ok rand)) as [kex|e|] eqn:Ek; [|done..].
  cbn in Hn. destruct (shared_key_agrees kex (scfg_kex s) Hn Hk) as (key & K1 & K2 & _ & K3).
  exists (mkServerConfigClient (ServerConfig_Get s) (scfg_ID s) (scfg_obit s) ((2 ^ 63 - 1) / 2) kex key).
  split; [|cbn [scc_raw scc_ID scc_obit scc_kex scc_sharedSecret];
    do 3 (split; [reflexivity|]); split; [exact Hn|]; split; [exact K3|]; split; [exact K2|]].
  - unfold parseServerConfig. rewrite Ep. cbn [rbind hm_Tag]. rewrite Z.eqb_refl. cbn [negb hm_Data].
    unfold parseValues. rewrite E1, L1. cbn [Z.eqb Pos.eqb negb]. rewrite E2.
    change (negb (len (bytes_of "C255") mod 4 =? 0)) with false. cbv iota zeta.
    change (findTag4 (Z.to_nat (len (bytes_of "C255") / 4)) (bytes_of "C255") (bytes_of "C255") 0) with 0.
    change (0 <? 0) with false. cbv iota. rewrite E3.
    change (negb (len (bytes_of "AESG") mod 4 =? 0)) with false. cbv iota.
    change (findTag4 (Z.to_nat (len (bytes_of "AESG") / 4)) (bytes_of "AESG") (bytes_of "AESG") 0 <? 0) with false.
    cbv iota. rewrite E4, readPubs_one by done. cbn [rbind]. change (Z.to_nat 0) with 0%nat.
    cbn [lookup list_lookup]. rewrite Lp. cbn [Z.eqb Pos.eqb negb]. rewrite Ek. cbn [rbind]. rewrite K1. cbn [rbind].
    rewrite E5, L2. cbn [Z.eqb Pos.eqb negb]. rewrite E6. reflexivity.
  - unfold IsExpired. cbn [scc_expiry]. apply Z.ltb_ge. unfold Second.
    assert ((2 ^ 63 - 1) / 2 = 4611686018427387903) as -> by done. lia.
Qed.
End configs.

Section ephermal_theorems.
Context `{Cu : Curve25519}.

(** A call gives the key of the cache, which was at most a minute old during the call, also
    when other calls have updated the cache between the two checks. *)
Lemma ephermal_key_fresh g1 g2 t1 t2 t3 secret :
  t1 <= t2 <= t3 ->
  let r := match getEphermalKEX_read g1 t1 with
           | Some res => (g1, Some res)
           | None => getEphermalKEX_update g2 t2 t3 (Ok secret)
           end in
  exists k t, r.2 = Some k /\ kexCurrent r.1 = Some k /\ t1 <= t <= t3 /\
    t - kexCurrentTime r.1 <= EphermalKeyLifetime.
Proof.
  intros Ht r. subst r. unfold getEphermalKEX_read.
  destruct (kexCurrent g1) as [k1|] eqn:E1; [destruct (Z.ltb_spec (t1 - kexCurrentTime g1) EphermalKeyLifetime)|].
  { exists k1, t1. cbn. rewrite E1. split_and!; (done || lia). }
  all: unfold getEphermalKEX_update; destruct (kexCurrent g2) as [k2|] eqn:E2;
    [rewrite Z.gtb_ltb; destruct (Z.ltb_spec EphermalKeyLifetime (t2 - kexCurrentTime g2))|]; cbn.
  all: first [rewrite E2; exists k2, t2; split_and!; (done || lia)
             |eexists _, t3; split_and!; [reflexivity|reflexivity|lia..|unfold EphermalKeyLifetime, Minute, Second; lia]].
Qed.
End ephermal_theorems.

(** A server config with 32 zero bytes as key *)
Definition sampleConfig : ServerConfig (Gc := plainGCM) unit :=
  mkServerConfig (Gc := plainGCM) (mkCurve25519KEX (replicate 32 0) (replicate 32 0)) tt (replicate 16 5) (replicate 8 6) [1].

Lemma server_config_roundtrip_witness :
  exists c, parseServerConfig (Cu := sumCurve) (ServerConfig_Get sampleConfig) (Ok (replicate 32 3)) = Ok c /\
    scc_ID c = replicate 16 5.
Proof.
  destruct (server_config_roundtrip (Cu := sumCurve) sampleConfig (replicate 32 3) 1700000000000000000)
    as (c & E & _ & Hid & _).
  - constructor; cbn; (split; [reflexivity|]); [vm_compute; reflexivity|..]; by apply bytes_ok_check.
  - split; [by apply bytes_ok_check|reflexivity].
  - lia.
  - exists c. split; [exact E|exact Hid].
Defined.
