(* ===== verification/CryptoSetupServer.v ===== *)
(** * handshake/crypto_setup_server.go: the crypto of a server's session

    [cryptoSetupServer] with the handling of the client's hellos, which runs concurrently with
    the session, and the opening and sealing of packets.  A method that changes the setup is a
    computation in [SR]: it returns the new state with its result, also when it fails half-way.
    The channel [aeadChanged] is the list of the levels sent on it, and whether it has been
    closed; what is written on the crypto stream is a list as well.  [serverEnv] holds the
    clock, the random bytes and the ephemeral key that a message is handled with. *)

From S2P Require Import Prelude Protocol Qerr Wire Handshake Crypto CertDict Certs CertManager ServerConfig PacketUnpacker PacketPacker.

(** ** State and errors *)

Definition SR (S A : Type) : Type := S -> S * res A.

Definition sr_bind {S A B} (m : SR S A) (k : A -> SR S B) : SR S B := fun s =>
  match m s with
  | (s, Ok a) => k a s
  | (s, Err e) => (s, Err e)
  | (s, Panic) => (s, Panic)
  end.
Definition sr_lift {S A} (m : res A) : SR S A := fun s => (s, m).
Definition sr_ret {S A} (a : A) : SR S A := sr_lift (Ok a).
Definition sr_err {S A} (e : goerror) : SR S A := sr_lift (Err e).
Definition sr_modify {S} (f : S -> S) : SR S unit := fun s => (f s, Ok tt).
Definition sr_with {S A} (k : S -> SR S A) : SR S A := fun s => k s s.

Declare Scope sr_scope.
Delimit Scope sr_scope with sr.
Notation "'do!' x ':=' m 'in' k" := (sr_bind m (fun x => k))
  (at level 10, x pattern, m at level 100, k at level 200,
   format "'[v' 'do!'  x  ':='  m  'in' '/' k ']'") : sr_scope.
Notation "m ';;!' k" := (sr_bind m (fun _ => k)) (at level 100, k at level 200, right associativity) : sr_scope.
#[global] Open Scope sr_scope.

(** ** The channel [aeadChanged] *)

Record levelChan : Type := mkLevelChan {
  lc_sent : list Z;
  lc_closed : bool;
}.
(** A send on a closed channel and closing it twice panic. *)
Definition lc_send (c : levelChan) (level : Z) : res levelChan :=
  if lc_closed c then Panic else Ok (mkLevelChan (lc_sent c ++ [level]) false).
Definition lc_close (c : levelChan) : res levelChan :=
  if lc_closed c then Panic else Ok (mkLevelChan (lc_sent c) true).

(** ** The server's setup *)

Definition ClientHelloMinimumSize : Z := 1024.

Section server.
Context `{Fn : Fnv128a, Ae : Aes12, Hk : Hkdf, Cu : Curve25519, Gc : StkGCM} {CC : Type} `{CH : CertChain CC}.

Record cryptoSetupServer : Type := mkCryptoSetupServer {
  css_connID : Z;
  css_sourceAddr : list Z;
  css_scfg : ServerConfig CC;
  css_diversificationNonce : list Z;
  css_version : Z;
  css_supportedVersions : list Z;
  css_nullAEAD : nullAEAD;
  css_secureAEAD : option aeadAESGCM;
  css_forwardSecureAEAD : option aeadAESGCM;
  css_receivedForwardSecurePacket : bool;
  css_sentSHLO : bool;
  css_receivedSecurePacket : bool;
  css_aeadChanged : levelChan;
  css_cryptoStream : list (list Z);
  css_connectionParameters : connectionParametersManager;
}.

Definition NewCryptoSetup (connID : Z) (sourceAddr : list Z) (version : Z) (scfg : ServerConfig CC)
    (connectionParametersManager : connectionParametersManager) (supportedVersions : list Z)
    : cryptoSetupServer :=
  mkCryptoSetupServer connID sourceAddr scfg [] version supportedVersions
    (NewNullAEAD PerspectiveServer version) None None false false false
    (mkLevelChan [] false) [] connectionParametersManager.

(** Field updates *)
Definition css_set_nonce (h : cryptoSetupServer) (x : list Z) : cryptoSetupServer :=
  mkCryptoSetupServer (css_connID h) (css_sourceAddr h) (css_scfg h) x (css_version h)
    (css_supportedVersions h) (css_nullAEAD h) (css_secureAEAD h) (css_forwardSecureAEAD h)
    (css_receivedForwardSecurePacket h) (css_sentSHLO h) (css_receivedSecurePacket h)
    (css_aeadChanged h) (css_cryptoStream h) (css_connectionParameters h).
Definition css_set_secure (h : cryptoSetupServer) (x : option aeadAESGCM) : cryptoSetupServer :=
  mkCryptoSetupServer (css_connID h) (css_sourceAddr h) (css_scfg h) (css_diversificationNonce h)
    (css_version h) (css_supportedVersions h) (css_nullAEAD h) x (css_forwardSecureAEAD h)
    (css_receivedForwardSecurePacket h) (css_sentSHLO h) (css_receivedSecurePacket h)
    (css_aeadChanged h) (css_cryptoStream h) (css_connectionParameters h).
Definition css_set_forwardSecure (h : cryptoSetupServer) (x : option aeadAESGCM) : cryptoSetupServer :=
  mkCryptoSetupServer (css_connID h) (css_sourceAddr h) (css_scfg h) (css_diversificationNonce h)
    (css_version h) (css_supportedVersions h) (css_nullAEAD h) (css_secureAEAD h) x
    (css_receivedForwardSecurePacket h) (css_sentSHLO h) (css_receivedSecurePacket h)
    (css_aeadChanged h) (css_cryptoStream h) (css_connectionParameters h).
Definition css_set_received (h : cryptoSetupServer) (forwardSecure secure : bool) (c : levelChan)
    : cryptoSetupServer :=
  mkCryptoSetupServer (css_connID h) (css_sourceAddr h) (css_scfg h) (css_diversificationNonce h)
    (css_version h) (css_supportedVersions h) (css_nullAEAD h) (css_secureAEAD h)
    (css_forwardSecureAEAD h) forwardSecure (css_sentSHLO h) secure
    c (css_cryptoStream h) (css_connectionParameters h).
Definition css_set_sentSHLO (h : cryptoSetupServer) : cryptoSetupServer :=
  mkCryptoSetupServer (css_connID h) (css_sourceAddr h) (css_scfg h) (css_diversificationNonce h)
    (css_version h) (css_supportedVersions h) (css_nullAEAD h) (css_secureAEAD h)
    (css_forwardSecureAEAD h) (css_receivedForwardSecurePacket h) true (css_receivedSecurePacket h)
    (css_aeadChanged h) (css_cryptoStream h) (css_connectionParameters h).
Definition css_set_stream (h : cryptoSetupServer) (x : list (list Z)) : cryptoSetupServer :=
  mkCryptoSetupServer (css_connID h) (css_sourceAddr h) (css_scfg h) (css_diversificationNonce h)
    (css_version h) (css_supportedVersions h) (css_nullAEAD h) (css_secureAEAD h)
    (css_forwardSecureAEAD h) (css_receivedForwardSecurePacket h) (css_sentSHLO h)
    (css_receivedSecurePacket h) (css_aeadChanged h) x (css_connectionParameters h).
Definition css_set_parameters (h : cryptoSetupServer) (x : connectionParametersManager) : cryptoSetupServer :=
  mkCryptoSetupServer (css_connID h) (css_sourceAddr h) (css_scfg h) (css_diversificationNonce h)
    (css_version h) (css_supportedVersions h) (css_nullAEAD h) (css_secureAEAD h)
    (css_forwardSecureAEAD h) (css_receivedForwardSecurePacket h) (css_sentSHLO h)
    (css_receivedSecurePacket h) (css_aeadChanged h) (css_cryptoStream h) x.

(** What handling a message takes from outside: the clock, the random bytes of a token, of a
    signature, of the server nonce and of the diversification nonce, the result of
    [getEphermalKEX], and whether the write on the crypto stream succeeds *)
Record serverEnv : Type := mkServerEnv {
  se_now : Z;
  se_randToken : randomness;
  se_randSign : randomness;
  se_randNonce : randomness;
  se_randDiv : randomness;
  se_kex : option curve25519KEX;
  se_write : res unit;
}.

(** [h.aeadChanged <- level] *)
Definition server_changed (level : Z) : SR cryptoSetupServer unit := fun h =>
  match lc_send (css_aeadChanged h) level with
  | Ok c => (css_set_received h (css_receivedForwardSecurePacket h) (css_receivedSecurePacket h) c, Ok tt)
  | _ => (h, Panic)
  end.

Definition server_write (env : serverEnv) (reply : list Z) : SR cryptoSetupServer unit := fun h =>
  match se_write env with
  | Ok _ => (css_set_stream h (css_cryptoStream h ++ [reply]), Ok tt)
  | r => (h, r)
  end.

Definition isInchoateCHLO (env : serverEnv) (h : cryptoSetupServer) (cryptoData : gmap Z (list Z))
    (cert : list Z) : res bool :=
  match cryptoData !! TagPUBS with
  | None => Ok true
  | Some _ =>
  match cryptoData !! TagSCID with
  | None => Ok true
  | Some scid =>
  if negb (bool_decide (scfg_ID (css_scfg h) = scid)) then Ok true else
  match cryptoData !! TagXLCT with
  | None => Ok true
  | Some xlctTag =>
  if negb (len xlctTag =? 8) then Ok true else
  let xlct := le_value xlctTag in
  if negb (HashCert cert =? xlct) then Ok true else
  match VerifyToken (scfg_stkSource (css_scfg h)) (css_sourceAddr h)
          (default [] (cryptoData !! TagSTK)) (Unix (se_now env)) with
  | Ok _ => Ok false
  | Err _ => Ok true
  | Panic => Panic
  end end end end.

(** The two further parameters of the rejection, for a client with a valid token *)
Definition rejectionDetails (env : serverEnv) (h : cryptoSetupServer) (sni chlo : list Z)
    (cryptoData replyMap : gmap Z (list Z)) : res (gmap Z (list Z)) :=
  match VerifyToken (scfg_stkSource (css_scfg h)) (css_sourceAddr h)
          (default [] (cryptoData !! TagSTK)) (Unix (se_now env)) with
  | Ok _ =>
      let! proof := ServerConfig_Sign (css_scfg h) sni chlo (se_randSign env) in
      let commonSetHashes := default [] (cryptoData !! TagCCS) in
      let cachedCertsHashes := default [] (cryptoData !! TagCCRT) in
      let! certCompressed := ServerConfig_GetCertsCompressed (css_scfg h) sni commonSetHashes cachedCertsHashes in
      Ok (<[TagCERT := certCompressed]> (<[TagPROF := proof]> replyMap))
  | Err _ => Ok replyMap
  | Panic => Panic
  end.

Definition handleInchoateCHLO (env : serverEnv) (h : cryptoSetupServer) (sni chlo : list Z)
    (cryptoData : gmap Z (list Z)) : res (list Z) :=
  if len chlo <? ClientHelloMinimumSize
  then Err (QuicError CryptoInvalidValueLength (Msg "CHLO too small"))
  else
    let! token := NewToken (scfg_stkSource (css_scfg h)) (css_sourceAddr h) (Unix (se_now env)) (se_randToken env) in
    let replyMap :=
      <[TagSVID := bytes_of "quic-go"]> (<[TagSTK := token]> (<[TagSCFG := ServerConfig_Get (css_scfg h)]> ∅)) in
    let! replyMap := rejectionDetails env h sni chlo cryptoData replyMap in
    Ok (HandshakeMessage_Write (mkHandshakeMessage TagREJ replyMap) []).

Definition validateClientNonce (h : cryptoSetupServer) (nonce : list Z) : res unit :=
  if negb (len nonce =? 32)
  then Err (QuicError InvalidCryptoMessageParameter (Msg "invalid client nonce length"))
  else if negb (bool_decide (take 8 (drop 4 nonce) = scfg_obit (css_scfg h)))
  then Err (QuicError InvalidCryptoMessageParameter (Msg "OBIT not matching"))
  else Ok tt.

(** [h.secureAEAD, err = h.keyDerivation(...)]: the field is nil after an error. *)
Definition assignAEAD (set : cryptoSetupServer -> option aeadAESGCM -> cryptoSetupServer)
    (r : res aeadAESGCM) : SR cryptoSetupServer unit := fun h =>
  match r with
  | Ok a => (set h (Some a), Ok tt)
  | Err e => (set h None, Err e)
  | Panic => (h, Panic)
  end.

(** [make([]byte, 32)] filled by [rand.Read] *)
Definition fillNonce (rand : randomness) : SR cryptoSetupServer unit := fun h =>
  match rand with
  | Ok nonce => (css_set_nonce h nonce, Ok tt)
  | Err e => (css_set_nonce h (replicate 32 0), Err e)
  | Panic => (h, Panic)
  end.

Definition setParameters (cryptoData : gmap Z (list Z)) : SR cryptoSetupServer unit := fun h =>
  let '(cp, r) := SetFromMap (css_connectionParameters h) cryptoData in
  (css_set_parameters h cp, r).

(** The tags of the versions that the server supports *)
Definition versionTags (versions : list Z) : list Z :=
  fold_left (fun b v => WriteUint32 b (VersionNumberToTag v)) versions [].

(** The part of [handleCHLO] that derives the keys, up to the parameters *)
Definition deriveServerKeys (env : serverEnv) (pubs clientNonce serverNonce data certUncompressed : list Z)
    (sharedSecret : list Z) : SR cryptoSetupServer curve25519KEX :=
  sr_with (fun h =>
  assignAEAD css_set_secure
    (DeriveKeysAESGCM false sharedSecret clientNonce (css_connID h) data (ServerConfig_Get (css_scfg h))
       certUncompressed (css_diversificationNonce h) PerspectiveServer)) ;;!
  server_changed EncryptionSecure ;;!
  let fsNonce := clientNonce ++ serverNonce in
  do! ephermalKex := sr_lift (match se_kex env with Some k => Ok k | None => Panic end) in
  do! ephermalSharedSecret := sr_lift (CalculateSharedKey ephermalKex pubs) in
  sr_with (fun h =>
  assignAEAD css_set_forwardSecure
    (DeriveKeysAESGCM true ephermalSharedSecret fsNonce (css_connID h) data (ServerConfig_Get (css_scfg h))
       certUncompressed [] PerspectiveServer)) ;;!
  sr_ret ephermalKex.

Definition handleCHLO (env : serverEnv) (sni data : list Z) (cryptoData : gmap Z (list Z))
    : SR cryptoSetupServer (list Z) :=
  let pubs := default [] (cryptoData !! TagPUBS) in
  do! sharedSecret := sr_with (fun h => sr_lift (CalculateSharedKey (scfg_kex (css_scfg h)) pubs)) in
  do! certUncompressed := sr_with (fun h => sr_lift (GetLeafCert (scfg_certChain (css_scfg h)) sni)) in
  do! serverNonce := sr_lift (se_randNonce env) in
  fillNonce (se_randDiv env) ;;!
  let clientNonce := default [] (cryptoData !! TagNONC) in
  sr_with (fun h => sr_lift (validateClientNonce h clientNonce)) ;;!
  if negb (bool_decide (default [] (cryptoData !! TagAEAD) = bytes_of "AESG"))
  then sr_err (QuicError CryptoNoSupport (Msg "Unsupported AEAD or KEXS"))
  else if negb (bool_decide (default [] (cryptoData !! TagKEXS) = bytes_of "C255"))
  then sr_err (QuicError CryptoNoSupport (Msg "Unsupported AEAD or KEXS"))
  else
    do! ephermalKex := deriveServerKeys env pubs clientNonce serverNonce data certUncompressed sharedSecret in
    setParameters cryptoData ;;!
    do! replyMap := sr_with (fun h => sr_ret (GetHelloMap (css_connectionParameters h))) in
    do! verTag := sr_with (fun h => sr_ret (versionTags (css_supportedVersions h))) in
    let replyMap := <[TagPUBS := PublicKey ephermalKex]> replyMap in
    let replyMap := <[TagSNO := serverNonce]> replyMap in
    let replyMap := <[TagVER := verTag]> replyMap in
    let reply := HandshakeMessage_Write (mkHandshakeMessage TagSHLO replyMap) [] in
    server_changed EncryptionForwardSecure ;;!
    sr_ret reply.

(** The checks of [handleMessage] before the hello is answered: the server name *)
Definition checkHello (h : cryptoSetupServer) (cryptoData : gmap Z (list Z)) : res (list Z) :=
  match cryptoData !! TagFHL2 with
  | Some _ => Err ErrHOLExperiment
  | None =>
  match cryptoData !! TagSNI with
  | None | Some [] => Err (QuicError CryptoMessageParameterNotFound (Msg "SNI required"))
  | Some sni =>
  match cryptoData !! TagVER with
  | None => Err (QuicError InvalidCryptoMessageParameter (Msg "client hello missing version tag"))
  | Some verSlice =>
  if negb (len verSlice =? 4)
  then Err (QuicError InvalidCryptoMessageParameter (Msg "incorrect version tag"))
  else
    let ver := VersionTagToNumber (le_value verSlice) in
    if negb (ver =? css_version h) && IsSupportedVersion (css_supportedVersions h) ver
    then Err (QuicError VersionNegotiationMismatch (Msg "Downgrade attack detected"))
    else Ok sni
  end end end.

Definition handleMessage (env : serverEnv) (chloData : list Z) (cryptoData : gmap Z (list Z))
    : SR cryptoSetupServer bool :=
  do! sni := sr_with (fun h => sr_lift (checkHello h cryptoData)) in
  do! certUncompressed := sr_with (fun h => sr_lift (GetLeafCert (scfg_certChain (css_scfg h)) sni)) in
  do! inchoate := sr_with (fun h => sr_lift (isInchoateCHLO env h cryptoData certUncompressed)) in
  if negb inchoate then
    do! reply := handleCHLO env sni chloData cryptoData in
    server_write env reply ;;! sr_ret true
  else
    do! reply := sr_with (fun h => sr_lift (handleInchoateCHLO env h sni chloData cryptoData)) in
    server_write env reply ;;! sr_ret false.

(** One iteration of [HandleCryptoStream]: [input] is what can be read of the crypto stream
    before it ends.  The result is the rest of the input, or [None] when the handshake is done. *)
Definition serverIteration (env : serverEnv) (input : list Z) : SR cryptoSetupServer (option (list Z)) := fun h =>
  match ParseHandshakeMessage input with
  | Err _ => (h, Err (ErrorCodeErr HandshakeFailed))
  | Panic => (h, Panic)
  | Ok (message, rest) =>
      if negb (hm_Tag message =? TagCHLO) then (h, Err (ErrorCodeErr InvalidCryptoMessageType))
      else
        let chloData := take (length input - length rest) input in
        (do! done := handleMessage env chloData (hm_Data message) in
         sr_ret (if done : bool then None else Some rest)) h
  end.

(** The loop, with the environment of each iteration; [None] when the iterations given have not
    ended it *)
Fixpoint HandleCryptoStream (envs : list serverEnv) (input : list Z) (h : cryptoSetupServer)
    : cryptoSetupServer * option (res unit) :=
  match envs with
  | [] => (h, None)
  | env :: envs =>
      match serverIteration env input h with
      | (h, Ok (Some rest)) => HandleCryptoStream envs rest h
      | (h, Ok None) => (h, Some (Ok tt))
      | (h, Err e) => (h, Some (Err e))
      | (h, Panic) => (h, Some Panic)
      end
  end.

(** ** Opening and sealing *)

Definition openUnencrypted (h : cryptoSetupServer) (src : list Z) (packetNumber : Z) (associatedData : list Z)
    : res (list Z * Z) :=
  let! res := nullAEAD_Open (css_nullAEAD h) src packetNumber associatedData in
  Ok (res, EncryptionUnencrypted).

(** The part of [Open] after the forward-secure keys *)
Definition openSecure (h : cryptoSetupServer) (src : list Z) (packetNumber : Z) (associatedData : list Z)
    : cryptoSetupServer * res (list Z * Z) :=
  match css_secureAEAD h with
  | Some aead =>
      match aeadAESGCM_Open aead src packetNumber associatedData with
      | Ok res =>
          (css_set_received h (css_receivedForwardSecurePacket h) true (css_aeadChanged h),
           Ok (res, EncryptionSecure))
      | Panic => (h, Panic)
      | Err err =>
          if css_receivedSecurePacket h then (h, Err err)
          else (h, openUnencrypted h src packetNumber associatedData)
      end
  | None => (h, openUnencrypted h src packetNumber associatedData)
  end.

Definition server_Open (h : cryptoSetupServer) (src : list Z) (packetNumber : Z) (associatedData : list Z)
    : cryptoSetupServer * res (list Z * Z) :=
  match css_forwardSecureAEAD h with
  | Some aead =>
      match aeadAESGCM_Open aead src packetNumber associatedData with
      | Ok res =>
          if negb (css_receivedForwardSecurePacket h) then
            match lc_close (css_aeadChanged h) with
            | Ok c => (css_set_received h true (css_receivedSecurePacket h) c, Ok (res, EncryptionForwardSecure))
            | _ => (css_set_received h true (css_receivedSecurePacket h) (css_aeadChanged h), Panic)
            end
          else (h, Ok (res, EncryptionForwardSecure))
      | Panic => (h, Panic)
      | Err err =>
          if css_receivedForwardSecurePacket h then (h, Err err)
          else openSecure h src packetNumber associatedData
      end
  | None => openSecure h src packetNumber associatedData
  end.

(** The sealers; sealing with the secure keys also sets [sentSHLO]. *)
Definition sealUnencrypted (h : cryptoSetupServer) : Sealer :=
  fun src packetNumber associatedData => nullAEAD_Seal (css_nullAEAD h) src packetNumber associatedData.
Definition sealWith (aead : aeadAESGCM) : Sealer :=
  fun src packetNumber associatedData => aeadAESGCM_Seal aead src packetNumber associatedData.
Definition sealed (h : cryptoSetupServer) (level : Z) : cryptoSetupServer :=
  if level =? EncryptionSecure then css_set_sentSHLO h else h.

Definition server_GetSealer (h : cryptoSetupServer) : Z * Sealer :=
  match css_forwardSecureAEAD h, css_sentSHLO h, css_secureAEAD h with
  | Some aead, true, _ => (EncryptionForwardSecure, sealWith aead)
  | _, _, Some aead => (EncryptionSecure, sealWith aead)
  | _, _, None => (EncryptionUnencrypted, sealUnencrypted h)
  end.

Definition server_GetSealerWithEncryptionLevel (h : cryptoSetupServer) (encLevel : Z) : res Sealer :=
  if encLevel =? EncryptionUnencrypted then Ok (sealUnencrypted h)
  else if encLevel =? EncryptionSecure then
    match css_secureAEAD h with
    | None => Err (ErrNew "CryptoSetupServer: no secureAEAD")
    | Some aead => Ok (sealWith aead)
    end
  else if encLevel =? EncryptionForwardSecure then
    match css_forwardSecureAEAD h with
    | None => Err (ErrNew "CryptoSetupServer: no forwardSecureAEAD")
    | Some aead => Ok (sealWith aead)
    end
  else Err (ErrNew "CryptoSetupServer: no encryption level specified").

(** The interface that the session uses *)
#[local] Instance cryptoSetupServer_interface : CryptoSetup cryptoSetupServer := {|
  CryptoOpen h src packetNumber associatedData := (server_Open h src packetNumber associatedData).2;
  GetSealer := server_GetSealer;
  GetSealerWithEncryptionLevel := server_GetSealerWithEncryptionLevel;
  DiversificationNonce := css_diversificationNonce;
|}.
End server.

(** ** Reasoning about [SR] *)

(** From [P], the computation does not panic, and ends in [Q] with its value or in [E] with
    an error. *)
Definition sr_spec {S A} (P : S -> Prop) (m : SR S A) (Q : A -> S -> Prop) (E : S -> Prop) : Prop :=
  forall s, P s -> match m s with
  | (s', Ok a) => Q a s'
  | (s', Err _) => E s'
  | (s', Panic) => False
  end.

Lemma sr_spec_bind {S A B} (P : S -> Prop) (m : SR S A) (k : A -> SR S B) R Q E :
  sr_spec P m R E -> (forall a, sr_spec (R a) (k a) Q E) -> sr_spec P (sr_bind m k) Q E.
Proof.
  intros Hm Hk s Hs. unfold sr_bind. specialize (Hm s Hs). destruct (m s) as [s' [a|e|]]; [|done..].
  by apply Hk.
Qed.

(** A computation that only reads the state *)
Lemma sr_spec_read {S A} (P : S -> Prop) (f : S -> res A) (Q : A -> Prop) (E : S -> Prop) :
  (forall s, P s -> safe (f s) Q) -> (forall s, P s -> E s) ->
  sr_spec P (sr_with (fun s => sr_lift (f s))) (fun a s => P s /\ Q a) E.
Proof.
  intros Hf HE s Hs. unfold sr_with, sr_lift. specialize (Hf s Hs). destruct (f s); [done|by apply HE|done].
Qed.

Lemma sr_spec_lift {S A} (P : S -> Prop) (m : res A) (Q : A -> Prop) (E : S -> Prop) :
  safe m Q -> (forall s, P s -> E s) -> sr_spec P (sr_lift m) (fun a s => P s /\ Q a) E.
Proof. intros Hm HE s Hs. unfold sr_lift. destruct m; [done|by apply HE|done]. Qed.

Lemma sr_spec_weaken {S A} (P P' : S -> Prop) (m : SR S A) (Q Q' : A -> S -> Prop) (E E' : S -> Prop) :
  sr_spec P m Q E -> (forall s, P' s -> P s) -> (forall a s, Q a s -> Q' a s) -> (forall s, E s -> E' s) ->
  sr_spec P' m Q' E'.
Proof.
  intros Hm HP HQ HE s Hs. specialize (Hm s (HP s Hs)). destruct (m s) as [s' [a|e|]]; auto.
Qed.

(** The computation does not change [f] of the state. *)
Definition sr_keeps {S A T} (f : S -> T) (m : SR S A) : Prop := forall s, f (m s).1 = f s.

Lemma sr_keeps_bind {S A B T} (f : S -> T) (m : SR S A) (k : A -> SR S B) :
  sr_keeps f m -> (forall a, sr_keeps f (k a)) -> sr_keeps f (sr_bind m k).
Proof.
  intros Hm Hk s. unfold sr_bind. specialize (Hm s). destruct (m s) as [s' [a|e|]]; [|done..]. cbn in Hm. by rewrite Hk.
Qed.
Lemma sr_keeps_lift {S A T} (f : S -> T) (m : res A) : sr_keeps f (sr_lift m).
Proof. done. Qed.
Lemma sr_keeps_with {S A T} (f : S -> T) (k : S -> SR S A) : (forall s, sr_keeps f (k s)) -> sr_keeps f (sr_with k).
Proof. intros Hk s. apply Hk. Qed.
Ltac keeps_step :=
  match goal with
  | |- sr_keeps _ (sr_bind _ _) => apply sr_keeps_bind; [|intros ?]
  | |- sr_keeps _ (sr_with _) => apply sr_keeps_with; intros ?
  | |- sr_keeps _ (sr_lift _) => apply sr_keeps_lift
  | |- sr_keeps _ (sr_ret _) => apply sr_keeps_lift
  | |- sr_keeps _ (sr_err _) => apply sr_keeps_lift
  | |- sr_keeps _ (if ?b then _ else _) => destruct b
  end.

(** Compares encryption levels. *)
Ltac levels := cbn; unfold EncryptionForwardSecure, EncryptionSecure, EncryptionUnencrypted in *; lia.

Section server_safety.
Context `{Fn : Fnv128a, Ae : Aes12, AeL : !Aes12Laws Ae, Hk : Hkdf, HkL : !HkdfLaws Hk}.
Context `{Cu : Curve25519, CuL : !Curve25519Laws Cu, Gc : StkGCM, GcL : !StkGCMLaws Gc} {CC : Type} `{CH : CertChain CC}.
#[local] Abbreviation server := (cryptoSetupServer (CC := CC)).

(** What is asked of the environment: random bytes of the right length, an ephemeral key, and
    a stream that does not panic *)
Record server_env_ok (env : serverEnv) : Prop := {
  seo_token : random_ok 16 (se_randToken env);
  seo_nonce : random_ok 32 (se_randNonce env);
  seo_div : random_ok 32 (se_randDiv env);
  seo_kex : exists k, se_kex env = Some k /\ kex_ok k;
  seo_write : se_write env <> Panic;
}.

(** The certificate chain of the configuration answers without a panic. *)
Record chain_ok (cc : CC) : Prop := {
  co_leaf sni : GetLeafCert cc sni <> Panic;
  co_sign sni chlo scfg rand : SignServerProof cc sni chlo scfg rand <> Panic;
  co_certs sni common cached : GetCertsCompressed cc sni common cached <> Panic;
}.

Record server_inv (h : server) : Prop := {
  si_scfg : chain_ok (scfg_certChain (css_scfg h));
  si_null : na_perspective (css_nullAEAD h) = PerspectiveServer;
  si_params : params_ok (css_connectionParameters h);
  si_forwardSecure : css_secureAEAD h = None -> css_forwardSecureAEAD h = None;
  si_nonce : is_Some (css_secureAEAD h) -> len (css_diversificationNonce h) = 32;
  si_sentSHLO : css_sentSHLO h = true -> is_Some (css_secureAEAD h);
  si_receivedSecure : css_receivedSecurePacket h = true -> is_Some (css_secureAEAD h);
  si_received : css_receivedForwardSecurePacket h = true -> is_Some (css_forwardSecureAEAD h);
  si_closed : lc_closed (css_aeadChanged h) = css_receivedForwardSecurePacket h;
  si_sent : exists rest, [EncryptionSecure; EncryptionForwardSecure] = lc_sent (css_aeadChanged h) ++ rest;
}.

(** Before the hello that is answered with the SHLO *)
Definition server_idle (h : server) : Prop :=
  server_inv h /\ css_secureAEAD h = None /\ lc_sent (css_aeadChanged h) = [] /\
  css_receivedForwardSecurePacket h = false.

(** While the hello is handled, with the keys that have been derived so far *)
Definition server_deriving (secure forwardSecure : bool) (h : server) : Prop :=
  server_inv h /\ len (css_diversificationNonce h) = 32 /\
  bool_decide (is_Some (css_secureAEAD h)) = secure /\
  bool_decide (is_Some (css_forwardSecureAEAD h)) = forwardSecure /\
  lc_sent (css_aeadChanged h) = (if secure then [EncryptionSecure] else []) /\
  css_receivedForwardSecurePacket h = false.

Lemma VerifyToken_no_panic s addr data t : bytes_ok data -> VerifyToken s addr data t <> Panic.
Proof. intros Hd E. pose proof (VerifyToken_safe s addr data t Hd) as H. by rewrite E in H. Qed.

Lemma safe_no_panic {A} (m : res A) : m <> Panic -> safe m (fun _ => True).
Proof. by destruct m. Qed.

(** The parameters of a message from the network *)
Definition data_ok (cryptoData : gmap Z (list Z)) : Prop := map_Forall (fun _ v => bytes_ok v) cryptoData.

Lemma data_ok_default cryptoData t : data_ok cryptoData -> bytes_ok (default [] (cryptoData !! t)).
Proof. intros Hd. destruct (cryptoData !! t) eqn:E; [by eapply Hd|constructor]. Qed.

Lemma isInchoateCHLO_safe env (h : server) cryptoData cert :
  data_ok cryptoData -> safe (isInchoateCHLO env h cryptoData cert) (fun _ => True).
Proof.
  intros Hd. unfold isInchoateCHLO. destruct (cryptoData !! TagPUBS); [|done].
  destruct (cryptoData !! TagSCID); [|done]. destruct (negb _); [done|].
  destruct (cryptoData !! TagXLCT); [|done]. destruct (negb _); [done|]. destruct (negb _); [done|].
  pose proof (VerifyToken_no_panic (scfg_stkSource (css_scfg h)) (css_sourceAddr h) _ (Unix (se_now env))
    (data_ok_default _ TagSTK Hd)).
  by destruct (VerifyToken _ _ _ _).
Qed.

Lemma handleInchoateCHLO_safe env (h : server) sni chlo cryptoData :
  server_env_ok env -> server_inv h -> data_ok cryptoData ->
  safe (handleInchoateCHLO env h sni chlo cryptoData) (fun _ => True).
Proof.
  intros He Hh Hd. unfold handleInchoateCHLO. destruct (_ <? _); [done|].
  eapply (safe_bind _ _ (fun _ => True)).
  { unfold NewToken, encryptToken. pose proof (seo_token _ He). by destruct (se_randToken env). }
  intros token _. eapply (safe_bind _ _ (fun _ => True)); [|done]. unfold rejectionDetails.
  pose proof (VerifyToken_no_panic (scfg_stkSource (css_scfg h)) (css_sourceAddr h) _ (Unix (se_now env))
    (data_ok_default _ TagSTK Hd)).
  destruct (VerifyToken _ _ _ _); [|done..].
  eapply safe_bind; [apply safe_no_panic, co_sign, Hh|]. intros proof _.
  eapply safe_bind; [apply safe_no_panic, co_certs, Hh|done].
Qed.

Lemma fillNonce_spec rand :
  random_ok 32 rand ->
  sr_spec server_idle (fillNonce rand) (fun _ => server_deriving false false) server_idle.
Proof.
  intros Hr h [[] (Es & El & Er)]. unfold fillNonce.
  assert (forall x, server_inv (css_set_nonce h x)) as Hi.
  { intros x. constructor; cbn; try done. rewrite Es. by intros [? ?]. }
  destruct rand as [x|e|]; [|by split|done]. split; [apply Hi|]. destruct Hr as [_ Hr]. cbn.
  rewrite Es, (si_forwardSecure0 Es), El. done.
Qed.

Lemma server_changed_spec level (P Q : server -> Prop) :
  (forall h, P h -> lc_closed (css_aeadChanged h) = false /\
     Q (css_set_received h (css_receivedForwardSecurePacket h) (css_receivedSecurePacket h)
          (mkLevelChan (lc_sent (css_aeadChanged h) ++ [level]) false))) ->
  sr_spec P (server_changed level) (fun _ => Q) (fun _ => False).
Proof.
  intros HP h Hh. destruct (HP h Hh) as [Hc HQ]. unfold server_changed, lc_send. by rewrite Hc.
Qed.

Lemma derive_ok fs secret nonces connID chlo scfg cert divNonce pers :
  exists a, DeriveKeysAESGCM fs secret nonces connID chlo scfg cert divNonce pers = Ok a.
Proof.
  destruct (derived_paired fs secret nonces connID chlo scfg cert divNonce) as (s & c & Es & Ec & _).
  destruct pers; eauto.
Qed.

Lemma deriveServerKeys_spec env pubs clientNonce serverNonce data cert secret :
  server_env_ok env ->
  sr_spec (server_deriving false false)
    (deriveServerKeys (CC := CC) env pubs clientNonce serverNonce data cert secret)
    (fun k h => server_deriving true true h /\ kex_ok k) server_inv.
Proof.
  intros He. unfold deriveServerKeys.
  eapply (sr_spec_bind _ _ _ (fun _ h => server_inv h /\ len (css_diversificationNonce h) = 32 /\
    is_Some (css_secureAEAD h) /\ css_forwardSecureAEAD h = None /\ lc_sent (css_aeadChanged h) = [] /\
    css_receivedForwardSecurePacket h = false)).
  { intros h ([] & Hn & Hs & Hf & Hl & Hr). unfold sr_with, assignAEAD.
    match goal with |- context [DeriveKeysAESGCM ?a ?b ?c ?d ?e ?f ?g ?i ?j] =>
      destruct (derive_ok a b c d e f g i j) as [aead ->] end.
    apply bool_decide_eq_false in Hs, Hf. rewrite <- eq_None_not_Some in Hs, Hf.
    split; [|done]. constructor; cbn; try done; rewrite ?Hn; try done; by eauto. }
  intros ?. eapply sr_spec_bind.
  { eapply sr_spec_weaken; [apply (server_changed_spec EncryptionSecure _
      (server_deriving true false))|intros h Hh; exact Hh|done|done].
    intros h ([] & Hn & Hs & Hf & Hl & Hr). rewrite si_closed0. split; [done|].
    split; [|split_and!; cbn; try done].
    - constructor; cbn; try done. rewrite Hl. by exists [EncryptionForwardSecure].
    - by apply bool_decide_eq_true.
    - rewrite Hf. done.
    - by rewrite Hl. }
  intros ?. destruct (seo_kex _ He) as (k & -> & Hk'). eapply sr_spec_bind.
  { apply (sr_spec_lift _ _ (fun k => kex_ok k)); [done|]. by intros h [? _]. }
  intros k'. eapply sr_spec_bind.
  { apply (sr_spec_lift _ _ (fun _ => True)); [|by intros h [[? _] _]].
    unfold CalculateSharedKey. by destruct (negb _). }
  intros shared. eapply (sr_spec_bind _ _ _ (fun _ h => server_deriving true true h /\ kex_ok k')).
  { intros h [[([] & Hn & Hs & Hf & Hl & Hr) Hkex] _]. unfold sr_with, assignAEAD.
    match goal with |- context [DeriveKeysAESGCM ?a ?b ?c ?d ?e ?f ?g ?i ?j] =>
      destruct (derive_ok a b c d e f g i j) as [aead ->] end.
    apply bool_decide_eq_true in Hs. split; [|done]. split.
    - constructor; cbn; try done. intros E. rewrite E in Hs. by destruct Hs.
    - cbn. split_and!; try done. by apply bool_decide_eq_true. }
  intros _ h Hh. done.
Qed.

Lemma setParameters_spec cryptoData :
  data_ok cryptoData ->
  sr_spec (server_deriving true true) (setParameters (CC := CC) cryptoData)
    (fun _ => server_deriving true true) server_inv.
Proof.
  intros Hd h ([] & Hn & Hs & Hf & Hl & Hr). unfold setParameters.
  pose proof (set_from_map_bounds (css_connectionParameters h) cryptoData si_params0 Hd) as [Hp _].
  pose proof (SetFromMap_no_panic (css_connectionParameters h) cryptoData) as Hnp.
  destruct (SetFromMap _ _) as [cp r]. cbn in Hp, Hnp.
  assert (server_inv (css_set_parameters h cp)) as Hi by by constructor.
  destruct r; [|done|done]. done.
Qed.

Lemma handleCHLO_spec env sni data cryptoData :
  server_env_ok env -> data_ok cryptoData ->
  sr_spec server_idle (handleCHLO (CC := CC) env sni data cryptoData)
    (fun _ => server_inv) server_inv.
Proof.
  intros He Hd. assert (forall h, server_idle h -> server_inv h) as Hidle by by intros h [? _].
  unfold handleCHLO. eapply sr_spec_bind.
  { apply (sr_spec_read _ (fun h => CalculateSharedKey (scfg_kex (css_scfg h)) _) (fun _ => True)); [|done].
    intros h _. unfold CalculateSharedKey. by destruct (negb _). }
  intros secret. eapply sr_spec_bind.
  { apply (sr_spec_read _ (fun h => GetLeafCert (scfg_certChain (css_scfg h)) sni) (fun _ => True)); [|by intros h [? _]; auto].
    intros h [Hh _]. apply safe_no_panic, co_leaf, (Hidle h Hh). }
  intros cert. eapply sr_spec_bind.
  { apply (sr_spec_lift _ _ (fun _ => True)); [|by intros h [[? _] _]; auto].
    apply safe_no_panic. pose proof (seo_nonce _ He). by destruct (se_randNonce env). }
  intros serverNonce. eapply sr_spec_bind.
  { eapply sr_spec_weaken; [apply (fillNonce_spec _ (seo_div _ He))|by intros h [[[? _] _] _]| |exact Hidle].
    intros a h Hh. exact Hh. }
  intros ?. eapply sr_spec_bind.
  { apply (sr_spec_read _ (fun h => validateClientNonce h _) (fun _ => True)); [|by intros h [? _]].
    intros h _. unfold validateClientNonce. destruct (negb _); [done|]. by destruct (negb _). }
  intros ?. destruct (negb _); [intros h [[? _] _]; done|]. destruct (negb _); [intros h [[? _] _]; done|].
  eapply sr_spec_bind.
  { eapply sr_spec_weaken; [apply (deriveServerKeys_spec env)|by intros h [? _]|intros ? h Hh; exact Hh|done]. done. }
  intros kex. eapply sr_spec_bind.
  { eapply sr_spec_weaken; [apply (setParameters_spec cryptoData Hd)|by intros h [? _]|intros ? h Hh; exact Hh|done]. }
  intros ?. eapply (sr_spec_bind _ _ _ (fun _ => server_deriving true true)); [by intros h Hh|].
  intros replyMap. eapply (sr_spec_bind _ _ _ (fun _ => server_deriving true true)); [by intros h Hh|].
  intros verTag. eapply (sr_spec_bind _ _ _ (fun _ => server_inv)); [|by intros _ h Hh].
  eapply sr_spec_weaken; [apply (server_changed_spec EncryptionForwardSecure (server_deriving true true) server_inv)
    |done|done|done].
  intros h ([] & Hn & Hs & Hf & Hl & Hr). split; [by rewrite si_closed0|].
  constructor; cbn; try done. rewrite Hl. by exists [].
Qed.

Lemma server_write_spec env reply (P : server -> Prop) :
  server_env_ok env -> (forall h x, P h -> P (css_set_stream h x)) ->
  sr_spec P (server_write env reply) (fun _ => P) P.
Proof.
  intros He HP h Hh. unfold server_write. pose proof (seo_write _ He).
  destruct (se_write env); [by apply HP|done|done].
Qed.

Lemma checkHello_safe (h : server) cryptoData : safe (checkHello h cryptoData) (fun sni => sni <> []).
Proof.
  unfold checkHello. destruct (cryptoData !! TagFHL2); [done|].
  destruct (cryptoData !! TagSNI) as [[|c sni]|]; [done| |done].
  destruct (cryptoData !! TagVER); [|done]. destruct (negb _); [done|]. by destruct (_ && _).
Qed.

(** Handling a message keeps the invariant; the setup is idle as long as the handshake goes
    on. *)
Lemma handleMessage_spec env chloData cryptoData :
  server_env_ok env -> data_ok cryptoData ->
  sr_spec server_idle (handleMessage (CC := CC) env chloData cryptoData)
    (fun done h => server_inv h /\ (done = false -> server_idle h)) server_inv.
Proof.
  intros He Hd. assert (forall h, server_idle h -> server_inv h) as Hidle by by intros h [? _].
  assert (forall h x, server_inv h -> server_inv (css_set_stream h x)) as Hstream
    by (intros h x []; by constructor).
  unfold handleMessage. eapply sr_spec_bind.
  { apply (sr_spec_read _ (fun h => checkHello h cryptoData) (fun _ => True)); [|done].
    intros h _. eapply safe_impl; [apply checkHello_safe|done]. }
  intros sni. eapply sr_spec_bind.
  { apply (sr_spec_read _ (fun h => GetLeafCert (scfg_certChain (css_scfg h)) sni) (fun _ => True));
      [|by intros h [? _]; auto].
    intros h [Hh _]. apply safe_no_panic, co_leaf, (Hidle h Hh). }
  intros cert. eapply sr_spec_bind.
  { apply (sr_spec_read _ (fun h => isInchoateCHLO env h cryptoData cert) (fun _ => True));
      [|by intros h [[? _] _]; auto].
    intros h _. by apply isInchoateCHLO_safe. }
  intros inchoate. destruct inchoate; cbn [negb]; (eapply sr_spec_bind; [|intros reply; eapply sr_spec_bind]).
  - apply (sr_spec_read _ (fun h => handleInchoateCHLO env h sni chloData cryptoData) (fun _ => True));
      [|by intros h [[[? _] _] _]; auto].
    intros h [[[? _] _] _]. by apply handleInchoateCHLO_safe; auto.
  - eapply sr_spec_weaken; [apply (server_write_spec env reply server_idle He)|by intros h [[[[? _] _] _] _]
      |intros ? h Hh; exact Hh|done].
    intros h x [Hh Hrest]. by split; [apply Hstream|].
  - intros ? h Hh. cbn. auto.
  - eapply sr_spec_weaken; [apply (handleCHLO_spec env sni chloData cryptoData He Hd)|by intros h [[[? _] _] _]
      |intros ? h Hh; exact Hh|done].
  - apply (server_write_spec env reply server_inv He Hstream).
  - intros ? h Hh. cbn. done.
Qed.

Lemma serverIteration_spec env input :
  server_env_ok env -> bytes_ok input ->
  sr_spec server_idle (serverIteration (CC := CC) env input)
    (fun next h => server_inv h /\ (is_Some next -> server_idle h)) server_inv.
Proof.
  intros He Hi h Hh. unfold serverIteration. pose proof (ParseHandshakeMessage_safe input Hi) as Hp.
  destruct (ParseHandshakeMessage input) as [[m rest]|e|]; [|apply Hh|done].
  destruct Hp as [Hm _]. destruct (negb _); [apply Hh|].
  pose proof (handleMessage_spec env (take (length input - length rest) input) (hm_Data m) He Hm h Hh) as Hs.
  unfold sr_bind. destruct (handleMessage _ _ _ h) as [h' [b|e|]]; [|done..]. cbn.
  destruct Hs as [Hs1 Hs2]. split; [done|]. destruct b; [by intros [? ?]|auto].
Qed.

(** The handshake does not touch the flag for forward-secure packets. *)
Abbreviation received := (css_receivedForwardSecurePacket (CC := CC)).

Lemma server_changed_keeps level : sr_keeps received (server_changed level).
Proof. intros h. unfold server_changed. by destruct (lc_send _ _). Qed.
Lemma server_write_keeps env reply : sr_keeps received (server_write env reply).
Proof. intros h. unfold server_write. by destruct (se_write env). Qed.
Lemma assignAEAD_keeps set r : (forall h x, received (set h x) = received h) -> sr_keeps received (assignAEAD set r).
Proof. intros Hs h. unfold assignAEAD. destruct r; cbn; auto. Qed.
Lemma fillNonce_keeps rand : sr_keeps received (fillNonce rand).
Proof. intros h. unfold fillNonce. by destruct rand. Qed.
Lemma setParameters_keeps cryptoData : sr_keeps received (setParameters cryptoData).
Proof. intros h. unfold setParameters. by destruct (SetFromMap _ _). Qed.
Ltac keeps := repeat first [keeps_step | apply server_changed_keeps | apply server_write_keeps | apply fillNonce_keeps
  | apply setParameters_keeps | by apply assignAEAD_keeps].

Lemma serverIteration_keeps env input : sr_keeps received (serverIteration env input).
Proof.
  intros h. unfold serverIteration. destruct (ParseHandshakeMessage input) as [[m rest]|e|]; [|done..].
  destruct (negb _); [done|]. revert h. fold (sr_keeps received (sr_bind
    (handleMessage (CC := CC) env (take (length input - length rest) input) (hm_Data m)) (fun d => sr_ret (if d then None else Some rest)))).
  unfold handleMessage, handleCHLO, deriveServerKeys. keeps.
Qed.

(** *** Opening and sealing *)

(** The lowest level at which a packet can still be opened *)
Definition open_floor (h : server) : Z :=
  if css_receivedForwardSecurePacket h then EncryptionForwardSecure
  else if css_receivedSecurePacket h then EncryptionSecure
  else EncryptionUnencrypted.

(** What an update of the received flags leaves alone *)
Definition same_keys (h h' : server) : Prop :=
  css_secureAEAD h' = css_secureAEAD h /\ css_forwardSecureAEAD h' = css_forwardSecureAEAD h /\
  css_sentSHLO h' = css_sentSHLO h.

Definition opened (h : server) (r : server * res (list Z * Z)) : Prop :=
  server_inv r.1 /\ same_keys h r.1 /\ (server_idle h -> server_idle r.1) /\
  open_floor h <= open_floor r.1 /\
  match r.2 with
  | Ok (pl, level) => bytes_ok pl /\ open_floor h <= level <= open_floor r.1
  | Err _ => True
  | Panic => False
  end.

Lemma opened_unchanged (h : server) r :
  server_inv h -> safe r (fun x => bytes_ok x.1 /\ open_floor h <= x.2 <= open_floor h) -> opened h (h, r).
Proof.
  intros Hh Hr. split; [done|]. split; [done|]. split; [done|]. split; [apply Z.le_refl|]. cbn.
  by destruct r as [[pl level]|e|].
Qed.

Lemma openUnencrypted_safe (h : server) src pn ad :
  bytes_ok src -> css_receivedForwardSecurePacket h = false -> css_receivedSecurePacket h = false ->
  safe (openUnencrypted h src pn ad) (fun x => bytes_ok x.1 /\ open_floor h <= x.2 <= open_floor h).
Proof.
  intros Hs E1 E2. unfold openUnencrypted, open_floor. rewrite E1, E2.
  eapply safe_bind; [by apply nullAEAD_Open_safe|]. intros pl Hpl. cbn. split; [done|]. split; apply Z.le_refl.
Qed.

Lemma aeadAESGCM_Open_safe a src pn ad :
  bytes_ok src -> safe (aeadAESGCM_Open a src pn ad) bytes_ok.
Proof. intros. apply aes12_Open_safe; [apply len_makeNonce|done]. Qed.

Lemma openSecure_opened (h : server) src pn ad :
  server_inv h -> bytes_ok src -> css_receivedForwardSecurePacket h = false -> opened h (openSecure h src pn ad).
Proof.
  intros Hh Hs Er. unfold openSecure. destruct (css_secureAEAD h) as [aead|] eqn:Ea.
  - pose proof (aeadAESGCM_Open_safe aead src pn ad Hs) as Ho.
    destruct (aeadAESGCM_Open aead src pn ad) as [pl|e|]; [| |done].
    + destruct Hh. rewrite Er in *. split; [|split; [done|split; [|split]]].
      * constructor; cbn; rewrite ?Ea; try done; eauto.
      * intros (_ & E & _). congruence.
      * unfold open_floor. cbn. rewrite Er. destruct (css_receivedSecurePacket h); levels.
      * cbn. split; [done|]. unfold open_floor. cbn. rewrite Er. destruct (css_receivedSecurePacket h); levels.
    + destruct (css_receivedSecurePacket h) eqn:Es; apply opened_unchanged; try done.
      by apply openUnencrypted_safe.
  - apply opened_unchanged; [done|]. apply openUnencrypted_safe; [done|done|].
    destruct (css_receivedSecurePacket h) eqn:Es; [|done].
    destruct (si_receivedSecure _ Hh Es) as [x Hx]. congruence.
Qed.

(** Opening a packet does not panic and keeps the invariant; the level of a packet that opens
    is never below the floor, which it raises to its own level. *)
Lemma server_Open_opened (h : server) src pn ad :
  server_inv h -> bytes_ok src -> opened h (server_Open h src pn ad).
Proof.
  intros Hh Hs. unfold server_Open. destruct (css_forwardSecureAEAD h) as [aead|] eqn:Ef.
  - pose proof (aeadAESGCM_Open_safe aead src pn ad Hs) as Ho.
    destruct (aeadAESGCM_Open aead src pn ad) as [pl|e|]; [| |done].
    + destruct (css_receivedForwardSecurePacket h) eqn:Er; cbn [negb].
      * apply opened_unchanged; [done|]. unfold open_floor. rewrite Er. cbn. split; [done|]. split; apply Z.le_refl.
      * unfold lc_close. rewrite (si_closed _ Hh), Er. destruct Hh.
        split; [|split; [done|split; [|split]]].
        -- constructor; cbn; rewrite ?Ef; try done; eauto. intros E. by rewrite (si_forwardSecure0 E) in Ef.
        -- intros ([] & E & _). rewrite (si_forwardSecure1 E) in Ef. done.
        -- unfold open_floor. cbn. rewrite Er. destruct (css_receivedSecurePacket h); levels.
        -- cbn. split; [done|]. unfold open_floor. cbn. rewrite Er. destruct (css_receivedSecurePacket h); levels.
    + destruct (css_receivedForwardSecurePacket h) eqn:Er; [by apply opened_unchanged|by apply openSecure_opened].
  - apply openSecure_opened; [done|done|].
    destruct (css_receivedForwardSecurePacket h) eqn:Er; [|done].
    destruct (si_received _ Hh Er) as [x Hx]. congruence.
Qed.

Lemma sealed_inv (h : server) level s :
  server_inv h -> server_GetSealerWithEncryptionLevel h level = Ok s ->
  server_inv (sealed h level) /\ (server_idle h -> server_idle (sealed h level)) /\
  open_floor (sealed h level) = open_floor h /\
  (server_GetSealer h).1 <= (server_GetSealer (sealed h level)).1.
Proof.
  intros Hh Hs. unfold sealed. destruct (Z.eqb_spec level EncryptionSecure) as [->|].
  - unfold server_GetSealerWithEncryptionLevel in Hs. cbn in Hs.
    destruct (css_secureAEAD h) as [aead|] eqn:Ea; [|done]. destruct Hh. split; [|split; [|split]].
    + constructor; cbn; rewrite ?Ea; try done; eauto.
    + intros (_ & E & _). congruence.
    + done.
    + unfold server_GetSealer. cbn. rewrite Ea.
      destruct (css_forwardSecureAEAD h), (css_sentSHLO h); levels.
  - split; [done|]. split; [done|]. split; [done|]. apply Z.le_refl.
Qed.

(** *** Runs *)

(** The session opens and seals packets while the handshake runs; the flag tells whether the
    handshake still reads messages. *)
Inductive server_step : bool * server -> bool * server -> Prop :=
| step_iteration env input h h' r :
    server_env_ok env -> bytes_ok input -> serverIteration env input h = (h', r) ->
    server_step (true, h) (match r with Ok (Some _) => true | _ => false end, h')
| step_open running h src packetNumber associatedData :
    bytes_ok src -> server_step (running, h) (running, (server_Open h src packetNumber associatedData).1)
| step_seal running h level sealer :
    server_GetSealerWithEncryptionLevel h level = Ok sealer ->
    server_step (running, h) (running, sealed h level).

Inductive server_steps : bool * server -> bool * server -> Prop :=
| steps_refl s : server_steps s s
| steps_step s s' s'' : server_steps s s' -> server_step s' s'' -> server_steps s s''.

Definition server_state_ok (s : bool * server) : Prop :=
  server_inv s.2 /\ (s.1 = true -> server_idle s.2).

(** A step keeps the invariant and never lowers the level of opening or of sealing. *)
Lemma server_step_ok s s' :
  server_state_ok s -> server_step s s' ->
  server_state_ok s' /\ open_floor s.2 <= open_floor s'.2 /\ (server_GetSealer s.2).1 <= (server_GetSealer s'.2).1.
Proof.
  intros [Hi Hr] Hs. destruct Hs as [env input h h' r He Hb E|running h src pn ad Hb|running h level sealer El];
    cbn [fst snd] in *.
  - specialize (Hr eq_refl). pose proof (serverIteration_spec env input He Hb h Hr) as Hs. rewrite E in Hs.
    assert (open_floor h = EncryptionUnencrypted /\ (server_GetSealer h).1 = EncryptionUnencrypted) as [Ef Eg].
    { destruct Hr as (_ & E1 & _ & E2). unfold open_floor, server_GetSealer. rewrite E2, E1, (si_forwardSecure _ Hi E1).
      split; [|done]. destruct (css_receivedSecurePacket h) eqn:Es; [|done].
      destruct (si_receivedSecure _ Hi Es). congruence. }
    rewrite Ef, Eg. split; [|split].
    + destruct r as [[rest|]|e|]; [split; [exact (proj1 Hs)|intros _; apply (proj2 Hs); by eexists]|split; [exact (proj1 Hs)|done]|split; [exact Hs|done]|done].
    + unfold open_floor. destruct (css_receivedForwardSecurePacket h'), (css_receivedSecurePacket h'); levels.
    + unfold server_GetSealer. destruct (css_forwardSecureAEAD h'), (css_sentSHLO h'), (css_secureAEAD h'); levels.
  - destruct (server_Open_opened h src pn ad Hi Hb) as (H1 & (Ha & Hf & Hsh) & H3 & H4 & _).
    split; [split; auto|]. split; [done|]. unfold server_GetSealer. rewrite Ha, Hf, Hsh.
    destruct (css_forwardSecureAEAD h), (css_sentSHLO h), (css_secureAEAD h); levels.
  - destruct (sealed_inv h level sealer Hi El) as (H1 & H2 & H3 & H4). rewrite H3. split; [split; auto|].
    split; [apply Z.le_refl|done].
Qed.

Lemma server_steps_ok s s' :
  server_state_ok s -> server_steps s s' ->
  server_state_ok s' /\ open_floor s.2 <= open_floor s'.2 /\ (server_GetSealer s.2).1 <= (server_GetSealer s'.2).1.
Proof.
  intros Hs. induction 1 as [|s s' s'' _ IH Hst]; [split; [done|split; apply Z.le_refl]|].
  destruct (IH Hs) as (H1 & H2 & H3). destruct (server_step_ok _ _ H1 Hst) as (? & ? & ?).
  split; [done|]. split; lia.
Qed.

Lemma NewCryptoSetup_ok connID sourceAddr version scfg cp supportedVersions :
  chain_ok (scfg_certChain scfg) -> params_ok cp ->
  server_state_ok (true, NewCryptoSetup connID sourceAddr version scfg cp supportedVersions).
Proof.
  intros Hc Hp. assert (server_inv (NewCryptoSetup connID sourceAddr version scfg cp supportedVersions)) as Hi.
  { constructor; cbn; try done; by eexists. }
  split; [done|]. by split.
Qed.

(** Only opening a forward-secure packet raises the flag. *)
Lemma server_Open_received (h : server) src pn ad :
  received h = false -> received (server_Open h src pn ad).1 = true ->
  (server_Open h src pn ad).2 <> Panic ->
  exists pl, (server_Open h src pn ad).2 = Ok (pl, EncryptionForwardSecure).
Proof.
  intros Er. unfold server_Open, openSecure.
  assert (forall r : res (list Z * Z), received (h, r).1 = true -> False) as Hno by (cbn; congruence).
  destruct (css_forwardSecureAEAD h) as [a|]; [destruct (aeadAESGCM_Open a src pn ad) as [pl|err|]|];
    rewrite ?Er; cbn [negb].
  - intros _. destruct (lc_close _); [by eexists|done..].
  - destruct (css_secureAEAD h) as [b|]; [destruct (aeadAESGCM_Open b src pn ad)|]; repeat case_if; cbn; congruence.
  - cbn. congruence.
  - destruct (css_secureAEAD h) as [b|]; [destruct (aeadAESGCM_Open b src pn ad)|]; repeat case_if; cbn; congruence.
Qed.

(** The opening of a forward-secure packet on the way from one state to another *)
Definition forward_secure_opened (init s : bool * server) : Prop :=
  exists s0 src pn ad pl, server_steps init s0 /\ bytes_ok src /\
    (server_Open s0.2 src pn ad).2 = Ok (pl, EncryptionForwardSecure) /\
    server_steps (s0.1, (server_Open s0.2 src pn ad).1) s.

Lemma server_steps_received init s :
  server_state_ok init -> server_steps init s -> received init.2 = false -> received s.2 = true ->
  forward_secure_opened init s.
Proof.
  intros Hok. induction 1 as [|init s s' Hsteps IH Hst]; intros E0 E1; [congruence|]. specialize (IH Hok E0).
  destruct (received s.2) eqn:Es.
  { destruct (IH eq_refl) as (s0 & src & pn & ad & pl & H1 & H2 & H3 & H4).
    exists s0, src, pn, ad, pl. split_and!; try done. by eapply steps_step. }
  destruct (server_steps_ok _ _ Hok Hsteps) as ([Hi _] & _).
  destruct Hst as [env input h h' r He Hb E|running h src pn ad Hb|running h level sealer El]; cbn [fst snd] in *.
  - pose proof (serverIteration_keeps env input h) as Hkeep. rewrite E in Hkeep. cbn in Hkeep. congruence.
  - destruct (server_Open_opened h src pn ad Hi Hb) as (_ & _ & _ & _ & Hp).
    destruct (server_Open_received h src pn ad Es E1) as (pl & Ep); [by intros Ex; rewrite Ex in Hp|].
    exists (running, h), src, pn, ad, pl. split_and!; try done. apply steps_refl.
  - unfold sealed in E1. case_if; cbn in E1; congruence.
Qed.

(** C27: whatever the client sends, a server's crypto setup does not panic: in every state that a
    session reaches, handling the next message and opening any packet return; the levels
    announced on [aeadChanged] are at most the secure and then the forward-secure one, which
    fit its buffer, and it is closed only after a forward-secure packet was opened; and the
    diversification nonce is there as soon as packets are sealed with the secure keys.  The
    certificate chain answers without a panic ([certChain_ok]), and the random bytes and the
    ephemeral key of the server are there ([server_env_ok]). *)
Theorem server_crypto_setup_safe connID sourceAddr version scfg cp supportedVersions running h :
  chain_ok (scfg_certChain scfg) -> params_ok cp ->
  server_steps (true, NewCryptoSetup connID sourceAddr version scfg cp supportedVersions) (running, h) ->
  (running = true -> forall env input, server_env_ok env -> bytes_ok input ->
     (serverIteration env input h).2 <> Panic) /\
  (forall src pn ad, bytes_ok src -> (server_Open h src pn ad).2 <> Panic) /\
  (exists rest, [EncryptionSecure; EncryptionForwardSecure] = lc_sent (css_aeadChanged h) ++ rest) /\
  (lc_closed (css_aeadChanged h) = true ->
   forward_secure_opened (true, NewCryptoSetup connID sourceAddr version scfg cp supportedVersions) (running, h)) /\
  ((server_GetSealer h).1 = EncryptionSecure -> len (css_diversificationNonce h) = 32).
Proof.
  intros Hc Hp Hs. destruct (server_steps_ok _ _ (NewCryptoSetup_ok _ _ _ _ _ _ Hc Hp) Hs) as ([Hi Hr] & _).
  cbn [fst snd] in *. split_and!.
  - intros E env input He Hb Hp'. pose proof (serverIteration_spec env input He Hb h (Hr E)) as H.
    destruct (serverIteration env input h) as [h' r]. cbn in Hp'. by rewrite Hp' in H.
  - intros src pn ad Hb Hp'. destruct (server_Open_opened h src pn ad Hi Hb) as (_ & _ & _ & _ & H). by rewrite Hp' in H.
  - apply (si_sent _ Hi).
  - rewrite (si_closed _ Hi). intros Er. eapply server_steps_received; [by apply NewCryptoSetup_ok|done|done|done].
  - unfold server_GetSealer. intros E. apply (si_nonce _ Hi).
    destruct (css_secureAEAD h); [done|]. by destruct (css_forwardSecureAEAD h), (css_sentSHLO h).
Qed.

(** A server's session is never downgraded: the encryption level of the packets that it opens
    and the level that it seals with do not decrease. *)
Theorem server_levels_monotone connID sourceAddr version scfg cp supportedVersions s1 s2 src1 pn1 ad1 src2 pn2 ad2 pl1 l1 pl2 l2 :
  chain_ok (scfg_certChain scfg) -> params_ok cp ->
  server_steps (true, NewCryptoSetup connID sourceAddr version scfg cp supportedVersions) s1 ->
  bytes_ok src1 -> (server_Open s1.2 src1 pn1 ad1).2 = Ok (pl1, l1) ->
  server_steps (s1.1, (server_Open s1.2 src1 pn1 ad1).1) s2 ->
  bytes_ok src2 -> (server_Open s2.2 src2 pn2 ad2).2 = Ok (pl2, l2) ->
  l1 <= l2 /\ (server_GetSealer s1.2).1 <= (server_GetSealer s2.2).1.
Proof.
  intros Hc Hp H1 Hb1 E1 H2 Hb2 E2.
  destruct (server_steps_ok _ _ (NewCryptoSetup_ok _ _ _ _ _ _ Hc Hp) H1) as (Hs1 & _).
  assert (server_step s1 (s1.1, (server_Open s1.2 src1 pn1 ad1).1)) as Hst
    by (destruct s1; by constructor).
  destruct (server_step_ok _ _ Hs1 Hst) as (Hs1' & Hf1 & Hg1). cbn [fst snd] in *.
  destruct (server_steps_ok _ _ Hs1' H2) as (Hs2 & Hf2 & Hg2). cbn [fst snd] in *.
  destruct (server_Open_opened s1.2 src1 pn1 ad1 (proj1 Hs1) Hb1) as (_ & _ & _ & _ & Ho1). rewrite E1 in Ho1.
  destruct (server_Open_opened s2.2 src2 pn2 ad2 (proj1 Hs2) Hb2) as (_ & _ & _ & _ & Ho2). rewrite E2 in Ho2.
  split; lia.
Qed.
End server_safety.

(** The certificate chain of cert_chain.go, for a configuration that has a non-empty chain for
    every name *)
Lemma certChain_ok {Sg : Signatures} {CS : CertSets} {ZL : Zlib} {LRU : Type} {LC : LruCache LRU} unicodeLower cfg cache :
  (forall sni, safe (getCertForSNI unicodeLower cfg sni) (fun cert => tc_Certificate cert <> [])) ->
  (forall k digest rand, rsa_SignPSS k digest rand <> Panic) -> (forall k digest rand, signer_Sign k digest rand <> Panic) ->
  chain_ok (CH := certChain_interface unicodeLower) (cfg, cache).
Proof.
  intros Hc Hr Hs. constructor; cbn; intros sni.
  - unfold certChain_GetLeafCert. specialize (Hc sni). destruct (getCertForSNI _ _ _) as [cert|err|]; [|done..].
    cbn in *. by destruct (tc_Certificate cert).
  - intros chlo scfg rand. unfold certChain_SignServerProof. specialize (Hc sni).
    destruct (getCertForSNI _ _ _) as [cert|err|]; [|done..]. cbn. unfold signServerProof. by destruct (tc_PrivateKey cert).
  - intros common cached. unfold certChain_GetCertsCompressed. specialize (Hc sni).
    destruct (getCertForSNI _ _ _) as [cert|err|]; [|done..]. unfold getCompressedCert.
    destruct (lru_Get _ _) as [[r|] c]; [done|].
    enough (compressChain (tc_Certificate cert) common cached <> Panic) by (by destruct (compressChain _ _ _)).
    unfold compressChain, splitHashes. destruct (negb _), (negb _); cbn; [done..|].
    destruct (writeEntries _ _ _ _). by destruct (_ >? _).
Qed.
