(* ===== verification/CryptoSetupClient.v ===== *)
(** * handshake/crypto_setup_client.go: the crypto of a client's session

    [cryptoSetupClient] with the loop that sends hellos and handles the server's answers, and
    the opening and sealing of packets.  The loop waits in its [select] for an event: a
    message of the server, a diversification nonce that the session has found in a public
    header, or an error of the crypto stream.  [clientEnv] holds the clock, the random bytes
    and the result of writing on the stream. *)

From S2P Require Import Prelude Protocol Qerr Wire Handshake Crypto CertDict Certs CertManager ServerConfig PacketUnpacker PacketPacker.
From S2P Require Import CryptoSetupServer.

Definition errNoObitForClientNonce : goerror := ErrNew "CryptoSetup BUG: No OBIT for client nonce available".
Definition errClientNonceAlreadyExists : goerror := ErrNew "CryptoSetup BUG: A client nonce was already generated".
Definition errConflictingDiversificationNonces : goerror := ErrNew "Received two different diversification nonces".
Definition MaxClientHellos : Z := 3.

Section client.
Context `{Fn : Fnv128a, Ae : Aes12, Hk : Hkdf, Cu : Curve25519} {M : Type} `{CM : CertManager M}.

Record cryptoSetupClient : Type := mkCryptoSetupClient {
  csc_hostname : list Z;
  csc_connID : Z;
  csc_version : Z;
  csc_negotiatedVersions : list Z;
  csc_cryptoStream : list (list Z);
  csc_serverConfig : option serverConfigClient;
  csc_stk : list Z;
  csc_sno : list Z;
  csc_nonc : list Z;
  csc_proof : list Z;
  csc_chloForSignature : list Z;
  csc_lastSentCHLO : list Z;
  csc_certManager : M;
  csc_diversificationNonce : list Z;
  csc_clientHelloCounter : Z;
  csc_serverVerified : bool;
  csc_receivedSecurePacket : bool;
  csc_nullAEAD : nullAEAD;
  csc_secureAEAD : option aeadAESGCM;
  csc_forwardSecureAEAD : option aeadAESGCM;
  csc_aeadChanged : levelChan;
  csc_requestTruncation : bool;
  csc_connectionParameters : connectionParametersManager;
}.

Definition NewCryptoSetupClient (hostname : list Z) (connID version : Z) (certManager : M)
    (connectionParameters : connectionParametersManager) (requestTruncation : bool)
    (negotiatedVersions : list Z) : cryptoSetupClient :=
  mkCryptoSetupClient hostname connID version negotiatedVersions [] None [] [] [] [] [] [] certManager
    [] 0 false false (NewNullAEAD PerspectiveClient version) None None (mkLevelChan [] false)
    requestTruncation connectionParameters.

(** Field updates *)
Definition csc_set_stream (h : cryptoSetupClient) (x0 : list (list Z)) (x1 : list Z) : cryptoSetupClient :=
  mkCryptoSetupClient (csc_hostname h) (csc_connID h) (csc_version h) (csc_negotiatedVersions h) x0
    (csc_serverConfig h) (csc_stk h) (csc_sno h) (csc_nonc h) (csc_proof h)
    (csc_chloForSignature h) x1 (csc_certManager h) (csc_diversificationNonce h)
    (csc_clientHelloCounter h) (csc_serverVerified h) (csc_receivedSecurePacket h)
    (csc_nullAEAD h) (csc_secureAEAD h) (csc_forwardSecureAEAD h) (csc_aeadChanged h)
    (csc_requestTruncation h) (csc_connectionParameters h).
Definition csc_set_config (h : cryptoSetupClient) (x : option serverConfigClient) : cryptoSetupClient :=
  mkCryptoSetupClient (csc_hostname h) (csc_connID h) (csc_version h) (csc_negotiatedVersions h)
    (csc_cryptoStream h) x (csc_stk h) (csc_sno h) (csc_nonc h) (csc_proof h)
    (csc_chloForSignature h) (csc_lastSentCHLO h) (csc_certManager h)
    (csc_diversificationNonce h) (csc_clientHelloCounter h) (csc_serverVerified h)
    (csc_receivedSecurePacket h) (csc_nullAEAD h) (csc_secureAEAD h) (csc_forwardSecureAEAD h)
    (csc_aeadChanged h) (csc_requestTruncation h) (csc_connectionParameters h).
Definition csc_set_stk (h : cryptoSetupClient) (x : list Z) : cryptoSetupClient :=
  mkCryptoSetupClient (csc_hostname h) (csc_connID h) (csc_version h) (csc_negotiatedVersions h)
    (csc_cryptoStream h) (csc_serverConfig h) x (csc_sno h) (csc_nonc h) (csc_proof h)
    (csc_chloForSignature h) (csc_lastSentCHLO h) (csc_certManager h)
    (csc_diversificationNonce h) (csc_clientHelloCounter h) (csc_serverVerified h)
    (csc_receivedSecurePacket h) (csc_nullAEAD h) (csc_secureAEAD h) (csc_forwardSecureAEAD h)
    (csc_aeadChanged h) (csc_requestTruncation h) (csc_connectionParameters h).
Definition csc_set_sno (h : cryptoSetupClient) (x : list Z) : cryptoSetupClient :=
  mkCryptoSetupClient (csc_hostname h) (csc_connID h) (csc_version h) (csc_negotiatedVersions h)
    (csc_cryptoStream h) (csc_serverConfig h) (csc_stk h) x (csc_nonc h) (csc_proof h)
    (csc_chloForSignature h) (csc_lastSentCHLO h) (csc_certManager h)
    (csc_diversificationNonce h) (csc_clientHelloCounter h) (csc_serverVerified h)
    (csc_receivedSecurePacket h) (csc_nullAEAD h) (csc_secureAEAD h) (csc_forwardSecureAEAD h)
    (csc_aeadChanged h) (csc_requestTruncation h) (csc_connectionParameters h).
Definition csc_set_nonc (h : cryptoSetupClient) (x : list Z) : cryptoSetupClient :=
  mkCryptoSetupClient (csc_hostname h) (csc_connID h) (csc_version h) (csc_negotiatedVersions h)
    (csc_cryptoStream h) (csc_serverConfig h) (csc_stk h) (csc_sno h) x (csc_proof h)
    (csc_chloForSignature h) (csc_lastSentCHLO h) (csc_certManager h)
    (csc_diversificationNonce h) (csc_clientHelloCounter h) (csc_serverVerified h)
    (csc_receivedSecurePacket h) (csc_nullAEAD h) (csc_secureAEAD h) (csc_forwardSecureAEAD h)
    (csc_aeadChanged h) (csc_requestTruncation h) (csc_connectionParameters h).
Definition csc_set_proof (h : cryptoSetupClient) (x0 : list Z) (x1 : list Z) : cryptoSetupClient :=
  mkCryptoSetupClient (csc_hostname h) (csc_connID h) (csc_version h) (csc_negotiatedVersions h)
    (csc_cryptoStream h) (csc_serverConfig h) (csc_stk h) (csc_sno h) (csc_nonc h) x0 x1
    (csc_lastSentCHLO h) (csc_certManager h) (csc_diversificationNonce h)
    (csc_clientHelloCounter h) (csc_serverVerified h) (csc_receivedSecurePacket h)
    (csc_nullAEAD h) (csc_secureAEAD h) (csc_forwardSecureAEAD h) (csc_aeadChanged h)
    (csc_requestTruncation h) (csc_connectionParameters h).
Definition csc_set_certManager (h : cryptoSetupClient) (x : M) : cryptoSetupClient :=
  mkCryptoSetupClient (csc_hostname h) (csc_connID h) (csc_version h) (csc_negotiatedVersions h)
    (csc_cryptoStream h) (csc_serverConfig h) (csc_stk h) (csc_sno h) (csc_nonc h)
    (csc_proof h) (csc_chloForSignature h) (csc_lastSentCHLO h) x (csc_diversificationNonce h)
    (csc_clientHelloCounter h) (csc_serverVerified h) (csc_receivedSecurePacket h)
    (csc_nullAEAD h) (csc_secureAEAD h) (csc_forwardSecureAEAD h) (csc_aeadChanged h)
    (csc_requestTruncation h) (csc_connectionParameters h).
Definition csc_set_nonce (h : cryptoSetupClient) (x : list Z) : cryptoSetupClient :=
  mkCryptoSetupClient (csc_hostname h) (csc_connID h) (csc_version h) (csc_negotiatedVersions h)
    (csc_cryptoStream h) (csc_serverConfig h) (csc_stk h) (csc_sno h) (csc_nonc h)
    (csc_proof h) (csc_chloForSignature h) (csc_lastSentCHLO h) (csc_certManager h) x
    (csc_clientHelloCounter h) (csc_serverVerified h) (csc_receivedSecurePacket h)
    (csc_nullAEAD h) (csc_secureAEAD h) (csc_forwardSecureAEAD h) (csc_aeadChanged h)
    (csc_requestTruncation h) (csc_connectionParameters h).
Definition csc_set_counter (h : cryptoSetupClient) (x : Z) : cryptoSetupClient :=
  mkCryptoSetupClient (csc_hostname h) (csc_connID h) (csc_version h) (csc_negotiatedVersions h)
    (csc_cryptoStream h) (csc_serverConfig h) (csc_stk h) (csc_sno h) (csc_nonc h)
    (csc_proof h) (csc_chloForSignature h) (csc_lastSentCHLO h) (csc_certManager h)
    (csc_diversificationNonce h) x (csc_serverVerified h) (csc_receivedSecurePacket h)
    (csc_nullAEAD h) (csc_secureAEAD h) (csc_forwardSecureAEAD h) (csc_aeadChanged h)
    (csc_requestTruncation h) (csc_connectionParameters h).
Definition csc_set_verified (h : cryptoSetupClient) (x : bool) : cryptoSetupClient :=
  mkCryptoSetupClient (csc_hostname h) (csc_connID h) (csc_version h) (csc_negotiatedVersions h)
    (csc_cryptoStream h) (csc_serverConfig h) (csc_stk h) (csc_sno h) (csc_nonc h)
    (csc_proof h) (csc_chloForSignature h) (csc_lastSentCHLO h) (csc_certManager h)
    (csc_diversificationNonce h) (csc_clientHelloCounter h) x (csc_receivedSecurePacket h)
    (csc_nullAEAD h) (csc_secureAEAD h) (csc_forwardSecureAEAD h) (csc_aeadChanged h)
    (csc_requestTruncation h) (csc_connectionParameters h).
Definition csc_set_received (h : cryptoSetupClient) (x : bool) : cryptoSetupClient :=
  mkCryptoSetupClient (csc_hostname h) (csc_connID h) (csc_version h) (csc_negotiatedVersions h)
    (csc_cryptoStream h) (csc_serverConfig h) (csc_stk h) (csc_sno h) (csc_nonc h)
    (csc_proof h) (csc_chloForSignature h) (csc_lastSentCHLO h) (csc_certManager h)
    (csc_diversificationNonce h) (csc_clientHelloCounter h) (csc_serverVerified h) x
    (csc_nullAEAD h) (csc_secureAEAD h) (csc_forwardSecureAEAD h) (csc_aeadChanged h)
    (csc_requestTruncation h) (csc_connectionParameters h).
Definition csc_set_secure (h : cryptoSetupClient) (x : option aeadAESGCM) : cryptoSetupClient :=
  mkCryptoSetupClient (csc_hostname h) (csc_connID h) (csc_version h) (csc_negotiatedVersions h)
    (csc_cryptoStream h) (csc_serverConfig h) (csc_stk h) (csc_sno h) (csc_nonc h)
    (csc_proof h) (csc_chloForSignature h) (csc_lastSentCHLO h) (csc_certManager h)
    (csc_diversificationNonce h) (csc_clientHelloCounter h) (csc_serverVerified h)
    (csc_receivedSecurePacket h) (csc_nullAEAD h) x (csc_forwardSecureAEAD h)
    (csc_aeadChanged h) (csc_requestTruncation h) (csc_connectionParameters h).
Definition csc_set_forwardSecure (h : cryptoSetupClient) (x : option aeadAESGCM) : cryptoSetupClient :=
  mkCryptoSetupClient (csc_hostname h) (csc_connID h) (csc_version h) (csc_negotiatedVersions h)
    (csc_cryptoStream h) (csc_serverConfig h) (csc_stk h) (csc_sno h) (csc_nonc h)
    (csc_proof h) (csc_chloForSignature h) (csc_lastSentCHLO h) (csc_certManager h)
    (csc_diversificationNonce h) (csc_clientHelloCounter h) (csc_serverVerified h)
    (csc_receivedSecurePacket h) (csc_nullAEAD h) (csc_secureAEAD h) x (csc_aeadChanged h)
    (csc_requestTruncation h) (csc_connectionParameters h).
Definition csc_set_changed (h : cryptoSetupClient) (x : levelChan) : cryptoSetupClient :=
  mkCryptoSetupClient (csc_hostname h) (csc_connID h) (csc_version h) (csc_negotiatedVersions h)
    (csc_cryptoStream h) (csc_serverConfig h) (csc_stk h) (csc_sno h) (csc_nonc h)
    (csc_proof h) (csc_chloForSignature h) (csc_lastSentCHLO h) (csc_certManager h)
    (csc_diversificationNonce h) (csc_clientHelloCounter h) (csc_serverVerified h)
    (csc_receivedSecurePacket h) (csc_nullAEAD h) (csc_secureAEAD h) (csc_forwardSecureAEAD h)
    x (csc_requestTruncation h) (csc_connectionParameters h).
Definition csc_set_parameters (h : cryptoSetupClient) (x : connectionParametersManager) : cryptoSetupClient :=
  mkCryptoSetupClient (csc_hostname h) (csc_connID h) (csc_version h) (csc_negotiatedVersions h)
    (csc_cryptoStream h) (csc_serverConfig h) (csc_stk h) (csc_sno h) (csc_nonc h)
    (csc_proof h) (csc_chloForSignature h) (csc_lastSentCHLO h) (csc_certManager h)
    (csc_diversificationNonce h) (csc_clientHelloCounter h) (csc_serverVerified h)
    (csc_receivedSecurePacket h) (csc_nullAEAD h) (csc_secureAEAD h) (csc_forwardSecureAEAD h)
    (csc_aeadChanged h) (csc_requestTruncation h) x.

(** What handling an event takes from outside: the clock, the random bytes of a key exchange
    and of the client nonce, and whether the write on the crypto stream succeeds *)
Record clientEnv : Type := mkClientEnv {
  ce_now : Z;
  ce_randKex : randomness;
  ce_randNonce : randomness;
  ce_write : res unit;
}.

Inductive clientEvent : Type :=
| EvDivNonce (divNonce : list Z)
| EvMessage (message : HandshakeMessage)
| EvError (err : goerror).

(** [if v, ok := cryptoData[tag]; ok { ... }] *)
Definition ifTag (cryptoData : gmap Z (list Z)) (tag : Z) (k : list Z -> SR cryptoSetupClient unit)
    : SR cryptoSetupClient unit :=
  match cryptoData !! tag with
  | Some v => k v
  | None => sr_ret tt
  end.

Definition generateClientNonce (env : clientEnv) : SR cryptoSetupClient unit :=
  sr_with (fun h =>
  if len (csc_nonc h) >? 0 then sr_err errClientNonceAlreadyExists
  else match csc_serverConfig h with
  | None => sr_lift Panic
  | Some config =>
      if negb (len (scc_obit config) =? 8) then sr_err errNoObitForClientNonce
      else
        do! rand := sr_lift (ce_randNonce env) in
        sr_modify (fun h => csc_set_nonc h
          (be_bytes 4 (u32 (Unix (ce_now env))) ++ scc_obit config ++ rand))
  end).

(** The server config of a rejection *)
Definition handleSCFG (env : clientEnv) (scfg : list Z) : SR cryptoSetupClient unit :=
  match parseServerConfig scfg (ce_randKex env) with
  | Panic => sr_lift Panic
  | Err e => sr_modify (fun h => csc_set_config h None) ;;! sr_err e
  | Ok config =>
      sr_modify (fun h => csc_set_config h (Some config)) ;;!
      if IsExpired config (ce_now env) then sr_err (ErrorCodeErr CryptoServerConfigExpired)
      else
        sr_with (fun h => if len (csc_nonc h) =? 0 then generateClientNonce env else sr_ret tt)
  end.

(** The certificates of a rejection *)
Definition handleCERT (crt : list Z) : SR cryptoSetupClient unit :=
  sr_with (fun h =>
  match SetData (csc_certManager h) crt with
  | Panic => sr_lift Panic
  | Err _ => sr_err (QuicError InvalidCryptoMessageParameter (Msg "Certificate data invalid"))
  | Ok manager =>
      sr_modify (fun h => csc_set_certManager h manager) ;;!
      match Verify manager (csc_hostname h) with
      | Panic => sr_lift Panic
      | Err _ => sr_err (ErrorCodeErr ProofInvalid)
      | Ok _ => sr_ret tt
      end
  end).

(** The verification of the proof, once there are a config, a proof and a certificate *)
Definition verifyProof : SR cryptoSetupClient unit :=
  sr_with (fun h =>
  match csc_serverConfig h, ManagerLeafCert (csc_certManager h) with
  | Some config, Some _ =>
      if negb (len (csc_proof h) =? 0) then
        do! validProof := sr_lift (VerifyServerProof (csc_certManager h) (csc_proof h)
                                     (csc_chloForSignature h) (serverConfigClient_Get config)) in
        if negb validProof then sr_err (ErrorCodeErr ProofInvalid)
        else sr_modify (fun h => csc_set_verified h true)
      else sr_ret tt
  | _, _ => sr_ret tt
  end).

Definition handleREJMessage (env : clientEnv) (cryptoData : gmap Z (list Z)) : SR cryptoSetupClient unit :=
  ifTag cryptoData TagSTK (fun stk => sr_modify (fun h => csc_set_stk h stk)) ;;!
  ifTag cryptoData TagSNO (fun sno => sr_modify (fun h => csc_set_sno h sno)) ;;!
  ifTag cryptoData TagSCFG (handleSCFG env) ;;!
  ifTag cryptoData TagPROF (fun proof => sr_modify (fun h => csc_set_proof h proof (csc_lastSentCHLO h))) ;;!
  ifTag cryptoData TagCERT handleCERT ;;!
  verifyProof.

(** The loop over the negotiated versions *)
Fixpoint versionListMatches (negotiatedVersions : list Z) (b : list Z) : bool :=
  match negotiatedVersions with
  | [] => true
  | negotiatedVersion :: negotiatedVersions =>
      match ReadUint32 b with
      | Ok (verTag, b) =>
          let ver := VersionTagToNumber verTag in
          let ver := if negb (IsSupportedVersion SupportedVersions ver) then VersionUnsupported else ver in
          if negb (ver =? negotiatedVersion) then false
          else versionListMatches negotiatedVersions b
      | _ => false
      end
  end.

Definition validateVersionList (h : cryptoSetupClient) (verTags : list Z) : bool :=
  if len (csc_negotiatedVersions h) =? 0 then true
  else if negb (len verTags mod 4 =? 0) || negb (len verTags / 4 =? len (csc_negotiatedVersions h)) then false
  else versionListMatches (csc_negotiatedVersions h) verTags.

(** [h.aeadChanged <- level] and [close(h.aeadChanged)] *)
Definition client_changed (level : Z) : SR cryptoSetupClient unit := fun h =>
  match lc_send (csc_aeadChanged h) level with
  | Ok c => (csc_set_changed h c, Ok tt)
  | _ => (h, Panic)
  end.
Definition client_close : SR cryptoSetupClient unit := fun h =>
  match lc_close (csc_aeadChanged h) with
  | Ok c => (csc_set_changed h c, Ok tt)
  | _ => (h, Panic)
  end.

(** The assignment of an AEAD and an error *)
Definition client_assign (set : cryptoSetupClient -> option aeadAESGCM -> cryptoSetupClient)
    (r : res aeadAESGCM) : SR cryptoSetupClient unit := fun h =>
  match r with
  | Ok a => (set h (Some a), Ok tt)
  | Err e => (set h None, Err e)
  | Panic => (h, Panic)
  end.

(** [h.connectionParameters.SetFromMap], with its error replaced *)
Definition client_parameters (cryptoData : gmap Z (list Z)) : SR cryptoSetupClient unit := fun h =>
  let '(cp, r) := SetFromMap (csc_connectionParameters h) cryptoData in
  (csc_set_parameters h cp,
   match r with Err _ => Err (ErrorCodeErr InvalidCryptoMessageParameter) | r => r end).

Definition handleSHLOMessage (cryptoData : gmap Z (list Z)) : SR cryptoSetupClient unit :=
  sr_with (fun h =>
  if negb (csc_receivedSecurePacket h)
  then sr_err (QuicError CryptoEncryptionLevelIncorrect (Msg "unencrypted SHLO message"))
  else
    ifTag cryptoData TagSNO (fun sno => sr_modify (fun h => csc_set_sno h sno)) ;;!
    match cryptoData !! TagPUBS with
    | None => sr_err (QuicError CryptoMessageParameterNotFound (Msg "PUBS"))
    | Some serverPubs =>
    match cryptoData !! TagVER with
    | None => sr_err (QuicError InvalidCryptoMessageParameter (Msg "server hello missing version list"))
    | Some verTag =>
    if negb (validateVersionList h verTag)
    then sr_err (QuicError VersionNegotiationMismatch (Msg "Downgrade attack detected"))
    else match csc_serverConfig h with
    | None => sr_lift Panic
    | Some config =>
        do! ephermalSharedSecret := sr_lift (CalculateSharedKey (scc_kex config) serverPubs) in
        sr_with (fun h =>
        client_assign csc_set_forwardSecure
          (DeriveKeysAESGCM true ephermalSharedSecret (csc_nonc h ++ csc_sno h) (csc_connID h)
             (csc_lastSentCHLO h) (serverConfigClient_Get config)
             (default [] (ManagerLeafCert (csc_certManager h))) [] PerspectiveClient)) ;;!
        client_parameters cryptoData ;;!
        client_changed EncryptionForwardSecure ;;!
        client_close
    end end end).

(** The tags that the client adds once it has a server config *)
Definition configTags (h : cryptoSetupClient) (tags : gmap Z (list Z)) : gmap Z (list Z) :=
  match csc_serverConfig h with
  | None => tags
  | Some config =>
      let tags := <[TagSCID := scc_ID config]> tags in
      match ManagerLeafCert (csc_certManager h) with
      | None => tags
      | Some leafCert =>
          let certHash := match GetLeafCertHash (csc_certManager h) with Ok x => x | _ => 0 end in
          let xlct := le_bytes 8 certHash in
          <[TagPUBS := PublicKey (scc_kex config)]>
          (<[TagAEAD := bytes_of "AESG"]>
          (<[TagKEXS := bytes_of "C255"]>
          (<[TagXLCT := xlct]>
          (<[TagNONC := csc_nonc h]> tags))))
      end
  end.

Definition getTags (h : cryptoSetupClient) : gmap Z (list Z) :=
  let tags := GetHelloMap (csc_connectionParameters h) in
  let tags := <[TagSNI := csc_hostname h]> tags in
  let tags := <[TagPDMD := bytes_of "X509"]> tags in
  let ccs := GetCommonCertificateHashes (csc_certManager h) in
  let tags := if len ccs >? 0 then <[TagCCS := ccs]> tags else tags in
  let versionTag := le_bytes 4 (VersionNumberToTag (csc_version h)) in
  let tags := <[TagVER := versionTag]> tags in
  let tags := if csc_requestTruncation h then <[TagTCID := [0; 0; 0; 0]]> tags else tags in
  let tags := if len (csc_stk h) >? 0 then <[TagSTK := csc_stk h]> tags else tags in
  let tags := if len (csc_sno h) >? 0 then <[TagSNO := csc_sno h]> tags else tags in
  configTags h tags.

(** The bytes of the parameters: tag, offset and value *)
Definition tagsSize (tags : gmap Z (list Z)) : Z :=
  foldr (fun '(_, tag) size => size + (8 + len tag)) 0 (map_to_list tags).

Definition addPadding (tags : gmap Z (list Z)) : gmap Z (list Z) :=
  let size := tagsSize tags in
  let paddingSize := ClientHelloMinimumSize - size in
  if paddingSize >? 0 then <[TagPAD := replicate (Z.to_nat paddingSize) 0]> tags else tags.

Definition sendCHLO (env : clientEnv) : SR cryptoSetupClient unit :=
  sr_modify (fun h => csc_set_counter h (csc_clientHelloCounter h + 1)) ;;!
  sr_with (fun h =>
  if csc_clientHelloCounter h >? MaxClientHellos
  then sr_err (QuicError CryptoTooManyRejects (Msgf "More than %d rejects" [MaxClientHellos]))
  else
    let tags := addPadding (getTags h) in
    let b := HandshakeMessage_Write (mkHandshakeMessage TagCHLO tags) [] in
    sr_lift (ce_write env) ;;!
    sr_modify (fun h => csc_set_stream h (csc_cryptoStream h ++ [b]) b)).

Definition maybeUpgradeCrypto : SR cryptoSetupClient unit :=
  sr_with (fun h =>
  if negb (csc_serverVerified h) then sr_ret tt
  else
    let leafCert := default [] (ManagerLeafCert (csc_certManager h)) in
    match csc_secureAEAD h, csc_serverConfig h with
    | None, Some config =>
        if (len (scc_sharedSecret config) >? 0) && (len (csc_nonc h) >? 0) && (len leafCert >? 0) &&
           (len (csc_diversificationNonce h) >? 0) && (len (csc_lastSentCHLO h) >? 0) then
          let nonce := if bool_decide (csc_sno h = []) then csc_nonc h else csc_nonc h ++ csc_sno h in
          client_assign csc_set_secure
            (DeriveKeysAESGCM false (scc_sharedSecret config) nonce (csc_connID h) (csc_lastSentCHLO h)
               (serverConfigClient_Get config) leafCert (csc_diversificationNonce h) PerspectiveClient) ;;!
          client_changed EncryptionSecure
        else sr_ret tt
    | _, _ => sr_ret tt
    end).

(** The loop of [HandleCryptoStream]: what it does before it waits, and the handling of the
    event that it has received *)
Definition client_prepare (env : clientEnv) : SR cryptoSetupClient unit :=
  maybeUpgradeCrypto ;;!
  sr_with (fun h => match csc_secureAEAD h with None => sendCHLO env | Some _ => sr_ret tt end).

Definition client_handle (env : clientEnv) (ev : clientEvent) : SR cryptoSetupClient unit :=
  match ev with
  | EvDivNonce divNonce =>
      sr_with (fun h =>
      if negb (len (csc_diversificationNonce h) =? 0) &&
         negb (bool_decide (csc_diversificationNonce h = divNonce))
      then sr_err errConflictingDiversificationNonces
      else sr_modify (fun h => csc_set_nonce h divNonce))
  | EvError err => sr_err (QuicError HandshakeFailed (MsgOf err))
  | EvMessage message =>
      if hm_Tag message =? TagREJ then handleREJMessage env (hm_Data message)
      else if hm_Tag message =? TagSHLO then handleSHLOMessage (hm_Data message)
      else sr_err (ErrorCodeErr InvalidCryptoMessageType)
  end.

Definition clientIteration (env : clientEnv) (ev : clientEvent) : SR cryptoSetupClient unit :=
  client_handle env ev ;;! client_prepare env.

(** The loop for a sequence of events, each with its environment *)
Fixpoint client_loop (events : list (clientEnv * clientEvent)) : SR cryptoSetupClient unit :=
  match events with
  | [] => sr_ret tt
  | (env, ev) :: events => clientIteration env ev ;;! client_loop events
  end.
Definition client_HandleCryptoStream (env : clientEnv) (events : list (clientEnv * clientEvent))
    : SR cryptoSetupClient unit :=
  client_prepare env ;;! client_loop events.

(** ** Opening and sealing *)

Definition client_openUnencrypted (h : cryptoSetupClient) (src : list Z) (packetNumber : Z)
    (associatedData : list Z) : res (list Z * Z) :=
  let! res := nullAEAD_Open (csc_nullAEAD h) src packetNumber associatedData in
  Ok (res, EncryptionUnencrypted).

Definition client_Open (h : cryptoSetupClient) (src : list Z) (packetNumber : Z) (associatedData : list Z)
    : cryptoSetupClient * res (list Z * Z) :=
  match csc_forwardSecureAEAD h with
  | Some aead =>
      (h, let! data := aeadAESGCM_Open aead src packetNumber associatedData in Ok (data, EncryptionForwardSecure))
  | None =>
      match csc_secureAEAD h with
      | Some aead =>
          match aeadAESGCM_Open aead src packetNumber associatedData with
          | Ok data => (csc_set_received h true, Ok (data, EncryptionSecure))
          | Panic => (h, Panic)
          | Err err =>
              if csc_receivedSecurePacket h then (h, Err err)
              else (h, client_openUnencrypted h src packetNumber associatedData)
          end
      | None => (h, client_openUnencrypted h src packetNumber associatedData)
      end
  end.

Definition client_sealUnencrypted (h : cryptoSetupClient) : Sealer :=
  fun src packetNumber associatedData => nullAEAD_Seal (csc_nullAEAD h) src packetNumber associatedData.

Definition client_GetSealer (h : cryptoSetupClient) : Z * Sealer :=
  match csc_forwardSecureAEAD h, csc_secureAEAD h with
  | Some aead, _ => (EncryptionForwardSecure, sealWith aead)
  | None, Some aead => (EncryptionSecure, sealWith aead)
  | None, None => (EncryptionUnencrypted, client_sealUnencrypted h)
  end.

Definition client_GetSealerWithEncryptionLevel (h : cryptoSetupClient) (encLevel : Z) : res Sealer :=
  if encLevel =? EncryptionUnencrypted then Ok (client_sealUnencrypted h)
  else if encLevel =? EncryptionSecure then
    match csc_secureAEAD h with
    | None => Err (ErrNew "CryptoSetupClient: no secureAEAD")
    | Some aead => Ok (sealWith aead)
    end
  else if encLevel =? EncryptionForwardSecure then
    match csc_forwardSecureAEAD h with
    | None => Err (ErrNew "CryptoSetupClient: no forwardSecureAEAD")
    | Some aead => Ok (sealWith aead)
    end
  else Err (ErrNew "CryptoSetupClient: no encryption level specified").

(** The interface that the session uses; a client never asks for its diversification nonce. *)
#[local] Instance cryptoSetupClient_interface : CryptoSetup cryptoSetupClient := {|
  CryptoOpen h src packetNumber associatedData := (client_Open h src packetNumber associatedData).2;
  GetSealer := client_GetSealer;
  GetSealerWithEncryptionLevel := client_GetSealerWithEncryptionLevel;
  DiversificationNonce _ := [];
|}.
End client.

(** ** Safety and authentication *)

Section client_safety.
Context `{Fn : Fnv128a, Ae : Aes12, AeL : !Aes12Laws Ae, Hk : Hkdf, HkL : !HkdfLaws Hk}.
Context `{Cu : Curve25519, CuL : !Curve25519Laws Cu} {M : Type} `{CM : CertManager M}.
#[local] Abbreviation client := (cryptoSetupClient (M := M)).

(** The certificate manager answers without a panic, and does not accept an empty chain. *)
Record manager_ok : Prop := {
  mo_set (m : M) crt : bytes_ok crt -> SetData m crt <> Panic;
  mo_verify (m : M) host : Verify m host <> Panic;
  mo_proof (m : M) proof chlo scfg : VerifyServerProof m proof chlo scfg <> Panic;
  mo_leaf (m : M) host : Verify m host = Ok tt -> is_Some (ManagerLeafCert m);
}.
Context (HM : manager_ok).

Record client_env_ok (env : clientEnv) : Prop := {
  ceo_kex : random_ok 32 (ce_randKex env);
  ceo_nonce : random_ok 20 (ce_randNonce env);
  ceo_write : ce_write env <> Panic;
}.

(** What holds also after the loop has ended with an error *)
Record client_inv (h : client) : Prop := {
  ci_params : ok_as PerspectiveClient (csc_connectionParameters h);
  ci_received : csc_receivedSecurePacket h = true -> is_Some (csc_secureAEAD h);
  ci_sent : exists rest, [EncryptionSecure; EncryptionForwardSecure] = lc_sent (csc_aeadChanged h) ++ rest;
  ci_closed : lc_closed (csc_aeadChanged h) = true -> is_Some (csc_forwardSecureAEAD h);
  ci_keys : is_Some (csc_forwardSecureAEAD h) -> is_Some (csc_secureAEAD h);
}.

(** What holds while the loop waits: the levels announced so far are those of the keys, a
    secure key comes from a verified server, and a server config is well-formed. *)
Record client_waiting (h : client) : Prop := {
  cw_inv : client_inv h;
  cw_config : forall c, csc_serverConfig h = Some c ->
    client_config_ok (scc_raw c) c /\ exists rand, parseServerConfig (scc_raw c) rand = Ok c;
  cw_verified : is_Some (csc_secureAEAD h) -> csc_serverVerified h = true /\ is_Some (csc_serverConfig h);
  cw_sent : lc_sent (csc_aeadChanged h) =
    (if lc_closed (csc_aeadChanged h) then [EncryptionSecure; EncryptionForwardSecure]
     else if bool_decide (is_Some (csc_secureAEAD h)) then [EncryptionSecure] else []);
  cw_forwardSecure : is_Some (csc_forwardSecureAEAD h) -> lc_closed (csc_aeadChanged h) = true;
}.

(** The certificate manager has accepted the chain that it holds, and the proof signs the
    server config and the hello of the client that it answers. *)
Definition cert_valid (h : client) : Prop :=
  is_Some (ManagerLeafCert (csc_certManager h)) -> Verify (csc_certManager h) (csc_hostname h) = Ok tt.
Definition proof_valid (h : client) : Prop :=
  forall c, csc_serverConfig h = Some c -> is_Some (ManagerLeafCert (csc_certManager h)) -> csc_proof h <> [] ->
    VerifyServerProof (csc_certManager h) (csc_proof h) (csc_chloForSignature h) (scc_raw c) = Ok true.
Definition verified_complete (h : client) : Prop :=
  csc_serverVerified h = true ->
  is_Some (csc_serverConfig h) /\ is_Some (ManagerLeafCert (csc_certManager h)) /\ csc_proof h <> [].
Definition hello_sent (h : client) : Prop := csc_lastSentCHLO h ∈ csc_cryptoStream h.
Definition proof_answers (h : client) : Prop := csc_proof h <> [] -> csc_chloForSignature h ∈ csc_cryptoStream h.

(** A server config [c] and a leaf certificate are verified: the certificate manager has accepted
    a chain with that leaf for the host name, and its key has signed the bytes that [c] was
    parsed from, together with a hello that the client has sent. *)
Definition server_verified (h : client) (c : serverConfigClient) (leaf : list Z) : Prop :=
  exists m proof chlo rand,
    Verify m (csc_hostname h) = Ok tt /\ ManagerLeafCert m = Some leaf /\
    VerifyServerProof m proof chlo (scc_raw c) = Ok true /\ proof <> [] /\ chlo ∈ csc_cryptoStream h /\
    parseServerConfig (scc_raw c) rand = Ok c.

(** Every key comes from a verified server config and certificate: the secure keys from the
    secret shared with the public value in the config, the forward-secure keys from the secret
    shared with the public value of the server hello. *)
Definition keys_verified (h : client) : Prop :=
  (forall a, csc_secureAEAD h = Some a -> exists c leaf nonce chlo divNonce,
    server_verified h c leaf /\ chlo ∈ csc_cryptoStream h /\
    DeriveKeysAESGCM false (scc_sharedSecret c) nonce (csc_connID h) chlo (scc_raw c) leaf divNonce
      PerspectiveClient = Ok a) /\
  (forall a, csc_forwardSecureAEAD h = Some a -> exists c leaf nonce chlo serverPubs secret,
    server_verified h c leaf /\ chlo ∈ csc_cryptoStream h /\
    CalculateSharedKey (scc_kex c) serverPubs = Ok secret /\
    DeriveKeysAESGCM true secret nonce (csc_connID h) chlo (scc_raw c) leaf [] PerspectiveClient = Ok a).

(** Keys are never dropped. *)
Definition grows (h h' : client) : Prop :=
  (is_Some (csc_secureAEAD h) -> is_Some (csc_secureAEAD h')) /\
  (is_Some (csc_forwardSecureAEAD h) -> is_Some (csc_forwardSecureAEAD h')) /\
  (csc_receivedSecurePacket h = true -> csc_receivedSecurePacket h' = true).

Lemma grows_refl h : grows h h.
Proof. by unfold grows. Qed.
Lemma grows_trans h1 h2 h3 : grows h1 h2 -> grows h2 h3 -> grows h1 h3.
Proof. unfold grows. intuition. Qed.

(** [strict] asks that no rejection has an empty proof; authentication is claimed under it. *)
Section events.
Context (strict : Prop) (h0 : client).

Definition stopped (h : client) : Prop := client_inv h /\ grows h0 h /\ (strict -> keys_verified h).

(** Before the first hello is sent, while a rejection is handled, and while the loop waits *)
Definition preparing (h : client) : Prop :=
  client_waiting h /\ grows h0 h /\ proof_answers h /\
  (strict -> cert_valid h /\ verified_complete h /\ keys_verified h).
Definition rejecting (h : client) : Prop := preparing h /\ hello_sent h.
Definition running (h : client) : Prop := rejecting h /\ (strict -> proof_valid h).

(** The same keys, channel and parameters *)
Definition same_crypto (h h' : client) : Prop :=
  csc_secureAEAD h' = csc_secureAEAD h /\ csc_forwardSecureAEAD h' = csc_forwardSecureAEAD h /\
  csc_receivedSecurePacket h' = csc_receivedSecurePacket h /\ csc_aeadChanged h' = csc_aeadChanged h /\
  csc_connectionParameters h' = csc_connectionParameters h.
Definition same_peer (h h' : client) : Prop :=
  csc_hostname h' = csc_hostname h /\ csc_connID h' = csc_connID h /\
  forall b, b ∈ csc_cryptoStream h -> b ∈ csc_cryptoStream h'.

Lemma same_waiting h h' :
  same_crypto h h' -> csc_serverConfig h' = csc_serverConfig h -> csc_serverVerified h' = csc_serverVerified h ->
  client_waiting h -> client_waiting h'.
Proof.
  intros (E1 & E2 & E3 & E4 & E5) Ec Ev [[] H1 H2 H3 H4].
  constructor; [constructor|..]; rewrite ?E1, ?E2, ?E3, ?E4, ?E5, ?Ec, ?Ev; done.
Qed.

Lemma same_grows h h' : same_crypto h h' -> grows h0 h -> grows h0 h'.
Proof. intros (E1 & E2 & E3 & _). unfold grows. by rewrite E1, E2, E3. Qed.

Lemma same_inv h h' : same_crypto h h' -> client_inv h -> client_inv h'.
Proof. intros (E1 & E2 & E3 & E4 & E5) []. constructor; rewrite ?E1, ?E2, ?E3, ?E4, ?E5; done. Qed.

Lemma same_verified h h' c leaf : same_peer h h' -> server_verified h c leaf -> server_verified h' c leaf.
Proof.
  intros (Eh & _ & Hs) (m & proof & chlo & rand & H1 & H2 & H3 & H4 & H5 & H6). exists m, proof, chlo, rand.
  rewrite Eh. split_and!; auto.
Qed.

Lemma same_keys h h' : same_crypto h h' -> same_peer h h' -> keys_verified h -> keys_verified h'.
Proof.
  intros (E1 & E2 & _) Hp [K1 K2]. pose proof Hp as (_ & Ei & Hs). unfold keys_verified. rewrite E1, E2, Ei. split.
  - intros a Ha. destruct (K1 a Ha) as (c & leaf & nonce & chlo & div & Hv & Hc & Hd).
    exists c, leaf, nonce, chlo, div. split_and!; [by eapply same_verified|auto..].
  - intros a Ha. destruct (K2 a Ha) as (c & leaf & nonce & chlo & pubs & secret & Hv & Hc & Hk' & Hd).
    exists c, leaf, nonce, chlo, pubs, secret. split_and!; [by eapply same_verified|auto..].
Qed.

Lemma same_stopped h h' : same_crypto h h' -> same_peer h h' -> stopped h -> stopped h'.
Proof.
  intros Hs Hp (Hi & Hg & Ha). split; [by eapply same_inv|]. split; [by eapply same_grows|].
  intros Hst. eapply same_keys; eauto.
Qed.

(** A change that leaves the keys, the server config, the certificates and the proof as they are *)
Definition same_server (h h' : client) : Prop :=
  csc_serverConfig h' = csc_serverConfig h /\ csc_serverVerified h' = csc_serverVerified h /\
  csc_certManager h' = csc_certManager h /\ csc_proof h' = csc_proof h /\
  csc_chloForSignature h' = csc_chloForSignature h.

Lemma same_preparing h h' : same_crypto h h' -> same_peer h h' -> same_server h h' -> preparing h -> preparing h'.
Proof.
  intros Hs Hp (Ec & Ev & Em & Epr & Esig) (Hw & Hg & Hpa & Ha). pose proof Hp as (Eh & _ & Hb).
  split; [by eapply same_waiting|]. split; [by eapply same_grows|]. split.
  - unfold proof_answers. rewrite Epr, Esig. auto.
  - intros Hst. destruct (Ha Hst) as (H1 & H2 & H3). split; [|split].
    + unfold cert_valid. by rewrite Em, Eh.
    + unfold verified_complete. by rewrite Ev, Ec, Em, Epr.
    + by eapply same_keys.
Qed.

Lemma same_rejecting h h' : same_crypto h h' -> same_peer h h' -> same_server h h' ->
  csc_lastSentCHLO h' = csc_lastSentCHLO h -> rejecting h -> rejecting h'.
Proof.
  intros Hs Hp Hsv El [Hr Hl]. split; [by eapply same_preparing|]. unfold hello_sent. rewrite El. by apply Hp.
Qed.

Lemma same_proof_valid h h' : same_server h h' -> proof_valid h -> proof_valid h'.
Proof. intros (Ec & _ & Em & Epr & Esig). unfold proof_valid. by rewrite Ec, Em, Epr, Esig. Qed.

Lemma preparing_stopped h : preparing h -> stopped h.
Proof. intros ([] & Hg & _ & Ha). split; [done|]. split; [done|]. intros Hst. by destruct (Ha Hst) as (_ & _ & ?). Qed.
Lemma rejecting_stopped h : rejecting h -> stopped h.
Proof. intros [? _]. by apply preparing_stopped. Qed.
Lemma running_stopped h : running h -> stopped h.
Proof. intros [? _]. by apply rejecting_stopped. Qed.

(** What a verified server that is still the current one gives *)
Lemma current_verified h c :
  strict -> preparing h -> proof_valid h -> csc_serverVerified h = true -> csc_serverConfig h = Some c ->
  exists leaf, ManagerLeafCert (csc_certManager h) = Some leaf /\ server_verified h c leaf.
Proof.
  intros Hst (Hw & _ & Hpa & Ha) Hpv Hv Ec. destruct (Ha Hst) as (Hc & Hvc & _).
  destruct (Hvc Hv) as (_ & [leaf El] & Hne). destruct (cw_config _ Hw c Ec) as [_ [rand Hr]].
  assert (is_Some (ManagerLeafCert (csc_certManager h))) as Hl by by eexists.
  exists leaf. split; [done|]. exists (csc_certManager h), (csc_proof h), (csc_chloForSignature h), rand.
  split_and!; auto.
Qed.

Lemma ifTag_spec (P Q : client -> Prop) cryptoData tag k E :
  (forall h, P h -> Q h) ->
  (forall v, cryptoData !! tag = Some v -> sr_spec P (k v) (fun _ => Q) E) ->
  sr_spec P (ifTag cryptoData tag k) (fun _ => Q) E.
Proof.
  intros HPQ Hkv h Hh. unfold ifTag. destruct (cryptoData !! tag) as [v|] eqn:E'; [by apply (Hkv v)|by apply HPQ].
Qed.

Lemma modify_spec (P Q : client -> Prop) f E :
  (forall h, P h -> Q (f h)) -> sr_spec P (sr_modify f) (fun _ => Q) E.
Proof. intros HP h Hh. by apply HP. Qed.

(** The rejection: the server config *)
Lemma generateClientNonce_spec env :
  client_env_ok env ->
  sr_spec (fun h => rejecting h /\ csc_nonc h = [] /\ is_Some (csc_serverConfig h)) (generateClientNonce env)
    (fun _ => rejecting) stopped.
Proof.
  intros He h (Hr & En & [c Ec]). unfold generateClientNonce, sr_with. rewrite En, Ec. cbn [len length Z.of_nat].
  pose proof Hr as [(Hw & _) _].
  pose proof (cco_obit _ _ (proj1 (cw_config _ Hw c Ec))) as [Ho _]. rewrite Ho. cbn [Z.eqb Pos.eqb negb].
  pose proof (ceo_nonce _ He). unfold sr_bind, sr_lift, sr_modify.
  destruct (ce_randNonce env) as [r|e|]; [| |done].
  - by apply (same_rejecting h).
  - by apply rejecting_stopped.
Qed.

Lemma handleSCFG_spec env scfg :
  client_env_ok env -> bytes_ok scfg -> sr_spec rejecting (handleSCFG env scfg) (fun _ => rejecting) stopped.
Proof.
  intros He Hb. unfold handleSCFG. pose proof (parseServerConfig_safe scfg (ce_randKex env) Hb (ceo_kex _ He)) as Hp.
  destruct (parseServerConfig scfg (ce_randKex env)) as [c|e|] eqn:Eparse; [|intros h Hh|done].
  2:{ by apply (same_stopped h), rejecting_stopped. }
  eapply (sr_spec_bind _ _ _ (fun _ h => rejecting h /\ is_Some (csc_serverConfig h))).
  - apply modify_spec. intros h [(Hw & Hg & Hpa & Ha) Hl]. split; [|by eexists]. split; [|done].
    split; [|split; [by apply (same_grows h)|split; [done|]]].
    + destruct Hw as [Hi H1 H2 H3 H4]. constructor; cbn; try done.
      * by apply (same_inv h).
      * intros c' [= <-]. destruct Hp as [Eraw]. split; [by constructor|]. exists (ce_randKex env). by rewrite Eraw.
      * intros Hs. split; [by apply H2|by eexists].
    + intros Hst. destruct (Ha Hst) as (Hc & Hv & Hkv). split; [done|]. split; [|by apply (same_keys h)].
      intros E. destruct (Hv E) as (_ & ? & ?). cbn. by eauto.
  - intros ?. destruct (IsExpired c _); [intros h [Hh _]; by apply rejecting_stopped|].
    intros h [Hh Hc]. unfold sr_with. destruct (Z.eqb_spec (len (csc_nonc h)) 0) as [E|]; [|done].
    apply generateClientNonce_spec; [done|]. split; [done|]. split; [by apply len_zero|done].
Qed.

Lemma handleCERT_spec crt : bytes_ok crt -> sr_spec rejecting (handleCERT crt) (fun _ => rejecting) stopped.
Proof.
  intros Hb h Hh. unfold handleCERT, sr_with. pose proof (mo_set HM (csc_certManager h) crt Hb) as Hs.
  destruct (SetData (csc_certManager h) crt) as [m|e|]; [|by apply rejecting_stopped|done].
  unfold sr_bind, sr_modify. pose proof (mo_verify HM m (csc_hostname h)) as Hv.
  destruct (Verify m (csc_hostname h)) as [[]|e|] eqn:Ev; [| |done].
  - destruct Hh as [(Hw & Hg & Hpa & Ha) Hl]. split; [|done]. split; [by apply (same_waiting h)|].
    split; [by apply (same_grows h)|]. split; [done|]. intros Hst. destruct (Ha Hst) as (Hc & Hvc & Hkv).
    split; [by intros _|]. split; [|by apply (same_keys h)]. intros E. destruct (Hvc E) as (? & _ & ?). cbn. split; [done|].
    split; [by eapply mo_leaf|done].
  - by apply (same_stopped h), rejecting_stopped.
Qed.

Lemma verifyProof_spec : sr_spec rejecting verifyProof (fun _ => running) stopped.
Proof.
  intros h Hh. unfold verifyProof, sr_with.
  destruct (csc_serverConfig h) as [c|] eqn:Ec; [|split; [done|]; intros _ c' Hc'; congruence].
  destruct (ManagerLeafCert (csc_certManager h)) as [leaf|] eqn:El.
  2:{ split; [done|]. intros _ c' _ Hl. rewrite El in Hl. by destruct Hl. }
  destruct (Z.eqb_spec (len (csc_proof h)) 0) as [Ep|Ep]; cbn [negb].
  { split; [done|]. intros _ c' _ _ Hp. by apply len_zero in Ep. }
  unfold sr_bind, sr_lift. pose proof (mo_proof HM (csc_certManager h) (csc_proof h) (csc_chloForSignature h)
    (serverConfigClient_Get c)) as Hp.
  destruct (VerifyServerProof _ _ _ _) as [b|e|] eqn:Ev; [|by apply rejecting_stopped|done].
  destruct b; [|by apply rejecting_stopped]. cbn [negb]. unfold sr_modify.
  destruct Hh as [(Hw & Hg & Hpa & Ha) Hl].
  split; [split; [split; [|split; [by apply (same_grows h)|split; [done|]]]|done]|].
  - destruct Hw as [Hi H1 H2 H3 H4]. constructor; cbn; try done. by apply (same_inv h).
  - intros Hst. destruct (Ha Hst) as (Hc & _ & Hkv). split; [done|]. split; [|by apply (same_keys h)]. intros _. cbn.
    rewrite Ec, El. split; [by eexists|]. split; [by eexists|]. intros E. by rewrite E in Ep.
  - intros _ c' Ec' _ _. cbn in *. assert (c' = c) as -> by congruence. exact Ev.
Qed.

Lemma proof_taken h proof :
  (strict -> proof <> []) -> rejecting h -> rejecting (csc_set_proof h proof (csc_lastSentCHLO h)).
Proof.
  intros Hne [(Hw & Hg & _ & Ha) Hl]. split; [|done]. split; [by apply (same_waiting h)|].
  split; [by apply (same_grows h)|]. split; [by intros _|]. intros Hst. destruct (Ha Hst) as (Hc & Hv & Hkv).
  split; [done|]. split; [|by apply (same_keys h)]. intros E. destruct (Hv E) as (? & ? & _). cbn. auto.
Qed.

(** A rejection with byte strings as values *)
Lemma handleREJMessage_spec env cryptoData :
  client_env_ok env -> data_ok cryptoData -> (strict -> cryptoData !! TagPROF <> Some []) ->
  sr_spec running (handleREJMessage env cryptoData) (fun _ => running) stopped.
Proof.
  intros He Hd Hst. unfold handleREJMessage.
  eapply (sr_spec_bind _ _ _ (fun _ => rejecting)).
  { apply ifTag_spec; [by intros h [? _]|]. intros stk _. apply modify_spec. intros h [Hh _].
    by apply (same_rejecting h). }
  intros ?. eapply (sr_spec_bind _ _ _ (fun _ => rejecting)).
  { apply ifTag_spec; [done|]. intros sno _. apply modify_spec. intros h Hh.
    by apply (same_rejecting h). }
  intros ?. eapply (sr_spec_bind _ _ _ (fun _ => rejecting)).
  { apply ifTag_spec; [done|]. intros scfg E. apply handleSCFG_spec; [done|by eapply Hd]. }
  intros ?. eapply (sr_spec_bind _ _ _ (fun _ => rejecting)).
  { apply ifTag_spec; [done|]. intros proof E. apply modify_spec. intros h.
    apply proof_taken. intros Hs Ep. apply (Hst Hs). by rewrite E, Ep. }
  intros ?. eapply (sr_spec_bind _ _ _ (fun _ => rejecting)).
  { apply ifTag_spec; [done|]. intros crt E. apply handleCERT_spec. by eapply Hd. }
  intros ?. apply verifyProof_spec.
Qed.

(** The server hello, between the derivation of the keys and the end *)
Definition hello_done (h : client) : Prop :=
  client_inv h /\ grows h0 h /\ proof_answers h /\ hello_sent h /\
  (forall c, csc_serverConfig h = Some c ->
    client_config_ok (scc_raw c) c /\ exists rand, parseServerConfig (scc_raw c) rand = Ok c) /\
  csc_serverVerified h = true /\ is_Some (csc_serverConfig h) /\
  is_Some (csc_secureAEAD h) /\ is_Some (csc_forwardSecureAEAD h) /\
  csc_aeadChanged h = mkLevelChan [EncryptionSecure] false /\
  (strict -> cert_valid h /\ verified_complete h /\ keys_verified h /\ proof_valid h).

Lemma client_parameters_spec cryptoData :
  data_ok cryptoData -> sr_spec hello_done (client_parameters cryptoData) (fun _ => hello_done) stopped.
Proof.
  intros Hd h (Hi & Hg & Hrest). unfold client_parameters.
  pose proof (set_from_map_bounds (csc_connectionParameters h) cryptoData (proj1 (ci_params _ Hi)) Hd) as [Hp Hpers].
  rewrite (proj2 (ci_params _ Hi)) in Hpers.
  pose proof (SetFromMap_no_panic (csc_connectionParameters h) cryptoData) as Hnp.
  destruct (SetFromMap _ _) as [cp r]. cbn in Hp, Hnp.
  assert (client_inv (csc_set_parameters h cp)) as Hi' by (destruct Hi; by constructor).
  destruct r; [by split| |done].
  split; [done|]. split; [done|]. intros Hst. destruct Hrest as (_ & _ & _ & _ & _ & _ & _ & _ & Ha).
  by destruct (Ha Hst) as (_ & _ & ? & _).
Qed.

Lemma hello_announced :
  sr_spec hello_done (client_changed EncryptionForwardSecure ;;! client_close) (fun _ => running) stopped.
Proof.
  intros h (Hi & Hg & Hpa & Hl & Hc & Hv & Hs & Hsec & Hfs & Ech & Ha).
  unfold sr_bind, client_changed, client_close, lc_send, lc_close. rewrite Ech. cbn.
  split; [split; [split; [|split; [done|split; [done|]]]|done]|].
  - destruct Hi. constructor; cbn; try done. constructor; cbn; try done. by exists [].
  - intros Hst. by destruct (Ha Hst) as (? & ? & ? & ?).
  - intros Hst. by destruct (Ha Hst) as (? & ? & ? & ?).
Qed.

Lemma hello_finished cryptoData :
  data_ok cryptoData ->
  sr_spec hello_done (client_parameters cryptoData ;;! client_changed EncryptionForwardSecure ;;! client_close)
    (fun _ => running) stopped.
Proof.
  intros Hd. eapply sr_spec_bind; [by apply client_parameters_spec|]. intros ?. apply hello_announced.
Qed.

Lemma forward_secure_derived h c aead nonce serverPubs secret :
  running h -> lc_closed (csc_aeadChanged h) = false -> csc_receivedSecurePacket h = true ->
  csc_serverConfig h = Some c -> CalculateSharedKey (scc_kex c) serverPubs = Ok secret ->
  DeriveKeysAESGCM true secret nonce (csc_connID h) (csc_lastSentCHLO h) (scc_raw c)
    (default [] (ManagerLeafCert (csc_certManager h))) [] PerspectiveClient = Ok aead ->
  hello_done (csc_set_forwardSecure h (Some aead)).
Proof.
  intros [[Hprep Hl] Hpv] Hcl Er Ec Ek Ed. pose proof Hprep as (Hw & Hg & Hpa & Ha).
  pose proof Hw as [Hi H1 H2 H3 H4]. destruct (H2 (ci_received _ Hi Er)) as [Hv Hs].
  split; [|split_and!; cbn; try done].
  - destruct Hi. constructor; cbn; try done. intros _. by apply ci_received0.
  - unfold grows in *. cbn. split_and!; [tauto|by eexists|tauto].
  - by apply ci_received.
  - rewrite Hcl, (bool_decide_eq_true_2 _ (ci_received _ Hi Er)) in H3.
    destruct (csc_aeadChanged h) as [sent closed]. cbn in *. congruence.
  - intros Hst. destruct (Ha Hst) as (? & ? & K1 & K2). split_and!; [done..| |auto].
    split; [exact K1|]. cbn. intros a [= <-]. destruct (current_verified h c) as (leaf & El & Hsv); auto.
    rewrite El in Ed. exists c, leaf, nonce, (csc_lastSentCHLO h), serverPubs, secret. done.
Qed.

Lemma handleSHLOMessage_spec cryptoData :
  data_ok cryptoData ->
  sr_spec (fun h => running h /\ lc_closed (csc_aeadChanged h) = false) (handleSHLOMessage cryptoData)
    (fun _ => running) stopped.
Proof.
  intros Hd h [Hr Hcl]. unfold handleSHLOMessage, sr_with at 1.
  destruct (csc_receivedSecurePacket h) eqn:Er; [|by apply running_stopped]. cbn [negb].
  assert (is_Some (csc_serverConfig h)) as [c Ec].
  { destruct Hr as [[(Hw & _) _] _]. by apply (cw_verified _ Hw), (ci_received _ (cw_inv _ Hw)). }
  set (h1 := match cryptoData !! TagSNO with Some sno => csc_set_sno h sno | None => h end).
  assert (ifTag cryptoData TagSNO (fun sno => sr_modify (fun h => csc_set_sno h sno)) h = (h1, Ok tt)) as Esno
    by (unfold ifTag, h1; by destruct (cryptoData !! TagSNO)).
  assert (running h1 /\ lc_closed (csc_aeadChanged h1) = false /\ csc_receivedSecurePacket h1 = true /\
    csc_serverConfig h1 = Some c) as (Hr1 & Hcl1 & Er1 & Ec1).
  { unfold h1. destruct (cryptoData !! TagSNO); [|done]. split; [|done]. destruct Hr as [? ?]. split.
    - by apply (same_rejecting h).
    - intros Hst. apply (same_proof_valid h); auto. by unfold same_server. }
  clearbody h1. pose proof (running_stopped _ Hr1) as Hstop.
  unfold sr_bind at 1. rewrite Esno. destruct (cryptoData !! TagPUBS) as [pubs|]; [|done].
  destruct (cryptoData !! TagVER) as [ver|]; [|done]. destruct (negb (validateVersionList _ _)); [done|].
  rewrite Ec. unfold sr_bind at 1, sr_lift at 1.
  destruct (CalculateSharedKey (scc_kex c) pubs) as [secret|err|] eqn:Ek; [|done|].
  2:{ unfold CalculateSharedKey in Ek. by destruct (negb _). }
  unfold sr_bind at 1, sr_with, client_assign.
  match goal with |- context [DeriveKeysAESGCM ?a ?b ?c ?d ?e ?f ?g ?i ?j] =>
    destruct (derive_ok a b c d e f g i j) as [aead Ed]; rewrite Ed end.
  apply hello_finished; [done|]. by eapply forward_secure_derived.
Qed.

(** Before the loop waits: the secure keys, or the next hello *)
Lemma secure_derived h c aead nonce divNonce :
  running h -> csc_secureAEAD h = None -> csc_serverVerified h = true -> csc_serverConfig h = Some c ->
  DeriveKeysAESGCM false (scc_sharedSecret c) nonce (csc_connID h) (csc_lastSentCHLO h) (scc_raw c)
    (default [] (ManagerLeafCert (csc_certManager h))) divNonce PerspectiveClient = Ok aead ->
  sr_spec (fun h' => h' = csc_set_secure h (Some aead)) (client_changed EncryptionSecure) (fun _ => running) stopped.
Proof.
  intros [[Hprep Hl] Hpv] Es Ev Ec Ed h' ->. pose proof Hprep as (Hw & Hg & Hpa & Ha). destruct Hw as [Hi H1 H2 H3 H4].
  assert (lc_closed (csc_aeadChanged h) = false) as Hcl.
  { destruct (lc_closed (csc_aeadChanged h)) eqn:E; [|done].
    destruct (ci_keys _ Hi (ci_closed _ Hi E)). congruence. }
  unfold client_changed, lc_send. cbn. rewrite Hcl in *. cbn.
  rewrite bool_decide_eq_false_2 in H3 by (rewrite Es; by intros [? ?]).
  split; [split; [split; [|split; [|split; [done|]]]|done]|done].
  - constructor; cbn; try done.
    + destruct Hi. constructor; cbn; try done. rewrite H3. by exists [EncryptionForwardSecure].
    + by rewrite H3.
  - unfold grows in *. cbn. split_and!; [by eexists|tauto|tauto].
  - intros Hst. destruct (Ha Hst) as (? & ? & K1 & K2). split; [done|]. split; [done|]. split; [|exact K2].
    cbn. intros a [= <-]. destruct (current_verified h c) as (leaf & El & Hsv); auto.
    rewrite El in Ed. exists c, leaf, nonce, (csc_lastSentCHLO h), divNonce. done.
Qed.

Lemma maybeUpgradeCrypto_spec : sr_spec running maybeUpgradeCrypto (fun _ => running) stopped.
Proof.
  intros h Hr. unfold maybeUpgradeCrypto, sr_with. destruct (csc_serverVerified h) eqn:Ev; [|exact Hr]. cbn [negb].
  destruct (csc_secureAEAD h) eqn:Es; [exact Hr|]. destruct (csc_serverConfig h) as [c|] eqn:Ec; [|exact Hr].
  destruct (_ && _); [|exact Hr]. unfold sr_bind, client_assign.
  match goal with |- context [DeriveKeysAESGCM ?a ?b ?c ?d ?e ?f ?g ?i ?j] =>
    destruct (derive_ok a b c d e f g i j) as [aead Ed]; rewrite Ed end.
  by eapply secure_derived.
Qed.

Lemma sendCHLO_spec env :
  client_env_ok env ->
  sr_spec (fun h => preparing h /\ (strict -> proof_valid h)) (sendCHLO env) (fun _ => running) stopped.
Proof.
  intros He. unfold sendCHLO.
  eapply (sr_spec_bind _ _ _ (fun _ h => preparing h /\ (strict -> proof_valid h))).
  { apply modify_spec. intros h [Hh Hpv]. split; [by apply (same_preparing h)|].
    intros Hst. apply (same_proof_valid h); auto. by unfold same_server. }
  intros ? h [Hh Hpv]. unfold sr_with. destruct (_ >? _); [by apply preparing_stopped|].
  pose proof (ceo_write _ He). unfold sr_bind, sr_lift, sr_modify.
  destruct (ce_write env); [|by apply preparing_stopped|done]. split; [split|].
  - apply (same_preparing h); try done. split; [done|]. split; [done|]. cbn. intros b. set_solver.
  - unfold hello_sent. cbn. set_solver.
  - intros Hst. apply (same_proof_valid h); auto. by unfold same_server.
Qed.

Lemma client_prepare_spec env : client_env_ok env -> sr_spec running (client_prepare env) (fun _ => running) stopped.
Proof.
  intros He. eapply sr_spec_bind; [apply maybeUpgradeCrypto_spec|]. intros ? h Hh. unfold sr_with.
  destruct (csc_secureAEAD h); [done|]. apply sendCHLO_spec; [done|]. by destruct Hh as [[? _] ?].
Qed.

(** The events that the client is shown to survive: any nonce, any error, any rejection, and
    one server hello *)
Definition event_ok (h : client) (ev : clientEvent) : Prop :=
  match ev with
  | EvMessage m =>
      data_ok (hm_Data m) /\ (strict -> hm_Tag m = TagREJ -> hm_Data m !! TagPROF <> Some []) /\
      (hm_Tag m = TagSHLO -> lc_closed (csc_aeadChanged h) = false)
  | _ => True
  end.

Lemma clientIteration_spec env ev :
  client_env_ok env ->
  sr_spec (fun h => running h /\ event_ok h ev) (clientIteration env ev) (fun _ => running) stopped.
Proof.
  intros He. unfold clientIteration. eapply (sr_spec_bind _ _ _ (fun _ => running)); [|intros ?; by apply client_prepare_spec].
  intros h [Hr Hev]. pose proof (running_stopped _ Hr) as Hstop. destruct ev as [n|m|e]; cbn [client_handle]; [| |done].
  - unfold sr_with. destruct (_ && _); [done|]. unfold sr_modify. destruct Hr as [Hr Hpv]. by split; [apply (same_rejecting h)|].
  - destruct Hev as (Hd & Hst & Hsh). destruct (Z.eqb_spec (hm_Tag m) TagREJ) as [E|]; [apply handleREJMessage_spec; auto|].
    destruct (Z.eqb_spec (hm_Tag m) TagSHLO) as [E|]; [|done]. apply handleSHLOMessage_spec; auto.
Qed.
End events.

(** *** Opening *)

Definition client_floor (h : client) : Z :=
  if bool_decide (is_Some (csc_forwardSecureAEAD h)) then EncryptionForwardSecure
  else if csc_receivedSecurePacket h then EncryptionSecure
  else EncryptionUnencrypted.

Lemma grows_levels h h' :
  grows h h' -> client_floor h <= client_floor h' /\ (client_GetSealer h).1 <= (client_GetSealer h').1.
Proof.
  intros (Hs & Hf & Hr). unfold client_floor, client_GetSealer.
  destruct (csc_forwardSecureAEAD h) as [f|]; [destruct (Hf ltac:(by eexists)) as [f' ->]; split; levels|].
  rewrite bool_decide_eq_false_2 by by intros [? ?]. split.
  - destruct (csc_receivedSecurePacket h); [rewrite (Hr eq_refl)|destruct (csc_receivedSecurePacket h')];
      destruct (csc_forwardSecureAEAD h'); levels.
  - destruct (csc_secureAEAD h) as [a|]; [destruct (Hs ltac:(by eexists)) as [a' ->]|];
      destruct (csc_forwardSecureAEAD h'), (csc_secureAEAD h'); levels.
Qed.

Lemma client_Open_state (h : client) src pn ad :
  let r := client_Open h src pn ad in
  r.1 = h \/ r.1 = csc_set_received h true /\ is_Some (csc_secureAEAD h).
Proof.
  intros r. subst r. unfold client_Open. destruct (csc_forwardSecureAEAD h); [by left|].
  destruct (csc_secureAEAD h) as [a|] eqn:E; [|by left].
  destruct (aeadAESGCM_Open a src pn ad); [right; split; [done|by eexists]| |by left].
  destruct (csc_receivedSecurePacket h); by left.
Qed.

(** Opening a packet does not panic, and the level of a packet that opens is between the floor
    before and after. *)
Lemma client_Open_level (h : client) src pn ad :
  client_inv h -> bytes_ok src ->
  match (client_Open h src pn ad).2 with
  | Ok (pl, level) => bytes_ok pl /\ client_floor h <= level <= client_floor (client_Open h src pn ad).1
  | Err _ => True
  | Panic => False
  end.
Proof.
  intros Hi Hs. unfold client_Open, client_floor. destruct (csc_forwardSecureAEAD h) as [f|] eqn:Ef.
  - pose proof (aeadAESGCM_Open_safe f src pn ad Hs) as Ho. cbn [fst snd]. rewrite Ef.
    destruct (aeadAESGCM_Open f src pn ad); cbn; [|done..]. split; [done|]. levels.
  - pose proof (nullAEAD_Open_safe (csc_nullAEAD h) src pn ad Hs) as Hn.
    assert (match client_openUnencrypted h src pn ad with
      | Ok (pl, level) => bytes_ok pl /\ level = EncryptionUnencrypted | Err _ => True | Panic => False end) as Hu
      by (unfold client_openUnencrypted; by destruct (nullAEAD_Open _ _ _ _)).
    destruct (csc_secureAEAD h) as [a|] eqn:Ea.
    + pose proof (aeadAESGCM_Open_safe a src pn ad Hs) as Ho.
      destruct (aeadAESGCM_Open a src pn ad); cbn [fst snd]; [|destruct (csc_receivedSecurePacket h) eqn:Er|done].
      * cbn [csc_forwardSecureAEAD csc_receivedSecurePacket csc_set_received]. rewrite Ef. split; [done|].
        destruct (csc_receivedSecurePacket h); levels.
      * done.
      * cbn [fst snd]. rewrite Ef, Er. destruct (client_openUnencrypted h src pn ad) as [[pl l]|err|]; [|done..].
        destruct Hu as [? ->]. split; [done|]. levels.
    + cbn [fst snd]. rewrite Ef. destruct (csc_receivedSecurePacket h) eqn:Er.
      * destruct (ci_received _ Hi Er). congruence.
      * destruct (client_openUnencrypted h src pn ad) as [[pl l]|e|]; [|done..].
        destruct Hu as [? ->]. split; [done|]. levels.
Qed.

(** *** Runs *)

(** The session opens packets while the loop handles events; the flag tells whether the loop
    still runs.  Sealing does not change a client's setup. *)
Inductive client_step (strict : Prop) : bool * client -> bool * client -> Prop :=
| cstep_iteration env ev h h' r :
    client_env_ok env -> event_ok strict h ev -> clientIteration env ev h = (h', r) ->
    client_step strict (true, h) (is_ok r, h')
| cstep_open live h src packetNumber associatedData :
    bytes_ok src -> client_step strict (live, h) (live, (client_Open h src packetNumber associatedData).1).

(** The states after the first hello has been sent, and those reached from a state *)
Definition client_started (env : clientEnv) (h : client) : bool * client :=
  let '(h, r) := client_prepare env h in (is_ok r, h).
Inductive client_steps (strict : Prop) : bool * client -> bool * client -> Prop :=
| csteps_refl s : client_steps strict s s
| csteps_step s s' s'' : client_steps strict s s' -> client_step strict s' s'' -> client_steps strict s s''.

Definition client_state_ok (strict : Prop) (s : bool * client) : Prop :=
  client_inv s.2 /\ (strict -> keys_verified s.2) /\ (s.1 = true -> running strict s.2 s.2).

Lemma running_self strict h0 h : running strict h0 h -> running strict h h.
Proof. intros [[(Hw & _ & Hpa & Ha) Hl] Hp]. split; [split; [split; [done|split; [apply grows_refl|done]]|done]|done]. Qed.

Lemma sr_spec_state strict h0 (h : client) (m : SR client unit) :
  sr_spec (fun h' => h' = h) m (fun _ => running strict h0) (stopped strict h0) ->
  client_state_ok strict (is_ok (m h).2, (m h).1) /\ grows h0 (m h).1 /\ (m h).2 <> Panic.
Proof.
  intros Hm. specialize (Hm h eq_refl). destruct (m h) as [h' [[]|e|]]; [| |done]; cbn.
  - pose proof (running_self _ _ _ Hm) as Hs. destruct (running_stopped _ _ _ Hm) as (? & ? & ?). done.
  - by destruct Hm as (Hi & Hg & Hkv).
Qed.

Lemma client_step_ok strict s s' :
  client_state_ok strict s -> client_step strict s s' -> client_state_ok strict s' /\ grows s.2 s'.2.
Proof.
  intros (Hi & Hkv & Hr) Hst. destruct Hst as [env ev h h' r He Hev E|live h src pn ad Hb]; cbn [fst snd] in *.
  - specialize (Hr eq_refl). pose proof (clientIteration_spec strict h env ev He) as Hs.
    destruct (sr_spec_state strict h h (clientIteration env ev)) as (H1 & H2 & _); [|by rewrite E in H1, H2].
    intros h1 ->. by apply Hs.
  - destruct (client_Open_state h src pn ad) as [-> | [-> Hs]]; [split; [by split|apply grows_refl]|].
    split; [|by unfold grows]. split; [destruct Hi; by constructor|]. split; [exact Hkv|].
    intros E. destruct (Hr E) as [[(Hw & Hg & Hpa & Ha) Hl] Hp]. split; [|done]. split; [|done].
    split; [|split; [apply grows_refl|done]]. destruct Hw as [[] H1 H2 H3 H4]. by constructor; [constructor|..].
Qed.

Lemma client_steps_ok strict s s' :
  client_state_ok strict s -> client_steps strict s s' -> client_state_ok strict s' /\ grows s.2 s'.2.
Proof.
  intros Hs. induction 1 as [|s s' s'' _ IH Hst]; [by split; [|apply grows_refl]|].
  destruct (IH Hs) as [H1 H2]. destruct (client_step_ok _ _ _ H1 Hst) as [H3 H4].
  split; [done|]. by eapply grows_trans.
Qed.

Lemma client_started_ok strict env hostname connID version m cp truncate negotiated :
  client_env_ok env -> ok_as PerspectiveClient cp -> ManagerLeafCert m = None ->
  client_state_ok strict (client_started env (NewCryptoSetupClient hostname connID version m cp truncate negotiated)).
Proof.
  intros He Hp Hm. set (h := NewCryptoSetupClient _ _ _ _ _ _ _).
  assert (preparing strict h h) as Hr.
  { split; [|split; [apply grows_refl|split; [by intros []|]]].
    - constructor; [constructor|..]; cbn; try done; try (by intros [? ?]). by eexists.
    - intros _. split; [|split; [done|]]; [|by split]. unfold cert_valid. cbn. rewrite Hm. by intros [? ?]. }
  assert (client_prepare env h = sendCHLO env h) as E by reflexivity.
  destruct (sr_spec_state strict h h (sendCHLO env)) as (H1 & _).
  - intros h1 ->. apply sendCHLO_spec; [done|]. split; [done|]. intros _ c. cbn. congruence.
  - unfold client_started. rewrite E. by destruct (sendCHLO env h) as [h' r].
Qed.

(** *** Theorems *)

(** The crypto setup with a certificate manager that answers without a panic *)
Lemma client_steps_safe env0 hostname connID version m cp truncate negotiated live h :
  client_env_ok env0 -> ok_as PerspectiveClient cp -> ManagerLeafCert m = None ->
  client_steps False
    (client_started env0 (NewCryptoSetupClient hostname connID version m cp truncate negotiated)) (live, h) ->
  (live = true -> forall env ev, client_env_ok env -> event_ok False h ev -> (clientIteration env ev h).2 <> Panic) /\
  (forall src pn ad, bytes_ok src -> (client_Open h src pn ad).2 <> Panic) /\
  (exists rest, [EncryptionSecure; EncryptionForwardSecure] = lc_sent (csc_aeadChanged h) ++ rest).
Proof.
  intros He Hp Hm Hs.
  destruct (client_steps_ok _ _ _ (client_started_ok False _ _ _ _ _ _ _ _ He Hp Hm) Hs) as [(Hi & _ & Hr) _].
  cbn [fst snd] in *. split_and!.
  - intros E env ev Henv Hev. destruct (sr_spec_state False h h (clientIteration env ev)) as (_ & _ & H); [|done].
    intros h1 ->. apply clientIteration_spec; auto.
  - intros src pn ad Hb Hpan. pose proof (client_Open_level h src pn ad Hi Hb) as H. by rewrite Hpan in H.
  - apply (ci_sent _ Hi).
Qed.

(** C29: a client's session is never downgraded: neither the level of the packets that it opens nor
    the level that it seals with decreases. *)
Theorem client_levels_monotone env0 hostname connID version m cp truncate negotiated s1 s2 src1 pn1 ad1 src2 pn2 ad2 pl1 l1 pl2 l2 :
  client_env_ok env0 -> ok_as PerspectiveClient cp -> ManagerLeafCert m = None ->
  client_steps False
    (client_started env0 (NewCryptoSetupClient hostname connID version m cp truncate negotiated)) s1 ->
  bytes_ok src1 -> (client_Open s1.2 src1 pn1 ad1).2 = Ok (pl1, l1) ->
  client_steps False (s1.1, (client_Open s1.2 src1 pn1 ad1).1) s2 ->
  bytes_ok src2 -> (client_Open s2.2 src2 pn2 ad2).2 = Ok (pl2, l2) ->
  l1 <= l2 /\ (client_GetSealer s1.2).1 <= (client_GetSealer s2.2).1.
Proof.
  intros He Hp Hm H1 Hb1 E1 H2 Hb2 E2.
  destruct (client_steps_ok _ _ _ (client_started_ok False _ _ _ _ _ _ _ _ He Hp Hm) H1) as [Hs1 _].
  assert (client_step False s1 (s1.1, (client_Open s1.2 src1 pn1 ad1).1)) as Hst by (destruct s1; by constructor).
  destruct (client_step_ok _ _ _ Hs1 Hst) as [Hs1' Hg1]. destruct (client_steps_ok _ _ _ Hs1' H2) as [Hs2 Hg2].
  pose proof (client_Open_level _ src1 pn1 ad1 (proj1 Hs1) Hb1) as Ho1. rewrite E1 in Ho1.
  pose proof (client_Open_level _ src2 pn2 ad2 (proj1 Hs2) Hb2) as Ho2. rewrite E2 in Ho2.
  pose proof (grows_levels _ _ Hg1). pose proof (grows_levels _ _ Hg2). cbn [fst snd] in *. lia.
Qed.

(** C8: while no rejection carries an empty proof, every key that a client has comes from a
    server config that is verified: the certificate manager has accepted, for the host name, a
    chain with the leaf certificate that the keys are derived with, and the proof of that
    manager's leaf covers the bytes of that server config and a hello that the client has sent;
    the secure keys come from the secret shared with the public value of the config, the
    forward-secure keys from its key exchange with the public value of the server hello. *)
Theorem client_keys_authenticated env0 hostname connID version m cp truncate negotiated live h :
  client_env_ok env0 -> ok_as PerspectiveClient cp -> ManagerLeafCert m = None ->
  client_steps True
    (client_started env0 (NewCryptoSetupClient hostname connID version m cp truncate negotiated)) (live, h) ->
  keys_verified h.
Proof.
  intros He Hp Hm Hs.
  destruct (client_steps_ok _ _ _ (client_started_ok True _ _ _ _ _ _ _ _ He Hp Hm) Hs) as [(_ & Hkv & _) _]. auto.
Qed.
End client_safety.

(** The certificate manager of cert_manager.go, when the certificates that parse have RSA or
    ECDSA keys *)
Lemma certManager_ok {Sg : Signatures} {X : X509} {XL : X509Laws X} {CS : CertSets} {ZL : Zlib} now order :
  sets_ok -> (forall dict r, bytes_ok r -> safe (zlib_NewReaderDict dict r) gz_ok) ->
  (forall c, PublicKey_of c <> PubOther) -> (forall sig, asn1_Unmarshal sig <> Panic) ->
  (forall c roots name t others, cert_Verify c roots name t others <> Panic) ->
  manager_ok (CM := certManager_interface now order).
Proof.
  intros Hsets Hz Hkeys Hasn Hver. constructor; cbn.
  - intros m crt Hb. pose proof (decompressChain_safe crt Hsets Hb Hz) as Hd. unfold certManager_SetData.
    destruct (decompressChain crt) as [chain|err|]; [|done..].
    enough (parseChain chain <> Panic) by (by destruct (parseChain chain)).
    clear Hd. induction chain as [|data chain IH]; cbn; [done|]. pose proof (ParseCertificate_safe data).
    destruct (ParseCertificate data); [|done..]. cbn. by destruct (parseChain chain).
  - intros m host. unfold certManager_Verify. destruct (cm_chain m); [done|].
    destruct (cm_config m) as [cfg|]; [destruct (ct_InsecureSkipVerify cfg); [done|]|]; apply Hver.
  - intros m proof chlo scfg. unfold certManager_VerifyServerProof, verifyServerProof. destruct (cm_chain m) as [|c cs]; [done|].
    pose proof (Hkeys c) as Hk0. pose proof (Hasn proof) as Ha.
    destruct (PublicKey_of c); [done| |done]. by destruct (asn1_Unmarshal proof) as [[[r s] [|x l]]|err|].
  - intros m host. unfold certManager_Verify, certManager_GetLeafCert. destruct (cm_chain m); [done|]. by eexists.
Qed.

(** C28: the crypto setup of a client with the certificate manager of cert_manager.go does not
    panic on rejections, diversification nonces, errors of the stream, packets and one server
    hello, in whatever order they come; it announces the secure and then the forward-secure
    level, each once.  The certificates have RSA or ECDSA keys, and the packages that parse and
    check them do not panic. *)
Theorem client_crypto_setup_safe
    `{Fn : Fnv128a, Ae : Aes12, AeL : !Aes12Laws Ae, Hk : Hkdf, HkL : !HkdfLaws Hk}
    `{Cu : Curve25519, CuL : !Curve25519Laws Cu}
    {Sg : Signatures} {X : X509} {XL : X509Laws X} {CS : CertSets} {ZL : Zlib} now order
    env0 hostname connID version tlsConfig cp truncate negotiated live h :
  let CM := certManager_interface now order in
  sets_ok -> (forall dict r, bytes_ok r -> safe (zlib_NewReaderDict dict r) gz_ok) ->
  (forall c, PublicKey_of c <> PubOther) -> (forall sig, asn1_Unmarshal sig <> Panic) ->
  (forall c roots name t others, cert_Verify c roots name t others <> Panic) ->
  client_env_ok env0 -> ok_as PerspectiveClient cp ->
  client_steps False
    (client_started env0 (NewCryptoSetupClient hostname connID version (NewCertManager tlsConfig) cp truncate negotiated))
    (live, h) ->
  (live = true -> forall env ev, client_env_ok env -> event_ok False h ev -> (clientIteration env ev h).2 <> Panic) /\
  (forall src pn ad, bytes_ok src -> (client_Open h src pn ad).2 <> Panic) /\
  (exists rest, [EncryptionSecure; EncryptionForwardSecure] = lc_sent (csc_aeadChanged h) ++ rest).
Proof.
  intros CM Hsets Hz Hkeys Hasn Hver He Hp. apply client_steps_safe; try done. by apply certManager_ok.
Qed.

Section client_errors.
Context `{Fn : Fnv128a, Ae : Aes12, AeL : !Aes12Laws Ae, Hk : Hkdf, HkL : !HkdfLaws Hk}.
Context `{Cu : Curve25519, CuL : !Curve25519Laws Cu} {M : Type} `{CM : CertManager M}.
#[local] Abbreviation client := (cryptoSetupClient (M := M)).

Lemma SetFromMap_none cp (params : gmap Z (list Z)) :
  params !! TagTCID = None -> params !! TagMSPC = None -> params !! TagMIDS = None -> params !! TagICSL = None ->
  params !! TagSFCW = None -> params !! TagCFCW = None -> SetFromMap cp params = (cp, Ok tt).
Proof. intros E1 E2 E3 E4 E5 E6. unfold SetFromMap, ifParam. by rewrite E1, E2, E3, E4, E5, E6. Qed.

(** A second server hello, with a public value and the versions but without connection
    parameters, makes the client send on the channel that it has closed after the first one. *)
Theorem second_server_hello_panics (h : client) config (pubs ver : list Z) :
  csc_receivedSecurePacket h = true -> csc_serverConfig h = Some config -> len pubs = 32 ->
  validateVersionList h ver = true -> lc_closed (csc_aeadChanged h) = true ->
  (handleSHLOMessage {[TagPUBS := pubs; TagVER := ver]} h).2 = Panic.
Proof.
  intros Er Ec Hl Hv Hcl. unfold handleSHLOMessage, sr_with at 1. rewrite Er. cbn [negb].
  unfold sr_bind at 1, ifTag.
  rewrite lookup_insert_ne, lookup_singleton_ne by discriminate. cbn [sr_ret sr_lift].
  rewrite lookup_insert_eq, lookup_insert_ne, lookup_singleton_eq by discriminate. rewrite Hv, Ec. cbn [negb].
  unfold sr_bind at 1, sr_lift at 1, CalculateSharedKey. rewrite Hl. cbn [Z.eqb Pos.eqb negb].
  unfold sr_bind at 1, sr_with, client_assign.
  match goal with |- context [DeriveKeysAESGCM ?a ?b ?c ?d ?e ?f ?g ?i ?j] =>
    destruct (derive_ok a b c d e f g i j) as [aead ->] end.
  unfold sr_bind at 1, client_parameters.
  rewrite SetFromMap_none by by rewrite lookup_insert_ne, lookup_singleton_ne by discriminate.
  unfold sr_bind, client_changed, lc_send. cbn. by rewrite Hcl.
Qed.

(** C40: after its server has been verified, and before it has keys, a client takes over any server
    config that comes with an empty proof, without checking it: the keys are then derived from
    that config. *)
Theorem empty_proof_replaces_config (h : client) env1 env2 scfg config leaf divNonce :
  csc_serverVerified h = true -> csc_secureAEAD h = None -> csc_diversificationNonce h = [] -> csc_nonc h <> [] ->
  csc_clientHelloCounter h < MaxClientHellos -> lc_closed (csc_aeadChanged h) = false ->
  ManagerLeafCert (csc_certManager h) = Some leaf -> leaf <> [] -> divNonce <> [] ->
  ce_write env1 = Ok tt -> parseServerConfig scfg (ce_randKex env1) = Ok config ->
  scc_sharedSecret config <> [] -> IsExpired config (ce_now env1) = false ->
  exists h' aead nonce chlo,
    (clientIteration env1 (EvMessage (mkHandshakeMessage TagREJ {[TagSCFG := scfg; TagPROF := []]})) ;;!
     clientIteration env2 (EvDivNonce divNonce)) h = (h', Ok tt) /\
    csc_secureAEAD h' = Some aead /\
    DeriveKeysAESGCM false (scc_sharedSecret config) nonce (csc_connID h) chlo (scc_raw config) leaf divNonce
      PerspectiveClient = Ok aead.
Proof.
  intros Hv Hsec Hdiv Hnonc Hcount Hcl Hleaf Hl0 Hd0 Hw Hparse Hsecret Hexp.
  assert (forall (l : list Z), l <> [] -> (len l >? 0) = true /\ (len l =? 0) = false) as Hpos.
  { intros [|x l] Hx; [done|]. rewrite len_cons, Z.gtb_ltb. pose proof (len_nonneg l).
    split; [apply Z.ltb_lt|apply Z.eqb_neq]; lia. }
  set (h1 := csc_set_proof (csc_set_config h (Some config)) [] (csc_lastSentCHLO h)).
  assert (handleREJMessage env1 {[TagSCFG := scfg; TagPROF := []]} h = (h1, Ok tt)) as E1.
  { unfold handleREJMessage, ifTag, sr_bind. set (data := {[TagSCFG := scfg; TagPROF := []]}).
    assert (data !! TagSTK = None /\ data !! TagSNO = None /\ data !! TagCERT = None) as (-> & -> & ->)
      by (subst data; split_and!; by rewrite lookup_insert_ne, lookup_singleton_ne by discriminate).
    assert (data !! TagSCFG = Some scfg /\ data !! TagPROF = Some []) as (-> & ->)
      by (subst data; split; [by rewrite lookup_insert_eq|by rewrite lookup_insert_ne, lookup_singleton_eq by discriminate]).
    cbn [sr_ret sr_lift]. unfold handleSCFG. rewrite Hparse. unfold sr_bind, sr_modify. cbn beta iota.
    rewrite Hexp. unfold sr_with. cbn [csc_nonc csc_set_config]. rewrite (proj2 (Hpos _ Hnonc)). cbn [sr_ret sr_lift].
    unfold verifyProof, sr_with. cbn. by rewrite Hleaf. }
  set (counted := csc_set_counter h1 (csc_clientHelloCounter h + 1)).
  set (b := HandshakeMessage_Write (mkHandshakeMessage TagCHLO (addPadding (getTags counted))) []).
  set (h2 := csc_set_stream counted (csc_cryptoStream h ++ [b]) b).
  assert (client_prepare env1 h1 = (h2, Ok tt)) as E2.
  { unfold client_prepare, sr_bind, maybeUpgradeCrypto, sr_with. cbn [h1 csc_set_proof csc_set_config
      csc_serverVerified csc_secureAEAD csc_serverConfig csc_diversificationNonce]. rewrite Hv, Hsec, Hdiv. cbn [negb].
    change (len (@nil Z) >? 0) with false. rewrite !andb_false_r. cbn [andb sr_ret sr_lift].
    change (csc_secureAEAD h1) with (csc_secureAEAD h). rewrite Hsec.
    unfold sendCHLO, sr_bind, sr_modify, sr_with. cbn beta iota.
    change (csc_set_counter h1 (csc_clientHelloCounter h1 + 1)) with counted.
    change (csc_clientHelloCounter counted) with (csc_clientHelloCounter h + 1).
    rewrite Z.gtb_ltb, (proj2 (Z.ltb_ge MaxClientHellos (csc_clientHelloCounter h + 1))) by lia.
    unfold sr_lift. rewrite Hw. reflexivity. }
  assert (b <> []) as Hb by (subst b; unfold HandshakeMessage_Write; cbn; by destruct (writePairs _ _ _)).
  destruct (derive_ok false (scc_sharedSecret config)
    (if bool_decide (csc_sno h = []) then csc_nonc h else csc_nonc h ++ csc_sno h)
    (csc_connID h) b (scc_raw config) leaf divNonce PerspectiveClient) as [aead Ea].
  eexists _, aead, _, b. split; [|split; [|exact Ea]].
  - unfold clientIteration at 1, sr_bind at 1 2. cbn [client_handle hm_Tag hm_Data]. rewrite Z.eqb_refl, E1, E2.
    unfold clientIteration, sr_bind at 1. cbn [client_handle]. unfold sr_with at 1.
    change (csc_diversificationNonce h2) with (csc_diversificationNonce h). rewrite Hdiv. change (len (@nil Z) =? 0) with true. cbn [negb andb].
    unfold sr_modify. unfold client_prepare, sr_bind at 1, maybeUpgradeCrypto, sr_with at 1.
    cbn [csc_set_nonce h2 csc_set_stream counted csc_set_counter h1 csc_set_proof csc_set_config csc_serverVerified
      csc_secureAEAD csc_serverConfig csc_diversificationNonce csc_nonc csc_certManager csc_lastSentCHLO csc_sno csc_connID].
    rewrite Hv, Hsec, Hleaf. cbn [negb]. change (default [] (Some leaf)) with leaf.
    rewrite (proj1 (Hpos _ Hsecret)), (proj1 (Hpos _ Hnonc)), (proj1 (Hpos _ Hl0)), (proj1 (Hpos _ Hd0)), (proj1 (Hpos _ Hb)).
    cbn [andb]. unfold serverConfigClient_Get. rewrite Ea.
    unfold sr_bind, client_assign, client_changed, lc_send. cbn beta iota.
    change (csc_aeadChanged (csc_set_secure (csc_set_nonce h2 divNonce) (Some aead))) with (csc_aeadChanged h).
    rewrite Hcl. reflexivity.
  - reflexivity.
Qed.
End client_errors.
