(* ===== verification/Server.v ===== *)
(** * server.go and interface.go: the listener

    The server's table of sessions and the goroutines around it: the read loop that dispatches
    datagrams by connection ID, the goroutines that run the sessions and remove them, the timers
    that delete closed ones, and the queue of [Accept].  A session is an object that the table,
    the goroutines and the queue share: they hold its index in [tb_objects].  The sessions
    themselves are used through [PacketHandler].  The sockets and the PLUS library are arguments:
    [serverCall] has the results of their calls. *)

From S2P Require Import Prelude Protocol Qerr Wire Handshake PublicHeader SendAlgorithm Session ServerConfig CryptoSetupServer.

(** ** interface.go: the configuration *)

Record Config (T : Type) : Type := mkConfig {
  cf_TLSConfig : T;
  cf_Versions : list Z;
  cf_RequestConnectionIDTruncation : bool;
  cf_UsePLUS : bool;
}.
Arguments mkConfig {T}.
Arguments cf_TLSConfig {T}.
Arguments cf_Versions {T}.
Arguments cf_RequestConnectionIDTruncation {T}.
Arguments cf_UsePLUS {T}.

(** [packetHandler] *)
Class PacketHandler (S : Type) : Type := {
  handler_handlePacket : S -> receivedPacket -> S;
  handler_Close : S -> option goerror -> S;
}.

(** The session of session.go *)
#[export] Instance sessionHandler {SA : SendAlgorithm} : PacketHandler session := {|
  handler_handlePacket := handlePacket;
  handler_Close s err := (registerClose s err false).1;
|}.

(** [protocol.ClosedSessionDeleteTimeout]: a minute *)
Definition ClosedSessionDeleteTimeout : Z := Minute.
(** The capacity of [sessionQueue] *)
Definition sessionQueueSize : Z := 5.

Definition populateServerConfig {T} (config : Config T) : Config T :=
  let versions := cf_Versions config in
  let versions := if len versions =? 0 then SupportedVersions else versions in
  mkConfig (cf_TLSConfig config) versions false (cf_UsePLUS config).

(** ** buffer_pool.go and the read loops *)

Definition MaxReceivePacketSize : Z := 1452.

(** A slice from the start of its array to the end of its capacity, and its length *)
Record slice : Type := mkSlice {
  sl_array : list Z;
  sl_len : Z;
}.
Definition sl_cap (b : slice) : Z := len (sl_array b).
Definition sl_data (b : slice) : list Z := take (Z.to_nat (sl_len b)) (sl_array b).
(** [b[:n]] and [copy(b, src)] *)
Definition reslice (b : slice) (n : Z) : res slice :=
  if (0 <=? n) && (n <=? sl_cap b) then Ok (mkSlice (sl_array b) n) else Panic.
Definition copyTo (b : slice) (src : list Z) : slice :=
  let n := Z.to_nat (Z.min (sl_len b) (len src)) in
  mkSlice (take n src ++ drop n (sl_array b)) (sl_len b).

(** The pool: [sync.Pool] gives a buffer that was put back, or a new one. *)
Definition getPacketBuffer (pool : list slice) : slice * list slice :=
  match pool with
  | b :: pool => (b, pool)
  | [] => (mkSlice (replicate (Z.to_nat MaxReceivePacketSize) 0) 0, [])
  end.
Definition putPacketBuffer (pool : list slice) (buf : slice) : res (list slice) :=
  if negb (sl_cap buf =? MaxReceivePacketSize) then Panic
  else Ok (mkSlice (sl_array buf) 0 :: pool).

(** The loop of [serve] up to the call of [handlePacket]: [ReadFrom] fills the buffer with at
    most its length of the datagram. *)
Definition readDatagram (pool : list slice) (received : list Z) : res (slice * list slice) :=
  let '(data, pool) := getPacketBuffer pool in
  let! data := reslice data MaxReceivePacketSize in
  let n := Z.min (len received) (sl_len data) in
  let! data := reslice (copyTo data received) n in
  Ok (data, pool).

(** The loop of [servePLUS] up to the call of [handlePacketPLUS] *)
Definition readPLUS (pool : list slice) (payload : list Z) (feedbackData_ : option (list Z))
    : res (slice * option slice * list slice) :=
  let '(data, pool) := getPacketBuffer pool in
  let! data := reslice data MaxReceivePacketSize in
  let! (feedbackData, pool) :=
    match feedbackData_ with
    | None => Ok (None, pool)
    | Some f =>
        let '(feedbackData, pool) := getPacketBuffer pool in
        let! feedbackData := reslice (copyTo feedbackData f) (len f) in
        Ok (Some feedbackData, pool)
    end in
  let! data := reslice (copyTo data payload) (len payload) in
  Ok (data, feedbackData, pool).

(** ** The server *)

Definition setRaw (h : PublicHeader) (raw : list Z) : PublicHeader :=
  mkPublicHeader raw (ph_ConnectionID h) (ph_VersionFlag h) (ph_ResetFlag h) (ph_TruncateConnectionID h)
    (ph_PacketNumberLen h) (ph_PacketNumber h) (ph_VersionNumber h) (ph_SupportedVersions h) (ph_DiversificationNonce h).

(** What is written: to an address, or on a connection of the PLUS library *)
Inductive datagram : Type :=
| WriteTo (addr : Z) (data : list Z)
| WritePLUS (plusConnection : option Z) (data : list Z).

Section server.
Context {T S : Type} `{PH : PacketHandler S}.

(** The sessions: the table, with [None] for the nil of a closed session, the session objects,
    the goroutines in [session.run] and those that wait for the handshake, and the timers that
    delete an entry *)
Record sessionTable : Type := mkSessionTable {
  tb_sessions : gmap Z (option nat);
  tb_objects : list S;
  tb_running : list (Z * nat);
  tb_waiting : list nat;
  tb_timers : list (Z * Z);
}.

Record server : Type := mkServer {
  srv_config : Config T;
  srv_table : sessionTable;
  srv_sessionQueue : list nat;
  srv_serverError : option goerror;
  srv_errorChanClosed : bool;
  srv_connClosed : bool;
  srv_out : list datagram;
}.

Definition Listen (config : Config T) : server :=
  mkServer (populateServerConfig config) (mkSessionTable ∅ [] [] [] []) [] None false false [].

Definition set_table (s : server) (t : sessionTable) : server :=
  mkServer (srv_config s) t (srv_sessionQueue s) (srv_serverError s) (srv_errorChanClosed s)
    (srv_connClosed s) (srv_out s).
Definition set_queue (s : server) (waiting : list nat) (q : list nat) : server :=
  let t := srv_table s in
  mkServer (srv_config s) (mkSessionTable (tb_sessions t) (tb_objects t) (tb_running t) waiting (tb_timers t))
    q (srv_serverError s) (srv_errorChanClosed s) (srv_connClosed s) (srv_out s).
Definition set_objects (s : server) (objects : list S) : server :=
  let t := srv_table s in
  set_table s (mkSessionTable (tb_sessions t) objects (tb_running t) (tb_waiting t) (tb_timers t)).

(** The results of the calls that handling a datagram makes *)
Record serverCall : Type := mkServerCall {
  sc_now : Z;
  sc_write : res unit;
  sc_newSession : Z -> Z -> Z -> option Z -> res S;
}.

Definition writeDatagram (call : serverCall) (s : server) (d : datagram) : server * res unit :=
  match sc_write call with
  | Ok _ =>
      (mkServer (srv_config s) (srv_table s) (srv_sessionQueue s) (srv_serverError s) (srv_errorChanClosed s)
         (srv_connClosed s) (srv_out s ++ [d]), Ok tt)
  | r => (s, r)
  end.

(** [writeTo] and [writeToPLUS]: nothing is written for the other kind of server *)
Definition writeTo (call : serverCall) (s : server) (data : list Z) (remoteAddr : Z) : server * res unit :=
  if negb (cf_UsePLUS (srv_config s)) then writeDatagram call s (WriteTo remoteAddr data) else (s, Ok tt).
Definition writeToPLUS (call : serverCall) (s : server) (plusConnection : option Z) (data : list Z)
    : server * res unit :=
  if cf_UsePLUS (srv_config s) then writeDatagram call s (WritePLUS plusConnection data) else (s, Ok tt).

(** The reply to a packet that no session handles *)
Definition sendReply (call : serverCall) (s : server) (remoteAddr : Z) (plusConnection : option Z)
    (reply plusReply : list Z) : server * res unit :=
  if negb (cf_UsePLUS (srv_config s)) then writeTo call s reply remoteAddr
  else writeToPLUS call s plusConnection plusReply.

(** A new session, in the table and with its two goroutines *)
Definition addSession (s : server) (connectionID : Z) (session : S) : server :=
  let t := srv_table s in
  let i := length (tb_objects t) in
  set_table s (mkSessionTable (<[connectionID := Some i]> (tb_sessions t)) (tb_objects t ++ [session])
    (tb_running t ++ [(connectionID, i)]) (tb_waiting t ++ [i]) (tb_timers t)).

(** [session.handlePacket] for the session of an entry; nothing for a nil session *)
Definition deliver (s : server) (session : option nat) (p : receivedPacket) : server :=
  match session with
  | None => s
  | Some i => set_objects s (alter (fun x => handler_handlePacket x p) i (tb_objects (srv_table s)))
  end.

Definition handlePacketPLUS (call : serverCall) (s : server) (remoteAddr : Z) (packet : list Z)
    (plusConnection : option Z) (feedbackData : option (list Z)) : server * res unit :=
  match ParsePublicHeader packet PerspectiveClient with
  | Panic => (s, Panic)
  | Err e => (s, Err (QuicError InvalidPacketHeader (MsgOf e)))
  | Ok (hdr, r) =>
      let raw := take (length packet - length r) packet in
      let hdr := setRaw hdr raw in
      let session := tb_sessions (srv_table s) !! ph_ConnectionID hdr in
      let ok := bool_decide (is_Some session) in
      let versions := cf_Versions (srv_config s) in
      let p := mkReceivedPacket remoteAddr hdr r (sc_now call) feedbackData in
      if ph_ResetFlag hdr then
        (s, if ok then match parsePublicReset r with Panic => Panic | _ => Ok tt end else Ok tt)
      else if ok && ph_VersionFlag hdr && negb (IsSupportedVersion versions (ph_VersionNumber hdr)) then (s, Ok tt)
      else if ph_VersionFlag hdr && negb (IsSupportedVersion versions (ph_VersionNumber hdr)) then
        if len packet <? ClientHelloMinimumSize + len raw
        then (s, Err (ErrNew "dropping small packet with unknown version"))
        else
          let reply := composeVersionNegotiation (ph_ConnectionID hdr) versions in
          sendReply call s remoteAddr plusConnection reply reply
      else match session with
      | None =>
          if negb (ph_VersionFlag hdr) then
            sendReply call s remoteAddr plusConnection (writePublicReset (ph_ConnectionID hdr) (ph_PacketNumber hdr) 0)
              (composeVersionNegotiation (ph_ConnectionID hdr) versions)
          else
            let version := ph_VersionNumber hdr in
            if negb (IsSupportedVersion versions version)
            then (s, Err (ErrNew "Server BUG: negotiated version not supported"))
            else
              match sc_newSession call remoteAddr version (ph_ConnectionID hdr) plusConnection with
              | Err e => (s, Err e)
              | Panic => (s, Panic)
              | Ok session =>
                  let i := length (tb_objects (srv_table s)) in
                  (deliver (addSession s (ph_ConnectionID hdr) session) (Some i) p, Ok tt)
              end
      | Some session => (deliver s session p, Ok tt)
      end
  end.

(** [handlePacket], for a server without PLUS *)
Definition server_handlePacket (call : serverCall) (s : server) (remoteAddr : Z) (packet : list Z)
    : server * res unit :=
  handlePacketPLUS call s remoteAddr packet None None.

(** [removeConnection] after [session.run] has returned: the timer is set to delete the entry. *)
Definition removeConnection (s : server) (id : Z) (i : nat) (now : Z) : server :=
  let t := srv_table s in
  set_table s (mkSessionTable (<[id := None]> (tb_sessions t)) (tb_objects t)
    (filter (fun r => r <> (id, i)) (tb_running t)) (tb_waiting t)
    (tb_timers t ++ [(id, now + ClosedSessionDeleteTimeout)])).

(** The function of the timer *)
Definition deleteSession (s : server) (id deadline : Z) : server :=
  let t := srv_table s in
  set_table s (mkSessionTable (delete id (tb_sessions t)) (tb_objects t) (tb_running t) (tb_waiting t)
    (filter (fun r => r <> (id, deadline)) (tb_timers t))).

(** The goroutine that waits for the handshake gets its event: the session is queued when the
    connection is forward-secure and there is room; the goroutine ends with an error.  Other
    levels leave it waiting. *)
Definition handshakeEvent (s : server) (i : nat) (level : Z) (failed : bool) : option server :=
  let waiting := filter (fun j => j <> i) (tb_waiting (srv_table s)) in
  if failed then Some (set_queue s waiting (srv_sessionQueue s))
  else if level =? EncryptionForwardSecure then
    if len (srv_sessionQueue s) <? sessionQueueSize
    then Some (set_queue s waiting (srv_sessionQueue s ++ [i]))
    else None
  else Some s.

(** [Accept]: a session, the error of the read loop, or [None] while it blocks; a session and
    an error can both be ready. *)
Inductive accepts (s : server) : server -> nat + option goerror -> Prop :=
| accept_session i q :
    srv_sessionQueue s = i :: q -> accepts s (set_queue s (tb_waiting (srv_table s)) q) (inl i)
| accept_error : srv_errorChanClosed s = true -> accepts s s (inr (srv_serverError s)).

(** [Close] closes every session that is not nil; [order] is the order of the iteration.  The
    connection of a server with PLUS is nil, and nothing else is closed then. *)
Definition server_Close (order : list Z) (s : server) : server :=
  let t := srv_table s in
  let objects := foldl (fun objects id =>
    match tb_sessions t !! id with
    | Some (Some i) => alter (fun x => handler_Close x None) i objects
    | _ => objects
    end) (tb_objects t) order in
  let s := set_objects s objects in
  mkServer (srv_config s) (srv_table s) (srv_sessionQueue s) (srv_serverError s) (srv_errorChanClosed s)
    (srv_connClosed s || negb (cf_UsePLUS (srv_config s))) (srv_out s).

(** The end of the read loop: reading has failed. *)
Definition serveError (order : list Z) (s : server) (err : goerror) : server :=
  server_Close order
    (mkServer (srv_config s) (srv_table s) (srv_sessionQueue s) (Some err) true (srv_connClosed s) (srv_out s)).
End server.

(** ** The sessions of a server *)

Section server_theorems.
Context {T S : Type} `{PH : PacketHandler S} (session_step : S -> S -> Prop).
#[local] Abbreviation server := (server (T := T) (S := S)).

(** A step of the server with what [Accept] returns: a datagram, a step of a session on its own,
    the end of a session, a timer, an event of a handshake, a call of [Accept] or of [Close], and
    the end of the read loop *)
Inductive server_event : server -> server -> option nat -> Prop :=
| event_packet call s addr packet plusConnection feedbackData :
    server_event s (handlePacketPLUS call s addr packet plusConnection feedbackData).1 None
| event_session s i x x' :
    tb_objects (srv_table s) !! i = Some x -> session_step x x' ->
    server_event s (set_objects s (<[i := x']> (tb_objects (srv_table s)))) None
| event_closed s id i now :
    (id, i) ∈ tb_running (srv_table s) -> server_event s (removeConnection s id i now) None
| event_timer s id deadline :
    (id, deadline) ∈ tb_timers (srv_table s) -> server_event s (deleteSession s id deadline) None
| event_handshake s i level failed s' :
    i ∈ tb_waiting (srv_table s) -> handshakeEvent s i level failed = Some s' -> server_event s s' None
| event_accept s s' r :
    accepts s s' r -> server_event s s' (match r with inl i => Some i | inr _ => None end)
| event_close order s : server_event s (server_Close order s) None
| event_error order s err : server_event s (serveError order s err) None.

(** The states of a server, with the sessions that [Accept] has returned *)
Inductive server_run (config : Config T) : server -> list nat -> Prop :=
| run_listen : server_run config (Listen config) []
| run_event s s' acc r :
    server_run config s acc -> server_event s s' r -> server_run config s' (acc ++ option_list r).

(** A connection is in the table exactly while its session runs, as nil exactly while a timer
    is set that deletes it; a session runs for one connection, and waits, is queued or has been
    accepted at most once. *)
Record table_ok (t : sessionTable (S := S)) (queue acc : list nat) : Prop := {
  to_running id i : (id, i) ∈ tb_running t <-> tb_sessions t !! id = Some (Some i);
  to_timers id : (exists d, (id, d) ∈ tb_timers t) <-> tb_sessions t !! id = Some None;
  to_timer id d d' : (id, d) ∈ tb_timers t -> (id, d') ∈ tb_timers t -> d = d';
  to_owner id id' i : (id, i) ∈ tb_running t -> (id', i) ∈ tb_running t -> id = id';
  to_objects id i : (id, i) ∈ tb_running t -> (i < length (tb_objects t))%nat;
  to_once : NoDup (tb_waiting t ++ queue ++ acc);
  to_made : Forall (fun i => i < length (tb_objects t))%nat (tb_waiting t ++ queue ++ acc);
  to_queue : len queue <= sessionQueueSize;
}.

Lemma table_objects t queue acc objects :
  length objects = length (tb_objects t) -> table_ok t queue acc ->
  table_ok (mkSessionTable (tb_sessions t) objects (tb_running t) (tb_waiting t) (tb_timers t)) queue acc.
Proof. intros E []. constructor; cbn; rewrite ?E; done. Qed.

Lemma table_added t queue acc id x :
  tb_sessions t !! id = None -> table_ok t queue acc ->
  table_ok (mkSessionTable (<[id := Some (length (tb_objects t))]> (tb_sessions t)) (tb_objects t ++ [x])
    (tb_running t ++ [(id, length (tb_objects t))]) (tb_waiting t ++ [length (tb_objects t)]) (tb_timers t)) queue acc.
Proof.
  intros Hid []. set (n := length (tb_objects t)).
  assert (forall i, (id, i) ∉ tb_running t) as Hnr by (intros i Hi; apply to_running0 in Hi; congruence).
  assert (forall id' i, (id', i) ∈ tb_running t ++ [(id, n)] <-> (id', i) ∈ tb_running t \/ (id' = id /\ i = n)) as Hin.
  { intros id' i. rewrite elem_of_app, list_elem_of_singleton. intuition congruence. }
  constructor; cbn.
  - intros id' i. rewrite Hin. destruct (decide (id' = id)) as [-> |Hne].
    + rewrite lookup_insert_eq. split; [|intros [= <-]; by right]. by intros [H|[_ ->]]; [apply Hnr in H|].
    + rewrite lookup_insert_ne by done. rewrite <- to_running0. intuition congruence.
  - intros id'. rewrite to_timers0. destruct (decide (id' = id)) as [-> |Hne].
    + rewrite lookup_insert_eq. split; congruence.
    + by rewrite lookup_insert_ne.
  - done.
  - intros id1 id2 i. rewrite !Hin. intros [H1|[-> E1]] [H2|[-> E2]]; [by eapply to_owner0| | |done].
    + rewrite E2 in H1. by apply to_objects0, Nat.lt_irrefl in H1.
    + rewrite E1 in H2. by apply to_objects0, Nat.lt_irrefl in H2.
  - intros id' i. rewrite Hin, length_app. cbn. intros [H|[_ ->]]; [apply to_objects0 in H; lia|unfold n; lia].
  - rewrite <- app_assoc. apply NoDup_app in to_once0 as (N1 & N2 & N3). rewrite Forall_app, !Forall_forall in to_made0.
    destruct to_made0 as [M1 M2]. apply NoDup_app. split; [done|]. split.
    + intros i Hi. cbn. rewrite elem_of_cons. intros [-> |Hq]; [by apply M1, Nat.lt_irrefl in Hi|by apply (N2 i)].
    + cbn. constructor; [|done]. intros Hq. by apply M2, Nat.lt_irrefl in Hq.
  - rewrite <- app_assoc, length_app. rewrite Forall_app in to_made0 |- *. destruct to_made0 as [M1 M2]. cbn.
    split; [eapply Forall_impl; [exact M1|cbn; lia]|]. constructor; [unfold n; lia|].
    eapply Forall_impl; [exact M2|cbn; lia].
  - done.
Qed.

Lemma table_closed t queue acc id i deadline :
  (id, i) ∈ tb_running t -> table_ok t queue acc ->
  table_ok (mkSessionTable (<[id := None]> (tb_sessions t)) (tb_objects t)
    (filter (fun r => r <> (id, i)) (tb_running t)) (tb_waiting t) (tb_timers t ++ [(id, deadline)])) queue acc.
Proof.
  intros Hi []. pose proof (proj1 (to_running0 _ _) Hi) as Eid.
  assert (forall d, (id, d) ∉ tb_timers t) as Hnt
    by (intros d Hd; assert (tb_sessions t !! id = Some None) by (apply to_timers0; eauto); congruence).
  constructor; cbn; try done.
  - intros id' j. rewrite list_elem_of_filter, to_running0. destruct (decide (id' = id)) as [-> |Hne].
    + rewrite lookup_insert_eq. split; [|done]. intros [Hn Hj]. congruence.
    + rewrite lookup_insert_ne by done. intuition congruence.
  - intros id'. setoid_rewrite elem_of_app. setoid_rewrite list_elem_of_singleton. destruct (decide (id' = id)) as [-> |Hne].
    + rewrite lookup_insert_eq. split; [done|]. intros _. exists deadline. by right.
    + rewrite lookup_insert_ne by done. rewrite <- to_timers0. split; [|naive_solver]. intros (d & [H|H]); [eauto|congruence].
  - intros id' d d'. rewrite !elem_of_app, !list_elem_of_singleton.
    intros [H1|[= -> ->]] [H2|H2]; [by eapply to_timer0| | |congruence].
    + injection H2 as -> ->. by apply Hnt in H1.
    + by apply Hnt in H2.
  - intros id1 id2 j. rewrite !list_elem_of_filter. intros [_ H1] [_ H2]. by eapply to_owner0.
  - intros id' j. rewrite list_elem_of_filter. intros [_ H]. by eapply to_objects0.
Qed.

Lemma table_deleted t queue acc id deadline :
  (id, deadline) ∈ tb_timers t -> table_ok t queue acc ->
  table_ok (mkSessionTable (delete id (tb_sessions t)) (tb_objects t) (tb_running t) (tb_waiting t)
    (filter (fun r => r <> (id, deadline)) (tb_timers t))) queue acc.
Proof.
  intros Hd []. assert (tb_sessions t !! id = Some None) as Eid by (apply to_timers0; eauto).
  constructor; cbn; try done.
  - intros id' i. rewrite to_running0. destruct (decide (id' = id)) as [-> |Hne].
    + rewrite lookup_delete_eq. split; congruence.
    + by rewrite lookup_delete_ne.
  - intros id'. setoid_rewrite list_elem_of_filter. destruct (decide (id' = id)) as [-> |Hne].
    + rewrite lookup_delete_eq. split; [|done]. intros (d & Hn & H). by rewrite (to_timer0 _ _ _ H Hd) in Hn.
    + rewrite lookup_delete_ne by done. rewrite <- to_timers0. split; [intros (d & _ & ?); eauto|].
      intros (d & H). exists d. split; [congruence|done].
  - intros id' d d'. rewrite !list_elem_of_filter. intros [_ H1] [_ H2]. by eapply to_timer0.
Qed.

(** Moving a session from the waiting ones to the queue, or out of the table's care *)
Lemma table_waited t queue queue' acc acc' waiting :
  NoDup (waiting ++ queue' ++ acc') ->
  (forall i, i ∈ waiting ++ queue' ++ acc' -> i ∈ tb_waiting t ++ queue ++ acc) ->
  len queue' <= sessionQueueSize -> table_ok t queue acc ->
  table_ok (mkSessionTable (tb_sessions t) (tb_objects t) (tb_running t) waiting (tb_timers t)) queue' acc'.
Proof.
  intros Hnd Hsub Hq []. constructor; cbn; try done. rewrite Forall_forall in to_made0 |- *. intros i Hi. by apply to_made0, Hsub.
Qed.

Definition server_ok (s : server) (acc : list nat) : Prop := table_ok (srv_table s) (srv_sessionQueue s) acc.

Lemma sendReply_table call (s : server) addr plus reply plusReply :
  srv_table (sendReply call s addr plus reply plusReply).1 = srv_table s /\
  srv_sessionQueue (sendReply call s addr plus reply plusReply).1 = srv_sessionQueue s.
Proof.
  unfold sendReply, writeTo, writeToPLUS, writeDatagram.
  destruct (cf_UsePLUS (srv_config s)); cbn; by destruct (sc_write call).
Qed.

Lemma deliver_ok (s : server) acc session p : server_ok s acc -> server_ok (deliver s session p) acc.
Proof. intros Hs. destruct session as [i|]; [|done]. apply table_objects; [by rewrite length_alter|done]. Qed.

Lemma handlePacketPLUS_ok call (s : server) acc addr packet plus feedback :
  server_ok s acc -> server_ok (handlePacketPLUS call s addr packet plus feedback).1 acc.
Proof.
  intros Hs. unfold handlePacketPLUS.
  assert (forall reply plusReply, server_ok (sendReply call s addr plus reply plusReply).1 acc) as Hr.
  { intros reply plusReply. destruct (sendReply_table call s addr plus reply plusReply) as [E1 E2].
    unfold server_ok. by rewrite E1, E2. }
  destruct (ParsePublicHeader packet PerspectiveClient) as [[hdr r]|err|]; [|done..]. cbv zeta.
  destruct (ph_ResetFlag _); [done|]. destruct (bool_decide _ && _ && _); [done|].
  destruct (_ && negb _); [destruct (_ <? _); [done|apply Hr]|].
  destruct (tb_sessions (srv_table s) !! _) as [session|] eqn:Es; [by apply deliver_ok|].
  destruct (negb (ph_VersionFlag _)); [apply Hr|]. destruct (negb _); [done|].
  destruct (sc_newSession call _ _ _ _) as [x|err|]; [|done..]. apply deliver_ok. by apply table_added.
Qed.

Lemma foldl_length {A B} (f : list A -> B -> list A) l bs :
  (forall l b, length (f l b) = length l) -> length (foldl f l bs) = length l.
Proof. intros Hf. revert l. induction bs as [|b bs IH]; intros l; [done|]. cbn. by rewrite IH, Hf. Qed.

Lemma server_Close_ok order (s : server) acc : server_ok s acc -> server_ok (server_Close order s) acc.
Proof.
  intros Hs. apply table_objects; [|exact Hs]. apply foldl_length. intros l id.
  destruct (tb_sessions (srv_table s) !! id) as [[i|]|]; [apply length_alter|done..].
Qed.

Lemma NoDup_moved (i : nat) (w q a : list nat) :
  NoDup (w ++ q ++ a) -> i ∈ w -> NoDup (filter (fun j => j <> i) w ++ (q ++ [i]) ++ a).
Proof.
  intros (N1 & N2 & N3)%NoDup_app Hi. apply NoDup_app. split; [by apply NoDup_filter|]. split.
  - intros j [Hj Hw]%list_elem_of_filter. rewrite !elem_of_app, list_elem_of_singleton. specialize (N2 j Hw).
    rewrite elem_of_app in N2. tauto.
  - rewrite <- app_assoc. cbn. rewrite <- Permutation_middle. constructor; [|done]. by apply N2.
Qed.

Lemma event_ok (s s' : server) r acc :
  server_ok s acc -> server_event s s' r -> server_ok s' (acc ++ option_list r).
Proof.
  intros Hs He. destruct He; cbn [option_list]; rewrite ?app_nil_r.
  - by apply handlePacketPLUS_ok.
  - apply table_objects; [by rewrite length_insert|done].
  - by apply table_closed.
  - by apply table_deleted.
  - unfold handshakeEvent in H0. destruct failed; [injection H0 as <-|destruct (level =? _);
      [destruct (Z.ltb_spec (len (srv_sessionQueue s)) sessionQueueSize); [injection H0 as <-|done]|by injection H0 as <-]].
    + apply (table_waited _ (srv_sessionQueue s) _ acc); [| |apply Hs|exact Hs].
      * pose proof (to_once _ _ _ Hs) as (N1 & N2 & N3)%NoDup_app. apply NoDup_app.
        split; [by apply NoDup_filter|]. split; [|done]. intros j [_ Hj]%list_elem_of_filter. by apply N2.
      * intros j. rewrite !elem_of_app, list_elem_of_filter. naive_solver.
    + apply (table_waited _ (srv_sessionQueue s) _ acc); [by apply NoDup_moved; [apply Hs|]| | |exact Hs].
      * intros j. cbn [set_queue srv_sessionQueue]. rewrite !elem_of_app, list_elem_of_filter, list_elem_of_singleton.
        naive_solver.
      * cbn [set_queue srv_sessionQueue]. rewrite len_app. unfold len at 2. cbn. lia.
  - destruct H as [i q E|E]; cbn [option_list]; rewrite ?app_nil_r; [|done].
    assert (tb_waiting (srv_table s) ++ q ++ acc ++ [i] ≡ₚ tb_waiting (srv_table s) ++ srv_sessionQueue s ++ acc) as Hperm.
    { rewrite E. cbn. apply Permutation_app_head. rewrite app_assoc. symmetry. apply Permutation_cons_append. }
    apply (table_waited _ (srv_sessionQueue s) _ acc); [rewrite Hperm; apply Hs|by intros j; rewrite Hperm| |exact Hs].
    pose proof (to_queue _ _ _ Hs) as Hl. rewrite E, len_cons in Hl. cbn [set_queue srv_sessionQueue]. lia.
  - by apply server_Close_ok.
  - by apply server_Close_ok.
Qed.

(** C21: in every state of a server, whatever arrives and however sessions, timers and handshakes
    interleave, a connection has an entry with a session exactly while that session runs, and a
    nil entry exactly while its deletion is pending, so that no entry stays behind; no two
    connections share a session; at most 5 sessions are queued, and [Accept] returns a session
    at most once. *)
Theorem server_table_consistent config s acc :
  server_run config s acc -> table_ok (srv_table s) (srv_sessionQueue s) acc.
Proof.
  induction 1 as [|s s' acc r _ IH He]; [|by eapply event_ok].
  constructor; cbn; try constructor; try (intros; rewrite ?lookup_empty in *; set_solver). by vm_compute.
Qed.

(** A packet as a client writes it *)
Definition clientPacket (h : PublicHeader) (payload : list Z) : list Z := header_bytes PerspectiveClient h ++ payload.
Definition packetFrom (call : serverCall (S := S)) (addr : Z) (h : PublicHeader) (payload : list Z) (feedback : option (list Z))
    : receivedPacket :=
  mkReceivedPacket addr (setRaw (header_received PerspectiveClient h) (header_bytes PerspectiveClient h)) payload
    (sc_now call) feedback.

Lemma dispatched call (s : server) addr h payload plus feedback :
  header_ok PerspectiveClient h -> ph_ResetFlag h = false ->
  (ph_VersionFlag h = true -> IsSupportedVersion (cf_Versions (srv_config s)) (ph_VersionNumber h) = true) ->
  let id := ph_ConnectionID h in
  let p := packetFrom call addr h payload feedback in
  handlePacketPLUS call s addr (clientPacket h payload) plus feedback =
  match tb_sessions (srv_table s) !! id with
  | Some (Some i) => (set_objects s (alter (fun x => handler_handlePacket x p) i (tb_objects (srv_table s))), Ok tt)
  | Some None => (s, Ok tt)
  | None =>
      if ph_VersionFlag h then
        match sc_newSession call addr (ph_VersionNumber h) id plus with
        | Ok x =>
            (set_objects (addSession s id x) (tb_objects (srv_table s) ++ [handler_handlePacket x p]), Ok tt)
        | Err e => (s, Err e)
        | Panic => (s, Panic)
        end
      else sendReply call s addr plus (writePublicReset id (ph_PacketNumber h mod 2 ^ (8 * ph_PacketNumberLen h)) 0)
             (composeVersionNegotiation id (cf_Versions (srv_config s)))
  end.
Proof.
  intros Hok Hr Hv id p. unfold handlePacketPLUS, clientPacket. rewrite ParsePublicHeader_bytes by done.
  rewrite length_app, Nat.add_sub, take_app_length. cbv zeta.
  assert (ph_TruncateConnectionID h = false) as Et.
  { pose proof (hok_truncate _ _ Hok) as Ht. destruct (ph_TruncateConnectionID h); [by specialize (Ht eq_refl)|done]. }
  change (mkReceivedPacket addr _ payload (sc_now call) feedback) with p.
  cbn [setRaw header_received ph_ConnectionID ph_ResetFlag ph_VersionFlag ph_VersionNumber ph_PacketNumber].
  rewrite Hr, Et. fold id.
  assert (ph_VersionFlag h && negb (IsSupportedVersion (cf_Versions (srv_config s))
    (if ph_VersionFlag h then ph_VersionNumber h else 0)) = false) as Es.
  { destruct (ph_VersionFlag h); [by rewrite (Hv eq_refl)|done]. }
  rewrite <- andb_assoc, Es, andb_false_r. destruct (tb_sessions (srv_table s) !! id) as [[i|]|]; [done..|].
  destruct (ph_VersionFlag h) eqn:Ev; cbn [negb].
  - rewrite (Hv eq_refl). cbn [negb]. destruct (sc_newSession call addr (ph_VersionNumber h) id plus) as [x|err|]; [|done..].
    unfold deliver. cbn [srv_table addSession set_table tb_objects]. f_equal.
    set (t := srv_table s). unfold set_objects. cbn. f_equal. f_equal. by rewrite alter_app_r_alt, Nat.sub_diag by lia.
  - done.
Qed.

Lemma parsePublicReset_no_panic r : bytes_ok r -> parsePublicReset r <> Panic.
Proof.
  intros Hr. unfold parsePublicReset. pose proof (ParseHandshakeMessage_safe r Hr) as Hp.
  destruct (ParseHandshakeMessage r) as [[msg rest]|err|]; [|done..]. cbn [rbind]. destruct (negb _); [done|].
  destruct (hm_Data msg !! TagRSEQ) as [rseq|]; [|done]. destruct (negb _); [done|].
  destruct (hm_Data msg !! TagRNON) as [rnon|]; [|done]. by destruct (negb _).
Qed.

(** The packets that do not reach a session and do not start one: those whose header does not
    parse, public resets, and those with a version that is not supported *)
Lemma not_dispatched call (s : server) addr packet plus feedback :
  bytes_ok packet ->
  let result := handlePacketPLUS call s addr packet plus feedback in
  let versions := cf_Versions (srv_config s) in
  match ParsePublicHeader packet PerspectiveClient with
  | Panic => False
  | Err e => result = (s, Err (QuicError InvalidPacketHeader (MsgOf e)))
  | Ok (hdr, payload) =>
      let id := ph_ConnectionID hdr in
      (ph_ResetFlag hdr = true -> result = (s, Ok tt)) /\
      (ph_ResetFlag hdr = false -> ph_VersionFlag hdr = true ->
       IsSupportedVersion versions (ph_VersionNumber hdr) = false ->
       result =
       match tb_sessions (srv_table s) !! id with
       | Some _ => (s, Ok tt)
       | None =>
           if len payload <? ClientHelloMinimumSize
           then (s, Err (ErrNew "dropping small packet with unknown version"))
           else sendReply call s addr plus (composeVersionNegotiation id versions) (composeVersionNegotiation id versions)
       end)
  end.
Proof.
  intros Hb result versions. subst result. unfold handlePacketPLUS.
  pose proof (parse_public_header_safe PerspectiveClient packet Hb) as Hp.
  destruct (ParsePublicHeader packet PerspectiveClient) as [[hdr payload]|err|]; [|done..]. cbn in Hp.
  destruct (acc_suffix _ _ _ _ Hp) as [pre ->]. apply bytes_ok_app in Hb as [_ Hb].
  rewrite length_app, Nat.add_sub, take_app_length. cbn [setRaw ph_ConnectionID ph_ResetFlag ph_VersionFlag ph_VersionNumber].
  split.
  - intros ->. pose proof (parsePublicReset_no_panic payload Hb) as Hr.
    destruct (bool_decide _); [|done]. by destruct (parsePublicReset payload).
  - intros -> Hv Hs. fold versions. rewrite Hv, Hs. cbn [negb andb].
    destruct (tb_sessions (srv_table s) !! ph_ConnectionID hdr) as [x|]; [done|].
    change (bool_decide (is_Some None)) with false. cbn [andb]. rewrite len_app.
    destruct (Z.ltb_spec (len pre + len payload) (ClientHelloMinimumSize + len pre)), (Z.ltb_spec (len payload) ClientHelloMinimumSize);
      (done || lia).
Qed.

(** C32: what the server does with a packet, on every branch.  A packet whose header does not
    parse is an error; a public reset is ignored; with a version that the server does not
    support, a packet is ignored for a known connection, is an error when it is too small for a
    first packet, and is answered by a version negotiation packet otherwise.  Any other packet,
    as a client writes it, goes to the session of its connection with its header and its
    payload, and changes nothing else; for a closed session it is dropped; for an unknown
    connection ID a packet with a version starts a session, which gets the packet, and a packet
    without one is answered: by a public reset, or with PLUS by a version negotiation packet. *)
Theorem packet_dispatched call (s : server) addr plus feedback :
  (forall h payload,
    header_ok PerspectiveClient h -> ph_ResetFlag h = false ->
    (ph_VersionFlag h = true -> IsSupportedVersion (cf_Versions (srv_config s)) (ph_VersionNumber h) = true) ->
    let id := ph_ConnectionID h in
    let p := packetFrom call addr h payload feedback in
    handlePacketPLUS call s addr (clientPacket h payload) plus feedback =
    match tb_sessions (srv_table s) !! id with
    | Some (Some i) => (set_objects s (alter (fun x => handler_handlePacket x p) i (tb_objects (srv_table s))), Ok tt)
    | Some None => (s, Ok tt)
    | None =>
        if ph_VersionFlag h then
          match sc_newSession call addr (ph_VersionNumber h) id plus with
          | Ok x =>
              (set_objects (addSession s id x) (tb_objects (srv_table s) ++ [handler_handlePacket x p]), Ok tt)
          | Err e => (s, Err e)
          | Panic => (s, Panic)
          end
        else sendReply call s addr plus (writePublicReset id (ph_PacketNumber h mod 2 ^ (8 * ph_PacketNumberLen h)) 0)
               (composeVersionNegotiation id (cf_Versions (srv_config s)))
    end) /\
  (forall packet,
    bytes_ok packet ->
    let result := handlePacketPLUS call s addr packet plus feedback in
    let versions := cf_Versions (srv_config s) in
    match ParsePublicHeader packet PerspectiveClient with
    | Panic => False
    | Err e => result = (s, Err (QuicError InvalidPacketHeader (MsgOf e)))
    | Ok (hdr, payload) =>
        let id := ph_ConnectionID hdr in
        (ph_ResetFlag hdr = true -> result = (s, Ok tt)) /\
        (ph_ResetFlag hdr = false -> ph_VersionFlag hdr = true ->
         IsSupportedVersion versions (ph_VersionNumber hdr) = false ->
         result =
         match tb_sessions (srv_table s) !! id with
         | Some _ => (s, Ok tt)
         | None =>
             if len payload <? ClientHelloMinimumSize
             then (s, Err (ErrNew "dropping small packet with unknown version"))
             else sendReply call s addr plus (composeVersionNegotiation id versions) (composeVersionNegotiation id versions)
         end)
    end).
Proof. split; [intros h payload; apply dispatched|intros packet; apply not_dispatched]. Qed.

Lemma IsSupportedVersion_elem versions v : IsSupportedVersion versions v = true <-> v ∈ versions.
Proof.
  induction versions as [|w versions IH]; cbn; [set_solver|]. destruct (Z.eqb_spec w v) as [-> |]; [set_solver|].
  rewrite IH. set_solver.
Qed.

(** The answer to a first packet with a version that is not supported *)
Lemma negotiation_sent call (s : server) addr h payload plus feedback :
  header_ok PerspectiveClient h -> ph_ResetFlag h = false -> ph_VersionFlag h = true ->
  ph_VersionNumber h ∉ cf_Versions (srv_config s) -> ClientHelloMinimumSize <= len payload ->
  tb_sessions (srv_table s) !! ph_ConnectionID h = None ->
  let reply := composeVersionNegotiation (ph_ConnectionID h) (cf_Versions (srv_config s)) in
  handlePacketPLUS call s addr (clientPacket h payload) plus feedback = sendReply call s addr plus reply reply.
Proof.
  intros Hok Hr Hv Hn Hl Hs reply. unfold handlePacketPLUS, clientPacket. rewrite ParsePublicHeader_bytes by done.
  rewrite length_app, Nat.add_sub, take_app_length. cbv zeta.
  assert (ph_TruncateConnectionID h = false) as Et.
  { pose proof (hok_truncate _ _ Hok) as Ht. destruct (ph_TruncateConnectionID h); [by specialize (Ht eq_refl)|done]. }
  cbn [setRaw header_received ph_ConnectionID ph_ResetFlag ph_VersionFlag ph_VersionNumber].
  rewrite Hr, Et, Hv, Hs. change (bool_decide (is_Some None)) with false. cbn [andb].
  rewrite <- IsSupportedVersion_elem in Hn. apply not_true_is_false in Hn. rewrite Hn. cbn [negb].
  rewrite len_app, (proj2 (Z.ltb_ge _ _)) by lia. done.
Qed.
End server_theorems.

(** ** Packet buffers *)

(** The buffers of the pool have the size that [putPacketBuffer] asks for, and no content. *)
Definition pool_ok (pool : list slice) : Prop :=
  Forall (fun b => sl_cap b = MaxReceivePacketSize /\ sl_len b = 0) pool.

Lemma getPacketBuffer_ok pool :
  pool_ok pool ->
  sl_cap (getPacketBuffer pool).1 = MaxReceivePacketSize /\ sl_len (getPacketBuffer pool).1 = 0 /\
  pool_ok (getPacketBuffer pool).2.
Proof.
  intros [|b pool' [Hc Hl] Hp]; [|done]. cbn. split; [|by split; [|constructor]]. by vm_compute.
Qed.

Lemma sl_data_copied b src :
  sl_len b = MaxReceivePacketSize -> len src <= MaxReceivePacketSize ->
  sl_data (mkSlice (sl_array (copyTo b src)) (len src)) = src.
Proof.
  intros Hb Hs. unfold sl_data, copyTo. cbn [sl_len sl_array]. rewrite Hb, Z.min_r by done.
  unfold len. rewrite Nat2Z.id, take_app_le, take_take, Nat.min_id; [by apply take_ge|]. by rewrite length_take, Nat.min_id.
Qed.

Lemma sl_cap_copied b src : sl_len b <= sl_cap b -> sl_cap (copyTo b src) = sl_cap b.
Proof.
  intros Hb. unfold sl_cap, copyTo in *. cbn [sl_array]. pose proof (len_nonneg src). unfold len in *.
  rewrite length_app, length_take, length_drop. lia.
Qed.

(** A datagram is read, truncated to the size of the buffer, and the buffer of any header of
    the packet can be put back into the pool. *)
Lemma read_datagram_buffers pool received k :
  pool_ok pool -> 0 <= k <= len received -> len received <= MaxReceivePacketSize ->
  exists data pool' raw, readDatagram pool received = Ok (data, pool') /\ sl_data data = received /\
    reslice data k = Ok raw /\ exists pool'', putPacketBuffer pool' raw = Ok pool'' /\ pool_ok pool''.
Proof.
  intros Hp Hk Hl. unfold readDatagram. destruct (getPacketBuffer_ok pool Hp) as (Hc & _ & Hp').
  destruct (getPacketBuffer pool) as [b pool']. cbn [fst snd] in *. unfold reslice at 1. rewrite Hc. cbn [rbind].
  change ((0 <=? MaxReceivePacketSize) && (MaxReceivePacketSize <=? MaxReceivePacketSize)) with true. cbn [rbind sl_len].
  set (b1 := mkSlice (sl_array b) MaxReceivePacketSize). rewrite Z.min_l by done.
  assert (sl_cap (copyTo b1 received) = MaxReceivePacketSize) as Hc1 by (rewrite sl_cap_copied; [exact Hc|cbn; unfold sl_cap in *; cbn; lia]).
  unfold reslice at 1. rewrite Hc1. rewrite (proj2 (andb_true_iff _ _)) by (split; apply Z.leb_le; [apply len_nonneg|done]).
  cbn [rbind]. exists (mkSlice (sl_array (copyTo b1 received)) (len received)), pool', (mkSlice (sl_array (copyTo b1 received)) k).
  split; [done|]. split; [by apply sl_data_copied|]. unfold sl_cap in Hc1. split.
  - unfold reslice, sl_cap. cbn [sl_array]. rewrite Hc1.
    by rewrite (proj2 (andb_true_iff _ _)) by (split; apply Z.leb_le; lia).
  - unfold putPacketBuffer, sl_cap. cbn [sl_array]. rewrite Hc1, Z.eqb_refl. eexists. split; [done|]. by constructor.
Qed.

(** The feedback data that PLUS passes on is lost: it is copied into an empty slice, and what
    the session gets is the old content of a buffer of the pool, whatever the data was. *)
Theorem plus_feedback_stale pool payload f g :
  pool_ok pool -> len payload <= MaxReceivePacketSize -> len f = len g -> len f <= MaxReceivePacketSize ->
  exists data feedback pool',
    readPLUS pool payload (Some f) = Ok (data, Some feedback, pool') /\
    readPLUS pool payload (Some g) = Ok (data, Some feedback, pool') /\ sl_data data = payload.
Proof.
  intros Hp Hl Efg Hf. unfold readPLUS. destruct (getPacketBuffer_ok pool Hp) as (Hc & _ & Hp').
  destruct (getPacketBuffer pool) as [b pool1]. cbn [fst snd] in *. unfold reslice. rewrite Hc.
  change ((0 <=? MaxReceivePacketSize) && (MaxReceivePacketSize <=? MaxReceivePacketSize)) with true. cbn [rbind].
  destruct (getPacketBuffer_ok pool1 Hp') as (Hc2 & Hl2 & _). destruct (getPacketBuffer pool1) as [b2 pool2]. cbn [fst snd] in *.
  assert (forall x, copyTo b2 x = mkSlice (sl_array b2) 0) as Hcopy.
  { intros x. unfold copyTo. rewrite Hl2, Z.min_l by apply len_nonneg. by rewrite drop_0. }
  rewrite !Hcopy. unfold sl_cap in *. cbn [sl_array]. rewrite Hc2, <- Efg.
  rewrite (proj2 (andb_true_iff (0 <=? len f) _)) by (split; apply Z.leb_le; [apply len_nonneg|done]). cbn [rbind].
  set (b1 := mkSlice (sl_array b) MaxReceivePacketSize).
  assert (sl_cap (copyTo b1 payload) = MaxReceivePacketSize) as Hc1 by (rewrite sl_cap_copied; [exact Hc|unfold sl_cap; cbn; lia]).
  unfold sl_cap in Hc1. rewrite Hc1.
  rewrite (proj2 (andb_true_iff (0 <=? len payload) _)) by (split; apply Z.leb_le; [apply len_nonneg|done]). cbn [rbind].
  eexists _, _, _. do 2 (split; [reflexivity|]). by apply sl_data_copied.
Qed.

Lemma plus_feedback_stale_witness :
  exists data feedback pool',
    readPLUS [mkSlice (replicate 1452 7) 0; mkSlice (replicate 1452 8) 0] [1; 2; 3] (Some [4; 5]) = Ok (data, Some feedback, pool') /\
    sl_data feedback = [8; 8].
Proof.
  destruct (plus_feedback_stale [mkSlice (replicate 1452 7) 0; mkSlice (replicate 1452 8) 0] [1; 2; 3] [4; 5] [6; 7])
    as (data & feedback & pool' & E & _).
  - repeat constructor; vm_compute; reflexivity.
  - vm_compute. congruence.
  - reflexivity.
  - vm_compute. congruence.
  - exists data, feedback, pool'. split; [exact E|]. vm_compute in E. injection E as <- <- <-. vm_compute. reflexivity.
Defined.
