(* ===== verification/Client.v ===== *)
(** * client.go: dialling

    The client's state around its session: the read loop that hands packets to the session, the
    handling of version negotiation packets, which replace the session by one with another
    version, the goroutines that run the sessions, and what [Dial] waits for.  The goroutine of
    a session reads the field [session] when it starts, which is a step of its own.  The sockets,
    the PLUS library and the random connection IDs are arguments: [clientCall] has the results of
    their calls. *)

From S2P Require Import Prelude Protocol Qerr Wire Handshake PublicHeader Session CryptoSetupServer Server.

Definition populateClientConfig {T} (config : Config T) : Config T :=
  let versions := cf_Versions config in
  let versions := if len versions =? 0 then SupportedVersions else versions in
  mkConfig (cf_TLSConfig config) versions (cf_RequestConnectionIDTruncation config) (cf_UsePLUS config).

Section client.
Context {T S : Type} `{PH : PacketHandler S}.

(** The sessions made so far are in [cl_objects]; [cl_session] is nil after [newClientSession]
    has failed.  [cl_starting] counts the goroutines that have not read [session] yet, and
    [cl_running] has the sessions of the others. *)
Record client : Type := mkClient {
  cl_hostname : list Z;
  cl_config : Config T;
  cl_versionNegotiated : bool;
  cl_connectionID : Z;
  cl_version : Z;
  cl_session : option nat;
  cl_objects : list S;
  cl_starting : nat;
  cl_running : list nat;
  cl_listenErr : option goerror;
  cl_errorChanClosed : bool;
  cl_connClosed : bool;
}.

Record clientCall : Type := mkClientCall {
  cc_now : Z;
  cc_connectionID : res Z;
  cc_newSession : list Z -> Z -> Z -> list Z -> option Z -> res S;
}.

Definition cl_set_version (c : client) (negotiated : bool) (connectionID version : Z) : client :=
  mkClient (cl_hostname c) (cl_config c) negotiated connectionID version (cl_session c) (cl_objects c)
    (cl_starting c) (cl_running c) (cl_listenErr c) (cl_errorChanClosed c) (cl_connClosed c).
Definition cl_set_sessions (c : client) (session : option nat) (objects : list S) (starting : nat) (running : list nat)
    : client :=
  mkClient (cl_hostname c) (cl_config c) (cl_versionNegotiated c) (cl_connectionID c) (cl_version c) session objects
    starting running (cl_listenErr c) (cl_errorChanClosed c) (cl_connClosed c).

(** A method of [c.session]; a nil session panics. *)
Definition onSession (c : client) (f : S -> S) : client * res unit :=
  match cl_session c with
  | None => (c, Panic)
  | Some i => (cl_set_sessions c (cl_session c) (alter f i (cl_objects c)) (cl_starting c) (cl_running c), Ok tt)
  end.
Definition closeSession (c : client) (err : goerror) : client * res unit :=
  onSession c (fun x => handler_Close x (Some err)).

Definition createNewSession (call : clientCall) (c : client) (negotiatedVersions : list Z) (connection : option Z)
    : client * res unit :=
  match cc_newSession call (cl_hostname c) (cl_version c) (cl_connectionID c) negotiatedVersions connection with
  | Ok x =>
      (cl_set_sessions c (Some (length (cl_objects c))) (cl_objects c ++ [x]) (Datatypes.S (cl_starting c)) (cl_running c), Ok tt)
  | Err e => (cl_set_sessions c None (cl_objects c) (cl_starting c) (cl_running c), Err e)
  | Panic => (c, Panic)
  end.

(** The start of [DialNonFWSecure], once the connection ID and the host name are known *)
Definition newClient (hostname : list Z) (connectionID : Z) (config : Config T) : client :=
  let config := populateClientConfig config in
  mkClient hostname config false connectionID (hd 0 (cf_Versions config)) None [] O [] None false false.
Definition DialNonFWSecure (call : clientCall) (hostname : list Z) (config : Config T) (connection : option Z)
    : res (client * res unit) :=
  let! connectionID := cc_connectionID call in
  Ok (createNewSession call (newClient hostname connectionID config) [] connection).

Definition handlePacketWithVersionFlag (call : clientCall) (c : client) (hdr : PublicHeader) (connection : option Z)
    : client * res unit :=
  if existsb (fun v => v =? cl_version c) (ph_SupportedVersions hdr) then (c, Ok tt)
  else
    let newVersion := ChooseSupportedVersion (cf_Versions (cl_config c)) (ph_SupportedVersions hdr) in
    if newVersion =? VersionUnsupported then (c, Err (ErrorCodeErr InvalidVersion))
    else
      match cc_connectionID call with
      | Err e => (cl_set_version c true 0 newVersion, Err e)
      | Panic => (cl_set_version c true 0 newVersion, Panic)
      | Ok connectionID =>
          match closeSession (cl_set_version c true connectionID newVersion) errCloseSessionForNewVersion with
          | (c, Ok _) => createNewSession call c (ph_SupportedVersions hdr) connection
          | r => r
          end
      end.

(** The feedback data of PLUS is an argument that is not used. *)
Definition client_handlePacketPLUS (call : clientCall) (c : client) (remoteAddr : Z) (packet : list Z)
    (connection : option Z) (feedbackData : option (list Z)) : client * res unit :=
  match ParsePublicHeader packet PerspectiveServer with
  | Panic => (c, Panic)
  | Err e => (c, Err (QuicError InvalidPacketHeader (MsgOf e)))
  | Ok (hdr, r) =>
      let hdr := setRaw hdr (take (length packet - length r) packet) in
      if cl_versionNegotiated c && ph_VersionFlag hdr then (c, Ok tt)
      else
        let c :=
          if negb (ph_VersionFlag hdr) && negb (cl_versionNegotiated c)
          then cl_set_version c true (cl_connectionID c) (cl_version c) else c in
        if ph_VersionFlag hdr then handlePacketWithVersionFlag call c hdr connection
        else onSession c (fun x => handler_handlePacket x (mkReceivedPacket remoteAddr hdr r (cc_now call) None))
  end.

(** An iteration of [listen] and [listenPLUS]: a datagram or an error of the read, with whether
    its text says that the connection has been closed.  The flag tells whether the loop goes on. *)
Definition listenIteration (call : clientCall) (c : client) (read : (Z * list Z * option Z) + (goerror * bool))
    : client * res bool :=
  match read with
  | inr (err, connClosed) =>
      if connClosed then (c, Ok false)
      else match closeSession c err with (c, Ok _) => (c, Ok false) | (c, _) => (c, Panic) end
  | inl (addr, packet, connection) =>
      match client_handlePacketPLUS call c addr packet connection None with
      | (c, Ok _) => (c, Ok true)
      | (c, Panic) => (c, Panic)
      | (c, Err err) => match closeSession c err with (c, Ok _) => (c, Ok false) | (c, _) => (c, Panic) end
      end
  end.

(** The goroutine of [createNewSession]: it reads [c.session] and runs it; when the session has
    been closed, it closes [errorChan] and the connection, unless there is a new session. *)
Definition startSession (c : client) : option (res client) :=
  match cl_starting c with
  | O => None
  | Datatypes.S n =>
      Some (match cl_session c with
      | None => Panic
      | Some i => Ok (cl_set_sessions c (cl_session c) (cl_objects c) n (cl_running c ++ [i]))
      end)
  end.
Definition sessionReturned (c : client) (i : nat) (err : goerror) : res client :=
  let c := cl_set_sessions c (cl_session c) (cl_objects c) (cl_starting c) (filter (fun j => j <> i) (cl_running c)) in
  if decide (err = errCloseSessionForNewVersion) then Ok c
  else if cl_errorChanClosed c then Panic
  else Ok (mkClient (cl_hostname c) (cl_config c) (cl_versionNegotiated c) (cl_connectionID c) (cl_version c)
             (cl_session c) (cl_objects c) (cl_starting c) (cl_running c) (Some err) true true).

(** What [establishSecureConnection] returns for the first event of the handshake channel that
    it has read from the client, and when [errorChan] is closed *)
Definition secureOutcome (c : client) (ev : option (goerror + Z)) : res unit :=
  match ev with
  | None => match cl_listenErr c with Some e => Err e | None => Ok tt end
  | Some (inl err) => Err err
  | Some (inr encLevel) =>
      if negb (encLevel =? EncryptionSecure)
      then Err (Errorf "Client BUG: Expected encryption level to be secure, was %s" [encLevel])
      else Ok tt
  end.
End client.

(** ** Version negotiation *)

Section client_theorems.
Context {T S : Type} `{PH : PacketHandler S} (session_step : S -> S -> Prop).
#[local] Abbreviation client := (client (T := T) (S := S)).

(** The client's steps: an iteration of the read loop, a step of a session on its own, the start
    of a goroutine, and the end of a session *)
Inductive client_event : client -> client -> Prop :=
| cl_event_read call c read c' r : listenIteration call c read = (c', r) -> client_event c c'
| cl_event_session c i x x' :
    cl_objects c !! i = Some x -> session_step x x' ->
    client_event c (cl_set_sessions c (cl_session c) (<[i := x']> (cl_objects c)) (cl_starting c) (cl_running c))
| cl_event_start c c' : startSession c = Some (Ok c') -> client_event c c'
| cl_event_return c i err c' : i ∈ cl_running c -> sessionReturned c i err = Ok c' -> client_event c c'.
Inductive client_events : client -> client -> Prop :=
| cl_events_refl c : client_events c c
| cl_events_step c c' c'' : client_events c c' -> client_event c' c'' -> client_events c c''.

(** What does not change once a version has been negotiated *)
Definition same_version (c c' : client) : Prop :=
  cl_config c' = cl_config c /\ cl_version c' = cl_version c /\ cl_connectionID c' = cl_connectionID c /\
  cl_session c' = cl_session c /\ length (cl_objects c') = length (cl_objects c) /\
  (cl_versionNegotiated c = true -> cl_versionNegotiated c' = true).

Lemma onSession_same c f : same_version c (onSession c f).1.
Proof. unfold onSession, same_version. destruct (cl_session c) eqn:E; cbn; rewrite ?E, ?length_alter; done. Qed.

Lemma same_version_trans c c' c'' : same_version c c' -> same_version c' c'' -> same_version c c''.
Proof. unfold same_version. intuition congruence. Qed.

(** Handling a packet keeps the version, or it switches to a common version and makes a
    session, which only happens before a version has been negotiated. *)
Definition switched (c c' : client) : Prop :=
  cl_versionNegotiated c = false /\ cl_versionNegotiated c' = true /\ cl_config c' = cl_config c /\
  cl_version c' ∈ cf_Versions (cl_config c) /\ (length (cl_objects c') <= Datatypes.S (length (cl_objects c)))%nat.

Lemma client_handlePacketPLUS_version call c addr packet connection feedback :
  let c' := (client_handlePacketPLUS call c addr packet connection feedback).1 in
  same_version c c' \/ switched c c'.
Proof.
  unfold client_handlePacketPLUS. destruct (ParsePublicHeader packet PerspectiveServer) as [[hdr r]|err|]; [|by left..].
  cbv zeta. cbn [setRaw ph_VersionFlag]. destruct (ph_VersionFlag hdr).
  - destruct (cl_versionNegotiated c) eqn:En; [by left|]. cbn [andb negb]. unfold handlePacketWithVersionFlag.
    destruct (existsb _ _); [by left|].
    destruct (Z.eqb_spec (ChooseSupportedVersion (cf_Versions (cl_config c)) (ph_SupportedVersions (setRaw hdr (take (length packet - length r) packet))))
      VersionUnsupported) as [|Hne]; [by left|].
    right. destruct (choose_supported_version_best (cf_Versions (cl_config c)) (ph_SupportedVersions (setRaw hdr (take (length packet - length r) packet))))
      as [(before & v & after & Ev & _ & _ & E)|[_ E]]; [|done].
    assert (v ∈ cf_Versions (cl_config c)) as Hin by (rewrite Ev; set_solver). rewrite E.
    destruct (cc_connectionID call) as [id|err|]; [|by split_and!; cbn; (done || lia)..].
    unfold closeSession, onSession. destruct (cl_session _) as [i|]; [|by split_and!; cbn; (done || lia)].
    unfold createNewSession. destruct (cc_newSession call _ _ _ _ _); cbn; (split_and!; cbn; rewrite ?length_app, ?length_alter; cbn; (done || lia)).
  - rewrite andb_false_r. left. destruct (cl_versionNegotiated c) eqn:En; cbn [andb negb].
    + apply onSession_same.
    + eapply same_version_trans; [|apply onSession_same]. by unfold same_version.
Qed.

Lemma event_version c c' : client_event c c' -> same_version c c' \/ switched c c'.
Proof.
  intros He. destruct He as [call c read c' r E|c i x x' Hi Hx|c c' E|c i err c' Hi E].
  - unfold listenIteration in E. destruct read as [[[addr packet] connection]|[err b]].
    + pose proof (client_handlePacketPLUS_version call c addr packet connection None) as Hv.
      destruct (client_handlePacketPLUS call c addr packet connection None) as [c1 [[]|e|]]; cbn [fst] in Hv.
      * by injection E as <- <-.
      * pose proof (onSession_same c1 (fun x => handler_Close x (Some e))) as Hs. unfold closeSession in E.
        destruct (onSession c1 _) as [c2 r2]. cbn [fst] in Hs.
        assert (c' = c2) as -> by (destruct r2; by injection E as <- <-).
        destruct Hv as [Hv|(H1 & H2 & H3 & H4 & H5)]; [left; by eapply same_version_trans|right].
        destruct Hs as (K1 & K2 & _ & _ & K5 & K6). unfold switched. rewrite K1, K2, K5. auto.
      * by injection E as <- <-.
    + left. destruct b; [by injection E as <- <-|]. unfold closeSession in E.
      pose proof (onSession_same c (fun x => handler_Close x (Some err))) as Hs.
      destruct (onSession c _) as [c2 r2]. cbn [fst] in Hs. destruct r2; by injection E as <- <-.
  - left. unfold same_version. cbn. by rewrite length_insert.
  - left. unfold startSession in E. destruct (cl_starting c); [done|]. destruct (cl_session c) eqn:Es; [|done].
    injection E as <-. unfold same_version. cbn. by rewrite Es.
  - left. unfold sessionReturned in E. case_decide; [by injection E as <-|].
    destruct (cl_errorChanClosed _); [done|]. by injection E as <-.
Qed.

Lemma negotiated_stays c c' : client_events c c' -> cl_versionNegotiated c = true -> same_version c c'.
Proof.
  induction 1 as [|c c' c'' _ IH He]; intros Hn; [by unfold same_version|]. specialize (IH Hn).
  destruct (event_version _ _ He) as [Hs|[Hs _]]; [by eapply same_version_trans|].
  destruct IH as (_ & _ & _ & _ & _ & Hn'). rewrite (Hn' Hn) in Hs. done.
Qed.

Lemma events_version c0 c :
  client_events c0 c -> cl_versionNegotiated c0 = false -> length (cl_objects c0) = 1%nat ->
  same_version c0 c \/
  (cl_versionNegotiated c = true /\ cl_config c = cl_config c0 /\ cl_version c ∈ cf_Versions (cl_config c0) /\
   (length (cl_objects c) <= 2)%nat).
Proof.
  induction 1 as [c|c0 c c' _ IH He]; intros N0 L0; [left; by unfold same_version|].
  destruct (event_version _ _ He) as [Hs|(S1 & S2 & S3 & S4 & S5)], (IH N0 L0) as [Hi|(I1 & I2 & I3 & I4)].
  - left. by eapply same_version_trans.
  - right. destruct Hs as (K1 & K2 & _ & _ & K5 & K6). rewrite K1, K2, K5. auto.
  - right. destruct Hi as (K1 & K2 & _ & _ & K5 & K6). rewrite S3, K1. rewrite K1 in S4. split_and!; [done..|lia].
  - congruence.
Qed.

(** The client's version is always one of its configuration, it changes at most once, and only
    before the server has sent a packet without the version flag; from then on, the version, the
    connection ID and the session stay the same. *)
Theorem client_switches_once call hostname connectionID config connection c0 c :
  createNewSession call (newClient hostname connectionID config) [] connection = (c0, Ok tt) ->
  client_events c0 c ->
  cl_version c ∈ cf_Versions (populateClientConfig config) /\ (length (cl_objects c) <= 2)%nat /\
  (cl_versionNegotiated c = false -> same_version c0 c) /\
  forall c', client_events c c' -> cl_versionNegotiated c = true -> same_version c c'.
Proof.
  intros E0 Hc.
  assert (cl_versionNegotiated c0 = false /\ cl_config c0 = populateClientConfig config /\ length (cl_objects c0) = 1%nat /\
    cl_version c0 ∈ cf_Versions (populateClientConfig config)) as (N0 & C0 & L0 & V0).
  { unfold createNewSession in E0. destruct (cc_newSession call _ _ _ _ _); [|done..]. injection E0 as <-.
    split_and!; [done..|]. cbn. unfold populateClientConfig. destruct (cf_Versions config); cbn; left. }
  pose proof (events_version c0 c Hc N0 L0) as Hinv.
  split_and!; [..|intros c'; by apply negotiated_stays].
  - destruct Hinv as [(K1 & K2 & _)|(_ & K1 & K2 & _)]; [by rewrite K2|by rewrite <- C0].
  - destruct Hinv as [(_ & _ & _ & _ & K & _)|(_ & _ & _ & K)]; [lia|done].
  - intros Hn. destruct Hinv as [Hi|[Hi _]]; [done|congruence].
Qed.
End client_theorems.

(** ** A client and a server *)

Section negotiation.
Context {T U Sc Ss : Type} `{PHc : PacketHandler Sc, PHs : PacketHandler Ss}.
Context (c : client (T := T) (S := Sc)) (s : server (T := U) (S := Ss)).
Context (ccall : clientCall (S := Sc)) (scall : serverCall (S := Ss)) (addr addr' : Z).
#[local] Abbreviation versions := (cf_Versions (srv_config s)).

(** A server's version negotiation packet, as the client handles it *)
Lemma negotiation_handled i id v x :
  cl_versionNegotiated c = false -> cl_session c = Some i -> 0 < cl_connectionID c < 2 ^ 64 ->
  Forall (fun v => 0 <= v < 1000) versions -> cl_version c ∉ versions ->
  ChooseSupportedVersion (cf_Versions (cl_config c)) versions = v -> v <> VersionUnsupported ->
  cc_connectionID ccall = Ok id -> cc_newSession ccall (cl_hostname c) v id versions None = Ok x ->
  client_handlePacketPLUS ccall c addr' (composeVersionNegotiation (cl_connectionID c) versions) None None =
    (cl_set_sessions (cl_set_version c true id v) (Some (length (cl_objects c)))
       (alter (fun y => handler_Close y (Some errCloseSessionForNewVersion)) i (cl_objects c) ++ [x])
       (S (cl_starting c)) (cl_running c), Ok tt).
Proof.
  intros Hn Hi Hid Hv Hnot Hch Hne Eid Ex. unfold client_handlePacketPLUS.
  rewrite version_negotiation_roundtrip by done. cbv zeta. cbn [setRaw ph_VersionFlag]. rewrite Hn. cbn [andb negb].
  unfold handlePacketWithVersionFlag. cbn [setRaw ph_SupportedVersions].
  assert (existsb (fun w => w =? cl_version c) versions = false) as ->.
  { apply not_true_is_false. intros (w & Hw & E%Z.eqb_eq)%existsb_exists. subst. apply Hnot. by apply list_elem_of_In. }
  rewrite Hch, (proj2 (Z.eqb_neq _ _)) by done. rewrite Eid. unfold closeSession, onSession.
  cbn [cl_set_version cl_session]. rewrite Hi. unfold createNewSession. cbn. rewrite Ex, length_alter. done.
Qed.

(** When the session has failed while such a packet is on its way, the new session closes the
    channel [errorChan] a second time as soon as it ends. *)
Lemma late_negotiation_panics i id v x err :
  cl_errorChanClosed c = true ->
  cl_versionNegotiated c = false -> cl_session c = Some i -> 0 < cl_connectionID c < 2 ^ 64 ->
  Forall (fun v => 0 <= v < 1000) versions -> cl_version c ∉ versions ->
  ChooseSupportedVersion (cf_Versions (cl_config c)) versions = v -> v <> VersionUnsupported ->
  cc_connectionID ccall = Ok id -> cc_newSession ccall (cl_hostname c) v id versions None = Ok x ->
  err <> errCloseSessionForNewVersion ->
  exists c1 c2 n,
    client_handlePacketPLUS ccall c addr' (composeVersionNegotiation (cl_connectionID c) versions) None None = (c1, Ok tt) /\
    startSession c1 = Some (Ok c2) /\ n ∈ cl_running c2 /\ sessionReturned c2 n err = Panic.
Proof.
  intros Hcl Hn Hi Hid Hv Hnot Hch Hne Eid Ex Herr.
  eexists _, _, (length (cl_objects c)). split; [by apply (negotiation_handled i id v x)|].
  split; [reflexivity|]. split; [set_solver|]. unfold sessionReturned. rewrite decide_False by done. cbn. by rewrite Hcl.
Qed.

(** C22: a client that offers a version which the server does not support, but has another one in
    common with it, gets a version negotiation packet for its first packet; it closes its session
    and starts a new one, under a new connection ID, with the version that it prefers among
    those of the server, and the next packet with that version opens a session of the server. *)
Theorem version_negotiation_completes h payload i id x :
  cf_UsePLUS (srv_config s) = false -> sc_write scall = Ok tt -> Forall (fun v => 0 <= v < 1000) versions ->
  header_ok PerspectiveClient h -> ph_VersionFlag h = true -> ph_ConnectionID h = cl_connectionID c ->
  ph_VersionNumber h = cl_version c -> ClientHelloMinimumSize <= len payload ->
  tb_sessions (srv_table s) !! cl_connectionID c = None -> cl_version c ∉ versions ->
  cl_versionNegotiated c = false -> cl_session c = Some i -> (exists v, v ∈ cf_Versions (cl_config c) /\ v ∈ versions) ->
  let v := ChooseSupportedVersion (cf_Versions (cl_config c)) versions in
  cc_connectionID ccall = Ok id -> cc_newSession ccall (cl_hostname c) v id versions None = Ok x ->
  exists s1 reply c1,
    handlePacketPLUS scall s addr (clientPacket h payload) None None = (s1, Ok tt) /\
    srv_table s1 = srv_table s /\ srv_out s1 = srv_out s ++ [WriteTo addr reply] /\
    client_handlePacketPLUS ccall c addr' reply None None = (c1, Ok tt) /\
    cl_version c1 = v /\ v ∈ cf_Versions (cl_config c) /\ v ∈ versions /\ cl_connectionID c1 = id /\
    cl_session c1 = Some (length (cl_objects c)) /\ cl_objects c1 !! length (cl_objects c) = Some x /\
    forall h' payload' y,
      header_ok PerspectiveClient h' -> ph_VersionFlag h' = true -> ph_ConnectionID h' = id -> ph_VersionNumber h' = v ->
      tb_sessions (srv_table s) !! id = None -> sc_newSession scall addr v id None = Ok y ->
      exists s2 n, handlePacketPLUS scall s1 addr (clientPacket h' payload') None None = (s2, Ok tt) /\
        tb_sessions (srv_table s2) !! id = Some (Some n) /\
        tb_objects (srv_table s2) !! n = Some (handler_handlePacket y (packetFrom scall addr h' payload' None)).
Proof.
  intros Hplus Hw Hvs Hok Hvf Hid Hver Hlen Hnone Hnot Hneg Hi Hcommon v Eid Ex.
  assert (ph_ResetFlag h = false) as Hr.
  { pose proof (hok_flags _ _ Hok) as Hf. rewrite Hvf in Hf. by destruct (ph_ResetFlag h). }
  assert (0 < cl_connectionID c < 2 ^ 64) as Hrange.
  { rewrite <- Hid. apply (hok_connID _ _ Hok). pose proof (hok_truncate _ _ Hok) as Ht.
    destruct (ph_TruncateConnectionID h); [by specialize (Ht eq_refl)|done]. }
  assert (v ∈ cf_Versions (cl_config c) /\ v ∈ versions) as [Hv1 Hv2].
  { destruct (choose_supported_version_best (cf_Versions (cl_config c)) versions)
      as [(before & w & after & Ew & Hin & _ & E)|[Hall _]].
    - subst v. rewrite E, Ew. split; [set_solver|by apply list_elem_of_In].
    - destruct Hcommon as (w & W1 & W2). rewrite Forall_forall in Hall. destruct (Hall w W1). by apply list_elem_of_In. }
  assert (v <> VersionUnsupported) as Hne.
  { rewrite Forall_forall in Hvs. pose proof (Hvs v Hv2). unfold VersionUnsupported. lia. }
  pose proof (negotiation_handled i id v x Hneg Hi Hrange Hvs Hnot eq_refl Hne Eid Ex) as Ec.
  eexists _, _, _. split; [rewrite negotiation_sent by (done || congruence); unfold sendReply, writeTo, writeDatagram;
    rewrite Hplus; cbn [negb]; rewrite Hw; reflexivity|].
  split; [done|]. split; [done|]. rewrite Hid. split; [exact Ec|]. cbn [cl_version cl_connectionID cl_session cl_objects cl_set_sessions cl_set_version].
  do 5 (split; [done|]). split; [rewrite lookup_app_r, length_alter by (by rewrite length_alter); by rewrite Nat.sub_diag|].
  intros h' payload' y Hok' Hvf' Hid' Hver' Hnone' Ey.
  assert (ph_ResetFlag h' = false) as Hr'.
  { pose proof (hok_flags _ _ Hok') as Hf. rewrite Hvf' in Hf. by destruct (ph_ResetFlag h'). }
  eexists _, _. split; [rewrite dispatched; [rewrite Hid', Hver', Hvf'; cbn [srv_table]; rewrite Hnone', Ey; reflexivity|done..|]|].
  { intros _. rewrite Hver'. by apply IsSupportedVersion_elem. }
  cbn. rewrite lookup_insert_eq. split; [done|]. by rewrite lookup_app_r, Nat.sub_diag.
Qed.
End negotiation.
