(* ===== verification/EndpointSamples.v ===== *)
(** * A concrete server and client

    The theorems of Server.v and Client.v on a server and a client whose sessions are those of
    SessionSamples.v. *)

From S2P Require Import Prelude Protocol Qerr Wire Handshake PublicHeader SendAlgorithm Session SessionSamples CryptoSetupServer Server Client.

#[local] Existing Instance fixedWindow.

Definition serverConfig : Config unit := mkConfig tt [36; 37] false false.
Definition clientConfig : Config unit := mkConfig tt [35; 37] false false.
Definition listener0 : server (T := unit) (S := session) := Listen serverConfig.
Definition serverCall0 : serverCall (S := session) := mkServerCall 5 (Ok tt) (fun _ _ _ _ => Ok (session0 10)).
Definition clientCall0 : clientCall (S := session) := mkClientCall 5 (Ok 43) (fun _ _ _ _ _ => Ok (session0 10)).

(** A first packet of connection [id], with version [v] *)
Definition firstHeader (id v : Z) : PublicHeader := mkPublicHeader [] id true false false 1 1 v [] [].
Definition firstPayload : list Z := replicate 1100 0.

Lemma firstHeader_ok id v : 0 < id < 2 ^ 64 -> 0 <= v < 1000 -> header_ok PerspectiveClient (firstHeader id v).
Proof. intros. constructor; cbn; try done; [by left|by left]. Qed.

(** The server with a session, and after the session has been closed *)
Definition listener1 : server (T := unit) (S := session) :=
  (handlePacketPLUS serverCall0 listener0 7 (clientPacket (firstHeader 42 37) firstPayload) None None).1.

Lemma server_table_consistent_witness :
  exists d, (42, d) ∈ tb_timers (srv_table (removeConnection listener1 42 0 100)).
Proof.
  apply (to_timers _ _ _ (server_table_consistent (fun _ _ => False) serverConfig (removeConnection listener1 42 0 100) []
    (run_event _ _ listener1 _ [] None
       (run_event _ _ listener0 _ [] None (run_listen _ serverConfig)
          (event_packet _ serverCall0 listener0 7 (clientPacket (firstHeader 42 37) firstPayload) None None))
       (event_closed _ listener1 42 0 100 ltac:(vm_compute; left))))).
  vm_compute. reflexivity.
Defined.

Lemma packet_dispatched_witness :
  handlePacketPLUS serverCall0 listener1 7 (clientPacket (firstHeader 42 37) firstPayload) None None =
    (set_objects listener1 (alter (fun x => handlePacket x (packetFrom serverCall0 7 (firstHeader 42 37) firstPayload None)) 0%nat
       (tb_objects (srv_table listener1))), Ok tt).
Proof.
  rewrite (proj1 (packet_dispatched serverCall0 listener1 7 None None) (firstHeader 42 37) firstPayload).
  - assert (tb_sessions (srv_table listener1) !! ph_ConnectionID (firstHeader 42 37) = Some (Some 0%nat)) as -> by (vm_compute; reflexivity).
    reflexivity.
  - apply firstHeader_ok; lia.
  - reflexivity.
  - intros _. vm_compute. reflexivity.
Defined.

Definition dialer0 : client (T := unit) (S := session) :=
  (createNewSession clientCall0 (newClient [104] 42 clientConfig) [] None).1.

Lemma client_switches_once_witness : cl_version dialer0 ∈ [35; 37].
Proof.
  apply (client_switches_once (fun _ _ => False) clientCall0 [104] 42 clientConfig None dialer0 dialer0 eq_refl
    (cl_events_refl _ dialer0)).
Defined.

Lemma version_negotiation_completes_witness :
  exists s1 reply c1,
    handlePacketPLUS serverCall0 listener0 7 (clientPacket (firstHeader 42 35) firstPayload) None None = (s1, Ok tt) /\
    srv_out s1 = [WriteTo 7 reply] /\
    client_handlePacketPLUS clientCall0 dialer0 8 reply None None = (c1, Ok tt) /\ cl_version c1 = 37.
Proof.
  destruct (version_negotiation_completes dialer0 listener0 clientCall0 serverCall0 7 8 (firstHeader 42 35) firstPayload 0 43 (session0 10))
    as (s1 & reply & c1 & E1 & _ & E2 & E3 & E4 & _).
  - reflexivity.
  - reflexivity.
  - repeat constructor; vm_compute; congruence.
  - apply firstHeader_ok; lia.
  - reflexivity.
  - reflexivity.
  - reflexivity.
  - vm_compute. congruence.
  - reflexivity.
  - vm_compute. set_solver.
  - reflexivity.
  - reflexivity.
  - exists 37. vm_compute. set_solver.
  - reflexivity.
  - reflexivity.
  - exists s1, reply, c1. split; [exact E1|]. split; [exact E2|]. split; [exact E3|]. rewrite E4. vm_compute. reflexivity.
Defined.
