(* ===== verification/CryptoHello.v ===== *)
(** * The client's hellos on the wire

    The length and the bytes of a written handshake message, and what the server finds in a
    hello of the client: it parses, it is long enough, and it has the client's parameters. *)

From S2P Require Import Prelude Protocol Qerr Wire Handshake Crypto CertDict Certs CertManager ServerConfig PacketUnpacker PacketPacker.
From S2P Require Import PublicHeader CryptoSetupServer CryptoSetupClient.

(** ** Written messages *)

Lemma writePairs_len data tags off :
  len (writePairs data tags off).1 = 8 * len tags /\
  len (writePairs data tags off).2 = foldr (fun t n => n + len (default [] (data !! t))) 0 tags.
Proof.
  revert off; induction tags as [|t tags IH]; intros off; [done|]. cbn [writePairs foldr].
  specialize (IH (u32 (off + u32 (len (default [] (data !! t)))))).
  destruct (writePairs data tags _) as [i v]. cbn [fst snd] in *. destruct IH as [H1 H2].
  autorewrite with quic_len. rewrite H1, H2. lia.
Qed.

Lemma writePairs_bytes data tags off :
  map_Forall (fun _ v => bytes_ok v) data ->
  bytes_ok (writePairs data tags off).1 /\ bytes_ok (writePairs data tags off).2.
Proof.
  intros Hd. revert off; induction tags as [|t tags IH]; intros off; [by split; constructor|].
  cbn [writePairs]. specialize (IH (u32 (off + u32 (len (default [] (data !! t)))))).
  destruct (writePairs data tags _) as [i v]. cbn [fst snd] in *. destruct IH as [H1 H2].
  rewrite !bytes_ok_app. split_and!; try done; try apply le_bytes_ok.
  by apply data_ok_default.
Qed.

Lemma foldr_perm_sum {A} (f : A -> Z) l k :
  l ≡ₚ k -> foldr (fun x n => n + f x) 0 l = foldr (fun x n => n + f x) 0 k.
Proof. induction 1; cbn; lia. Qed.

(** The length of a message on the wire *)
Lemma len_HandshakeMessage_Write tag data :
  len (HandshakeMessage_Write (mkHandshakeMessage tag data) []) = 8 + tagsSize data.
Proof.
  unfold HandshakeMessage_Write. autorewrite with quic_write.
  pose proof (writePairs_len data (getTagsSorted (mkHandshakeMessage tag data)) 0) as [H1 H2].
  cbn [hm_Data]. destruct (writePairs _ _ _) as [i v]. cbn [fst snd] in *.
  autorewrite with quic_len. rewrite H1, H2.
  assert (len (getTagsSorted (mkHandshakeMessage tag data)) = len (map fst (map_to_list data))) as El
    by (unfold len; by rewrite getTagsSorted_perm).
  rewrite El, (foldr_perm_sum (fun t => len (default [] (data !! t))) _ _ (getTagsSorted_perm _)).
  cbn [hm_Data]. unfold tagsSize.
  assert (forall l, (forall t v, (t, v) ∈ l -> data !! t = Some v) ->
    8 * len (map fst l) + foldr (fun t n => n + len (default [] (data !! t))) 0 (map fst l) =
    foldr (fun '(_, tag) size => size + (8 + len tag)) 0 l) as Hsum.
  { induction l as [|[t v0] l IH]; intros Hl; [done|]. cbn [map foldr fst]. rewrite len_cons.
    rewrite (Hl t v0) by left. change (default [] (Some v0)) with v0.
    rewrite <- IH by (intros; apply Hl; by right). lia. }
  rewrite <- Hsum by (intros t v0; apply elem_of_map_to_list). lia.
Qed.

Lemma HandshakeMessage_Write_bytes tag data :
  map_Forall (fun _ v => bytes_ok v) data -> bytes_ok (HandshakeMessage_Write (mkHandshakeMessage tag data) []).
Proof.
  intros Hd. unfold HandshakeMessage_Write. autorewrite with quic_write.
  pose proof (writePairs_bytes data (getTagsSorted (mkHandshakeMessage tag data)) 0 Hd) as [H1 H2].
  cbn [hm_Data]. destruct (writePairs _ _ _). cbn [fst snd] in *. rewrite !bytes_ok_app.
  split_and!; try done; try apply le_bytes_ok. constructor.
Qed.

Lemma message_parsed tag data :
  is_u32 tag -> (size data <= 128)%nat -> map_Forall param_ok data ->
  ParseHandshakeMessage (HandshakeMessage_Write (mkHandshakeMessage tag data) []) =
    Ok (mkHandshakeMessage tag data, []).
Proof.
  intros. rewrite <- (app_nil_r (HandshakeMessage_Write _ _)). by apply message_roundtrip, message_wf.
Qed.

(** The bytes of a map with one more parameter *)
Lemma tagsSize_insert t v (m : gmap Z (list Z)) :
  m !! t = None -> tagsSize (<[t := v]> m) = tagsSize m + (8 + len v).
Proof.
  intros Hm. unfold tagsSize.
  assert (forall l k : list (Z * list Z), l ≡ₚ k ->
    foldr (fun '(_, tag) size => size + (8 + len tag)) 0 l = foldr (fun '(_, tag) size => size + (8 + len tag)) 0 k) as Hperm
    by (induction 1; cbn; repeat match goal with x : Z * list Z |- _ => destruct x end; lia).
  rewrite (Hperm _ _ (map_to_list_insert m t v Hm)). done.
Qed.

(** A hello with its padding is at least as long as the server asks for. *)
Lemma padded_hello_size (tags : gmap Z (list Z)) :
  tags !! TagPAD = None ->
  ClientHelloMinimumSize <= len (HandshakeMessage_Write (mkHandshakeMessage TagCHLO (addPadding tags)) []).
Proof.
  intros Hp. rewrite len_HandshakeMessage_Write. unfold addPadding. rewrite Z.gtb_ltb.
  destruct (Z.ltb_spec 0 (ClientHelloMinimumSize - tagsSize tags)); [|lia].
  rewrite tagsSize_insert by done. unfold len. rewrite length_replicate. lia.
Qed.

(** ** The client's hellos *)

Lemma param_insert_if (b : bool) t v (m : gmap Z (list Z)) :
  is_u32 t -> bytes_ok v /\ len v <= CryptoParameterMaxLength -> map_Forall param_ok m ->
  map_Forall param_ok (if b then <[t := v]> m else m).
Proof. intros. destruct b; [by apply param_insert|done]. Qed.

Lemma size_insert_if (b : bool) (t : Z) (v : list Z) (m : gmap Z (list Z)) :
  (size (if b then <[t := v]> m else m) <= S (size m))%nat.
Proof. destruct b; [apply size_insert_le|lia]. Qed.

Lemma lookup_if_ne (b : bool) (t k : Z) (v : list Z) (m : gmap Z (list Z)) :
  t <> k -> (if b then <[t := v]> m else m) !! k = m !! k.
Proof. intros. destruct b; [by rewrite lookup_insert_ne|done]. Qed.

Lemma lookup_if_default t (v : list Z) (m : gmap Z (list Z)) :
  m !! t = None -> default [] ((if len v >? 0 then <[t := v]> m else m) !! t) = v.
Proof.
  intros Hm. destruct v as [|x v]; [change (len (@nil Z) >? 0) with false; cbv iota; by rewrite Hm|]. rewrite len_cons, Z.gtb_ltb.
  rewrite (proj2 (Z.ltb_lt _ _)) by (pose proof (len_nonneg v); lia). by rewrite lookup_insert_eq.
Qed.

(** Counts the parameters that are inserted, some of them conditionally. *)
Ltac tags_size :=
  repeat match goal with
  | |- (size (if ?b then <[?t := ?v]> ?m else ?m) <= _)%nat =>
      eapply Nat.le_trans; [exact (size_insert_if b t v m)|apply le_n_S]
  | |- (size (<[?t := ?v]> ?m) <= _)%nat =>
      eapply Nat.le_trans; [exact (size_insert_le t v m)|apply le_n_S]
  end.

(** Looks a tag up in a map of insertions. *)
Ltac tags_lookup :=
  repeat first [rewrite lookup_insert_eq | rewrite lookup_insert_ne by discriminate
               | rewrite lookup_if_ne by discriminate].

Section hellos.
Context `{Fn : Fnv128a, Ae : Aes12, Hk : Hkdf, Cu : Curve25519, CuL : !Curve25519Laws Cu} {M : Type} `{CM : CertManager M}.
#[local] Abbreviation client := (cryptoSetupClient (M := M)).

Definition short (v : list Z) : Prop := bytes_ok v /\ len v <= CryptoParameterMaxLength.

Record hello_fits (h : client) : Prop := {
  hf_host : short (csc_hostname h);
  hf_ccs : short (GetCommonCertificateHashes (csc_certManager h));
  hf_stk : short (csc_stk h);
  hf_sno : short (csc_sno h);
  hf_nonc : short (csc_nonc h);
  hf_config : forall c, csc_serverConfig h = Some c -> client_config_ok (scc_raw c) c;
}.

Lemma short_literal l :
  forallb (fun b => (0 <=? b) && (b <? 256)) l && (length l <=? 100)%nat = true -> short l.
Proof.
  intros [Hb Hl%Nat.leb_le]%andb_true_iff. split; [by apply bytes_ok_check|].
  unfold len, CryptoParameterMaxLength. lia.
Qed.
Lemma short_le n i : (n <= 100)%nat -> short (le_bytes n i).
Proof. intros. split; [apply le_bytes_ok|]. rewrite len_le_bytes. unfold CryptoParameterMaxLength. lia. Qed.
Lemma short_of v n : bytes_ok v -> len v = n -> n <= 100 -> short v.
Proof. intros. split; [done|]. unfold CryptoParameterMaxLength. lia. Qed.
Hint Resolve short_le : core.

Lemma GetHelloMap_fits cp : map_Forall param_ok (GetHelloMap cp) /\ (size (GetHelloMap cp) <= 5)%nat.
Proof.
  unfold GetHelloMap. autorewrite with quic_write. split.
  - repeat (apply param_insert; [by vm_compute| |]); [apply short_le; lia..|apply map_Forall_empty].
  - tags_size. by rewrite map_size_empty.
Qed.

Lemma getTags_fits h : hello_fits h -> map_Forall param_ok (getTags h) /\ (size (getTags h) <= 18)%nat.
Proof.
  intros []. unfold getTags. cbv zeta.
  set (m := if csc_requestTruncation h then _ else _).
  assert (map_Forall param_ok m /\ (size m <= 10)%nat) as [Hm Hs].
  { subst m. destruct (GetHelloMap_fits (csc_connectionParameters h)) as [H1 H2]. split.
    - apply param_insert_if; [by vm_compute|by apply short_literal|].
      apply param_insert; [by vm_compute|apply short_le; lia|]. apply param_insert_if; [by vm_compute|done|].
      apply param_insert; [by vm_compute|by apply short_literal|]. by apply param_insert; [by vm_compute| |].
    - tags_size. done. }
  clearbody m.
  set (m2 := if len (csc_sno h) >? 0 then _ else _).
  assert (map_Forall param_ok m2 /\ (size m2 <= 12)%nat) as [Hm2 Hs2].
  { subst m2. split.
    - apply param_insert_if; [by vm_compute|done|]. by apply param_insert_if; [by vm_compute| |].
    - tags_size. done. }
  clearbody m2. unfold configTags. destruct (csc_serverConfig h) as [c|] eqn:Ec; [|split; [done|lia]].
  destruct (hf_config0 c eq_refl). destruct cco_ID as [L1 B1].
  assert (map_Forall param_ok (<[TagSCID := scc_ID c]> m2)) as H3
    by (apply param_insert; [by vm_compute|by eapply short_of|done]).
  assert (size (<[TagSCID := scc_ID c]> m2) <= 13)%nat as H4
    by (eapply Nat.le_trans; [apply size_insert_le|lia]).
  destruct (ManagerLeafCert _); [|split; [done|lia]]. destruct (len_PublicKey _ cco_kex) as [L2 B2]. split.
  - repeat (apply param_insert; [by vm_compute| |]); [by apply (short_of _ 32)|by apply short_literal|
      by apply short_literal|apply short_le; lia|done|by apply (short_of _ 16)|done].
  - tags_size. lia.
Qed.

Lemma getTags_PAD h : getTags h !! TagPAD = None.
Proof.
  unfold getTags, configTags. cbv zeta.
  assert (GetHelloMap (csc_connectionParameters h) !! TagPAD = None) as E by (unfold GetHelloMap; tags_lookup; done).
  destruct (csc_serverConfig h); [destruct (ManagerLeafCert _)|]; tags_lookup; exact E.
Qed.

Lemma addPadding_lookup tags k : k <> TagPAD -> addPadding tags !! k = tags !! k.
Proof. intros. unfold addPadding. by apply lookup_if_ne. Qed.

Definition hello_bytes (h : client) : list Z :=
  HandshakeMessage_Write (mkHandshakeMessage TagCHLO (addPadding (getTags h))) [].

(** The server parses the hello, and finds it long enough. *)
Lemma hello_parsed h :
  hello_fits h ->
  ParseHandshakeMessage (hello_bytes h) = Ok (mkHandshakeMessage TagCHLO (addPadding (getTags h)), []) /\
  ClientHelloMinimumSize <= len (hello_bytes h) /\ data_ok (addPadding (getTags h)).
Proof.
  intros Hf. destruct (getTags_fits h Hf) as [Hp Hs].
  assert (map_Forall param_ok (addPadding (getTags h))) as Hpad.
  { unfold addPadding. apply param_insert_if; [by vm_compute| |done]. split; [apply bytes_ok_zeros|].
    unfold len. rewrite length_replicate. unfold CryptoParameterMaxLength, ClientHelloMinimumSize.
    assert (0 <= tagsSize (getTags h)); [|lia]. unfold tagsSize.
    induction (map_to_list (getTags h)) as [|[t v] l IH]; cbn; [lia|]. pose proof (len_nonneg v). lia. }
  split_and!.
  - apply message_parsed; [by vm_compute| |done]. unfold addPadding.
    eapply Nat.le_trans; [apply size_insert_if|]. lia.
  - apply padded_hello_size, getTags_PAD.
  - intros t v E. by destruct (Hpad t v E) as (_ & ? & _).
Qed.

(** What the server finds in the hello *)
Lemma hello_tags h :
  let T := addPadding (getTags h) in
  T !! TagFHL2 = None /\ T !! TagSNI = Some (csc_hostname h) /\
  T !! TagVER = Some (le_bytes 4 (VersionNumberToTag (csc_version h))) /\
  default [] (T !! TagCCS) = GetCommonCertificateHashes (csc_certManager h) /\ T !! TagCCRT = None /\
  default [] (T !! TagSTK) = csc_stk h /\
  T !! TagPUBS = match csc_serverConfig h, ManagerLeafCert (csc_certManager h) with
                 | Some c, Some _ => Some (PublicKey (scc_kex c)) | _, _ => None end.
Proof.
  cbv zeta. rewrite !addPadding_lookup by discriminate. unfold getTags, configTags. cbv zeta.
  assert (forall t, t ∈ [TagFHL2; TagCCS; TagCCRT; TagSTK; TagPUBS] ->
    GetHelloMap (csc_connectionParameters h) !! t = None) as E.
  { intros t Ht. unfold GetHelloMap. repeat (apply elem_of_cons in Ht as [-> | Ht]; [tags_lookup; done|]).
    by apply elem_of_nil in Ht. }
  destruct (csc_serverConfig h); [destruct (ManagerLeafCert _)|]; split_and!; tags_lookup;
    first [done | apply E; set_solver | rewrite lookup_if_default; [done|tags_lookup; apply E; set_solver]].
Qed.

(** The hello of a client with a server config and a certificate *)
Lemma full_hello_tags h c leaf :
  csc_serverConfig h = Some c -> ManagerLeafCert (csc_certManager h) = Some leaf ->
  let T := addPadding (getTags h) in
  T !! TagSCID = Some (scc_ID c) /\
  T !! TagXLCT = Some (le_bytes 8 (match GetLeafCertHash (csc_certManager h) with Ok x => x | _ => 0 end)) /\
  T !! TagNONC = Some (csc_nonc h) /\ T !! TagAEAD = Some (bytes_of "AESG") /\ T !! TagKEXS = Some (bytes_of "C255").
Proof.
  intros Ec El. cbv zeta. rewrite !addPadding_lookup by discriminate. unfold getTags, configTags. rewrite Ec, El.
  split_and!; tags_lookup; done.
Qed.

(** The connection parameters of the hello are those of the client's hello map. *)
Lemma hello_parameters h t :
  csc_requestTruncation h = false -> t ∈ [TagTCID; TagMSPC; TagMIDS; TagICSL; TagSFCW; TagCFCW] ->
  addPadding (getTags h) !! t = GetHelloMap (csc_connectionParameters h) !! t.
Proof.
  intros Et Ht. unfold getTags, configTags. rewrite Et.
  repeat (apply elem_of_cons in Ht as [-> | Ht];
    [rewrite addPadding_lookup by discriminate;
     destruct (csc_serverConfig h); [destruct (ManagerLeafCert _)|]; tags_lookup; done|]).
  by apply elem_of_nil in Ht.
Qed.
End hellos.

(** ** The versions of the server hello *)

Section versions.
Context `{Fn : Fnv128a, Ae : Aes12, Hk : Hkdf, Cu : Curve25519} {M : Type} `{CM : CertManager M}.

Lemma versionListMatches_tags versions rest :
  Forall (fun v => 0 <= v < 1000) versions ->
  versionListMatches versions (concat (map (fun v => le_bytes 4 (VersionNumberToTag v)) versions) ++ rest) =
  forallb (IsSupportedVersion SupportedVersions) versions.
Proof.
  induction 1 as [|v versions Hv _ IH]; [done|]. cbn [map concat versionListMatches forallb].
  destruct (version_tag_roundtrip v Hv) as [Hu Hr]. rewrite <- app_assoc, ReadUint32_le, u32_small, Hr by done.
  destruct (IsSupportedVersion SupportedVersions v); cbn [negb andb].
  - by rewrite Z.eqb_refl.
  - rewrite (proj2 (Z.eqb_neq _ _)) by (unfold VersionUnsupported; lia). done.
Qed.

(** After a version negotiation, the client compares the versions of the server hello with those
    of the version negotiation packet.  An honest server sends the same list twice, and the
    client takes this for a downgrade attack exactly when the list has a version that the
    client does not know. *)
Theorem unknown_version_looks_like_downgrade (h : cryptoSetupClient (M := M)) versions :
  csc_negotiatedVersions h = versions -> versions <> [] -> Forall (fun v => 0 <= v < 1000) versions ->
  ParsePublicHeader (composeVersionNegotiation 1 versions) PerspectiveServer =
    Ok (mkPublicHeader [] 1 true false false 0 0 0 (csc_negotiatedVersions h) [], []) /\
  validateVersionList h (versionTags versions) = forallb (IsSupportedVersion SupportedVersions) versions.
Proof.
  intros En Hne Hv. rewrite En. split; [by apply version_negotiation_roundtrip|].
  unfold validateVersionList, versionTags. rewrite En, write_versions, app_nil_l, len_version_tags.
  destruct (Z.eqb_spec (len versions) 0) as [E|_]; [by apply len_zero in E|].
  rewrite (Z.mul_comm 4), Z.mod_mul, Z.div_mul, !Z.eqb_refl by lia. cbn [negb orb].
  rewrite <- (app_nil_r (concat _)). by apply versionListMatches_tags.
Qed.
End versions.
