(* ===== verification/CryptoHandshake.v ===== *)
(** * The handshake of a client and a server

    The two crypto setups run against each other: three hellos of the client, two rejections
    and the server hello.  The certificate chain and the certificate manager are used through
    their interfaces and [CertExchange]. *)

From S2P Require Import Prelude Protocol Qerr Wire Handshake Crypto CertDict Certs CertManager ServerConfig PacketUnpacker PacketPacker.
From S2P Require Import PublicHeader CryptoSetupServer CryptoSetupClient CryptoHello.

(** ** The run of a handshake *)

(** Computations on one of the two parties *)
Definition on_fst {S T A} (m : SR S A) : SR (S * T) A := fun '(s, t) =>
  let '(s, r) := m s in ((s, t), r).
Definition on_snd {S T A} (m : SR T A) : SR (S * T) A := fun '(s, t) =>
  let '(t, r) := m t in ((s, t), r).

Section run.
Context `{Fn : Fnv128a, Ae : Aes12, Hk : Hkdf, Cu : Curve25519, Gc : StkGCM} {CC : Type} `{CH : CertChain CC} {M : Type} `{CM : CertManager M}.
#[local] Abbreviation client := (cryptoSetupClient (M := M)).
#[local] Abbreviation server := (cryptoSetupServer (CC := CC)).

(** The client reads a message of the crypto stream. *)
Definition client_reads (env : clientEnv) (b : list Z) : SR client unit :=
  match ParseHandshakeMessage b with
  | Ok (message, _) => clientIteration env (EvMessage message)
  | Err e => clientIteration env (EvError e)
  | Panic => sr_lift Panic
  end.

(** The server reads the client's last hello; the result is whether its loop has ended. *)
Definition server_reads (env : serverEnv) : SR (client * server) bool :=
  sr_with (fun '(c, _) =>
  do! more := on_snd (serverIteration env (csc_lastSentCHLO c)) in
  sr_ret (match more with None => true | Some _ => false end)).

Definition reply (s : server) : list Z := default [] (last (css_cryptoStream s)).

(** A rejected hello: the client reads the rejection and sends its next hello. *)
Definition rejectedHello (senv : serverEnv) (cenv : clientEnv) : SR (client * server) bool :=
  do! finished := server_reads senv in
  sr_with (fun '(_, s) => on_fst (client_reads cenv (reply s))) ;;!
  sr_ret finished.

(** The hello that the server accepts: the server sends a packet with its diversification nonce
    and the server hello, which the client can open once it has the nonce. *)
Definition acceptedHello (senv : serverEnv) (cenv : clientEnv) (payload : list Z) (packetNumber : Z)
    (associatedData : list Z) : SR (client * server) (bool * (list Z * Z)) :=
  do! finished := server_reads senv in
  do! packet := on_snd (fun s =>
    let '(level, seal) := server_GetSealer s in
    (sealed s level, Ok (seal payload packetNumber associatedData))) in
  sr_with (fun '(_, s) => on_fst (clientIteration cenv (EvDivNonce (css_diversificationNonce s)))) ;;!
  do! opened := on_fst (fun c => client_Open c packet packetNumber associatedData) in
  sr_with (fun '(_, s) => on_fst (client_reads cenv (reply s))) ;;!
  sr_ret (finished, opened).

(** Three hellos *)
Definition handshake (c0 c1 c2 c3 : clientEnv) (s1 s2 s3 : serverEnv) (payload : list Z) (packetNumber : Z)
    (associatedData : list Z) : SR (client * server) (bool * bool * bool * (list Z * Z)) :=
  on_fst (client_prepare c0) ;;!
  do! f1 := rejectedHello s1 c1 in
  do! f2 := rejectedHello s2 c2 in
  do! (f3, opened) := acceptedHello s3 c3 payload packetNumber associatedData in
  sr_ret (f1, f2, f3, opened).
End run.

Lemma sr_step {S A B} (m : SR S A) (k : A -> SR S B) s s' a : m s = (s', Ok a) -> sr_bind m k s = k a s'.
Proof. intros E. unfold sr_bind. by rewrite E. Qed.

Lemma len_pos {A} (l : list A) : l <> [] -> (len l >? 0) = true.
Proof. destruct l; [done|]. intros _. rewrite len_cons, Z.gtb_ltb. apply Z.ltb_lt. pose proof (len_nonneg l). lia. Qed.

(** ** The client during the handshake *)

Section stages.
Context `{Fn : Fnv128a, Ae : Aes12, Hk : Hkdf, Cu : Curve25519} {M : Type} `{CM : CertManager M}.
Context (host : list Z) (connID v : Z).
#[local] Abbreviation client := (cryptoSetupClient (M := M)).

(** A client without keys, whose server has not sent a nonce *)
Definition stage stream config stk nonc proof signed sent m n verified : client :=
  mkCryptoSetupClient host connID v [] stream config stk [] nonc proof signed sent m [] n verified false
    (NewNullAEAD PerspectiveClient v) None None (mkLevelChan [] false) false
    (NewConnectionParamatersManager PerspectiveClient v).

Lemma stage_prepare env stream config stk nonc proof signed sent m n verified :
  ce_write env = Ok tt -> n + 1 <= MaxClientHellos ->
  let b := hello_bytes (stage stream config stk nonc proof signed sent m (n + 1) verified) in
  client_prepare env (stage stream config stk nonc proof signed sent m n verified) =
    (stage (stream ++ [b]) config stk nonc proof signed b m (n + 1) verified, Ok tt).
Proof.
  intros Hw Hn b. unfold client_prepare.
  erewrite sr_step; cycle 1.
  { unfold maybeUpgradeCrypto, sr_with. cbn [stage csc_serverVerified csc_secureAEAD csc_serverConfig].
    destruct verified; [|reflexivity]. destruct config; [|reflexivity].
    change (len (csc_diversificationNonce _) >? 0) with false. rewrite andb_false_r. reflexivity. }
  unfold sendCHLO, sr_with at 1. cbn [stage csc_secureAEAD].
  erewrite sr_step; [|reflexivity]. unfold sr_with.
  change (csc_clientHelloCounter (csc_set_counter _ _)) with (n + 1).
  rewrite Z.gtb_ltb, (proj2 (Z.ltb_ge _ _)) by lia. cbv zeta.
  erewrite sr_step; [|unfold sr_lift; rewrite Hw; reflexivity]. reflexivity.
Qed.

(** The client nonce once the client has a server config *)
Definition nonceAfter (env : clientEnv) (c : serverConfigClient) (rand nonc : list Z) : list Z :=
  if len nonc =? 0 then be_bytes 4 (u32 (Unix (ce_now env))) ++ scc_obit c ++ rand else nonc.

Lemma stage_config env c rand raw stream config stk nonc proof signed sent m n verified :
  parseServerConfig raw (ce_randKex env) = Ok c -> IsExpired c (ce_now env) = false ->
  ce_randNonce env = Ok rand -> len (scc_obit c) = 8 ->
  handleSCFG env raw (stage stream config stk nonc proof signed sent m n verified) =
    (stage stream (Some c) stk (nonceAfter env c rand nonc) proof signed sent m n verified, Ok tt).
Proof.
  intros Ep Ex Er Ho. unfold handleSCFG, nonceAfter. rewrite Ep.
  erewrite sr_step; [|reflexivity]. rewrite Ex. unfold sr_with.
  cbn [stage csc_set_config csc_nonc]. destruct (Z.eqb_spec (len nonc) 0) as [E|]; [|reflexivity].
  apply len_zero in E as ->. unfold generateClientNonce, sr_with.
  cbn [stage csc_set_config csc_nonc csc_serverConfig]. change (len (@nil Z) >? 0) with false.
  rewrite Ho. cbn [Z.eqb Pos.eqb negb]. erewrite sr_step; [|unfold sr_lift; rewrite Er; reflexivity]. reflexivity.
Qed.

(** A rejection with a token and a server config *)
Lemma stage_rejected env c rand raw data token stream config stk nonc proof signed sent m n verified :
  parseServerConfig raw (ce_randKex env) = Ok c -> IsExpired c (ce_now env) = false ->
  ce_randNonce env = Ok rand -> len (scc_obit c) = 8 ->
  data !! TagSTK = Some token -> data !! TagSNO = None -> data !! TagSCFG = Some raw ->
  handleREJMessage env data (stage stream config stk nonc proof signed sent m n verified) =
    (ifTag data TagPROF (fun proof => sr_modify (fun h => csc_set_proof h proof (csc_lastSentCHLO h))) ;;!
     ifTag data TagCERT handleCERT ;;!
     verifyProof) (stage stream (Some c) token (nonceAfter env c rand nonc) proof signed sent m n verified).
Proof.
  intros Ep Ex Er Ho E1 E2 E3. unfold handleREJMessage.
  erewrite sr_step; [|unfold ifTag; rewrite E1; reflexivity].
  erewrite sr_step; [|unfold ifTag; rewrite E2; reflexivity].
  erewrite sr_step; [reflexivity|]. unfold ifTag. rewrite E3.
  change (csc_set_stk _ token) with (stage stream config token nonc proof signed sent m n verified).
  by apply stage_config.
Qed.

(** The first rejection has no proof; the second one has one that the client verifies. *)
Lemma stage_no_proof data stream c stk nonc sent m n verified :
  data !! TagPROF = None -> data !! TagCERT = None -> 
  (ifTag data TagPROF (fun proof => sr_modify (fun h => csc_set_proof h proof (csc_lastSentCHLO h))) ;;!
   ifTag data TagCERT handleCERT ;;!
   verifyProof) (stage stream (Some c) stk nonc [] [] sent m n verified) =
    (stage stream (Some c) stk nonc [] [] sent m n verified, Ok tt).
Proof.
  intros E1 E2. do 2 (erewrite sr_step; [|unfold ifTag; rewrite ?E1, ?E2; reflexivity]).
  unfold verifyProof, sr_with. cbn [stage csc_serverConfig csc_certManager]. by destruct (ManagerLeafCert m).
Qed.

Lemma stage_proof data stream c stk nonc proof signed sent m m' n verified prf crt leaf :
  data !! TagPROF = Some prf -> prf <> [] -> data !! TagCERT = Some crt ->
  SetData m crt = Ok m' -> Verify m' host = Ok tt -> ManagerLeafCert m' = Some leaf ->
  VerifyServerProof m' prf sent (serverConfigClient_Get c) = Ok true ->
  (ifTag data TagPROF (fun proof => sr_modify (fun h => csc_set_proof h proof (csc_lastSentCHLO h))) ;;!
   ifTag data TagCERT handleCERT ;;!
   verifyProof) (stage stream (Some c) stk nonc proof signed sent m n verified) =
    (stage stream (Some c) stk nonc prf sent sent m' n true, Ok tt).
Proof.
  intros E1 Hp E2 Es Ev El Epr.
  erewrite sr_step; [|unfold ifTag; rewrite E1; reflexivity].
  erewrite sr_step; cycle 1.
  { unfold ifTag, handleCERT, sr_with. rewrite E2. cbn [stage csc_set_proof csc_certManager]. rewrite Es.
    erewrite sr_step; [|reflexivity]. cbn [csc_hostname stage csc_set_proof]. rewrite Ev. reflexivity. }
  unfold verifyProof, sr_with. cbn [stage csc_set_proof csc_set_certManager csc_serverConfig csc_certManager csc_proof csc_chloForSignature csc_lastSentCHLO].
  rewrite El. destruct prf as [|b prf]; [done|]. rewrite len_cons.
  rewrite (proj2 (Z.eqb_neq _ _)) by (pose proof (len_nonneg prf); lia). cbn [negb].
  erewrite sr_step; [|unfold sr_lift; rewrite Epr; reflexivity]. reflexivity.
Qed.

(** A client with the secure keys [b1] *)
Definition keyed stream c stk sno nonc proof signed sent m div n received b1 b2 chan cp : client :=
  mkCryptoSetupClient host connID v [] stream (Some c) stk sno nonc proof signed sent m div n true received
    (NewNullAEAD PerspectiveClient v) (Some b1) b2 chan false cp.

Lemma stage_upgraded env stream c stk nonc proof signed sent m n div leaf b1 :
  len (scc_sharedSecret c) = 32 -> len nonc = 32 -> ManagerLeafCert m = Some leaf -> leaf <> [] -> len div = 32 ->
  sent <> [] ->
  DeriveKeysAESGCM false (scc_sharedSecret c) nonc connID sent (serverConfigClient_Get c) leaf div
    PerspectiveClient = Ok b1 ->
  clientIteration env (EvDivNonce div) (stage stream (Some c) stk nonc proof signed sent m n true) =
    (keyed stream c stk [] nonc proof signed sent m div n false b1 None
       (mkLevelChan [EncryptionSecure] false) (NewConnectionParamatersManager PerspectiveClient v), Ok tt).
Proof.
  intros L1 L2 El Hl L3 Hs Ek. unfold clientIteration.
  erewrite sr_step; [|reflexivity]. unfold client_prepare. erewrite sr_step; cycle 1.
  { unfold maybeUpgradeCrypto, sr_with.
    cbn [stage csc_set_nonce csc_serverVerified csc_secureAEAD csc_serverConfig csc_certManager csc_nonc
      csc_diversificationNonce csc_lastSentCHLO csc_sno csc_connID negb].
    rewrite El. change (default [] (Some leaf)) with leaf. rewrite L1, L2, L3.
    rewrite !len_pos by done. change (32 >? 0) with true. cbn [andb]. rewrite bool_decide_true by done. cbv zeta.
    erewrite sr_step; [|unfold client_assign; rewrite Ek; reflexivity]. reflexivity. }
  reflexivity.
Qed.

(** The client opens a packet of the server's secure keys. *)
Lemma keyed_opens stream c stk sno nonc proof signed sent m div n received b1 chan cp src pn ad payload :
  aeadAESGCM_Open b1 src pn ad = Ok payload ->
  client_Open (keyed stream c stk sno nonc proof signed sent m div n received b1 None chan cp) src pn ad =
    (keyed stream c stk sno nonc proof signed sent m div n true b1 None chan cp, Ok (payload, EncryptionSecure)).
Proof. intros E. unfold client_Open. cbn [keyed csc_forwardSecureAEAD csc_secureAEAD]. by rewrite E. Qed.

(** The server hello ends the handshake. *)
Lemma keyed_finished env data stream c stk nonc proof signed sent m div n b1 b2 cp cp' sno pubs vers esecret leaf :
  data !! TagSNO = Some sno -> data !! TagPUBS = Some pubs -> data !! TagVER = Some vers ->
  CalculateSharedKey (scc_kex c) pubs = Ok esecret -> ManagerLeafCert m = Some leaf ->
  DeriveKeysAESGCM true esecret (nonc ++ sno) connID sent (serverConfigClient_Get c) leaf [] PerspectiveClient = Ok b2 ->
  SetFromMap cp data = (cp', Ok tt) ->
  clientIteration env (EvMessage (mkHandshakeMessage TagSHLO data))
    (keyed stream c stk [] nonc proof signed sent m div n true b1 None (mkLevelChan [EncryptionSecure] false) cp) =
    (keyed stream c stk sno nonc proof signed sent m div n true b1 (Some b2)
       (mkLevelChan [EncryptionSecure; EncryptionForwardSecure] true) cp', Ok tt).
Proof.
  intros E1 E2 E3 Ek El Ed Ecp. unfold clientIteration. erewrite sr_step; cycle 1.
  { unfold client_handle. cbn [hm_Tag hm_Data]. change (TagSHLO =? TagREJ) with false. rewrite Z.eqb_refl.
    unfold handleSHLOMessage, sr_with at 1. cbn [keyed csc_receivedSecurePacket negb].
    erewrite sr_step; [|unfold ifTag; rewrite E1; reflexivity]. rewrite E2, E3.
    unfold validateVersionList. cbn [keyed csc_negotiatedVersions]. change (len (@nil Z) =? 0) with true.
    cbn [negb keyed csc_serverConfig csc_set_sno].
    erewrite sr_step; [|unfold sr_lift; rewrite Ek; reflexivity].
    erewrite sr_step; [|unfold sr_with, client_assign; cbn [csc_nonc csc_sno csc_connID csc_lastSentCHLO csc_certManager csc_set_sno keyed];
      rewrite El; change (default [] (Some leaf)) with leaf; rewrite Ed; reflexivity].
    erewrite sr_step; [|unfold client_parameters; cbn [csc_connectionParameters csc_set_forwardSecure csc_set_sno keyed];
      rewrite Ecp; reflexivity].
    erewrite sr_step; [|reflexivity]. reflexivity. }
  reflexivity.
Qed.
End stages.

(** ** The server during the handshake *)

Section answers.
Context `{Fn : Fnv128a, Ae : Aes12, AeL : !Aes12Laws Ae, Hk : Hkdf, HkL : !HkdfLaws Hk}.
Context `{Cu : Curve25519, CuL : !Curve25519Laws Cu, Gc : StkGCM, GcL : !StkGCMLaws Gc}.
Context {CC : Type} `{CH : CertChain CC} {M : Type} `{CM : CertManager M}.
#[local] Abbreviation client := (cryptoSetupClient (M := M)).
#[local] Abbreviation server := (cryptoSetupServer (CC := CC)).

Lemma ServerConfig_Get_short (s : ServerConfig CC) : config_ok s -> short (ServerConfig_Get s).
Proof.
  intros [Hkex [L1 B1] [L2 B2]]. destruct (len_PublicKey _ Hkex) as [Lp Bp]. unfold ServerConfig_Get. split.
  - apply HandshakeMessage_Write_bytes.
    repeat (apply map_Forall_insert_2; [first [done|apply bytes_of_ok|by apply bytes_ok_check
      |apply bytes_ok_app; split; [by apply bytes_ok_check|done]]|]). apply map_Forall_empty.
  - rewrite len_HandshakeMessage_Write. rewrite !tagsSize_insert by (tags_lookup; reflexivity).
    rewrite len_app, L1, L2, Lp. by vm_compute.
Qed.

(** The server checks a hello and goes on with the client's host name. *)
Lemma hello_checked (h : client) (s : server) :
  csc_hostname h <> [] -> 0 <= csc_version h < 1000 -> css_version s = csc_version h ->
  checkHello s (addPadding (getTags h)) = Ok (csc_hostname h).
Proof.
  intros Hh Hv Ev. destruct (hello_tags h) as (E1 & E2 & E3 & _). unfold checkHello. rewrite E1, E2, E3.
  destruct (csc_hostname h) as [|b host]; [done|]. rewrite len_le_bytes. cbn [Z.eqb Pos.eqb negb Z.of_nat].
  destruct (version_tag_roundtrip _ Hv) as [Hu Hr].
  rewrite le_value_bytes, Z.mod_small by exact Hu. by rewrite Hr, Ev, !Z.eqb_refl.
Qed.

Lemma hello_handled env (h : client) (s : server) :
  hello_fits h ->
  serverIteration env (hello_bytes h) s =
    (do! finished := handleMessage env (hello_bytes h) (addPadding (getTags h)) in
     sr_ret (if finished : bool then None else Some [])) s.
Proof.
  intros Hf. destruct (hello_parsed h Hf) as (Ep & _). unfold serverIteration. rewrite Ep.
  cbn [hm_Tag hm_Data length]. rewrite Z.eqb_refl. cbn [negb]. by rewrite Nat.sub_0_r, firstn_all.
Qed.

(** The parameters of a rejection *)
Definition rejection (s : server) (token : list Z) : gmap Z (list Z) :=
  <[TagSVID := bytes_of "quic-go"]> (<[TagSTK := token]> (<[TagSCFG := ServerConfig_Get (css_scfg s)]> ∅)).

(** The server rejects a hello without a public key. *)
Lemma server_rejects env (h : client) (s : server) leaf token data :
  hello_fits h -> checkHello s (addPadding (getTags h)) = Ok (csc_hostname h) ->
  GetLeafCert (scfg_certChain (css_scfg s)) (csc_hostname h) = Ok leaf ->
  addPadding (getTags h) !! TagPUBS = None ->
  NewToken (scfg_stkSource (css_scfg s)) (css_sourceAddr s) (Unix (se_now env)) (se_randToken env) = Ok token ->
  rejectionDetails env s (csc_hostname h) (hello_bytes h) (addPadding (getTags h)) (rejection s token) = Ok data ->
  se_write env = Ok tt ->
  serverIteration env (hello_bytes h) s =
    (css_set_stream s (css_cryptoStream s ++ [HandshakeMessage_Write (mkHandshakeMessage TagREJ data) []]),
     Ok (Some [])).
Proof.
  intros Hf Hc El Hp Et Hd Hw. rewrite hello_handled by done. destruct (hello_parsed h Hf) as (_ & Hl & _).
  assert (handleInchoateCHLO env s (csc_hostname h) (hello_bytes h) (addPadding (getTags h)) =
    Ok (HandshakeMessage_Write (mkHandshakeMessage TagREJ data) [])) as Er.
  { unfold handleInchoateCHLO. rewrite (proj2 (Z.ltb_ge _ _)) by lia. rewrite Et. cbn [rbind].
    unfold rejection in Hd. by rewrite Hd. }
  erewrite (sr_step _ _ _ _ false); [reflexivity|]. unfold handleMessage.
  erewrite sr_step; [|unfold sr_with; rewrite Hc; reflexivity].
  erewrite sr_step; [|unfold sr_with; rewrite El; reflexivity].
  erewrite sr_step; [|unfold sr_with, isInchoateCHLO; rewrite Hp; reflexivity]. cbn [negb].
  erewrite sr_step; [|unfold sr_with; rewrite Er; reflexivity].
  erewrite sr_step; [reflexivity|]. unfold server_write. by rewrite Hw.
Qed.

Lemma HashCert_u64 cert : is_u64 (HashCert cert).
Proof.
  unfold HashCert, fnv64a_Write. assert (is_u64 fnv64a_New) as H0 by (split; vm_compute; congruence).
  revert H0. generalize fnv64a_New. induction cert as [|b cert IH]; intros h Hh; [done|]. apply IH, u64_range.
Qed.

(** A server that has not accepted a hello *)
Definition server_stage connID addr (scfg : ServerConfig CC) v versions stream cp : server :=
  mkCryptoSetupServer connID addr scfg [] v versions (NewNullAEAD PerspectiveServer v) None None
    false false false (mkLevelChan [] false) stream cp.
Definition accepted_stage connID addr (scfg : ServerConfig CC) div v versions a1 a2 levels stream cp : server :=
  mkCryptoSetupServer connID addr scfg div v versions (NewNullAEAD PerspectiveServer v) (Some a1) (Some a2)
    false false false (mkLevelChan levels false) stream cp.

Definition server_hello (versions sno : list Z) (kex : curve25519KEX) (cp : connectionParametersManager)
    : gmap Z (list Z) :=
  <[TagVER := versionTags versions]> (<[TagSNO := sno]> (<[TagPUBS := PublicKey kex]> (GetHelloMap cp))).

(** The hello of a client that has the server's config and certificate is complete. *)
Lemma hello_complete env (h : client) (s : server) c leaf :
  csc_serverConfig h = Some c -> ManagerLeafCert (csc_certManager h) = Some leaf ->
  GetLeafCertHash (csc_certManager h) = Ok (HashCert leaf) -> scc_ID c = scfg_ID (css_scfg s) ->
  VerifyToken (scfg_stkSource (css_scfg s)) (css_sourceAddr s) (csc_stk h) (Unix (se_now env)) = Ok tt ->
  isInchoateCHLO env s (addPadding (getTags h)) leaf = Ok false.
Proof.
  intros Ec El Eh Ei Et. destruct (hello_tags h) as (_ & _ & _ & _ & _ & E6 & E7). rewrite Ec, El in E7.
  destruct (full_hello_tags h c leaf Ec El) as (F1 & F2 & _). unfold isInchoateCHLO.
  rewrite E7, F1, F2, Ei, bool_decide_true by done. cbn [negb]. rewrite len_le_bytes. cbv zeta.
  change (negb (Z.of_nat 8 =? 8)) with false. cbv iota.
  rewrite le_value_bytes, Eh, Z.mod_small by apply HashCert_u64. rewrite Z.eqb_refl. cbn [negb].
  by rewrite E6, Et.
Qed.

Section accepts.
Context (connID : Z) (addr : list Z) (scfg : ServerConfig CC) (v : Z) (versions : list Z).
Context (env : serverEnv) (h : client) (c : serverConfigClient).
Context (leaf sno div secret esecret : list Z) (kex : curve25519KEX) (a1 a2 : aeadAESGCM).
Context (stream : list (list Z)) (cp cp' : connectionParametersManager).
#[local] Abbreviation s := (server_stage connID addr scfg v versions stream cp).
Hypothesis (Ec : csc_serverConfig h = Some c) (Eleaf : ManagerLeafCert (csc_certManager h) = Some leaf).
Hypothesis (Ecert : GetLeafCert (scfg_certChain scfg) (csc_hostname h) = Ok leaf).
Hypothesis (Enonce : len (csc_nonc h) = 32) (Eobit : take 8 (drop 4 (csc_nonc h)) = scfg_obit scfg).
Hypothesis (Esno : se_randNonce env = Ok sno) (Ediv : se_randDiv env = Ok div) (Ekex : se_kex env = Some kex).
Hypothesis (Esecret : CalculateSharedKey (scfg_kex scfg) (PublicKey (scc_kex c)) = Ok secret).
Hypothesis (Eesecret : CalculateSharedKey kex (PublicKey (scc_kex c)) = Ok esecret).
Hypothesis (Ea1 : DeriveKeysAESGCM false secret (csc_nonc h) connID (hello_bytes h) (ServerConfig_Get scfg)
                    leaf div PerspectiveServer = Ok a1).
Hypothesis (Ea2 : DeriveKeysAESGCM true esecret (csc_nonc h ++ sno) connID (hello_bytes h) (ServerConfig_Get scfg)
                    leaf [] PerspectiveServer = Ok a2).
Hypothesis (Ecp : SetFromMap cp (addPadding (getTags h)) = (cp', Ok tt)).

Lemma keys_derived :
  deriveServerKeys env (PublicKey (scc_kex c)) (csc_nonc h) sno (hello_bytes h) leaf secret (css_set_nonce s div) =
    (accepted_stage connID addr scfg div v versions a1 a2 [EncryptionSecure] stream cp, Ok kex).
Proof.
  unfold deriveServerKeys.
  erewrite sr_step; [|unfold sr_with, assignAEAD; cbn [css_connID css_scfg css_diversificationNonce css_set_nonce server_stage];
    rewrite Ea1; reflexivity].
  erewrite sr_step; [|reflexivity]. cbv zeta. rewrite Ekex.
  erewrite sr_step; [|reflexivity]. rewrite Eesecret.
  erewrite sr_step; [|reflexivity].
  erewrite sr_step; [|unfold sr_with, assignAEAD; cbn [css_connID css_scfg css_set_secure css_set_received css_set_nonce server_stage];
    rewrite Ea2; reflexivity].
  reflexivity.
Qed.

Lemma hello_answered :
  handleCHLO env (csc_hostname h) (hello_bytes h) (addPadding (getTags h)) s =
    (accepted_stage connID addr scfg div v versions a1 a2 [EncryptionSecure; EncryptionForwardSecure] stream cp',
     Ok (HandshakeMessage_Write (mkHandshakeMessage TagSHLO (server_hello versions sno kex cp')) [])).
Proof.
  destruct (hello_tags h) as (_ & _ & _ & _ & _ & _ & E7). rewrite Ec, Eleaf in E7.
  destruct (full_hello_tags h c leaf Ec Eleaf) as (_ & _ & F3 & F4 & F5).
  unfold handleCHLO. rewrite E7, F3, F4, F5. cbv zeta.
  change (default [] (Some (PublicKey (scc_kex c)))) with (PublicKey (scc_kex c)).
  change (default [] (Some (csc_nonc h))) with (csc_nonc h).
  change (default [] (Some (bytes_of "AESG"))) with (bytes_of "AESG").
  change (default [] (Some (bytes_of "C255"))) with (bytes_of "C255").
  rewrite !bool_decide_true by done. cbn [negb]. cbv iota.
  erewrite sr_step; [|unfold sr_with; cbn [css_scfg server_stage]; rewrite Esecret; reflexivity].
  erewrite sr_step; [|unfold sr_with; cbn [css_scfg server_stage]; rewrite Ecert; reflexivity].
  erewrite sr_step; [|unfold sr_lift; rewrite Esno; reflexivity].
  erewrite sr_step; [|unfold fillNonce; rewrite Ediv; reflexivity].
  erewrite sr_step; [|unfold sr_with, validateClientNonce; cbn [css_scfg css_set_nonce server_stage];
    rewrite Enonce, Eobit, bool_decide_true by done; reflexivity].
  erewrite sr_step; [|exact keys_derived].
  erewrite sr_step; [|unfold setParameters; cbn [css_connectionParameters accepted_stage]; rewrite Ecp; reflexivity].
  do 2 (erewrite sr_step; [|reflexivity]). erewrite sr_step; [|reflexivity]. reflexivity.
Qed.

Lemma server_accepts :
  hello_fits h -> checkHello s (addPadding (getTags h)) = Ok (csc_hostname h) ->
  GetLeafCertHash (csc_certManager h) = Ok (HashCert leaf) -> scc_ID c = scfg_ID scfg ->
  VerifyToken (scfg_stkSource scfg) addr (csc_stk h) (Unix (se_now env)) = Ok tt -> se_write env = Ok tt ->
  serverIteration env (hello_bytes h) s =
    (accepted_stage connID addr scfg div v versions a1 a2 [EncryptionSecure; EncryptionForwardSecure]
       (stream ++ [HandshakeMessage_Write (mkHandshakeMessage TagSHLO (server_hello versions sno kex cp')) []]) cp',
     Ok None).
Proof.
  intros Hf Hc Eh Ei Et Hw. rewrite hello_handled by done.
  erewrite (sr_step _ _ _ _ true); [reflexivity|]. unfold handleMessage.
  erewrite sr_step; [|unfold sr_with; rewrite Hc; reflexivity].
  erewrite sr_step; [|unfold sr_with; cbn [css_scfg server_stage]; rewrite Ecert; reflexivity].
  erewrite sr_step; [|unfold sr_with; rewrite (hello_complete env h s c leaf) by done; reflexivity]. cbn [negb].
  erewrite sr_step; [|exact hello_answered].
  erewrite sr_step; [reflexivity|]. unfold server_write. by rewrite Hw.
Qed.
End accepts.
End answers.

(** ** The handshake of the two *)

Section completes.
Context `{Fn : Fnv128a, Ae : Aes12, AeL : !Aes12Laws Ae, Hk : Hkdf, HkL : !HkdfLaws Hk}.
Context `{Cu : Curve25519, CuL : !Curve25519Laws Cu, Gc : StkGCM, GcL : !StkGCMLaws Gc}.
Context {CC : Type} `{CH : CertChain CC} {M : Type} `{CM : CertManager M}.
Context (host addr : list Z) (connID v : Z) (m : M) (scfg : ServerConfig CC) (versions : list Z).
#[local] Abbreviation client := (cryptoSetupClient (M := M)).
#[local] Abbreviation server := (cryptoSetupServer (CC := CC)).

(** The clocks, the random bytes and the writes of the two sides *)
Record client_ready (env : clientEnv) : Prop := {
  cr_now : ce_now env < 2 ^ 63;
  cr_kex : exists b, ce_randKex env = Ok b /\ random_ok 32 (Ok b);
  cr_nonce : exists b, ce_randNonce env = Ok b /\ random_ok 20 (Ok b);
  cr_write : ce_write env = Ok tt;
}.
Record server_ready (env : serverEnv) : Prop := {
  sr_now : 0 <= Unix (se_now env) < 2 ^ 62;
  sr_token : exists b, se_randToken env = Ok b /\ random_ok 16 (Ok b);
  sr_nonce : exists b, se_randNonce env = Ok b /\ random_ok 32 (Ok b);
  sr_div : exists b, se_randDiv env = Ok b /\ random_ok 32 (Ok b);
  sr_kex : exists k, se_kex env = Some k /\ kex_ok k;
  sr_sign : forall chlo, exists proof,
    SignServerProof (scfg_certChain scfg) host chlo (ServerConfig_Get scfg) (se_randSign env) = Ok proof /\
    proof <> [] /\ short proof;
  sr_write : se_write env = Ok tt;
}.

(** A client and a server that can connect: they have a version in common, the client comes
    from an IP address, and the server has a certificate for the client's host name. *)
Record can_connect : Prop := {
  cn_host : host <> [] /\ short host;
  cn_version : 0 <= v < 1000;
  cn_config : config_ok scfg;
  cn_addr : bytes_ok addr /\ (len addr = 4 \/ len addr = 16);
  cn_versions : len versions <= 1000;
  cn_manager : ManagerLeafCert m = None /\ short (GetCommonCertificateHashes m);
  cn_exchange : CertExchange (scfg_certChain scfg) m host;
}.
Hypothesis Hcan : can_connect.

#[local] Abbreviation client_stage := (stage host connID v).
#[local] Abbreviation the_server := (server_stage connID addr scfg v versions).
#[local] Abbreviation server_params := (NewConnectionParamatersManager PerspectiveServer v).

(** What the client has after a rejection *)
Record offered (env : serverEnv) (c : serverConfigClient) (stk nonc : list Z) : Prop := {
  of_config : client_config_ok (ServerConfig_Get scfg) c;
  of_ID : scc_ID c = scfg_ID scfg;
  of_obit : scc_obit c = scfg_obit scfg;
  of_secret : CalculateSharedKey (scfg_kex scfg) (PublicKey (scc_kex c)) = Ok (scc_sharedSecret c);
  of_token : NewToken (scfg_stkSource scfg) addr (Unix (se_now env)) (se_randToken env) = Ok stk;
  of_nonc : len nonc = 32 /\ bytes_ok nonc /\ take 8 (drop 4 nonc) = scfg_obit scfg;
}.

Lemma offered_token env : server_ready env ->
  exists token, NewToken (scfg_stkSource scfg) addr (Unix (se_now env)) (se_randToken env) = Ok token /\ short token.
Proof.
  intros []. destruct sr_token0 as (b & E & Hb & Hl). destruct Hcan as [_ _ _ [Ha La] _ _ _].
  rewrite E. eexists. split; [reflexivity|].
  destruct (NewToken_bytes (scfg_stkSource scfg) addr (Unix (se_now env)) b _ Hb Hl Ha eq_refl) as [H1 H2].
  split; [exact H1|].
  rewrite H2. unfold CryptoParameterMaxLength. lia.
Qed.

(** A rejection gives the client a config, a token and a nonce. *)
Lemma offered_config env cenv token nonc rand :
  client_ready cenv -> ce_randNonce cenv = Ok rand -> random_ok 20 (Ok rand) ->
  NewToken (scfg_stkSource scfg) addr (Unix (se_now env)) (se_randToken env) = Ok token ->
  nonc = [] \/ (len nonc = 32 /\ bytes_ok nonc /\ take 8 (drop 4 nonc) = scfg_obit scfg) ->
  exists c, parseServerConfig (ServerConfig_Get scfg) (ce_randKex cenv) = Ok c /\
    IsExpired c (ce_now cenv) = false /\ offered env c token (nonceAfter cenv c rand nonc).
Proof.
  intros [] Er [Hrb Hrl] Ht Hn. destruct cr_kex0 as (kb & Ek & Hkb).
  destruct Hcan as [_ _ Hcfg _ _ _ _].
  destruct (server_config_roundtrip scfg kb (ce_now cenv) Hcfg Hkb cr_now0)
    as (c & Ep & _ & E2 & E3 & E4 & E5 & E6 & E7).
  pose proof (parseServerConfig_safe (ServerConfig_Get scfg) (Ok kb) (proj1 (ServerConfig_Get_short _ Hcfg)) Hkb) as Hs.
  rewrite Ep in Hs. exists c. rewrite Ek. split; [exact Ep|]. split; [exact E7|].
  constructor; [exact Hs|exact E2|exact E3|exact E6|exact Ht|].
  destruct Hcfg as [_ _ [Lo Bo]].
  unfold nonceAfter. destruct Hn as [-> | Hn].
  - change (len (@nil Z) =? 0) with true. cbv iota. rewrite E3. split_and!.
    + rewrite !len_app, Lo, Hrl. unfold be_bytes, len. by rewrite length_rev, length_le_bytes.
    + rewrite !bytes_ok_app. split; [apply Forall_rev, le_bytes_ok|split; [exact Bo|exact Hrb]].
    + rewrite drop_app_length' by (unfold be_bytes; by rewrite length_rev, length_le_bytes).
      rewrite take_app_length' by (unfold len in Lo; lia). reflexivity.
  - rewrite (proj1 Hn). exact Hn.
Qed.

(** The hello of such a client can be sent and is checked by the server. *)
Lemma stage_fits config stk nonc stream proof signed sent m' n verified sstream cp :
  short stk -> short nonc -> (forall c, config = Some c -> client_config_ok (ServerConfig_Get scfg) c) ->
  GetCommonCertificateHashes m' = GetCommonCertificateHashes m ->
  let h := client_stage stream config stk nonc proof signed sent m' n verified in
  hello_fits h /\ checkHello (the_server sstream cp) (addPadding (getTags h)) = Ok host.
Proof.
  intros Hs Hn Hc Em h. destruct Hcan as [[Hne Hh] Hv _ _ _ [_ Hm] _]. split.
  - constructor; cbn [h stage csc_hostname csc_certManager csc_stk csc_sno csc_nonc csc_serverConfig];
      [exact Hh|by rewrite Em|exact Hs|by apply short_literal|exact Hn|].
    intros c' E. destruct (Hc c' E). by constructor.
  - by apply hello_checked.
Qed.

Lemma offered_fits env c stk nonc stream proof signed sent m' n verified sstream cp :
  offered env c stk nonc -> short stk -> GetCommonCertificateHashes m' = GetCommonCertificateHashes m ->
  let h := client_stage stream (Some c) stk nonc proof signed sent m' n verified in
  hello_fits h /\ checkHello (the_server sstream cp) (addPadding (getTags h)) = Ok host.
Proof.
  intros [] Hs Em h. apply stage_fits; [exact Hs|destruct of_nonc0 as (L & B & _); by apply (short_of _ 32)| |exact Em].
  by intros ? [= <-].
Qed.

Lemma tag_u32 t : (0 <=? t) && (t <? 2 ^ 32) = true -> is_u32 t.
Proof. intros [?%Z.leb_le ?%Z.ltb_lt]%andb_true_iff. by split. Qed.

(** A hello, its rejection and the next hello *)
Lemma rejected_hello senv cenv (h h1 h2 : client) (s : server) data :
  serverIteration senv (csc_lastSentCHLO h) s =
    (css_set_stream s (css_cryptoStream s ++ [HandshakeMessage_Write (mkHandshakeMessage TagREJ data) []]), Ok (Some [])) ->
  map_Forall param_ok data -> (size data <= 128)%nat ->
  handleREJMessage cenv data h = (h1, Ok tt) -> client_prepare cenv h1 = (h2, Ok tt) ->
  rejectedHello senv cenv (h, s) =
    ((h2, css_set_stream s (css_cryptoStream s ++ [HandshakeMessage_Write (mkHandshakeMessage TagREJ data) []])), Ok false).
Proof.
  intros Es Hp Hsz Eh Ep. unfold rejectedHello.
  erewrite (sr_step _ _ _ _ false); cycle 1.
  { unfold server_reads, sr_with. erewrite sr_step; [|unfold on_snd; rewrite Es; reflexivity]. reflexivity. }
  erewrite sr_step; cycle 1.
  { unfold sr_with, on_fst. unfold reply. cbn [css_cryptoStream css_set_stream]. rewrite last_snoc.
    change (default [] (Some ?x)) with x. unfold client_reads.
    rewrite message_parsed by (done || by vm_compute).
    unfold clientIteration. erewrite sr_step; [|unfold client_handle; cbn [hm_Tag hm_Data]; rewrite Z.eqb_refl; exact Eh].
    rewrite Ep. reflexivity. }
  reflexivity.
Qed.

Lemma rejection_fits (s : server) token :
  config_ok (css_scfg s) -> short token ->
  map_Forall param_ok (rejection s token) /\ (size (rejection s token) <= 3)%nat.
Proof.
  intros Hc Ht. unfold rejection. split.
  - repeat (apply param_insert; [by vm_compute| |]); [by apply short_literal|exact Ht|by apply ServerConfig_Get_short|].
    apply map_Forall_empty.
  - tags_size. by rewrite map_size_empty.
Qed.

(** The first hello: the client gets a token and a config. *)
Lemma first_rejected senv cenv :
  server_ready senv -> client_ready cenv ->
  let b1 := hello_bytes (client_stage [] None [] [] [] [] [] m 1 false) in
  exists c stk nonc r, offered senv c stk nonc /\ short stk /\
    let b2 := hello_bytes (client_stage [b1] (Some c) stk nonc [] [] b1 m 2 false) in
    rejectedHello senv cenv (client_stage [b1] None [] [] [] [] b1 m 1 false, the_server [] server_params) =
      ((client_stage [b1; b2] (Some c) stk nonc [] [] b2 m 2 false, the_server [r] server_params), Ok false).
Proof.
  intros Hs Hc b1. destruct (offered_token senv Hs) as (token & Et & Ht).
  pose proof (cr_nonce _ Hc) as (rand & Er & Hr).
  destruct (offered_config senv cenv token [] rand Hc Er Hr Et (or_introl eq_refl)) as (c & Ep & Ex & Ho).
  exists c, token, (nonceAfter cenv c rand []). eexists. split; [exact Ho|]. split; [exact Ht|]. cbv zeta.
  destruct (stage_fits None [] [] [] [] [] [] m 1 false [] server_params) as [Hf Hk'];
    [by apply short_literal|by apply short_literal|done|done|].
  destruct (hello_tags (client_stage [] None [] [] [] [] [] m 1 false)) as (_ & _ & _ & _ & _ & E6 & E7).
  destruct (rejection_fits (the_server [] server_params) token (cn_config Hcan) Ht) as [Hp Hsz].
  destruct (cert_delivered (CertExchange := cn_exchange Hcan)) as (leaf & _ & _ & El & _).
  eapply eq_trans; [eapply (rejected_hello senv cenv _ _ _ _ (rejection (the_server [] server_params) token))|].
  - cbn [stage csc_lastSentCHLO]. eapply (server_rejects senv _ _ leaf token);
      [exact Hf|exact Hk'|exact El|exact E7|exact Et| |apply Hs].
    unfold rejectionDetails. rewrite E6. reflexivity.
  - exact Hp.
  - lia.
  - rewrite (stage_rejected host connID v cenv c rand (ServerConfig_Get scfg) _ token);
      [|exact Ep|exact Ex|exact Er|apply (of_config _ _ _ _ Ho)|by unfold rejection; tags_lookup..].
    apply stage_no_proof; by unfold rejection; tags_lookup.
  - apply stage_prepare; [apply Hc|]. unfold MaxClientHellos. lia.
  - reflexivity.
Qed.

(** The manager of a client that has the server's certificate *)
Record certified (m' : M) (leaf : list Z) : Prop := {
  ct_server : GetLeafCert (scfg_certChain scfg) host = Ok leaf;
  ct_leaf : leaf <> [];
  ct_client : ManagerLeafCert m' = Some leaf;
  ct_hash : GetLeafCertHash m' = Ok (HashCert leaf);
  ct_common : GetCommonCertificateHashes m' = GetCommonCertificateHashes m;
}.

Lemma token_verified env env' c stk nonc :
  server_ready env -> offered env c stk nonc -> Unix (se_now env') <= Unix (se_now env) + STKExpiryTimeSec ->
  VerifyToken (scfg_stkSource scfg) addr stk (Unix (se_now env')) = Ok tt.
Proof.
  intros Hs Ho Ht. destruct (sr_token _ Hs) as (b & Eb & _ & Hl). pose proof (of_token _ _ _ _ Ho) as Ek.
  rewrite Eb in Ek. destruct (cn_addr Hcan).
  rewrite (VerifyToken_NewToken _ addr addr (Unix (se_now env)) _ b stk) by (done || apply Hs).
  rewrite decide_True by done. by rewrite Z.gtb_ltb, (proj2 (Z.ltb_ge _ _)).
Qed.

(** The second hello has the token: the client gets the certificate and a proof. *)
Lemma second_rejected senv0 senv cenv c stk nonc stream sstream stream0 sent0 :
  server_ready senv0 -> server_ready senv -> client_ready cenv -> offered senv0 c stk nonc -> short stk ->
  Unix (se_now senv) <= Unix (se_now senv0) + STKExpiryTimeSec ->
  let b := hello_bytes (client_stage stream0 (Some c) stk nonc [] [] sent0 m 2 false) in
  exists c' stk' prf m' leaf r, offered senv c' stk' nonc /\ short stk' /\ certified m' leaf /\
    let b3 := hello_bytes (client_stage stream (Some c') stk' nonc prf b b m' 3 true) in
    rejectedHello senv cenv (client_stage stream (Some c) stk nonc [] [] b m 2 false, the_server sstream server_params) =
      ((client_stage (stream ++ [b3]) (Some c') stk' nonc prf b b3 m' 3 true, the_server (sstream ++ [r]) server_params),
       Ok false).
Proof.
  intros Hs0 Hs Hc Ho0 Hst Htime b. destruct (offered_token senv Hs) as (token & Et & Ht).
  pose proof (cr_nonce _ Hc) as (rand & Er & Hr). pose proof (of_nonc _ _ _ _ Ho0) as Hn.
  destruct (offered_config senv cenv token nonc rand Hc Er Hr Et (or_intror Hn)) as (c' & Ep & Ex & Ho).
  assert (nonceAfter cenv c' rand nonc = nonc) as En by (unfold nonceAfter; by rewrite (proj1 Hn)). rewrite En in Ho.
  destruct (cert_delivered (CertExchange := cn_exchange Hcan))
    as (leaf & crt & m' & C1 & C2 & C3 & C4 & C5 & C6 & C7 & C8 & C9 & C10 & C11).
  destruct (sr_sign _ Hs b) as (prf & Esig & Hprf & Hshort).
  exists c', token, prf, m', leaf. eexists. do 2 (split; [assumption|]). split; [by constructor|]. cbv zeta.
  set (g := client_stage stream0 (Some c) stk nonc [] [] sent0 m 2 false) in b.
  destruct (offered_fits senv0 c stk nonc stream0 [] [] sent0 m 2 false sstream server_params Ho0 Hst eq_refl) as [Hf Hk'].
  destruct (hello_tags g) as (_ & _ & _ & E4 & E5 & E6 & E7).
  destruct (rejection_fits (the_server sstream server_params) token (cn_config Hcan) Ht) as [Hp Hsz].
  set (data := <[TagCERT := crt]> (<[TagPROF := prf]> (rejection (the_server sstream server_params) token))).
  eapply eq_trans; [eapply (rejected_hello senv cenv _ _ _ _ data)|].
  - cbn [stage csc_lastSentCHLO]. eapply (server_rejects senv g _ leaf token);
      [exact Hf|exact Hk'|exact C1| |exact Et| |apply Hs].
    + rewrite E7. cbn [g stage csc_serverConfig csc_certManager]. by rewrite (proj1 (cn_manager Hcan)).
    + unfold rejectionDetails. rewrite E4, E5, E6. cbn [g stage csc_stk csc_certManager csc_hostname css_scfg css_sourceAddr server_stage].
      rewrite (token_verified senv0 senv c stk nonc) by done.
      unfold ServerConfig_Sign, ServerConfig_GetCertsCompressed. change (hello_bytes g) with b. rewrite Esig. cbn [rbind].
      change (default [] None) with (@nil Z). rewrite C3. reflexivity.
  - unfold data. apply param_insert; [apply tag_u32; reflexivity|exact (conj C4 C5)|].
    apply param_insert; [apply tag_u32; reflexivity|exact Hshort|exact Hp].
  - unfold data. tags_size. lia.
  - rewrite (stage_rejected host connID v cenv c' rand (ServerConfig_Get scfg) _ token);
      [|exact Ep|exact Ex|exact Er|apply (of_config _ _ _ _ Ho)|by unfold data, rejection; tags_lookup..].
    rewrite En. apply (stage_proof host connID v data stream c' token nonc [] [] b m m' 2 false prf crt leaf);
      [by unfold data; tags_lookup|exact Hprf|by unfold data; tags_lookup|exact C6|exact C9|exact C7|].
    eapply C11. unfold serverConfigClient_Get. rewrite (cco_raw _ _ (of_config _ _ _ _ Ho)). exact Esig.
  - apply stage_prepare; [apply Hc|]. unfold MaxClientHellos. lia.
  - reflexivity.
Qed.

(** ** Connection parameters *)

Lemma SetFromMap_ext cp p q :
  (forall t, t ∈ [TagTCID; TagMSPC; TagMIDS; TagICSL; TagSFCW; TagCFCW] -> p !! t = q !! t) ->
  SetFromMap cp p = SetFromMap cp q.
Proof.
  intros E. unfold SetFromMap, ifParam.
  rewrite (E TagTCID), (E TagMSPC), (E TagMIDS), (E TagICSL), (E TagSFCW), (E TagCFCW) by set_solver. done.
Qed.

(** Both sides take over the other one's parameters. *)
Record negotiated (cp cp' : connectionParametersManager) : Prop := {
  ng_stream : GetSendStreamFlowControlWindow cp = GetReceiveStreamFlowControlWindow cp';
  ng_connection : GetSendConnectionFlowControlWindow cp = GetReceiveConnectionFlowControlWindow cp';
  ng_streams : GetMaxOutgoingStreams cp = MaxIncomingDynamicStreamsPerConnection;
  ng_idle : GetIdleConnectionStateLifetime cp <= GetIdleConnectionStateLifetime cp';
}.

#[local] Abbreviation client_params := (NewConnectionParamatersManager PerspectiveClient v).

Lemma parameters_exchanged (h : client) sno kex :
  csc_requestTruncation h = false -> csc_connectionParameters h = client_params ->
  exists cp cp', SetFromMap server_params (addPadding (getTags h)) = (cp, Ok tt) /\
    SetFromMap client_params (server_hello versions sno kex cp) = (cp', Ok tt) /\
    negotiated cp client_params /\ negotiated cp' cp.
Proof.
  intros Et Ecp.
  destruct (hello_exchange server_params client_params) as (cp & E & H1 & H2 & H3 & H4 & _);
    [apply NewConnectionParamatersManager_ok..|done|].
  pose proof (set_from_map_bounds server_params (GetHelloMap client_params) (NewConnectionParamatersManager_ok _ _)
    ltac:(intros t x Hx; apply (proj1 (GetHelloMap_fits client_params) t x Hx))) as [Hok _].
  rewrite E in Hok.
  destruct (hello_exchange client_params cp (NewConnectionParamatersManager_ok _ _) Hok eq_refl)
    as (cp' & E' & K1 & K2 & K3 & K4 & _).
  exists cp, cp'. split; [|split; [|by split]].
  - rewrite <- E. apply SetFromMap_ext. intros t Ht. rewrite <- Ecp. by apply hello_parameters.
  - rewrite <- E'. apply SetFromMap_ext. intros t Ht. unfold server_hello.
    rewrite !lookup_insert_ne; [done|..]; intros <-; revert Ht; clear; compute_done.
Qed.

Lemma server_hello_parsed sno kex cp :
  bytes_ok sno -> len sno = 32 -> kex_ok kex ->
  let msg := mkHandshakeMessage TagSHLO (server_hello versions sno kex cp) in
  ParseHandshakeMessage (HandshakeMessage_Write msg []) = Ok (msg, []).
Proof.
  intros Hb Hl Hkex msg. destruct (len_PublicKey _ Hkex) as [Lp Bp].
  destruct (GetHelloMap_fits cp) as [Hp Hsz]. apply message_parsed; [by vm_compute|..]; unfold server_hello.
  - tags_size. lia.
  - apply param_insert; [by vm_compute| |].
    2: apply param_insert; [by vm_compute|by apply (short_of _ 32)|].
    2: apply param_insert; [by vm_compute|by apply (short_of _ 32)|exact Hp].
    unfold versionTags. rewrite write_versions, app_nil_l. split.
    + apply Forall_concat, Forall_forall. intros x [w [-> _]]%list_elem_of_fmap. apply le_bytes_ok.
    + rewrite len_version_tags. pose proof (cn_versions Hcan). unfold CryptoParameterMaxLength. lia.
Qed.

(** ** A connection *)

(** Both sides have taken over each other's parameters and have announced the forward-secure
    keys, and each side opens what the other one seals, at this level. *)
Record connected (c : client) (s : server) : Prop := {
  co_verified : csc_serverVerified c = true;
  co_hellos : csc_clientHelloCounter c = 3;
  co_sealers : (client_GetSealer c).1 = EncryptionForwardSecure /\ (server_GetSealer s).1 = EncryptionForwardSecure;
  co_to_server src pn ad : bytes_ok src ->
    (server_Open s ((client_GetSealer c).2 src pn ad) pn ad).2 = Ok (src, EncryptionForwardSecure);
  co_to_client src pn ad : bytes_ok src ->
    (client_Open c ((server_GetSealer s).2 src pn ad) pn ad).2 = Ok (src, EncryptionForwardSecure);
  co_changed : lc_sent (csc_aeadChanged c) = [EncryptionSecure; EncryptionForwardSecure] /\
    lc_sent (css_aeadChanged s) = [EncryptionSecure; EncryptionForwardSecure];
  co_params : negotiated (css_connectionParameters s) client_params /\
    negotiated (csc_connectionParameters c) (css_connectionParameters s);
}.

Section keys_of_both.
Context (c : serverConfigClient) (stk sno nonc proof signed sent div : list Z) (m' : M) (n : Z).
Context (stream sstream : list (list Z)) (a1 a2 b1 b2 : aeadAESGCM) (cp cp' : connectionParametersManager).

Lemma keys_connect :
  paired b2 a2 -> negotiated cp client_params -> negotiated cp' cp ->
  connected
    (keyed host connID v stream c stk sno nonc proof signed sent m' div 3 true b1 (Some b2)
       (mkLevelChan [EncryptionSecure; EncryptionForwardSecure] true) cp')
    (css_set_sentSHLO (accepted_stage connID addr scfg div v versions a1 a2
       [EncryptionSecure; EncryptionForwardSecure] sstream cp)).
Proof.
  intros Hp N1 N2. constructor; try done.
  - intros src pn ad Hsrc. unfold server_Open, client_GetSealer, sealWith.
    cbn [keyed csc_forwardSecureAEAD snd css_set_sentSHLO accepted_stage css_forwardSecureAEAD].
    by rewrite (paired_open b2 a2).
  - intros src pn ad Hsrc. unfold client_Open, server_GetSealer, sealWith.
    cbn [keyed csc_forwardSecureAEAD snd css_set_sentSHLO accepted_stage css_forwardSecureAEAD css_sentSHLO].
    by rewrite (paired_open a2 b2) by (done || by apply paired_sym).
Qed.
End keys_of_both.

(** An accepted hello, the server's packet and the server hello *)
Lemma accepted_hello senv cenv (h h1 h2 h3 : client) (s s1 : server) a1 data payload pn ad :
  serverIteration senv (csc_lastSentCHLO h) s = (s1, Ok None) ->
  server_GetSealer s1 = (EncryptionSecure, sealWith a1) ->
  ParseHandshakeMessage (reply s1) = Ok (mkHandshakeMessage TagSHLO data, []) ->
  clientIteration cenv (EvDivNonce (css_diversificationNonce s1)) h = (h1, Ok tt) ->
  client_Open h1 (aeadAESGCM_Seal a1 payload pn ad) pn ad = (h2, Ok (payload, EncryptionSecure)) ->
  clientIteration cenv (EvMessage (mkHandshakeMessage TagSHLO data)) h2 = (h3, Ok tt) ->
  acceptedHello senv cenv payload pn ad (h, s) =
    ((h3, css_set_sentSHLO s1), Ok (true, (payload, EncryptionSecure))).
Proof.
  intros Es Eg Ep E1 E2 E3. unfold acceptedHello.
  erewrite (sr_step _ _ _ _ true); cycle 1.
  { unfold server_reads, sr_with. erewrite sr_step; [|unfold on_snd; rewrite Es; reflexivity]. reflexivity. }
  erewrite sr_step; [|unfold on_snd; rewrite Eg; reflexivity].
  change (sealed s1 EncryptionSecure) with (css_set_sentSHLO s1).
  erewrite sr_step; [|unfold sr_with, on_fst; change (css_diversificationNonce (css_set_sentSHLO s1)) with
    (css_diversificationNonce s1); rewrite E1; reflexivity].
  erewrite sr_step; [|unfold on_fst, sealWith; rewrite E2; reflexivity].
  erewrite sr_step; cycle 1.
  { unfold sr_with, on_fst, client_reads. change (reply (css_set_sentSHLO s1)) with (reply s1).
    rewrite Ep, E3. reflexivity. }
  reflexivity.
Qed.

(** The third hello: the server accepts it, and the client gets the server hello. *)
Lemma hello_accepted senv0 senv cenv payload pn ad c stk nonc prf signed m' leaf stream sstream stream0 sent0 :
  server_ready senv0 -> server_ready senv -> offered senv0 c stk nonc -> short stk -> certified m' leaf ->
  Unix (se_now senv) <= Unix (se_now senv0) + STKExpiryTimeSec -> bytes_ok payload ->
  let g := client_stage stream0 (Some c) stk nonc prf signed sent0 m' 3 true in
  exists cl sv,
    acceptedHello senv cenv payload pn ad
      (client_stage stream (Some c) stk nonc prf signed (hello_bytes g) m' 3 true, the_server sstream server_params) =
      ((cl, sv), Ok (true, (payload, EncryptionSecure))) /\
    connected cl sv.
Proof.
  intros Hs0 Hs Ho Hst [C1 C2 C3 C4 C5] Htime Hpay g.
  destruct (offered_fits senv0 c stk nonc stream0 prf signed sent0 m' 3 true sstream server_params Ho Hst C5) as [Hf Hk'].
  fold g in Hf, Hk'. pose proof (token_verified senv0 senv c stk nonc Hs0 Ho Htime) as Htok.
  destruct Ho as [Hcc Hid Hob Hsec _ (Ln & Bn & Hobit)]. pose proof (cco_raw _ _ Hcc) as Hraw.
  destruct (sr_nonce _ Hs) as (sno & Esno & Bsno & Lsno). destruct (sr_div _ Hs) as (div & Ediv & Bdiv & Ldiv).
  destruct (sr_kex _ Hs) as (kex & Ekex & Hkex).
  destruct (shared_key_agrees kex (scc_kex c) Hkex (cco_kex _ _ Hcc)) as (es & X1 & X2 & _).
  destruct (derived_paired false (scc_sharedSecret c) nonc connID (hello_bytes g) (ServerConfig_Get scfg) leaf div)
    as (a1 & b1 & A1 & B1 & P1).
  destruct (derived_paired true es (nonc ++ sno) connID (hello_bytes g) (ServerConfig_Get scfg) leaf [])
    as (a2 & b2 & A2 & B2 & P2).
  destruct (parameters_exchanged g sno kex eq_refl eq_refl) as (cp & cp' & E1 & E2 & N1 & N2).
  eexists _, _. split; [|apply (keys_connect c stk sno nonc prf signed (hello_bytes g) div m'); [exact P2|exact N1|exact N2]].
  eapply (accepted_hello senv cenv); cbn [stage csc_lastSentCHLO].
  - apply (server_accepts connID addr scfg v versions senv g c leaf sno div (scc_sharedSecret c) es kex a1 a2 sstream
      server_params cp); first [assumption|reflexivity|apply Hs].
  - reflexivity.
  - unfold reply. cbn [accepted_stage css_cryptoStream]. rewrite last_snoc.
    change (default [] (Some ?x)) with x. by apply server_hello_parsed.
  - cbn [accepted_stage css_diversificationNonce].
    apply (stage_upgraded host connID v cenv stream c stk nonc prf signed (hello_bytes g) m' 3 div leaf b1);
      [apply Hcc|exact Ln|exact C3|exact C2|exact Ldiv| |unfold serverConfigClient_Get; rewrite Hraw; exact B1].
    destruct (hello_parsed g Hf) as (_ & Hl & _). intros E. rewrite E in Hl.
    change (len (@nil Z)) with 0 in Hl. unfold ClientHelloMinimumSize in Hl. lia.
  - apply keyed_opens, paired_open; [by apply paired_sym|exact Hpay].
  - apply (keyed_finished host connID v cenv _ stream c stk nonc prf signed (hello_bytes g) m' div 3 b1 b2 client_params cp'
      sno (PublicKey kex) (versionTags versions) es leaf);
      [unfold server_hello; tags_lookup; reflexivity..|exact X2|exact C3| |exact E2].
    unfold serverConfigClient_Get. rewrite Hraw. exact B2.
Qed.

(** C2: a client and a server that can connect do so with three hellos: the first one gets the
    client a token and the server config, the second one the certificate and the proof, which
    the client verifies, and the third one is accepted.  The client opens the server's packet at
    the secure level, and both sides end with forward-secure keys that fit each other and with
    each other's connection parameters. *)
Theorem handshake_completes c0 c1 c2 c3 s1 s2 s3 payload pn ad :
  Forall client_ready [c0; c1; c2] -> Forall server_ready [s1; s2; s3] ->
  Unix (se_now s2) <= Unix (se_now s1) + STKExpiryTimeSec ->
  Unix (se_now s3) <= Unix (se_now s2) + STKExpiryTimeSec -> bytes_ok payload ->
  exists c s,
    handshake c0 c1 c2 c3 s1 s2 s3 payload pn ad
      (NewCryptoSetupClient host connID v m client_params false [],
       NewCryptoSetup connID addr v scfg server_params versions) =
      ((c, s), Ok (false, false, true, (payload, EncryptionSecure))) /\
    connected c s.
Proof.
  intros Hc Hs T1 T2 Hpay. rewrite !Forall_cons in Hc. rewrite !Forall_cons in Hs.
  destruct Hc as (Hc0 & Hc1 & Hc2 & _), Hs as (Hs1 & Hs2 & Hs3 & _).
  destruct (first_rejected s1 c1 Hs1 Hc1) as (k1 & stk1 & nonc & r1 & Ho1 & Hk1 & E1).
  edestruct (second_rejected s1 s2 c2 k1 stk1 nonc) as (k2 & stk2 & prf & m' & leaf & r2 & Ho2 & Hk2 & Hcert & E2);
    [exact Hs1|exact Hs2|exact Hc2|exact Ho1|exact Hk1|exact T1|].
  edestruct (hello_accepted s2 s3 c3 payload pn ad k2 stk2 nonc prf) as (c & s & E3 & Hcon);
    [exact Hs2|exact Hs3|exact Ho2|exact Hk2|exact Hcert|exact T2|exact Hpay|].
  exists c, s. split; [|exact Hcon]. unfold handshake.
  erewrite sr_step; cycle 1.
  { unfold on_fst. change (NewCryptoSetupClient host connID v m client_params false [])
      with (client_stage [] None [] [] [] [] [] m 0 false).
    rewrite stage_prepare by (apply Hc0 || (unfold MaxClientHellos; lia)). reflexivity. }
  erewrite sr_step; [|exact E1].
  erewrite sr_step; [|exact E2].
  erewrite sr_step; [|exact E3]. reflexivity.
Qed.
End completes.
