(* ===== verification/SecureSession.v ===== *)
(** * The session with its implementations

    The session of SessionRun.v with the crypto setup of the handshake, the connection
    parameters that the handshake negotiates, and the cubic sender: in every state that a crypto
    setup reaches it gives the session what the session relies on, so that no iteration of the
    run loop fails. *)

From S2P Require Import Prelude Protocol Qerr Wire Frames AckFrame Frame ReceivedPackets PublicHeader PacketUnpacker.
From S2P Require Import StreamFrameSorter Handshake FlowControl RTTStats SendAlgorithm SentPackets Congestion.
From S2P Require Import PacketNumberGenerator StreamsMap Stream StreamFramer PacketPacker Session SessionSafety SessionSend SessionRun.
From S2P Require Import Crypto Certs CertManager ServerConfig CryptoSetupServer CryptoSetupClient.

Section secure.
Context `{Fn : Fnv128a, FnL : !Fnv128aLaws Fn, Ae : Aes12, AeL : !Aes12Laws Ae, Hk : Hkdf, HkL : !HkdfLaws Hk}.
Context `{Cu : Curve25519, CuL : !Curve25519Laws Cu, Gc : StkGCM, GcL : !StkGCMLaws Gc}.
Context {CC : Type} `{CH : CertChain CC} {M : Type} `{CM : CertManager M}.
Context (Cbrt : Z -> Z).
#[local] Abbreviation client := (cryptoSetupClient (M := M)).
#[local] Abbreviation server := (cryptoSetupServer (CC := CC)).
#[local] Existing Instances cryptoSetupServer_interface cryptoSetupClient_interface.
#[local] Existing Instance cubicSendAlgorithm | 0.

(** The states of the two setups *)
Definition server_setup (h : server) : Prop :=
  exists connID sourceAddr version scfg cp versions running,
    chain_ok (scfg_certChain scfg) /\ params_ok cp /\
    server_steps (true, NewCryptoSetup connID sourceAddr version scfg cp versions) (running, h).
Definition client_setup (h : client) : Prop :=
  manager_ok /\
  exists env hostname connID version m cp truncate negotiated live,
    client_env_ok env /\ ok_as PerspectiveClient cp /\ ManagerLeafCert m = None /\
    client_steps False (client_started env (NewCryptoSetupClient hostname connID version m cp truncate negotiated))
      (live, h).

(** The session's environment at some moment: the connection parameters and what was sent on
    [aeadChanged] are those of the crypto setup. *)
Record moment {C : Type} (setup : C -> Prop) (params : C -> connectionParametersManager) (levels : C -> levelChan)
    (e : env (C := C) (A := connectionParametersManager)) : Prop := {
  mo_setup : setup (e_crypto e);
  mo_params : e_cp e = params (e_crypto e);
  mo_levels : e_levels e = lc_sent (levels (e_crypto e));
  mo_complete : e_complete e = lc_closed (levels (e_crypto e));
  mo_now : 0 < e_now e;
  mo_write : e_write e <> Panic;
  mo_app : app_ok (e_app e);
}.

Lemma levels_few (sent rest : list Z) : [EncryptionSecure; EncryptionForwardSecure] = sent ++ rest -> len sent <= 2.
Proof. intros E. apply (f_equal len) in E. rewrite len_app in E. pose proof (len_nonneg rest). change (len [_; _]) with 2 in E. lia. Qed.

Lemma server_env_ok_session e :
  moment server_setup css_connectionParameters css_aeadChanged e -> env_ok (ok := params_ok) PerspectiveServer e.
Proof.
  intros [(connID & addr & v & scfg & cp & versions & run & Hc & Hp & Hs) Hcp Hlv _ Hnow Hw Ha].
  destruct (server_steps_ok _ _ (NewCryptoSetup_ok _ _ _ _ _ _ Hc Hp) Hs) as ([Hi _] & _). cbn [snd] in Hi.
  constructor; [done|rewrite Hcp; apply (si_params _ Hi)|done| | | |done|done|].
  - intros sealFunc _ Hseal. cbn. apply (si_nonce _ Hi).
    destruct (css_secureAEAD (e_crypto e)) as [a|] eqn:Ea; [done|]. cbn in Hseal. unfold server_GetSealer in Hseal.
    rewrite Ea, (si_forwardSecure _ Hi Ea) in Hseal. by destruct Hseal.
  - constructor. intros src pn ad Hb.
    destruct (server_Open_opened (e_crypto e) src pn ad Hi Hb) as (_ & _ & _ & _ & H). cbn.
    destruct (server_Open (e_crypto e) src pn ad).2 as [[pl l]|err|]; [apply H|done|done].
  - intros level. cbn. unfold server_GetSealerWithEncryptionLevel.
    destruct (css_secureAEAD _), (css_forwardSecureAEAD _); repeat case_if; done.
  - rewrite Hlv. destruct (si_sent _ Hi) as [rest E]. by eapply levels_few.
Qed.

Lemma client_env_ok_session e :
  moment client_setup csc_connectionParameters csc_aeadChanged e -> env_ok (ok := params_ok) PerspectiveClient e.
Proof.
  intros [[HM (cenv & host & connID & v & m & cp & tr & neg & live & He & Hp & Hm & Hs)] Hcp Hlv _ Hnow Hw Ha].
  destruct (client_steps_ok HM _ _ _ (client_started_ok HM False _ _ _ _ _ _ _ _ He Hp Hm) Hs) as [[Hi _] _]. cbn [snd] in Hi.
  destruct (ci_params _ Hi) as [Hpo Hpers].
  constructor; [done|by rewrite Hcp| |done| | |done|done|].
  - rewrite Hcp. cbn. by rewrite Hpers.
  - constructor. intros src pn ad Hb. pose proof (client_Open_level (e_crypto e) src pn ad Hi Hb) as H. cbn.
    destruct (client_Open (e_crypto e) src pn ad).2 as [[pl l]|err|]; [apply H|done|done].
  - intros level. cbn. unfold client_GetSealerWithEncryptionLevel.
    destruct (csc_secureAEAD _), (csc_forwardSecureAEAD _); repeat case_if; done.
  - rewrite Hlv. destruct (ci_sent _ Hi) as [rest E]. by eapply levels_few.
Qed.

(** C16: a server's session with its crypto setup, its connection parameters and its congestion
    control, all as they are: whatever the network, the application and the handshake do
    between two iterations of the run loop, the next iteration succeeds, and nothing in it
    blocks; when the session is closed, the run ends.  The sizes are bounded as in
    [session_never_fails]: packet numbers of the peer below 2^48, own ones below 2^46, and at
    most 2^31 open streams. *)
Theorem server_session_never_fails render s e rounds es ev :
  session_run (C := server) (ok := params_ok) (SA := cubicSendAlgorithm Cbrt) PerspectiveServer s ->
  moment server_setup css_connectionParameters css_aeadChanged e ->
  Forall (moment server_setup css_connectionParameters css_aeadChanged) es -> enough rounds es -> step_fits e s ev ->
  match ch_closeChan (ss_ch s) with
  | [] =>
      exists s1, maybeResetTimer e s = Ok s1 /\
      match handleEvent e s1 ev with
      | None => iteration e rounds es s ev = None
      | Some _ => exists s', iteration e rounds es s ev = Some (Ok s') /\
          session_run (C := server) (ok := params_ok) (SA := cubicSendAlgorithm Cbrt) PerspectiveServer s'
      end
  | ce :: _ => small s -> exists s' r, endRun render e s ce = Ok (s', r) /\ r <> Panic
  end.
Proof.
  intros Hrun He Hes Hen Hfit.
  pose proof (iteration_succeeds PerspectiveServer render s e rounds es ev Hrun (server_env_ok_session _ He)
    (Forall_impl _ _ _ Hes server_env_ok_session) Hen Hfit) as Hi.
  destruct (ch_closeChan (ss_ch s)); [|exact Hi]. destruct Hi as (s1 & E1 & Hi). exists s1. split; [done|].
  destruct (handleEvent e s1 ev); [|done]. replace (event_stuck e s ev) with false in Hi; [exact Hi|].
  destruct (session_run_safe _ s Hrun) as (_ & _ & Hhs). unfold event_stuck, nonce_stuck.
  rewrite (ho_perspective _ _ Hhs). by destruct ev, (ch_receivedPackets (ss_ch s)).
Qed.

(** The same for a client's session, whose run loop can get stuck with a diversification
    nonce *)
Theorem client_session_never_fails render s e rounds es ev :
  session_run (C := client) (ok := params_ok) (SA := cubicSendAlgorithm Cbrt) PerspectiveClient s ->
  moment client_setup csc_connectionParameters csc_aeadChanged e ->
  Forall (moment client_setup csc_connectionParameters csc_aeadChanged) es -> enough rounds es -> step_fits e s ev ->
  match ch_closeChan (ss_ch s) with
  | [] =>
      exists s1, maybeResetTimer e s = Ok s1 /\
      match handleEvent e s1 ev with
      | None => iteration e rounds es s ev = None
      | Some _ =>
          if event_stuck e s ev then iteration e rounds es s ev = Some Panic
          else exists s', iteration e rounds es s ev = Some (Ok s') /\
            session_run (C := client) (ok := params_ok) (SA := cubicSendAlgorithm Cbrt) PerspectiveClient s'
      end
  | ce :: _ => small s -> exists s' r, endRun render e s ce = Ok (s', r) /\ r <> Panic
  end.
Proof.
  intros Hrun He Hes. apply iteration_succeeds; [exact Hrun|by apply client_env_ok_session|].
  eapply Forall_impl; [exact Hes|]. exact client_env_ok_session.
Qed.
End secure.
