(* ===== verification/CryptoSamples.v ===== *)
(** * Concrete crypto setups

    A server with one certificate and a client, with primitives that can be evaluated, on which
    the theorems of the handshake and of the session with its implementations are applied. *)

From S2P Require Import Prelude Protocol Qerr Wire Frames AckFrame Frame ReceivedPackets PublicHeader PacketUnpacker.
From S2P Require Import StreamFrameSorter Handshake FlowControl RTTStats SendAlgorithm SentPackets Congestion.
From S2P Require Import PacketNumberGenerator StreamsMap Stream StreamFramer PacketPacker Session SessionSafety SessionSend SessionRun.
From S2P Require Import CertDict Crypto Certs CertManager ServerConfig CryptoSetupServer CryptoSetupClient CryptoHello CryptoHandshake SecureSession.

(** ** The parties

    Signatures that are the signed digest, certificates that are their bytes, and a server with
    one certificate *)

Definition plainSignatures : Signatures := {|
  sha256 := take 32;
  RSAPrivateKey := unit; SignerKey := unit; RSAPublicKey := unit; ECDSAPublicKey := unit;
  rsa_SignPSS _ digest _ := Ok (1 :: map (fun b => b mod 256) digest);
  signer_Sign _ digest _ := Ok (1 :: map (fun b => b mod 256) digest);
  rsa_VerifyPSS _ digest sig := bool_decide (sig = 1 :: map (fun b => b mod 256) digest);
  asn1_Unmarshal _ := Err EOF;
  ecdsa_Verify _ _ _ _ := false;
|}.
Definition plainX509 : X509 (Sg := plainSignatures) := {|
  Certificate := list Z; CertPool := unit;
  ParseCertificate data := Ok data;
  Raw c := c;
  PublicKey_of _ := PubRSA (H := plainSignatures) tt;
  cert_Verify _ _ _ _ _ := Ok tt;
|}.
#[local] Instance plainX509_laws : X509Laws (Sg := plainSignatures) plainX509.
Proof. constructor; cbn; congruence. Qed.
#[local] Existing Instances plainSignatures plainX509.

Definition sampleCert : tlsCertificate := mkTlsCertificate _ [[7; 8; 9]] (PrivRSA tt).
Definition sampleLeaf : Certificate (X509 := plainX509) := [7; 8; 9].
Definition sampleTLS : tlsConfig := mkTlsConfig _ None (mkCertConfig _ None [sampleCert] None).
Definition sampleChain : CertChain (tlsConfig * gmap Z (list Z)) :=
  certChain_interface (CS := sampleSets) (ZL := storedZlib 100) (LC := mapCache) (fun s => s).
Definition sampleManager : CertManager (certManager) :=
  certManager_interface (CS := sampleSets) (ZL := storedZlib 100) 1700000000000000000 [77].
Definition sampleHost : list Z := bytes_of "quic.clemente.io".
Definition sampleServer : ServerConfig (Gc := plainGCM) (tlsConfig * gmap Z (list Z)) :=
  mkServerConfig (Gc := plainGCM) (mkCurve25519KEX (replicate 32 0) (replicate 32 0)) (sampleTLS, ∅)
    (replicate 16 5) (replicate 8 6) [1].
Definition sampleClientEnv : clientEnv :=
  mkClientEnv 1700000000000000000 (Ok (replicate 32 3)) (Ok (replicate 20 4)) (Ok tt).
Definition sampleServerEnv : serverEnv :=
  mkServerEnv 1700000000000000000 (Ok (replicate 16 2)) (Ok []) (Ok (replicate 32 8)) (Ok (replicate 32 9))
    (Some (mkCurve25519KEX (replicate 32 0) (replicate 32 0))) (Ok tt).

Lemma sample_exchange :
  @CertExchange _ _ sampleChain sampleManager (sampleTLS, ∅) (NewCertManager None) sampleHost.
Proof.
  apply (certManager_exchange (X := plainX509) (CS := sampleSets) (ZL := storedZlib 100) (LC := mapCache) (fun s => s)
    1700000000000000000 [77] ∅ sampleTLS sampleHost sampleCert [7; 8; 9] [] [sampleLeaf] None).
  constructor.
  - reflexivity.
  - reflexivity.
  - repeat constructor; discriminate.
  - reflexivity.
  - exists sampleLeaf, []. split; [reflexivity|]. cbn. intros digest rand sig [= <-]. by apply bool_decide_eq_true.
  - apply sampleSets_ok.
  - repeat constructor; vm_compute; congruence.
  - intros k. apply lookup_empty.
  - split; vm_compute; reflexivity.
  - reflexivity.
  - intros crt E. vm_compute in E. injection E as <-. split; [by apply bytes_ok_check|]. vm_compute. congruence.
Qed.

Lemma sample_connect :
  @can_connect sumCurve plainGCM _ sampleChain _ sampleManager sampleHost [127; 0; 0; 1] 37 (NewCertManager None)
    sampleServer [36; 37].
Proof.
  constructor.
  - split; [discriminate|by apply short_literal].
  - lia.
  - constructor; cbn; (split; [reflexivity|]); [vm_compute; reflexivity|..]; by apply bytes_ok_check.
  - split; [by apply bytes_ok_check|by left].
  - by vm_compute.
  - split; [reflexivity|by apply short_literal].
  - apply sample_exchange.
Qed.

Lemma sample_client_ready : client_ready sampleClientEnv.
Proof.
  constructor; [by vm_compute|eexists; split; [reflexivity|split; [by apply bytes_ok_check|reflexivity]]..|reflexivity].
Qed.
Lemma sample_server_ready :
  @server_ready sumCurve plainGCM _ sampleChain sampleHost sampleServer sampleServerEnv.
Proof.
  constructor; [by vm_compute|eexists; split; [reflexivity|split; [by apply bytes_ok_check|reflexivity]]..| | |reflexivity].
  - eexists. split; [reflexivity|]. split; vm_compute; reflexivity.
  - intros chlo. eexists. split; [reflexivity|]. split; [discriminate|]. split.
    + constructor; [by vm_compute|]. apply Forall_map, Forall_true. intros x. apply Z.mod_pos_bound. lia.
    + rewrite len_cons. unfold len. rewrite length_map. unfold sha256, plainSignatures.
      rewrite length_take. unfold CryptoParameterMaxLength. lia.
Qed.

Lemma handshake_completes_witness :
  exists c s,
    handshake (Fn := plainFnv) (Ae := plainAes) (Hk := plainHkdf) (Cu := sumCurve) (CH := sampleChain) (CM := sampleManager)
      sampleClientEnv sampleClientEnv sampleClientEnv sampleClientEnv
      sampleServerEnv sampleServerEnv sampleServerEnv [1; 2; 3] 1 [4]
      (NewCryptoSetupClient sampleHost 1 37 (NewCertManager None) (NewConnectionParamatersManager PerspectiveClient 37) false [],
       NewCryptoSetup 1 [127; 0; 0; 1] 37 sampleServer (NewConnectionParamatersManager PerspectiveServer 37) [36; 37]) =
      ((c, s), Ok (false, false, true, ([1; 2; 3], EncryptionSecure))) /\
    csc_clientHelloCounter c = 3.
Proof.
  destruct (handshake_completes (Fn := plainFnv) (Ae := plainAes) (Hk := plainHkdf) (Cu := sumCurve) (CH := sampleChain) (CM := sampleManager)
    sampleHost [127; 0; 0; 1] 1 37 (NewCertManager None) sampleServer [36; 37] sample_connect
    sampleClientEnv sampleClientEnv sampleClientEnv sampleClientEnv
    sampleServerEnv sampleServerEnv sampleServerEnv [1; 2; 3] 1 [4]) as (c & s & E & Hcon).
  - repeat constructor; apply sample_client_ready.
  - repeat constructor; apply sample_server_ready.
  - vm_compute. congruence.
  - vm_compute. congruence.
  - by apply bytes_ok_check.
  - exists c, s. split; [exact E|]. apply (co_hellos _ _ _ Hcon).
Defined.

(** ** The states of the two parties *)

#[local] Existing Instances plainFnv plainAes plainHkdf sumCurve plainGCM sampleChain sampleManager.

#[local] Abbreviation theClient := (cryptoSetupClient (M := certManager)).
#[local] Abbreviation theServer := (cryptoSetupServer (CC := tlsConfig * gmap Z (list Z))).

Definition server0 : theServer :=
  NewCryptoSetup 1 [127; 0; 0; 1] 37 sampleServer (NewConnectionParamatersManager PerspectiveServer 37) [36; 37].
Definition client0 : theClient :=
  NewCryptoSetupClient sampleHost 1 37 (NewCertManager None) (NewConnectionParamatersManager PerspectiveClient 37) false [].

Definition messageOf (b : list Z) : HandshakeMessage :=
  match ParseHandshakeMessage b with Ok (m, _) => m | _ => mkHandshakeMessage 0 ∅ end.
Definition serverAfter (c : theClient) (s : theServer) : theServer :=
  (serverIteration sampleServerEnv (csc_lastSentCHLO c) s).1.
Definition clientAfter (ev : clientEvent) (c : theClient) : theClient :=
  (clientIteration sampleClientEnv ev c).1.

Definition client1 := (client_prepare sampleClientEnv client0).1.
Definition server1 := serverAfter client1 server0.
Definition rej1 := messageOf (reply server1).
Definition client2 := clientAfter (EvMessage rej1) client1.
Definition server2 := serverAfter client2 server1.
Definition rej2 := messageOf (reply server2).
Definition client3 := clientAfter (EvMessage rej2) client2.
Definition server3 := serverAfter client3 server2.
Definition client4 := clientAfter (EvDivNonce (css_diversificationNonce server3)) client3.

Lemma sample_chain_ok : chain_ok (sampleTLS, ∅ : gmap Z (list Z)).
Proof. by apply certChain_ok. Qed.
Lemma chunks_bytes fuel k l : bytes_ok l -> Forall bytes_ok (chunks fuel k l).
Proof.
  revert l. induction fuel as [|fuel IH]; intros [|x l] Hl; cbn [chunks]; try done.
  constructor; [by apply Forall_take|]. by apply IH, Forall_drop.
Qed.
Lemma sample_manager_ok : manager_ok (M := certManager).
Proof.
  apply certManager_ok; try done; [apply sampleSets_ok|]. intros dict r Hr. apply chunks_bytes, Hr.
Qed.

Lemma sample_client_env_ok : client_env_ok sampleClientEnv.
Proof. constructor; [split; [by apply bytes_ok_check|reflexivity]..|done]. Qed.
Lemma sample_server_env_ok : server_env_ok sampleServerEnv.
Proof.
  constructor; [split; [by apply bytes_ok_check|reflexivity]..| |done].
  eexists. split; [reflexivity|]. split; vm_compute; reflexivity.
Qed.

Lemma messageOf_ok b : bytes_ok b -> data_ok (hm_Data (messageOf b)).
Proof.
  intros Hb. unfold messageOf. pose proof (ParseHandshakeMessage_safe b Hb) as Hs.
  destruct (ParseHandshakeMessage b) as [[msg r]|err|]; [apply Hs|done|done].
Qed.

(** The client after the two rejections and the server's nonce *)
Lemma sample_iteration strict ev c :
  event_ok strict c ev -> is_ok (clientIteration sampleClientEnv ev c).2 = true ->
  client_step strict (true, c) (true, clientAfter ev c).
Proof.
  intros Hev Hok. unfold clientAfter. set (r := clientIteration sampleClientEnv ev c) in *.
  replace (true, r.1) with (is_ok r.2, r.1) by (by rewrite Hok).
  eapply cstep_iteration; [apply sample_client_env_ok|exact Hev|]. apply surjective_pairing.
Qed.

Lemma sample_client_steps strict :
  client_steps strict (client_started sampleClientEnv client0) (true, client4).
Proof.
  assert (is_ok (client_prepare sampleClientEnv client0).2 = true) as E by (vm_compute; reflexivity).
  assert (client_started sampleClientEnv client0 = (true, client1)) as ->.
  { unfold client_started, client1. rewrite <- E. by destruct (client_prepare sampleClientEnv client0). }
  apply (csteps_step _ _ (true, client3)); [apply (csteps_step _ _ (true, client2));
    [apply (csteps_step _ _ (true, client1)); [apply csteps_refl|]|]|]; apply sample_iteration.
  - split; [apply messageOf_ok; apply bytes_ok_check; vm_compute; reflexivity|split; [intros _|]; vm_compute; congruence].
  - vm_compute. reflexivity.
  - split; [apply messageOf_ok; apply bytes_ok_check; vm_compute; reflexivity|split; [intros _|]; vm_compute; congruence].
  - vm_compute. reflexivity.
  - exact I.
  - vm_compute. reflexivity.
Qed.

Lemma hello_bytes_ok c : forallb (fun b => (0 <=? b) && (b <? 256)) (csc_lastSentCHLO c) = true -> bytes_ok (csc_lastSentCHLO (M := certManager) c).
Proof. apply bytes_ok_check. Qed.

(** The server after the three hellos *)
Lemma sample_server_steps : server_steps (true, server0) (false, server3).
Proof.
  assert (forall (c : theClient) s b, bytes_ok (csc_lastSentCHLO c) ->
    match (serverIteration sampleServerEnv (csc_lastSentCHLO c) s).2 with Ok (Some _) => true | _ => false end = b ->
    server_step (true, s) (b, serverAfter c s)) as Hstep.
  { intros c s b Hb <-. unfold serverAfter. eapply step_iteration; [apply sample_server_env_ok|exact Hb|apply surjective_pairing]. }
  apply (steps_step _ (true, server2)); [apply (steps_step _ (true, server1)); [apply (steps_step _ (true, server0));
    [apply steps_refl|]|]|]; apply Hstep.
  all: first [apply hello_bytes_ok; vm_compute; reflexivity|vm_compute; reflexivity].
Qed.

(** ** The witnesses *)

Lemma client_keys_authenticated_witness : is_Some (csc_secureAEAD client4) /\ keys_verified client4.
Proof.
  split; [vm_compute; eauto|].
  apply (client_keys_authenticated sample_manager_ok sampleClientEnv sampleHost 1 37 (NewCertManager None)
    (NewConnectionParamatersManager PerspectiveClient 37) false [] true).
  - apply sample_client_env_ok.
  - split; [apply NewConnectionParamatersManager_ok|reflexivity].
  - reflexivity.
  - apply (sample_client_steps True).
Defined.

Lemma client_crypto_setup_safe_witness :
  (clientIteration sampleClientEnv (EvError EOF) client4).2 <> Panic /\
  exists rest, [EncryptionSecure; EncryptionForwardSecure] = lc_sent (csc_aeadChanged client4) ++ rest.
Proof.
  destruct (client_crypto_setup_safe (CS := sampleSets) (ZL := storedZlib 100) 1700000000000000000 [77] sampleClientEnv sampleHost 1 37 None
    (NewConnectionParamatersManager PerspectiveClient 37) false [] true client4) as (H1 & _ & H3).
  - apply sampleSets_ok.
  - intros dict r Hr. apply chunks_bytes, Hr.
  - done.
  - done.
  - done.
  - apply sample_client_env_ok.
  - split; [apply NewConnectionParamatersManager_ok|reflexivity].
  - apply (sample_client_steps False).
  - split; [|exact H3]. apply (H1 eq_refl); [apply sample_client_env_ok|exact I].
Defined.

(** What the server seals at the secure level *)
Definition securePacket : list Z := (server_GetSealer server3).2 [1; 2; 3] 1 [4].

Lemma client_levels_monotone_witness : EncryptionSecure <= EncryptionSecure /\
  (client_GetSealer client4).1 <= (client_GetSealer (client_Open client4 securePacket 1 [4]).1).1.
Proof.
  pose proof (client_levels_monotone sample_manager_ok sampleClientEnv sampleHost 1 37 (NewCertManager None)
    (NewConnectionParamatersManager PerspectiveClient 37) false [] (true, client4)
    (true, (client_Open client4 securePacket 1 [4]).1) securePacket 1 [4] securePacket 1 [4] [1; 2; 3] EncryptionSecure [1; 2; 3] EncryptionSecure) as H.
  cbn [fst snd] in H. apply H.
  - apply sample_client_env_ok.
  - split; [apply NewConnectionParamatersManager_ok|reflexivity].
  - reflexivity.
  - apply (sample_client_steps False).
  - apply bytes_ok_check. vm_compute. reflexivity.
  - vm_compute. reflexivity.
  - apply csteps_refl.
  - apply bytes_ok_check. vm_compute. reflexivity.
  - vm_compute. reflexivity.
Defined.

Lemma server_crypto_setup_safe_witness :
  (forall src pn ad, bytes_ok src -> (server_Open server3 src pn ad).2 <> Panic) /\
  len (css_diversificationNonce server3) = 32.
Proof.
  destruct (server_crypto_setup_safe 1 [127; 0; 0; 1] 37 sampleServer (NewConnectionParamatersManager PerspectiveServer 37)
    [36; 37] false server3) as (_ & H2 & _ & _ & H5).
  - apply sample_chain_ok.
  - apply NewConnectionParamatersManager_ok.
  - apply sample_server_steps.
  - split; [exact H2|]. apply H5. vm_compute. reflexivity.
Defined.

(** What a client seals without keys, and what the client of [client6] seals *)
Definition plainPacket : list Z := (client_GetSealer client1).2 [1; 2; 3] 1 [4].
Definition client5 : theClient := (client_Open client4 securePacket 1 [4]).1.
Definition client6 : theClient := clientAfter (EvMessage (messageOf (reply server3))) client5.
Definition finalPacket : list Z := (client_GetSealer client6).2 [5; 6] 2 [4].

Lemma server_levels_monotone_witness : EncryptionUnencrypted <= EncryptionForwardSecure /\
  (server_GetSealer server0).1 <= (server_GetSealer server3).1.
Proof.
  pose proof (server_levels_monotone 1 [127; 0; 0; 1] 37 sampleServer (NewConnectionParamatersManager PerspectiveServer 37)
    [36; 37] (true, server0) (false, server3) plainPacket 1 [4] finalPacket 2 [4] [1; 2; 3] EncryptionUnencrypted
    [5; 6] EncryptionForwardSecure) as H.
  cbn [fst snd] in H. apply H.
  - apply sample_chain_ok.
  - apply NewConnectionParamatersManager_ok.
  - apply steps_refl.
  - apply bytes_ok_check. vm_compute. reflexivity.
  - vm_compute. reflexivity.
  - change (server_Open server0 plainPacket 1 [4]).1 with server0. apply sample_server_steps.
  - apply bytes_ok_check. vm_compute. reflexivity.
  - vm_compute. reflexivity.
Defined.

(** The client of a completed handshake gets a second server hello. *)
Lemma second_server_hello_panics_witness :
  (handleSHLOMessage {[TagPUBS := replicate 32 1; TagVER := []]} client6).2 = Panic.
Proof.
  eapply second_server_hello_panics.
  - vm_compute. reflexivity.
  - vm_compute. reflexivity.
  - reflexivity.
  - vm_compute. reflexivity.
  - vm_compute. reflexivity.
Defined.

(** A client that got the certificate and the proof with the first rejection, and the config of
    another server *)
Definition earlyProof : HandshakeMessage := mkHandshakeMessage TagREJ
  (<[TagCERT := default [] (hm_Data rej2 !! TagCERT)]>
  (<[TagPROF := match SignServerProof (sampleTLS, ∅ : gmap Z (list Z)) sampleHost (csc_lastSentCHLO client1)
                        (ServerConfig_Get sampleServer) (Ok []) with Ok p => p | _ => [] end]> (hm_Data rej1))).
Definition verifiedClient : theClient := clientAfter (EvMessage earlyProof) client1.
Definition otherConfig : list Z :=
  ServerConfig_Get (mkServerConfig (Gc := plainGCM) (mkCurve25519KEX (replicate 32 1) (replicate 32 1)) (sampleTLS, ∅ : gmap Z (list Z))
    (replicate 16 66) (replicate 8 66) [1]).

Lemma empty_proof_replaces_config_witness :
  exists h' aead,
    (clientIteration sampleClientEnv (EvMessage (mkHandshakeMessage TagREJ {[TagSCFG := otherConfig; TagPROF := []]})) ;;!
     clientIteration sampleClientEnv (EvDivNonce (replicate 32 9))) verifiedClient = (h', Ok tt) /\
    csc_secureAEAD h' = Some aead.
Proof.
  edestruct (empty_proof_replaces_config verifiedClient sampleClientEnv sampleClientEnv otherConfig)
    as (h' & aead & nonce & chlo & E & Ea & _).
  all: cycle -1.
  { exists h', aead. split; [exact E|exact Ea]. }
  - vm_compute. reflexivity.
  - vm_compute. reflexivity.
  - vm_compute. reflexivity.
  - vm_compute. discriminate.
  - vm_compute. reflexivity.
  - vm_compute. reflexivity.
  - vm_compute. reflexivity.
  - discriminate.
  - discriminate.
  - reflexivity.
  - vm_compute. reflexivity.
  - discriminate.
  - vm_compute. reflexivity.
Defined.

(** A server with the versions 36 and 99, of which the client does not know 99 *)
Definition negotiatedClient : theClient :=
  NewCryptoSetupClient sampleHost 1 36 (NewCertManager None) (NewConnectionParamatersManager PerspectiveClient 36) false [36; 99].

Lemma unknown_version_looks_like_downgrade_witness :
  validateVersionList negotiatedClient (versionTags [36; 99]) = false.
Proof.
  destruct (unknown_version_looks_like_downgrade negotiatedClient [36; 99]) as [_ E].
  - reflexivity.
  - discriminate.
  - repeat constructor; vm_compute; congruence.
  - rewrite E. vm_compute. reflexivity.
Defined.

(** ** A server's session *)

#[local] Existing Instances cryptoSetupServer_interface cryptoSetupClient_interface.
#[local] Instance sampleSender : SendAlgorithm := cubicSendAlgorithm (fun x => x).

Definition serverEnvAt (h : theServer) (now : Z) : env :=
  mkEnv now (css_connectionParameters h) h 0 [1] (Ok (0, 0)) (Ok tt) noSteps (lc_sent (css_aeadChanged h))
    (lc_closed (css_aeadChanged h)) true.

Lemma server_setup_3 : server_setup server3.
Proof.
  exists 1, [127; 0; 0; 1], 37, sampleServer, (NewConnectionParamatersManager PerspectiveServer 37), [36; 37], false.
  split; [apply sample_chain_ok|]. split; [apply NewConnectionParamatersManager_ok|apply sample_server_steps].
Qed.
Lemma serverEnvAt_moment now : 0 < now -> moment server_setup css_connectionParameters css_aeadChanged (serverEnvAt server3 now).
Proof.
  intros Hnow.
  constructor; [apply server_setup_3|reflexivity|reflexivity|reflexivity|exact Hnow|discriminate|apply noSteps_ok].
Qed.

Definition secureSession : session :=
  newSession true 1 37 (serverEnvAt server3 1000000) NewRTTStats (NewCubicSender false 32 200).

Lemma secureSession_run :
  session_run (C := theServer) (ok := params_ok) PerspectiveServer (scheduleSending secureSession).
Proof.
  apply (run_outside _ secureSession); [|apply (out_removed _ [OnData]); by constructor].
  apply run_server; [reflexivity|apply server_env_ok_session, serverEnvAt_moment; reflexivity|lia|lia|exact I].
Qed.

Lemma server_session_never_fails_witness :
  exists s', iteration (serverEnvAt server3 2000000) 2000 (replicate 4000 (serverEnvAt server3 3000000))
    (scheduleSending secureSession) SendingScheduled = Some (Ok s').
Proof.
  destruct (server_session_never_fails (fun x => x) (fun _ => []) (scheduleSending secureSession) (serverEnvAt server3 2000000) 2000
    (replicate 4000 (serverEnvAt server3 3000000)) SendingScheduled) as (s1 & E1 & Hs).
  - apply secureSession_run.
  - apply serverEnvAt_moment. reflexivity.
  - apply Forall_replicate. apply serverEnvAt_moment. reflexivity.
  - split; [by vm_compute|]. unfold len. rewrite length_replicate. by vm_compute.
  - apply sendingScheduled_fits; [exact I|]. constructor; by vm_compute.
  - apply maybeResetTimer_time in E1 as [t ->]. destruct Hs as (s' & E & Hs'). exists s'. exact E.
Defined.
