(* ===== verification/Httplex.v ===== *)
(** * h2quic/vendor/golang.org/x/net/lex/httplex: lexical rules of HTTP

    The vendored package: tokens, header names and values, lists of tokens, and the ASCII form
    of a host.  [idna.ToASCII] is of another package and a parameter. *)

From S2P Require Import Prelude Crypto GoStrings.

(** The entries of [isTokenTable] that are true *)
Definition isTokenTable : list Z :=
  bytes_of "!#$%&'*+-.0123456789ABCDEFGHIJKLMNOPQRSTUWVXYZ^_`abcdefghijklmnopqrstuvwxyz|~".

Definition IsTokenRune (r : Z) : bool := (r <? 127) && existsb (fun c => c =? r) isTokenTable.
Definition isNotToken (r : Z) : bool := negb (IsTokenRune r).

Definition isOWS (b : Z) : bool := (b =? 32) || (b =? 9).
Definition trimOWS (x : list Z) : list Z := trimBoth isOWS x.

Definition lowerASCII (b : Z) : Z := if (65 <=? b) && (b <=? 90) then b + (97 - 65) else b.

(** The loop of [tokenEqual] from index [i] on; the lengths agree, so the index is in range. *)
Fixpoint tokenEqual_loop (fuel : nat) (i : nat) (t1 t2 : list Z) : bool :=
  match fuel, t1 with
  | S fuel, _ :: _ =>
      let (b, w) := DecodeRune t1 in
      if RuneSelf <=? b then false
      else match t2 !! i with
      | None => false
      | Some c =>
          if negb (lowerASCII b =? lowerASCII c) then false
          else tokenEqual_loop fuel (i + w) (drop w t1) t2
      end
  | _, _ => true
  end.
Definition tokenEqual (t1 t2 : list Z) : bool :=
  if negb (len t1 =? len t2) then false else tokenEqual_loop (length t1) 0 t1 t2.

(** The recursion is on the part behind a comma: [fuel] as large as the value is enough. *)
Fixpoint headerValueContainsToken_rec (fuel : nat) (v token : list Z) : bool :=
  let v := trimOWS v in
  match byteIndex v 44, fuel with
  | Some comma, S fuel =>
      tokenEqual (trimOWS (take comma v)) token || headerValueContainsToken_rec fuel (drop (S comma) v) token
  | Some _, O => false
  | None, _ => tokenEqual v token
  end.
Definition headerValueContainsToken (v token : list Z) : bool := headerValueContainsToken_rec (length v) v token.

Definition HeaderValuesContainsToken (values : list (list Z)) (token : list Z) : bool :=
  existsb (fun v => headerValueContainsToken v token) values.

Definition isLWS (b : Z) : bool := (b =? 32) || (b =? 9).
Definition isCTL (b : Z) : bool := (b <? 32) || (b =? 127).

Definition ValidHeaderFieldName (v : list Z) : bool :=
  if len v =? 0 then false else forallb IsTokenRune (runes v).

(** The entries of [validHostByte] that are true *)
Definition validHostByte : list Z :=
  bytes_of "0123456789abcdefghijklmnopqrstuvwxyzABCDEFGHIJKLMNOPQRSTUVWXYZ!$%&()*+,-.:;=['"  ++ bytes_of "]_~".
Definition ValidHostHeader (h : list Z) : bool := forallb (fun b => existsb (fun c => c =? b) validHostByte) h.

Definition ValidHeaderFieldValue (v : list Z) : bool := forallb (fun b => negb (isCTL b && negb (isLWS b))) v.

Definition isASCII (s : list Z) : bool := forallb (fun b => b <? RuneSelf) s.

(** Package idna: the result is ASCII, an ASCII host is its own ASCII form, and the
    delimiters of host and port stay as they are. *)
Class Idna : Type := { ToASCII : list Z -> res (list Z) }.
Class IdnaLaws (I : Idna) : Prop := {
  ToASCII_safe s : ToASCII s <> Panic;
  ToASCII_ascii s s' : ToASCII s = Ok s' -> isASCII s' = true;
  ToASCII_same s s' : isASCII s = true -> ToASCII s = Ok s' -> s' = s;
  ToASCII_delimiter s s' c : c = 58 \/ c = 91 \/ c = 93 -> ToASCII s = Ok s' -> c ∈ s' <-> c ∈ s;
}.

Definition PunycodeHostPort `{Id : Idna} (v : list Z) : res (list Z) :=
  if isASCII v then Ok v
  else
    let '(host, port) := match SplitHostPort v with Ok hp => hp | _ => (v, []) end in
    let! host := ToASCII host in
    if len port =? 0 then Ok host else Ok (JoinHostPort host port).

(** ** Names and values by their bytes *)

Lemma runes_low s : Forall (fun b => b < RuneSelf) s -> runes s = s.
Proof.
  unfold runes. induction 1 as [|b s Hb Hs IH]; [done|]. cbn [length runes_from].
  rewrite DecodeRune_low by done. cbn [drop]. rewrite ?drop_0. by rewrite IH.
Qed.

(** The first byte outside ASCII shows up as a rune outside ASCII. *)
Lemma runes_high s1 b s2 :
  Forall (fun b => b < RuneSelf) s1 -> RuneSelf <= b -> exists r rs, runes (s1 ++ b :: s2) = s1 ++ r :: rs /\ RuneSelf <= r.
Proof.
  intros Hs Hb. unfold runes. induction Hs as [|a s1 Ha Hs IH]; cbn [app length runes_from].
  - pose proof (DecodeRune_high b s2 Hb) as [Hr _]. destruct (DecodeRune (b :: s2)) as [r w]. eauto.
  - rewrite DecodeRune_low by done. cbn [drop]. rewrite ?drop_0. destruct IH as (r & rs & E & Hr). rewrite E. eauto.
Qed.

Lemma low_or_high s :
  Forall (fun b => b < RuneSelf) s \/ exists s1 b s2, s = s1 ++ b :: s2 /\ Forall (fun b => b < RuneSelf) s1 /\ RuneSelf <= b.
Proof.
  induction s as [|a s [IH|(s1 & b & s2 & -> & H1 & H2)]]; [by left| |].
  - destruct (Z.lt_ge_cases a RuneSelf); [left; by constructor|right]. exists [], a, s. by split_and!.
  - destruct (Z.lt_ge_cases a RuneSelf); [right; exists (a :: s1), b, s2; by split_and!; [|constructor|]|].
    right. exists [], a, (s1 ++ b :: s2). by split_and!.
Qed.

Lemma IsTokenRune_low r : IsTokenRune r = true -> r < 127.
Proof. unfold IsTokenRune. intros [H _]%andb_true_iff. by apply Z.ltb_lt. Qed.

Lemma tokens_Forall l : forallb IsTokenRune l = true <-> Forall (fun b => IsTokenRune b = true) l.
Proof. rewrite forallb_forall, Forall_forall. by setoid_rewrite list_elem_of_In. Qed.

(** A name is valid exactly if it is not empty and all its bytes are token characters: decoding
    runes makes no difference. *)
Lemma valid_header_name v :
  ValidHeaderFieldName v = true <-> v <> [] /\ Forall (fun b => IsTokenRune b = true) v.
Proof.
  unfold ValidHeaderFieldName. destruct (Z.eqb_spec (len v) 0) as [E|E].
  - apply len_zero in E as ->. split; [done|]. by intros [? _].
  - rewrite tokens_Forall. assert (v <> []) as Hv by by intros ->.
    destruct (low_or_high v) as [Hlow|(s1 & b & s2 & -> & H1 & H2)]; [rewrite runes_low by done; tauto|].
    destruct (runes_high s1 b s2 H1 H2) as (r & rs & -> & Hr). unfold RuneSelf in *.
    split; [intros Hf|intros [_ Hf]]; exfalso.
    + apply Forall_app in Hf as [_ Hf]. apply Forall_inv, IsTokenRune_low in Hf. lia.
    + apply Forall_app in Hf as [_ Hf]. apply Forall_inv, IsTokenRune_low in Hf. lia.
Qed.

Lemma token_ascii v : Forall (fun b => IsTokenRune b = true) v -> isASCII v = true.
Proof.
  intros Hv. apply forallb_forall. intros b Hb%list_elem_of_In. rewrite Forall_forall in Hv.
  apply Z.ltb_lt. pose proof (IsTokenRune_low b (Hv b Hb)). unfold RuneSelf. lia.
Qed.

(** Tokens are compared without regard to the case of ASCII letters; no other bytes match. *)
Lemma tokenEqual_loop_spec fuel i t1 t2 :
  length t1 = fuel -> (i + length t1 = length t2)%nat ->
  tokenEqual_loop fuel i t1 t2 =
    forallb (fun b => b <? RuneSelf) t1 && bool_decide (map lowerASCII t1 = map lowerASCII (drop i t2)).
Proof.
  revert i t1. induction fuel as [|fuel IH]; intros i t1 Hf Hl.
  - destruct t1; [|done]. cbn in *. rewrite drop_ge by lia. done.
  - destruct t1 as [|a t1]; [done|]. cbn [tokenEqual_loop length] in *. injection Hf as Hf.
    destruct (Z.lt_ge_cases a RuneSelf) as [Ha|Ha].
    + rewrite DecodeRune_low by done. rewrite (proj2 (Z.leb_gt _ _)) by done.
      destruct (lookup_lt_is_Some_2 t2 i) as [c Hc]; [lia|]. rewrite Hc. cbn [drop]. rewrite ?drop_0.
      rewrite (drop_S t2 c i) by done. cbn [forallb map]. rewrite (proj2 (Z.ltb_lt a _)) by done. cbn [andb].
      destruct (Z.eqb_spec (lowerASCII a) (lowerASCII c)) as [E|E]; cbn [negb].
      * rewrite IH by lia. rewrite Nat.add_1_r. f_equal. apply bool_decide_ext. rewrite E. split; [by intros ->|by intros [= ?]].
      * rewrite bool_decide_false by congruence. by rewrite andb_false_r.
    + pose proof (DecodeRune_high a t1 Ha) as [Hr _]. destruct (DecodeRune (a :: t1)) as [r w]. cbn in Hr.
      rewrite (proj2 (Z.leb_le _ _)) by done. cbn [forallb]. by rewrite (proj2 (Z.ltb_ge _ _)).
Qed.

Lemma tokenEqual_spec t1 t2 : tokenEqual t1 t2 = isASCII t1 && bool_decide (map lowerASCII t1 = map lowerASCII t2).
Proof.
  unfold tokenEqual. destruct (Z.eqb_spec (len t1) (len t2)) as [E|E]; cbn [negb].
  - rewrite tokenEqual_loop_spec; [done..|]. unfold len in E. cbn. lia.
  - rewrite bool_decide_false; [by rewrite andb_false_r|]. intros Hm%(f_equal length). rewrite !length_map in Hm.
    unfold len in E. lia.
Qed.

(** ** Lists of tokens *)

Lemma trimBoth_cons p b s : p b = true -> trimBoth p (b :: s) = trimBoth p s.
Proof. intros Hb. unfold trimBoth. cbn. by rewrite Hb. Qed.

Lemma trimLeft_snoc p b s : p b = true -> trimLeft p (s ++ [b]) = trimLeft p s ++ [b] \/ trimLeft p (s ++ [b]) = [] /\ trimLeft p s = [].
Proof.
  intros Hb. induction s as [|a s IH]; cbn; [rewrite Hb; by right|]. destruct (p a); [done|by left].
Qed.

Lemma trimBoth_snoc p b s : p b = true -> trimBoth p (s ++ [b]) = trimBoth p s.
Proof.
  intros Hb. unfold trimBoth. destruct (trimLeft_snoc p b s Hb) as [->|[-> ->]]; [|done].
  rewrite rev_app_distr. cbn. by rewrite Hb.
Qed.

Lemma splitOn_snoc c b s : b <> c -> exists init l, splitOn c s = init ++ [l] /\ splitOn c (s ++ [b]) = init ++ [l ++ [b]].
Proof.
  intros Hb. induction s as [|a s (init & l & E1 & E2)]; cbn.
  - rewrite (proj2 (Z.eqb_neq _ _)) by done. by exists [], [].
  - destruct (a =? c); rewrite E1, E2; [by exists ([] :: init), l|].
    destruct init as [|i0 init]; [by exists [], (a :: l)|by exists ((a :: i0) :: init), l].
Qed.

Lemma splitOn_cons c s : exists l ls, splitOn c s = l :: ls.
Proof. destruct s as [|a s]; cbn; [eauto|]. destruct (a =? c); [eauto|]. destruct (splitOn c s); eauto. Qed.

Lemma split_trimLeft p c s :
  p c = false -> map (trimBoth p) (splitOn c (trimLeft p s)) = map (trimBoth p) (splitOn c s).
Proof.
  intros Hc. induction s as [|a s IH]; [done|]. cbn [trimLeft]. destruct (p a) eqn:Ea; [|done]. rewrite IH. cbn [splitOn].
  rewrite (proj2 (Z.eqb_neq a c)) by congruence. destruct (splitOn_cons c s) as (l & ls & ->). cbn [map]. by rewrite trimBoth_cons.
Qed.

Lemma split_trim p c s : p c = false -> map (trimBoth p) (splitOn c (trimBoth p s)) = map (trimBoth p) (splitOn c s).
Proof.
  intros Hc. rewrite <- (split_trimLeft p c s) by done. unfold trimBoth at 2. generalize (trimLeft p s) as t. intros t.
  induction t as [|b t IH] using rev_ind; [done|]. rewrite rev_app_distr. cbn [app rev trimLeft].
  destruct (p b) eqn:Eb; [|cbn [rev]; by rewrite rev_involutive]. rewrite IH.
  destruct (splitOn_snoc c b t) as (init & l & -> & ->); [congruence|]. rewrite !map_app. cbn [map]. by rewrite trimBoth_snoc.
Qed.

Lemma length_trimBoth p s : (length (trimBoth p s) <= length s)%nat.
Proof.
  assert (forall t, (length (trimLeft p t) <= length t)%nat) as Hl.
  { intros t. induction t as [|a t IH]; cbn; [lia|]. destruct (p a); cbn; lia. }
  unfold trimBoth. rewrite length_rev. pose proof (Hl (rev (trimLeft p s))). pose proof (Hl s).
  rewrite length_rev in *. lia.
Qed.

Lemma trimLeft_idem p s : trimLeft p (trimLeft p s) = trimLeft p s.
Proof. induction s as [|a s IH]; [done|]. cbn. destruct (p a) eqn:E; [done|]. cbn. by rewrite E. Qed.

(** The head of a trimmed string stays when its end is trimmed. *)
Lemma trimLeft_fixed p s : trimLeft p s = s -> trimLeft p (rev (trimLeft p (rev s))) = rev (trimLeft p (rev s)).
Proof.
  induction s as [|b s IH] using rev_ind; [done|]. intros Hs. rewrite rev_app_distr. cbn [app rev trimLeft].
  destruct (p b) eqn:Eb; [|cbn [rev]; by rewrite rev_involutive].
  apply IH. destruct (trimLeft_snoc p b s Eb) as [E|[E _]]; rewrite Hs in E; [|by apply app_nil in E as [_ ?]].
  by apply app_inv_tail in E.
Qed.

Lemma trimBoth_idem p s : trimBoth p (trimBoth p s) = trimBoth p s.
Proof.
  unfold trimBoth at 2 3. pose proof (trimLeft_fixed p (trimLeft p s) (trimLeft_idem p s)) as E.
  unfold trimBoth. rewrite E, rev_involutive, trimLeft_idem. done.
Qed.

(** What [headerValueContainsToken] means: one of the elements between commas is the token, after
    the white space around it has been removed. *)
Lemma contains_token_rec fuel v token :
  (length v <= fuel)%nat ->
  headerValueContainsToken_rec fuel v token = existsb (fun e => tokenEqual e token) (map trimOWS (splitOn 44 v)).
Proof.
  revert v. induction fuel as [|fuel IH]; intros v Hv.
  - destruct v; [|cbn in Hv; lia]. cbn -[tokenEqual]. by rewrite orb_false_r.
  - cbn [headerValueContainsToken_rec]. change (map trimOWS (splitOn 44 v)) with (map (trimBoth isOWS) (splitOn 44 v)). rewrite <- (split_trim isOWS 44 v) by done.
    change (trimBoth isOWS v) with (trimOWS v). change (trimBoth isOWS) with trimOWS.
    pose proof (length_trimBoth isOWS v) as Hl. change (trimBoth isOWS v) with (trimOWS v) in Hl.
    pose proof (byteIndex_split 44 (trimOWS v)) as Hb. destruct (byteIndex (trimOWS v) 44) as [comma|].
    + destruct Hb as [E Hn]. assert (length (drop (S comma) (trimOWS v)) < length (trimOWS v))%nat as Hlt.
      { pose proof (f_equal length E) as El. rewrite length_app in El. cbn [length] in El. lia. }
      rewrite E at 3. rewrite splitOn_app by done. cbn [map existsb]. rewrite <- IH by lia. done.
    + rewrite splitOn_none by done. cbn. rewrite orb_false_r. unfold trimOWS. by rewrite trimBoth_idem.
Qed.
