(* ===== verification/Http.v ===== *)
(** * HTTP headers, requests and responses, and the libraries of HTTP/2

    What package h2quic uses of net/http: canonical keys, [http.Header], and the fields of
    requests and responses.  HPACK, the frames of HTTP/2 and URLs are of other packages or too
    large a part of the standard library: classes with the laws of their documentation. *)

From S2P Require Import Prelude Wire Crypto GoStrings Httplex.

(** ** http.Header *)

(** [http.CanonicalHeaderKey]: a letter at the start or behind a hyphen is upper case, every
    other one lower case; a key that is not a token stays as it is. *)
Fixpoint canonical (upper : bool) (s : list Z) : list Z :=
  match s with
  | [] => []
  | c :: s =>
      let c := if upper && ((97 <=? c) && (c <=? 122)) then c - 32
               else if negb upper && ((65 <=? c) && (c <=? 90)) then c + 32 else c in
      c :: canonical (c =? 45) s
  end.
Definition CanonicalHeaderKey (s : list Z) : list Z := if forallb IsTokenRune s then canonical true s else s.

(** A map from keys to lists of values; a missing key has no values. *)
Abbreviation Header := (gmap (list Z) (list (list Z))).
Definition values (h : Header) (k : list Z) : list (list Z) := default [] (h !! k).
Definition Header_Add (h : Header) (k v : list Z) : Header :=
  <[CanonicalHeaderKey k := values h (CanonicalHeaderKey k) ++ [v]]> h.
Definition Header_Set (h : Header) (k v : list Z) : Header := <[CanonicalHeaderKey k := [v]]> h.
Definition Header_Get (h : Header) (k : list Z) : list Z := hd [] (values h (CanonicalHeaderKey k)).
Definition Header_Del (h : Header) (k : list Z) : Header := delete (CanonicalHeaderKey k) h.

(** ** URLs *)

Class Urls : Type := {
  URL : Type;
  url_Parse : list Z -> res URL;
  url_Scheme : URL -> list Z;
  url_Host : URL -> list Z;
  url_Opaque : URL -> list Z;
  url_RequestURI : URL -> list Z;
}.

(** Parsing a URL returns. *)
Class UrlsLaws (U : Urls) : Prop := { url_Parse_safe s : url_Parse s <> Panic }.

(** ** Requests and responses

    A body is a value of [B]; it is nil when there is none.  The header of a request can be nil. *)

Record Request `{U : Urls} {B : Type} : Type := mkRequest {
  rq_Method : list Z;
  rq_URL : option URL;
  rq_Proto : list Z;
  rq_ProtoMajor : Z;
  rq_ProtoMinor : Z;
  rq_Header : option Header;
  rq_Body : option B;
  rq_ContentLength : Z;
  rq_Host : list Z;
  rq_RequestURI : list Z;
  rq_RemoteAddr : list Z;
}.
Arguments Request {U} B.

Record Response {B : Type} : Type := mkResponse {
  rs_Proto : list Z;
  rs_ProtoMajor : Z;
  rs_StatusCode : Z;
  rs_Status : list Z;
  rs_Header : Header;
  rs_Trailer : option Header;
  rs_ContentLength : Z;
  rs_Body : option B;
  rs_Uncompressed : bool;
}.
Arguments Response B : clear implicits.

(** ** HPACK *)

Record HeaderField : Type := mkHeaderField {
  hf_Name : list Z;
  hf_Value : list Z;
}.
#[export] Instance HeaderField_eq_dec : EqDecision HeaderField.
Proof. solve_decision. Defined.

Class Hpack : Type := {
  hp_Encoder : Type;
  hp_Decoder : Type;
  hp_NewEncoder : hp_Encoder;
  hp_NewDecoder : Z -> hp_Decoder;
  hp_WriteField : hp_Encoder -> HeaderField -> hp_Encoder * list Z;
  hp_DecodeFull : hp_Decoder -> list Z -> hp_Decoder * res (list HeaderField);
  IsPseudo : HeaderField -> bool;
}.

(** The fields written one after the other *)
Fixpoint hp_WriteFields `{Hp : Hpack} (e : hp_Encoder) (fs : list HeaderField) : hp_Encoder * list Z :=
  match fs with
  | [] => (e, [])
  | f :: fs =>
      let '(e, b) := hp_WriteField e f in
      let '(e, bs) := hp_WriteFields e fs in
      (e, b ++ bs)
  end.

(** A decoder that is in step with an encoder reads back what it writes, and they stay in step.
    The indices of HPACK count from the latest entry, so that a new encoder is in step with a
    decoder that has entries of its own. *)
Class HpackLaws (Hp : Hpack) : Type := {
  hp_sync : hp_Encoder -> hp_Decoder -> Prop;
  hp_sync_new : hp_sync hp_NewEncoder (hp_NewDecoder 4096);
  hp_sync_fresh e d : hp_sync e d -> hp_sync hp_NewEncoder d;
  hp_sync_fields e d fs : hp_sync e d ->
    exists d', hp_DecodeFull d (hp_WriteFields e fs).2 = (d', Ok fs) /\ hp_sync (hp_WriteFields e fs).1 d';
  hp_Decode_safe d data : (hp_DecodeFull d data).2 <> Panic;
  IsPseudo_colon f : IsPseudo f = HasPrefix (hf_Name f) [58];
}.

(** ** Frames of HTTP/2 *)

Record HeadersFrameParam : Type := mkHeadersFrameParam {
  hp_StreamID : Z;
  hp_EndHeaders : bool;
  hp_EndStream : bool;
  hp_BlockFragment : list Z;
  hp_PriorityWeight : Z;
}.
Inductive h2Frame : Type :=
| HeadersFrame (streamID : Z) (headersEnded streamEnded : bool) (fragment : list Z)
| OtherFrame (streamID : Z).
Definition frame_StreamID (f : h2Frame) : Z := match f with HeadersFrame id _ _ _ | OtherFrame id => id end.

(** The bytes that the framer writes, and reading a frame from what can be read before the
    stream ends, with the rest *)
Class Framer : Type := {
  WriteHeaders : HeadersFrameParam -> res (list Z);
  ReadFrame : list Z -> res (h2Frame * list Z);
}.
(** A frame with a valid stream ID whose block is below the limit of 2^24 bytes survives. *)
Class FramerLaws (Fr : Framer) : Prop := {
  WriteHeaders_Read p rest :
    0 < hp_StreamID p < 2 ^ 31 -> len (hp_BlockFragment p) < 2 ^ 24 - 5 ->
    exists b, WriteHeaders p = Ok b /\
      ReadFrame (b ++ rest) = Ok (HeadersFrame (hp_StreamID p) (hp_EndHeaders p) (hp_EndStream p) (hp_BlockFragment p), rest);
  WriteHeaders_safe p : WriteHeaders p <> Panic;
  ReadFrame_safe s : ReadFrame s <> Panic;
  ReadFrame_shorter s f rest : ReadFrame s = Ok (f, rest) -> (length rest < length s)%nat;
}.

(** [http2.MetaHeadersFrame]: the fields of a header block *)
Record MetaHeadersFrame : Type := mkMetaHeadersFrame {
  mh_Fields : list HeaderField;
  mh_Truncated : bool;
}.
Class MetaHeaders : Type := {
  PseudoValue : MetaHeadersFrame -> list Z -> list Z;
  RegularFields : MetaHeadersFrame -> list HeaderField;
}.
(** The pseudo headers come first. *)
Class MetaHeadersLaws `{Hp : Hpack} (Mh : MetaHeaders) : Prop := {
  PseudoValue_first name v fs t :
    PseudoValue (mkMetaHeadersFrame (mkHeaderField (58 :: name) v :: fs) t) name = v;
  RegularFields_rest ps rs t :
    Forall (fun f => IsPseudo f = true) ps -> Forall (fun f => IsPseudo f = false) rs ->
    RegularFields (mkMetaHeadersFrame (ps ++ rs) t) = rs;
}.

(** ** Lemmas *)

Lemma canonical_lower upper s :
  map lowerASCII (canonical upper s) = map lowerASCII s.
Proof.
  revert upper. induction s as [|c s IH]; intros upper; [done|]. cbn [canonical map]. rewrite IH. f_equal.
  unfold lowerASCII. repeat case_if; lia.
Qed.

(** The canonical form only depends on the letters without their case. *)
Lemma canonical_map_lower upper s : canonical upper (map lowerASCII s) = canonical upper s.
Proof.
  revert upper. induction s as [|c s IH]; intros upper; [done|]. cbn [canonical map].
  assert ((if upper && ((97 <=? lowerASCII c) && (lowerASCII c <=? 122)) then lowerASCII c - 32
           else if negb upper && ((65 <=? lowerASCII c) && (lowerASCII c <=? 90)) then lowerASCII c + 32 else lowerASCII c) =
          (if upper && ((97 <=? c) && (c <=? 122)) then c - 32
           else if negb upper && ((65 <=? c) && (c <=? 90)) then c + 32 else c)) as ->; [|by rewrite IH].
  unfold lowerASCII. destruct upper; cbn [andb negb]; repeat case_if; lia.
Qed.
