(* ===== verification/H2Messages.v ===== *)
(** * h2quic: requests and responses as header fields

    request.go, request_writer.go, response.go, response_writer.go, request_body.go and
    gzipreader.go: a client's request becomes a list of fields, from which the server makes its
    request; a server's response becomes a list of fields, from which the client makes its
    response.  The order in which a header is iterated over is an argument. *)

From S2P Require Import Prelude Wire Crypto GoStrings Httplex Http.

(** A string constant *)
#[local] Abbreviation str := bytes_of.

Section messages.
Context `{Hp : Hpack, U : Urls, Id : Idna, Mh : MetaHeaders} {B : Type} (unicodeLower : list Z -> list Z).
#[local] Abbreviation lower := (ToLower unicodeLower).

(** ** request.go *)

Record scan : Type := mkScan {
  sc_path : list Z;
  sc_authority : list Z;
  sc_method : list Z;
  sc_contentLength : list Z;
  sc_headers : Header;
}.
(** One iteration of the loop over the fields *)
Definition scanField (s : scan) (h : HeaderField) : scan :=
  if bool_decide (hf_Name h = str ":path")
  then mkScan (hf_Value h) (sc_authority s) (sc_method s) (sc_contentLength s) (sc_headers s)
  else if bool_decide (hf_Name h = str ":method")
  then mkScan (sc_path s) (sc_authority s) (hf_Value h) (sc_contentLength s) (sc_headers s)
  else if bool_decide (hf_Name h = str ":authority")
  then mkScan (sc_path s) (hf_Value h) (sc_method s) (sc_contentLength s) (sc_headers s)
  else if bool_decide (hf_Name h = str "content-length")
  then mkScan (sc_path s) (sc_authority s) (sc_method s) (hf_Value h) (sc_headers s)
  else if negb (IsPseudo h)
  then mkScan (sc_path s) (sc_authority s) (sc_method s) (sc_contentLength s)
         (Header_Add (sc_headers s) (hf_Name h) (hf_Value h))
  else s.

Definition requestFromHeaders (headers : list HeaderField) : res (Request B) :=
  let s := fold_left scanField headers (mkScan [] [] [] [] ∅) in
  let httpHeaders := sc_headers s in
  let httpHeaders :=
    if len (values httpHeaders (str "Cookie")) >? 0
    then Header_Set httpHeaders (str "Cookie") (joinWith (str "; ") (values httpHeaders (str "Cookie")))
    else httpHeaders in
  if (len (sc_path s) =? 0) || (len (sc_authority s) =? 0) || (len (sc_method s) =? 0)
  then Err (ErrNew ":path, :authority and :method must not be empty")
  else
    let! u := url_Parse (sc_path s) in
    let! contentLength := (if len (sc_contentLength s) >? 0 then ParseInt (sc_contentLength s) else Ok 0) in
    Ok (mkRequest _ _ (sc_method s) (Some u) (str "HTTP/2.0") 2 0 (Some httpHeaders) None contentLength
          (sc_authority s) (sc_path s) []).

Definition hostnameFromRequest (req : Request B) : list Z :=
  if len (rq_Host req) >? 0 then rq_Host req
  else match rq_URL req with
  | Some u => url_Host u
  | None => []
  end.

(** ** request_writer.go *)

Definition defaultUserAgent : list Z := str "quic-go".

Definition validPseudoPath (v : list Z) : bool :=
  match v with
  | c :: rest => (c =? 47) && match rest with [] => true | c1 :: _ => negb (c1 =? 47) end || bool_decide (v = str "*")
  | [] => false
  end.

Definition actualContentLength (req : Request B) : Z :=
  match rq_Body req with
  | None => 0
  | Some _ => if negb (rq_ContentLength req =? 0) then rq_ContentLength req else -1
  end.

Definition shouldSendReqContentLength (method : list Z) (contentLength : Z) : bool :=
  if contentLength >? 0 then true
  else if contentLength <? 0 then false
  else bool_decide (method ∈ [str "POST"; str "PUT"; str "PATCH"]).

(** The path of the request; a nil URL panics. *)
Definition requestPath (req : Request B) (host : list Z) : res (list Z) :=
  if bool_decide (rq_Method req = str "CONNECT") then Ok []
  else match rq_URL req with
  | None => Panic
  | Some u =>
      let path := url_RequestURI u in
      if validPseudoPath path then Ok path
      else
        let orig := path in
        let path := TrimPrefix path (url_Scheme u ++ str "://" ++ host) in
        if validPseudoPath path then Ok path
        else if negb (len (url_Opaque u) =? 0)
        then Err (Errorf "invalid request :path %q from URL.Opaque = %q" (orig ++ url_Opaque u))
        else Err (Errorf "invalid request :path %q" orig)
  end.

(** The loop that checks the header: the first name or value that is not valid *)
Fixpoint checkHeaders (nameFmt valueFmt : string) (order : list (list Z * list (list Z))) : res unit :=
  match order with
  | [] => Ok tt
  | (k, vv) :: order =>
      if negb (ValidHeaderFieldName k) then Err (Errorf nameFmt k)
      else match List.find (fun v => negb (ValidHeaderFieldValue v)) vv with
      | Some v => Err (Errorf valueFmt (v ++ k))
      | None => checkHeaders nameFmt valueFmt order
      end
  end.

(** The fields for one entry of the header, and whether it is the user agent *)
Definition headerFields (e : list Z * list (list Z)) : list HeaderField * bool :=
  let '(k, vv) := e in
  let lowKey := lower k in
  if bool_decide (lowKey ∈ [str "host"; str "content-length"]) then ([], false)
  else if bool_decide (lowKey ∈ [str "connection"; str "proxy-connection"; str "transfer-encoding";
                                 str "upgrade"; str "keep-alive"]) then ([], false)
  else if bool_decide (lowKey = str "user-agent") then
    (match vv with
     | [] => []
     | v :: _ => if len v =? 0 then [] else [mkHeaderField lowKey v]
     end, true)
  else (map (mkHeaderField lowKey) vv, false).

(** The fields of a request, in the order in which they are written *)
Definition requestFields (order1 order2 : list (list Z * list (list Z))) (req : Request B)
    (addGzipHeader : bool) (trailers : list Z) (contentLength : Z) : res (list HeaderField) :=
  let! host := (if len (rq_Host req) =? 0
                then match rq_URL req with Some u => Ok (url_Host u) | None => Panic end
                else Ok (rq_Host req)) in
  let! host := PunycodeHostPort host in
  let! path := requestPath req host in
  let! _ := checkHeaders "invalid HTTP header name %q" "invalid HTTP header value %q for header %q" order1 in
  let fields := map headerFields order2 in
  let didUA := existsb snd fields in
  Ok ([mkHeaderField (str ":authority") host; mkHeaderField (str ":method") (rq_Method req)]
      ++ (if negb (bool_decide (rq_Method req = str "CONNECT"))
          then [mkHeaderField (str ":path") path; mkHeaderField (str ":scheme") (from_option url_Scheme [] (rq_URL req))] else [])
      ++ (if negb (len trailers =? 0) then [mkHeaderField (str "trailer") trailers] else [])
      ++ concat (map fst fields)
      ++ (if shouldSendReqContentLength (rq_Method req) contentLength
          then [mkHeaderField (str "content-length") (FormatInt contentLength)] else [])
      ++ (if addGzipHeader then [mkHeaderField (str "accept-encoding") (str "gzip")] else [])
      ++ (if negb didUA then [mkHeaderField (str "user-agent") defaultUserAgent] else [])).

Record requestWriter : Type := mkRequestWriter {
  rw_henc : hp_Encoder;
  rw_hbuf : list Z;
}.
Definition newRequestWriter : requestWriter := mkRequestWriter hp_NewEncoder [].

(** The buffer is reset first, and nothing is written before all checks have passed. *)
Definition encodeHeaders (order1 order2 : list (list Z * list (list Z))) (w : requestWriter) (req : Request B)
    (addGzipHeader : bool) (trailers : list Z) (contentLength : Z) : requestWriter * res (list Z) :=
  match requestFields order1 order2 req addGzipHeader trailers contentLength with
  | Ok fs =>
      let '(henc, b) := hp_WriteFields (rw_henc w) fs in
      (mkRequestWriter henc b, Ok b)
  | Err e => (mkRequestWriter (rw_henc w) [], Err e)
  | Panic => (mkRequestWriter (rw_henc w) [], Panic)
  end.

(** The frame with the buffer is written whether or not [encodeHeaders] has failed. *)
Definition WriteRequest `{Fr : Framer} (order1 order2 : list (list Z * list (list Z))) (w : requestWriter)
    (req : Request B) (dataStreamID : Z) (endStream requestGzip : bool) : requestWriter * res (list Z) :=
  match encodeHeaders order1 order2 w req requestGzip [] (actualContentLength req) with
  | (w, Panic) => (w, Panic)
  | (w, _) => (w, WriteHeaders (mkHeadersFrameParam (u32 dataStreamID) true endStream (rw_hbuf w) 0xff))
  end.

(** ** response.go *)

Definition errResponseHeaderListSize : goerror := ErrNew "http2: response header list larger than advertised limit".

(** [foreachHeaderElement]: the elements for which the function is called *)
Definition foreachHeaderElement (v : list Z) : list (list Z) :=
  let v := TrimString v in
  if len v =? 0 then []
  else if negb (contains v 44) then [v]
  else List.filter (fun f => negb (len f =? 0)) (map TrimString (splitOn 44 v)).

(** One iteration of the loop over the regular fields: the header and the trailer *)
Definition responseField (s : Header * option Header) (hf : HeaderField) : Header * option Header :=
  let '(h, t) := s in
  let key := CanonicalHeaderKey (hf_Name hf) in
  if bool_decide (key = str "Trailer") then
    (h, Some (fold_left (fun t v => <[CanonicalHeaderKey v := []]> t) (foreachHeaderElement (hf_Value hf)) (default ∅ t)))
  else (<[key := values h key ++ [hf_Value hf]]> h, t).

(** [statusText] is [http.StatusText]. *)
Definition responseFromHeaders (statusText : Z -> list Z) (f : MetaHeadersFrame) : res (Response B) :=
  if mh_Truncated f then Err errResponseHeaderListSize
  else
    let status := PseudoValue f (str "status") in
    if len status =? 0 then Err (ErrNew "missing status pseudo header")
    else match ParseInt status with
    | Ok statusCode =>
        let '(h, t) := fold_left responseField (RegularFields f) (∅, None) in
        Ok (mkResponse _ (str "HTTP/2.0") 2 statusCode (status ++ str " " ++ statusText statusCode) h t 0 None false)
    | Err _ => Err (ErrNew "malformed non-numeric status pseudo header")
    | Panic => Panic
    end.

Definition set_ContentLength (res : Response B) (n : Z) : Response B :=
  mkResponse _ (rs_Proto res) (rs_ProtoMajor res) (rs_StatusCode res) (rs_Status res) (rs_Header res)
    (rs_Trailer res) n (rs_Body res) (rs_Uncompressed res).
Definition setLength (res : Response B) (isHead streamEnded : bool) : Response B :=
  if negb streamEnded || isHead then
    let res := set_ContentLength res (-1) in
    match values (rs_Header res) (str "Content-Length") with
    | [clen] => match ParseInt clen with Ok clen64 => set_ContentLength res clen64 | _ => res end
    | _ => res
    end
  else res.

(** ** response_writer.go *)

Record responseWriter : Type := mkResponseWriter {
  w_dataStreamID : Z;
  w_header : Header;
  w_status : Z;
  w_headerWritten : bool;
}.
Definition newResponseWriter (dataStreamID : Z) : responseWriter := mkResponseWriter dataStreamID ∅ 0 false.

Definition bodyAllowedForStatus (status : Z) : bool :=
  if (status >=? 100) && (status <=? 199) then false
  else if status =? 204 then false
  else if status =? 304 then false
  else true.

(** The fields of a response *)
Definition responseFields (order : list (list Z * list (list Z))) (status : Z) : list HeaderField :=
  mkHeaderField (str ":status") (FormatInt status) ::
  concat (map (fun '(k, v) => map (mkHeaderField (lower k)) v) order).

(** [WriteHeader]: what is written on the header stream, if anything; an error of writing it is
    only logged.  Every response has an encoder of its own. *)
Definition WriteHeader `{Fr : Framer} (order : list (list Z * list (list Z))) (w : responseWriter) (status : Z)
    : responseWriter * option (res (list Z)) :=
  if w_headerWritten w then (w, None)
  else
    (mkResponseWriter (w_dataStreamID w) (w_header w) status true,
     Some (WriteHeaders (mkHeadersFrameParam (u32 (w_dataStreamID w)) true false
                           (hp_WriteFields hp_NewEncoder (responseFields order status)).2 0))).

Definition ErrBodyNotAllowed : goerror := ErrNew "http: request method or response status code does not allow body".
(** [Write]: the header that is written for it, and the data that goes to the data stream *)
Definition responseWriter_Write `{Fr : Framer} (order : list (list Z * list (list Z))) (w : responseWriter) (p : list Z)
    : responseWriter * option (res (list Z)) * res (list Z) :=
  let '(w, out) := if negb (w_headerWritten w) then WriteHeader order w 200 else (w, None) in
  if negb (bodyAllowedForStatus (w_status w)) then (w, out, Err ErrBodyNotAllowed)
  else (w, out, Ok p).

(** ** gzipreader.go *)

(** [R] is the type of a [gzip.Reader]; the underlying body is read by [newReader]. *)
Record gzipReader {R : Type} : Type := mkGzipReader {
  gr_zr : option R;
  gr_zerr : option goerror;
}.
Definition gzipReader_Read {R : Type} (newReader : res R) (read : R -> R * res (list Z)) (gz : gzipReader (R := R))
    : gzipReader (R := R) * res (list Z) :=
  match gr_zerr gz with
  | Some e => (gz, Err e)
  | None =>
      match (match gr_zr gz with Some zr => Ok zr | None => newReader end) with
      | Ok zr => let '(zr, r) := read zr in (mkGzipReader R (Some zr) None, r)
      | Err e => (mkGzipReader R None (Some e), Err e)
      | Panic => (gz, Panic)
      end
  end.
End messages.

(** ** Keys of headers *)

(** A token with the letters as [CanonicalHeaderKey] leaves them *)
Definition key_ok (k : list Z) : Prop := ValidHeaderFieldName k = true /\ CanonicalHeaderKey k = k.

Lemma lowerASCII_token c : IsTokenRune c = true -> IsTokenRune (lowerASCII c) = true.
Proof.
  unfold lowerASCII. destruct ((65 <=? c) && (c <=? 90)) eqn:E; [|done]. to_prop. intros _.
  assert (c ∈ seqZ 65 26) as Hc by (apply elem_of_seqZ; lia).
  assert (Forall (fun c => IsTokenRune (c + (97 - 65)) = true) (seqZ 65 26)) as Hf by (vm_compute; repeat constructor).
  by apply (proj1 (Forall_forall _ _) Hf).
Qed.

Section keys.
Context (unicodeLower : list Z -> list Z).
#[local] Abbreviation lower := (ToLower unicodeLower).

Lemma lower_token k : Forall (fun b => IsTokenRune b = true) k -> lower k = map lowerASCII k.
Proof.
  intros Hk. unfold ToLower. pose proof (token_ascii k Hk) as Ha. unfold isASCII, RuneSelf in Ha. by rewrite Ha.
Qed.

Lemma tokens_lower k : Forall (fun b => IsTokenRune b = true) k -> Forall (fun b => IsTokenRune b = true) (map lowerASCII k).
Proof. intros Hk. apply Forall_map. eapply Forall_impl; [exact Hk|]. intros c. apply lowerASCII_token. Qed.

Lemma canonical_of_lower k : Forall (fun b => IsTokenRune b = true) k -> CanonicalHeaderKey (map lowerASCII k) = CanonicalHeaderKey k.
Proof.
  intros Hk. unfold CanonicalHeaderKey. rewrite (proj2 (tokens_Forall _)) by by apply tokens_lower.
  rewrite (proj2 (tokens_Forall _)) by done. apply canonical_map_lower.
Qed.

(** The name that is written for a key, and what it stands for *)
Lemma key_lower k : key_ok k -> CanonicalHeaderKey (lower k) = k /\ lower k <> [] /\ Forall (fun b => IsTokenRune b = true) (lower k).
Proof.
  intros [[Hne Ht]%valid_header_name Hk]. rewrite lower_token by done. split_and!.
  - by rewrite canonical_of_lower.
  - by intros ?%map_eq_nil.
  - by apply tokens_lower.
Qed.

(** For keys, comparing the name in lower case is comparing the key. *)
Lemma key_lower_eq k s :
  key_ok k -> Forall (fun b => IsTokenRune b = true) s -> map lowerASCII s = s -> lower k = s <-> k = CanonicalHeaderKey s.
Proof.
  intros Hk Hs El. split.
  - intros <-. symmetry. by apply key_lower.
  - intros ->. destruct Hk as [[Hne Ht]%valid_header_name _]. rewrite lower_token by done. unfold CanonicalHeaderKey.
    rewrite (proj2 (tokens_Forall _)) by done. by rewrite canonical_lower.
Qed.

Lemma key_lower_in k l :
  key_ok k -> Forall (fun s => Forall (fun b => IsTokenRune b = true) s /\ map lowerASCII s = s) l ->
  lower k ∈ l <-> k ∈ map CanonicalHeaderKey l.
Proof.
  intros Hk. induction 1 as [|s l [Hs El] _ IH]; cbn; [by rewrite !elem_of_nil|].
  rewrite !elem_of_cons, IH. by rewrite key_lower_eq.
Qed.
End keys.

(** ** Collecting the fields of a header *)

(** The values of the fields for a key *)
Definition fieldValues (k : list Z) (fs : list HeaderField) : list (list Z) :=
  map hf_Value (filter (fun f => CanonicalHeaderKey (hf_Name f) = k) fs).

Lemma fieldValues_app k fs gs : fieldValues k (fs ++ gs) = fieldValues k fs ++ fieldValues k gs.
Proof. unfold fieldValues. by rewrite filter_app, map_app. Qed.
Lemma fieldValues_none k fs : Forall (fun f => CanonicalHeaderKey (hf_Name f) <> k) fs -> fieldValues k fs = [].
Proof. intros Hf. unfold fieldValues. rewrite filter_none; [done|]. intros f Hin. by apply (proj1 (Forall_forall _ _) Hf). Qed.
Lemma fieldValues_all k fs : Forall (fun f => CanonicalHeaderKey (hf_Name f) = k) fs -> fieldValues k fs = map hf_Value fs.
Proof. intros Hf. unfold fieldValues. rewrite filter_all; [done|]. intros f Hin. by apply (proj1 (Forall_forall _ _) Hf). Qed.

Lemma values_insert h k k' vs : values (<[k := vs]> h) k' = if decide (k = k') then vs else values h k'.
Proof. unfold values. case_decide; [subst; by rewrite lookup_insert_eq|by rewrite lookup_insert_ne]. Qed.

Lemma values_added fs h k :
  values (fold_left (fun h f => Header_Add h (hf_Name f) (hf_Value f)) fs h) k = values h k ++ fieldValues k fs.
Proof.
  revert h. induction fs as [|f fs IH]; intros h; [by rewrite app_nil_r|]. cbn [fold_left]. rewrite IH.
  unfold Header_Add. rewrite values_insert. unfold fieldValues at 2. rewrite filter_cons.
  case_decide; [subst; by rewrite <- app_assoc|done].
Qed.

(** The entries of a header, in whatever order, have the fields of each key together. *)
Lemma fieldValues_entries (g : list Z * list (list Z) -> list HeaderField) (h : Header) order k :
  order ≡ₚ map_to_list h -> (forall e, e ∈ order -> Forall (fun f => CanonicalHeaderKey (hf_Name f) = e.1) (g e)) ->
  fieldValues k (concat (map g order)) = from_option (fun vv => map hf_Value (g (k, vv))) [] (h !! k).
Proof.
  intros Hp Hg. assert (NoDup order.*1) as Hnd by (rewrite Hp; apply NoDup_fst_map_to_list).
  assert (h = list_to_map order) as ->.
  { rewrite <- (list_to_map_to_list h). symmetry. by apply list_to_map_proper. }
  clear Hp. induction order as [|[k' vv] order IH]; [done|]. rewrite list_to_map_cons. cbn [map concat fmap list_fmap fst] in *.
  apply NoDup_cons in Hnd as [Hk' Hnd]. rewrite fieldValues_app, IH; [|intros e He; apply Hg; by right|done].
  pose proof (Hg (k', vv) ltac:(left)) as Hge. cbn [fst] in Hge. destruct (decide (k' = k)) as [->|Hne].
  - rewrite fieldValues_all by done. rewrite (not_elem_of_list_to_map_1 order k) by done. rewrite app_nil_r, lookup_insert_eq. done.
  - rewrite fieldValues_none.
    + by rewrite lookup_insert_ne.
    + eapply Forall_impl; [exact Hge|]. cbn. congruence.
Qed.

(** ** Requests *)

(** Headers that a client does not send *)
Definition unsentKeys : list (list Z) :=
  map str ["Host"; "Content-Length"; "Connection"; "Proxy-Connection"; "Transfer-Encoding"; "Upgrade"; "Keep-Alive"].

(** The values that the server gets for a key, from the client's header *)
Definition receivedFields (h : Header) (gzip : bool) (k : list Z) : list (list Z) :=
  if bool_decide (k ∈ unsentKeys) then []
  else if bool_decide (k = str "User-Agent") then
    match h !! k with
    | None => [defaultUserAgent]
    | Some vv => List.filter (fun v => negb (len v =? 0)) (take 1 vv)
    end
  else values h k ++ (if gzip && bool_decide (k = str "Accept-Encoding") then [str "gzip"] else []).
Definition receivedValues (h : Header) (gzip : bool) (k : list Z) : list (list Z) :=
  let vv := receivedFields h gzip k in
  if bool_decide (k = str "Cookie") && (len vv >? 0) then [joinWith (str "; ") vv] else vv.

(** A header that the client accepts, with its keys in canonical form *)
Definition header_ok (h : Header) : Prop :=
  forall k vv, h !! k = Some vv -> key_ok k /\ Forall (fun v => ValidHeaderFieldValue v = true) vv.

Section requests.
Context `{Hp : Hpack, HL : !HpackLaws Hp, U : Urls, Id : Idna} {B : Type} (unicodeLower : list Z -> list Z).
#[local] Abbreviation lower := (ToLower unicodeLower).

(** A field that is added to the header *)
Definition regular (f : HeaderField) : Prop :=
  hf_Name f <> [] /\ Forall (fun b => IsTokenRune b = true) (hf_Name f) /\ hf_Name f <> str "content-length".

Lemma token_not_pseudo v f :
  hf_Name f <> [] -> Forall (fun b => IsTokenRune b = true) (hf_Name f) -> IsPseudo f = false /\ hf_Name f <> 58 :: v.
Proof.
  intros Hne Ht. rewrite IsPseudo_colon. destruct (hf_Name f) as [|c n]; [done|]. inversion_clear Ht as [|? ? Hc _].
  assert (c <> 58) as Hn by (intros ->; vm_compute in Hc; congruence). split; [|congruence].
  unfold HasPrefix. apply bool_decide_eq_false. cbn. congruence.
Qed.

Lemma scan_regular fs s : Forall regular fs ->
  fold_left scanField fs s =
  mkScan (sc_path s) (sc_authority s) (sc_method s) (sc_contentLength s)
    (fold_left (fun h f => Header_Add h (hf_Name f) (hf_Value f)) fs (sc_headers s)).
Proof.
  intros Hf. revert s. induction Hf as [|f fs (Hne & Ht & Hcl) _ IH]; intros s; [by destruct s|]. cbn [fold_left].
  rewrite IH. clear IH. unfold scanField.
  destruct (token_not_pseudo (str "path") f Hne Ht) as [Hps H1].
  destruct (token_not_pseudo (str "method") f Hne Ht) as [_ H2].
  destruct (token_not_pseudo (str "authority") f Hne Ht) as [_ H3].
  rewrite !(bool_decide_eq_false_2 _) by assumption. by rewrite Hps.
Qed.

Lemma checkHeaders_ok f1 f2 order :
  (forall k vv, (k, vv) ∈ order -> ValidHeaderFieldName k = true /\ Forall (fun v => ValidHeaderFieldValue v = true) vv) ->
  checkHeaders f1 f2 order = Ok tt.
Proof.
  induction order as [|[k vv] order IH]; intros H; [done|]. cbn [checkHeaders].
  destruct (H k vv ltac:(left)) as [-> Hv]. cbn [negb]. destruct (List.find _ vv) as [v|] eqn:Ef.
  - apply find_some in Ef as [Hin Hc]. apply list_elem_of_In in Hin.
    rewrite (proj1 (Forall_forall _ _) Hv v Hin) in Hc. done.
  - apply IH. intros k' vv' Hin. apply H. by right.
Qed.

(** What one entry of the header becomes *)
Definition sentValues (k : list Z) (vv : list (list Z)) : list (list Z) :=
  if bool_decide (k ∈ unsentKeys) then []
  else if bool_decide (k = str "User-Agent") then List.filter (fun v => negb (len v =? 0)) (take 1 vv)
  else vv.

#[local] Ltac lower_key Hk :=
  let side := (repeat constructor; vm_compute; repeat constructor) in
  repeat match goal with
  | |- context [bool_decide (lower ?k ∈ ?l)] =>
      rewrite (bool_decide_ext (lower k ∈ l) (k ∈ map CanonicalHeaderKey l)) by (apply key_lower_in; [exact Hk|side])
  | |- context [bool_decide (lower ?k = ?s)] =>
      rewrite (bool_decide_ext (lower k = s) (k = CanonicalHeaderKey s)) by (apply key_lower_eq; [exact Hk|side|done])
  end.

Lemma unsentKeys_split k :
  k ∈ unsentKeys <-> k ∈ map CanonicalHeaderKey [str "host"; str "content-length"] \/
    k ∈ map CanonicalHeaderKey [str "connection"; str "proxy-connection"; str "transfer-encoding"; str "upgrade"; str "keep-alive"].
Proof. rewrite <- elem_of_app. reflexivity. Qed.
Lemma unsent_not_agent k : k ∈ unsentKeys -> k <> str "User-Agent".
Proof.
  assert (bool_decide (str "User-Agent" ∈ unsentKeys) = false) as E by (vm_compute; reflexivity).
  apply bool_decide_eq_false in E. congruence.
Qed.

Lemma unsent_not_accept k : k ∈ unsentKeys -> k <> str "Accept-Encoding".
Proof.
  assert (bool_decide (str "Accept-Encoding" ∈ unsentKeys) = false) as E by (vm_compute; reflexivity).
  apply bool_decide_eq_false in E. congruence.
Qed.

Lemma headerFields_spec k vv : key_ok k ->
  headerFields unicodeLower (k, vv) = (map (mkHeaderField (lower k)) (sentValues k vv), bool_decide (k = str "User-Agent")).
Proof.
  intros Hk. unfold headerFields, sentValues. lower_key Hk.
  change (CanonicalHeaderKey (str "user-agent")) with (str "User-Agent").
  rewrite (bool_decide_ext (k ∈ unsentKeys) _ (unsentKeys_split k)), bool_decide_or.
  destruct (decide (k ∈ map CanonicalHeaderKey [str "host"; str "content-length"])) as [Hin|Hn1].
  { rewrite (bool_decide_eq_true_2 _ Hin). cbn [orb]. f_equal. symmetry. by apply bool_decide_eq_false, unsent_not_agent, unsentKeys_split; left. }
  rewrite (bool_decide_eq_false_2 _ Hn1). cbn [orb]. case_bool_decide as Hin.
  { f_equal. symmetry. by apply bool_decide_eq_false, unsent_not_agent, unsentKeys_split; right. }
  case_bool_decide; [|done]. f_equal. destruct vv as [|v vv]; [done|]. cbn [take List.filter].
  by destruct (len v =? 0).
Qed.

Lemma sentValues_regular k vv : key_ok k ->
  Forall (fun f => CanonicalHeaderKey (hf_Name f) = k /\ regular f) (map (mkHeaderField (lower k)) (sentValues k vv)).
Proof.
  intros Hk. destruct (key_lower unicodeLower k Hk) as (Hc & Hne & Ht). destruct (decide (k ∈ unsentKeys)) as [Hin|Hn].
  { unfold sentValues. rewrite bool_decide_eq_true_2 by done. constructor. }
  apply Forall_map, Forall_true. intros v. split; [done|]. split_and!; [done|done|]. cbn. intros E. apply Hn.
  rewrite <- Hc, E. apply unsentKeys_split. left. vm_compute. right. left.
Qed.

Lemma order_lookup (h : Header) order k vv : order ≡ₚ map_to_list h -> (k, vv) ∈ order <-> h !! k = Some vv.
Proof. intros ->. apply elem_of_map_to_list. Qed.

(** The fields of the header, and those that are added to it *)
#[local] Abbreviation entryFields order := (concat (map fst (map (headerFields unicodeLower) order))).
Lemma entryFields_eq h order : header_ok h -> order ≡ₚ map_to_list h ->
  entryFields order = concat (map (fun e => map (mkHeaderField (lower e.1)) (sentValues e.1 e.2)) order).
Proof.
  intros Hh Ho. f_equal. rewrite map_map. apply map_ext_in. intros [k vv] Hin%list_elem_of_In.
  apply (order_lookup h) in Hin; [|done]. by rewrite headerFields_spec by apply (Hh _ _ Hin).
Qed.

Lemma entryFields_regular h order : header_ok h -> order ≡ₚ map_to_list h -> Forall regular (entryFields order).
Proof.
  intros Hh Ho. rewrite (entryFields_eq h) by done. apply Forall_concat, Forall_map, Forall_forall.
  intros [k vv] Hin. apply (order_lookup h) in Hin; [|done]. cbn [fst snd].
  eapply Forall_impl; [apply sentValues_regular, (Hh _ _ Hin)|]. by intros f [_ ?].
Qed.

Lemma entryFields_values h order k : header_ok h -> order ≡ₚ map_to_list h ->
  fieldValues k (entryFields order) = from_option (sentValues k) [] (h !! k).
Proof.
  intros Hh Ho. rewrite (entryFields_eq h) by done. rewrite (fieldValues_entries _ h); [|done|].
  - destruct (h !! k); [|done]. cbn [from_option fst snd]. rewrite map_map. apply map_id.
  - intros [k' vv] Hin. apply (order_lookup h) in Hin; [|done]. cbn [fst snd].
    eapply Forall_impl; [apply sentValues_regular, (Hh _ _ Hin)|]. by intros f [? _].
Qed.

Lemma didUA_spec h order : header_ok h -> order ≡ₚ map_to_list h ->
  existsb snd (map (headerFields unicodeLower) order) = bool_decide (is_Some (h !! str "User-Agent")).
Proof.
  intros Hh Ho. apply eq_true_iff_eq. rewrite bool_decide_eq_true, existsb_exists. split.
  - intros (x & Hin & Hx). apply in_map_iff in Hin as ([k vv] & <- & Hin). apply list_elem_of_In, (order_lookup h) in Hin; [|done].
    rewrite headerFields_spec in Hx by apply (Hh _ _ Hin). apply bool_decide_eq_true in Hx as ->. eauto.
  - intros [vv Hin]. exists (headerFields unicodeLower (str "User-Agent", vv)). split.
    + apply in_map, list_elem_of_In. by apply (order_lookup h).
    + rewrite headerFields_spec by apply (Hh _ _ Hin). by apply bool_decide_eq_true.
Qed.

Lemma fieldValues_one k name v : fieldValues k [mkHeaderField name v] = if bool_decide (k = CanonicalHeaderKey name) then [v] else [].
Proof.
  unfold fieldValues. rewrite filter_cons. cbn [hf_Name]. case_decide; case_bool_decide; try done; congruence.
Qed.

Lemma received_fields h order gzip k : header_ok h -> order ≡ₚ map_to_list h ->
  fieldValues k (entryFields order
    ++ (if gzip : bool then [mkHeaderField (str "accept-encoding") (str "gzip")] else [])
    ++ (if negb (existsb snd (map (headerFields unicodeLower) order)) then [mkHeaderField (str "user-agent") defaultUserAgent] else []))
  = receivedFields h gzip k.
Proof.
  intros Hh Ho. rewrite !fieldValues_app, (entryFields_values h), (didUA_spec h) by done.
  assert (fieldValues k (if gzip then [mkHeaderField (str "accept-encoding") (str "gzip")] else []) =
          if gzip && bool_decide (k = str "Accept-Encoding") then [str "gzip"] else []) as ->.
  { destruct gzip; [|done]. by rewrite fieldValues_one. }
  assert (fieldValues k (if negb (bool_decide (is_Some (h !! str "User-Agent"))) then [mkHeaderField (str "user-agent") defaultUserAgent] else []) =
          if bool_decide (k = str "User-Agent") then match h !! k with None => [defaultUserAgent] | Some _ => [] end else []) as ->.
  { case_bool_decide as Hu; cbn [negb]; [|rewrite fieldValues_one; change (CanonicalHeaderKey (str "user-agent")) with (str "User-Agent")].
    - case_bool_decide; [subst|done]. destruct Hu as [? ->]. done.
    - case_bool_decide; [subst|done]. destruct (h !! str "User-Agent"); [|done]. by destruct Hu. }
  unfold receivedFields, sentValues, values. destruct (decide (k ∈ unsentKeys)) as [Hin|Hn].
  - rewrite bool_decide_eq_true_2 by done. rewrite (bool_decide_eq_false_2 (k = str "User-Agent")) by by apply unsent_not_agent.
    rewrite (bool_decide_eq_false_2 (k = str "Accept-Encoding")), andb_false_r by by apply unsent_not_accept. by destruct (h !! k).
  - rewrite bool_decide_eq_false_2 by done. case_bool_decide as Hu.
    + subst k. rewrite (bool_decide_eq_false_2 (str "User-Agent" = str "Accept-Encoding")), andb_false_r by (vm_compute; congruence).
      destruct (h !! str "User-Agent"); [|done]. cbn [from_option]. by rewrite !app_nil_r.
    + rewrite app_nil_r. by destruct (h !! k).
Qed.

Lemma requestPath_ok (req : Request B) host path :
  rq_Method req <> str "CONNECT" -> requestPath req host = Ok path -> validPseudoPath path = true /\ exists u, rq_URL req = Some u.
Proof.
  intros Hm. unfold requestPath. rewrite bool_decide_eq_false_2 by done. destruct (rq_URL req) as [u|]; [|done].
  intros H. split; [|eauto]. repeat case_match; simplify_eq/=; done.
Qed.

(** The client's own steps, for a request that it accepts *)
Lemma requestFields_ok (req : Request B) order1 order2 gzip cl host path :
  let h := default ∅ (rq_Header req) in
  header_ok h -> order1 ≡ₚ map_to_list h -> rq_Method req <> str "CONNECT" ->
  PunycodeHostPort (hostnameFromRequest req) = Ok host -> requestPath req host = Ok path ->
  requestFields unicodeLower order1 order2 req gzip [] cl = Ok (
    [mkHeaderField (str ":authority") host; mkHeaderField (str ":method") (rq_Method req);
     mkHeaderField (str ":path") path; mkHeaderField (str ":scheme") (from_option url_Scheme [] (rq_URL req))]
    ++ entryFields order2
    ++ (if shouldSendReqContentLength (rq_Method req) cl then [mkHeaderField (str "content-length") (FormatInt cl)] else [])
    ++ (if gzip then [mkHeaderField (str "accept-encoding") (str "gzip")] else [])
    ++ (if negb (existsb snd (map (headerFields unicodeLower) order2)) then [mkHeaderField (str "user-agent") defaultUserAgent] else [])).
Proof.
  intros h Hh Ho Hm Hhost Hpath. destruct (requestPath_ok req host path Hm Hpath) as (_ & u & Eu).
  assert ((if len (rq_Host req) =? 0 then match rq_URL req with Some u => Ok (url_Host u) | None => Panic end else Ok (rq_Host req))
          = Ok (hostnameFromRequest req)) as Eh.
  { unfold hostnameFromRequest. rewrite Eu. pose proof (len_nonneg (rq_Host req)).
    destruct (Z.eqb_spec (len (rq_Host req)) 0), (Z.gtb_spec (len (rq_Host req)) 0); try done; lia. }
  unfold requestFields. rewrite Eh. cbn [rbind]. rewrite Hhost. cbn [rbind]. rewrite Hpath. cbn [rbind].
  rewrite checkHeaders_ok.
  2:{ intros k vv Hin. apply (order_lookup h) in Hin; [|done]. destruct (Hh _ _ Hin) as [[??] ?]. done. }
  cbn [rbind]. rewrite bool_decide_eq_false_2 by done. done.
Qed.

Lemma scan_request (host method path scheme : list Z) fs cl gs :
  Forall regular fs -> Forall regular gs ->
  fold_left scanField ([mkHeaderField (str ":authority") host; mkHeaderField (str ":method") method;
     mkHeaderField (str ":path") path; mkHeaderField (str ":scheme") scheme]
    ++ fs ++ (if cl is Some v then [mkHeaderField (str "content-length") v] else []) ++ gs) (mkScan [] [] [] [] ∅) =
  mkScan path host method (default [] cl) (fold_left (fun h f => Header_Add h (hf_Name f) (hf_Value f)) (fs ++ gs) ∅).
Proof.
  intros Hf Hg. cbn [app fold_left].
  assert (forall s, scanField s (mkHeaderField (str ":scheme") scheme) = s) as ->.
  { intros s. unfold scanField. cbn [hf_Name hf_Value]. rewrite IsPseudo_colon. by destruct s. }
  rewrite !fold_left_app, (scan_regular fs) by done. destruct cl as [v|]; cbn [fold_left default from_option id].
  - unfold scanField at 2. rewrite scan_regular by done. done.
  - rewrite scan_regular by done. done.
Qed.

Lemma len_eqb_nil {A} (l : list A) : l <> [] -> (len l =? 0) = false.
Proof. destruct l; [done|]. intros _. apply Z.eqb_neq. rewrite len_cons. pose proof (len_nonneg l). lia. Qed.
Lemma FormatInt_nonempty n : - 2 ^ 63 <= n < 2 ^ 63 -> FormatInt n <> [].
Proof. intros Hn%ParseInt_FormatInt E. rewrite E in Hn. vm_compute in Hn. done. Qed.
Lemma ParseInt_length n : - 2 ^ 63 <= n < 2 ^ 63 -> (if len (FormatInt n) >? 0 then ParseInt (FormatInt n) else Ok 0) = Ok n.
Proof.
  intros Hn. rewrite ParseInt_FormatInt by done. pose proof (len_eqb_nil _ (FormatInt_nonempty n Hn)) as H0.
  apply Z.eqb_neq in H0. pose proof (len_nonneg (FormatInt n)). destruct (Z.gtb_spec (len (FormatInt n)) 0); [done|lia].
Qed.

Lemma requestFromHeaders_fields {B2} (host method path scheme : list Z) fs cl gs :
  host <> [] -> method <> [] -> path <> [] -> Forall regular fs -> Forall regular gs ->
  requestFromHeaders (B := B2) (
    [mkHeaderField (str ":authority") host; mkHeaderField (str ":method") method;
     mkHeaderField (str ":path") path; mkHeaderField (str ":scheme") scheme]
    ++ fs ++ (if cl is Some v then [mkHeaderField (str "content-length") v] else []) ++ gs) =
  let! u := url_Parse path in
  let! contentLength := (match cl with Some v => if len v >? 0 then ParseInt v else Ok 0 | None => Ok 0 end) in
  let h := fold_left (fun h f => Header_Add h (hf_Name f) (hf_Value f)) (fs ++ gs) ∅ in
  let h := if len (values h (str "Cookie")) >? 0 then Header_Set h (str "Cookie") (joinWith (str "; ") (values h (str "Cookie"))) else h in
  Ok (mkRequest _ _ method (Some u) (str "HTTP/2.0") 2 0 (Some h) None contentLength host path []).
Proof.
  intros Hh Hm Hpath Hf Hg. unfold requestFromHeaders. rewrite scan_request by done.
  cbn [sc_path sc_authority sc_method sc_contentLength sc_headers].
  rewrite !len_eqb_nil by done. cbn [orb]. destruct (url_Parse path) as [u| |]; [|done..]. cbn [rbind].
  by destruct cl.
Qed.

(** The headers are what the request promises, whatever the order in which they are sent. *)
Lemma received_values fs h gzip k :
  (forall k, fieldValues k fs = receivedFields h gzip k) ->
  let h' := fold_left (fun h f => Header_Add h (hf_Name f) (hf_Value f)) fs ∅ in
  values (if len (values h' (str "Cookie")) >? 0
          then Header_Set h' (str "Cookie") (joinWith (str "; ") (values h' (str "Cookie"))) else h') k = receivedValues h gzip k.
Proof.
  intros Hv h'. assert (forall k, values h' k = receivedFields h gzip k) as Hv' by (intros k'; unfold h'; by rewrite values_added, Hv).
  unfold receivedValues. rewrite <- !Hv'. destruct (decide (k = str "Cookie")) as [->|Hn].
  - rewrite bool_decide_eq_true_2 by done. cbn [andb]. destruct (len (values h' (str "Cookie")) >? 0); [|done].
    unfold Header_Set. rewrite values_insert. by rewrite decide_True by done.
  - rewrite bool_decide_eq_false_2 by done. cbn [andb]. destruct (len (values h' (str "Cookie")) >? 0); [|done].
    unfold Header_Set. rewrite values_insert. rewrite decide_False; [done|]. by intros <-.
Qed.

(** A request that the client accepts arrives: the server finds the method, the host, the
    path and the content length that were sent, and for every header the values of the client's
    header, in whatever order the two maps are iterated over.  Hop-by-hop headers, Host and
    Content-Length are left out, the first User-Agent or the default is sent, gzip is
    appended to Accept-Encoding, and cookies are joined. *)
Lemma request_received {B2} (req : Request B) order1 order2 gzip host path u' :
  let h := default ∅ (rq_Header req) in
  header_ok h -> order1 ≡ₚ map_to_list h -> order2 ≡ₚ map_to_list h ->
  rq_Method req <> [] -> rq_Method req <> str "CONNECT" -> - 2 ^ 63 <= rq_ContentLength req < 2 ^ 63 ->
  PunycodeHostPort (hostnameFromRequest req) = Ok host -> host <> [] ->
  requestPath req host = Ok path -> url_Parse path = Ok u' ->
  exists fs h',
    requestFields unicodeLower order1 order2 req gzip [] (actualContentLength req) = Ok fs /\
    requestFromHeaders fs = Ok (mkRequest _ B2 (rq_Method req) (Some u') (str "HTTP/2.0") 2 0 (Some h') None
      (if shouldSendReqContentLength (rq_Method req) (actualContentLength req) then actualContentLength req else 0) host path []) /\
    forall k, values h' k = receivedValues h gzip k.
Proof.
  intros h Hh Ho1 Ho2 Hm Hc Hcl Hhost Hne Hpath Hu. eexists _, _. split; [by apply requestFields_ok|].
  set (cl := actualContentLength req).
  assert ((if shouldSendReqContentLength (rq_Method req) cl then [mkHeaderField (str "content-length") (FormatInt cl)] else []) =
    (if (if shouldSendReqContentLength (rq_Method req) cl then Some (FormatInt cl) else None) is Some v
     then [mkHeaderField (str "content-length") v] else [])) as -> by by case_match.
  rewrite requestFromHeaders_fields.
  - rewrite Hu. cbn [rbind].
    assert (match (if shouldSendReqContentLength (rq_Method req) cl then Some (FormatInt cl) else None) with
            Some v => if len v >? 0 then ParseInt v else Ok 0 | None => Ok 0 end =
            Ok (if shouldSendReqContentLength (rq_Method req) cl then cl else 0)) as ->.
    { destruct (shouldSendReqContentLength _ _); [|done]. apply ParseInt_length. unfold cl, actualContentLength. repeat case_match; lia. }
    cbn [rbind]. split; [done|]. intros k. apply received_values. intros k'. by apply received_fields.
  - done.
  - done.
  - apply requestPath_ok in Hpath as [Hv _]; [|done]. by intros ->.
  - by apply (entryFields_regular h).
  - destruct gzip, (negb _); cbn [app]; repeat constructor; try done; vm_compute; repeat constructor.
Qed.

End requests.

(** ** Responses *)

(** The trailer that the values of the header Trailer announce *)
Definition announce (t : Header) (v : list Z) : Header :=
  fold_left (fun t e => <[CanonicalHeaderKey e := []]> t) (foreachHeaderElement v) t.
Definition announcedTrailer (vs : list (list Z)) : option Header :=
  match vs with [] => None | _ => Some (fold_left announce vs ∅) end.

Section responses.
Context `{Hp : Hpack, HL : !HpackLaws Hp, Mh : MetaHeaders, ML : !MetaHeadersLaws Mh} {B : Type} (unicodeLower : list Z -> list Z).
#[local] Abbreviation lower := (ToLower unicodeLower).

Lemma responseField_fold fs h t :
  (forall k, values (fold_left responseField fs (h, t)).1 k = values h k ++ if bool_decide (k = str "Trailer") then [] else fieldValues k fs) /\
  (fold_left responseField fs (h, t)).2 =
    match fieldValues (str "Trailer") fs with [] => t | vs => Some (fold_left announce vs (default ∅ t)) end.
Proof.
  revert h t. induction fs as [|f fs IH]; intros h t.
  { split; [intros k; by case_bool_decide; rewrite app_nil_r|done]. }
  cbn [fold_left]. unfold responseField at 2 4. destruct (decide (CanonicalHeaderKey (hf_Name f) = str "Trailer")) as [Ef|Ef].
  - rewrite bool_decide_eq_true_2 by done. specialize (IH h (Some (announce (default ∅ t) (hf_Value f)))) as [IH1 IH2]. split.
    + intros k. unfold announce in IH1. rewrite IH1. f_equal. case_bool_decide; [done|]. unfold fieldValues at 2.
      rewrite filter_cons. rewrite decide_False; [done|]. congruence.
    + unfold announce in IH2 at 1. rewrite IH2. unfold fieldValues at 2. rewrite filter_cons, decide_True by done. cbn [map fold_left].
      fold (fieldValues (str "Trailer") fs). by destruct (fieldValues (str "Trailer") fs).
  - rewrite bool_decide_eq_false_2 by done.
    destruct (IH (<[CanonicalHeaderKey (hf_Name f) := values h (CanonicalHeaderKey (hf_Name f)) ++ [hf_Value f]]> h) t) as [IH1 IH2]. split.
    + intros k. rewrite IH1, values_insert. unfold fieldValues at 2. rewrite filter_cons. case_decide as Ek.
      * subst k. rewrite bool_decide_eq_false_2 by done. by rewrite <- app_assoc.
      * done.
    + rewrite IH2. unfold fieldValues at 2. by rewrite filter_cons, decide_False by done.
Qed.

Lemma responseFields_values (h : Header) order k : (forall k vv, h !! k = Some vv -> key_ok k) -> order ≡ₚ map_to_list h ->
  fieldValues k (concat (map (fun '(k, v) => map (mkHeaderField (lower k)) v) order)) = values h k.
Proof.
  intros Hh Ho. rewrite (fieldValues_entries (fun '(k, v) => map (mkHeaderField (lower k)) v) h); [|done|].
  - unfold values. destruct (h !! k); [|done]. cbn [from_option default id]. rewrite map_map. apply map_id.
  - intros [k' vv] Hin. apply (order_lookup h) in Hin; [|done]. cbn [fst]. apply Forall_map, Forall_true. intros v. cbn.
    by apply key_lower, (Hh _ _ Hin).
Qed.

Lemma responseFields_regular (h : Header) order : (forall k vv, h !! k = Some vv -> key_ok k) -> order ≡ₚ map_to_list h ->
  Forall (fun f => IsPseudo f = false) (concat (map (fun '(k, v) => map (mkHeaderField (lower k)) v) order)).
Proof.
  intros Hh Ho. apply Forall_concat, Forall_map, Forall_forall. intros [k vv] Hin. apply (order_lookup h) in Hin; [|done].
  apply Forall_map, Forall_true. intros v. cbn. destruct (key_lower unicodeLower k (Hh _ _ Hin)) as (_ & ? & ?).
  by apply (token_not_pseudo []).
Qed.

(** A response arrives: from the fields that [WriteHeader] writes, in whatever order the
    header is iterated over, the client gets the status code and for every header the values
    that the handler has set, except that the header Trailer becomes the announced trailer. *)
Lemma response_received (statusText : Z -> list Z) (h : Header) order status :
  (forall k vv, h !! k = Some vv -> key_ok k) -> order ≡ₚ map_to_list h -> - 2 ^ 63 <= status < 2 ^ 63 ->
  exists h',
    responseFromHeaders statusText (mkMetaHeadersFrame (responseFields unicodeLower order status) false) =
      Ok (mkResponse B (str "HTTP/2.0") 2 status (FormatInt status ++ str " " ++ statusText status) h'
            (announcedTrailer (values h (str "Trailer"))) 0 None false) /\
    forall k, values h' k = if bool_decide (k = str "Trailer") then [] else values h k.
Proof.
  intros Hh Ho Hs. unfold responseFields. set (fs := concat _). unfold responseFromHeaders. cbn [mh_Truncated].
  assert (PseudoValue (mkMetaHeadersFrame (mkHeaderField (str ":status") (FormatInt status) :: fs) false) (str "status") =
    FormatInt status) as -> by apply PseudoValue_first.
  rewrite ParseInt_FormatInt, len_eqb_nil by by try apply FormatInt_nonempty.
  assert (RegularFields (mkMetaHeadersFrame (mkHeaderField (str ":status") (FormatInt status) :: fs) false) = fs) as ->.
  { apply (RegularFields_rest [mkHeaderField (str ":status") (FormatInt status)]); [|by apply (responseFields_regular h)].
    repeat constructor. rewrite IsPseudo_colon. done. }
  destruct (responseField_fold fs ∅ None) as [H1 H2]. destruct (fold_left responseField fs (∅, None)) as [h' t].
  cbn [fst snd] in *. exists h'. subst t. unfold fs. rewrite (responseFields_values h) by done. split.
  - by destruct (values h (str "Trailer")).
  - intros k. rewrite H1. case_bool_decide; [done|]. by apply (responseFields_values h).
Qed.

End responses.
