(* ===== verification/H2Server.v ===== *)
(** * h2quic/server.go: serving requests

    The server reads requests from the header stream of a session and runs the handler for each
    in a goroutine of its own.  The handler is the program's: it is a tree of the calls that it
    makes, and what the streams answer depends on the calls made before.  What the server does
    to the session and its streams is a list of operations. *)

From S2P Require Import Prelude Protocol Qerr Wire Crypto GoStrings Httplex Http H2Messages.

(** A string constant *)
#[local] Abbreviation str := bytes_of.

(** Operations on the session and its streams *)
Inductive h2Op : Type :=
| OpCloseRemote (id offset : Z)
| OpRead (id n : Z)
| OpHeaders (frame : res (list Z))
| OpWrite (id : Z) (data : list Z)
| OpReset (id : Z)
| OpClose (id : Z)
| OpSessionClose (e : option goerror).
Definition is_read (op : h2Op) : bool := match op with OpRead _ _ => true | _ => false end.

(** The calls of a handler: on the header of the response, [WriteHeader] and [Write], and
    reading the body of the request *)
Inductive handler : Type :=
| HReturn
| HPanic
| HHeader (f : Header -> Header) (k : Header -> handler)
| HWriteHeader (status : Z) (k : handler)
| HWrite (p : list Z) (k : res Z -> handler)
| HRead (n : Z) (k : res (list Z) -> handler).

Section server.
Context `{Hp : Hpack, U : Urls, Fr : Framer} (unicodeLower : list Z -> list Z).
(** What the data stream answers, and the order in which a header is iterated over *)
Context (readAnswer : list h2Op -> Z -> res (list Z)) (writeAnswer : list h2Op -> list Z -> res Z).
Context (iter : list h2Op -> Header -> list (list Z * list (list Z))).

(** ** The goroutine of a request *)

(** The response writer, whether the body has been read, and the operations so far *)
Record serving : Type := mkServing {
  sv_w : responseWriter;
  sv_requestRead : bool;
  sv_ops : list h2Op;
}.
Definition emit (ops : list h2Op) (out : option (res (list Z))) : list h2Op :=
  match out with Some b => ops ++ [OpHeaders b] | None => ops end.

(** The body of the request: [requestBody.Read] *)
Definition requestBody_Read (n : Z) (s : serving) : serving * res (list Z) :=
  (mkServing (sv_w s) true (sv_ops s ++ [OpRead (w_dataStreamID (sv_w s)) n]), readAnswer (sv_ops s) n).

Definition serve_WriteHeader (status : Z) (s : serving) : serving :=
  let '(w, out) := WriteHeader unicodeLower (iter (sv_ops s) (w_header (sv_w s))) (sv_w s) status in
  mkServing w (sv_requestRead s) (emit (sv_ops s) out).

Definition serve_Write (p : list Z) (s : serving) : serving * res Z :=
  match responseWriter_Write unicodeLower (iter (sv_ops s) (w_header (sv_w s))) (sv_w s) p with
  | (w, out, Ok p) =>
      let ops := emit (sv_ops s) out in
      (mkServing w (sv_requestRead s) (ops ++ [OpWrite (w_dataStreamID w) p]), writeAnswer ops p)
  | (w, out, Err e) => (mkServing w (sv_requestRead s) (emit (sv_ops s) out), Err e)
  | (w, out, Panic) => (mkServing w (sv_requestRead s) (emit (sv_ops s) out), Panic)
  end.

Definition setHeader (w : responseWriter) (h : Header) : responseWriter :=
  mkResponseWriter (w_dataStreamID w) h (w_status w) (w_headerWritten w).

(** [handler.ServeHTTP]: whether it panicked *)
Fixpoint ServeHTTP (hd : handler) (s : serving) : serving * bool :=
  match hd with
  | HReturn => (s, false)
  | HPanic => (s, true)
  | HHeader f k =>
      let h := f (w_header (sv_w s)) in
      ServeHTTP (k h) (mkServing (setHeader (sv_w s) h) (sv_requestRead s) (sv_ops s))
  | HWriteHeader status k => ServeHTTP k (serve_WriteHeader status s)
  | HWrite p k => let '(s, r) := serve_Write p s in ServeHTTP (k r) s
  | HRead n k => let '(s, r) := requestBody_Read n s in ServeHTTP (k r) s
  end.

(** A request that is being handled *)
Record job : Type := mkJob {
  j_req : Request Z;
  j_streamID : Z;
  j_streamEnded : bool;
}.

(** The goroutine that [handleRequest] starts: all operations of it *)
Definition serve (closeAfterFirstRequest : bool) (hd : Request Z -> handler) (j : job) : list h2Op :=
  let '(s, panicked) := ServeHTTP (hd (j_req j)) (mkServing (newResponseWriter (j_streamID j)) false []) in
  let s := serve_WriteHeader (if panicked then 500 else 200) s in
  sv_ops s
  ++ (if negb (j_streamEnded j) && negb (sv_requestRead s) then [OpReset (j_streamID j)] else [])
  ++ [OpClose (j_streamID j)]
  ++ (if closeAfterFirstRequest then [OpSessionClose None] else []).

(** ** Reading requests *)

(** What the server uses of a session; [GetOrOpenStream] can return a stream or nil. *)
Record streamCreator : Type := mkStreamCreator {
  ss_RemoteAddr : list Z;
  ss_GetOrOpenStream : Z -> res bool;
  ss_AcceptStream : res Z;
}.

Definition set_request_body (req : Request Z) (addr : list Z) (id : Z) : Request Z :=
  mkRequest _ _ (rq_Method req) (rq_URL req) (rq_Proto req) (rq_ProtoMajor req) (rq_ProtoMinor req) (rq_Header req)
    (Some id) (rq_ContentLength req) (rq_Host req) (rq_RequestURI req) addr.

(** What has not been read from the header stream, and the decoder *)
Record headerReader : Type := mkHeaderReader {
  hr_input : list Z;
  hr_dec : hp_Decoder;
}.

(** The body of the request is the data stream.  The result is the request to serve, if any. *)
Definition handleRequest (session : streamCreator) (r : headerReader) : headerReader * list h2Op * res (option job) :=
  match ReadFrame (hr_input r) with
  | Panic => (r, [], Panic)
  | Err _ => (r, [], Err (QuicError HeadersStreamDataDecompressFailure (Msg "cannot read frame")))
  | Ok (OtherFrame _, input) =>
      (mkHeaderReader input (hr_dec r), [], Err (QuicError InvalidHeadersStreamData (Msg "expected a header frame")))
  | Ok (HeadersFrame id headersEnded ended block, input) =>
      if negb headersEnded
      then (mkHeaderReader input (hr_dec r), [], Err (ErrNew "http2 header continuation not implemented"))
      else
        let '(dec, decoded) := hp_DecodeFull (hr_dec r) block in
        let r := mkHeaderReader input dec in
        match (let! headers := decoded in
               let! req := requestFromHeaders (B := Z) headers in
               let! dataStream := ss_GetOrOpenStream session id in
               Ok (req, dataStream)) with
        | Err e => (r, [], Err e)
        | Panic => (r, [], Panic)
        | Ok (_, false) => (r, [], Ok None)
        | Ok (req, true) =>
            (r, if ended then [OpCloseRemote id 0; OpRead id 1] else [],
             Ok (Some (mkJob (set_request_body req (ss_RemoteAddr session) id) id ended)))
        end
  end.

(** The loop over the requests of a session: the requests that are served, and the operations *)
Fixpoint requestLoop (fuel : nat) (session : streamCreator) (r : headerReader) : option (list job * list h2Op) :=
  match fuel with
  | O => None
  | S fuel =>
      match handleRequest session r with
      | (_, ops, Err e) => Some ([], ops ++ [OpSessionClose (Some e)])
      | (_, ops, Panic) => None
      | (r, ops, Ok j) =>
          match requestLoop fuel session r with
          | None => None
          | Some (js, ops') => Some (match j with Some j => j :: js | None => js end, ops ++ ops')
          end
      end
  end.

Definition handleHeaderStream (session : streamCreator) (input : list Z) : option (list job * list h2Op) :=
  match ss_AcceptStream session with
  | Panic => None
  | Err e => Some ([], [OpSessionClose (Some (QuicError InvalidHeadersStreamData (MsgOf e)))])
  | Ok id =>
      if negb (id =? 3)
      then Some ([], [OpSessionClose (Some (QuicError InternalError (Msg "h2quic server BUG: header stream does not have stream ID 3")))])
      else requestLoop (S (length input)) session (mkHeaderReader input (hp_NewDecoder 4096))
  end.

End server.

(** ** The server

    [L] is the type of a [quic.Listener]. *)

Record h2Server {L : Type} : Type := mkH2Server {
  s_Addr : option (list Z);          (* of the [http.Server], nil without one *)
  s_port : Z;
  s_listener : option L;
  s_supportedVersionsAsString : list Z;
}.
Arguments h2Server L : clear implicits.
Arguments mkH2Server {L}.

Section listener.
Context {L : Type}.

(** [serveImpl] up to the loop: [listen] is [quic.ListenAddr] or [quic.Listen].  The result is
    the listener from which sessions are accepted. *)
Definition serveImpl (listen : res L) (s : h2Server L) : h2Server L * res L :=
  match s_Addr s with
  | None => (s, Err (ErrNew "use of h2quic.Server without http.Server"))
  | Some _ =>
      match s_listener s with
      | Some _ => (s, Err (ErrNew "ListenAndServe may only be called once"))
      | None =>
          match listen with
          | Ok ln => (mkH2Server (s_Addr s) (s_port s) (Some ln) (s_supportedVersionsAsString s), Ok ln)
          | Err e => (s, Err e)
          | Panic => (s, Panic)
          end
      end
  end.

Definition ListenAndServe_h2 (listen : res L) (s : h2Server L) : h2Server L * res L :=
  match s_Addr s with
  | None => (s, Err (ErrNew "use of h2quic.Server without http.Server"))
  | Some _ => serveImpl listen s
  end.

(** [ListenAndServeTLS]: the certificate is loaded first. *)
Definition ListenAndServeTLS (load : res unit) (listen : res L) (s : h2Server L) : h2Server L * res L :=
  match load with
  | Ok _ => serveImpl listen s
  | Err e => (s, Err e)
  | Panic => (s, Panic)
  end.

(** The loop of [serveImpl]: the sessions that are accepted, until an error *)
Fixpoint acceptLoop {S : Type} (accepts : list (res S)) : list S * option goerror :=
  match accepts with
  | Ok sess :: accepts => let '(ss, e) := acceptLoop accepts in (sess :: ss, e)
  | Err e :: _ => ([], Some e)
  | _ => ([], None)
  end.

(** [Close]: the listener that is closed, if any *)
Definition h2Server_Close (close : L -> option goerror) (s : h2Server L) : h2Server L * option L * option goerror :=
  match s_listener s with
  | Some ln => (mkH2Server (s_Addr s) (s_port s) None (s_supportedVersionsAsString s), Some ln, close ln)
  | None => (s, None, None)
  end.
Definition CloseGracefully (timeout : Z) (s : h2Server L) : h2Server L * option goerror := (s, None).

(** The string of the supported versions *)
Definition versionsString (vs : list Z) : list Z := joinWith [44] (map FormatInt vs).
(** The loop that builds it *)
Fixpoint appendVersions (i : Z) (vs : list Z) (acc : list Z) : list Z :=
  match vs with
  | [] => acc
  | v :: vs =>
      let acc := acc ++ FormatInt v in
      appendVersions (i + 1) vs (if negb (i =? len SupportedVersions - 1) then acc ++ [44] else acc)
  end.

(** [SetQuicHeaders]: [lookupPort] is [net.LookupPort] for TCP. *)
Definition SetQuicHeaders (lookupPort : list Z -> res Z) (s : h2Server L) (hdr : Header) : h2Server L * Header * res unit :=
  let port :=
    if s_port s =? 0 then
      match s_Addr s with
      | None => Panic
      | Some addr =>
          let! (_, portStr) := SplitHostPort addr in
          let! portInt := lookupPort portStr in
          Ok (u32 portInt)
      end
    else Ok (s_port s) in
  match port with
  | Err e => (s, hdr, Err e)
  | Panic => (s, hdr, Panic)
  | Ok port =>
      let versions :=
        if len (s_supportedVersionsAsString s) =? 0 then appendVersions 0 SupportedVersions (s_supportedVersionsAsString s)
        else s_supportedVersionsAsString s in
      let hdr := Header_Add hdr (str "Alternate-Protocol") (FormatInt port ++ str ":quic") in
      let hdr := Header_Add hdr (str "Alt-Svc")
                   (str "quic=" ++ [34; 58] ++ FormatInt port ++ [34] ++ str "; ma=2592000; v=" ++ [34] ++ versions ++ [34]) in
      (mkH2Server (s_Addr s) port (s_listener s) versions, hdr, Ok tt)
  end.
End listener.

(** ** One response for every request *)

Section response.
Context `{Hp : Hpack, U : Urls, Fr : Framer} (unicodeLower : list Z -> list Z).
Context (readAnswer : list h2Op -> Z -> res (list Z)) (writeAnswer : list h2Op -> list Z -> res Z).
Context (iter : list h2Op -> Header -> list (list Z * list (list Z))).
#[local] Abbreviation run := (ServeHTTP unicodeLower readAnswer writeAnswer iter).

(** The frame for a response *)
Definition responseFrame (id : Z) (order : list (list Z * list (list Z))) (status : Z) : res (list Z) :=
  WriteHeaders (mkHeadersFrameParam (u32 id) true false (hp_WriteFields hp_NewEncoder (responseFields unicodeLower order status)).2 0).

(** Operations before the response has been started, and those that belong to its body *)
Definition read_of (id : Z) (op : h2Op) : Prop := exists n, op = OpRead id n.
Definition body_of (id status : Z) (op : h2Op) : Prop :=
  read_of id op \/ exists p, op = OpWrite id p /\ bodyAllowedForStatus status = true.

Definition started (id status : Z) (h : Header) (ops pre body : list h2Op) : Prop :=
  ops = pre ++ OpHeaders (responseFrame id (iter pre h) status) :: body /\
  Forall (read_of id) pre /\ Forall (body_of id status) body.
Definition serving_inv (id : Z) (s : serving) : Prop :=
  w_dataStreamID (sv_w s) = id /\ sv_requestRead s = existsb is_read (sv_ops s) /\
  if w_headerWritten (sv_w s) then exists h pre body, started id (w_status (sv_w s)) h (sv_ops s) pre body
  else Forall (read_of id) (sv_ops s).

Lemma started_snoc id status h ops pre body op :
  started id status h ops pre body -> body_of id status op -> started id status h (ops ++ [op]) pre (body ++ [op]).
Proof.
  intros (-> & Hpre & Hbody) Hop. unfold started. rewrite <- app_assoc. split_and!; [done|done|].
  apply Forall_app. split; [done|by constructor].
Qed.

Lemma WriteHeader_inv id status s : serving_inv id s -> serving_inv id (serve_WriteHeader unicodeLower iter status s).
Proof.
  intros (Hid & Hr & Hw). unfold serve_WriteHeader, WriteHeader. destruct (w_headerWritten (sv_w s)) eqn:Ew; cbn.
  - unfold serving_inv. cbn. by rewrite Ew.
  - unfold serving_inv. cbn. split_and!; [done| |].
    + by rewrite existsb_app, Hr, orb_false_r.
    + exists (w_header (sv_w s)), (sv_ops s), []. unfold started, responseFrame. rewrite Hid. split_and!; [done..|constructor].
Qed.

Lemma WriteHeader_written status s : w_headerWritten (sv_w (serve_WriteHeader unicodeLower iter status s)) = true.
Proof. unfold serve_WriteHeader, WriteHeader. by destruct (w_headerWritten (sv_w s)) eqn:Ew. Qed.

(** [Write] is [WriteHeader] for status 200, if need be, and then the data. *)
Lemma serve_Write_eq p s :
  let s' := serve_WriteHeader unicodeLower iter 200 s in
  (serve_Write unicodeLower writeAnswer iter p s).1 =
    if bodyAllowedForStatus (w_status (sv_w s'))
    then mkServing (sv_w s') (sv_requestRead s') (sv_ops s' ++ [OpWrite (w_dataStreamID (sv_w s')) p]) else s'.
Proof.
  intros s'. unfold s', serve_Write, responseWriter_Write, serve_WriteHeader, WriteHeader. destruct (w_headerWritten (sv_w s)); cbn.
  - by destruct (bodyAllowedForStatus (w_status (sv_w s))).
  - done.
Qed.

Lemma serve_Write_inv id p s : serving_inv id s -> serving_inv id (serve_Write unicodeLower writeAnswer iter p s).1.
Proof.
  intros Hs. rewrite serve_Write_eq. apply (WriteHeader_inv id 200) in Hs. pose proof (WriteHeader_written 200 s) as Hw.
  set (s' := serve_WriteHeader unicodeLower iter 200 s) in *. destruct (bodyAllowedForStatus (w_status (sv_w s'))) eqn:Eb; [|done].
  destruct Hs as (Hid & Hr & H). rewrite Hw in H. destruct H as (h & pre & body & H). unfold serving_inv. cbn. split_and!; [done| |].
  - by rewrite existsb_app, Hr, orb_false_r.
  - rewrite Hw. exists h, pre, (body ++ [OpWrite (w_dataStreamID (sv_w s')) p]). apply started_snoc; [done|]. right. exists p.
    by rewrite Hid.
Qed.

Lemma Read_inv id n s : serving_inv id s -> serving_inv id (requestBody_Read readAnswer n s).1.
Proof.
  intros (Hid & Hr & Hw). unfold requestBody_Read, serving_inv. cbn. split_and!; [done| |].
  - by rewrite existsb_app, orb_true_r.
  - rewrite Hid. destruct (w_headerWritten (sv_w s)).
    + destruct Hw as (h & pre & body & H). exists h, pre, (body ++ [OpRead id n]). apply started_snoc; [done|]. left. by exists n.
    + apply Forall_app. split; [done|]. repeat constructor. by exists n.
Qed.

Lemma ServeHTTP_inv id hd s : serving_inv id s -> serving_inv id (run hd s).1.
Proof.
  revert s. induction hd as [| |f k IH|status k IH|p k IH|n k IH]; intros s Hs; cbn [ServeHTTP]; try done.
  - by apply IH.
  - apply IH. by apply WriteHeader_inv.
  - pose proof (serve_Write_inv id p s Hs) as Hs'. destruct (serve_Write _ _ _ _ _) as [s' r]. by apply IH.
  - pose proof (Read_inv id n s Hs) as Hs'. destruct (requestBody_Read _ _ _) as [s' r]. by apply IH.
Qed.

(** C11: Whatever the handler does, a request is answered once: there is one HEADERS frame on the
    header stream, with the ID of the request's stream; before it the server only reads the
    body of the request, behind it there are only reads and, where the status allows a body,
    writes; in the end the stream is reset if its end is not known and the body has not been
    read, and closed.  A handler that has not started the response gets 200, or 500 if it
    panicked. *)
Theorem serve_response closeAfter hd j :
  exists status h pre body,
    serve unicodeLower readAnswer writeAnswer iter closeAfter hd j =
      pre ++ OpHeaders (responseFrame (j_streamID j) (iter pre h) status) :: body
      ++ (if negb (j_streamEnded j) && negb (existsb is_read (pre ++ body)) then [OpReset (j_streamID j)] else [])
      ++ [OpClose (j_streamID j)] ++ (if closeAfter then [OpSessionClose None] else []) /\
    Forall (read_of (j_streamID j)) pre /\ Forall (body_of (j_streamID j) status) body /\
    forall s panicked, run (hd (j_req j)) (mkServing (newResponseWriter (j_streamID j)) false []) = (s, panicked) ->
      w_headerWritten (sv_w s) = false -> status = (if panicked then 500 else 200) /\ h = w_header (sv_w s) /\ body = [].
Proof.
  set (id := j_streamID j). assert (serving_inv id (mkServing (newResponseWriter id) false [])) as H0 by by split_and!; cbn.
  unfold serve. fold id. apply (ServeHTTP_inv id (hd (j_req j))) in H0. destruct (run (hd (j_req j)) _) as [s panicked] eqn:Er.
  cbn [fst] in H0. set (st := if panicked then 500 else 200). destruct (w_headerWritten (sv_w s)) eqn:Ew.
  - assert (serve_WriteHeader unicodeLower iter st s = s) as ->.
    { unfold serve_WriteHeader, WriteHeader. rewrite Ew. by destruct s. }
    destruct H0 as (_ & Hr & H). rewrite Ew in H. destruct H as (h & pre & body & Hops & Hpre & Hbody).
    exists (w_status (sv_w s)), h, pre, body. rewrite Hr, Hops, existsb_app. cbn [existsb is_read orb].
    rewrite <- existsb_app, <- app_assoc. split_and!; [done..|]. intros s' p' E. congruence.
  - destruct H0 as (Hid & Hr & H). rewrite Ew in H. exists st, (w_header (sv_w s)), (sv_ops s), [].
    assert (serve_WriteHeader unicodeLower iter st s =
            mkServing (mkResponseWriter id (w_header (sv_w s)) st true) (sv_requestRead s)
              (sv_ops s ++ [OpHeaders (responseFrame id (iter (sv_ops s) (w_header (sv_w s))) st)])) as ->.
    { unfold serve_WriteHeader, WriteHeader, responseFrame. rewrite Ew, Hid. done. }
    cbn [sv_ops sv_requestRead]. rewrite Hr, app_nil_r, <- app_assoc. split_and!; [done..|constructor|].
    intros s' p' E. by simplify_eq.
Qed.

End response.

(** ** The loop over the requests *)

Section loop.
Context `{Hp : Hpack, HL : !HpackLaws Hp, U : Urls, UL : !UrlsLaws U, Fr : Framer, FL : !FramerLaws Fr}.

Lemma ParseInt_safe s : ParseInt s <> Panic.
Proof. unfold ParseInt. by repeat case_match. Qed.

Lemma requestFromHeaders_safe {B} fs : requestFromHeaders (B := B) fs <> Panic.
Proof.
  unfold requestFromHeaders. case_match; [done|]. destruct (url_Parse _) eqn:Eu; cbn [rbind]; [|done|by apply url_Parse_safe in Eu].
  destruct (len (sc_contentLength _) >? 0); [|done]. destruct (ParseInt _) eqn:Ep; [done..|by apply ParseInt_safe in Ep].
Qed.

(** A session in the sense of the server: opening a stream returns. *)
Definition session_safe (session : streamCreator) : Prop :=
  ss_AcceptStream session <> Panic /\ forall id, ss_GetOrOpenStream session id <> Panic.

Lemma handleRequest_progress session r : session_safe session ->
  match handleRequest session r with
  | (r', _, Ok _) => (length (hr_input r') < length (hr_input r))%nat
  | (_, _, Err _) => True
  | (_, _, Panic) => False
  end.
Proof.
  intros [_ Hs]. unfold handleRequest. destruct (ReadFrame (hr_input r)) as [[f input]| |] eqn:Ef; [|done|by apply ReadFrame_safe in Ef].
  apply ReadFrame_shorter in Ef. destruct f as [id ended se block|id]; [|done]. destruct (negb ended); [done|].
  pose proof (hp_Decode_safe (hr_dec r) block) as Hd. destruct (hp_DecodeFull (hr_dec r) block) as [dec decoded].
  cbn [snd] in Hd. destruct decoded as [fs| |]; cbn [rbind]; [|done..].
  pose proof (requestFromHeaders_safe (B := Z) fs). destruct (requestFromHeaders fs); cbn [rbind]; [|done..].
  specialize (Hs id). destruct (ss_GetOrOpenStream session id) as [[]| |]; done.
Qed.

Lemma requestLoop_ends fuel session r : session_safe session -> (length (hr_input r) < fuel)%nat ->
  exists js ops e, requestLoop fuel session r = Some (js, ops ++ [OpSessionClose (Some e)]).
Proof.
  intros Hs. revert r. induction fuel as [|fuel IH]; intros r Hf; [lia|]. cbn [requestLoop].
  pose proof (handleRequest_progress session r Hs) as Hp1. destruct (handleRequest session r) as [[r' ops] [j|e|]]; [|by eauto|done].
  destruct (IH r') as (js & ops' & e & ->); [lia|]. rewrite app_assoc. eauto.
Qed.

(** The goroutine that reads requests ends: when the header stream has ended, whatever was
    received on it, the loop has returned and has closed the session with an error. *)
Theorem handleHeaderStream_ends session input : session_safe session ->
  exists js ops e, handleHeaderStream session input = Some (js, ops ++ [OpSessionClose (Some e)]).
Proof.
  intros Hs. unfold handleHeaderStream. destruct (ss_AcceptStream session) as [id|e|] eqn:Ea; [|by eexists [], [], _|by destruct Hs].
  case_match; [by eexists [], [], _|]. apply requestLoop_ends; [done|]. cbn. lia.
Qed.

End loop.

(** ** Announcing the server *)

Lemma appendVersions_spec : appendVersions 0 SupportedVersions [] = versionsString SupportedVersions.
Proof. reflexivity. Qed.

(** The headers that announce a server on a port *)
Definition announced (hdr : Header) (port : Z) (versions : list Z) : Header :=
  Header_Add (Header_Add hdr (str "Alternate-Protocol") (FormatInt port ++ str ":quic")) (str "Alt-Svc")
    (str "quic=" ++ [34; 58] ++ FormatInt port ++ [34] ++ str "; ma=2592000; v=" ++ [34] ++ versions ++ [34]).

(** Once the port is known, [SetQuicHeaders] needs no look-up and always adds the same values. *)
Lemma SetQuicHeaders_again {L} lookup1 lookup2 (s : h2Server L) hdr1 hdr2 s' hdr' :
  s_supportedVersionsAsString s ∈ [[]; versionsString SupportedVersions] ->
  SetQuicHeaders lookup1 s hdr1 = (s', hdr', Ok tt) -> s_port s' <> 0 ->
  hdr' = announced hdr1 (s_port s') (versionsString SupportedVersions) /\
  SetQuicHeaders lookup2 s' hdr2 = (s', announced hdr2 (s_port s') (versionsString SupportedVersions), Ok tt).
Proof.
  intros Hv. unfold SetQuicHeaders. case_match; [|done..]. intros [= <- <-]. cbn [s_port s_Addr s_supportedVersionsAsString s_listener].
  intros Hp. rewrite (proj2 (Z.eqb_neq _ _) Hp). apply list_elem_of_In in Hv as [<-|[<-|[]]]; split; reflexivity.
Qed.

(** A server that listens cannot be started again until it has been closed. *)
Lemma serveImpl_once {L} listen listen' (s s' : h2Server L) ln : serveImpl listen s = (s', Ok ln) ->
  serveImpl listen' s' = (s', Err (ErrNew "ListenAndServe may only be called once")) /\
  forall close, h2Server_Close close s' = (s, Some ln, close ln).
Proof.
  unfold serveImpl. destruct (s_Addr s) as [a|] eqn:Ea; [|done]. destruct (s_listener s) eqn:El; [done|].
  destruct listen; [|done..]. intros [= <- <-]. cbn. split; [done|]. intros close. destruct s; cbn in *; by subst.
Qed.

(** ** Listening on TCP and QUIC *)

Inductive closing : Type :=
| CloseUDP
| CloseTCP
| CloseQuicServer.

(** [ListenAndServe]: loading the certificate, the addresses and sockets, and the server that
    returns first ([true] for that of TCP), with its error.  The deferred calls run last. *)
Definition ListenAndServe_tls (load resolveUDP listenUDP resolveTCP listenTCP : res unit) (first : bool * goerror)
    : list closing * goerror + unit :=
  match load, resolveUDP, listenUDP with
  | Ok _, Ok _, Ok _ =>
      match resolveTCP, listenTCP with
      | Ok _, Ok _ => inl ((if first.1 then [CloseQuicServer] else []) ++ [CloseTCP; CloseUDP], first.2)
      | Ok _, Err e | Err e, _ => inl ([CloseUDP], e)
      | _, _ => inr tt
      end
  | Ok _, Ok _, Err e | Ok _, Err e, _ | Err e, _, _ => inl ([], e)
  | _, _, _ => inr tt
  end.

(** A socket that has been opened is closed, on every way out. *)
Lemma ListenAndServe_tls_closes load ru lu rt lt first closed e :
  ListenAndServe_tls load ru lu rt lt first = inl (closed, e) ->
  (CloseUDP ∈ closed <-> load = Ok tt /\ ru = Ok tt /\ lu = Ok tt) /\
  (CloseTCP ∈ closed <-> load = Ok tt /\ ru = Ok tt /\ lu = Ok tt /\ rt = Ok tt /\ lt = Ok tt).
Proof.
  unfold ListenAndServe_tls. destruct load as [[]| |], ru as [[]| |], lu as [[]| |], rt as [[]| |], lt as [[]| |], first as [[] ?];
    intros [= <- <-]; rewrite ?elem_of_cons, ?elem_of_nil; naive_solver.
Qed.
