(* ===== verification/H2Client.v ===== *)
(** * h2quic/client.go and roundtrip.go: making requests

    A client has one session; calls of [Do] write their requests on the header stream and wait
    for the goroutine that reads responses from it.  Calls and that goroutine run concurrently:
    the state of the client is changed in steps, one for each stretch between two points at
    which a goroutine can wait.  What the session and the streams answer is part of a step. *)

From S2P Require Import Prelude Protocol Qerr Wire Crypto GoStrings Httplex Http H2Messages.

(** A string constant *)
#[local] Abbreviation str := bytes_of.

Section authority.
Context `{Id : Idna}.

(** [net.SplitHostPort] and the default port *)
Definition authorityAddr (scheme authority : list Z) : list Z :=
  let '(host, port) :=
    match SplitHostPort authority with
    | Ok hp => hp
    | _ => (authority, if bool_decide (scheme = str "http") then str "80" else str "443")
    end in
  let host := match ToASCII host with Ok a => a | _ => host end in
  if HasPrefix host [91] && HasSuffix host [93] then host ++ [58] ++ port
  else JoinHostPort host port.
End authority.

(** The body of a response: none, the data stream, or what is unpacked from it *)
Inductive responseBody : Type :=
| NoBody
| DataStream (id : Z)
| GzipBody (id : Z).

Section client.
Context `{Hp : Hpack, U : Urls, Id : Idna, Mh : MetaHeaders, Fr : Framer} {B : Type}.
Context (unicodeLower : list Z -> list Z) (statusText : Z -> list Z) (disableCompression : bool).

Record Client : Type := mkClient {
  hc_hostname : list Z;
  hc_dialed : bool;                    (* dialChan is closed *)
  hc_handshakeErr : option goerror;
}.
(** The two constructors differ in the function that dials, which is an argument of [Dial]. *)
Definition NewClient (hostname : list Z) : Client := mkClient (authorityAddr (str "https") hostname) false None.
Definition NewClientEx (hostname : list Z) : Client := mkClient (authorityAddr (str "https") hostname) false None.

(** [Dial]: [dial] is the result of [dialAddr], [open] the ID of the header stream.  The second
    result is whether the goroutine that reads responses has been started. *)
Definition Dial (dial : res unit) (open : res Z) (c : Client) : Client * bool * res unit :=
  let r := (let! _ := dial in
            let! id := open in
            if negb (id =? 3) then Err (ErrNew "h2quic Client BUG: StreamID of Header Stream is not 3") else Ok tt) in
  (mkClient (hc_hostname c) true (match r with Err e => Some e | _ => None end), is_ok r, r).

(** ** The parts of [Do] *)

(** A request for another scheme or another server is refused. *)
Definition Do_check (hostname : list Z) (req : Request B) : res unit :=
  match rq_URL req with
  | None => Panic
  | Some u =>
      if negb (bool_decide (url_Scheme u = str "https")) then Err (ErrNew "quic http2: unsupported scheme")
      else if negb (bool_decide (authorityAddr (str "https") (hostnameFromRequest req) = hostname))
      then Err (ErrNew "h2quic Client BUG: Do called for the wrong client")
      else Ok tt
  end.

Definition requestGzip (req : Request B) : bool :=
  let h := default ∅ (rq_Header req) in
  negb disableCompression && bool_decide (Header_Get h (str "Accept-Encoding") = []) &&
  bool_decide (Header_Get h (str "Range") = []) && negb (bool_decide (rq_Method req = str "HEAD")).

Definition set_Body (res : Response responseBody) (b : responseBody) : Response responseBody :=
  mkResponse _ (rs_Proto res) (rs_ProtoMajor res) (rs_StatusCode res) (rs_Status res) (rs_Header res)
    (rs_Trailer res) (rs_ContentLength res) (Some b) (rs_Uncompressed res).
(** What [Do] makes of the response; [streamEnded] is never set. *)
Definition Do_response (req : Request B) (id : Z) (requestedGzip : bool) (res : Response responseBody)
    : Response responseBody :=
  let isHead := bool_decide (rq_Method req = str "HEAD") in
  let res := setLength res isHead false in
  if isHead then set_Body res NoBody
  else
    let res := set_Body res (DataStream id) in
    if requestedGzip && bool_decide (Header_Get (rs_Header res) (str "Content-Encoding") = str "gzip") then
      mkResponse _ (rs_Proto res) (rs_ProtoMajor res) (rs_StatusCode res) (rs_Status res)
        (Header_Del (Header_Del (rs_Header res) (str "Content-Encoding")) (str "Content-Length"))
        (rs_Trailer res) (-1) (Some (GzipBody id)) true
    else res.

(** [writeRequestBody]: copying the body, closing the data stream, closing the body *)
Definition writeRequestBody (copyErr closeErr bodyErr : option goerror) : option goerror :=
  let err := match copyErr with Some e => Some e | None => closeErr end in
  match err with None => bodyErr | Some e => Some e end.

(** ** The state of a client *)

(** A call of [Do]: before the checks, waiting for the handshake, opening the data stream,
    registering for the response, writing the request, in the loop of the select, with a
    response whose channel is still registered, closing the session after a response of nil,
    returning the error then, returned.  The channel for the response is named by the call. *)
Inductive call : Type :=
| CStart (req : Request B)
| CDial (req : Request B)
| COpen (req : Request B)
| CRegister (req : Request B) (id : Z)
| CWrite (req : Request B) (id : Z)
| CSelect (req : Request B) (id : Z) (gzip bodySent : bool) (received : option (Response responseBody))
| CReceived (req : Request B) (id : Z) (gzip bodySent : bool) (rsp : option (Response responseBody))
| CClose (req : Request B) (id : Z)
| CReturn (req : Request B) (id : Z)
| CDone (req : Request B) (id : option Z) (r : res (Response responseBody)).

(** The goroutine that reads responses: not started, at the start of its loop, sending a
    response to a channel, behind the loop, returned *)
Inductive headerLoop : Type :=
| LNone
| LRead
| LSend (id : Z) (chan : nat) (rsp : option (Response responseBody))
| LStop
| LDone.

(** What the client does on its session: a frame that is written on the header stream, and
    closing the session *)
Inductive clientOp : Type :=
| ClFrame (frame : list Z)
| ClClose (e : option goerror).

Record clientState : Type := mkClientState {
  cs_client : Client;
  cs_writer : requestWriter;
  cs_headerErr : option goerror;
  cs_responses : gmap Z nat;
  cs_loop : headerLoop;
  cs_input : list Z;                   (* not yet read from the header stream *)
  cs_dec : hp_Decoder;
  cs_closed : gset nat;                (* channels that have been closed *)
  cs_calls : gmap nat call;
  cs_streams : gset Z;                 (* data streams that have been opened *)
  cs_ops : list clientOp;
}.
Definition initialState (hostname input : list Z) : clientState :=
  mkClientState (NewClient hostname) newRequestWriter None ∅ LNone input (hp_NewDecoder 4096) ∅ ∅ ∅ [].

#[local] Definition set_call (s : clientState) (i : nat) (c : call) : clientState :=
  mkClientState (cs_client s) (cs_writer s) (cs_headerErr s) (cs_responses s) (cs_loop s) (cs_input s) (cs_dec s)
    (cs_closed s) (<[i := c]> (cs_calls s)) (cs_streams s) (cs_ops s).
#[local] Definition set_responses (s : clientState) (m : gmap Z nat) : clientState :=
  mkClientState (cs_client s) (cs_writer s) (cs_headerErr s) m (cs_loop s) (cs_input s) (cs_dec s)
    (cs_closed s) (cs_calls s) (cs_streams s) (cs_ops s).
#[local] Definition set_loop (s : clientState) (l : headerLoop) : clientState :=
  mkClientState (cs_client s) (cs_writer s) (cs_headerErr s) (cs_responses s) l (cs_input s) (cs_dec s)
    (cs_closed s) (cs_calls s) (cs_streams s) (cs_ops s).
#[local] Definition set_headerErr (s : clientState) (e : option goerror) : clientState :=
  mkClientState (cs_client s) (cs_writer s) e (cs_responses s) (cs_loop s) (cs_input s) (cs_dec s)
    (cs_closed s) (cs_calls s) (cs_streams s) (cs_ops s).
#[local] Definition set_writer (s : clientState) (w : requestWriter) : clientState :=
  mkClientState (cs_client s) w (cs_headerErr s) (cs_responses s) (cs_loop s) (cs_input s) (cs_dec s)
    (cs_closed s) (cs_calls s) (cs_streams s) (cs_ops s).
#[local] Definition add_op (s : clientState) (op : clientOp) : clientState :=
  mkClientState (cs_client s) (cs_writer s) (cs_headerErr s) (cs_responses s) (cs_loop s) (cs_input s) (cs_dec s)
    (cs_closed s) (cs_calls s) (cs_streams s) (cs_ops s ++ [op]).
#[local] Definition add_stream (s : clientState) (id : Z) : clientState :=
  mkClientState (cs_client s) (cs_writer s) (cs_headerErr s) (cs_responses s) (cs_loop s) (cs_input s) (cs_dec s)
    (cs_closed s) (cs_calls s) ({[id]} ∪ cs_streams s) (cs_ops s).
#[local] Definition set_reader (s : clientState) (input : list Z) (dec : hp_Decoder) : clientState :=
  mkClientState (cs_client s) (cs_writer s) (cs_headerErr s) (cs_responses s) (cs_loop s) input dec
    (cs_closed s) (cs_calls s) (cs_streams s) (cs_ops s).

(** [Close] *)
Definition Client_Close (s : clientState) (e : option goerror) : clientState := add_op s (ClClose e).


(** ** The steps of a call *)

(** A new call *)
Definition step_call (i : nat) (req : Request B) (s : clientState) : option clientState :=
  match cs_calls s !! i with None => Some (set_call s i (CStart req)) | Some _ => None end.

Definition step_check (i : nat) (s : clientState) : option clientState :=
  match cs_calls s !! i with
  | Some (CStart req) =>
      Some (set_call s i match Do_check (hc_hostname (cs_client s)) req with
                         | Ok _ => CDial req
                         | Err e => CDone req None (Err e)
                         | Panic => CDone req None Panic
                         end)
  | _ => None
  end.

(** [<-c.dialChan] *)
Definition step_dialed (i : nat) (s : clientState) : option clientState :=
  match cs_calls s !! i with
  | Some (CDial req) =>
      if hc_dialed (cs_client s)
      then Some (set_call s i match hc_handshakeErr (cs_client s) with Some e => CDone req None (Err e) | None => COpen req end)
      else None
  | _ => None
  end.

(** [OpenStreamSync]: a stream that has not been opened before, or an error *)
Definition step_open (i : nat) (r : res Z) (s : clientState) : option clientState :=
  match cs_calls s !! i, r with
  | Some (COpen req), Ok id =>
      if decide (id ∈ cs_streams s) then None else Some (set_call (add_stream s id) i (CRegister req id))
  | Some (COpen req), Err e => Some (set_call (Client_Close s (Some e)) i (CDone req None (Err e)))
  | _, _ => None
  end.

Definition step_register (i : nat) (s : clientState) : option clientState :=
  match cs_calls s !! i with
  | Some (CRegister req id) => Some (set_call (set_responses s (<[id := i]> (cs_responses s))) i (CWrite req id))
  | _ => None
  end.

(** [WriteRequest]; [writeErr] is the error of the header stream.  The loop of the select comes
    next. *)
Definition step_write (i : nat) (order1 order2 : list (list Z * list (list Z))) (writeErr : option goerror)
    (s : clientState) : option clientState :=
  match cs_calls s !! i with
  | Some (CWrite req id) =>
      let hasBody := bool_decide (is_Some (rq_Body req)) in
      let '(w, r) := WriteRequest unicodeLower order1 order2 (cs_writer s) req id (negb hasBody) (requestGzip req) in
      let s := set_writer s w in
      match r, writeErr with
      | Ok frame, None => Some (set_call (add_op s (ClFrame frame)) i (CSelect req id (requestGzip req) (negb hasBody) None))
      | Ok _, Some e | Err e, _ => Some (set_call (Client_Close s (Some e)) i (CDone req (Some id) (Err e)))
      | Panic, _ => Some (set_call s i (CDone req (Some id) Panic))
      end
  | _ => None
  end.

(** The loop of the select goes on until the body is sent and the response received. *)
Definition select_next (req : Request B) (id : Z) (gzip bodySent : bool) (received : option (Response responseBody)) : call :=
  match bodySent, received with
  | true, Some r => CDone req (Some id) (Ok (Do_response req id gzip r))
  | _, _ => CSelect req id gzip bodySent received
  end.

(** [case err := <-resc] *)
Definition step_body (i : nat) (copyErr closeErr bodyErr : option goerror) (s : clientState) : option clientState :=
  match cs_calls s !! i with
  | Some (CSelect req id gzip false received) =>
      Some (set_call s i match writeRequestBody copyErr closeErr bodyErr with
                         | Some e => CDone req (Some id) (Err e)
                         | None => select_next req id gzip true received
                         end)
  | _ => None
  end.

(** [case res = <-responseChan], up to the lock: possible as long as the loop of the select goes
    on, also when a response has been received before *)
Definition receiveResponse (i : nat) (rsp : option (Response responseBody)) (s : clientState) : option clientState :=
  match cs_calls s !! i with
  | Some (CSelect req id gzip bodySent _) => Some (set_call s i (CReceived req id gzip bodySent rsp))
  | _ => None
  end.

(** The channel has been closed. *)
Definition step_closed (i : nat) (s : clientState) : option clientState :=
  if decide (i ∈ cs_closed s) then receiveResponse i None s else None.

(** The channel is not registered any more; a response of nil is an error of the header stream. *)
Definition step_delete (i : nat) (s : clientState) : option clientState :=
  match cs_calls s !! i with
  | Some (CReceived req id gzip bodySent rsp) =>
      Some (set_call (set_responses s (delete id (cs_responses s))) i
        match rsp with
        | None => CClose req id
        | Some r => select_next req id gzip bodySent (Some r)
        end)
  | _ => None
  end.

(** [c.Close(c.headerErr)] and [return nil, c.headerErr] *)
Definition step_close (i : nat) (s : clientState) : option clientState :=
  match cs_calls s !! i with
  | Some (CClose req id) => Some (set_call (Client_Close s (cs_headerErr s)) i (CReturn req id))
  | _ => None
  end.
Definition step_return (i : nat) (s : clientState) : option clientState :=
  match cs_calls s !! i with
  | Some (CReturn req id) =>
      Some (set_call s i (CDone req (Some id) (match cs_headerErr s with Some e => Err e | None => Panic end)))
  | _ => None
  end.

(** ** The steps of the goroutine that reads responses *)

Definition step_dial (dial : res unit) (open : res Z) (s : clientState) : option clientState :=
  if hc_dialed (cs_client s) then None
  else
    let '(c, started, _) := Dial dial open (cs_client s) in
    Some (mkClientState c (cs_writer s) (cs_headerErr s) (cs_responses s) (if started then LRead else cs_loop s) (cs_input s)
            (cs_dec s) (cs_closed s) (cs_calls s) (cs_streams s) (cs_ops s)).

(** One iteration of the loop in [handleHeaderStream], up to sending the response *)
Definition step_read (s : clientState) : option clientState :=
  match cs_loop s with
  | LRead =>
      match ReadFrame (cs_input s) with
      | Panic => None
      | Err _ => Some (set_loop (set_headerErr s (Some (QuicError HeadersStreamDataDecompressFailure (Msg "cannot read frame")))) LStop)
      | Ok (OtherFrame _, input) =>
          Some (set_loop (set_headerErr (set_reader s input (cs_dec s)) (Some (QuicError InvalidHeadersStreamData (Msg "not a headers frame")))) LStop)
      | Ok (HeadersFrame id _ _ block, input) =>
          let '(dec, decoded) := hp_DecodeFull (cs_dec s) block in
          let s := set_reader s input dec in
          match decoded with
          | Panic => None
          | Err _ => Some (set_loop (set_headerErr s (Some (QuicError InvalidHeadersStreamData (Msg "cannot read header fields")))) LStop)
          | Ok fields =>
              match cs_responses s !! id with
              | None =>
                  Some (set_loop (set_headerErr s
                    (Some (QuicError InternalError (Msgf "h2client BUG: response channel for stream %d not found" [id])))) LStop)
              | Some chan =>
                  match responseFromHeaders statusText (mkMetaHeadersFrame fields false) with
                  | Ok rsp => Some (set_loop s (LSend id chan (Some rsp)))
                  | Err e => Some (set_loop (set_headerErr s (Some (QuicError InternalError (MsgOf e)))) (LSend id chan None))
                  | Panic => None
                  end
              end
          end
      end
  | _ => None
  end.

(** [headerChan <- rsp] and the receive of the call that has made the channel *)
Definition step_deliver (s : clientState) : option clientState :=
  match cs_loop s with
  | LSend _ chan rsp => (fun s => set_loop s LRead) <$> receiveResponse chan rsp s
  | _ => None
  end.

(** Behind the loop: all channels that are registered are closed. *)
Definition step_stop (s : clientState) : option clientState :=
  match cs_loop s with
  | LStop =>
      Some (mkClientState (cs_client s) (cs_writer s) (cs_headerErr s) (cs_responses s) LDone (cs_input s) (cs_dec s)
              (list_to_set (map snd (map_to_list (cs_responses s))) ∪ cs_closed s) (cs_calls s) (cs_streams s) (cs_ops s))
  | _ => None
  end.

Inductive callEvent : Type :=
| EvCall (i : nat) (req : Request B)
| EvDial (dial : res unit) (open : res Z)
| EvCheck (i : nat)
| EvDialed (i : nat)
| EvOpen (i : nat) (r : res Z)
| EvRegister (i : nat)
| EvWrite (i : nat) (order1 order2 : list (list Z * list (list Z))) (writeErr : option goerror)
| EvBody (i : nat) (copyErr closeErr bodyErr : option goerror)
| EvClosed (i : nat)
| EvDelete (i : nat)
| EvClose (i : nat)
| EvReturn (i : nat)
| EvRead
| EvDeliver
| EvStop.
Definition cstep (ev : callEvent) (s : clientState) : option clientState :=
  match ev with
  | EvCall i req => step_call i req s
  | EvDial dial open => step_dial dial open s
  | EvCheck i => step_check i s
  | EvDialed i => step_dialed i s
  | EvOpen i r => step_open i r s
  | EvRegister i => step_register i s
  | EvWrite i order1 order2 e => step_write i order1 order2 e s
  | EvBody i e1 e2 e3 => step_body i e1 e2 e3 s
  | EvClosed i => step_closed i s
  | EvDelete i => step_delete i s
  | EvClose i => step_close i s
  | EvReturn i => step_return i s
  | EvRead => step_read s
  | EvDeliver => step_deliver s
  | EvStop => step_stop s
  end.
Definition csteps (evs : list callEvent) (s : clientState) : option clientState :=
  fold_left (fun s ev => s ≫= cstep ev) evs (Some s).

(** Some sequence of steps leads from one state to the other. *)
Inductive leads (s : clientState) : clientState -> Prop :=
| leads_refl : leads s s
| leads_step ev s1 s2 : leads s s1 -> cstep ev s1 = Some s2 -> leads s s2.

Lemma csteps_from s0 evs s s' : leads s0 s -> csteps evs s = Some s' -> leads s0 s'.
Proof.
  revert s. induction evs as [|ev evs IH]; intros s Hl H.
  - by injection H as <-.
  - unfold csteps in H. cbn [fold_left mbind option_bind] in H. destruct (cstep ev s) as [s1|] eqn:E.
    + eapply IH; [by eapply leads_step|exact H].
    + exfalso. clear -H. induction evs; [done|]. by apply IHevs.
Qed.
Lemma csteps_leads evs s s' : csteps evs s = Some s' -> leads s s'.
Proof. apply csteps_from. apply leads_refl. Qed.

End client.

(** ** Responses reach the calls they are for *)

Section matching.
Context `{Hp : Hpack, U : Urls, Id : Idna, Mh : MetaHeaders, Fr : Framer} {B : Type}.
Context (unicodeLower : list Z -> list Z) (statusText : Z -> list Z) (disableCompression : bool).
#[local] Abbreviation state := (clientState (B := B)).
#[local] Abbreviation steps := (leads unicodeLower statusText disableCompression).
#[local] Abbreviation gzipFor := (requestGzip (B := B) disableCompression).

(** The header stream carries a response for a stream; it is [None] when its fields are not
    those of a response. *)
Inductive received : hp_Decoder -> list Z -> Z -> option (Response responseBody) -> Prop :=
| received_here dec input id e1 e2 block rest dec' fields :
    ReadFrame input = Ok (HeadersFrame id e1 e2 block, rest) -> hp_DecodeFull dec block = (dec', Ok fields) ->
    received dec input id (match responseFromHeaders statusText (mkMetaHeadersFrame fields false) with Ok r => Some r | _ => None end)
| received_later dec input id e1 e2 block rest dec' fields id' r :
    ReadFrame input = Ok (HeadersFrame id e1 e2 block, rest) -> hp_DecodeFull dec block = (dec', Ok fields) ->
    received dec' rest id' r -> received dec input id' r.

(** The data stream of a call *)
Definition call_id (c : call (B := B)) : option Z :=
  match c with
  | CStart _ | CDial _ | COpen _ => None
  | CRegister _ id | CWrite _ id | CSelect _ id _ _ _ | CReceived _ id _ _ _ | CClose _ id | CReturn _ id => Some id
  | CDone _ id _ => id
  end.

Context (dec0 : hp_Decoder) (input0 : list Z).

(** A call, the channel that is registered for its stream, and what it has received *)
Definition call_ok (registered : option nat) (i : nat) (c : call (B := B)) : Prop :=
  match c with
  | CStart _ | CDial _ | COpen _ => True
  | CRegister _ _ => registered = None
  | CWrite _ _ => registered = Some i
  | CSelect req id gzip _ None => registered = Some i /\ gzip = gzipFor req
  | CSelect req id gzip _ (Some r) => registered = None /\ gzip = gzipFor req /\ received dec0 input0 id (Some r)
  | CReceived req id gzip _ rsp => gzip = gzipFor req /\ forall r, rsp = Some r -> received dec0 input0 id (Some r)
  | CClose _ _ | CReturn _ _ => True
  | CDone req (Some id) (Ok res) => registered = None /\ exists r, received dec0 input0 id (Some r) /\ res = Do_response req id (gzipFor req) r
  | CDone _ None (Ok _) => False
  | CDone _ _ _ => True
  end.

Definition loop_ok (s : state) : Prop :=
  match cs_loop s with
  | LNone | LRead => forall id r, received (cs_dec s) (cs_input s) id r -> received dec0 input0 id r
  | LSend id chan rsp =>
      (forall id r, received (cs_dec s) (cs_input s) id r -> received dec0 input0 id r) /\
      received dec0 input0 id rsp /\ (rsp = None -> is_Some (cs_headerErr s))
  | LStop | LDone => is_Some (cs_headerErr s)
  end.

Record client_inv (s : state) : Prop := {
  inv_call i c : cs_calls s !! i = Some c -> call_ok (call_id c ≫= fun id => cs_responses s !! id) i c;
  inv_stream i c id : cs_calls s !! i = Some c -> call_id c = Some id -> id ∈ cs_streams s;
  inv_unique i j c c' id : cs_calls s !! i = Some c -> cs_calls s !! j = Some c' -> call_id c = Some id -> call_id c' = Some id -> i = j;
  inv_registered id i : cs_responses s !! id = Some i -> exists c, cs_calls s !! i = Some c /\ call_id c = Some id;
  inv_sending id chan rsp : cs_loop s = LSend id chan rsp -> exists c, cs_calls s !! chan = Some c /\ call_id c = Some id;
  inv_loop : loop_ok s;
  inv_closed i : i ∈ cs_closed s -> cs_loop s = LDone;
  inv_undialed : hc_dialed (cs_client s) = false -> cs_loop s = LNone;
}.

(** A step of call [i]: what is registered for other streams stays. *)
Record call_step (i : nat) (c' : call (B := B)) (s s' : state) : Prop := {
  cstep_calls : cs_calls s' = <[i := c']> (cs_calls s);
  cstep_id : (exists c, cs_calls s !! i = Some c /\ call_id c = call_id c' /\ cs_streams s' = cs_streams s) \/
    (forall c, cs_calls s !! i = Some c -> call_id c = None) /\
    (call_id c' = None /\ cs_streams s' = cs_streams s \/ exists id, call_id c' = Some id /\ (id ∉ cs_streams s) /\ cs_streams s' = {[id]} ∪ cs_streams s);
  cstep_registered id : call_id c' <> Some id -> cs_responses s' !! id = cs_responses s !! id;
  cstep_own id j : call_id c' = Some id -> cs_responses s' !! id = Some j -> j = i;
  cstep_ok : call_ok (call_id c' ≫= fun id => cs_responses s' !! id) i c';
  cstep_sending id chan rsp : cs_loop s' = LSend id chan rsp -> cs_loop s = LSend id chan rsp;
  cstep_loop : loop_ok s';
  cstep_closed j : j ∈ cs_closed s' -> cs_loop s' = LDone;
  cstep_undialed : hc_dialed (cs_client s') = false -> cs_loop s' = LNone;
}.

Lemma call_step_other i c' s s' j c id : client_inv s -> call_step i c' s s' ->
  cs_calls s !! j = Some c -> call_id c = Some id -> j <> i -> call_id c' <> Some id.
Proof.
  intros Hi Hs Hj Hc Hne E. destruct (cstep_id _ _ _ _ Hs) as [(c0 & H0 & E0 & _)|[_ [[E0 _]|(id0 & E0 & Hn & _)]]].
  - apply Hne. eapply (inv_unique s Hi j i c c0 id); congruence.
  - congruence.
  - simplify_eq. apply Hn. by eapply (inv_stream s Hi).
Qed.

Lemma call_step_inv i c' s s' : client_inv s -> call_step i c' s s' -> client_inv s'.
Proof.
  intros Hi Hs. pose proof (fun j c id => call_step_other i c' s s' j c id Hi Hs) as Hother.
  assert (forall id, id ∈ cs_streams s -> id ∈ cs_streams s') as Hmono.
  { intros id. destruct (cstep_id _ _ _ _ Hs) as [(? & ? & ? & ->)|[_ [[? ->]|(? & ? & ? & ->)]]]; set_solver. }
  split.
  - intros j c. rewrite (cstep_calls _ _ _ _ Hs). intros [[<- <-]|[Hne Hj]]%lookup_insert_Some; [by apply Hs|].
    pose proof (inv_call s Hi j c Hj) as Hc. destruct (call_id c) as [id|] eqn:E; [|done]. cbn in *.
    rewrite (cstep_registered _ _ _ _ Hs); [done|]. by eapply Hother.
  - intros j c id. rewrite (cstep_calls _ _ _ _ Hs). intros [[<- <-]|[Hne Hj]]%lookup_insert_Some E.
    + destruct (cstep_id _ _ _ _ Hs) as [(c0 & H0 & E0 & ->)|[_ [[E0 _]|(id0 & E0 & Hn & ->)]]].
      * eapply (inv_stream s Hi); [done|congruence].
      * congruence.
      * set_solver.
    + apply Hmono. by eapply (inv_stream s Hi).
  - intros j k c c1 id. rewrite (cstep_calls _ _ _ _ Hs).
    intros [[<- <-]|[Hne Hj]]%lookup_insert_Some [[<- <-]|[Hne' Hk]]%lookup_insert_Some E E'; [done|..].
    + exfalso. by eapply (Hother k c1 id).
    + exfalso. by eapply (Hother j c id).
    + by eapply (inv_unique s Hi).
  - intros id j Hr. rewrite (cstep_calls _ _ _ _ Hs). destruct (decide (call_id c' = Some id)) as [E|E].
    + rewrite (cstep_own _ _ _ _ Hs id j E Hr). exists c'. by rewrite lookup_insert_eq.
    + rewrite (cstep_registered _ _ _ _ Hs id E) in Hr. destruct (inv_registered s Hi id j Hr) as (c & Hj & Ec).
      destruct (decide (j = i)) as [->|Hne]; [|exists c; by rewrite lookup_insert_ne]. exfalso.
      destruct (cstep_id _ _ _ _ Hs) as [(c0 & H0 & E0 & _)|[H0 _]]; [congruence|]. by rewrite (H0 c Hj) in Ec.
  - intros id j rsp Hl. rewrite (cstep_calls _ _ _ _ Hs).
    destruct (inv_sending s Hi id j rsp (cstep_sending _ _ _ _ Hs id j rsp Hl)) as (c & Hj & Ec).
    destruct (decide (j = i)) as [->|Hne]; [|exists c; by rewrite lookup_insert_ne].
    exists c'. rewrite lookup_insert_eq. split; [done|].
    destruct (cstep_id _ _ _ _ Hs) as [(c0 & H0 & E0 & _)|[H0 _]]; [congruence|]. by rewrite (H0 c Hj) in Ec.
  - apply Hs.
  - apply Hs.
  - apply Hs.
Qed.

Lemma registered_own i c id j s : client_inv s -> cs_calls s !! i = Some c -> call_id c = Some id ->
  cs_responses s !! id = Some j -> j = i.
Proof.
  intros Hi Hc E Hr. destruct (inv_registered s Hi id j Hr) as (c1 & H1 & E1). by eapply (inv_unique s Hi).
Qed.

(** A step of a call that keeps its stream and leaves what is registered as it is *)
Lemma plain_step i c c' s s' : client_inv s -> cs_calls s !! i = Some c -> call_id c' = call_id c ->
  (cs_calls s', cs_streams s', cs_responses s', cs_closed s') = (<[i := c']> (cs_calls s), cs_streams s, cs_responses s, cs_closed s) ->
  (cs_loop s', cs_input s', cs_dec s', cs_headerErr s', cs_client s') = (cs_loop s, cs_input s, cs_dec s, cs_headerErr s, cs_client s) ->
  call_ok (call_id c ≫= fun id => cs_responses s !! id) i c' -> client_inv s'.
Proof.
  intros Hi Hc E E1 E2 Hok. injection E1 as H1 H2 H3 H4. injection E2 as H5 H6 H7 H8 H9. apply (call_step_inv i c' s); [done|].
  split; rewrite ?H1, ?H2, ?H3, ?H4, ?H5; rewrite ?H9; try done.
  - left. by exists c.
  - intros id j Eid. apply (registered_own i c); congruence.
  - congruence.
  - pose proof (inv_loop s Hi) as Hl. unfold loop_ok in *. by rewrite H5, H6, H7, H8.
  - apply (inv_closed s Hi).
  - apply (inv_undialed s Hi).
Qed.

Lemma step_call_inv i req s s' : client_inv s -> step_call i req s = Some s' -> client_inv s'.
Proof.
  intros Hi. unfold step_call. destruct (cs_calls s !! i) eqn:E; [done|]. intros [= <-].
  apply (call_step_inv i (CStart req) s); [done|]. split; cbn; try done.
  - right. split; [congruence|by left].
  - apply (inv_loop s Hi).
  - apply (inv_closed s Hi).
  - apply (inv_undialed s Hi).
Qed.

Lemma step_check_inv i s s' : client_inv s -> step_check i s = Some s' -> client_inv s'.
Proof.
  intros Hi. unfold step_check. destruct (cs_calls s !! i) as [[]|] eqn:E; try done. intros [= <-].
  eapply (plain_step i _ _ s); [done|exact E| |reflexivity..|]; by case_match.
Qed.

Lemma step_dialed_inv i s s' : client_inv s -> step_dialed i s = Some s' -> client_inv s'.
Proof.
  intros Hi. unfold step_dialed. destruct (cs_calls s !! i) as [[]|] eqn:E; try done. case_match; [|done]. intros [= <-].
  eapply (plain_step i _ _ s); [done|exact E| |reflexivity..|]; by case_match.
Qed.

Lemma step_body_inv i e1 e2 e3 s s' : client_inv s -> step_body i e1 e2 e3 s = Some s' -> client_inv s'.
Proof.
  intros Hi. unfold step_body. destruct (cs_calls s !! i) as [[]|] eqn:E; try done. destruct bodySent; [done|]. intros [= <-].
  pose proof (inv_call s Hi _ _ E) as Hok.
  eapply (plain_step i _ _ s); [done|exact E| |reflexivity..|]; [by repeat case_match|].
  case_match; [done|]. destruct received0; cbn in *; [|done]. destruct Hok as (? & -> & ?). split; [done|]. eauto.
Qed.

Lemma step_write_inv i o1 o2 e s s' : client_inv s -> step_write unicodeLower disableCompression i o1 o2 e s = Some s' -> client_inv s'.
Proof.
  intros Hi. unfold step_write. destruct (cs_calls s !! i) as [[]|] eqn:E; try done.
  pose proof (inv_call s Hi _ _ E) as Hok. destruct (WriteRequest _ _ _ _ _ _ _ _) as [w r].
  intros Hs. repeat case_match; simplify_eq; (eapply (plain_step i _ _ s); [done|exact E| |reflexivity..|]); cbn in *; done.
Qed.

Lemma step_open_inv i r s s' : client_inv s -> step_open i r s = Some s' -> client_inv s'.
Proof.
  intros Hi. unfold step_open. destruct (cs_calls s !! i) as [[]|] eqn:E; try done.
  destruct r as [id|e|]; [|intros [= <-]; eapply (plain_step i _ _ s); [done|exact E| |reflexivity..|]; done|done].
  case_decide as Hid; [done|]. intros [= <-]. assert (cs_responses s !! id = None) as Hr.
  { destruct (cs_responses s !! id) as [j|] eqn:Er; [|done]. destruct (inv_registered s Hi id j Er) as (c & Hc & Ec).
    by destruct Hid; apply (inv_stream s Hi j c). }
  apply (call_step_inv i (CRegister req id) s); [done|]. split; cbn; try done.
  - right. split; [intros c Hc; by simplify_eq|]. right. by exists id.
  - intros ? ? [= <-]. by rewrite Hr.
  - apply (inv_loop s Hi).
  - apply (inv_closed s Hi).
  - apply (inv_undialed s Hi).
Qed.

Lemma step_register_inv i s s' : client_inv s -> step_register i s = Some s' -> client_inv s'.
Proof.
  intros Hi. unfold step_register. destruct (cs_calls s !! i) as [[]|] eqn:E; try done. intros [= <-].
  pose proof (inv_call s Hi _ _ E) as Hok. cbn in Hok. apply (call_step_inv i (CWrite req id) s); [done|]. split; cbn; try done.
  - left. eexists. split; [exact E|done].
  - intros id' Hne. rewrite lookup_insert_ne; [done|congruence].
  - intros ? ? [= <-]. rewrite lookup_insert_eq. congruence.
  - by rewrite lookup_insert_eq.
  - apply (inv_loop s Hi).
  - apply (inv_closed s Hi).
  - apply (inv_undialed s Hi).
Qed.

(** Receiving a response *)
Lemma receive_inv i rsp l s s' : client_inv s -> receiveResponse i rsp s = Some s' ->
  (forall c id r, cs_calls s !! i = Some c -> call_id c = Some id -> rsp = Some r -> received dec0 input0 id (Some r)) ->
  (forall id chan rsp, l = LSend id chan rsp -> cs_loop s = l) ->
  loop_ok (set_loop s l) -> (forall j, j ∈ cs_closed s -> l = LDone) -> (cs_loop s = LNone -> l = LNone) ->
  client_inv (set_loop s' l).
Proof.
  intros Hi. unfold receiveResponse. destruct (cs_calls s !! i) as [[]|] eqn:E; try done. intros <-%(inj Some) Hr Hsend Hl Hc Hn.
  pose proof (inv_call s Hi _ _ E) as Hok.
  apply (call_step_inv i (CReceived req id gzip bodySent rsp) s); [done|]. split; cbn; try done.
  - left. by eexists.
  - intros id' j [= <-]. by apply (registered_own i _ id j s Hi E).
  - split; [|intros r ->; by eapply Hr]. cbn in Hok. destruct received0; [by destruct Hok as (_ & -> & _)|by destruct Hok as [_ ->]].
  - intros id' chan rsp' El. by rewrite (Hsend _ _ _ El).
  - intros Hd. by apply Hn, (inv_undialed s Hi).
Qed.

Lemma step_closed_inv i s s' : client_inv s -> step_closed i s = Some s' -> client_inv s'.
Proof.
  intros Hi. unfold step_closed. case_decide as Hc; [|done]. intros E.
  assert (cs_loop s' = cs_loop s) as El by (unfold receiveResponse in E; repeat case_match; by simplify_eq).
  assert (s' = set_loop s' (cs_loop s)) as -> by (rewrite <- El; by destruct s').
  eapply receive_inv; [done|exact E|done|done| |by apply (inv_closed s Hi)|done].
  pose proof (inv_loop s Hi) as Hl. by destruct s.
Qed.

Lemma step_deliver_inv s s' : client_inv s -> step_deliver s = Some s' -> client_inv s'.
Proof.
  intros Hi. unfold step_deliver. pose proof (inv_loop s Hi) as Hl. unfold loop_ok in Hl.
  destruct (cs_loop s) as [| |id chan rsp| |] eqn:El; try done. destruct Hl as (Hmono & Hrec & _).
  destruct (receiveResponse chan rsp s) as [s1|] eqn:E; [|done]. intros <-%(inj Some).
  eapply receive_inv; [done|exact E| |done|done| |congruence].
  - intros c id' r Hc Ec ->. destruct (inv_sending s Hi id chan (Some r) El) as (c1 & H1 & E1). by simplify_eq.
  - intros j Hj. rewrite (inv_closed s Hi j Hj) in El. done.
Qed.

(** The end of the registration *)
Lemma step_delete_inv i s s' : client_inv s -> step_delete i s = Some s' -> client_inv s'.
Proof.
  intros Hi. unfold step_delete. destruct (cs_calls s !! i) as [[]|] eqn:E; try done. intros [= <-].
  pose proof (inv_call s Hi _ _ E) as [-> Hr]. set (c' := match rsp with None => _ | Some r => _ end).
  assert (call_id c' = Some id) as Ec by (unfold c', select_next; by repeat case_match).
  apply (call_step_inv i c' s); [done|]. split; cbn; try done.
  - left. by eexists.
  - intros id' Hne. rewrite lookup_delete_ne; [done|congruence].
  - intros id' j Hid. assert (id' = id) as -> by congruence. by rewrite lookup_delete_eq.
  - rewrite Ec. cbn. rewrite lookup_delete_eq. unfold c'. destruct rsp as [r|]; [|done].
    specialize (Hr r eq_refl). destruct bodySent; cbn; eauto.
  - apply (inv_loop s Hi).
  - apply (inv_closed s Hi).
  - apply (inv_undialed s Hi).
Qed.

Lemma step_close_inv i s s' : client_inv s -> step_close i s = Some s' -> client_inv s'.
Proof.
  intros Hi. unfold step_close. destruct (cs_calls s !! i) as [[]|] eqn:E; try done. intros [= <-].
  by eapply (plain_step i _ _ s); [done|exact E| |reflexivity..|].
Qed.

Lemma step_return_inv i s s' : client_inv s -> step_return i s = Some s' -> client_inv s'.
Proof.
  intros Hi. unfold step_return. destruct (cs_calls s !! i) as [[]|] eqn:E; try done. intros [= <-].
  eapply (plain_step i _ _ s); [done|exact E| |reflexivity..|]; [done|]. by case_match.
Qed.

(** Steps of the goroutine that reads responses leave the calls alone. *)
Lemma loop_step s s' : client_inv s ->
  (cs_calls s', cs_streams s', cs_responses s') = (cs_calls s, cs_streams s, cs_responses s) -> loop_ok s' ->
  (forall id chan rsp, cs_loop s' = LSend id chan rsp -> cs_responses s !! id = Some chan) ->
  (forall i, i ∈ cs_closed s' -> cs_loop s' = LDone) -> (hc_dialed (cs_client s') = false -> cs_loop s' = LNone) -> client_inv s'.
Proof.
  intros Hi E Hl Hr Hc Hu. injection E as H1 H2 H3. destruct Hi as [I1 I2 I3 I4 _ _ _ _]. split; rewrite ?H1, ?H2, ?H3; try done.
  intros id chan rsp El. eapply I4. by eapply Hr.
Qed.

Lemma step_read_inv s s' : client_inv s -> step_read statusText s = Some s' -> client_inv s'.
Proof.
  intros Hi. unfold step_read. pose proof (inv_loop s Hi) as Hl. unfold loop_ok in Hl. destruct (cs_loop s) eqn:El; try done.
  assert (forall i, i ∈ cs_closed s -> forall l, l = LDone) as Hc.
  { intros i Hin. pose proof (inv_closed s Hi i Hin). congruence. }
  assert (hc_dialed (cs_client s) = false -> forall l, l = LNone) as Hu by (intros Hd; pose proof (inv_undialed s Hi Hd); congruence).
  destruct (ReadFrame (cs_input s)) as [[[id e1 e2 block|id] input]| |] eqn:Ef; [| | |done].
  2, 3: intros [= <-]; (apply (loop_step s); [done|done|cbn; eauto|done|intros i Hin; by eapply Hc|intros Hd; by apply Hu]).
  destruct (hp_DecodeFull (cs_dec s) block) as [dec decoded] eqn:Ed. destruct decoded as [fields|e|]; [| |done].
  2: intros [= <-]; (apply (loop_step s); [done|done|cbn; eauto|done|intros i Hin; by eapply Hc|intros Hd; by apply Hu]).
  cbn [set_reader cs_responses]. destruct (cs_responses s !! id) as [chan|] eqn:Er.
  2: intros [= <-]; (apply (loop_step s); [done|done|cbn; eauto|done|intros i Hin; by eapply Hc|intros Hd; by apply Hu]).
  pose proof (received_here _ _ _ _ _ _ _ _ _ Ef Ed) as Hh.
  assert (forall id r, received dec input id r -> received dec0 input0 id r) as Hmono.
  { intros id' r Hrec. apply Hl. by eapply received_later. }
  destruct (responseFromHeaders statusText (mkMetaHeadersFrame fields false)) as [rsp|e|]; [| |done]; intros [= <-].
  - apply (loop_step s); [done|done| |by intros ? ? ? [= <- <-]|intros i Hin; by eapply Hc|intros Hd; by apply Hu]. split_and!; [done|by apply Hl|done].
  - apply (loop_step s); [done|done| |by intros ? ? ? [= <- <-]|intros i Hin; by eapply Hc|intros Hd; by apply Hu]. split_and!; [done|by apply Hl|cbn; eauto].
Qed.

Lemma step_stop_inv s s' : client_inv s -> step_stop s = Some s' -> client_inv s'.
Proof.
  intros Hi. unfold step_stop. pose proof (inv_loop s Hi) as Hl. unfold loop_ok in Hl. destruct (cs_loop s) eqn:El; try done.
  intros [= <-]. apply (loop_step s); [done..|]. intros Hd. pose proof (inv_undialed s Hi Hd). congruence.
Qed.

Lemma step_dial_inv dial open s s' : client_inv s -> step_dial dial open s = Some s' -> client_inv s'.
Proof.
  intros Hi. unfold step_dial. destruct (hc_dialed (cs_client s)) eqn:Ed; [done|]. unfold Dial. cbn zeta. intros [= <-].
  pose proof (inv_undialed s Hi Ed) as El. pose proof (inv_loop s Hi) as Hl. unfold loop_ok in Hl. rewrite El in Hl.
  apply (loop_step s); cbn; try done.
  - rewrite El. by case_match.
  - intros id chan rsp. rewrite El. by case_match.
  - intros i Hin. pose proof (inv_closed s Hi i Hin). congruence.
Qed.

Lemma cstep_inv ev s s' : client_inv s -> cstep unicodeLower statusText disableCompression ev s = Some s' -> client_inv s'.
Proof.
  intros Hi. destruct ev; cbn [cstep]; first
    [ by apply step_call_inv | by apply step_dial_inv | by apply step_check_inv | by apply step_dialed_inv
    | by apply step_open_inv | by apply step_register_inv | by apply step_write_inv | by apply step_body_inv
    | by apply step_closed_inv | by apply step_delete_inv | by apply step_close_inv | by apply step_return_inv | by apply step_read_inv | by apply step_deliver_inv | by apply step_stop_inv ].
Qed.

(** *** A goroutine that does not read responses any more *)

(** It has returned, or it sends a response to a call that has returned. *)
Definition stuck (s : state) : Prop :=
  match cs_loop s with
  | LDone => True
  | LSend _ chan _ => exists req id r, cs_calls s !! chan = Some (CDone req id r)
  | _ => False
  end.
(** A call that has sent its request and waits for the response *)
Definition waiting (s : state) (i : nat) : Prop :=
  (i ∉ cs_closed s) /\ exists req id gzip, cs_calls s !! i = Some (CSelect req id gzip true None).

#[local] Ltac step_cases ev :=
  destruct ev; cbn [cstep];
  unfold step_call, step_dial, step_check, step_dialed, step_open, step_register, step_write, step_body, step_closed, step_delete,
    step_close, step_return, step_read, step_deliver, step_stop, receiveResponse, Dial; intros Hs; repeat case_match; simplify_eq/=.

(** A call that has returned, or waits for a response that cannot come, stays as it is. *)
Lemma stuck_call ev s s' j c : stuck s -> cstep unicodeLower statusText disableCompression ev s = Some s' ->
  cs_calls s !! j = Some c ->
  (exists req id r, c = CDone req id r) \/ ((j ∉ cs_closed s) /\ exists req id gzip, c = CSelect req id gzip true None) ->
  cs_calls s' !! j = Some c.
Proof.
  intros Hk. step_cases ev; intros Hj Hc; try done.
  all: try (rewrite lookup_insert_ne; [done|intros ->; destruct Hc as [(? & ? & ? & ->)|[? (? & ? & ? & ->)]]; congruence]).
  all: unfold stuck in Hk; rewrite ?H in Hk; naive_solver.
Qed.

Lemma stuck_step ev s s' : client_inv s -> stuck s -> cstep unicodeLower statusText disableCompression ev s = Some s' ->
  stuck s' /\ cs_loop s' = cs_loop s /\ cs_closed s' = cs_closed s.
Proof.
  intros Hi Hk Hs. assert (cs_loop s' = cs_loop s /\ cs_closed s' = cs_closed s) as [El Ec].
  { revert Hs. pose proof (inv_undialed s Hi). unfold stuck in Hk. step_cases ev; try done; naive_solver. }
  split; [|done]. pose proof (fun j c => stuck_call ev s s' j c Hk Hs) as Hc. unfold stuck in *. rewrite El.
  destruct (cs_loop s); try done. destruct Hk as (req & id' & r & Hd). exists req, id', r. apply Hc; [done|eauto].
Qed.

Lemma stuck_leads s s' : client_inv s -> stuck s -> steps s s' ->
  client_inv s' /\ stuck s' /\ cs_loop s' = cs_loop s /\ forall i, waiting s i -> cs_calls s' !! i = cs_calls s !! i /\ waiting s' i.
Proof.
  intros Hi Hk. induction 1 as [|ev s1 s2 _ (Hi1 & Hk1 & El & Hw) Hs]; [done|].
  pose proof (cstep_inv ev s1 s2 Hi1 Hs) as Hi2. destruct (stuck_step ev s1 s2 Hi1 Hk1 Hs) as (Hk2 & El2 & Ec2).
  split_and!; [done|done|congruence|]. intros i Hwi. destruct (Hw i Hwi) as [E1 [Hn (req & id & gzip & Hc)]].
  assert (cs_calls s2 !! i = Some (CSelect req id gzip true None)) as E2.
  { apply (stuck_call ev s1); [done..|]. right. split; [done|eauto]. }
  split; [congruence|]. split; [by rewrite Ec2|eauto].
Qed.

End matching.

Section calls.
Context `{Hp : Hpack, U : Urls, Id : Idna, Mh : MetaHeaders, Fr : Framer} {B : Type}.
Context (unicodeLower : list Z -> list Z) (statusText : Z -> list Z) (disableCompression : bool).
#[local] Abbreviation state := (clientState (B := B)).
#[local] Abbreviation steps := (leads unicodeLower statusText disableCompression).
#[local] Abbreviation inv := (client_inv statusText disableCompression (hp_NewDecoder 4096)).

Lemma initial_inv hostname input : inv input (initialState (B := B) hostname input).
Proof. split; cbn; try done. Qed.

Lemma leads_inv hostname input s : steps (initialState (B := B) hostname input) s -> inv input s.
Proof. induction 1; [apply initial_inv|by eapply cstep_inv]. Qed.

(** Channels that have been closed belong to calls. *)
Lemma closed_known hostname input (s : state) i :
  steps (initialState hostname input) s -> i ∈ cs_closed s -> is_Some (cs_calls s !! i).
Proof.
  intros Hs. revert i. induction Hs as [|ev s1 s2 Hl IH Hs]; intros i; [by intros []%elem_of_empty|].
  assert (is_Some (cs_calls s1 !! i) -> is_Some (cs_calls s2 !! i)) as Hmono.
  { revert Hs. destruct ev; cbn [cstep]; unfold step_call, step_dial, step_check, step_dialed, step_open, step_register, step_write,
      step_body, step_closed, step_delete, step_close, step_return, step_read, step_deliver, step_stop, receiveResponse; intros Hs; repeat case_match; simplify_eq/=; try done;
      rewrite lookup_insert_is_Some'; tauto. }
  intros Hi. destruct (decide (i ∈ cs_closed s1)) as [Hin|Hn]; [by apply Hmono, IH|].
  pose proof (leads_inv hostname input s1 Hl) as Hv. clear IH Hl. revert Hs.
  destruct ev; cbn [cstep]; unfold step_call, step_dial, step_check, step_dialed, step_open, step_register, step_write,
      step_body, step_closed, step_delete, step_close, step_return, step_read, step_deliver, step_stop, receiveResponse; intros Hs; repeat case_match; simplify_eq/=; try done.
  apply elem_of_union in Hi as [Hi|]; [|done]. apply elem_of_list_to_set, list_elem_of_In, in_map_iff in Hi as ([id j] & <- & Hin).
  apply list_elem_of_In, elem_of_map_to_list in Hin. destruct (inv_registered _ _ _ _ _ Hv id j Hin) as (c & Hc & _). eauto.
Qed.

(** A call of [Do] that returns a response returns the one that the server has sent on the
    header stream for the data stream of this call, which is the stream of no other call,
    whatever the order in which the steps of the calls and of the goroutine that reads
    responses are taken. *)
Theorem Do_returns_own_response hostname input (s : state) i req id res :
  steps (initialState hostname input) s -> cs_calls s !! i = Some (CDone req (Some id) (Ok res)) ->
  (exists r, received statusText (hp_NewDecoder 4096) input id (Some r) /\
     res = Do_response req id (requestGzip disableCompression req) r) /\
  forall j c, cs_calls s !! j = Some c -> call_id c = Some id -> j = i.
Proof.
  intros Hs Hc. pose proof (leads_inv hostname input s Hs) as Hi. split.
  - pose proof (inv_call _ _ _ _ _ Hi i _ Hc) as [_ H]. exact H.
  - intros j c Hj E. by apply (inv_unique _ _ _ _ _ Hi j i c (CDone req (Some id) (Ok res)) id).
Qed.

(** C38: A request that is made after the goroutine that reads responses has returned waits
    forever once it has been sent: that goroutine has closed the channels of the calls that
    were waiting, but neither the session nor anything that a later call looks at. *)
Theorem late_request_waits hostname input (s : state) i s1 req id gzip s2 :
  steps (initialState hostname input) s -> cs_loop s = LDone -> cs_calls s !! i = None ->
  steps s s1 -> cs_calls s1 !! i = Some (CSelect req id gzip true None) ->
  steps s1 s2 -> cs_calls s2 !! i = Some (CSelect req id gzip true None).
Proof.
  intros Hs Hl Hn H1 Hc H2. pose proof (leads_inv hostname input s Hs) as Hi.
  assert (stuck s) as Hk by by unfold stuck; rewrite Hl.
  assert (i ∉ cs_closed s1) as Hcl.
  { assert (cs_closed s1 = cs_closed s) as ->; [|intros Hin; destruct (closed_known hostname input s i Hs Hin); congruence].
    clear Hc H2. induction H1 as [|ev s1 s1' H1 IH Hs1]; [done|].
    destruct (stuck_leads _ _ _ _ _ s s1 Hi Hk H1) as (Hi1 & Hk1 & _ & _). destruct (stuck_step _ _ _ _ _ ev s1 s1' Hi1 Hk1 Hs1) as (_ & _ & ->). done. }
  destruct (stuck_leads _ _ _ _ _ s s1 Hi Hk H1) as (Hi1 & Hk1 & _ & _).
  destruct (stuck_leads _ _ _ _ _ s1 s2 Hi1 Hk1 H2) as (_ & _ & _ & Hw). destruct (Hw i) as [-> _]; [|done]. split; [done|eauto].
Qed.

(** If the server answers a request whose call of [Do] has returned early, because its body
    could not be sent, the goroutine that reads responses waits for this call forever, and so
    do all calls that wait for a response then. *)
Theorem abandoned_call_blocks hostname input (s : state) id chan rsp req id' r s' :
  steps (initialState hostname input) s -> cs_loop s = LSend id chan rsp -> cs_calls s !! chan = Some (CDone req id' r) ->
  steps s s' ->
  cs_loop s' = LSend id chan rsp /\
  forall i req1 id1 gzip, cs_calls s !! i = Some (CSelect req1 id1 gzip true None) ->
    cs_calls s' !! i = Some (CSelect req1 id1 gzip true None).
Proof.
  intros Hs Hl Hc H1. pose proof (leads_inv hostname input s Hs) as Hi.
  assert (stuck s) as Hk by (unfold stuck; rewrite Hl; eauto).
  destruct (stuck_leads _ _ _ _ _ s s' Hi Hk H1) as (_ & _ & El & Hw). split; [congruence|].
  intros i req1 id1 gzip Hw1. destruct (Hw i) as [-> _]; [|done]. split; [|eauto].
  intros Hin. pose proof (inv_closed _ _ _ _ _ Hi i Hin). congruence.
Qed.

End calls.
