(* ===== verification/RoundTrip.v ===== *)
(** * h2quic/roundtrip.go: one client for each server

    A [QuicRoundTripper] checks requests and hands them to the client for their server, which
    it makes and dials when there is none. *)

From S2P Require Import Prelude Wire Crypto GoStrings Httplex Http H2Messages H2Client.

(** A string constant *)
#[local] Abbreviation str := bytes_of.

Section roundtrip.
Context `{U : Urls, Id : Idna} {B : Type}.

Definition validMethod (method : list Z) : bool :=
  (len method >? 0) && forallb (fun r => negb (isNotToken r)) (runes method).

(** The checks of [RoundTrip]: the error, and whether the body of the request is closed *)
Definition RoundTrip_check (order : list (list Z * list (list Z))) (req : Request B) : option (goerror * bool) :=
  match rq_URL req with
  | None => Some (ErrNew "quic: nil Request.URL", true)
  | Some u =>
      if bool_decide (url_Host u = []) then Some (ErrNew "quic: no Host in request URL", true)
      else match rq_Header req with
      | None => Some (ErrNew "quic: nil Request.Header", true)
      | Some _ =>
          if bool_decide (url_Scheme u = str "https") then
            match checkHeaders "quic: invalid http header field name %q" "quic: invalid http header field value %q for key %v" order with
            | Err e => Some (e, false)
            | _ =>
                if negb (bool_decide (rq_Method req = [])) && negb (validMethod (rq_Method req))
                then Some (Errorf "quic: invalid method %q" (rq_Method req), true)
                else None
            end
          else Some (Errorf "quic: unsupported protocol scheme: %s" (url_Scheme u), true)
      end
  end.

(** [getClient]: the clients by their host; [localAddr] is whether there is an address to dial
    from, [dial] and [open] are the results for a new client. *)
Definition getClient (localAddr : bool) (clients : gmap (list Z) Client) (hostname : list Z) (dial : res unit) (open : res Z)
    : gmap (list Z) Client * res Client :=
  match clients !! hostname with
  | Some client => (clients, Ok client)
  | None =>
      let client := if localAddr then NewClientEx hostname else NewClient hostname in
      let '(client, _, r) := Dial dial open client in
      match r with
      | Ok _ => (<[hostname := client]> clients, Ok client)
      | Err e => (clients, Err e)
      | Panic => (clients, Panic)
      end
  end.

(** [RoundTrip] up to [client.Do(req)]: the client that gets the request *)
Definition RoundTrip (localAddr : bool) (order : list (list Z * list (list Z))) (clients : gmap (list Z) Client) (req : Request B)
    (dial : res unit) (open : res Z) : gmap (list Z) Client * res Client :=
  match RoundTrip_check order req with
  | Some (e, _) => (clients, Err e)
  | None => getClient localAddr clients (authorityAddr (str "https") (hostnameFromRequest req)) dial open
  end.

(** ** The address of a server *)

Context {IL : IdnaLaws Id}.

(** A host without brackets, with or without a port, or an IPv6 address in brackets *)
Definition authority_ok (a : list Z) : Prop :=
  plain a \/
  exists ip, plain ip /\ isASCII ip = true /\ 58 ∈ ip /\
    (a = [91] ++ ip ++ [93] \/ exists port, plain port /\ (58 ∉ port) /\ a = [91] ++ ip ++ [93; 58] ++ port).

(** [ToASCII] or, if it fails, the host as it is *)
Definition toASCII (host : list Z) : list Z := match ToASCII host with Ok a => a | _ => host end.

Lemma toASCII_idem host : toASCII (toASCII host) = toASCII host.
Proof.
  unfold toASCII. destruct (ToASCII host) as [a| |] eqn:E; [|by rewrite E..]. destruct (ToASCII a) as [a'| |] eqn:E'; [|done..].
  apply (ToASCII_same a a'); [|done]. by eapply ToASCII_ascii.
Qed.
Lemma toASCII_same host : isASCII host = true -> toASCII host = host.
Proof. intros Ha. unfold toASCII. destruct (ToASCII host) eqn:E; [|done..]. by apply (ToASCII_same host). Qed.
Lemma toASCII_delimiter host c : c = 58 \/ c = 91 \/ c = 93 -> c ∈ toASCII host <-> c ∈ host.
Proof. intros Hc. unfold toASCII. destruct (ToASCII host) as [a| |] eqn:E; [|done..]. by apply (ToASCII_delimiter host a). Qed.
Lemma toASCII_plain host : plain host -> plain (toASCII host).
Proof. unfold plain. by rewrite !toASCII_delimiter by auto. Qed.

(** The address for a host without brackets and a port *)
Lemma authority_join scheme host port authority :
  plain host -> SplitHostPort authority = Ok (host, port) -> authorityAddr scheme authority = JoinHostPort (toASCII host) port.
Proof.
  intros Hh Hs. unfold authorityAddr. rewrite Hs. change (match ToASCII host with Ok a => a | _ => host end) with (toASCII host).
  by rewrite (HasPrefix_plain _ (toASCII_plain _ Hh)).
Qed.

Lemma authority_fixed scheme host port :
  plain host -> plain port -> 58 ∉ port ->
  authorityAddr scheme (JoinHostPort (toASCII host) port) = JoinHostPort (toASCII host) port.
Proof.
  intros Hh Hp Hc. rewrite (authority_join _ (toASCII host) port); [by rewrite toASCII_idem|by apply toASCII_plain|].
  unfold JoinHostPort. destruct (contains (toASCII host) 58) eqn:E.
  - by apply SplitHostPort_bracket, Hc; [apply toASCII_plain|].
  - apply SplitHostPort_join; [by apply toASCII_plain|done|by apply contains_not|done].
Qed.

(** What [SplitHostPort] makes of a host without brackets *)
Lemma split_plain a : plain a ->
  (exists host port, plain host /\ plain port /\ (58 ∉ port) /\ SplitHostPort a = Ok (host, port)) \/ exists e, SplitHostPort a = Err e.
Proof.
  intros Ha. destruct (decide (58 ∈ a)) as [Hin|Hn]; [|right; rewrite SplitHostPort_none by done; eauto].
  apply list_elem_of_split_r in Hin as (host & port & -> & Hp).
  assert (plain host /\ plain port) as [Hh Hpp] by (unfold plain in *; set_solver).
  destruct (decide (58 ∈ host)) as [Hin|Hn]; [right|left].
  - apply list_elem_of_split in Hin as (s1 & s2 & ->). rewrite <- app_assoc in *. cbn [app] in *.
    rewrite SplitHostPort_colons by done. eauto.
  - exists host, port. split_and!; [done..|]. by apply SplitHostPort_join.
Qed.

Lemma authority_default host : plain host ->
  authorityAddr (str "https") (JoinHostPort (toASCII host) (str "443")) = JoinHostPort (toASCII host) (str "443").
Proof. intros Hh. apply authority_fixed; [done|split|]; apply contains_not; reflexivity. Qed.

Lemma authority_bracket ip : plain ip -> isASCII ip = true -> 58 ∈ ip ->
  authorityAddr (str "https") ([91] ++ ip ++ [93]) = JoinHostPort ip (str "443").
Proof.
  intros [H1 H2] Ha Hc. unfold authorityAddr.
  assert (exists e, SplitHostPort ([91] ++ ip ++ [93]) = Err e) as [e ->].
  { unfold SplitHostPort. destruct (lastIndex ([91] ++ ip ++ [93]) 58) as [i|]; [|eauto].
    change (HasPrefix ([91] ++ ip ++ [93]) [91]) with true. cbv iota.
    change ([91] ++ ip ++ [93]) with ((91 :: ip) ++ 93 :: []). rewrite byteIndex_app by set_solver.
    rewrite decide_True by (rewrite length_app; cbn; lia). cbn [rbind]. eauto. }
  assert (toASCII ([91] ++ ip ++ [93]) = [91] ++ ip ++ [93]) as E.
  { apply toASCII_same. unfold isASCII in *. rewrite !forallb_app, Ha. done. }
  unfold toASCII in E. rewrite E. change (HasPrefix ([91] ++ ip ++ [93]) [91]) with true.
  assert (HasSuffix ([91] ++ ip ++ [93]) [93] = true) as ->.
  { unfold HasSuffix. rewrite app_assoc. rewrite !bool_decide_eq_true_2; [done| |rewrite !length_app; cbn; lia].
    rewrite length_app, Nat.add_sub. apply drop_app_length. }
  cbn [andb]. unfold JoinHostPort. rewrite (proj2 (contains_In ip 58)) by done. by rewrite <- !app_assoc.
Qed.

(** The address of a host with its port added is itself. *)
Lemma authorityAddr_idem a : authority_ok a ->
  authorityAddr (str "https") (authorityAddr (str "https") a) = authorityAddr (str "https") a.
Proof.
  intros [Ha|(ip & Hip & Hasc & Hc & [->|(port & Hp & Hcp & ->)])].
  - destruct (split_plain a Ha) as [(host & port & Hh & Hp & Hc & Es)|[e Es]].
    + rewrite (authority_join _ host port a) by done. by apply authority_fixed.
    + assert (authorityAddr (str "https") a = JoinHostPort (toASCII a) (str "443")) as ->; [|by apply authority_default].
      unfold authorityAddr. rewrite Es. change (match ToASCII a with Ok a => a | _ => a end) with (toASCII a).
      by rewrite (HasPrefix_plain _ (toASCII_plain _ Ha)).
  - rewrite (authority_bracket ip) by done. rewrite <- (toASCII_same ip) at 1 by done. rewrite <- (toASCII_same ip) at 2 by done.
    by apply authority_default.
  - rewrite (authority_join _ ip port ([91] ++ ip ++ [93; 58] ++ port)) by (try done; by apply SplitHostPort_bracket). by apply authority_fixed.
Qed.

(** A request that passes the checks of [RoundTrip] is given to a client that takes it:
    [Do] never finds that the request is for another server, although the host of a client
    has been through [authorityAddr] twice and that of the request once.  All clients are
    kept under the host that they were made for. *)
Theorem RoundTrip_right_client localAddr order clients req dial open clients' client :
  map_Forall (fun host c => hc_hostname c = authorityAddr (str "https") host) clients ->
  authority_ok (hostnameFromRequest req) -> RoundTrip localAddr order clients req dial open = (clients', Ok client) ->
  Do_check (hc_hostname client) req = Ok tt /\
  map_Forall (fun host c => hc_hostname c = authorityAddr (str "https") host) clients'.
Proof.
  intros Hc Ha. unfold RoundTrip. destruct (RoundTrip_check order req) as [[e b]|] eqn:Er; [done|].
  assert (hc_hostname client = authorityAddr (str "https") (hostnameFromRequest req) -> Do_check (hc_hostname client) req = Ok tt) as Hd.
  { intros E. unfold RoundTrip_check in Er. unfold Do_check. destruct (rq_URL req) as [u|]; [|done].
    rewrite E, (bool_decide_eq_true_2 (authorityAddr _ _ = _)) by done. repeat case_match; try done. }
  unfold getClient. set (host := authorityAddr (str "https") (hostnameFromRequest req)) in *.
  assert (authorityAddr (str "https") host = host) as Ei by by apply authorityAddr_idem.
  destruct (clients !! host) as [c|] eqn:El.
  - intros [= <- <-]. split; [|done]. apply Hd. rewrite (Hc host c El). done.
  - assert (hc_hostname (if localAddr then NewClientEx host else NewClient host) = host) as Eh by by destruct localAddr.
    set (c0 := if localAddr then _ else _) in *. clearbody c0. unfold Dial. cbn zeta. case_match; [|done..]. intros [= <- <-]. cbn [hc_hostname] in *. split; [by apply Hd; rewrite Eh|].
    apply map_Forall_insert_2; [|done]. cbn [hc_hostname]. by rewrite Eh.
Qed.

End roundtrip.
