(* ===== verification/H2Exchange.v ===== *)
(** * h2quic: requests and responses between a client and a server

    The client's part (request_writer.go, client.go) and the server's (server.go,
    response_writer.go) put together through the header stream: what one side writes, in the
    bytes that the framer and HPACK make of it, the other side reads. *)

From S2P Require Import Prelude Protocol Qerr Wire Crypto GoStrings Httplex Http H2Messages H2Server H2Client.

(** A string constant *)
#[local] Abbreviation str := bytes_of.

Section requests.
Context `{Hp : Hpack, HL : !HpackLaws Hp, U : Urls, UL : !UrlsLaws U, Id : Idna, Fr : Framer, FL : !FramerLaws Fr} {B : Type}.
Context (unicodeLower : list Z -> list Z).

(** A request that is written on the header stream *)
Record sending : Type := mkSending {
  sq_req : Request B;
  sq_id : Z;
  sq_endStream : bool;
  sq_gzip : bool;
  sq_order1 : list (list Z * list (list Z));
  sq_order2 : list (list Z * list (list Z));
}.
Definition write (w : requestWriter) (q : sending) : requestWriter * res (list Z) :=
  WriteRequest unicodeLower (sq_order1 q) (sq_order2 q) w (sq_req q) (sq_id q) (sq_endStream q) (sq_gzip q).
(** Requests that are written one after the other *)
Fixpoint writeAll (w : requestWriter) (qs : list sending) : res (requestWriter * list Z) :=
  match qs with
  | [] => Ok (w, [])
  | q :: qs =>
      let '(w, r) := write w q in
      let! b := r in
      let! (w, bs) := writeAll w qs in
      Ok (w, b ++ bs)
  end.

Definition fieldsOf (q : sending) : res (list HeaderField) :=
  requestFields unicodeLower (sq_order1 q) (sq_order2 q) (sq_req q) (sq_gzip q) [] (actualContentLength (sq_req q)).

(** A request as the client can send it: its parts are valid and the header block is not too
    large for one frame. *)
Definition sendable (q : sending) : Prop :=
  let req := sq_req q in
  let h := default ∅ (rq_Header req) in
  header_ok h /\ sq_order1 q ≡ₚ map_to_list h /\ sq_order2 q ≡ₚ map_to_list h /\
  rq_Method req <> [] /\ rq_Method req <> str "CONNECT" /\ - 2 ^ 63 <= rq_ContentLength req < 2 ^ 63 /\
  (exists host path u', PunycodeHostPort (hostnameFromRequest req) = Ok host /\ host <> [] /\
     requestPath req host = Ok path /\ url_Parse path = Ok u') /\
  0 < sq_id q < 2 ^ 31 /\
  forall fs e, fieldsOf q = Ok fs -> len (hp_WriteFields e fs).2 < 2 ^ 24 - 5.

(** The request that the server handles for it *)
Definition arrives (session : streamCreator) (q : sending) (j : job) : Prop :=
  let req := sq_req q in
  j_streamID j = sq_id q /\ j_streamEnded j = sq_endStream q /\
  rq_Method (j_req j) = rq_Method req /\
  PunycodeHostPort (hostnameFromRequest req) = Ok (rq_Host (j_req j)) /\
  requestPath req (rq_Host (j_req j)) = Ok (rq_RequestURI (j_req j)) /\
  rq_ContentLength (j_req j) =
    (if shouldSendReqContentLength (rq_Method req) (actualContentLength req) then actualContentLength req else 0) /\
  rq_Body (j_req j) = Some (sq_id q) /\ rq_RemoteAddr (j_req j) = ss_RemoteAddr session /\
  exists h', rq_Header (j_req j) = Some h' /\
    forall k, values h' k = receivedValues (default ∅ (rq_Header req)) (sq_gzip q) k.

Lemma u32_streamID id : 0 < id < 2 ^ 31 -> u32 id = id.
Proof. intros H. unfold u32. apply Z.mod_small. lia. Qed.

(** The frame that is written for a block, and how it is read *)
Lemma frame_read p : 0 < hp_StreamID p < 2 ^ 31 -> len (hp_BlockFragment p) < 2 ^ 24 - 5 ->
  exists b, WriteHeaders p = Ok b /\ forall rest,
    ReadFrame (b ++ rest) = Ok (HeadersFrame (hp_StreamID p) (hp_EndHeaders p) (hp_EndStream p) (hp_BlockFragment p), rest).
Proof.
  intros Hid Hlen. destruct (WriteHeaders_Read p [] Hid Hlen) as (b & Hw & _). exists b. split; [done|]. intros rest.
  destruct (WriteHeaders_Read p rest Hid Hlen) as (b' & Hw' & Hr). congruence.
Qed.

Lemma request_arrives session w q dec : hp_sync (rw_henc w) dec -> sendable q -> ss_GetOrOpenStream session (sq_id q) = Ok true ->
  exists w' b dec' ops j, write w q = (w', Ok b) /\ hp_sync (rw_henc w') dec' /\
    (forall rest, handleRequest session (mkHeaderReader (b ++ rest) dec) = (mkHeaderReader rest dec', ops, Ok (Some j))) /\
    arrives session q j.
Proof.
  intros Hsync (Hh & Ho1 & Ho2 & Hm & Hc & Hcl & (host & path & u' & Hhost & Hne & Hpath & Hu) & Hid & Hlen) Hopen.
  destruct (request_received (B2 := Z) unicodeLower (sq_req q) (sq_order1 q) (sq_order2 q) (sq_gzip q) host path u') as (fs & h' & Hf & Hr & Hv);
    [done..|].
  destruct (hp_sync_fields (rw_henc w) dec fs Hsync) as (dec' & Hdec & Hsync'). specialize (Hlen fs (rw_henc w) Hf).
  destruct (hp_WriteFields (rw_henc w) fs) as [e block] eqn:Ew. cbn [fst snd] in *.
  destruct (frame_read (mkHeadersFrameParam (sq_id q) true (sq_endStream q) block 0xff)) as (b & Hw & Hread); [done..|].
  cbn [hp_StreamID hp_EndHeaders hp_EndStream hp_BlockFragment] in Hread.
  exists (mkRequestWriter e block), b, dec', (if sq_endStream q then [OpCloseRemote (sq_id q) 0; OpRead (sq_id q) 1] else []). eexists.
  split_and!; [|done|intros rest|].
  - unfold write, WriteRequest, encodeHeaders. rewrite Hf, Ew. cbn [rw_hbuf]. by rewrite u32_streamID, Hw.
  - unfold handleRequest. cbn [hr_input hr_dec]. rewrite Hread, Hdec. cbn [negb rbind]. rewrite Hr. cbn [rbind]. rewrite Hopen. done.
  - unfold arrives. cbn. split_and!; try done. exists h'. done.
Qed.

Lemma requests_loop session qs w dec rest fuel : session_safe session ->
  hp_sync (rw_henc w) dec -> Forall sendable qs -> Forall (fun q => ss_GetOrOpenStream session (sq_id q) = Ok true) qs ->
  exists w' bytes, writeAll w qs = Ok (w', bytes) /\
    ((length (bytes ++ rest) < fuel)%nat ->
     exists js1 js2 ops, requestLoop fuel session (mkHeaderReader (bytes ++ rest) dec) = Some (js1 ++ js2, ops) /\ Forall2 (arrives session) qs js1).
Proof.
  intros Hss. revert w dec fuel. induction qs as [|q qs IH]; intros w dec fuel Hsync Hq Hopen.
  - exists w, []. split; [done|]. intros Hf. destruct (requestLoop_ends fuel session (mkHeaderReader rest dec) Hss) as (js & ops & e & E); [done|].
    exists [], js. eexists. split; [exact E|constructor].
  - apply Forall_cons in Hq as [Hq1 Hq]. apply Forall_cons in Hopen as [Ho1 Ho].
    destruct (request_arrives session w q dec Hsync Hq1 Ho1) as (w1 & b & dec1 & ops1 & j & Hw & Hs1 & Hh & Hj).
    destruct fuel as [|fuel].
    { destruct (IH w1 dec1 0%nat Hs1 Hq Ho) as (w2 & bs & Hw2 & _). exists w2, (b ++ bs). cbn [writeAll]. rewrite Hw. cbn [rbind].
      rewrite Hw2. split; [done|]. lia. }
    destruct (IH w1 dec1 fuel Hs1 Hq Ho) as (w2 & bs & Hw2 & Hl). exists w2, (b ++ bs). cbn [writeAll]. rewrite Hw. cbn [rbind].
    rewrite Hw2. split; [done|]. intros Hf. rewrite <- app_assoc. specialize (Hh (bs ++ rest)).
    pose proof (handleRequest_progress session (mkHeaderReader (b ++ bs ++ rest) dec) Hss) as Hlt. rewrite Hh in Hlt. cbn [hr_input] in Hlt.
    destruct Hl as (js1 & js2 & ops & E & Hjs); [rewrite <- app_assoc in Hf; lia|]. cbn [requestLoop]. rewrite Hh, E.
    exists (j :: js1), js2. eexists. split; [done|]. by constructor.
Qed.

(** C9: Requests arrive: the requests that a client writes one after the other on the header
    stream, compressed by one encoder, are served in that order, each on its own data stream,
    with the method, host, path and content length of the client's request and, for every
    header, the values that [receivedValues] says: those of the client's header in whatever
    order the maps are iterated over, without hop-by-hop headers, Host and Content-Length, with
    the first User-Agent or the default, gzip appended to Accept-Encoding, and cookies joined.
    The requests are [sendable]: their header keys are canonical and valid, the method is neither
    empty nor CONNECT, host and path are accepted, and the block fits into one frame.  What
    follows on the stream does not matter. *)
Theorem requests_arrive session qs rest :
  session_safe session -> ss_AcceptStream session = Ok 3 ->
  Forall sendable qs -> Forall (fun q => ss_GetOrOpenStream session (sq_id q) = Ok true) qs ->
  exists w bytes js1 js2 ops,
    writeAll newRequestWriter qs = Ok (w, bytes) /\
    handleHeaderStream session (bytes ++ rest) = Some (js1 ++ js2, ops) /\
    Forall2 (arrives session) qs js1.
Proof.
  intros Hs Ha Hq Ho. unfold handleHeaderStream. rewrite Ha. cbn [negb Z.eqb Pos.eqb].
  destruct (requests_loop session qs newRequestWriter (hp_NewDecoder 4096) rest 0 Hs hp_sync_new Hq Ho) as (w & bytes & Hw & _).
  destruct (requests_loop session qs newRequestWriter (hp_NewDecoder 4096) rest (S (length (bytes ++ rest))) Hs hp_sync_new Hq Ho)
    as (w' & bytes' & Hw' & H). assert (bytes' = bytes) as -> by congruence.
  destruct H as (js1 & js2 & ops & E & Hj); [lia|]. eauto 10.
Qed.

(** C37: A request that the client refuses, because of its host, its path or its header, ends the
    session: the error of encoding it is dropped, a frame with an empty header block is written,
    and on reading it the server closes the session, with all requests that are on it. *)
Theorem refused_request_ends_session session w q dec rest e fuel :
  hp_sync (rw_henc w) dec -> fieldsOf q = Err e -> 0 < sq_id q < 2 ^ 31 ->
  exists w' b, write w q = (w', Ok b) /\
    requestLoop (S fuel) session (mkHeaderReader (b ++ rest) dec) =
      Some ([], [OpSessionClose (Some (ErrNew ":path, :authority and :method must not be empty"))]).
Proof.
  intros Hsync Hf Hid. destruct (hp_sync_fields (rw_henc w) dec [] Hsync) as (dec' & Hdec & _). cbn [hp_WriteFields snd] in Hdec.
  destruct (frame_read (mkHeadersFrameParam (sq_id q) true (sq_endStream q) [] 0xff)) as (b & Hw & Hread); [done..|].
  exists (mkRequestWriter (rw_henc w) []), b. split.
  - unfold write, WriteRequest, encodeHeaders. unfold fieldsOf in Hf. rewrite Hf. cbn [rw_hbuf]. by rewrite u32_streamID, Hw.
  - cbn [requestLoop]. unfold handleRequest. cbn [hr_input hr_dec]. rewrite Hread. cbn [hp_EndHeaders hp_BlockFragment negb].
    rewrite Hdec. reflexivity.
Qed.

End requests.

(** ** Responses *)

Section responses.
Context `{Hp : Hpack, HL : !HpackLaws Hp, U : Urls, Id : Idna, Mh : MetaHeaders, ML : !MetaHeadersLaws Mh, Fr : Framer, FL : !FramerLaws Fr}.
Context {B : Type} (unicodeLower : list Z -> list Z) (statusText : Z -> list Z) (disableCompression : bool).

(** A response that the server writes on the header stream *)
Record answer : Type := mkAnswer {
  an_id : Z;
  an_status : Z;
  an_header : Header;
  an_order : list (list Z * list (list Z));
}.
Definition answer_ok (a : answer) : Prop :=
  (forall k vv, an_header a !! k = Some vv -> key_ok k) /\ an_order a ≡ₚ map_to_list (an_header a) /\
  - 2 ^ 63 <= an_status a < 2 ^ 63 /\ 0 < an_id a < 2 ^ 31 /\
  len (hp_WriteFields hp_NewEncoder (responseFields unicodeLower (an_order a) (an_status a))).2 < 2 ^ 24 - 5.
Definition frameOf (a : answer) : res (list Z) := responseFrame unicodeLower (an_id a) (an_order a) (an_status a).
(** Responses that are written one after the other *)
Fixpoint frames (l : list answer) : res (list Z) :=
  match l with
  | [] => Ok []
  | a :: l =>
      let! b := frameOf a in
      let! bs := frames l in
      Ok (b ++ bs)
  end.

(** What the client reads for it *)
Definition answers (a : answer) (r : Response responseBody) : Prop :=
  rs_StatusCode r = an_status a /\ rs_Status r = FormatInt (an_status a) ++ str " " ++ statusText (an_status a) /\
  rs_Trailer r = announcedTrailer (values (an_header a) (str "Trailer")) /\ rs_Uncompressed r = false /\
  forall k, values (rs_Header r) k = if bool_decide (k = str "Trailer") then [] else values (an_header a) k.

Lemma answer_frame a dec e : answer_ok a -> hp_sync e dec ->
  exists b dec' r fields, frameOf a = Ok b /\ hp_DecodeFull dec (hp_WriteFields hp_NewEncoder (responseFields unicodeLower (an_order a) (an_status a))).2 = (dec', Ok fields) /\
    (exists e', hp_sync e' dec') /\ responseFromHeaders statusText (mkMetaHeadersFrame fields false) = Ok r /\ answers a r /\
    forall rest, ReadFrame (b ++ rest) = Ok (HeadersFrame (an_id a) true false
      (hp_WriteFields hp_NewEncoder (responseFields unicodeLower (an_order a) (an_status a))).2, rest).
Proof.
  intros (Hk & Ho & Hs & Hid & Hlen) Hsync. apply hp_sync_fresh in Hsync.
  destruct (hp_sync_fields _ dec (responseFields unicodeLower (an_order a) (an_status a)) Hsync) as (dec' & Hdec & Hsync').
  destruct (response_received (B := responseBody) unicodeLower statusText (an_header a) (an_order a) (an_status a) Hk Ho Hs) as (h' & Hr & Hv).
  destruct (hp_WriteFields hp_NewEncoder _) as [e' block] eqn:Ew. cbn [fst snd] in *.
  destruct (frame_read (mkHeadersFrameParam (an_id a) true false block 0)) as (b & Hw & Hread); [done..|].
  exists b, dec'. eexists _, _. split_and!; [|done|by exists e'|exact Hr|split_and!; [done..|exact Hv]|exact Hread].
  unfold frameOf, responseFrame. by rewrite Ew, u32_streamID.
Qed.

(** All that the client gets are responses that have been written. *)
Lemma frames_received l bytes dec e id r : Forall answer_ok l -> frames l = Ok bytes -> hp_sync e dec ->
  received statusText dec bytes id r -> exists a r', a ∈ l /\ an_id a = id /\ r = Some r' /\ answers a r'.
Proof.
  intros Hl. revert bytes dec e. induction Hl as [|a l Ha _ IH]; intros bytes dec e Hf Hsync Hr.
  - injection Hf as <-. inversion Hr as [? ? ? ? ? ? ? ? ? H|? ? ? ? ? ? ? ? ? ? ? H]; apply ReadFrame_shorter in H; cbn in H; lia.
  - destruct (answer_frame a dec e Ha Hsync) as (b & dec' & r' & fields & Eb & Hdec & (e' & Hsync') & Hr' & Ha' & Hread).
    cbn [frames] in Hf. rewrite Eb in Hf. destruct (frames l) as [bs| |] eqn:El; [|done..]. injection Hf as <-. specialize (Hread bs).
    inversion Hr as [? ? ? ? ? ? ? ? ? H1 H2|? ? ? ? ? ? ? ? ? ? ? H1 H2 H3]; subst; rewrite Hread in H1; simplify_eq/=; rewrite Hdec in H2; simplify_eq/=.
    + rewrite Hr'. exists a, r'. split_and!; [left|done..].
    + destruct (IH _ _ e' eq_refl Hsync' H3) as (a' & r'' & Hin & ?). exists a', r''. split; [by right|done].
Qed.

(** The header of the response that [Do] returns: unpacking the body on its behalf removes the
    headers that do not fit it any more. *)
Lemma Do_response_header (req : Request B) id gzip r :
  let unpacked := negb (bool_decide (rq_Method req = str "HEAD")) && gzip &&
                  bool_decide (Header_Get (rs_Header r) (str "Content-Encoding") = str "gzip") in
  rs_StatusCode (Do_response req id gzip r) = rs_StatusCode r /\
  rs_Uncompressed (Do_response req id gzip r) = unpacked || rs_Uncompressed r /\
  forall k, values (rs_Header (Do_response req id gzip r)) k =
    if unpacked && bool_decide (k ∈ [str "Content-Encoding"; str "Content-Length"]) then [] else values (rs_Header r) k.
Proof.
  intros unpacked. assert (rs_Header (setLength r (bool_decide (rq_Method req = str "HEAD")) false) = rs_Header r /\
    rs_StatusCode (setLength r (bool_decide (rq_Method req = str "HEAD")) false) = rs_StatusCode r /\
    rs_Uncompressed (setLength r (bool_decide (rq_Method req = str "HEAD")) false) = rs_Uncompressed r) as (E1 & E2 & E3).
  { unfold setLength. cbn [negb orb]. repeat case_match; done. }
  unfold Do_response, unpacked. case_bool_decide as Hh; cbn [negb andb set_Body rs_Header rs_StatusCode rs_Uncompressed orb].
  { by rewrite E1. }
  rewrite E1. destruct (gzip && bool_decide (Header_Get (rs_Header r) (str "Content-Encoding") = str "gzip"));
    cbn [rs_Header rs_StatusCode rs_Uncompressed orb andb set_Body]; [|by rewrite E1].
  split_and!; [done..|]. intros k. unfold Header_Del, values.
  change (CanonicalHeaderKey (str "Content-Encoding")) with (str "Content-Encoding").
  change (CanonicalHeaderKey (str "Content-Length")) with (str "Content-Length").
  case_bool_decide as Hk.
  - apply list_elem_of_In in Hk as [<-|[<-|[]]]; [|by rewrite lookup_delete_eq].
    by rewrite lookup_delete_ne, lookup_delete_eq by (vm_compute; congruence).
  - rewrite !lookup_delete_ne; [done|..]; intros <-; apply Hk; [left|right; left].
Qed.

(** C10: A whole exchange: whatever the order in which the server writes its responses on the
    header stream, and whatever the order in which the calls of the client and its reading
    goroutine take their steps, a call of [Do] that returns a response returns one that the
    server has written for its stream, with the status code and the values of all headers
    that the handler has set; only Trailer, which becomes the announced trailer, and the
    headers of a body that is unpacked on the way are not among them. *)
Theorem exchange l input hostname (s : clientState (B := B)) i req id res :
  Forall answer_ok l -> frames l = Ok input ->
  leads unicodeLower statusText disableCompression (initialState hostname input) s ->
  cs_calls s !! i = Some (CDone req (Some id) (Ok res)) ->
  exists a, a ∈ l /\ an_id a = id /\ rs_StatusCode res = an_status a /\
    (rs_Uncompressed res = true -> requestGzip disableCompression req = true /\ hd [] (values (an_header a) (str "Content-Encoding")) = str "gzip") /\
    forall k, values (rs_Header res) k =
      if bool_decide (k = str "Trailer") || rs_Uncompressed res && bool_decide (k ∈ [str "Content-Encoding"; str "Content-Length"])
      then [] else values (an_header a) k.
Proof.
  intros Hl Hf Hs Hc. pose proof (leads_inv _ _ _ hostname input s Hs) as Hi.
  pose proof (inv_call _ _ _ _ _ Hi i _ Hc) as (_ & r & Hr & ->).
  destruct (frames_received l input _ _ id (Some r) Hl Hf hp_sync_new Hr) as (a & r' & Hin & Eid & [= <-] & (Est & _ & _ & Hu & Hv)).
  destruct (Do_response_header req id (requestGzip disableCompression req) r) as (Es & Eu & Eh).
  set (unpacked := _ && _ && _) in *. rewrite Hu, orb_false_r in Eu. exists a. split_and!; [done|done|congruence| |].
  - rewrite Eu. unfold unpacked. intros [[_ Hg]%andb_prop Hce%bool_decide_eq_true]%andb_prop. split; [done|].
    rewrite <- Hce. unfold Header_Get. change (CanonicalHeaderKey (str "Content-Encoding")) with (str "Content-Encoding").
    rewrite Hv. by rewrite bool_decide_eq_false_2.
  - intros k. rewrite Eh, Eu, Hv. by destruct (bool_decide (k = str "Trailer")), (unpacked && _).
Qed.
End responses.
