(* ===== verification/H2Samples.v ===== *)
(** * h2quic: samples

    Simple instances of HPACK, the framer, URLs and IDNA, which have the laws that are assumed
    of them, and the theorems on clients and servers applied to concrete requests. *)

From S2P Require Import Prelude Protocol Qerr Wire Crypto GoStrings Httplex Http H2Messages H2Server H2Client RoundTrip H2Exchange.

(** A string constant *)
#[local] Abbreviation str := bytes_of.

(** ** Strings that mark their end *)

Definition encStr (s : list Z) : list Z := concat (map (fun b => [1; b]) s) ++ [0].
Fixpoint decStr (l : list Z) : option (list Z * list Z) :=
  match l with
  | 0 :: rest => Some ([], rest)
  | 1 :: b :: rest => match decStr rest with Some (s, rest) => Some (b :: s, rest) | None => None end
  | _ => None
  end.
Lemma decStr_encStr s rest : decStr (encStr s ++ rest) = Some (s, rest).
Proof.
  unfold encStr. induction s as [|b s IH]; [done|]. cbn [map concat app decStr]. cbn [app] in IH. by rewrite IH.
Qed.
Lemma decStr_shorter_n n l s rest : (length l <= n)%nat -> decStr l = Some (s, rest) -> (length rest < length l)%nat.
Proof.
  revert l s rest. induction n as [|n IH]; intros [|c l] s rest Hn H; cbn [length] in *; try done; try lia.
  cbn [decStr] in H. repeat case_match; simplify_eq/=; try lia.
  match goal with E : decStr _ = Some _ |- _ => apply IH in E; lia end.
Qed.
Lemma decStr_shorter l s rest : decStr l = Some (s, rest) -> (length rest < length l)%nat.
Proof. by apply (decStr_shorter_n (length l)). Qed.

(** ** HPACK without a table *)

Definition encField (f : HeaderField) : list Z := encStr (hf_Name f) ++ encStr (hf_Value f).
Fixpoint decFields (fuel : nat) (l : list Z) : res (list HeaderField) :=
  match fuel, l with
  | _, [] => Ok []
  | O, _ => Err EOF
  | S fuel, _ =>
      match decStr l with
      | Some (n, l) =>
          match decStr l with
          | Some (v, l) => let! fs := decFields fuel l in Ok (mkHeaderField n v :: fs)
          | None => Err EOF
          end
      | None => Err EOF
      end
  end.
#[local] Instance sampleHpack : Hpack := {
  hp_Encoder := unit;
  hp_Decoder := unit;
  hp_NewEncoder := tt;
  hp_NewDecoder := fun _ => tt;
  hp_WriteField := fun _ f => (tt, encField f);
  hp_DecodeFull := fun _ l => (tt, decFields (length l) l);
  IsPseudo := fun f => HasPrefix (hf_Name f) [58];
}.

Lemma sample_WriteFields fs : hp_WriteFields tt fs = (tt, concat (map encField fs)).
Proof.
  induction fs as [|f fs IH]; [done|].
  change (@hp_WriteFields sampleHpack tt (f :: fs)) with (let '(e, bs) := @hp_WriteFields sampleHpack tt fs in (e, encField f ++ bs)). by rewrite IH.
Qed.
Lemma decFields_encode fs fuel : (length (concat (map encField fs)) <= fuel)%nat -> decFields fuel (concat (map encField fs)) = Ok fs.
Proof.
  revert fuel. induction fs as [|f fs IH]; intros fuel Hf; [by destruct fuel|]. cbn [map concat] in *.
  assert (encField f ++ concat (map encField fs) = encStr (hf_Name f) ++ encStr (hf_Value f) ++ concat (map encField fs)) as E.
  { unfold encField. by rewrite <- app_assoc. }
  rewrite E in *. rewrite !length_app in Hf. assert (0 < length (encStr (hf_Name f)))%nat.
  { unfold encStr. rewrite length_app. cbn. lia. }
  destruct fuel as [|fuel]; [lia|]. cbn [decFields].
  destruct (encStr (hf_Name f) ++ encStr (hf_Value f) ++ concat (map encField fs)) as [|b l] eqn:El.
  { apply (f_equal length) in El. rewrite !length_app in El. cbn in El. lia. }
  rewrite <- El, !decStr_encStr, IH by lia. cbn [rbind]. by destruct f.
Qed.
Lemma decFields_safe fuel l : decFields fuel l <> Panic.
Proof.
  revert l. induction fuel as [|fuel IH]; intros [|b l]; try done. cbn [decFields]. repeat case_match; try done.
  match goal with |- rbind (decFields fuel ?l) _ <> _ => specialize (IH l); by destruct (decFields fuel l) end.
Qed.

#[local] Instance sampleHpackLaws : HpackLaws sampleHpack.
Proof.
  refine {| hp_sync := fun _ _ => True |}; try done.
  - intros [] [] fs _. exists tt. split; [|done]. cbn [hp_DecodeFull sampleHpack]. rewrite sample_WriteFields. cbn [snd].
    by rewrite decFields_encode.
  - intros [] data. cbn. apply decFields_safe.
Defined.

(** ** A framer, and the fields of a frame *)

#[local] Instance sampleFramer : Framer := {
  WriteHeaders := fun p => Ok ([255; hp_StreamID p; Z.b2z (hp_EndHeaders p); Z.b2z (hp_EndStream p)] ++ encStr (hp_BlockFragment p));
  ReadFrame := fun s =>
    match s with
    | 255 :: id :: eh :: es :: rest =>
        match decStr rest with Some (b, rest) => Ok (HeadersFrame id (eh =? 1) (es =? 1) b, rest) | None => Err EOF end
    | 254 :: id :: rest => Ok (OtherFrame id, rest)
    | _ => Err EOF
    end;
}.
#[local] Instance sampleFramerLaws : FramerLaws sampleFramer.
Proof.
  split; cbn -[encStr decStr].
  - intros [id eh es block w] rest Hid Hlen. eexists. split; [done|]. cbn -[encStr decStr]. rewrite decStr_encStr. by destruct eh, es.
  - done.
  - intros s. repeat case_match; done.
  - intros s f rest H. repeat case_match; simplify_eq/=; try lia. match goal with E : decStr _ = Some _ |- _ => apply decStr_shorter in E end. lia.
Qed.

#[local] Instance sampleMeta : MetaHeaders := {
  PseudoValue := fun f name => from_option hf_Value [] (List.find (fun hf => bool_decide (hf_Name hf = 58 :: name)) (mh_Fields f));
  RegularFields := fun f => filter (fun hf => IsPseudo hf = false) (mh_Fields f);
}.
#[local] Instance sampleMetaLaws : MetaHeadersLaws sampleMeta.
Proof.
  split.
  - intros name v fs t. cbn -[bool_decide]. by rewrite bool_decide_eq_true_2.
  - intros ps rs t Hps Hrs. cbn [RegularFields sampleMeta mh_Fields]. rewrite filter_app, filter_none, filter_all; [done|..].
    + by apply Forall_forall.
    + intros f Hf. rewrite Forall_forall in Hps. by rewrite (Hps f Hf).
Qed.

(** ** URLs and IDNA *)

#[local] Instance sampleUrls : Urls := {
  URL := list Z * list Z * list Z;      (* scheme, host and path *)
  url_Parse := fun s => if HasPrefix s [47] then Ok ([], [], s) else Err (Errorf "parse %s: invalid URI for request" s);
  url_Scheme := fun u => u.1.1;
  url_Host := fun u => u.1.2;
  url_Opaque := fun _ => [];
  url_RequestURI := fun u => u.2;
}.
#[local] Instance sampleUrlsLaws : UrlsLaws sampleUrls.
Proof. split. intros s. cbn. by case_match. Qed.

#[local] Instance sampleIdna : Idna := { ToASCII := fun s => if isASCII s then Ok s else Err (ErrNew "idna: invalid label") }.
#[local] Instance sampleIdnaLaws : IdnaLaws sampleIdna.
Proof. split; cbn; intros s; [by case_match|..]; intros; repeat case_match; by simplify_eq. Qed.

(** ** Requests *)

Definition postHeader : Header :=
  <[str "Accept" := [str "text/html"; str "*/*"]]> (<[str "Connection" := [str "close"]]> (<[str "Cookie" := [str "a=1"; str "b=2"]]> ∅)).
Definition sampleURL (path : list Z) : list Z * list Z * list Z := (str "https", str "example.com", path).
Definition postRequest : Request Z :=
  mkRequest _ _ (str "POST") (Some (sampleURL (str "/form"))) [] 0 0 (Some postHeader) (Some 1) 12 [] [] [].
Definition getRequest (path : list Z) : Request Z :=
  mkRequest _ _ (str "GET") (Some (sampleURL path)) [] 0 0 (Some ∅) None 0 [] [] [].
Definition sampleSendings : list sending :=
  [mkSending postRequest 5 false false (map_to_list postHeader) (map_to_list postHeader);
   mkSending (getRequest (str "/index.html")) 7 true true [] []].
Definition sampleStreams : streamCreator := mkStreamCreator (str "192.0.2.1:443") (fun _ => Ok true) (Ok 3).

Lemma postHeader_ok : header_ok postHeader.
Proof.
  intros k vv. unfold postHeader. rewrite !lookup_insert_Some, lookup_empty.
  intros [[<- <-]|(_ & [[<- <-]|(_ & [[<- <-]|(_ & [=])])])]; (split; [split; reflexivity|repeat constructor]).
Qed.
Lemma sampleSendings_ok : Forall (sendable id) sampleSendings.
Proof.
  constructor; [|constructor; [|constructor]]; unfold sendable; cbn [sq_req sq_order1 sq_order2 sq_id rq_Method rq_Header rq_ContentLength
    postRequest getRequest default from_option].
  - split_and!; [apply postHeader_ok|done|done|done|vm_compute; congruence|lia|lia| |lia|lia|].
    + eexists _, _, _. split_and!; [reflexivity|done|reflexivity|reflexivity].
    + intros fs [] H. vm_compute in H. injection H as <-. vm_compute. reflexivity.
  - split_and!; [by intros k vv|done|done|done|vm_compute; congruence|lia|lia| |lia|lia|].
    + eexists _, _, _. split_and!; [reflexivity|done|reflexivity|reflexivity].
    + intros fs [] H. vm_compute in H. injection H as <-. vm_compute. reflexivity.
Qed.

(** The requests arrive at the server, each on its stream. *)
Lemma requests_arrive_witness :
  exists w bytes js1 js2 ops,
    writeAll id newRequestWriter sampleSendings = Ok (w, bytes) /\
    handleHeaderStream sampleStreams (bytes ++ [254; 9]) = Some (js1 ++ js2, ops) /\
    Forall2 (arrives sampleStreams) sampleSendings js1.
Proof.
  apply (requests_arrive id sampleStreams sampleSendings [254; 9]); [done|reflexivity|apply sampleSendings_ok|].
  repeat constructor.
Defined.

(** A path that is not valid *)
Definition badSending : sending := mkSending (getRequest (str "//index.html")) 9 true false [] [].
Lemma refused_request_witness :
  exists w b, write id newRequestWriter badSending = (w, Ok b) /\
    requestLoop 1 sampleStreams (mkHeaderReader (b ++ []) (hp_NewDecoder 4096)) =
      Some ([], [OpSessionClose (Some (ErrNew ":path, :authority and :method must not be empty"))]).
Proof. eapply (refused_request_ends_session id sampleStreams newRequestWriter badSending (hp_NewDecoder 4096) [] _ 0); [done|reflexivity|done]. Defined.

(** ** Responses *)

Definition sampleAnswers : list answer :=
  let h1 := <[str "Content-Type" := [str "text/html"]]> ∅ in
  let h2 := <[str "Content-Encoding" := [str "gzip"]]> (<[str "Trailer" := [str "X-Sum"]]> ∅) in
  [mkAnswer 7 200 h2 (map_to_list h2); mkAnswer 5 404 h1 (map_to_list h1)].
Definition sampleInput : list Z := match frames id sampleAnswers with Ok b => b | _ => [] end.
Lemma sampleAnswers_ok : Forall (answer_ok id) sampleAnswers.
Proof.
  constructor; [|constructor; [|constructor]]; unfold answer_ok; cbn [an_header an_order an_status an_id].
  - split_and!; try done. intros k vv. rewrite !lookup_insert_Some, lookup_empty.
    intros [[<- <-]|(_ & [[<- <-]|(_ & [=])])]; by split.
  - split_and!; try done. intros k vv. rewrite !lookup_insert_Some, lookup_empty. intros [[<- <-]|(_ & [=])]. by split.
Qed.

Definition statusOf (n : Z) : list Z := if n =? 200 then str "OK" else str "Not Found".
Definition callEvents (i : nat) (id : Z) (req : Request Z) (order : list (list Z * list (list Z))) : list callEvent :=
  [EvCall i req; EvCheck i; EvDialed i; EvOpen i (Ok id); EvRegister i; EvWrite i order order None].
Definition sampleEvents : list callEvent :=
  EvDial (Ok tt) (Ok 3) :: callEvents 0 5 postRequest (map_to_list postHeader)
  ++ callEvents 1 7 (getRequest (str "/index.html")) []
  ++ [EvRead; EvDeliver; EvBody 0 None None None; EvRead; EvDelete 1; EvDeliver; EvDelete 0].
Definition runEvents (input : list Z) (evs : list callEvent) : clientState (B := Z) :=
  default (initialState (str "example.com") input) (csteps id statusOf false evs (initialState (str "example.com") input)).

Lemma runEvents_leads input evs :
  is_Some (csteps id statusOf false evs (initialState (str "example.com") input)) ->
  leads id statusOf false (initialState (str "example.com") input) (runEvents input evs).
Proof. intros [s E]. unfold runEvents. rewrite E. by apply (csteps_leads id statusOf false evs). Qed.

(** Two calls; the response to the second one comes first, and is unpacked. *)
Lemma exchange_witness : exists res,
  cs_calls (runEvents sampleInput sampleEvents) !! 1%nat = Some (CDone (getRequest (str "/index.html")) (Some 7) (Ok res)) /\
  exists a, a ∈ sampleAnswers /\ an_id a = 7 /\ rs_StatusCode res = an_status a /\
    (rs_Uncompressed res = true ->
       requestGzip false (getRequest (str "/index.html")) = true /\ hd [] (values (an_header a) (str "Content-Encoding")) = str "gzip") /\
    forall k, values (rs_Header res) k =
      if bool_decide (k = str "Trailer") || rs_Uncompressed res && bool_decide (k ∈ [str "Content-Encoding"; str "Content-Length"])
      then [] else values (an_header a) k.
Proof.
  eexists. split; [vm_compute; reflexivity|].
  eapply (exchange id statusOf false sampleAnswers sampleInput (str "example.com") (runEvents sampleInput sampleEvents) 1).
  - apply sampleAnswers_ok.
  - vm_compute. reflexivity.
  - apply runEvents_leads. vm_compute. eauto.
  - vm_compute. reflexivity.
Defined.

(** ** A request after the end of the header stream *)

(** The server sends a frame that is not a HEADERS frame. *)
Definition stoppedState : clientState (B := Z) := runEvents [254; 1] [EvDial (Ok tt) (Ok 3); EvRead; EvStop].
Definition lateState : clientState (B := Z) :=
  runEvents [254; 1] ([EvDial (Ok tt) (Ok 3); EvRead; EvStop] ++ callEvents 0 5 (getRequest (str "/")) []).
Lemma late_request_witness :
  cs_calls lateState !! 0%nat = Some (CSelect (getRequest (str "/")) 5 true true None) /\
  forall s, leads id statusOf false lateState s -> cs_calls s !! 0%nat = Some (CSelect (getRequest (str "/")) 5 true true None).
Proof.
  split; [vm_compute; reflexivity|]. intros s Hs.
  apply (late_request_waits id statusOf false (str "example.com") [254; 1] stoppedState 0 lateState); [|..|exact Hs].
  - apply runEvents_leads. vm_compute. eauto.
  - vm_compute. reflexivity.
  - vm_compute. reflexivity.
  - apply (csteps_leads id statusOf false (callEvents 0 5 (getRequest (str "/")) [])). vm_compute. reflexivity.
  - vm_compute. reflexivity.
Defined.

(** ** A call that has returned early

    The body of the first request cannot be sent; the response to it comes nevertheless, and
    the second call waits. *)
Definition blockedState : clientState (B := Z) :=
  runEvents (match frames id (rev sampleAnswers) with Ok b => b | _ => [] end)
    (EvDial (Ok tt) (Ok 3) :: callEvents 0 5 postRequest (map_to_list postHeader) ++ callEvents 1 7 (getRequest (str "/")) []
     ++ [EvBody 0 (Some EOF) None None; EvRead]).
Example blocked_call s : leads id statusOf false blockedState s ->
  cs_calls s !! 1%nat = Some (CSelect (getRequest (str "/")) 7 true true None).
Proof.
  intros Hs. eapply (abandoned_call_blocks id statusOf false (str "example.com")
    (match frames id (rev sampleAnswers) with Ok b => b | _ => [] end) blockedState); [|..|exact Hs|].
  - apply runEvents_leads. vm_compute. eauto.
  - vm_compute. reflexivity.
  - vm_compute. reflexivity.
  - vm_compute. reflexivity.
Qed.

(** ** The client for a request *)

Lemma RoundTrip_witness : exists clients client,
  RoundTrip true [] ∅ (getRequest (str "/")) (Ok tt) (Ok 3) = (clients, Ok client) /\
  Do_check (hc_hostname client) (getRequest (str "/")) = Ok tt /\
  map_Forall (fun host c => hc_hostname c = authorityAddr (str "https") host) clients.
Proof.
  eexists _, _. split; [reflexivity|]. eapply (RoundTrip_right_client true [] ∅ (getRequest (str "/")) (Ok tt) (Ok 3)); [| |reflexivity].
  - apply map_Forall_empty.
  - left. split; apply contains_not; reflexivity.
Defined.
