(* ===== verification/Proxy.v ===== *)
(** * integrationtests/proxy: the QUIC proxy of the integration tests

    The proxy forwards datagrams between clients and a server, and drops or delays them as its
    callbacks say.  Each datagram is one step; what the sockets answer is part of the step. *)

From S2P Require Import Prelude Protocol PublicHeader.

Inductive Direction : Type :=
| DirectionIncoming
| DirectionOutgoing.

(** A connection to the server for one client; [co_running] is whether [runConnection] runs. *)
Record proxyConnection : Type := mkProxyConnection {
  incomingPacketCounter : Z;
  outgoingPacketCounter : Z;
  co_running : bool;
}.

(** The connections by the address of the client; [qp_running] is whether [runProxy] runs. *)
Record QuicProxy : Type := mkQuicProxy {
  qp_dropPacket : Direction -> Z -> bool;
  qp_delayPacket : Direction -> Z -> Z;
  qp_clientDict : gmap (list Z) proxyConnection;
  qp_running : bool;
}.

Definition NoDropper : Direction -> Z -> bool := fun _ _ => false.
Definition NoDelay : Direction -> Z -> Z := fun _ _ => 0.

(** [NewQuicProxy]: the results of resolving the local address, listening, and resolving the
    address of the server *)
Definition NewQuicProxy (local listen remote : res unit) (drop : option (Direction -> Z -> bool))
    (delay : option (Direction -> Z -> Z)) : res QuicProxy :=
  let! _ := local in
  let! _ := listen in
  let! _ := remote in
  Ok (mkQuicProxy (default NoDropper drop) (default NoDelay delay) ∅ true).

(** A datagram that is sent at once, or after a delay *)
Inductive forwarded : Type :=
| ToServer (client : list Z) (delay : Z) (raw : list Z)
| ToClient (client : list Z) (delay : Z) (raw : list Z).

(** What is read into a buffer of the maximum packet size *)
Definition receivedRaw (datagram : list Z) : list Z := take (Z.to_nat MaxPacketSize) datagram.

#[local] Definition set_dict (p : QuicProxy) (m : gmap (list Z) proxyConnection) (running : bool) : QuicProxy :=
  mkQuicProxy (qp_dropPacket p) (qp_delayPacket p) m running.

(** One iteration of [runProxy]: [dial] is the result of [newConnection], [writeErr] that of
    writing to the server.  An error ends the loop. *)
Definition runProxy_step (p : QuicProxy) (client datagram : list Z) (dial : res unit) (writeErr : option goerror)
    : QuicProxy * list forwarded :=
  let raw := receivedRaw datagram in
  match (match qp_clientDict p !! client with
         | Some conn => Ok conn
         | None => let! _ := dial in Ok (mkProxyConnection 0 0 true)
         end) with
  | Ok conn =>
      let conn := mkProxyConnection (u64 (incomingPacketCounter conn + 1)) (outgoingPacketCounter conn) (co_running conn) in
      let dict := <[client := conn]> (qp_clientDict p) in
      match ParsePublicHeader raw PerspectiveClient with
      | Ok (hdr, _) =>
          if qp_dropPacket p DirectionIncoming (ph_PacketNumber hdr) then (set_dict p dict true, [])
          else
            let delay := qp_delayPacket p DirectionIncoming (ph_PacketNumber hdr) in
            (set_dict p dict (negb ((delay =? 0) && bool_decide (is_Some writeErr))),
             if (delay =? 0) && bool_decide (is_Some writeErr) then [] else [ToServer client delay raw])
      | _ => (set_dict p dict false, [])
      end
  | _ => (set_dict p (qp_clientDict p) false, [])
  end.

(** One iteration of [runConnection] for the connection of a client *)
Definition runConnection_step (p : QuicProxy) (client datagram : list Z) (conn : proxyConnection) (writeErr : option goerror)
    : QuicProxy * list forwarded :=
  let raw := receivedRaw datagram in
  let v := u64 (outgoingPacketCounter conn + 1) in
  let update running := set_dict p (<[client := mkProxyConnection (incomingPacketCounter conn) v running]> (qp_clientDict p)) (qp_running p) in
  if qp_dropPacket p DirectionOutgoing v then (update true, [])
  else
    let delay := qp_delayPacket p DirectionOutgoing v in
    if (delay =? 0) && bool_decide (is_Some writeErr) then (update false, [])
    else (update true, [ToClient client delay raw]).

Inductive proxyEvent : Type :=
| FromClient (client datagram : list Z) (dial : res unit) (writeErr : option goerror)
| FromServer (client datagram : list Z) (writeErr : option goerror).

(** A loop that has ended reads no more datagrams. *)
Definition proxy_step (p : QuicProxy) (ev : proxyEvent) : QuicProxy * list forwarded :=
  match ev with
  | FromClient client datagram dial writeErr =>
      if qp_running p then runProxy_step p client datagram dial writeErr else (p, [])
  | FromServer client datagram writeErr =>
      match qp_clientDict p !! client with
      | Some conn => if co_running conn then runConnection_step p client datagram conn writeErr else (p, [])
      | None => (p, [])
      end
  end.
Fixpoint proxy_run (p : QuicProxy) (evs : list proxyEvent) : QuicProxy * list forwarded :=
  match evs with
  | [] => (p, [])
  | ev :: evs =>
      let '(p, out) := proxy_step p ev in
      let '(p, outs) := proxy_run p evs in
      (p, out ++ outs)
  end.

(** ** What is forwarded *)

(** The datagram of an event, as a proxy that works as intended forwards it; [n] is the number of
    datagrams from the server for this client before. *)
Definition intended (drop : Direction -> Z -> bool) (delay : Direction -> Z -> Z) (n : list Z -> Z) (ev : proxyEvent) : list forwarded :=
  match ev with
  | FromClient client datagram _ _ =>
      match ParsePublicHeader (receivedRaw datagram) PerspectiveClient with
      | Ok (hdr, _) =>
          let pn := ph_PacketNumber hdr in
          if drop DirectionIncoming pn then [] else [ToServer client (delay DirectionIncoming pn) (receivedRaw datagram)]
      | _ => []
      end
  | FromServer client datagram _ =>
      let pn := n client + 1 in
      if drop DirectionOutgoing pn then [] else [ToClient client (delay DirectionOutgoing pn) (receivedRaw datagram)]
  end.
Definition counted (n : list Z -> Z) (ev : proxyEvent) : list Z -> Z :=
  match ev with
  | FromServer client _ _ => fun c => if bool_decide (c = client) then n c + 1 else n c
  | _ => n
  end.
Fixpoint intended_run drop delay (n : list Z -> Z) (evs : list proxyEvent) : list forwarded :=
  match evs with
  | [] => []
  | ev :: evs => intended drop delay n ev ++ intended_run drop delay (counted n ev) evs
  end.

(** Datagrams that do not end a loop: packets of clients have a public header, the sockets
    work, and the server only answers clients that have sent something. *)
Definition event_ok (known : gset (list Z)) (ev : proxyEvent) : Prop :=
  match ev with
  | FromClient _ datagram dial writeErr =>
      dial = Ok tt /\ writeErr = None /\ exists hdr, ParsePublicHeader (receivedRaw datagram) PerspectiveClient = Ok hdr
  | FromServer client _ writeErr => client ∈ known /\ writeErr = None
  end.
Fixpoint events_ok (known : gset (list Z)) (evs : list proxyEvent) : Prop :=
  match evs with
  | [] => True
  | ev :: evs =>
      event_ok known ev /\
      events_ok (match ev with FromClient client _ _ _ => {[client]} ∪ known | _ => known end) evs
  end.

(** The connections that the proxy has, and their counters *)
Definition proxy_inv (known : gset (list Z)) (n : list Z -> Z) (p : QuicProxy) : Prop :=
  qp_running p = true /\
  forall c, match qp_clientDict p !! c with
            | Some conn => c ∈ known /\ co_running conn = true /\ outgoingPacketCounter conn = n c
            | None => (c ∉ known) /\ n c = 0
            end.

Lemma proxy_step_ok known n p ev m : proxy_inv known n p -> event_ok known ev -> (forall c, 0 <= n c < m) -> m < 2 ^ 64 ->
  (proxy_step p ev).2 = intended (qp_dropPacket p) (qp_delayPacket p) n ev /\
  proxy_inv (match ev with FromClient client _ _ _ => {[client]} ∪ known | _ => known end) (counted n ev) (proxy_step p ev).1 /\
  qp_dropPacket (proxy_step p ev).1 = qp_dropPacket p /\ qp_delayPacket (proxy_step p ev).1 = qp_delayPacket p.
Proof.
  intros [Hrun Hd] Hev Hn Hm. destruct ev as [client datagram dial werr|client datagram werr]; cbn [proxy_step event_ok] in *.
  - destruct Hev as (-> & -> & [hdr rest] & Eh). rewrite Hrun. unfold runProxy_step, intended. rewrite Eh. cbn [rbind].
    assert (exists conn, (match qp_clientDict p !! client with Some conn => Ok conn | None => Ok (mkProxyConnection 0 0 true) end) = Ok conn /\
      co_running conn = true /\ outgoingPacketCounter conn = n client) as (conn & -> & Hc1 & Hc2).
    { specialize (Hd client). destruct (qp_clientDict p !! client) as [conn|]; [exists conn|exists (mkProxyConnection 0 0 true)]; naive_solver. }
    rewrite andb_false_r. cbn [negb]. assert (forall dict, dict = <[client := mkProxyConnection (u64 (incomingPacketCounter conn + 1)) (outgoingPacketCounter conn) (co_running conn)]> (qp_clientDict p) ->
      proxy_inv ({[client]} ∪ known) (counted n (FromClient client datagram (Ok tt) None)) (set_dict p dict true)) as Hinv.
    { intros dict ->. split; [done|]. intros c. cbn. destruct (decide (c = client)) as [->|Hne].
      - rewrite lookup_insert_eq. cbn. set_solver.
      - rewrite lookup_insert_ne by done. specialize (Hd c). destruct (qp_clientDict p !! c); set_solver. }
    case_match; cbn; auto.
  - destruct Hev as [Hk ->]. specialize (Hd client) as Hdc. destruct (qp_clientDict p !! client) as [conn|] eqn:Ec; [|by destruct Hdc].
    destruct Hdc as (_ & Hrc & Hnc). rewrite Hrc. unfold runConnection_step, intended. rewrite Hnc.
    rewrite u64_small by (specialize (Hn client); unfold_width; lia). rewrite andb_false_r.
    assert (forall r, r = true -> proxy_inv known (counted n (FromServer client datagram None))
      (set_dict p (<[client := mkProxyConnection (incomingPacketCounter conn) (n client + 1) r]> (qp_clientDict p)) (qp_running p))) as Hinv.
    { intros r ->. split; [done|]. intros c. cbn. destruct (decide (c = client)) as [->|Hne].
      - rewrite lookup_insert_eq. cbn. by rewrite bool_decide_eq_true_2.
      - rewrite lookup_insert_ne, bool_decide_eq_false_2 by done. apply Hd. }
    case_match; cbn; auto.
Qed.

Lemma proxy_run_ok evs known n p m : proxy_inv known n p -> events_ok known evs -> (forall c, 0 <= n c < m) -> m + len evs < 2 ^ 64 ->
  (proxy_run p evs).2 = intended_run (qp_dropPacket p) (qp_delayPacket p) n evs.
Proof.
  revert known n p m. induction evs as [|ev evs IH]; intros known n p m Hp Hev Hn Hm; [done|]. destruct Hev as [Hev Hevs].
  rewrite len_cons in Hm. pose proof (len_nonneg evs). destruct (proxy_step_ok known n p ev m Hp Hev Hn ltac:(lia)) as (Eo & Hp' & Ed & Ey).
  cbn [proxy_run intended_run]. destruct (proxy_step p ev) as [p' out]. cbn [fst snd] in *.
  specialize (IH _ _ p' (m + 1) Hp' Hevs). destruct (proxy_run p' evs) as [p'' outs]. cbn [snd] in *. rewrite Eo, IH, Ed, Ey; [done| |lia].
  intros c. specialize (Hn c). destruct ev; cbn; [lia|]. case_bool_decide; lia.
Qed.

(** Every datagram that the callbacks do not drop is forwarded once and unchanged, in order and
    with the delay that they say, however the datagrams of clients and server interleave. *)
Theorem proxy_forwards drop delay evs : events_ok ∅ evs -> 1 + len evs < 2 ^ 64 ->
  exists p, NewQuicProxy (Ok tt) (Ok tt) (Ok tt) drop delay = Ok p /\
    (proxy_run p evs).2 = intended_run (default NoDropper drop) (default NoDelay delay) (fun _ => 0) evs.
Proof.
  intros Hev Hm. eexists. split; [done|]. apply (proxy_run_ok evs ∅ (fun _ => 0) (mkQuicProxy (default NoDropper drop) (default NoDelay delay) ∅ true) 1); [|done|lia|done].
  split; [done|]. intros c. cbn. rewrite lookup_empty. set_solver.
Qed.

(** A single datagram without a valid public header, from any client, ends the forwarding of
    packets to the server for all of them. *)
Theorem proxy_stops p client datagram dial writeErr e evs :
  ParsePublicHeader (receivedRaw datagram) PerspectiveClient = Err e ->
  Forall (fun out => match out with ToServer _ _ _ => False | ToClient _ _ _ => True end)
    (proxy_run p (FromClient client datagram dial writeErr :: evs)).2.
Proof.
  intros Ep. assert (forall evs p, qp_running p = false ->
    Forall (fun out => match out with ToServer _ _ _ => False | ToClient _ _ _ => True end) (proxy_run p evs).2) as Hs.
  { clear. induction evs as [|ev evs IH]; intros p Hp; [constructor|]. cbn [proxy_run].
    assert (qp_running (proxy_step p ev).1 = false /\ Forall (fun out => match out with ToServer _ _ _ => False | ToClient _ _ _ => True end) (proxy_step p ev).2) as [Hp' Ho].
    { destruct ev as [c d dial w|c d w]; cbn [proxy_step]; [by rewrite Hp|]. unfold runConnection_step. repeat case_match; cbn; eauto. }
    specialize (IH _ Hp'). destruct (proxy_step p ev) as [p' out]. cbn [fst snd] in *. destruct (proxy_run p' evs) as [p'' outs].
    by apply Forall_app. }
  cbn [proxy_run]. assert (qp_running (proxy_step p (FromClient client datagram dial writeErr)).1 = false /\
    (proxy_step p (FromClient client datagram dial writeErr)).2 = []) as [Hp Eo].
  { cbn [proxy_step]. destruct (qp_running p) eqn:Er; [|done]. unfold runProxy_step. rewrite Ep. by case_match. }
  destruct (proxy_step p _) as [p' out]. cbn [fst snd] in *. subst out. specialize (Hs evs p' Hp).
  destruct (proxy_run p' evs) as [p'' outs]. exact Hs.
Qed.

Example proxy_sample :
  let hdr := [0x38; 1; 0; 0; 0; 0; 0; 0; 0; 7; 0; 0; 0; 0; 0; 99] in
  exists p, NewQuicProxy (Ok tt) (Ok tt) (Ok tt) (Some (fun d n => match d with DirectionOutgoing => n =? 1 | _ => false end)) None = Ok p /\
    (proxy_run p [FromClient [1] hdr (Ok tt) None; FromServer [1] [5] None; FromServer [1] [6] None]).2 =
      [ToServer [1] 0 hdr; ToClient [1] 0 [6]].
Proof. eexists. split; [done|]. vm_compute. reflexivity. Qed.
