(* ===== verification/Utilities.v ===== *)
(** * Logging, host names, connection IDs and packet connections

    utils/log.go, utils/host.go, utils/atomic_bool.go, utils/connection_id.go and conn.go. *)

From S2P Require Import Prelude Wire Crypto GoStrings Http.

(** A string constant *)
#[local] Abbreviation str := bytes_of.

(** ** utils/log.go

    The constant before the levels takes the value 0 of [iota]. *)

Definition LogLevelDebug : Z := 1.
Definition LogLevelInfo : Z := 2.
Definition LogLevelError : Z := 3.
Definition LogLevelNothing : Z := 4.

(** The level, and what has been written *)
Record logger : Type := mkLogger {
  logLevel : Z;
  log_out : list (list Z);
}.
Definition SetLogLevel (l : logger) (level : Z) : logger := mkLogger level (log_out l).
Definition logLine (l : logger) (line : list Z) : logger := mkLogger (logLevel l) (log_out l ++ [line ++ [10]]).
Definition log_Debugf (l : logger) (line : list Z) : logger := if logLevel l =? LogLevelDebug then logLine l line else l.
Definition log_Infof (l : logger) (line : list Z) : logger := if logLevel l <=? LogLevelInfo then logLine l line else l.
Definition log_Errorf (l : logger) (line : list Z) : logger := if logLevel l <=? LogLevelError then logLine l line else l.
Definition log_Debug (l : logger) : bool := logLevel l =? LogLevelDebug.

(** [readLoggingEnv]: the level is cut to eight bits. *)
Definition readLoggingEnv (env : list Z) (l : logger) : logger :=
  if len env =? 0 then l
  else match ParseInt env with
  | Ok level => SetLogLevel l (u8 level)
  | _ => l
  end.

(** What is logged on a level is logged on the more important ones too, except for the level 0,
    on which there are messages of information but not of debugging. *)
Lemma log_levels l line :
  (log_Debugf l line <> l -> log_Infof l line <> l) /\ (log_Infof l line <> l -> log_Errorf l line <> l) /\
  (logLevel l = 0 -> log_Debug l = false /\ log_Debugf l line = l /\ log_Infof l line = logLine l line).
Proof.
  assert (logLine l line <> l) as Hne.
  { destruct l as [lv out]. unfold logLine. cbn. intros [= E]. apply (f_equal length) in E. rewrite length_app in E. cbn in E. lia. }
  unfold log_Debugf, log_Infof, log_Errorf, log_Debug, LogLevelDebug, LogLevelInfo, LogLevelError.
  split_and!; [| |by intros ->].
  all: repeat case_if; try done; lia.
Qed.

(** ** utils/host.go *)

(** [strings.LastIndex], -1 if there is none *)
Definition LastIndex (s : list Z) (c : Z) : Z := match lastIndex s c with Some i => Z.of_nat i | None => -1 end.
Definition hasPort (s : list Z) : bool := LastIndex s 58 >? LastIndex s 93.
Definition HostnameFromAddr `{U : Urls} (addr : list Z) : res (list Z) :=
  let! p := url_Parse addr in
  let h := url_Host p in
  if hasPort h then Ok (take (Z.to_nat (LastIndex h 58)) h) else Ok h.

(** The host without its port: a name, or an IPv6 address in brackets *)
Lemma HostnameFromAddr_host `{U : Urls} addr u host port :
  url_Parse addr = Ok u -> 58 ∉ port -> 93 ∉ port -> url_Host u = host ++ 58 :: port -> HostnameFromAddr addr = Ok host.
Proof.
  intros Hu H1 H2 Hh. unfold HostnameFromAddr. rewrite Hu. cbn [rbind]. rewrite Hh.
  assert (LastIndex (host ++ 58 :: port) 58 = Z.of_nat (length host)) as E by (unfold LastIndex; by rewrite lastIndex_app).
  assert (LastIndex (host ++ 58 :: port) 93 < Z.of_nat (length host)) as Hlt.
  { unfold LastIndex. destruct (lastIndex (host ++ 58 :: port) 93) as [i|] eqn:El; [|lia].
    destruct (decide (93 ∈ host)) as [Hin|Hn].
    - apply list_elem_of_split_r in Hin as (a & b & -> & Hb). rewrite <- app_assoc in El. cbn [app] in El.
      rewrite lastIndex_app in El by set_solver. injection El as <-. rewrite length_app. cbn. lia.
    - rewrite lastIndex_None in El by set_solver. done. }
  unfold hasPort. rewrite E. destruct (Z.gtb_spec (Z.of_nat (length host)) (LastIndex (host ++ 58 :: port) 93)); [|lia].
  by rewrite Nat2Z.id, take_app_length.
Qed.
Lemma HostnameFromAddr_plain `{U : Urls} addr u :
  url_Parse addr = Ok u -> 58 ∉ url_Host u -> HostnameFromAddr addr = Ok (url_Host u).
Proof.
  intros Hu Hc. unfold HostnameFromAddr. rewrite Hu. cbn [rbind]. unfold hasPort, LastIndex. rewrite lastIndex_None by done.
  destruct (lastIndex (url_Host u) 93); case_if; try done; lia.
Qed.

(** ** utils/atomic_bool.go *)

Definition AtomicBool_Set (value : bool) : Z := if value then 1 else 0.
Definition AtomicBool_Get (v : Z) : bool := negb (v =? 0).

(** ** utils/connection_id.go *)

(** Eight random bytes, as a little-endian number *)
Definition GenerateConnectionID (rand : res (list Z)) : res Z :=
  let! b := rand in
  Ok (le_value b).

(** Every connection ID is generated by exactly one choice of the random bytes. *)
Lemma GenerateConnectionID_uniform id : 0 <= id < 2 ^ 64 ->
  GenerateConnectionID (Ok (le_bytes 8 id)) = Ok id /\
  forall b, bytes_ok b -> length b = 8%nat -> GenerateConnectionID (Ok b) = Ok id -> b = le_bytes 8 id.
Proof.
  intros Hid. unfold GenerateConnectionID. cbn [rbind]. split.
  - rewrite le_value_bytes. f_equal. apply Z.mod_small. done.
  - intros b Hb Hl [= <-]. rewrite <- Hl. symmetry. by apply le_bytes_value.
Qed.

(** ** conn.go *)

(** A packet connection with the address of the peer; [A] is the type of addresses. *)
Record packetConn {A : Type} : Type := mkPacketConn { currentAddr : A }.
Arguments packetConn A : clear implicits.
Arguments mkPacketConn {A}.

(** What is written, and to which address *)
Definition conn_Write {A} (c : packetConn A) (p : list Z) : list Z * A := (p, currentAddr c).
Definition SetCurrentRemoteAddr {A} (c : packetConn A) (addr : A) : packetConn A := mkPacketConn addr.
Definition conn_RemoteAddr {A} (c : packetConn A) : A := currentAddr c.
