(* ===== verification/Examples.v ===== *)
(** * The example programs

    The loops of example/client/main.go (a crawler), example/echo/echo.go and
    example/puic-poll/main.go; parsing of flags, files and HTML is left to steps and
    arguments. *)

From S2P Require Import Prelude.

(** ** example/client: the crawler

    [crawlLoop] starts a goroutine for every URL of its queue, at most [maxOutstanding] at a
    time; a goroutine that has crawled its URL waits on the channel [done]. *)

Inductive crawlPc : Type :=
| CrawlSelect                     (* at the select *)
| CrawlSlot                       (* has a URL and waits for a goroutine to end *)
| CrawlDone                       (* waits for a goroutine to end *)
| CrawlReturned.
Record crawler : Type := mkCrawler {
  cw_pc : crawlPc;
  cw_started : bool;
  cw_outstanding : Z;
  cw_urls : nat;                  (* URLs in the queue *)
  cw_crawling : nat;              (* goroutines in [crawl] *)
  cw_finished : nat;              (* goroutines that wait on [done] *)
}.
Definition newCrawler (urls : nat) : crawler := mkCrawler CrawlSelect false 0 urls 0 0.

Inductive crawl_step (maxOutstanding : Z) : crawler -> crawler -> Prop :=
| crawl_url started out urls n m :
    out < maxOutstanding ->
    crawl_step maxOutstanding (mkCrawler CrawlSelect started out (S urls) n m) (mkCrawler CrawlSelect true (out + 1) urls (S n) m)
| crawl_url_full started out urls n m :
    maxOutstanding <= out ->
    crawl_step maxOutstanding (mkCrawler CrawlSelect started out (S urls) n m) (mkCrawler CrawlSlot true out urls n m)
| crawl_slot started out urls n m :
    crawl_step maxOutstanding (mkCrawler CrawlSlot started out urls n (S m)) (mkCrawler CrawlSelect started (out - 1 + 1) urls (S n) m)
| crawl_idle out n m :
    crawl_step maxOutstanding (mkCrawler CrawlSelect false out 0 n m) (mkCrawler CrawlSelect false out 0 n m)
| crawl_return out n m :
    out = 0 -> crawl_step maxOutstanding (mkCrawler CrawlSelect true out 0 n m) (mkCrawler CrawlReturned true out 0 n m)
| crawl_wait out n m :
    out <> 0 -> crawl_step maxOutstanding (mkCrawler CrawlSelect true out 0 n m) (mkCrawler CrawlDone true out 0 n m)
| crawl_done started out urls n m :
    crawl_step maxOutstanding (mkCrawler CrawlDone started out urls n (S m)) (mkCrawler CrawlSelect started (out - 1) urls n m)
| crawl_follow pc started out urls n m new :
    (* a goroutine queues the links that it has found *)
    crawl_step maxOutstanding (mkCrawler pc started out urls (S n) m) (mkCrawler pc started out (urls + new) (S n) m)
| crawl_finish pc started out urls n m :
    crawl_step maxOutstanding (mkCrawler pc started out urls (S n) m) (mkCrawler pc started out urls n (S m)).

(** The goroutines are counted; while one of them is waited for, there is one. *)
Definition crawl_inv (maxOutstanding : Z) (c : crawler) : Prop :=
  cw_outstanding c = Z.of_nat (cw_crawling c) + Z.of_nat (cw_finished c) /\ cw_outstanding c <= maxOutstanding /\
  match cw_pc c with
  | CrawlSelect => True
  | CrawlSlot | CrawlDone => 0 < cw_outstanding c
  | CrawlReturned => cw_outstanding c = 0 /\ cw_urls c = 0%nat
  end.

Lemma crawl_step_inv maxOutstanding c c' : 0 < maxOutstanding -> crawl_step maxOutstanding c c' -> crawl_inv maxOutstanding c -> crawl_inv maxOutstanding c'.
Proof.
  intros Hm Hs (H1 & H2 & H3). unfold crawl_inv in *. destruct Hs; cbn in *; split_and!; try lia; try done.
  all: destruct pc; cbn in *; lia.
Qed.

(** The crawler never has more than [maxOutstanding] requests open, never waits for a goroutine
    without there being one, and when it returns all goroutines have ended and the queue is
    empty. *)
Theorem crawler_bounded maxOutstanding urls c : 0 < maxOutstanding -> rtc (crawl_step maxOutstanding) (newCrawler urls) c ->
  Z.of_nat (cw_crawling c) <= maxOutstanding /\
  (cw_pc c = CrawlSlot \/ cw_pc c = CrawlDone -> (0 < cw_crawling c + cw_finished c)%nat) /\
  (cw_pc c = CrawlReturned -> cw_crawling c = 0%nat /\ cw_finished c = 0%nat /\ cw_urls c = 0%nat).
Proof.
  intros Hm Hr. assert (crawl_inv maxOutstanding c) as (H1 & H2 & H3).
  { assert (crawl_inv maxOutstanding (newCrawler urls)) as H0 by (unfold crawl_inv; cbn; lia).
    revert H0. induction Hr as [|c1 c2 c3 Hs _ IH]; [done|]. intros H0. apply IH. by eapply crawl_step_inv. }
  split_and!; [lia| |]; intros E; [destruct E as [E|E]|]; rewrite E in H3; lia.
Qed.

(** With a limit of 0 the first URL is waited for forever. *)
Lemma crawler_blocks urls c : rtc (crawl_step 0) (newCrawler (S urls)) c -> cw_pc c <> CrawlReturned.
Proof.
  intros Hr. assert ((cw_pc c = CrawlSelect /\ cw_started c = false /\ cw_urls c = S urls \/ cw_pc c = CrawlSlot) /\
    cw_outstanding c = 0 /\ cw_crawling c = 0%nat /\ cw_finished c = 0%nat) as [[(E & _)|E] _]; [|congruence..].
  remember (newCrawler (S urls)) as c0 eqn:E0.
  assert ((cw_pc c0 = CrawlSelect /\ cw_started c0 = false /\ cw_urls c0 = S urls \/ cw_pc c0 = CrawlSlot) /\
    cw_outstanding c0 = 0 /\ cw_crawling c0 = 0%nat /\ cw_finished c0 = 0%nat) as H0 by (subst; cbn; tauto).
  clear E0. revert H0. induction Hr as [|c1 c2 c3 Hs _ IH]; [done|]. intros ([(H1 & H2 & H3)|H1] & H4 & H5 & H6); apply IH.
  all: destruct Hs; cbn in *; simplify_eq; try done; try lia; cbn; tauto.
Qed.

(** ** example/echo: the server *)

Definition bufferSize : nat := 4096.
Record echo : Type := mkEcho {
  ec_data : list Z;
  ec_bytesRead : Z;
  ec_i : Z;
}.
Definition newEcho : echo := mkEcho (replicate bufferSize 0) 0 0.

(** One iteration of the loop: [got] is read into the buffer, and the buffer is written.  The
    second result is what is written, the third whether the loop has returned. *)
Definition echo_step (s : echo) (got : list Z) (err : option goerror) : echo * option (list Z) * bool :=
  let data := got ++ drop (length got) (ec_data s) in
  let bytesRead := u64 (ec_bytesRead s + len got) in
  let '(bytesRead, i, stop) :=
    if bytesRead >=? 1024 * 1024 * 50 then (0, ec_i s + 1, ec_i s + 1 >=? 7) else (bytesRead, ec_i s, false) in
  if stop then (mkEcho data bytesRead i, None, true)
  else (mkEcho data bytesRead i, Some data, bool_decide (is_Some err)).

(** The server does not echo what it reads: whatever the number of bytes that it has read, it
    writes its whole buffer, with old data behind the new. *)
Lemma echo_writes_buffer s got err s' data stop :
  length (ec_data s) = bufferSize -> (length got <= bufferSize)%nat -> echo_step s got err = (s', Some data, stop) ->
  length data = bufferSize /\ data = got ++ drop (length got) (ec_data s) /\ ec_data s' = data.
Proof.
  intros Hl Hg. unfold echo_step. destruct (if _ >=? _ then _ else _) as [[bytesRead i] stop']. destruct stop'; [done|].
  intros [= <- <- <-]. split_and!; [|done|done]. rewrite length_app, length_drop. lia.
Qed.

(** ** example/puic-poll *)

(** [wait] in milliseconds; [r] is the random number.  The remainder is that of Go. *)
Definition poll_wait (waitFrom waitTo r : Z) : res Z :=
  if waitTo - waitFrom =? 0 then Panic else Ok (waitFrom + Z.rem r (waitTo - waitFrom)).

Lemma poll_wait_bounds waitFrom waitTo r : 0 <= r -> waitFrom < waitTo ->
  exists w, poll_wait waitFrom waitTo r = Ok w /\ waitFrom <= w < waitTo.
Proof.
  intros Hr Hw. unfold poll_wait. rewrite (proj2 (Z.eqb_neq _ _)) by lia. eexists. split; [done|].
  pose proof (Z.rem_bound_pos r (waitTo - waitFrom) Hr). lia.
Qed.
(** A wait of a fixed time panics, and limits in the wrong order make it longer. *)
Lemma poll_wait_equal w r : poll_wait w w r = Panic.
Proof. unfold poll_wait. by rewrite Z.sub_diag. Qed.
Lemma poll_wait_swapped waitFrom waitTo r : 0 <= r -> waitTo < waitFrom ->
  exists w, poll_wait waitFrom waitTo r = Ok w /\ waitTo < w.
Proof.
  intros Hr Hw. unfold poll_wait. rewrite (proj2 (Z.eqb_neq _ _)) by lia. eexists. split; [done|].
  pose proof (Z.rem_nonneg r (waitTo - waitFrom) ltac:(lia) Hr). lia.
Qed.

(** The main loop: statistics are written to a file, [collect] of them to each of [runs] files;
    [open] is the result of opening the next file. *)
Record poll {S : Type} : Type := mkPoll {
  po_j : Z;
  po_run : Z;
  po_file : list S;               (* the lines of the open file *)
  po_closed : list (list S);      (* the files that have been closed *)
}.
Arguments poll S : clear implicits.
Arguments mkPoll {S}.

Definition poll_step {S} (collect runs : Z) (open : res unit) (p : poll S) (stats : S) : res (poll S * bool) :=
  if negb (po_j p <? collect) then Panic      (* collectedStats[j] *)
  else
    let file := po_file p ++ [stats] in
    let j := po_j p + 1 in
    if j >=? collect then
      let p := mkPoll 0 (po_run p + 1) [] (po_closed p ++ [file]) in
      if po_run p >=? runs then Ok (p, true)
      else match open with Ok _ => Ok (p, false) | _ => Panic end
    else Ok (mkPoll j (po_run p) file (po_closed p), false).
Fixpoint poll_loop {S} (collect runs : Z) (p : poll S) (stats : list S) : res (poll S * bool) :=
  match stats with
  | [] => Ok (p, false)
  | s :: stats =>
      let! (p, stop) := poll_step collect runs (Ok tt) p s in
      if stop : bool then Ok (p, true) else poll_loop collect runs p stats
  end.

(** [collect] steps fill a file. *)
Lemma poll_file {S} collect runs (p : poll S) l rest : (0 < length l)%nat -> 0 <= po_j p -> po_j p + len l = collect ->
  poll_loop collect runs p (l ++ rest) =
    let p' := mkPoll 0 (po_run p + 1) [] (po_closed p ++ [po_file p ++ l]) in
    if po_run p + 1 >=? runs then Ok (p', true) else poll_loop collect runs p' rest.
Proof.
  revert p. induction l as [|s l IH]; intros p Hl Hj Hc; [cbn in Hl; lia|]. rewrite len_cons in Hc. pose proof (len_nonneg l).
  cbn [app poll_loop]. unfold poll_step. rewrite (proj2 (Z.ltb_lt _ _)) by lia. cbn [negb]. destruct l as [|s' l].
  - rewrite len_nil in Hc. destruct (Z.geb_spec (po_j p + 1) collect); [|lia]. cbn [po_run]. by destruct (po_run p + 1 >=? runs).
  - rewrite len_cons in Hc. pose proof (len_nonneg l). destruct (Z.geb_spec (po_j p + 1) collect); [lia|]. cbn [rbind].
    rewrite IH; [|cbn; lia|cbn; lia|cbn [po_j]; rewrite len_cons; lia]. cbn [po_run po_file po_closed]. by rewrite <- app_assoc.
Qed.

(** The program makes [runs] times [collect] requests, and writes the statistics of [collect]
    consecutive ones to each of [runs] files. *)
Theorem poll_files {S} collect runs (files : list (list S)) rest p : 0 < collect -> files <> [] ->
  Forall (fun f => len f = collect) files -> po_j p = 0 -> po_file p = [] -> po_run p + len files = runs ->
  exists p', poll_loop collect runs p (concat files ++ rest) = Ok (p', true) /\ po_closed p' = po_closed p ++ files.
Proof.
  intros Hc Hne Hf. revert p Hne. induction Hf as [|f files Hlen Hf IH]; [done|]. intros p _ Hj Hfile Hruns. cbn [concat]. rewrite <- app_assoc.
  rewrite len_cons in Hruns. pose proof (len_nonneg files). rewrite poll_file; [|unfold len in Hlen; lia|lia|lia]. cbn zeta. rewrite Hfile. cbn [app].
  destruct files as [|f' files].
  - rewrite len_nil in Hruns. destruct (Z.geb_spec (po_run p + 1) runs); [|lia]. eexists. split; [done|]. done.
  - rewrite len_cons in Hruns. pose proof (len_nonneg files). destruct (Z.geb_spec (po_run p + 1) runs); [lia|].
    destruct (IH (mkPoll 0 (po_run p + 1) [] (po_closed p ++ [f]))) as (p' & Hp & Ec); [done|done|done|cbn [po_run]; rewrite len_cons; lia|].
    exists p'. split; [exact Hp|]. rewrite Ec. cbn [po_closed]. by rewrite <- app_assoc.
Qed.

(** Without room for statistics the first one is an index out of range. *)
Lemma poll_nothing {S} runs open (s : S) : poll_step 0 runs open (mkPoll 0 0 [] []) s = Panic.
Proof. reflexivity. Qed.
